(* ===== verification/_CoqProject ===== *)
-Q . S2P
Prelude.v
Dll.v
Sleeplock.v
Bio.v
Memide.v
FsLayout.v
Log.v
LogCrash.v
LogProtocol.v
Tx.v
LogExample.v
CString.v
Fs.v
FsAlloc.v
FsInode.v
FsFile.v
FsWrite.v
FsDir.v
FsLink.v
FsPath.v
FsExample.v
Grep.v
Pipe.v
Kalloc.v
Vm.v
PageTable.v
AddrSpace.v
CopyVm.v
VmExample.v
Fcntl.v
Spinlock.v
Kernel.v
File.v
Proc.v
ProcInv.v
Sysfile.v
Syscall.v
Panics.v
FileRefs.v
ExecStack.v
KernelExample.v
Shell.v
ShellParse.v
ShellRun.v
Umalloc.v
Printf.v
Console.v
Kbd.v
Ide.v
Mp.v
Mkfs.v
MkfsImage.v
MkfsCorrect.v
Trap.v
Sleep.v
Boot.v
Lapic.v
SysArgs.v
User.v
UserText.v
ShellMain.v
Keeps.v
Segments.v
FileWrite.v
Uart.v
Init.v
