(* ===== verification/Prelude.v ===== *)
(** * A verification development for xv6

    The program is the xv6 teaching kernel with its user programs (src/, one flat
    directory).  This library models its data structures and operations as
    executable definitions and proves what they are meant to do.

    ** The program and its layers

    From the bottom: the page allocator (kalloc.c) hands out physical pages; the
    page tables (vm.c) are built from such pages and give each process its memory.
    The disk drivers (memide.c, ide.c) move blocks; the buffer cache (bio.c) keeps
    copies of them; the log (log.c) makes a group of block writes atomic over a
    crash; the file system (fs.c) keeps inodes, files and directories in blocks and
    only reaches the disk through the log and the cache.  Open files (file.c) are
    references to inodes or pipes (pipe.c).  Processes (proc.c) hold descriptors, an
    address space and a state; exec (exec.c) replaces an address space.  The system
    calls (syscall.c, sysfile.c, sysproc.c) fetch their arguments from user memory
    and call the rest; traps (trap.c) and the descriptor tables (vm.c, mmu.h) are the
    way into the kernel.  Devices: the console (console.c, kbd.c), the serial port
    (uart.c), the interrupt controllers and the clock (lapic.c, ioapic.c, picirq.c) and
    the processor tables of the firmware (mp.c).  The boot loader (bootmain.c) loads the
    kernel and mkfs.c makes the first file system.  User programs: init (init.c), the
    shell (sh.c), grep (grep.c), the small tools (cat.c, wc.c, ls.c, ...) and the
    library (ulib.c, umalloc.c, printf.c).

    ** How the code is modelled

    A C function that changes state is a function of the monad [M S A] of this
    file: from a state to [Ok] with a result, [Panic] with the message of the
    [panic] call, or [Blocked].  [Blocked] is the state in which the code waits: in
    [sleep] or [sched], or in a loop that never ends.  A loop is a structural
    recursion where the source bounds it; otherwise it takes a fuel argument, the
    callers pass an amount computed from the sizes involved, and exhausted fuel is
    [Blocked], so that a theorem about [wp] (which asks for [Ok]) also shows that
    the fuel is enough and the loop ends.  Integers are [Z] with [u32], [s32] and
    [u16] where the C type wraps; bytes are [Byte.byte]; structures on disk and in
    firmware tables are read at the offsets of their fields.  Spin locks make the
    code they protect one step; [Spinlock] justifies that for the lock itself.

    ** The files

    - [Prelude]: bytes, integers, the monad and its weakest preconditions, arrays.
    - [Dll], [Sleeplock], [Bio]: the buffer cache over a [DiskDriver] interface; the
      cache refines a map from block numbers to contents.  [Memide] and [Ide] are
      the drivers; [Ide] shows that commands reach the disk in order and that the data
      of a read reaches its buffer.
    - [FsLayout], [Log], [LogCrash], [LogProtocol], [Tx], [LogExample]: the log.  A
      crash at any block write of a commit or of a recovery leaves all or none of a
      transaction; operations of less than MAXOPBLOCKS blocks never fill the log, while
      full ones fill the log that mkfs lays out; the interface [TxStore] with its laws
      [TxLaws] is what the file system relies on, and the log over the cache is an
      instance of it.
    - [Fs], [FsAlloc], [FsInode], [FsFile], [FsWrite], [FsDir], [FsLink], [FsPath],
      [FsExample]: fs.c, proved against [TxLaws]: block allocation, the inode cache,
      reads and writes of files, directory lookup and linking.  A write changes the
      blocks of its file only ([isolated], [file_confined]) and takes one free block of
      the disk for each block that the file lacked ([spare]), so that it fails only when
      these are too few ([disk_full]); the walk of a path name refines the resolution of
      names in a tree of directories.
    - [CString], [Kalloc], [Vm], [PageTable], [AddrSpace], [CopyVm], [VmExample]:
      memory.  Page ownership, growth, shrinking and copying of address spaces, and
      that failures give back every page.
    - [Spinlock]: mutual exclusion and interrupt nesting over interleaved CPUs.
    - [Sleep]: sleep, wakeup and the scheduler over interleaved CPUs and processes, with
      the interrupt state of each CPU; no wakeup is lost, no check of sched or of the
      locks fails, and the scheduler runs the first runnable process.
    - [Kernel], [Fcntl], [File], [Pipe], [Proc], [Sysfile], [Syscall]: the state of
      the kernel and its system calls.  [ProcInv]: invariants of the process table
      over all interleavings of kernel operations.  [Panics], [FileRefs]: reference
      counts of open files over all system calls.  [Keeps]: operations that keep an
      invariant, by the structure of their code.  [SysArgs]: arguments are fetched exactly when they lie in the memory of the
      process.  [ExecStack]: the stack of a new program.  [FileWrite]: a write through
      file, inode, log, cache and driver is on the disk when it returns.  [Trap]: traps
      and interrupts, through the preemption of the process to its return.  [Segments]: descriptors, gates and the task state, and that user
      mode enters the kernel only through them.  [KernelExample]: a concrete state.
    - [Boot]: the boot loader.  [Mkfs], [MkfsImage], [MkfsCorrect]: the tool that makes
      the first file system, and that its image satisfies the invariants the kernel
      relies on.
    - [Console], [Kbd], [Uart], [Printf], [Lapic], [Mp]: devices, formatted output,
      interrupt controllers and clock, the tables of the firmware.
    - [Init], [Shell], [ShellParse], [ShellRun], [ShellMain], [Grep], [User],
      [UserText], [Umalloc]: user programs.  The parser of the shell finds the
      derivation of its line; running a command wires the descriptors; the main loop
      runs the lines of its input; grep decides its patterns and prints the matching
      lines; cat, wc, ls and the others put out what they should for any results of
      their system calls; the allocator never hands out overlapping blocks.

    ** Fuel and bounds

    [mappages], [allocuvm], [deallocuvm], [copyuvm] and [copyout] get one turn per
    page and a few more; string loops get the length of the string; [mpinit] needs
    8192 turns, the length of a configuration table over the size of its smallest
    entry.  [filewrite] gets one turn per 1536 bytes and two more, and a transaction of
    it takes at most 25 of the 29 blocks that the log has room for.  Theorems about these
    functions are stated with [wp], so they include that the fuel suffices.

    ** Where the model is coarser than the code

    - In [ProcInv] an operation of a process up to its next sleep is one step; fork is
      taken only while the pid counter does not wrap around.
    - Reference counts of inodes and files ([i_ref], [f_ref]) are integers without a
      bound; the tables are far smaller than 2^31.
    - A pipe is an entry of a table of its own and not the page that kalloc returned for
      it, which is allocated and freed as in the code.  The heap of [Umalloc] is a map from addresses to headers.
    - A page table walk that finds nothing is a panic in [uva2ka] where the source would
      read address 0.
    - [Sleep] takes an acquire that succeeds as one step, and has sleep with a lock other
      than ptable.lock; wait, which sleeps on ptable.lock itself, is in [ProcInv].
    - In [Trap] the state in which the scheduler resumes a preempted process is a
      parameter, any function of the state in which it was preempted.

    ** Not modelled

    - Assembly (bootasm.S, entry.S, entryother.S, initcode.S, swtch.S, trapasm.S,
      usys.S) and the scripts that generate code: they are not C.  [swtch] appears
      as the point where an operation stops; in [Sleep] it hands [ptable.lock] over.
    - main.c calls the initialisation functions in order and starts the other
      processors with code in assembly; the functions themselves are modelled.
    - usertests.c, stressfs.c, forktest.c and zombie.c are tests of the running system:
      what they say is about runs of all of it at once.  The main function of grep.c
      opens the files it is given; its matcher and its loop over the input are modelled.
    - kthread.h declares an interface that no file implements; defs.h and user.h are
      prototypes.
    - [procdump] and [panic] print for debugging; a panic is a result. *)

From Stdlib Require Export ZArith Lia.
From Stdlib.Strings Require Import Byte.
From stdpp Require Export base tactics functions numbers list gmap strings sorting.

#[global] Set Default Goal Selector "!".

Declare Scope xv6_scope.
Delimit Scope xv6_scope with xv6.
Open Scope Z_scope.

(** ** Bytes

    C's [char] and [uchar] cells are the 256 values of [Byte.byte]; [uchar]
    reads one as an unsigned number, [schar] as gcc's signed [char], and
    [to_uchar] is the conversion a store performs (reduction modulo 256). *)

Abbreviation byte := Byte.byte.

#[global] Instance byte_eq_dec : EqDecision byte := Byte.byte_eq_dec.
#[global] Instance byte_inhabited : Inhabited byte := populate Byte.x00.

Definition uchar (b : byte) : Z := Z.of_N (Byte.to_N b).

Definition to_uchar (z : Z) : byte :=
  match Byte.of_N (Z.to_N (z mod 256)) with Some b => b | None => Byte.x00 end.

Definition schar (b : byte) : Z :=
  if uchar b <? 128 then uchar b else uchar b - 256.

Lemma uchar_range b : 0 ≤ uchar b < 256.
Proof. unfold uchar. pose proof (Byte.to_N_bounded b). lia. Qed.

Lemma uchar_to_uchar z : uchar (to_uchar z) = z mod 256.
Proof.
  unfold to_uchar, uchar. pose proof (Z.mod_pos_bound z 256 ltac:(lia)).
  destruct (Byte.of_N _) as [b|] eqn:E.
  - apply Byte.to_of_N in E. rewrite E. lia.
  - apply Byte.of_N_None_iff in E. lia.
Qed.

Lemma to_uchar_uchar b : to_uchar (uchar b) = b.
Proof.
  unfold to_uchar, uchar. pose proof (Byte.to_N_bounded b).
  rewrite Z.mod_small by lia. rewrite N2Z.id, Byte.of_to_N. done.
Qed.

#[global] Instance uchar_inj : Inj (=) (=) uchar.
Proof. intros a b H. rewrite <-(to_uchar_uchar a), <-(to_uchar_uchar b). by f_equal. Qed.

Lemma to_uchar_mod z : to_uchar (z mod 256) = to_uchar z.
Proof. apply uchar_inj. rewrite !uchar_to_uchar. apply Z.mod_mod. lia. Qed.

Lemma uchar_eq_0 b : uchar b = 0 ↔ b = Byte.x00.
Proof.
  split; [|by intros ->]. intros H. apply uchar_inj. rewrite H. done.
Qed.

(** A string literal as bytes, and the string in a buffer, up to its NUL. *)
Definition bytes_of (s : string) : list byte := Stdlib.Strings.String.list_byte_of_string s.

Fixpoint until_nul (l : list byte) : list byte :=
  match l with
  | [] => []
  | c :: l => if decide (c = Byte.x00) then [] else c :: until_nul l
  end.

(** ** Machine integers

    A 32-bit [uint] is a [Z] in [0 .. 2^32); [u32] is the wrap-around of its
    arithmetic and [s32] the two's-complement reading of the same word. *)

Definition u32 (z : Z) : Z := z mod 2 ^ 32.
Definition u16 (z : Z) : Z := z mod 2 ^ 16.
Definition s32 (z : Z) : Z := (z + 2 ^ 31) mod 2 ^ 32 - 2 ^ 31.
Definition s16 (z : Z) : Z := (z + 2 ^ 15) mod 2 ^ 16 - 2 ^ 15.

Lemma u32_range z : 0 ≤ u32 z < 2 ^ 32.
Proof. apply Z.mod_pos_bound. lia. Qed.

Lemma u32_small z : 0 ≤ z < 2 ^ 32 → u32 z = z.
Proof. apply Z.mod_small. Qed.

Lemma u32_idemp z : u32 (u32 z) = u32 z.
Proof. apply Z.mod_mod. lia. Qed.

Lemma u32_add_l a b : u32 (u32 a + b) = u32 (a + b).
Proof. apply Zplus_mod_idemp_l. Qed.

Lemma u32_sub_eq a b : 0 ≤ a < 2 ^ 32 → 0 ≤ b < 2 ^ 32 →
  u32 (a - b) = if b <=? a then a - b else a - b + 2 ^ 32.
Proof.
  intros. unfold u32. destruct (Z.leb_spec b a).
  - apply Z.mod_small. lia.
  - rewrite <-(Z.mod_add _ 1) by lia. rewrite Z.mod_small; lia.
Qed.

Lemma s32_small z : -2 ^ 31 ≤ z < 2 ^ 31 → s32 z = z.
Proof. intros. unfold s32. rewrite Z.mod_small; lia. Qed.

Lemma s32_u32 z : s32 (u32 z) = s32 z.
Proof. unfold s32, u32. by rewrite Zplus_mod_idemp_l. Qed.

Lemma s32_range z : -2 ^ 31 ≤ s32 z < 2 ^ 31.
Proof. unfold s32. pose proof (Z.mod_pos_bound (z + 2 ^ 31) (2 ^ 32)). lia. Qed.

(** ** Little-endian words *)

Fixpoint le_val (bs : list byte) : Z :=
  match bs with
  | [] => 0
  | b :: bs => uchar b + 256 * le_val bs
  end.

Fixpoint le_bytes (n : nat) (z : Z) : list byte :=
  match n with
  | O => []
  | S n => to_uchar z :: le_bytes n (z / 256)
  end.

Lemma length_le_bytes n z : length (le_bytes n z) = n.
Proof. revert z. induction n; intros; simpl; [done|]. by rewrite IHn. Qed.

Lemma le_val_bytes n z : le_val (le_bytes n z) = z mod 256 ^ Z.of_nat n.
Proof.
  revert z. induction n as [|n IH]; intros z; simpl.
  - by rewrite Z.mod_1_r.
  - rewrite IH, uchar_to_uchar.
    replace (Z.of_nat (S n)) with (1 + Z.of_nat n) by lia.
    rewrite Z.pow_add_r, Z.pow_1_r by lia.
    rewrite Z.rem_mul_r; [done|lia|]. apply Z.pow_pos_nonneg; lia.
Qed.

Lemma le_val_range bs : 0 ≤ le_val bs < 256 ^ Z.of_nat (length bs).
Proof.
  induction bs as [|b bs IH]; simpl; [lia|].
  replace (Z.of_nat (S (length bs))) with (1 + Z.of_nat (length bs)) by lia.
  rewrite Z.pow_add_r, Z.pow_1_r by lia. pose proof (uchar_range b). lia.
Qed.

Lemma le_bytes_val bs : le_bytes (length bs) (le_val bs) = bs.
Proof.
  induction bs as [|b bs IH]; simpl; [done|].
  pose proof (uchar_range b). f_equal.
  - rewrite <-to_uchar_mod, (Z.mul_comm 256), Z.mod_add by lia.
    rewrite Z.mod_small by lia. apply to_uchar_uchar.
  - rewrite (Z.mul_comm 256), Z.div_add by lia.
    rewrite Z.div_small by lia. apply IH.
Qed.

Lemma le_val_bytes4 z : le_val (le_bytes 4 z) = u32 z.
Proof. by rewrite le_val_bytes. Qed.

Lemma le_val_bytes2 z : le_val (le_bytes 2 z) = u16 z.
Proof. by rewrite le_val_bytes. Qed.

(** ** Effects

    Kernel code runs on an explicit state: a call returns a value and the next
    state, goes to sleep ([Blocked]: the process has given up the CPU inside
    [sleep] and waits for a [wakeup]), or stops the machine with [panic]. *)

Inductive res (S A : Type) : Type :=
  | Ok (a : A) (s : S)
  | Blocked (s : S)
  | Panic (msg : string).
Arguments Ok {S A} a s.
Arguments Blocked {S A} s.
Arguments Panic {S A} msg.

Definition M (S A : Type) : Type := S → res S A.

#[global] Instance M_ret {S} : MRet (M S) := λ A a s, Ok a s.
#[global] Instance M_bind {S} : MBind (M S) := λ A B k m s,
  match m s with
  | Ok a s' => k a s'
  | Blocked s' => Blocked s'
  | Panic msg => Panic msg
  end.

Definition getS {S} : M S S := λ s, Ok s s.
Definition putS {S} (s : S) : M S unit := λ _, Ok tt s.
Definition gets {S A} (f : S → A) : M S A := λ s, Ok (f s) s.
Definition modify {S} (f : S → S) : M S unit := λ s, Ok tt (f s).
Definition panic {S A} (msg : string) : M S A := λ _, Panic msg.
Definition sleeps {S A} : M S A := λ s, Blocked s.

(** [wp m Q s]: from [s], [m] returns normally, in a result and state
    satisfying [Q]; in particular it neither panics nor blocks. *)
Definition wp {S A} (m : M S A) (Q : A → S → Prop) (s : S) : Prop :=
  match m s with Ok a s' => Q a s' | _ => False end.

Section wp.
Context {S A B : Type}.
Implicit Types (m : M S A) (Q : A → S → Prop).

Lemma wp_iff m Q s : wp m Q s ↔ ∃ a s', m s = Ok a s' ∧ Q a s'.
Proof.
  unfold wp. split.
  - destruct (m s) as [a s'| |]; naive_solver.
  - intros (a & s' & -> & ?). done.
Qed.

Lemma wp_mono m Q Q' s :
  wp m Q s → (∀ a s', Q a s' → Q' a s') → wp m Q' s.
Proof. unfold wp. destruct (m s); naive_solver. Qed.

Lemma wp_bind m (k : A → M S B) (Q : B → S → Prop) s :
  wp m (λ a, wp (k a) Q) s → wp (m ≫= k) Q s.
Proof. unfold wp, mbind, M_bind. destruct (m s); done. Qed.

Lemma wp_Ok m Q s a s' : m s = Ok a s' → Q a s' → wp m Q s.
Proof. unfold wp. by intros ->. Qed.
End wp.

Lemma wp_ret {S A} (a : A) (Q : A → S → Prop) s : Q a s → wp (mret a) Q s.
Proof. done. Qed.

Lemma bind_Ok {S A B} (m : M S A) (k : A → M S B) s a s' :
  m s = Ok a s' → (m ≫= k) s = k a s'.
Proof. unfold mbind, M_bind. by intros ->. Qed.

Lemma bind_inv {X A B} (m : M X A) (k : A → M X B) x b x' : (m ≫= k) x = Ok b x' → ∃ a y, m x = Ok a y ∧ k a y = Ok b x'.
Proof. unfold mbind, M_bind. destruct (m x); [|done|done]. eauto. Qed.

Lemma insert_cases {A} (l : list A) i x j y : <[i := x]> l !! j = Some y → (j = i ∧ y = x) ∨ (j ≠ i ∧ l !! j = Some y).
Proof. intros H. apply list_lookup_insert_Some in H as [(-> & -> & _)|[? ?]]; [by left|right; by split]. Qed.

(** [wpp m Q E s]: [m] returns with [Q], or panics with a message in [E]. *)
Definition wpp {S A} (m : M S A) (Q : A → S → Prop) (E : string → Prop) (s : S) : Prop :=
  match m s with Ok a s' => Q a s' | Blocked _ => False | Panic msg => E msg end.

Section wpp.
Context {S A B : Type}.

Lemma wpp_bind (m : M S A) (k : A → M S B) (Q : B → S → Prop) E s :
  wpp m (λ a, wpp (k a) Q E) E s → wpp (m ≫= k) Q E s.
Proof. unfold wpp, mbind, M_bind. destruct (m s); done. Qed.

Lemma wpp_mono (m : M S A) (Q Q' : A → S → Prop) (E E' : string → Prop) s :
  wpp m Q E s → (∀ a s', Q a s' → Q' a s') → (∀ msg, E msg → E' msg) → wpp m Q' E' s.
Proof. unfold wpp. destruct (m s); auto. Qed.

Lemma wp_wpp (m : M S A) (Q : A → S → Prop) E s : wp m Q s → wpp m Q E s.
Proof. unfold wp, wpp. by destruct (m s). Qed.

Lemma wp_wpp_bind (m : M S A) (k : A → M S B) (Q : B → S → Prop) E s :
  wp m (λ a, wpp (k a) Q E) s → wpp (m ≫= k) Q E s.
Proof. intros H. by apply wpp_bind, wp_wpp. Qed.

Lemma wpp_wp (m : M S A) (Q : A → S → Prop) E s : wpp m Q E s → (∀ msg, ¬ E msg) → wp m Q s.
Proof. unfold wp, wpp. destruct (m s); naive_solver. Qed.
End wpp.

(** [wp_step H]: run the next call with its specification [H]. *)
Ltac wp_step H := apply wp_bind; eapply wp_mono; [eapply H|].

(** ** Arrays

    [alter f i l] is [l[i] = f(l[i])]; [l !!! i] reads a slot known to exist. *)

Section array.
Context {A : Type} `{Inhabited A}.
Implicit Types (l : list A).

Lemma alter_oob (f : A → A) i l : (length l ≤ i)%nat → alter f i l = l.
Proof. revert i. induction l as [|y l IH]; intros [|i]; simpl; intros; [done..|lia|]. f_equal. apply IH. lia. Qed.

Lemma alter_insert (f : A → A) i l : alter f i l = <[i := f (l !!! i)]> l.
Proof.
  revert i. induction l as [|y l IH]; intros [|i]; simpl; [done..|].
  f_equal. apply IH.
Qed.

(** An update that keeps the field [g] keeps it in every slot. *)
Lemma alter_field {B} (g : A → B) (f : A → A) i j l :
  (∀ x, g (f x) = g x) → g (alter f i l !!! j) = g (l !!! j).
Proof.
  intros Hf. destruct (decide (i = j)) as [<-|]; [|by rewrite list_lookup_total_alter_ne].
  destruct (decide (i < length l)%nat).
  - by rewrite list_lookup_total_alter_eq.
  - by rewrite alter_oob by lia.
Qed.

Lemma alter_all (R : A → Prop) (f : A → A) i l :
  (∀ x, R x → R (f x)) → (∀ j, R (l !!! j)) → ∀ j, R (alter f i l !!! j).
Proof.
  intros Hf Hl j. destruct (decide (i = j)) as [<-|]; [|by rewrite list_lookup_total_alter_ne].
  destruct (decide (i < length l)%nat).
  - rewrite list_lookup_total_alter_eq by done. auto.
  - by rewrite alter_oob by lia.
Qed.

(** A write to the field [g] of slot [i]. *)
Lemma alter_field_set {B} (g : A → B) (f : A → A) (v : B) i j l :
  (∀ x, g (f x) = v) → (i < length l)%nat →
  g (alter f i l !!! j) = (<[i := v]> (λ j, g (l !!! j))) j.
Proof.
  intros Hf Hi. destruct (decide (i = j)) as [<-|].
  - by rewrite list_lookup_total_alter_eq, fn_lookup_insert.
  - by rewrite list_lookup_total_alter_ne, fn_lookup_insert_ne.
Qed.
End array.

Lemma wp_getS {S A} (k : S → M S A) (Q : A → S → Prop) s :
  wp (k s) Q s → wp (getS ≫= k) Q s.
Proof. done. Qed.

Lemma wp_modify {S A} (f : S → S) (k : unit → M S A) (Q : A → S → Prop) s :
  wp (k tt) Q (f s) → wp (modify f ≫= k) Q s.
Proof. done. Qed.

Lemma wp_modify_end {S} (f : S → S) (Q : unit → S → Prop) s : Q tt (f s) → wp (modify f) Q s.
Proof. done. Qed.

Lemma wp_gets {S A B} (f : S → A) (k : A → M S B) (Q : B → S → Prop) s : wp (k (f s)) Q s → wp (gets f ≫= k) Q s.
Proof. done. Qed.

Lemma wp_ret_bind {S A B} (a : A) (k : A → M S B) (Q : B → S → Prop) s :
  wp (k a) Q s → wp (mret a ≫= k) Q s.
Proof. done. Qed.

(** [blit off d l]: [memmove(l + off, d, length d)] on an array of cells. *)
Definition blit {A} (off : nat) (d l : list A) : list A :=
  take off l ++ d ++ drop (off + length d) l.

Section blit.
Context {A : Type}.
Implicit Types (l d : list A).
Local Open Scope nat_scope.

Lemma length_blit off d l : off + length d ≤ length l → length (blit off d l) = length l.
Proof. intros. unfold blit. rewrite !length_app, length_take, length_drop. lia. Qed.

Lemma slice_blit_eq off d l :
  off + length d ≤ length l → take (length d) (drop off (blit off d l)) = d.
Proof.
  intros. unfold blit. rewrite drop_app_length' by (rewrite length_take; lia).
  by rewrite take_app_length.
Qed.

Lemma slice_blit_ne off d l o n :
  off + length d ≤ length l → o + n ≤ off ∨ off + length d ≤ o →
  take n (drop o (blit off d l)) = take n (drop o l).
Proof.
  intros Hl [Hlt|Hge]; unfold blit.
  - rewrite drop_app_le by (rewrite length_take; lia).
    rewrite take_app_le by (rewrite length_drop, length_take; lia).
    rewrite skipn_firstn_comm, take_take. by rewrite Nat.min_l by lia.
  - rewrite drop_app_ge by (rewrite length_take; lia).
    rewrite drop_app_ge by (rewrite length_take; lia).
    rewrite length_take, Nat.min_l by lia. rewrite drop_drop. do 2 f_equal. lia.
Qed.

Lemma lookup_blit off d l i :
  off + length d ≤ length l →
  blit off d l !! i = if decide (off ≤ i < off + length d) then d !! (i - off) else l !! i.
Proof.
  intros. unfold blit. case_decide.
  - rewrite lookup_app_r by (rewrite length_take; lia).
    rewrite length_take, Nat.min_l by lia. by rewrite lookup_app_l by lia.
  - destruct (decide (i < off)).
    + rewrite lookup_app_l by (rewrite length_take; lia). by rewrite lookup_take_lt.
    + rewrite lookup_app_r by (rewrite length_take; lia).
      rewrite length_take, Nat.min_l by lia. rewrite lookup_app_r by lia.
      rewrite lookup_drop. f_equal. lia.
Qed.
End blit.

Lemma nth_blit o (d l : list byte) i :
  (o + length d ≤ length l)%nat →
  nth i (blit o d l) Byte.x00 =
    if decide (o ≤ i < o + length d)%nat then nth (i - o) d Byte.x00 else nth i l Byte.x00.
Proof. intros Hl. rewrite !nth_lookup, lookup_blit by done. by case_decide. Qed.

(** [ld n off d] and [st n off v d]: an [n]-byte little-endian load and store
    at byte offset [off], what the casts of [bp->data] to structs amount to. *)
Definition ld (n off : nat) (d : list byte) : Z := le_val (take n (drop off d)).
Definition st (n off : nat) (v : Z) (d : list byte) : list byte := blit off (le_bytes n v) d.

Section loadstore.
Implicit Types (d : list byte).

Lemma length_st n off v d : (off + n ≤ length d)%nat → length (st n off v d) = length d.
Proof. intros. unfold st. apply length_blit. by rewrite length_le_bytes. Qed.

Lemma ld_st_eq n off v d :
  (off + n ≤ length d)%nat → ld n off (st n off v d) = v mod 256 ^ Z.of_nat n.
Proof.
  intros Hl. unfold ld, st. rewrite <-(length_le_bytes n v) at 1.
  rewrite slice_blit_eq by (by rewrite length_le_bytes). apply le_val_bytes.
Qed.

Lemma ld_st_ne n off v d n' off' :
  (off + n ≤ length d)%nat → (off' + n' ≤ off ∨ off + n ≤ off')%nat →
  ld n' off' (st n off v d) = ld n' off' d.
Proof.
  intros Hl Hne. unfold ld, st. rewrite slice_blit_ne; [done|..]; by rewrite length_le_bytes.
Qed.

Lemma ld_range n off d : 0 ≤ ld n off d < 256 ^ Z.of_nat n.
Proof.
  unfold ld. pose proof (le_val_range (take n (drop off d))) as Hr.
  rewrite length_take in Hr. split; [lia|]. eapply Z.lt_le_trans; [apply Hr|].
  apply Z.pow_le_mono_r; lia.
Qed.
End loadstore.

(** [for(i = from; i < from + n; i++) f(i)] *)
Fixpoint mfor {S} (from n : nat) (f : nat → M S unit) : M S unit :=
  match n with
  | O => mret tt
  | Datatypes.S n => f from;; mfor (Datatypes.S from) n f
  end.

Lemma wp_mfor {S} (Inv : nat → S → Prop) from n f (Q : unit → S → Prop) s :
  Inv from s →
  (∀ j s, (from ≤ j < from + n)%nat → Inv j s → wp (f j) (λ _, Inv (Datatypes.S j)) s) →
  (∀ s, Inv (from + n)%nat s → Q tt s) →
  wp (mfor from n f) Q s.
Proof.
  revert from s. induction n as [|n IH]; intros from s Hi Hstep Hend; simpl.
  - apply wp_ret. apply Hend. by rewrite Nat.add_0_r.
  - apply wp_bind. eapply wp_mono; [apply Hstep; [lia|done]|]. intros [] s' Hi'. simpl in *.
    apply IH; [done| |].
    + intros j s'' Hj. apply Hstep. lia.
    + intros s'' Hi''. apply Hend. by rewrite Nat.add_succ_r.
Qed.

(** ** Counting *)

(** How many of the numbers 0 to [n] - 1 satisfy [P]. *)
Fixpoint tally (P : Z → bool) (n : nat) : Z :=
  match n with
  | O => 0
  | Datatypes.S n => tally P n + Z.b2z (P (Z.of_nat n))
  end.

Section tally.
Implicit Types (P Q : Z → bool) (n : nat) (k : Z).

Lemma tally_ext P Q n : (∀ k, 0 ≤ k < Z.of_nat n → P k = Q k) → tally P n = tally Q n.
Proof.
  induction n as [|n IH]; intros H; cbn [tally]; [done|]. rewrite IH by (intros; apply H; lia). by rewrite H by lia.
Qed.

Lemma tally_nonneg P n : 0 ≤ tally P n.
Proof. induction n as [|n IH]; cbn [tally]; [done|]. destruct (P _); cbn; lia. Qed.

Lemma tally_none P n : (∀ k, 0 ≤ k < Z.of_nat n → P k = false) → tally P n = 0.
Proof.
  induction n as [|n IH]; intros H; cbn [tally]; [done|]. rewrite IH by (intros; apply H; lia). by rewrite H by lia.
Qed.

Lemma tally_mono P Q n : (∀ k, 0 ≤ k < Z.of_nat n → P k = true → Q k = true) → tally P n ≤ tally Q n.
Proof.
  induction n as [|n IH]; intros H; cbn [tally]; [done|]. specialize (IH ltac:(intros; apply H; [lia|done])).
  specialize (H (Z.of_nat n) ltac:(lia)). destruct (P _); [rewrite H by done|destruct (Q _)]; cbn; lia.
Qed.

(** One number less. *)
Lemma tally_less P Q n k :
  0 ≤ k < Z.of_nat n → P k = true → Q k = false → (∀ j, 0 ≤ j < Z.of_nat n → j ≠ k → Q j = P j) → tally P n = tally Q n + 1.
Proof.
  induction n as [|n IH]; intros Hk HP HQ H; cbn [tally]; [lia|]. destruct (decide (k = Z.of_nat n)) as [->|Hne].
  - rewrite HP, HQ, (tally_ext P Q) by (intros; symmetry; apply H; lia). cbn. lia.
  - rewrite IH by (try done; try lia; intros; apply H; lia). rewrite H by lia. lia.
Qed.

Lemma tally_pos P n k : 0 ≤ k < Z.of_nat n → P k = true → 0 < tally P n.
Proof.
  intros Hk HP. rewrite (tally_less P (λ j, P j && negb (j =? k)) n k Hk HP).
  - pose proof (tally_nonneg (λ j, P j && negb (j =? k)) n). lia.
  - by rewrite Z.eqb_refl, andb_false_r.
  - intros j _ Hj. by rewrite (proj2 (Z.eqb_neq _ _) Hj), andb_true_r.
Qed.
End tally.
