(* ===== verification/Dll.v ===== *)
(** * Circular doubly-linked lists

    The pointer structure of the buffer cache's LRU list ([bcache.head] and the
    [prev]/[next] fields of [struct buf], src/bio.c): nodes are numbered, [nx]
    and [pv] read the two pointer fields, and [ring nx pv h l] says that the
    nodes [l] hang off the sentinel [h] in that order, in both directions. *)

From S2P Require Import Prelude.

Local Open Scope nat_scope.

(** [seg nx pv x l y]: from [x], the [next] pointers visit [l] and then reach
    [y], and each [prev] pointer undoes the [next] pointer before it. *)
Fixpoint seg (nx pv : nat → nat) (x : nat) (l : list nat) (y : nat) : Prop :=
  match l with
  | [] => nx x = y ∧ pv y = x
  | z :: l => nx x = z ∧ pv z = x ∧ seg nx pv z l y
  end.

Definition ring (nx pv : nat → nat) (h : nat) (l : list nat) : Prop :=
  NoDup (h :: l) ∧ seg nx pv h l h.

(** [path f x l y]: iterating [f] from [x] visits exactly [l] before [y]. *)
Fixpoint path (f : nat → nat) (x : nat) (l : list nat) (y : nat) : Prop :=
  match l with
  | [] => x = y
  | z :: l => x = z ∧ path f (f z) l y
  end.

Section seg.
Implicit Types (nx pv : nat → nat) (l : list nat).

Lemma seg_app nx pv l1 b l2 x y :
  seg nx pv x (l1 ++ b :: l2) y ↔ seg nx pv x l1 b ∧ seg nx pv b l2 y.
Proof.
  revert x. induction l1 as [|z l1 IH]; intros x; simpl; [naive_solver|].
  rewrite IH. naive_solver.
Qed.

Lemma seg_ext nx pv nx' pv' x l y :
  (∀ z, z ∈ x :: l → nx' z = nx z) →
  (∀ z, z ∈ l ++ [y] → pv' z = pv z) →
  seg nx pv x l y → seg nx' pv' x l y.
Proof.
  revert x. induction l as [|z l IH]; intros x Hn Hp; simpl.
  - intros [Hx Hy]. rewrite Hn, Hp by set_solver. done.
  - intros (Hx & Hz & Hs). split_and!.
    + rewrite Hn by set_solver. done.
    + rewrite Hp by set_solver. done.
    + apply IH; [| |done]; intros; [apply Hn|apply Hp]; set_solver.
Qed.

Lemma seg_last nx pv x l y : seg nx pv x l y → pv y ∈ x :: l.
Proof.
  revert x. induction l as [|z l IH]; intros x; simpl.
  - intros [_ ->]. set_solver.
  - intros (_ & _ & Hs). apply IH in Hs. set_solver.
Qed.

Lemma seg_first nx pv x l y : seg nx pv x l y → nx x ∈ l ++ [y].
Proof. destruct l; simpl; [intros [-> _]|intros (-> & _)]; set_solver. Qed.

Lemma seg_path_next nx pv x l y : seg nx pv x l y → path nx (nx x) l y.
Proof.
  revert x. induction l as [|z l IH]; intros x; simpl; [naive_solver|].
  intros (-> & _ & Hs). split; [done|]. by apply IH.
Qed.

Lemma path_snoc f x l z : path f x l z → path f x (l ++ [z]) (f z).
Proof.
  revert x. induction l as [|w l IH]; intros x; simpl; [naive_solver|].
  intros [-> Hp]. split; [done|]. by apply IH.
Qed.

Lemma seg_path_prev nx pv x l y :
  seg nx pv x l y → path pv (pv y) (reverse l) x.
Proof.
  revert x. induction l as [|z l IH]; intros x; simpl.
  - intros [_ ->]. done.
  - intros (_ & <- & Hs). rewrite reverse_cons. by apply path_snoc, IH.
Qed.

(** Unlinking [b] between its neighbours. *)
Lemma seg_splice nx pv x l1 b l2 y :
  NoDup (x :: l1 ++ b :: l2) → y ∉ l1 ++ b :: l2 →
  seg nx pv x l1 b → seg nx pv b l2 y →
  seg (<[pv b := nx b]> nx) (<[nx b := pv b]> pv) x (l1 ++ l2) y.
Proof.
  revert x. induction l1 as [|z l1 IH]; intros x Hnd Hy H1 H2; simpl in *.
  - destruct H1 as [Hxb Hbx]. rewrite Hbx.
    apply NoDup_cons in Hnd as [Hx Hnd]. apply NoDup_cons in Hnd as [Hb Hnd].
    destruct l2 as [|z l2]; simpl in *.
    + destruct H2 as [-> _]. by rewrite !fn_lookup_insert.
    + destruct H2 as (-> & _ & H2). rewrite !fn_lookup_insert.
      apply NoDup_cons in Hnd as [Hz Hnd].
      split_and!; [done|done|].
      apply (seg_ext nx pv); [| |done]; intros w Hw;
        rewrite fn_lookup_insert_ne by set_solver; done.
  - destruct H1 as (Hxz & Hzx & H1).
    pose proof (seg_last _ _ _ _ _ H1) as Hl. pose proof (seg_first _ _ _ _ _ H2) as Hf.
    apply NoDup_cons in Hnd as [Hx Hnd].
    pose proof Hnd as Hnd'. apply NoDup_cons in Hnd' as [Hz _].
    assert (pv b ≠ x) by (intros E; rewrite E in Hl; clear IH; set_solver).
    assert (nx b ≠ z) by (intros E; rewrite E in Hf; clear IH; set_solver).
    rewrite !fn_lookup_insert_ne by done.
    split_and!; [done|done|]. apply IH; [done|set_solver|done|done].
Qed.
End seg.

Section ring.
Implicit Types (nx pv : nat → nat) (l : list nat).

Lemma ring_ext nx pv nx' pv' h l :
  (∀ z, z ∈ h :: l → nx' z = nx z) →
  (∀ z, z ∈ h :: l → pv' z = pv z) →
  ring nx pv h l → ring nx' pv' h l.
Proof.
  intros Hn Hp [Hnd Hs]. split; [done|].
  eapply seg_ext; [..|done]; [done|]. intros z Hz. apply Hp. set_solver.
Qed.

Lemma ring_next nx pv h l : ring nx pv h l → path nx (nx h) l h.
Proof. intros [_ Hs]. by eapply seg_path_next. Qed.

Lemma ring_prev nx pv h l : ring nx pv h l → path pv (pv h) (reverse l) h.
Proof. intros [_ Hs]. by eapply seg_path_prev. Qed.

Lemma ring_next_in nx pv h l b : ring nx pv h l → b ∈ h :: l → nx b ∈ h :: l.
Proof.
  intros [Hnd Hs] Hb. rewrite elem_of_cons in Hb. destruct Hb as [->|Hb].
  - apply seg_first in Hs. set_solver.
  - apply list_elem_of_split in Hb as (l1 & l2 & ->).
    rewrite seg_app in Hs. destruct Hs as [_ Hs]. apply seg_first in Hs. set_solver.
Qed.

Lemma ring_prev_in nx pv h l b : ring nx pv h l → b ∈ h :: l → pv b ∈ h :: l.
Proof.
  intros [Hnd Hs] Hb. rewrite elem_of_cons in Hb. destruct Hb as [->|Hb].
  - by apply seg_last in Hs.
  - apply list_elem_of_split in Hb as (l1 & l2 & ->).
    rewrite seg_app in Hs. destruct Hs as [Hs _]. apply seg_last in Hs. set_solver.
Qed.

Lemma ring_unlink nx pv h l1 b l2 :
  ring nx pv h (l1 ++ b :: l2) →
  ring (<[pv b := nx b]> nx) (<[nx b := pv b]> pv) h (l1 ++ l2).
Proof.
  intros [Hnd Hs]. rewrite seg_app in Hs. destruct Hs. split.
  - apply NoDup_cons in Hnd as [Hh Hnd].
    apply NoDup_app in Hnd as (Hnd1 & Hd & Hnd2). apply NoDup_cons in Hnd2 as [Hb Hnd2].
    apply NoDup_cons. split; [set_solver|]. apply NoDup_app. set_solver.
  - apply seg_splice; [done| |done|done]. apply NoDup_cons in Hnd. tauto.
Qed.

(** Linking [b] in right after the sentinel. *)
Lemma ring_push nx pv h l b :
  b ∉ h :: l → ring nx pv h l →
  ring (<[h := b]> (<[b := nx h]> nx)) (<[nx h := b]> (<[b := h]> pv)) h (b :: l).
Proof.
  intros Hb [Hnd Hs]. split.
  { apply NoDup_cons in Hnd as [Hh Hnd]. apply NoDup_cons. split; [set_solver|].
    apply NoDup_cons. set_solver. }
  assert (Hbh : b ≠ h) by set_solver. simpl.
  rewrite fn_lookup_insert.
  destruct l as [|z l]; simpl in *.
  - destruct Hs as [Hn Hp]. rewrite Hn.
    rewrite (fn_lookup_insert_ne _ h b), (fn_lookup_insert_ne _ h b) by done.
    by rewrite !fn_lookup_insert.
  - destruct Hs as (Hn & Hp & Hs). rewrite Hn.
    apply NoDup_cons in Hnd as [Hh Hnd]. apply NoDup_cons in Hnd as [Hz Hnd].
    rewrite (fn_lookup_insert_ne _ z b), (fn_lookup_insert_ne _ h b) by set_solver.
    rewrite !fn_lookup_insert. split_and!; [done..|].
    apply (seg_ext nx pv); [| |done]; intros w Hw;
      rewrite !fn_lookup_insert_ne by set_solver; done.
Qed.

(** The first node along a path that satisfies [P]; [path_find] is the loop
    [for(b = start; b != h; b = f(b)) if(P(b)) ...] with a step bound. *)
Fixpoint path_find (f : nat → nat) (P : nat → bool) (h : nat) (fuel b : nat) : option nat :=
  match fuel with
  | O => None
  | S fuel =>
      if decide (b = h) then None
      else if P b then Some b
      else path_find f P h fuel (f b)
  end.

Lemma path_find_spec f P h l fuel x :
  path f x l h → h ∉ l → length l < fuel →
  path_find f P h fuel x = head (filter (λ b, P b = true) l).
Proof.
  revert x fuel. induction l as [|z l IH]; intros x fuel Hp Hh Hf;
    (destruct fuel as [|fuel]; [simpl in Hf; lia|]); simpl in *.
  - subst. by rewrite decide_True.
  - destruct Hp as [-> Hp]. rewrite decide_False by set_solver.
    rewrite filter_cons. destruct (P z) eqn:HP; simpl; [done|].
    apply IH; [done|set_solver|lia].
Qed.

Lemma head_filter_Some (P : nat → Prop) {dP : ∀ x, Decision (P x)} l b :
  head (filter P l) = Some b → b ∈ l ∧ P b.
Proof.
  intros Hh. assert (Hb : b ∈ filter P l).
  { destruct (filter P l); simplify_eq/=. set_solver. }
  apply list_elem_of_filter in Hb. tauto.
Qed.

Lemma head_filter_None (P : nat → Prop) {dP : ∀ x, Decision (P x)} l :
  head (filter P l) = None → ∀ b, b ∈ l → ¬ P b.
Proof.
  intros Hh b Hb HP. assert (Hf : b ∈ filter P l) by (by apply list_elem_of_filter).
  destruct (filter P l); simplify_eq/=. set_solver.
Qed.
End ring.
