(* ===== verification/Sleeplock.v ===== *)
(** * Sleep locks (src/sleeplock.c)

    The long-term lock that buffers and inodes carry.  The embedded spin lock
    makes each function one atomic step on the pair [(locked, pid)];
    [acquiresleep] returns [None] when its [while (lk->locked)] loop calls
    [sleep], and the caller re-runs the test after the next [wakeup]. *)

From S2P Require Import Prelude.

(** [struct sleeplock], src/sleeplock.h *)
Record sleeplock : Type := mkSleeplock {
  sl_locked : Z;
  sl_pid : Z;
}.

Definition initsleeplock : sleeplock := mkSleeplock 0 0.

Definition acquiresleep (pid : Z) (lk : sleeplock) : option sleeplock :=
  if sl_locked lk =? 0 then Some (mkSleeplock 1 pid) else None.

Definition releasesleep (lk : sleeplock) : sleeplock := mkSleeplock 0 0.

Definition holdingsleep (pid : Z) (lk : sleeplock) : bool :=
  negb (sl_locked lk =? 0) && (sl_pid lk =? pid).
