(* ===== verification/Bio.v ===== *)
(** * The buffer cache (src/bio.c, src/buf.h)

    [bcache.buf] and the sentinel [bcache.head] are one array of [NBUF + 1]
    [struct buf]; [prev] and [next] are indices into it, index [NBUF] being the
    sentinel.  The disk driver below the cache is the interface [DiskDriver],
    its promises are [DiskLaws].  [rep] relates a cache state to what the
    layers above rely on: the logical contents of every block, the set of
    blocks pinned by the log and the buffers currently held. *)

From S2P Require Import Prelude Dll Sleeplock.

(** src/param.h *)
Definition MAXOPBLOCKS : Z := 10.
Definition LOGSIZE : Z := MAXOPBLOCKS * 3.
Definition NBUF : nat := Z.to_nat (MAXOPBLOCKS * 3).
Definition ROOTDEV : Z := 1.
Definition FSSIZE : Z := 1000.

(** src/fs.h *)
Definition BSIZE : nat := 512.

(** src/buf.h *)
Definition B_VALID : Z := 2.
Definition B_DIRTY : Z := 4.

Record buf : Type := mkBuf {
  b_flags : Z;
  b_dev : Z;
  b_blockno : Z;
  b_lock : sleeplock;
  b_refcnt : Z;
  b_prev : nat;
  b_next : nat;
  b_data : list byte;
}.

Definition zero_buf : buf :=
  mkBuf 0 0 0 initsleeplock 0 0 0 (replicate BSIZE Byte.x00).
#[global] Instance buf_inhabited : Inhabited buf := populate zero_buf.

Definition set_flags v b := mkBuf v (b_dev b) (b_blockno b) (b_lock b) (b_refcnt b) (b_prev b) (b_next b) (b_data b).
Definition set_lock v b := mkBuf (b_flags b) (b_dev b) (b_blockno b) v (b_refcnt b) (b_prev b) (b_next b) (b_data b).
Definition set_refcnt v b := mkBuf (b_flags b) (b_dev b) (b_blockno b) (b_lock b) v (b_prev b) (b_next b) (b_data b).
Definition set_prev v b := mkBuf (b_flags b) (b_dev b) (b_blockno b) (b_lock b) (b_refcnt b) v (b_next b) (b_data b).
Definition set_next v b := mkBuf (b_flags b) (b_dev b) (b_blockno b) (b_lock b) (b_refcnt b) (b_prev b) v (b_data b).
Definition set_data v b := mkBuf (b_flags b) (b_dev b) (b_blockno b) (b_lock b) (b_refcnt b) (b_prev b) (b_next b) v.
Definition set_id dev bno b := mkBuf (b_flags b) dev bno (b_lock b) (b_refcnt b) (b_prev b) (b_next b) (b_data b).

(** The driver's [iderw(b)]: syncs one buffer with the disk. *)
Class DiskDriver (D : Type) := iderw : Z → buf → M D buf.

Record bio (D : Type) : Type := mkBio {
  bc_buf : list buf;
  bc_disk : D;
  bc_pid : Z;                       (* myproc()->pid *)
}.
Arguments mkBio {D}. Arguments bc_buf {D}. Arguments bc_disk {D}. Arguments bc_pid {D}.

Section ops.
Context {D : Type} {drv : DiskDriver D}.

Definition bcache_head : nat := NBUF.                       (* &bcache.head *)

Definition upd_buf (i : nat) (f : buf → buf) : M (bio D) unit := modify (λ s,
  mkBio (alter f i (bc_buf s)) (bc_disk s) (bc_pid s)).

(** One round of [binit]'s loop: insert [b] after the sentinel. *)
Definition binit_link (bs : list buf) (b : nat) : list buf :=
  let bs := alter (set_next (b_next (bs !!! bcache_head))) b bs in
  let bs := alter (set_prev bcache_head) b bs in
  let bs := alter (set_lock initsleeplock) b bs in
  let bs := alter (set_prev b) (b_next (bs !!! bcache_head)) bs in
  alter (set_next b) bcache_head bs.

Definition binit (bs : list buf) : list buf :=
  let bs := alter (set_prev bcache_head) bcache_head bs in
  let bs := alter (set_next bcache_head) bcache_head bs in
  foldl binit_link bs (seq 0 NBUF).

(** [acquiresleep(&b->lock)] *)
Definition lock_buf (i : nat) : M (bio D) unit :=
  s ← getS;
  match acquiresleep (bc_pid s) (b_lock (bc_buf s !!! i)) with
  | Some lk => upd_buf i (set_lock lk)
  | None => sleeps
  end.

Definition bget (dev blockno : Z) : M (bio D) nat :=
  s ← getS;
  let bs := bc_buf s in
  match path_find (λ b, b_next (bs !!! b))
          (λ b, (b_dev (bs !!! b) =? dev) && (b_blockno (bs !!! b) =? blockno))
          bcache_head (NBUF + 1) (b_next (bs !!! bcache_head)) with
  | Some b =>
      upd_buf b (λ x, set_refcnt (u32 (b_refcnt x + 1)) x);;
      lock_buf b;;
      mret b
  | None =>
      match path_find (λ b, b_prev (bs !!! b))
              (λ b, (b_refcnt (bs !!! b) =? 0) && (Z.land (b_flags (bs !!! b)) B_DIRTY =? 0))
              bcache_head (NBUF + 1) (b_prev (bs !!! bcache_head)) with
      | Some b =>
          upd_buf b (set_id dev blockno);;
          upd_buf b (set_flags 0);;
          upd_buf b (set_refcnt 1);;
          lock_buf b;;
          mret b
      | None => panic "bget: no buffers"
      end
  end.

(** [iderw(b)] on the cache's buffer [i] *)
Definition sync_buf (i : nat) : M (bio D) unit := λ s,
  match iderw (bc_pid s) (bc_buf s !!! i) (bc_disk s) with
  | Ok b d => Ok tt (mkBio (<[i := b]> (bc_buf s)) d (bc_pid s))
  | Blocked d => Blocked (mkBio (bc_buf s) d (bc_pid s))
  | Panic msg => Panic msg
  end.

Definition bread (dev blockno : Z) : M (bio D) nat :=
  b ← bget dev blockno;
  s ← getS;
  (if Z.land (b_flags (bc_buf s !!! b)) B_VALID =? 0 then sync_buf b else mret tt);;
  mret b.

Definition bwrite (b : nat) : M (bio D) unit :=
  s ← getS;
  if negb (holdingsleep (bc_pid s) (b_lock (bc_buf s !!! b))) then panic "bwrite"
  else
    upd_buf b (λ x, set_flags (Z.lor (b_flags x) B_DIRTY) x);;
    sync_buf b.

(** Moving [b] to the front: its two neighbours are joined, then it is
    inserted after the sentinel. *)
Definition lru_unlink (b : nat) (bs : list buf) : list buf :=
  let bs := alter (set_prev (b_prev (bs !!! b))) (b_next (bs !!! b)) bs in
  alter (set_next (b_next (bs !!! b))) (b_prev (bs !!! b)) bs.

Definition lru_front (b : nat) (bs : list buf) : list buf :=
  let bs := lru_unlink b bs in
  let bs := alter (set_next (b_next (bs !!! bcache_head))) b bs in
  let bs := alter (set_prev bcache_head) b bs in
  let bs := alter (set_prev b) (b_next (bs !!! bcache_head)) bs in
  alter (set_next b) bcache_head bs.

Definition brelse (b : nat) : M (bio D) unit :=
  s ← getS;
  if negb (holdingsleep (bc_pid s) (b_lock (bc_buf s !!! b))) then panic "brelse"
  else
    upd_buf b (λ x, set_lock (releasesleep (b_lock x)) x);;
    upd_buf b (λ x, set_refcnt (u32 (b_refcnt x - 1)) x);;
    s ← getS;
    if b_refcnt (bc_buf s !!! b) =? 0
    then modify (λ s, mkBio (lru_front b (bc_buf s)) (bc_disk s) (bc_pid s))
    else mret tt.

(** Reading and overwriting [b->data] through the buffer pointer. *)
Definition buf_data (s : bio D) (b : nat) : list byte := b_data (bc_buf s !!! b).
Definition put_data (b : nat) (d : list byte) : M (bio D) unit := upd_buf b (set_data d).
End ops.

(** ** The LRU list *)

Definition bnext (bs : list buf) (i : nat) : nat := b_next (bs !!! i).
Definition bprev (bs : list buf) (i : nat) : nat := b_prev (bs !!! i).

(** [lru bs l]: the pointer fields of [bs] chain the buffers in order [l], most
    recently used first, and every buffer is on the list. *)
Definition lru (bs : list buf) (l : list nat) : Prop :=
  length bs = S NBUF ∧ ring (bnext bs) (bprev bs) bcache_head l ∧ l ≡ₚ seq 0 NBUF.


Section lru.
Implicit Types (bs : list buf) (l : list nat).

Lemma lru_elem bs l b : lru bs l → b ∈ l ↔ (b < NBUF)%nat.
Proof. intros (_ & _ & ->). rewrite elem_of_seq. lia. Qed.

Lemma lru_bound bs l b : lru bs l → b ∈ bcache_head :: l → (b < length bs)%nat.
Proof.
  intros Hl. pose proof Hl as (-> & _ & _). rewrite elem_of_cons.
  intros [->|Hb]; [unfold bcache_head; lia|]. apply (lru_elem _ _ _ Hl) in Hb. lia.
Qed.

(** [ptrs bs nx pv]: the pointer fields read as the functions [nx] and [pv]. *)
Definition ptrs bs (nx pv : nat → nat) : Prop :=
  (∀ z, bnext bs z = nx z) ∧ (∀ z, bprev bs z = pv z).

Lemma ptrs_self bs : ptrs bs (bnext bs) (bprev bs).
Proof. done. Qed.

Lemma ptrs_next bs nx pv i v :
  (i < length bs)%nat → ptrs bs nx pv → ptrs (alter (set_next v) i bs) (<[i := v]> nx) pv.
Proof.
  intros Hi [Hn Hp]. split; intros z.
  - unfold bnext. rewrite (alter_field_set b_next _ v) by done.
    destruct (decide (i = z)) as [<-|]; [by rewrite !fn_lookup_insert|].
    rewrite !fn_lookup_insert_ne by done. apply Hn.
  - rewrite <-Hp. by apply (alter_field b_prev).
Qed.

Lemma ptrs_prev bs nx pv i v :
  (i < length bs)%nat → ptrs bs nx pv → ptrs (alter (set_prev v) i bs) nx (<[i := v]> pv).
Proof.
  intros Hi [Hn Hp]. split; intros z.
  - rewrite <-Hn. by apply (alter_field b_next).
  - unfold bprev. rewrite (alter_field_set b_prev _ v) by done.
    destruct (decide (i = z)) as [<-|]; [by rewrite !fn_lookup_insert|].
    rewrite !fn_lookup_insert_ne by done. apply Hp.
Qed.

Lemma ptrs_other bs nx pv i f :
  (∀ b, b_next (f b) = b_next b) → (∀ b, b_prev (f b) = b_prev b) →
  ptrs bs nx pv → ptrs (alter f i bs) nx pv.
Proof.
  intros Hfn Hfp [Hn Hp]. split; intros z; [rewrite <-Hn|rewrite <-Hp].
  - by apply (alter_field b_next).
  - by apply (alter_field b_prev).
Qed.

Lemma ptrs_lru bs nx pv l :
  length bs = S NBUF → ptrs bs nx pv → ring nx pv bcache_head l → l ≡ₚ seq 0 NBUF → lru bs l.
Proof. intros ? [] ? ?. split_and!; [done| |done]. by apply (ring_ext nx pv); intros; auto. Qed.

Lemma lru_unlink_ring bs l1 b l2 :
  length bs = S NBUF → lru bs (l1 ++ b :: l2) →
  ring (bnext (lru_unlink b bs)) (bprev (lru_unlink b bs)) bcache_head (l1 ++ l2).
Proof.
  intros Hlen Hl. pose proof (λ z, lru_bound _ _ z Hl) as Hbd.
  pose proof Hl as (_ & Hr & _).
  assert (Hnb : bnext bs b ≠ b).
  { destruct Hr as [Hnd Hs]. apply seg_app in Hs as [_ Hs]. apply seg_first in Hs.
    intros E. rewrite E in Hs. apply NoDup_cons in Hnd as [Hh Hnd].
    apply NoDup_app in Hnd as (_ & _ & Hnd). apply NoDup_cons in Hnd. set_solver. }
  assert (Hnx : bnext bs b ∈ bcache_head :: l1 ++ b :: l2) by (eapply ring_next_in; set_solver).
  assert (Hpx : bprev bs b ∈ bcache_head :: l1 ++ b :: l2) by (eapply ring_prev_in; set_solver).
  apply ring_unlink in Hr. unfold lru_unlink. fold (bprev bs b) (bnext bs b).
  set (bs1 := alter (set_prev _) _ bs).
  assert (P1 : ptrs bs1 (bnext bs) (<[bnext bs b := bprev bs b]> (bprev bs))).
  { apply ptrs_prev; [by apply Hbd|apply ptrs_self]. }
  fold (bprev bs1 b) (bnext bs1 b). pose proof P1 as [-> ->].
  rewrite fn_lookup_insert_ne by done.
  apply (ptrs_next _ _ _ (bprev bs b) (bnext bs b)) in P1 as [Hn Hp].
  - eapply ring_ext; [..|exact Hr]; intros; auto.
  - subst bs1. rewrite length_alter. by apply Hbd.
Qed.

(** The insertion after the sentinel, with [f] an update of [b] that keeps its
    pointers ([initsleeplock] in [binit], nothing in [brelse]). *)
Lemma link_front_ring bs l b f :
  length bs = S NBUF → (∀ z, z ∈ l → z < NBUF)%nat → (b < NBUF)%nat → b ∉ l →
  (∀ x, b_next (f x) = b_next x) → (∀ x, b_prev (f x) = b_prev x) →
  ring (bnext bs) (bprev bs) bcache_head l →
  let bs1 := alter (set_next (b_next (bs !!! bcache_head))) b bs in
  let bs2 := alter f b (alter (set_prev bcache_head) b bs1) in
  let bs3 := alter (set_prev b) (b_next (bs2 !!! bcache_head)) bs2 in
  let bs4 := alter (set_next b) bcache_head bs3 in
  ring (bnext bs4) (bprev bs4) bcache_head (b :: l).
Proof.
  intros Hlen Hz Hb Hbl Hfn Hfp Hr bs1 bs2 bs3 bs4.
  assert (Hbh : b ≠ bcache_head) by (unfold bcache_head; lia).
  assert (Hn : (bnext bs bcache_head < S NBUF)%nat).
  { pose proof (ring_next_in _ _ _ _ bcache_head Hr ltac:(set_solver)) as Hin.
    apply elem_of_cons in Hin as [->|Hin]; [unfold bcache_head; lia|].
    specialize (Hz _ Hin). lia. }
  assert (P2 : ptrs bs2 (<[b := bnext bs bcache_head]> (bnext bs)) (<[b := bcache_head]> (bprev bs))).
  { apply ptrs_other; [done..|]. apply ptrs_prev; [unfold bs1; rewrite length_alter; lia|].
    apply ptrs_next; [lia|]. apply ptrs_self. }
  assert (Hn2 : b_next (bs2 !!! bcache_head) = bnext bs bcache_head).
  { fold (bnext bs2 bcache_head). destruct P2 as [-> _]. by rewrite fn_lookup_insert_ne. }
  assert (Hl2 : length bs2 = S NBUF) by (unfold bs2, bs1; by rewrite !length_alter).
  apply (ring_push _ _ _ _ b) in Hr; [|set_solver].
  assert (P4 : ptrs bs4 (<[bcache_head := b]> (<[b := bnext bs bcache_head]> (bnext bs)))
                 (<[bnext bs bcache_head := b]> (<[b := bcache_head]> (bprev bs)))).
  { apply ptrs_next; [unfold bs3; rewrite length_alter, Hl2; unfold bcache_head; lia|].
    unfold bs3. rewrite Hn2. apply ptrs_prev; [by rewrite Hl2|done]. }
  destruct P4 as [H4n H4p]. eapply ring_ext; [..|exact Hr]; intros; auto.
Qed.

(** [brelse] moves [b] to the front of the list. *)
Lemma lru_front_lru bs l1 b l2 :
  lru bs (l1 ++ b :: l2) → lru (lru_front b bs) (b :: l1 ++ l2).
Proof.
  intros Hl. pose proof Hl as (Hlen & Hr & Hperm).
  assert (Hnd : NoDup (l1 ++ b :: l2)) by (rewrite Hperm; apply NoDup_seq).
  apply NoDup_app in Hnd as (_ & Hd & Hnd). apply NoDup_cons in Hnd as [Hnb _].
  assert (Hin : ∀ z, z ∈ l1 ++ b :: l2 → (z < NBUF)%nat) by (intros z; apply (lru_elem _ _ _ Hl)).
  split_and!.
  - unfold lru_front, lru_unlink. by rewrite !length_alter.
  - pose proof (lru_unlink_ring _ _ _ _ Hlen Hl) as Hr1.
    apply (link_front_ring (lru_unlink b bs) (l1 ++ l2) b id) in Hr1.
    + rewrite (list_alter_id id) in Hr1 by done. exact Hr1.
    + unfold lru_unlink. by rewrite !length_alter.
    + intros z Hz. apply Hin. set_solver.
    + apply Hin. set_solver.
    + set_solver.
    + done.
    + done.
  - rewrite <-Hperm. by rewrite Permutation_middle.
Qed.

Lemma binit_lru bs : length bs = S NBUF → lru (binit bs) (reverse (seq 0 NBUF)).
Proof.
  intros Hlen.
  cut (∀ n, (n ≤ NBUF)%nat →
    let r := foldl binit_link (alter (set_next bcache_head) bcache_head
               (alter (set_prev bcache_head) bcache_head bs)) (seq 0 n) in
    length r = S NBUF ∧ ring (bnext r) (bprev r) bcache_head (reverse (seq 0 n))).
  { intros Hn. destruct (Hn NBUF) as [Hl Hr]; [done|]. split_and!; [done|done|].
    by rewrite reverse_Permutation. }
  induction n as [|n IH]; intros Hn r.
  - split; [unfold r; simpl; by rewrite !length_alter|].
    assert (P : ptrs r (<[bcache_head := bcache_head]> (bnext bs)) (<[bcache_head := bcache_head]> (bprev bs))).
    { unfold r. simpl. apply ptrs_next; [rewrite length_alter; unfold bcache_head; lia|].
      apply ptrs_prev; [unfold bcache_head; lia|]. apply ptrs_self. }
    destruct P as [P1 P2]. split; [apply NoDup_singleton|]. simpl.
    by rewrite P1, P2, !fn_lookup_insert.
  - destruct IH as [Hl Hr]; [lia|]. unfold r. clear r.
    rewrite seq_S, foldl_app, reverse_app. simpl.
    split; [unfold binit_link; by rewrite !length_alter|].
    apply (link_front_ring _ _ n (set_lock initsleeplock)) in Hr; [exact Hr|done| | | |done..].
    + intros z Hz. apply elem_of_reverse, elem_of_seq in Hz. lia.
    + lia.
    + intros Hin. apply elem_of_reverse, elem_of_seq in Hin. lia.
Qed.
End lru.

(** ** What the driver promises *)

Class DiskLaws (D : Type) {drv : DiskDriver D} := {
  disk_block : D → Z → list byte;              (* contents of a block *)
  disk_size : D → Z;                           (* blocks on the disk *)
  disk_writes : D → list (Z * list byte);      (* completed writes, latest first *)
  disk_block_len d k : 0 ≤ k < disk_size d → length (disk_block d k) = BSIZE;
  iderw_read pid b d :
    holdingsleep pid (b_lock b) = true → b_flags b = 0 →
    b_dev b = ROOTDEV → 0 ≤ b_blockno b < disk_size d →
    iderw pid b d = Ok (set_flags B_VALID (set_data (disk_block d (b_blockno b)) b)) d;
  iderw_write pid b d :
    holdingsleep pid (b_lock b) = true → b_flags b = B_DIRTY ∨ b_flags b = Z.lor B_VALID B_DIRTY →
    b_dev b = ROOTDEV → 0 ≤ b_blockno b < disk_size d → length (b_data b) = BSIZE →
    ∃ d', iderw pid b d = Ok (set_flags B_VALID b) d' ∧
      (∀ k, disk_block d' k = (<[b_blockno b := b_data b]> (disk_block d)) k) ∧
      disk_size d' = disk_size d ∧
      disk_writes d' = (b_blockno b, b_data b) :: disk_writes d;
}.

(** ** The abstract view of the cache

    [V] is the logical contents of each block, [P] the blocks pinned with
    [B_DIRTY] by the log (their contents are not yet on disk), and [H] the
    buffers in use: buffer number, block number and current data. *)

Definition held (H : gmap nat (Z * list byte)) : gset Z := map_img (fst <$> H).

Definition buf_ok (pid size : Z) (V : Z → list byte) (P : gset Z)
    (o : option (Z * list byte)) (b : buf) : Prop :=
  length (b_data b) = BSIZE ∧
  match o with
  | Some (k, d) =>
      b_dev b = ROOTDEV ∧ b_blockno b = k ∧ 0 ≤ k < size ∧ b_data b = d ∧
      b_refcnt b = 1 ∧ b_lock b = mkSleeplock 1 pid ∧
      b_flags b = (if decide (k ∈ P) then Z.lor B_VALID B_DIRTY else B_VALID)
  | None =>
      b_refcnt b = 0 ∧ b_lock b = mkSleeplock 0 0 ∧
      (b_dev b = 0 ∧ b_flags b = 0 ∨
       b_dev b = ROOTDEV ∧ 0 ≤ b_blockno b < size ∧ b_data b = V (b_blockno b) ∧
       b_flags b = (if decide (b_blockno b ∈ P) then Z.lor B_VALID B_DIRTY else B_VALID))
  end.

Definition bufs_ok (pid size : Z) (V : Z → list byte) (P : gset Z)
    (H : gmap nat (Z * list byte)) (bs : list buf) : Prop :=
  (∀ i, (i < NBUF)%nat → buf_ok pid size V P (H !! i) (bs !!! i)) ∧
  (∀ i, (NBUF ≤ i)%nat → H !! i = None) ∧
  (∀ i j, (i < NBUF)%nat → (j < NBUF)%nat →
     b_dev (bs !!! i) = ROOTDEV → b_dev (bs !!! j) = ROOTDEV →
     b_blockno (bs !!! i) = b_blockno (bs !!! j) → i = j) ∧
  (∀ k, k ∈ P → ∃ i, (i < NBUF)%nat ∧ b_dev (bs !!! i) = ROOTDEV ∧ b_blockno (bs !!! i) = k).

Definition rep {D} {drv : DiskDriver D} {dl : DiskLaws D} (s : bio D) (V : Z → list byte) (P : gset Z)
    (H : gmap nat (Z * list byte)) : Prop :=
  (∃ l, lru (bc_buf s) l) ∧
  bufs_ok (bc_pid s) (disk_size (bc_disk s)) V P H (bc_buf s) ∧
  (∀ k, k ∉ P → V k = disk_block (bc_disk s) k).

Section bufs_ok.
Implicit Types (V : Z → list byte) (P : gset Z) (H : gmap nat (Z * list byte)) (bs : list buf).

Lemma elem_of_held H k : k ∈ held H ↔ ∃ i d, H !! i = Some (k, d).
Proof.
  unfold held. rewrite elem_of_map_img. setoid_rewrite lookup_fmap_Some.
  split.
  - intros (i & [k' d] & Hk & Hi). simpl in Hk. subst. eauto.
  - intros (i & d & Hi). exists i, (k, d). done.
Qed.

(** Where a block is cached, in a buffer that is not held. *)
Lemma bufs_ok_free pid size V P H bs i k :
  bufs_ok pid size V P H bs → (i < NBUF)%nat → k ∉ held H →
  b_dev (bs !!! i) = ROOTDEV → b_blockno (bs !!! i) = k →
  H !! i = None ∧ b_refcnt (bs !!! i) = 0 ∧ b_lock (bs !!! i) = mkSleeplock 0 0 ∧
  b_data (bs !!! i) = V k ∧
  b_flags (bs !!! i) = (if decide (k ∈ P) then Z.lor B_VALID B_DIRTY else B_VALID).
Proof.
  intros (Hb & _) Hi Hk Hdev Hbno. destruct (Hb i Hi) as [_ Hbi].
  destruct (H !! i) as [[k' d]|] eqn:E.
  - destruct Hbi as (_ & Hk' & _). destruct Hk. apply elem_of_held. exists i, d. congruence.
  - destruct Hbi as (Hr & Hl & [[Hd _]|(_ & _ & Hd & Hf)]).
    + rewrite Hd in Hdev. done.
    + rewrite Hbno in *. done.
Qed.

(** Pigeonhole: while fewer than [NBUF] blocks are pinned or in use there is a
    buffer the cache may recycle. *)
Lemma bufs_ok_room pid size V P H bs :
  bufs_ok pid size V P H bs → (base.size (P ∪ held H) < NBUF)%nat →
  ∃ i, (i < NBUF)%nat ∧ b_refcnt (bs !!! i) = 0 ∧ Z.land (b_flags (bs !!! i)) B_DIRTY = 0.
Proof.
  intros (Hb & _ & Huniq & _) Hsz.
  set (good i := b_refcnt (bs !!! i) = 0 ∧ Z.land (b_flags (bs !!! i)) B_DIRTY = 0).
  destruct (decide (Exists good (seq 0 NBUF))) as [Hex|Hne].
  { apply Exists_exists in Hex as (i & Hi & ?). apply elem_of_seq in Hi. exists i. split; [lia|done]. }
  exfalso. apply not_Exists_Forall in Hne; [|apply _]. rewrite Forall_forall in Hne.
  assert (Hbad : ∀ i, (i < NBUF)%nat →
    b_dev (bs !!! i) = ROOTDEV ∧ b_blockno (bs !!! i) ∈ P ∪ held H).
  { intros i Hi. specialize (Hne i ltac:(apply elem_of_seq; lia)). unfold good in Hne.
    destruct (Hb i Hi) as [_ Hbi]. destruct (H !! i) as [[k d]|] eqn:E.
    - destruct Hbi as (? & -> & _). split; [done|]. apply elem_of_union_r, elem_of_held. eauto.
    - destruct Hbi as (Hr & _ & [[_ Hf]|(? & _ & _ & Hf)]).
      + destruct Hne. rewrite Hf. done.
      + split; [done|]. case_decide; [set_solver|]. destruct Hne. rewrite Hf. done. }
  assert (Hnd : NoDup ((λ i, b_blockno (bs !!! i)) <$> seq 0 NBUF)).
  { apply NoDup_fmap_2_strong; [|apply NoDup_seq]. intros i j Hi Hj Heq.
    apply elem_of_seq in Hi, Hj. apply Huniq; [lia|lia|apply Hbad; lia|apply Hbad; lia|done]. }
  assert (Hsub : (list_to_set ((λ i, b_blockno (bs !!! i)) <$> seq 0 NBUF) : gset Z) ⊆ P ∪ held H).
  { intros k Hk. apply elem_of_list_to_set, list_elem_of_fmap in Hk as (i & -> & Hi).
    apply elem_of_seq in Hi. apply Hbad. lia. }
  apply subseteq_size in Hsub. rewrite size_list_to_set in Hsub by done.
  rewrite length_fmap, length_seq in Hsub. lia.
Qed.
End bufs_ok.

Section specs.
Context {D : Type} {drv : DiskDriver D} {dl : DiskLaws D}.
Implicit Types (s : bio D) (V : Z → list byte) (P : gset Z) (H : gmap nat (Z * list byte)).

(** Replacing buffer [i] by [b'], which now stands for block [b_blockno b']. *)
Lemma bufs_ok_upd pid size V P H V' P' H' bs i b' :
  length bs = S NBUF → (i < NBUF)%nat → bufs_ok pid size V P H bs →
  b_dev b' = ROOTDEV → buf_ok pid size V' P' (H' !! i) b' →
  (∀ j, j ≠ i → H' !! j = H !! j) →
  (∀ k, k ≠ b_blockno b' → V' k = V k ∧ (k ∈ P' ↔ k ∈ P)) →
  (∀ j, (j < NBUF)%nat → j ≠ i → b_dev (bs !!! j) = ROOTDEV → b_blockno (bs !!! j) ≠ b_blockno b') →
  (∀ k, k ∈ P' → k ≠ b_blockno b' → b_dev (bs !!! i) = ROOTDEV → b_blockno (bs !!! i) ≠ k) →
  bufs_ok pid size V' P' H' (<[i := b']> bs).
Proof.
  intros Hlen Hi (Hb & Hout & Huniq & Hp) Hdev Hok HH HV Hfresh Hkeep.
  assert (Hself : <[i := b']> bs !!! i = b') by (apply list_lookup_total_insert_eq; lia).
  assert (Hoth : ∀ j, j ≠ i → <[i := b']> bs !!! j = bs !!! j)
    by (intros; by apply list_lookup_total_insert_ne).
  split_and!.
  - intros j Hj. destruct (decide (j = i)) as [->|Hne]; [by rewrite Hself|].
    rewrite Hoth, HH by done. destruct (Hb j Hj) as [Hl Hbj]. split; [done|].
    specialize (Hfresh j Hj Hne).
    destruct (H !! j) as [[k d]|].
    + destruct Hbj as (Hd & Hk & ? & ? & ? & ? & Hf). split_and!; try (done || lia).
      rewrite Hf. apply decide_ext. symmetry. apply HV. naive_solver.
    + destruct Hbj as (? & ? & [?|(Hd & ? & Hdat & Hf)]); split_and!; try done; [by left|right].
      destruct (HV (b_blockno (bs !!! j))) as [HVj HPj]; [by apply Hfresh|].
      split_and!; [done|lia|lia|congruence|]. rewrite Hf. apply decide_ext. naive_solver.
  - intros j Hj. rewrite HH by lia. by apply Hout.
  - intros j1 j2 Hj1 Hj2.
    destruct (decide (j1 = i)) as [->|]; destruct (decide (j2 = i)) as [->|];
      rewrite ?Hself, ?Hoth by done; [done| | |by apply Huniq].
    + intros _ Hd2 Heq. by destruct (Hfresh j2).
    + intros Hd1 _ Heq. by destruct (Hfresh j1).
  - intros k Hk. destruct (decide (k = b_blockno b')) as [->|Hne].
    + exists i. by rewrite Hself.
    + destruct (Hp k) as (j & Hj & Hjd & Hjk); [by apply HV|]. exists j.
      rewrite Hoth; [done|]. intros ->. by apply (Hkeep k).
Qed.

Lemma rep_len s V P H : rep s V P H → length (bc_buf s) = S NBUF.
Proof. intros ((l & ? & _) & _). done. Qed.

Lemma lru_insert bs l i b' :
  b_next b' = b_next (bs !!! i) → b_prev b' = b_prev (bs !!! i) →
  lru bs l → lru (<[i := b']> bs) l.
Proof.
  intros Hn Hp (Hlen & Hr & Hperm). split_and!; [by rewrite length_insert| |done].
  apply (ring_ext (bnext bs) (bprev bs)); [| |done]; intros z _; unfold bnext, bprev;
    (destruct (decide (z = i)) as [->|]; [|by rewrite list_lookup_total_insert_ne by done]);
    (destruct (decide (i < length bs)%nat); [by rewrite list_lookup_total_insert_eq|]);
    by rewrite list_insert_ge by lia.
Qed.

(** The same update on the whole state: a specification for every operation
    that touches one buffer and leaves the disk alone. *)
Lemma rep_upd s V P H V' P' H' i b' :
  rep s V P H → (i < NBUF)%nat → b_dev b' = ROOTDEV →
  b_next b' = b_next (bc_buf s !!! i) → b_prev b' = b_prev (bc_buf s !!! i) →
  buf_ok (bc_pid s) (disk_size (bc_disk s)) V' P' (H' !! i) b' →
  (∀ j, j ≠ i → H' !! j = H !! j) →
  (∀ k, k ≠ b_blockno b' → V' k = V k ∧ (k ∈ P' ↔ k ∈ P)) →
  (b_blockno b' ∉ P' → V' (b_blockno b') = disk_block (bc_disk s) (b_blockno b')) →
  (∀ j, (j < NBUF)%nat → j ≠ i → b_dev (bc_buf s !!! j) = ROOTDEV →
     b_blockno (bc_buf s !!! j) ≠ b_blockno b') →
  (∀ k, k ∈ P' → k ≠ b_blockno b' → b_dev (bc_buf s !!! i) = ROOTDEV → b_blockno (bc_buf s !!! i) ≠ k) →
  rep (mkBio (<[i := b']> (bc_buf s)) (bc_disk s) (bc_pid s)) V' P' H'.
Proof.
  intros Hrep Hi Hdev Hn Hp Hok HH HV Hself Hfresh Hkeep.
  pose proof (rep_len _ _ _ _ Hrep) as Hlen. destruct Hrep as ((l & Hl) & Hb & Hd).
  split_and!; simpl.
  - exists l. by apply lru_insert.
  - by eapply bufs_ok_upd.
  - intros k Hk. destruct (decide (k = b_blockno b')) as [->|Hne]; [by apply Hself|].
    destruct (HV k Hne) as [-> HPk]. apply Hd. by rewrite <-HPk.
Qed.

Lemma wp_upd_buf {A} i f (k : unit → M (bio D) A) Q s :
  wp (k tt) Q (mkBio (alter f i (bc_buf s)) (bc_disk s) (bc_pid s)) → wp (upd_buf i f ≫= k) Q s.
Proof. done. Qed.

Lemma wp_lock_buf {A} i (k : unit → M (bio D) A) Q s :
  sl_locked (b_lock (bc_buf s !!! i)) = 0 →
  wp (k tt) Q (mkBio (alter (set_lock (mkSleeplock 1 (bc_pid s))) i (bc_buf s)) (bc_disk s) (bc_pid s)) →
  wp (lock_buf i ≫= k) Q s.
Proof.
  intros Hl Hk. apply wp_bind. unfold lock_buf. apply wp_getS.
  unfold acquiresleep. rewrite Hl. done.
Qed.

Definition cached s k i : Prop :=
  (i < NBUF)%nat ∧ b_dev (bc_buf s !!! i) = ROOTDEV ∧ b_blockno (bc_buf s !!! i) = k.

(** [bget]'s first loop: the buffer of a cached block. *)
Lemma bget_scan_cached s V P H k :
  rep s V P H →
  let bs := bc_buf s in
  match path_find (λ b, b_next (bs !!! b))
    (λ b, (b_dev (bs !!! b) =? ROOTDEV) && (b_blockno (bs !!! b) =? k))
    bcache_head (NBUF + 1) (b_next (bs !!! bcache_head)) with
  | Some i => cached s k i
  | None => ∀ i, ¬ cached s k i
  end.
Proof.
  intros ((l & Hl) & _) bs. pose proof Hl as (_ & Hr & Hperm).
  rewrite (path_find_spec _ _ _ l).
  - destruct (head _) as [i|] eqn:E.
    + apply head_filter_Some in E as [Hi E]. apply (lru_elem _ _ _ Hl) in Hi.
      apply andb_true_iff in E as [E1%Z.eqb_eq E2%Z.eqb_eq]. done.
    + intros i (Hi & Hd & Hk). apply (head_filter_None _ _ E i); [by apply (lru_elem _ _ _ Hl)|].
      fold bs in Hd, Hk. by rewrite Hd, Hk, !Z.eqb_refl.
  - by apply (ring_next _ _ _ _ Hr).
  - destruct Hr as [Hnd _]. apply NoDup_cons in Hnd. tauto.
  - rewrite Hperm, length_seq. lia.
Qed.

(** [bget]'s second loop: a buffer it may recycle, if there is room. *)
Lemma bget_scan_free s V P H :
  rep s V P H → (base.size (P ∪ held H) < NBUF)%nat →
  let bs := bc_buf s in
  ∃ i, path_find (λ b, b_prev (bs !!! b))
    (λ b, (b_refcnt (bs !!! b) =? 0) && (Z.land (b_flags (bs !!! b)) B_DIRTY =? 0))
    bcache_head (NBUF + 1) (b_prev (bs !!! bcache_head)) = Some i ∧
  (i < NBUF)%nat ∧ b_refcnt (bs !!! i) = 0 ∧ Z.land (b_flags (bs !!! i)) B_DIRTY = 0.
Proof.
  intros ((l & Hl) & Hb & _) Hroom bs. pose proof Hl as (_ & Hr & Hperm).
  rewrite (path_find_spec _ _ _ (reverse l)).
  - destruct (head _) as [i|] eqn:E.
    + exists i. apply head_filter_Some in E as [Hi E].
      rewrite elem_of_reverse in Hi. apply (lru_elem _ _ _ Hl) in Hi.
      apply andb_true_iff in E as [E1%Z.eqb_eq E2%Z.eqb_eq]. done.
    + destruct (bufs_ok_room _ _ _ _ _ _ Hb Hroom) as (i & Hi & H1 & H2).
      exfalso. apply (head_filter_None _ _ E i).
      * by apply elem_of_reverse, (lru_elem _ _ _ Hl).
      * fold bs in H1, H2. by rewrite H1, H2.
  - by apply (ring_prev _ _ _ _ Hr).
  - rewrite elem_of_reverse. destruct Hr as [Hnd _]. apply NoDup_cons in Hnd. tauto.
  - rewrite length_reverse, Hperm, length_seq. lia.
Qed.

(** [bget] returns block [k]'s own buffer, or recycles one for it. *)
Lemma bget_spec s V P H k :
  rep s V P H → k ∉ held H → k ∈ P ∨ (base.size (P ∪ held H) < NBUF)%nat →
  wp (bget ROOTDEV k) (λ i s', ∃ b',
    s' = mkBio (<[i := b']> (bc_buf s)) (bc_disk s) (bc_pid s) ∧
    (cached s k i ∧ b' = set_lock (mkSleeplock 1 (bc_pid s)) (set_refcnt 1 (bc_buf s !!! i)) ∨
     (∀ j, ¬ cached s k j) ∧ (i < NBUF)%nat ∧ b_refcnt (bc_buf s !!! i) = 0 ∧
     Z.land (b_flags (bc_buf s !!! i)) B_DIRTY = 0 ∧
     b' = set_lock (mkSleeplock 1 (bc_pid s))
            (set_refcnt 1 (set_flags 0 (set_id ROOTDEV k (bc_buf s !!! i)))))) s.
Proof.
  intros Hrep Hk Hroom. pose proof (rep_len _ _ _ _ Hrep) as Hlen.
  pose proof Hrep as (_ & Hb & _). unfold bget. apply wp_getS. cbv zeta.
  pose proof (bget_scan_cached _ _ _ _ k Hrep) as Hscan. cbv zeta in Hscan.
  destruct (path_find _ _ _ _ _) as [i|].
  - pose proof Hscan as (Hi & Hd & Hbno).
    destruct (bufs_ok_free _ _ _ _ _ _ i k Hb Hi Hk Hd Hbno) as (_ & Hr & Hl & _).
    apply wp_upd_buf. apply wp_lock_buf; simpl.
    + rewrite list_lookup_total_alter_eq by lia. simpl. by rewrite Hl.
    + apply wp_ret. eexists. split; [|by left].
      rewrite list_alter_alter_eq, alter_insert. unfold compose. by rewrite Hr.
  - destruct Hroom as [HkP|Hroom].
    { destruct Hb as (_ & _ & _ & HP). destruct (HP k HkP) as (j & Hj). by destruct (Hscan j). }
    destruct (bget_scan_free _ _ _ _ Hrep Hroom) as (i & -> & Hi & Hr & Hf).
    apply wp_upd_buf, wp_upd_buf, wp_upd_buf. apply wp_lock_buf; simpl.
    + rewrite !list_lookup_total_alter_eq by (rewrite ?length_alter; lia). simpl.
      destruct Hb as (Hb & _). destruct (Hb i Hi) as [_ Hbi].
      destruct (H !! i) as [[k' d]|]; [destruct Hbi as (? & ? & ? & ? & ? & _); lia|].
      destruct Hbi as (_ & -> & _). done.
    + apply wp_ret. eexists. split; [|right; done].
      by rewrite !list_alter_alter_eq, alter_insert.
Qed.

(** The number of an idle buffer's block is not pinned when its dirty bit is clear. *)
Lemma free_not_pinned s V P H i k :
  rep s V P H → (i < NBUF)%nat → b_refcnt (bc_buf s !!! i) = 0 →
  Z.land (b_flags (bc_buf s !!! i)) B_DIRTY = 0 →
  H !! i = None ∧ (k ∈ P → b_dev (bc_buf s !!! i) = ROOTDEV → b_blockno (bc_buf s !!! i) ≠ k).
Proof.
  intros (_ & (Hb & _) & _) Hi Hr Hf. destruct (Hb i Hi) as [_ Hbi].
  destruct (H !! i) as [[k' d]|]; [destruct Hbi as (? & ? & ? & ? & ? & _); lia|].
  split; [done|]. intros HkP Hd Heq.
  destruct Hbi as (_ & _ & [[Hd0 _]|(_ & _ & _ & Hfl)]); [by rewrite Hd0 in Hd|].
  rewrite Heq, decide_True in Hfl by done. by rewrite Hfl in Hf.
Qed.

(** [bread] returns a held buffer with the block's logical contents, reading
    the disk only when the block is not cached. *)
Lemma bread_spec s V P H k :
  rep s V P H → 0 ≤ k < disk_size (bc_disk s) → k ∉ held H →
  k ∈ P ∨ (base.size (P ∪ held H) < NBUF)%nat →
  wp (bread ROOTDEV k) (λ i s', H !! i = None ∧ rep s' V P (<[i := (k, V k)]> H) ∧
    bc_disk s' = bc_disk s ∧ bc_pid s' = bc_pid s) s.
Proof.
  intros Hrep Hrng Hk Hroom. pose proof (rep_len _ _ _ _ Hrep) as Hlen.
  unfold bread. wp_step (bget_spec _ _ _ _ _ Hrep Hk Hroom).
  intros i s' (b' & -> & Hcase). apply wp_getS. simpl.
  destruct Hcase as [[Hc ->]|(Hnc & Hi & Hr & Hf & ->)].
  - pose proof Hc as (Hi & Hd & Hbno). pose proof Hrep as (_ & Hb & _).
    destruct (bufs_ok_free _ _ _ _ _ _ i k Hb Hi Hk Hd Hbno) as (HHi & _ & _ & Hdat & Hfl).
    rewrite list_lookup_total_insert_eq by lia. simpl. rewrite Hfl.
    assert (Hv : (Z.land (if decide (k ∈ P) then Z.lor B_VALID B_DIRTY else B_VALID) B_VALID =? 0) = false)
      by (by case_decide).
    rewrite Hv. apply wp_ret_bind, wp_ret. split_and!; [done| |done|done].
    eapply rep_upd; [exact Hrep|done..| | | | | |]; simpl.
    + rewrite lookup_insert_eq. destruct Hb as (Hb & _). destruct (Hb i Hi) as [Hl _].
      split; [done|]. simpl. split_and!; try (done || lia).
    + intros j Hj. by rewrite lookup_insert_ne.
    + done.
    + intros HkP. destruct Hrep as (_ & _ & HV). by apply HV.
    + intros j Hj Hne Hdj Heq. destruct Hne. destruct Hb as (_ & _ & Hu & _). by apply Hu.
    + intros k' HkP' Hne _ Heq. by apply Hne.
  - destruct (free_not_pinned _ _ _ _ i k Hrep Hi Hr Hf) as [HHi _].
    assert (HkP : k ∉ P).
    { intros HkP. destruct Hrep as (_ & (_ & _ & _ & HP) & _).
      destruct (HP k HkP) as (j & Hj). by apply (Hnc j). }
    rewrite list_lookup_total_insert_eq by lia. simpl.
    unfold sync_buf, wp, mbind, M_bind. simpl.
    rewrite list_lookup_total_insert_eq by lia.
    rewrite iderw_read by (simpl; unfold holdingsleep; simpl; rewrite ?Z.eqb_refl; done).
    simpl. split_and!; [done| |done|done].
    rewrite list_insert_insert_eq.
    pose proof Hrep as (_ & _ & HV).
    eapply rep_upd; [exact Hrep|done..| | | | | |]; simpl.
    + rewrite lookup_insert_eq. split; [by apply disk_block_len|]. simpl.
      rewrite decide_False by done. split_and!; try (done || lia). by rewrite HV.
    + intros j Hj. by rewrite lookup_insert_ne.
    + done.
    + intros _. by apply HV.
    + intros j Hj Hne Hdj Heq. by apply (Hnc j).
    + intros k' HkP' Hne. by apply (free_not_pinned _ _ _ _ i k' Hrep Hi Hr Hf).
Qed.

Lemma rep_held s V P H i k d :
  rep s V P H → H !! i = Some (k, d) →
  (i < NBUF)%nat ∧ length d = BSIZE ∧ 0 ≤ k < disk_size (bc_disk s) ∧
  b_dev (bc_buf s !!! i) = ROOTDEV ∧ b_blockno (bc_buf s !!! i) = k ∧
  b_data (bc_buf s !!! i) = d ∧ b_refcnt (bc_buf s !!! i) = 1 ∧
  b_lock (bc_buf s !!! i) = mkSleeplock 1 (bc_pid s) ∧
  b_flags (bc_buf s !!! i) = (if decide (k ∈ P) then Z.lor B_VALID B_DIRTY else B_VALID).
Proof.
  intros (_ & (Hb & Hout & _) & _) HHi.
  assert (Hi : (i < NBUF)%nat).
  { destruct (decide (i < NBUF)%nat); [done|]. rewrite Hout in HHi; [done|lia]. }
  destruct (Hb i Hi) as [Hl Hbi]. rewrite HHi in Hbi.
  destruct Hbi as (? & ? & ? & ? & ? & ? & ?). subst d. split_and!; done || lia.
Qed.

Lemma buf_data_spec s V P H i k d :
  rep s V P H → H !! i = Some (k, d) → buf_data s i = d.
Proof. intros Hrep HHi. by destruct (rep_held _ _ _ _ _ _ _ Hrep HHi) as (_ & _ & _ & _ & _ & ? & _). Qed.

Lemma held_block s V P H i k d : rep s V P H → H !! i = Some (k, d) → b_blockno (bc_buf s !!! i) = k.
Proof. intros Hrep HHi. by destruct (rep_held _ _ _ _ _ _ _ Hrep HHi) as (_ & _ & _ & _ & ? & _). Qed.

(** An update of a held buffer that keeps its block, links, lock and count. *)
Lemma rep_upd_held s V P H V' P' i k d d' f :
  rep s V P H → H !! i = Some (k, d) →
  (∀ k', k' ≠ k → V' k' = V k' ∧ (k' ∈ P' ↔ k' ∈ P)) →
  (k ∉ P' → V' k = disk_block (bc_disk s) k) →
  length d' = BSIZE →
  (∀ x, b_dev (f x) = b_dev x ∧ b_blockno (f x) = b_blockno x ∧ b_lock (f x) = b_lock x ∧
        b_refcnt (f x) = b_refcnt x ∧ b_next (f x) = b_next x ∧ b_prev (f x) = b_prev x) →
  b_data (f (bc_buf s !!! i)) = d' →
  b_flags (f (bc_buf s !!! i)) = (if decide (k ∈ P') then Z.lor B_VALID B_DIRTY else B_VALID) →
  rep (mkBio (alter f i (bc_buf s)) (bc_disk s) (bc_pid s)) V' P' (<[i := (k, d')]> H).
Proof.
  intros Hrep HHi HV Hk Hd' Hf Hfd Hff.
  destruct (rep_held _ _ _ _ _ _ _ Hrep HHi) as (Hi & Hl & Hrng & Hdev & Hbno & Hdat & Hr & Hlk & _).
  destruct (Hf (bc_buf s !!! i)) as (F1 & F2 & F3 & F4 & F5 & F6).
  rewrite alter_insert. eapply rep_upd; [exact Hrep|done|congruence|done|done| | | | | |];
    rewrite ?F2, ?Hbno.
  - rewrite lookup_insert_eq. split; [by rewrite Hfd|]. split_and!; try (done || lia || congruence).
  - intros j Hj. by rewrite lookup_insert_ne.
  - done.
  - done.
  - intros j Hj Hne Hdj Heq. apply Hne. destruct Hrep as (_ & (_ & _ & Hu & _) & _).
    apply Hu; congruence.
  - intros k' _ Hne _ Heq. by apply Hne.
Qed.

Lemma put_data_spec s V P H i k d d' :
  rep s V P H → H !! i = Some (k, d) → length d' = BSIZE →
  wp (put_data i d') (λ _ s', rep s' V P (<[i := (k, d')]> H) ∧
    bc_disk s' = bc_disk s ∧ bc_pid s' = bc_pid s) s.
Proof.
  intros Hrep HHi Hd'. unfold put_data, upd_buf, modify, wp. split_and!; [|done..].
  destruct (rep_held _ _ _ _ _ _ _ Hrep HHi) as (_ & _ & _ & _ & _ & _ & _ & _ & Hfl).
  eapply rep_upd_held; [done|done|done| |done|done|done|done].
  destruct Hrep as (_ & _ & HV). apply HV.
Qed.

(** [b->flags |= B_DIRTY]: pins the buffer; its data becomes the block's contents. *)
Lemma pin_spec s V P H i k d :
  rep s V P H → H !! i = Some (k, d) →
  wp (upd_buf i (λ x, set_flags (Z.lor (b_flags x) B_DIRTY) x))
    (λ _ s', rep s' (<[k := d]> V) ({[k]} ∪ P) H ∧ bc_disk s' = bc_disk s ∧ bc_pid s' = bc_pid s) s.
Proof.
  intros Hrep HHi.
  destruct (rep_held _ _ _ _ _ _ _ Hrep HHi) as (Hi & Hl & _ & _ & _ & Hdat & _ & _ & Hfl).
  unfold upd_buf, modify, wp. split_and!; [|done..].
  rewrite <-(insert_id H i (k, d)) by done.
  eapply rep_upd_held; [done|done| |set_solver|done|done|done|].
  - intros k' Hne. rewrite fn_lookup_insert_ne by done. set_solver.
  - simpl. rewrite Hfl, (decide_True (P := k ∈ {[k]} ∪ P)) by set_solver. by case_decide.
Qed.

(** [bwrite] makes a held buffer's data the block's contents, on disk, and
    unpins it. *)
Lemma bwrite_spec s V P H i k d :
  rep s V P H → H !! i = Some (k, d) →
  wp (bwrite i) (λ _ s', rep s' (<[k := d]> V) (P ∖ {[k]}) H ∧
    (∀ k', disk_block (bc_disk s') k' = (<[k := d]> (disk_block (bc_disk s))) k') ∧
    disk_size (bc_disk s') = disk_size (bc_disk s) ∧
    disk_writes (bc_disk s') = (k, d) :: disk_writes (bc_disk s) ∧
    bc_pid s' = bc_pid s) s.
Proof.
  intros Hrep HHi. pose proof (rep_len _ _ _ _ Hrep) as Hlen.
  destruct (rep_held _ _ _ _ _ _ _ Hrep HHi) as (Hi & Hl & Hrng & Hdev & Hbno & Hdat & Hr & Hlk & Hfl).
  unfold bwrite. apply wp_getS. unfold holdingsleep at 1. rewrite Hlk. simpl. rewrite Z.eqb_refl. simpl.
  apply wp_upd_buf. unfold sync_buf, wp. simpl.
  rewrite list_lookup_total_alter_eq by lia.
  destruct (iderw_write (bc_pid s) (set_flags (Z.lor (b_flags (bc_buf s !!! i)) B_DIRTY) (bc_buf s !!! i))
    (bc_disk s)) as (d' & -> & Hblk & Hsz & Hw); simpl; try (done || lia || congruence).
  - rewrite Hlk. unfold holdingsleep. simpl. by rewrite Z.eqb_refl.
  - rewrite Hfl. right. by case_decide.
  - simpl in Hblk, Hw. rewrite Hbno, Hdat in Hblk, Hw. rewrite Hsz, Hw. split_and!; [|done..].
    rewrite alter_insert, list_insert_insert_eq.
    destruct Hrep as ((l & Hlru) & Hb & HV). split_and!; simpl.
    + exists l. by apply lru_insert.
    + rewrite Hsz. eapply (bufs_ok_upd _ _ V P H); simpl; [done..| | | | |].
      * rewrite HHi. split; [simpl; congruence|]. simpl.
        rewrite decide_False by set_solver. split_and!; try (done || lia).
      * done.
      * intros k' Hne. rewrite fn_lookup_insert_ne by congruence. set_solver.
      * intros j Hj Hne Hdj Heq. apply Hne. destruct Hb as (_ & _ & Hu & _). by apply Hu.
      * intros k' _ Hne _ Heq. by apply Hne.
    + intros k' Hk'. rewrite Hblk. destruct (decide (k' = k)) as [->|Hne].
      * by rewrite !fn_lookup_insert.
      * rewrite !fn_lookup_insert_ne by done. apply HV. set_solver.
Qed.

(** Everything but the links. *)
Definition fields (b : buf) :=
  (b_flags b, b_dev b, b_blockno b, b_lock b, b_refcnt b, b_data b).

Lemma lru_front_fields b bs j : fields (lru_front b bs !!! j) = fields (bs !!! j).
Proof. unfold lru_front, lru_unlink. by rewrite !(alter_field fields). Qed.

Lemma bufs_ok_fields pid size V P H bs bs' :
  (∀ i, fields (bs' !!! i) = fields (bs !!! i)) →
  bufs_ok pid size V P H bs → bufs_ok pid size V P H bs'.
Proof.
  intros Hf (Hb & Ho & Hu & Hp). unfold bufs_ok, buf_ok. split_and!; [|done| |].
  - intros i Hi. specialize (Hb i Hi). specialize (Hf i). injection Hf as -> -> -> -> -> ->. done.
  - intros i j Hi Hj. pose proof (Hf i) as Hfi. pose proof (Hf j) as Hfj.
    injection Hfi as _ -> -> _ _ _. injection Hfj as _ -> -> _ _ _. by apply Hu.
  - intros k Hk. destruct (Hp k Hk) as (i & Hi). exists i. specialize (Hf i).
    injection Hf as _ -> -> _ _ _. done.
Qed.

(** [brelse] gives a buffer back and moves it to the front of the list. *)
Lemma brelse_spec s V P H i k d :
  rep s V P H → H !! i = Some (k, d) → d = V k →
  wp (brelse i) (λ _ s', rep s' V P (delete i H) ∧
    bc_disk s' = bc_disk s ∧ bc_pid s' = bc_pid s) s.
Proof.
  intros Hrep HHi HdV. pose proof (rep_len _ _ _ _ Hrep) as Hlen.
  destruct (rep_held _ _ _ _ _ _ _ Hrep HHi) as (Hi & Hl & Hrng & Hdev & Hbno & Hdat & Hr & Hlk & Hfl).
  unfold brelse. apply wp_getS. unfold holdingsleep at 1. rewrite Hlk. simpl. rewrite Z.eqb_refl. simpl.
  apply wp_upd_buf, wp_upd_buf, wp_getS. simpl.
  rewrite !list_lookup_total_alter_eq by (rewrite ?length_alter; lia). simpl. rewrite Hr. simpl.
  unfold modify, wp. simpl. split_and!; [|done..].
  rewrite list_alter_alter_eq, alter_insert. unfold compose. simpl. rewrite Hr. simpl.
  set (b' := set_refcnt _ _).
  assert (Hrep' : rep (mkBio (<[i := b']> (bc_buf s)) (bc_disk s) (bc_pid s)) V P (delete i H)).
  { eapply rep_upd; [exact Hrep|done..| | | | | |]; simpl; rewrite ?Hbno.
    - rewrite lookup_delete_eq. split; [simpl; congruence|]. simpl. split_and!; [done|done|].
      right. rewrite Hbno. split_and!; try (done || lia || congruence).
    - intros j Hj. by rewrite lookup_delete_ne.
    - done.
    - destruct Hrep as (_ & _ & HV). apply HV.
    - intros j Hj Hne Hdj Heq. apply Hne. destruct Hrep as (_ & (_ & _ & Hu & _) & _). apply Hu; congruence.
    - intros k' _ Hne _ Heq. by apply Hne. }
  clearbody b'. destruct Hrep' as ((l & Hlru) & Hb & HV). simpl in Hb, HV, Hlru.
  assert (Hil : i ∈ l) by (by apply (lru_elem _ _ _ Hlru)).
  apply list_elem_of_split in Hil as (l1 & l2 & ->).
  split_and!; [exists (i :: l1 ++ l2); by apply lru_front_lru| |done]. simpl.
  eapply bufs_ok_fields; [|done]. apply lru_front_fields.
Qed.
End specs.

(** ** Boot *)

(** The cache after [binit], before any block is read. *)
Definition bcache_boot {D} (d : D) (pid : Z) : bio D :=
  mkBio (binit (replicate (S NBUF) zero_buf)) d pid.

Lemma binit_fields bs :
  (∀ j, fields (bs !!! j) = fields zero_buf) → ∀ j, fields (binit bs !!! j) = fields zero_buf.
Proof.
  intros Hbs. unfold binit.
  cut (∀ bs, (∀ j, fields (bs !!! j) = fields zero_buf) →
         ∀ j, fields (foldl binit_link bs (seq 0 NBUF) !!! j) = fields zero_buf).
  { intros Hc. apply Hc. apply (alter_all (λ b, fields b = fields zero_buf)); [done|].
    by apply (alter_all (λ b, fields b = fields zero_buf)). }
  clear. generalize (seq 0 NBUF). intros l.
  induction l as [|b l IH]; intros bs Hbs; simpl; [done|]. apply IH. unfold binit_link.
  repeat (apply (alter_all (λ b, fields b = fields zero_buf));
    [intros x Hx; first [exact Hx|
       unfold fields in *; injection Hx as E1 E2 E3 E4 E5 E6;
       unfold set_lock; cbn [b_flags b_dev b_blockno b_lock b_refcnt b_data]; rewrite E1, E2, E3, E5, E6; reflexivity]|]).
  exact Hbs.
Qed.

Lemma fields_inv b b' :
  fields b = fields b' →
  b_flags b = b_flags b' ∧ b_dev b = b_dev b' ∧ b_lock b = b_lock b' ∧
  b_refcnt b = b_refcnt b' ∧ b_data b = b_data b'.
Proof. unfold fields. intros E. by injection E. Qed.

Lemma length_zero_data : length (b_data zero_buf) = BSIZE.
Proof. reflexivity. Qed.

Lemma rep_boot {D} {drv : DiskDriver D} {dl : DiskLaws D} (d : D) pid :
  rep (bcache_boot d pid) (disk_block d) ∅ ∅.
Proof.
  assert (Hf : ∀ j, fields (binit (replicate (S NBUF) zero_buf) !!! j) = fields zero_buf).
  { apply binit_fields. intros j. destruct (decide (j < S NBUF)%nat).
    - by rewrite lookup_total_replicate_2.
    - rewrite list_lookup_total_alt, lookup_ge_None_2; [done|]. rewrite length_replicate. lia. }
  split_and!; unfold bcache_boot; cbn [bc_buf bc_pid bc_disk].
  - eexists. apply binit_lru. apply length_replicate.
  - split_and!.
    + intros i Hi. rewrite lookup_empty.
      destruct (fields_inv _ _ (Hf i)) as (H1 & H2 & H3 & H4 & H5).
      unfold buf_ok. rewrite H1, H2, H3, H4, H5. split; [apply length_zero_data|].
      split; [reflexivity|]. split; [reflexivity|]. left; split; reflexivity.
    + intros i _. apply lookup_empty.
    + intros i j _ _ Hi _ _. exfalso. destruct (fields_inv _ _ (Hf i)) as (_ & Hd & _).
      rewrite Hd in Hi. clear -Hi. discriminate.
    + intros k Hk. clear -Hk. by apply elem_of_empty in Hk.
  - intros k _. reflexivity.
Qed.
