(* ===== verification/Memide.v ===== *)
(** * The in-memory disk driver (src/memide.c)

    The driver linked into the memfs kernel: the disk is the image's byte array
    and [iderw] copies one block either way.  [md_writes] is a history variable:
    the blocks written so far, latest first, which the crash theorems cut at
    every point. *)

From S2P Require Import Prelude Dll Sleeplock Bio.

Record memdisk : Type := mkMemdisk {
  md_bytes : list byte;
  md_writes : list (Z * list byte);
}.

Definition ideinit (img : list byte) : memdisk := mkMemdisk img [].

(** [disksize], which [ideinit] computes from the size of the image *)
Definition disksize (d : memdisk) : Z := u32 (Z.of_nat (length (md_bytes d))) / Z.of_nat BSIZE.

(** Interrupt handler: nothing to do for a synchronous driver. *)
Definition ideintr : M memdisk unit := mret tt.

Definition memide_iderw (pid : Z) (b : buf) : M memdisk buf :=
  if negb (holdingsleep pid (b_lock b)) then panic "iderw: buf not locked"
  else if Z.land (b_flags b) (Z.lor B_VALID B_DIRTY) =? B_VALID then panic "iderw: nothing to do"
  else if negb (b_dev b =? 1) then panic "iderw: request not for disk 1"
  else
    d ← getS;
    if disksize d <=? b_blockno b then panic "iderw: block out of range"
    else
      let p := Z.to_nat (b_blockno b * Z.of_nat BSIZE) in
      if negb (Z.land (b_flags b) B_DIRTY =? 0) then
        let b := set_flags (Z.land (b_flags b) (Z.lnot B_DIRTY)) b in
        putS (mkMemdisk (blit p (b_data b) (md_bytes d)) ((b_blockno b, b_data b) :: md_writes d));;
        mret (set_flags (Z.lor (b_flags b) B_VALID) b)
      else
        let b := set_data (take BSIZE (drop p (md_bytes d))) b in
        mret (set_flags (Z.lor (b_flags b) B_VALID) b).

#[global] Instance memide_driver : DiskDriver memdisk := memide_iderw.

(** The block [k] of the image. *)
Definition md_block (d : memdisk) (k : Z) : list byte :=
  if k <? 0 then [] else take BSIZE (drop (Z.to_nat (k * Z.of_nat BSIZE)) (md_bytes d)).

Lemma disksize_room d k :
  0 ≤ k < disksize d → (Z.to_nat (k * Z.of_nat BSIZE) + BSIZE ≤ length (md_bytes d))%nat.
Proof.
  unfold disksize. intros Hk.
  assert (u32 (Z.of_nat (length (md_bytes d))) ≤ Z.of_nat (length (md_bytes d)))
    by (apply Z.mod_le; lia).
  pose proof (Z.mul_div_le (u32 (Z.of_nat (length (md_bytes d)))) (Z.of_nat BSIZE)).
  unfold BSIZE in *. lia.
Qed.

Lemma memide_read pid b d :
  holdingsleep pid (b_lock b) = true → b_flags b = 0 → b_dev b = ROOTDEV →
  0 ≤ b_blockno b < disksize d →
  memide_iderw pid b d = Ok (set_flags B_VALID (set_data (md_block d (b_blockno b)) b)) d.
Proof.
  intros Hl Hf Hd Hk. unfold memide_iderw. rewrite Hl, Hf, Hd. simpl.
  unfold mbind, M_bind, getS. rewrite (proj2 (Z.leb_gt _ _)) by lia. simpl.
  rewrite Hf. unfold md_block. by rewrite (proj2 (Z.ltb_ge _ _)) by lia.
Qed.

Lemma memide_write pid b d :
  holdingsleep pid (b_lock b) = true → b_flags b = B_DIRTY ∨ b_flags b = Z.lor B_VALID B_DIRTY →
  b_dev b = ROOTDEV → 0 ≤ b_blockno b < disksize d →
  memide_iderw pid b d =
    Ok (set_flags B_VALID b)
       (mkMemdisk (blit (Z.to_nat (b_blockno b * Z.of_nat BSIZE)) (b_data b) (md_bytes d))
          ((b_blockno b, b_data b) :: md_writes d)).
Proof.
  intros Hl Hf Hd Hk. unfold memide_iderw. rewrite Hl, Hd. simpl.
  destruct Hf as [Hf|Hf]; rewrite Hf; simpl; unfold mbind, M_bind, getS;
    rewrite (proj2 (Z.leb_gt _ _)) by lia; done.
Qed.

Lemma md_block_blit bs ws k d k' :
  length d = BSIZE → 0 ≤ k →
  (Z.to_nat (k * Z.of_nat BSIZE) + BSIZE ≤ length bs)%nat →
  md_block (mkMemdisk (blit (Z.to_nat (k * Z.of_nat BSIZE)) d bs) ((k, d) :: ws)) k' =
  (<[k := d]> (md_block (mkMemdisk bs ws))) k'.
Proof.
  intros Hd Hk Hl. destruct (decide (k = k')) as [<-|Hne].
  - rewrite fn_lookup_insert. unfold md_block. rewrite (proj2 (Z.ltb_ge _ _)) by lia.
    simpl md_bytes. rewrite <-Hd at 1. apply slice_blit_eq. lia.
  - rewrite fn_lookup_insert_ne by done. unfold md_block. simpl md_bytes.
    destruct (Z.ltb_spec k' 0); [done|]. apply slice_blit_ne; [lia|]. unfold BSIZE in *. lia.
Qed.

Lemma md_block_len d k : 0 ≤ k < disksize d → length (md_block d k) = BSIZE.
Proof.
  intros Hk. unfold md_block. rewrite (proj2 (Z.ltb_ge _ _)) by lia.
  rewrite length_take, length_drop. pose proof (disksize_room _ _ Hk). lia.
Qed.

Lemma memide_write_law pid b d :
  holdingsleep pid (b_lock b) = true → b_flags b = B_DIRTY ∨ b_flags b = Z.lor B_VALID B_DIRTY →
  b_dev b = ROOTDEV → 0 ≤ b_blockno b < disksize d → length (b_data b) = BSIZE →
  ∃ d', memide_iderw pid b d = Ok (set_flags B_VALID b) d' ∧
    (∀ k, md_block d' k = (<[b_blockno b := b_data b]> (md_block d)) k) ∧
    disksize d' = disksize d ∧ md_writes d' = (b_blockno b, b_data b) :: md_writes d.
Proof.
  intros Hl Hf Hd Hk Hlen. eexists. split; [by apply memide_write|].
  pose proof (disksize_room _ _ Hk) as Hroom. split_and!; [| |done].
  - intros k. destruct d as [bs ws]. apply md_block_blit; [done|lia|done].
  - unfold disksize. simpl. rewrite length_blit by lia. done.
Qed.

#[global] Instance memide_laws : DiskLaws memdisk := {
  disk_block := md_block;
  disk_size := disksize;
  disk_writes := md_writes;
  disk_block_len := md_block_len;
  iderw_read := memide_read;
  iderw_write := memide_write_law;
}.
