(* ===== verification/FsLayout.v ===== *)
(** * On-disk structures (src/fs.h) and [readsb] (src/fs.c)

    The fields of the on-disk structures at their byte offsets inside a block,
    as the kernel's casts of [bp->data] read them. *)

From S2P Require Import Prelude Dll Sleeplock Bio.

Definition ROOTINO : Z := 1.

(** [struct superblock] *)
Record superblock : Type := mkSb {
  sb_size : Z; sb_nblocks : Z; sb_ninodes : Z; sb_nlog : Z;
  sb_logstart : Z; sb_inodestart : Z; sb_bmapstart : Z;
}.

(** [memmove(sb, bp->data, sizeof( *sb))] *)
Definition sb_decode (d : list byte) : superblock :=
  mkSb (ld 4 0 d) (ld 4 4 d) (ld 4 8 d) (ld 4 12 d) (ld 4 16 d) (ld 4 20 d) (ld 4 24 d).

Section readsb.
Context {D : Type} {drv : DiskDriver D}.

Definition readsb (dev : Z) : M (bio D) superblock :=
  bp ← bread dev 1;
  s ← getS;
  let sb := sb_decode (buf_data s bp) in
  brelse bp;;
  mret sb.
End readsb.
