(* ===== verification/Log.v ===== *)
(** * The write-ahead log (src/log.c)

    [struct log] and its operations over the buffer cache.  The spin lock
    [log.lock] makes each locked section atomic; [begin_op]'s [sleep] is the
    result [Blocked].  The on-disk header is read and written through the byte
    layout of [struct logheader]: word 0 is [n], word [1 + i] is [block[i]]. *)

From S2P Require Import Prelude Dll Sleeplock Bio Memide FsLayout.

(** [struct log] with its embedded [struct logheader] *)
Record log : Type := mkLog {
  lg_start : Z;
  lg_size : Z;
  lg_outstanding : Z;
  lg_committing : Z;
  lg_dev : Z;
  lh_n : Z;
  lh_block : list Z;
}.

Definition set_outstanding v l := mkLog (lg_start l) (lg_size l) v (lg_committing l) (lg_dev l) (lh_n l) (lh_block l).
Definition set_committing v l := mkLog (lg_start l) (lg_size l) (lg_outstanding l) v (lg_dev l) (lh_n l) (lh_block l).
Definition set_lh n bl l := mkLog (lg_start l) (lg_size l) (lg_outstanding l) (lg_committing l) (lg_dev l) n bl.

(** [static struct log log], zero-initialised *)
Definition log_zero : log := mkLog 0 0 0 0 0 0 (replicate (Z.to_nat LOGSIZE) 0).

Record logst (D : Type) : Type := mkLogst {
  ls_bio : bio D;
  ls_log : log;
}.
Arguments mkLogst {D}. Arguments ls_bio {D}. Arguments ls_log {D}.

(** The locked section of [begin_op]; [None] when it must sleep. *)
Definition log_reserve (l : log) : option log :=
  if negb (lg_committing l =? 0) then None
  else if LOGSIZE <? lh_n l + (lg_outstanding l + 1) * MAXOPBLOCKS then None
  else Some (set_outstanding (lg_outstanding l + 1) l).

(** The locked section of [end_op]: [None] is its panic, and the flag says
    whether this was the last outstanding operation, which commits. *)
Definition log_end (l : log) : option (log * bool) :=
  let l := set_outstanding (lg_outstanding l - 1) l in
  if negb (lg_committing l =? 0) then None
  else if lg_outstanding l =? 0 then Some (set_committing 1 l, true)
  else Some (l, false).

(** The search loop of [log_write] and the update after it. *)
Fixpoint absorb_index (b : Z) (bl : list Z) (n : nat) : nat :=
  match n, bl with
  | S n, x :: bl => if u32 x =? b then O else S (absorb_index b bl n)
  | _, _ => O
  end.

Definition log_absorb (b : Z) (l : log) : log :=
  let i := absorb_index b (lh_block l) (Z.to_nat (lh_n l)) in
  set_lh (if Z.of_nat i =? lh_n l then lh_n l + 1 else lh_n l) (<[i := s32 b]> (lh_block l)) l.

(** The two panics of [log_write]. *)
Definition log_full (l : log) : bool :=
  (LOGSIZE <=? lh_n l) || (lg_size l - 1 <=? lh_n l).

(** [hb->n = n; hb->block[i] = bl[i]] for the listed blocks *)
Fixpoint put_words (i : nat) (ws : list Z) (d : list byte) : list byte :=
  match ws with
  | [] => d
  | w :: ws => put_words (S i) ws (st 4 (4 * i) w d)
  end.

Definition hdr_put (n : Z) (bl : list Z) (d : list byte) : list byte :=
  put_words 1 (take (Z.to_nat n) bl) (st 4 0 n d).

Definition hdr_n (d : list byte) : Z := s32 (ld 4 0 d).
Definition hdr_block (d : list byte) (i : nat) : Z := s32 (ld 4 (4 * (1 + i)) d).

Section ops.
Context {D : Type} {drv : DiskDriver D}.

Definition liftB {A} (m : M (bio D) A) : M (logst D) A := λ s,
  match m (ls_bio s) with
  | Ok a b => Ok a (mkLogst b (ls_log s))
  | Blocked b => Blocked (mkLogst b (ls_log s))
  | Panic msg => Panic msg
  end.

Definition upd_log (f : log → log) : M (logst D) unit :=
  modify (λ s, mkLogst (ls_bio s) (f (ls_log s))).

(** Copy committed blocks from log to their home location *)
Definition install_trans : M (logst D) unit :=
  s ← getS;
  let l := ls_log s in
  mfor 0 (Z.to_nat (lh_n l)) (λ tail,
    lbuf ← liftB (bread (lg_dev l) (u32 (lg_start l + Z.of_nat tail + 1)));
    dbuf ← liftB (bread (lg_dev l) (u32 (lh_block l !!! tail)));
    s ← getS;
    liftB (put_data dbuf (buf_data (ls_bio s) lbuf));;
    liftB (bwrite dbuf);;
    liftB (brelse lbuf);;
    liftB (brelse dbuf)).

(** Read the log header from disk into the in-memory log header *)
Definition read_head : M (logst D) unit :=
  s ← getS;
  buf ← liftB (bread (lg_dev (ls_log s)) (u32 (lg_start (ls_log s))));
  s ← getS;
  let lh := buf_data (ls_bio s) buf in
  upd_log (λ l, set_lh (hdr_n lh) (lh_block l) l);;
  mfor 0 (Z.to_nat (hdr_n lh)) (λ i,
    upd_log (λ l, set_lh (lh_n l) (<[i := hdr_block lh i]> (lh_block l)) l));;
  liftB (brelse buf).

(** Write in-memory log header to disk: the commit point *)
Definition write_head : M (logst D) unit :=
  s ← getS;
  buf ← liftB (bread (lg_dev (ls_log s)) (u32 (lg_start (ls_log s))));
  s ← getS;
  liftB (put_data buf (hdr_put (lh_n (ls_log s)) (lh_block (ls_log s)) (buf_data (ls_bio s) buf)));;
  liftB (bwrite buf);;
  liftB (brelse buf).

Definition recover_from_log : M (logst D) unit :=
  read_head;;
  install_trans;;
  upd_log (λ l, set_lh 0 (lh_block l) l);;
  write_head.

Definition initlog (dev : Z) : M (logst D) unit :=
  if Z.of_nat BSIZE <=? 4 * (1 + LOGSIZE) then panic "initlog: too big logheader"
  else
    sb ← liftB (readsb dev);
    upd_log (λ l, mkLog (s32 (sb_logstart sb)) (s32 (sb_nlog sb)) (lg_outstanding l) (lg_committing l) dev
                    (lh_n l) (lh_block l));;
    recover_from_log.

(** called at the start of each FS system call *)
Definition begin_op : M (logst D) unit :=
  s ← getS;
  match log_reserve (ls_log s) with
  | None => sleeps
  | Some l => upd_log (λ _, l)
  end.

(** Copy modified blocks from cache to log *)
Definition write_log : M (logst D) unit :=
  s ← getS;
  let l := ls_log s in
  mfor 0 (Z.to_nat (lh_n l)) (λ tail,
    to ← liftB (bread (lg_dev l) (u32 (lg_start l + Z.of_nat tail + 1)));
    from ← liftB (bread (lg_dev l) (u32 (lh_block l !!! tail)));
    s ← getS;
    liftB (put_data to (buf_data (ls_bio s) from));;
    liftB (bwrite to);;
    liftB (brelse from);;
    liftB (brelse to)).

Definition commit : M (logst D) unit :=
  s ← getS;
  if 0 <? lh_n (ls_log s) then
    write_log;;
    write_head;;
    install_trans;;
    upd_log (λ l, set_lh 0 (lh_block l) l);;
    write_head
  else mret tt.

(** called at the end of each FS system call;
    commits if this was the last outstanding operation *)
Definition end_op : M (logst D) unit :=
  s ← getS;
  match log_end (ls_log s) with
  | None => panic "log.committing"
  | Some (l, do_commit) =>
      upd_log (λ _, l);;
      if do_commit : bool then
        (* call commit w/o holding locks, since not allowed to sleep with locks *)
        commit;;
        upd_log (set_committing 0)
      else mret tt
  end.

(** Caller has modified b->data and is done with the buffer *)
Definition log_write (b : nat) : M (logst D) unit :=
  s ← getS;
  if log_full (ls_log s) then panic "too big a transaction"
  else if lg_outstanding (ls_log s) <? 1 then panic "log_write outside of trans"
  else
    upd_log (log_absorb (b_blockno (bc_buf (ls_bio s) !!! b)));;
    liftB (upd_buf b (λ x, set_flags (Z.lor (b_flags x) B_DIRTY) x)).
End ops.

(** ** Sequences of block writes *)

Definition dwrite (f : Z → list byte) (w : Z * list byte) : Z → list byte := <[w.1 := w.2]> f.
Definition dwrites (f : Z → list byte) (ws : list (Z * list byte)) : Z → list byte := foldl dwrite f ws.

(** [ran s s' ws]: between [s] and [s'] the disk saw exactly the writes [ws]. *)
Definition ran {D} {drv : DiskDriver D} {dl : DiskLaws D} (s s' : bio D) (ws : list (Z * list byte)) : Prop :=
  (∀ k, disk_block (bc_disk s') k = dwrites (disk_block (bc_disk s)) ws k) ∧
  disk_size (bc_disk s') = disk_size (bc_disk s) ∧
  disk_writes (bc_disk s') = reverse ws ++ disk_writes (bc_disk s) ∧
  bc_pid s' = bc_pid s.

(** The writes of [write_log] and of [install_trans] for the blocks [bl]. *)
Definition log_ws (start : Z) (V : Z → list byte) (bl : list Z) : list (Z * list byte) :=
  imap (λ t b, (start + Z.of_nat t + 1, V b)) bl.
Definition install_ws (start : Z) (V : Z → list byte) (bl : list Z) : list (Z * list byte) :=
  imap (λ t b, (b, V (start + Z.of_nat t + 1))) bl.

(** The block numbers recorded in the in-memory header. *)
Definition logged (l : log) : list Z := take (Z.to_nat (lh_n l)) (lh_block l).

Definition in_log (l : log) (k : Z) : Prop := lg_start l ≤ k < lg_start l + lg_size l.

(** A log placed on a disk of [size] blocks, whose header lists distinct home
    blocks outside the log area and fits both the area and the header. *)
Record log_wf (size : Z) (l : log) : Prop := {
  lw_dev : lg_dev l = ROOTDEV;
  lw_area : 0 ≤ lg_start l ∧ lg_start l + lg_size l ≤ size ≤ 2 ^ 31;
  lw_len : length (lh_block l) = Z.to_nat LOGSIZE;
  lw_n : 0 ≤ lh_n l ∧ lh_n l ≤ lg_size l - 1 ∧ lh_n l ≤ LOGSIZE;
  lw_nodup : NoDup (logged l);
  lw_home : ∀ b, b ∈ logged l → 0 ≤ b < size ∧ ¬ in_log l b;
}.

Section writes.
Implicit Types (f g : Z → list byte) (ws : list (Z * list byte)).

Lemma dwrites_app f ws1 ws2 : dwrites f (ws1 ++ ws2) = dwrites (dwrites f ws1) ws2.
Proof. apply foldl_app. Qed.

Lemma dwrites_ext f g ws k : (∀ k, f k = g k) → dwrites f ws k = dwrites g ws k.
Proof.
  revert f g. induction ws as [|w ws IH]; intros f g Hfg; simpl; [done|].
  apply IH. intros k'. unfold dwrite. destruct (decide (w.1 = k')) as [<-|].
  - by rewrite !fn_lookup_insert.
  - by rewrite !fn_lookup_insert_ne.
Qed.

Lemma dwrites_notin f ws k : k ∉ ws.*1 → dwrites f ws k = f k.
Proof.
  revert f. induction ws as [|w ws IH]; intros f Hk; simpl; [done|].
  rewrite IH by set_solver. unfold dwrite. rewrite fn_lookup_insert_ne; [done|set_solver].
Qed.

Lemma dwrites_lookup f ws k d :
  NoDup (ws.*1) → (k, d) ∈ ws → dwrites f ws k = d.
Proof.
  revert f. induction ws as [|w ws IH]; intros f Hnd Hin; [set_solver|].
  simpl in *. apply NoDup_cons in Hnd as [Hw Hnd].
  apply elem_of_cons in Hin as [<-|Hin]; [|by apply IH].
  rewrite dwrites_notin by done. apply fn_lookup_insert.
Qed.

Lemma log_ws_fst start V bl k :
  k ∈ (log_ws start V bl).*1 → start + 1 ≤ k < start + 1 + Z.of_nat (length bl).
Proof.
  unfold log_ws. rewrite list_elem_of_fmap. intros ([k' d] & -> & Hin).
  apply list_elem_of_lookup in Hin as (t & Ht). rewrite list_lookup_imap in Ht.
  destruct (bl !! t) as [b|] eqn:E; simplify_eq/=. apply lookup_lt_Some in E. lia.
Qed.

Lemma install_ws_fst start V bl : (install_ws start V bl).*1 = bl.
Proof.
  unfold install_ws. rewrite fmap_imap. unfold compose. simpl.
  induction bl using rev_ind; [done|]. rewrite imap_app. simpl. by rewrite IHbl.
Qed.

Lemma log_ws_snoc start V bl b :
  log_ws start V (bl ++ [b]) = log_ws start V bl ++ [(start + Z.of_nat (length bl) + 1, V b)].
Proof. unfold log_ws. rewrite imap_app. simpl. by rewrite Nat.add_0_r. Qed.

Lemma install_ws_snoc start V bl b :
  install_ws start V (bl ++ [b]) =
  install_ws start V bl ++ [(b, V (start + Z.of_nat (length bl) + 1))].
Proof. unfold install_ws. rewrite imap_app. simpl. by rewrite Nat.add_0_r. Qed.
End writes.

Section ran.
Context {D : Type} {drv : DiskDriver D} {dl : DiskLaws D}.
Implicit Types (s : bio D).

Lemma ran_nil s s' : bc_disk s' = bc_disk s → bc_pid s' = bc_pid s → ran s s' [].
Proof. intros Hd Hp. unfold ran. by rewrite Hd. Qed.

Lemma ran_app s1 s2 s3 ws1 ws2 : ran s1 s2 ws1 → ran s2 s3 ws2 → ran s1 s3 (ws1 ++ ws2).
Proof.
  intros (B1 & S1 & W1 & P1) (B2 & S2 & W2 & P2). split_and!; [|congruence| |congruence].
  - intros k. rewrite B2, dwrites_app. by apply dwrites_ext.
  - rewrite W2, W1, reverse_app. by rewrite app_assoc.
Qed.

Lemma ran_same s1 s2 s3 ws :
  ran s1 s2 ws → bc_disk s3 = bc_disk s2 → bc_pid s3 = bc_pid s2 → ran s1 s3 ws.
Proof. intros (? & ? & ? & ?) Hd Hp. unfold ran. by rewrite Hd, Hp. Qed.
End ran.

(** ** The header block *)

Section header.
Implicit Types (d : list byte) (ws : list Z).

Lemma length_put_words i ws d :
  (4 * (i + length ws) ≤ length d)%nat → length (put_words i ws d) = length d.
Proof.
  revert i d. induction ws as [|w ws IH]; intros i d Hl; simpl in *; [done|].
  rewrite IH; rewrite length_st; lia.
Qed.

Lemma ld_put_words_below i ws d off :
  (4 * (i + length ws) ≤ length d)%nat → (off + 4 ≤ 4 * i)%nat →
  ld 4 off (put_words i ws d) = ld 4 off d.
Proof.
  revert i d. induction ws as [|w ws IH]; intros i d Hl Ho; simpl in *; [done|].
  rewrite IH by (rewrite ?length_st; lia). apply ld_st_ne; lia.
Qed.

Lemma ld_put_words i ws d j w :
  (4 * (i + length ws) ≤ length d)%nat → ws !! j = Some w →
  ld 4 (4 * (i + j)) (put_words i ws d) = u32 w.
Proof.
  revert i d j. induction ws as [|x ws IH]; intros i d j Hl Hj; [done|].
  cbn [put_words length] in *. destruct j as [|j]; [injection Hj as ->|simpl in Hj].
  - rewrite Nat.add_0_r, ld_put_words_below by (rewrite ?length_st; lia).
    rewrite ld_st_eq by lia. done.
  - replace (i + S j)%nat with (S i + j)%nat by lia. apply IH; [rewrite length_st; lia|done].
Qed.

(** The header fits a block, and reading it back gives what was written. *)
Definition hdr_fits (n : Z) (bl : list Z) : Prop :=
  0 ≤ n ≤ LOGSIZE ∧ length bl = Z.to_nat LOGSIZE.

Lemma hdr_put_len n bl d : hdr_fits n bl → length d = BSIZE → length (hdr_put n bl d) = BSIZE.
Proof.
  intros [Hn Hbl] Hd. unfold hdr_put. unfold LOGSIZE, MAXOPBLOCKS, BSIZE in *.
  rewrite length_put_words; rewrite length_st; rewrite ?length_take; lia.
Qed.

Lemma hdr_n_put n bl d : hdr_fits n bl → length d = BSIZE → hdr_n (hdr_put n bl d) = n.
Proof.
  intros [Hn Hbl] Hd. unfold hdr_put, hdr_n. unfold LOGSIZE, MAXOPBLOCKS, BSIZE in *.
  rewrite ld_put_words_below by (rewrite ?length_st, ?length_take; lia).
  rewrite ld_st_eq by lia. change (n mod 256 ^ Z.of_nat 4) with (u32 n).
  rewrite s32_u32. apply s32_small. lia.
Qed.

Lemma hdr_block_put n bl d i b :
  hdr_fits n bl → length d = BSIZE → take (Z.to_nat n) bl !! i = Some b → 0 ≤ b < 2 ^ 31 →
  hdr_block (hdr_put n bl d) i = b.
Proof.
  intros [Hn Hbl] Hd Hi Hb. unfold hdr_put, hdr_block. unfold LOGSIZE, MAXOPBLOCKS, BSIZE in *.
  rewrite (ld_put_words 1 _ _ i b); [|rewrite ?length_st, ?length_take; lia|done].
  rewrite s32_u32. apply s32_small. lia.
Qed.
End header.

Section specs.
Context {D : Type} {drv : DiskDriver D} {dl : DiskLaws D}.
Implicit Types (s : logst D) (V : Z → list byte) (P : gset Z) (l : log).

Lemma wp_liftB {A} (m : M (bio D) A) (Q : A → logst D → Prop) s :
  wp m (λ a b, Q a (mkLogst b (ls_log s))) (ls_bio s) → wp (liftB m) Q s.
Proof. unfold wp, liftB. by destruct (m (ls_bio s)). Qed.

Lemma wp_liftB_bind {A B} (m : M (bio D) A) (k : A → M (logst D) B) (Q : B → logst D → Prop) s :
  wp m (λ a b, wp (k a) Q (mkLogst b (ls_log s))) (ls_bio s) → wp (liftB m ≫= k) Q s.
Proof. intros Hm. apply wp_bind, wp_liftB, Hm. Qed.

(** Copy the data of buffer [j] into buffer [i], write it out, release both. *)
Lemma copy_spec s V P i j a b :
  i ≠ j → a ≠ b →
  rep (ls_bio s) V P (<[i := (a, V a)]> (<[j := (b, V b)]> ∅)) →
  wp (liftB (put_data i (buf_data (ls_bio s) j));; liftB (bwrite i);; liftB (brelse j);; liftB (brelse i))
    (λ _ s', ls_log s' = ls_log s ∧ rep (ls_bio s') (<[a := V b]> V) (P ∖ {[a]}) ∅ ∧
             ran (ls_bio s) (ls_bio s') [(a, V b)]) s.
Proof.
  intros Hij Hab Hrep.
  assert (Hj : buf_data (ls_bio s) j = V b).
  { eapply buf_data_spec; [done|]. by rewrite lookup_insert_ne, lookup_insert_eq. }
  rewrite Hj.
  assert (Hlb : length (V b) = BSIZE).
  { assert (E : (<[i := (a, V a)]> (<[j := (b, V b)]> ∅) : gmap nat _) !! j = Some (b, V b))
      by (by rewrite lookup_insert_ne, lookup_insert_eq).
    by destruct (rep_held _ _ _ _ _ _ _ Hrep E) as (_ & ? & _). }
  apply wp_liftB_bind.
  eapply wp_mono; [eapply put_data_spec; [exact Hrep|by rewrite lookup_insert_eq|done]|].
  intros [] s1 (Hrep1 & Hd1 & Hp1). rewrite insert_insert_eq in Hrep1.
  apply wp_liftB_bind. simpl.
  eapply wp_mono; [eapply bwrite_spec; [exact Hrep1|by rewrite lookup_insert_eq]|].
  intros [] s2 (Hrep2 & Hblk & Hsz & Hw & Hp2). simpl.
  apply wp_liftB_bind. simpl. eapply wp_mono; [eapply brelse_spec; [exact Hrep2| |]|].
  - by rewrite lookup_insert_ne, lookup_insert_eq.
  - by rewrite fn_lookup_insert_ne.
  - intros [] s3 (Hrep3 & Hd3 & Hp3). simpl. apply wp_liftB. simpl.
    rewrite delete_insert_ne, delete_insert_id in Hrep3 by done.
    eapply wp_mono; [eapply brelse_spec; [exact Hrep3|by rewrite lookup_insert_eq|by rewrite fn_lookup_insert]|].
    intros [] s4 (Hrep4 & Hd4 & Hp4). simpl. rewrite delete_insert_id in Hrep4 by done.
    split_and!; [done|done|]. split_and!; rewrite ?Hd4, ?Hd3, ?Hp4, ?Hp3; [|congruence|by rewrite Hw, Hd1|congruence].
    intros k. rewrite Hblk, Hd1. done.
Qed.

(** One iteration of [write_log]: log block [a] receives pinned block [b]. *)
Lemma write_log_step s V P a b :
  rep (ls_bio s) V P ∅ → a ≠ b → b ∈ P → a ∉ P → (base.size P < NBUF)%nat →
  0 ≤ a < disk_size (bc_disk (ls_bio s)) → 0 ≤ b < disk_size (bc_disk (ls_bio s)) →
  wp (to ← liftB (bread ROOTDEV a); from ← liftB (bread ROOTDEV b); s ← getS;
      liftB (put_data to (buf_data (ls_bio s) from));; liftB (bwrite to);;
      liftB (brelse from);; liftB (brelse to))
    (λ _ s', ls_log s' = ls_log s ∧ rep (ls_bio s') (<[a := V b]> V) P ∅ ∧
             ran (ls_bio s) (ls_bio s') [(a, V b)]) s.
Proof.
  intros Hrep Hab Hb Ha Hsz Ra Rb.
  assert (Hh : held ∅ = ∅) by (unfold held; by rewrite fmap_empty, map_img_empty_L).
  apply wp_liftB_bind. eapply wp_mono.
  { eapply bread_spec; [exact Hrep|done|by rewrite Hh|right; by rewrite Hh, union_empty_r_L]. }
  intros i s1 (Hi & Hrep1 & Hd1 & Hp1). apply wp_liftB_bind. simpl. eapply wp_mono.
  { eapply bread_spec; [exact Hrep1|by rewrite Hd1| |by left].
    rewrite elem_of_held. intros (i' & d & E). rewrite lookup_insert in E. by case_decide; simplify_eq. }
  intros j s2 (Hj & Hrep2 & Hd2 & Hp2). apply wp_getS. simpl.
  assert (Hij : i ≠ j) by (intros ->; by rewrite lookup_insert_eq in Hj).
  rewrite insert_insert_ne in Hrep2 by done.
  eapply wp_mono; [apply (copy_spec (mkLogst s2 (ls_log s)) V P i j a b); done|].
  intros [] s3 (Hl & Hrep3 & Hran). simpl in *.
  rewrite difference_disjoint_L in Hrep3 by set_solver. split_and!; [done|done|].
  eapply (ran_app _ s2 _ []); [|done]. apply ran_nil; congruence.
Qed.

(** One iteration of [install_trans]: home block [a] receives log block [b]. *)
Lemma install_step s V P a b :
  rep (ls_bio s) V P ∅ → a ≠ b → (base.size P < NBUF)%nat → P = ∅ ∨ a ∈ P →
  0 ≤ a < disk_size (bc_disk (ls_bio s)) → 0 ≤ b < disk_size (bc_disk (ls_bio s)) →
  wp (lbuf ← liftB (bread ROOTDEV b); dbuf ← liftB (bread ROOTDEV a); s ← getS;
      liftB (put_data dbuf (buf_data (ls_bio s) lbuf));; liftB (bwrite dbuf);;
      liftB (brelse lbuf);; liftB (brelse dbuf))
    (λ _ s', ls_log s' = ls_log s ∧ rep (ls_bio s') (<[a := V b]> V) (P ∖ {[a]}) ∅ ∧
             ran (ls_bio s) (ls_bio s') [(a, V b)]) s.
Proof.
  intros Hrep Hab Hsz HP Ra Rb.
  assert (Hh : held ∅ = ∅) by (unfold held; by rewrite fmap_empty, map_img_empty_L).
  apply wp_liftB_bind. eapply wp_mono.
  { eapply bread_spec; [exact Hrep|done|by rewrite Hh|right; by rewrite Hh, union_empty_r_L]. }
  intros j s1 (Hj & Hrep1 & Hd1 & Hp1). apply wp_liftB_bind. simpl. eapply wp_mono.
  { eapply bread_spec; [exact Hrep1|by rewrite Hd1| |].
    - rewrite elem_of_held. intros (i' & d & E). rewrite lookup_insert in E. by case_decide; simplify_eq.
    - destruct HP as [->|HP]; [right|by left]. unfold held.
      rewrite fmap_insert, fmap_empty, insert_empty, map_img_singleton_L, union_empty_l_L.
      rewrite size_singleton. apply Nat.ltb_lt. by vm_compute. }
  intros i s2 (Hi & Hrep2 & Hd2 & Hp2). apply wp_getS. simpl.
  assert (Hij : i ≠ j) by (intros ->; by rewrite lookup_insert_eq in Hi).
  eapply wp_mono; [apply (copy_spec (mkLogst s2 (ls_log s)) V P i j a b); done|].
  intros [] s3 (Hl & Hrep3 & Hran). simpl in *. split_and!; [done|done|].
  eapply (ran_app _ s2 _ []); [|done]. apply ran_nil; congruence.
Qed.

Lemma logged_lookup size l t b :
  log_wf size l → logged l !! t = Some b → (t < Z.to_nat (lh_n l))%nat ∧ lh_block l !!! t = b.
Proof.
  intros Hwf Ht. unfold logged in Ht. apply lookup_take_Some in Ht as [Ht Hlt].
  split; [done|]. by apply list_lookup_total_correct.
Qed.

Lemma logged_length size l : log_wf size l → length (logged l) = Z.to_nat (lh_n l).
Proof.
  intros Hwf. unfold logged. rewrite length_take, (lw_len _ _ Hwf).
  pose proof (lw_n _ _ Hwf). lia.
Qed.

Lemma logged_size size l : log_wf size l → (base.size (list_to_set (logged l) : gset Z) = Z.to_nat (lh_n l))%nat.
Proof. intros Hwf. rewrite size_list_to_set by apply Hwf. by eapply logged_length. Qed.

(** [write_log] copies the pinned blocks, in order, into the log area. *)
Lemma write_log_spec s V :
  let l := ls_log s in
  log_wf (disk_size (bc_disk (ls_bio s))) l → lh_n l < Z.of_nat NBUF →
  rep (ls_bio s) V (list_to_set (logged l)) ∅ →
  wp write_log (λ _ s', ls_log s' = l ∧
    rep (ls_bio s') (dwrites V (log_ws (lg_start l) V (logged l))) (list_to_set (logged l)) ∅ ∧
    ran (ls_bio s) (ls_bio s') (log_ws (lg_start l) V (logged l))) s.
Proof.
  intros l Hwf Hn Hrep. unfold write_log. apply wp_getS. cbv zeta.
  pose proof (logged_length _ _ Hwf) as Hlen. pose proof (logged_size _ _ Hwf) as Hsz.
  pose proof (lw_area _ _ Hwf). pose proof (lw_n _ _ Hwf).
  fold l. rewrite (lw_dev _ _ Hwf).
  apply (wp_mfor (λ t s', ls_log s' = l ∧
    rep (ls_bio s') (dwrites V (log_ws (lg_start l) V (take t (logged l)))) (list_to_set (logged l)) ∅ ∧
    ran (ls_bio s) (ls_bio s') (log_ws (lg_start l) V (take t (logged l))))).
  - split_and!; [done|done|]. by apply ran_nil.
  - intros t s1 Ht (Hl1 & Hrep1 & Hran1).
    destruct (lookup_lt_is_Some_2 (logged l) t) as [b Hb]; [lia|].
    destruct (logged_lookup _ _ _ _ Hwf Hb) as [_ Hbl]. rewrite Hbl.
    assert (Hin : b ∈ logged l) by (eapply list_elem_of_lookup_2; eauto).
    destruct (lw_home _ _ Hwf b Hin) as [Hrb Hhb]. unfold in_log in Hhb.
    pose proof Hran1 as (_ & Hsz1 & _). rewrite !u32_small by lia.
    rewrite (take_S_r _ _ _ Hb), log_ws_snoc, dwrites_app. simpl.
    assert (Htk : length (take t (logged l)) = t) by (rewrite length_take; lia). rewrite Htk.
    assert (HVb : dwrites V (log_ws (lg_start l) V (take t (logged l))) b = V b).
    { apply dwrites_notin. intros Hk%log_ws_fst. lia. }
    eapply wp_mono; [eapply write_log_step; [exact Hrep1|..]|].
    + lia.
    + by apply elem_of_list_to_set.
    + rewrite elem_of_list_to_set. intros Hl. apply (lw_home _ _ Hwf) in Hl. unfold in_log in Hl. lia.
    + lia.
    + rewrite Hsz1. lia.
    + by rewrite Hsz1.
    + rewrite HVb. intros [] s2 (Hl2 & Hrep2 & Hran2).
      split_and!; [congruence|done|]. by eapply ran_app.
  - intros s1. simpl. rewrite <-Hlen, firstn_all. done.
Qed.

(** [install_trans] copies the log blocks, in order, to their home blocks. *)
Lemma install_trans_spec s V P :
  let l := ls_log s in
  log_wf (disk_size (bc_disk (ls_bio s))) l →
  P = ∅ ∨ P = list_to_set (logged l) → (base.size P < NBUF)%nat →
  rep (ls_bio s) V P ∅ →
  wp install_trans (λ _ s', ls_log s' = l ∧
    rep (ls_bio s') (dwrites V (install_ws (lg_start l) V (logged l))) ∅ ∅ ∧
    ran (ls_bio s) (ls_bio s') (install_ws (lg_start l) V (logged l))) s.
Proof.
  intros l Hwf HP Hsz Hrep. unfold install_trans. apply wp_getS. cbv zeta.
  pose proof (logged_length _ _ Hwf) as Hlen.
  pose proof (lw_area _ _ Hwf). pose proof (lw_n _ _ Hwf).
  fold l. rewrite (lw_dev _ _ Hwf).
  apply (wp_mfor (λ t s', ls_log s' = l ∧
    rep (ls_bio s') (dwrites V (install_ws (lg_start l) V (take t (logged l))))
      (P ∖ list_to_set (take t (logged l))) ∅ ∧
    ran (ls_bio s) (ls_bio s') (install_ws (lg_start l) V (take t (logged l))))).
  - simpl. rewrite difference_empty_L. split_and!; [done|done|]. by apply ran_nil.
  - intros t s1 Ht (Hl1 & Hrep1 & Hran1).
    destruct (lookup_lt_is_Some_2 (logged l) t) as [b Hb]; [lia|].
    destruct (logged_lookup _ _ _ _ Hwf Hb) as [_ Hbl]. rewrite Hbl.
    assert (Hin : b ∈ logged l) by (eapply list_elem_of_lookup_2; eauto).
    destruct (lw_home _ _ Hwf b Hin) as [Hrb Hhb]. unfold in_log in Hhb.
    pose proof Hran1 as (_ & Hsz1 & _). rewrite !u32_small by lia.
    assert (Htk : length (take t (logged l)) = t) by (rewrite length_take; lia).
    assert (Hnt : b ∉ take t (logged l)).
    { pose proof (lw_nodup _ _ Hwf) as Hnd. rewrite <-(take_drop_middle _ _ _ Hb) in Hnd.
      apply NoDup_app in Hnd as (_ & Hnd & _). set_solver. }
    rewrite (take_S_r _ _ _ Hb), install_ws_snoc, dwrites_app, Htk. simpl.
    assert (HVb : dwrites V (install_ws (lg_start l) V (take t (logged l))) (lg_start l + Z.of_nat t + 1)
                  = V (lg_start l + Z.of_nat t + 1)).
    { apply dwrites_notin. rewrite install_ws_fst. intros Hk.
      assert (Hk' : lg_start l + Z.of_nat t + 1 ∈ logged l) 
        by (apply elem_of_take in Hk as (? & ? & _); by eapply list_elem_of_lookup_2).
      apply (lw_home _ _ Hwf) in Hk'. unfold in_log in Hk'. lia. }
    eapply wp_mono; [eapply install_step; [exact Hrep1|..]|].
    + lia.
    + eapply Nat.le_lt_trans; [|exact Hsz]. apply subseteq_size. set_solver.
    + destruct HP as [->| ->]; [left; set_solver|right].
      apply elem_of_difference. rewrite !elem_of_list_to_set. done.
    + by rewrite Hsz1.
    + rewrite Hsz1. lia.
    + rewrite HVb. intros [] s2 (Hl2 & Hrep2 & Hran2).
      split_and!; [congruence| |by eapply ran_app].
      rewrite list_to_set_app_L. simpl. rewrite union_empty_r_L.
      by rewrite difference_difference_l_L in Hrep2.
  - intros s1. simpl. rewrite <-Hlen, firstn_all.
    replace (P ∖ list_to_set (logged l)) with (∅ : gset Z) by (destruct HP as [->| ->]; set_solver). done.
Qed.

Lemma held_nil : held ∅ = ∅.
Proof. unfold held. by rewrite fmap_empty, map_img_empty_L. Qed.

(** [write_head] writes the in-memory header over the log's first block. *)
Lemma write_head_spec s V P :
  let l := ls_log s in
  rep (ls_bio s) V P ∅ → (base.size P < NBUF)%nat → lg_dev l = ROOTDEV →
  0 ≤ lg_start l < disk_size (bc_disk (ls_bio s)) → disk_size (bc_disk (ls_bio s)) ≤ 2 ^ 31 → lg_start l ∉ P → hdr_fits (lh_n l) (lh_block l) →
  let h := hdr_put (lh_n l) (lh_block l) (V (lg_start l)) in
  wp write_head (λ _ s', ls_log s' = l ∧ rep (ls_bio s') (<[lg_start l := h]> V) P ∅ ∧
    ran (ls_bio s) (ls_bio s') [(lg_start l, h)]) s.
Proof.
  intros l Hrep Hsz Hdev Hr Hmax HP Hfit h. unfold write_head. apply wp_getS. fold l.
  rewrite Hdev, u32_small by lia.
  apply wp_liftB_bind. eapply wp_mono.
  { eapply bread_spec; [exact Hrep|done|by rewrite held_nil|right; by rewrite held_nil, union_empty_r_L]. }
  intros i s1 (_ & Hrep1 & Hd1 & Hp1). apply wp_getS. simpl. fold l.
  destruct (rep_held _ _ _ _ _ _ _ Hrep1 (lookup_insert_eq _ _ _)) as (_ & HlV & _).
  rewrite (buf_data_spec _ _ _ _ _ _ _ Hrep1 (lookup_insert_eq _ _ _)). fold h.
  apply wp_liftB_bind. simpl. eapply wp_mono.
  { eapply put_data_spec; [exact Hrep1|by rewrite lookup_insert_eq|by apply hdr_put_len]. }
  intros [] s2 (Hrep2 & Hd2 & Hp2). rewrite insert_insert_eq in Hrep2.
  apply wp_liftB_bind. simpl. eapply wp_mono; [eapply bwrite_spec; [exact Hrep2|by rewrite lookup_insert_eq]|].
  intros [] s3 (Hrep3 & Hblk & Hsz3 & Hw & Hp3). apply wp_liftB. simpl.
  rewrite difference_disjoint_L in Hrep3 by set_solver.
  eapply wp_mono; [eapply brelse_spec; [exact Hrep3|by rewrite lookup_insert_eq|by rewrite fn_lookup_insert]|].
  intros [] s4 (Hrep4 & Hd4 & Hp4). simpl. rewrite delete_insert_id in Hrep4 by done.
  split_and!; [done|done|].
  split_and!; rewrite ?Hd4, ?Hp4; [|congruence|by rewrite Hw, Hd2, Hd1|congruence].
  intros k. by rewrite Hblk, Hd2, Hd1.
Qed.

(** The blocks [read_head] finds in a header block. *)
Definition hdr_blocks (d : list byte) : list Z := hdr_block d <$> seq 0 (Z.to_nat (hdr_n d)).

Lemma read_head_loop l n f (Q : unit → logst D → Prop) (b : bio D) :
  (n ≤ length (lh_block l))%nat →
  (∀ bl, length bl = length (lh_block l) → take n bl = f <$> seq 0 n →
     Q tt (mkLogst b (set_lh (lh_n l) bl l))) →
  wp (mfor 0 n (λ i, upd_log (λ l, set_lh (lh_n l) (<[i := f i]> (lh_block l)) l))) Q (mkLogst b l).
Proof.
  intros Hn HQ.
  apply (wp_mfor (λ t s', ∃ bl, s' = mkLogst b (set_lh (lh_n l) bl l) ∧
    length bl = length (lh_block l) ∧ take t bl = f <$> seq 0 t)).
  - exists (lh_block l). split_and!; [|done|done]. by destruct l.
  - intros t s1 Ht (bl & -> & Hl & Htk). unfold upd_log, modify, wp. simpl.
    exists (<[t := f t]> bl). split_and!; [done|by rewrite length_insert|].
    change (take (S t) (<[t := f t]> bl) = f <$> seq 0 (S t)).
    rewrite (take_S_r _ t (f t)) by (apply list_lookup_insert_eq; lia).
    rewrite take_insert_ge by lia. rewrite Htk, seq_S, fmap_app. done.
  - intros s1 (bl & -> & Hl & Htk). by apply HQ.
Qed.

(** [read_head] loads the on-disk header into memory. *)
Lemma read_head_spec s V P :
  let l := ls_log s in let h := V (lg_start l) in
  rep (ls_bio s) V P ∅ → (base.size P < NBUF)%nat → lg_dev l = ROOTDEV →
  0 ≤ lg_start l < disk_size (bc_disk (ls_bio s)) → disk_size (bc_disk (ls_bio s)) ≤ 2 ^ 31 →
  length (lh_block l) = Z.to_nat LOGSIZE → 0 ≤ hdr_n h ≤ LOGSIZE →
  wp read_head (λ _ s', ∃ bl, ls_log s' = set_lh (hdr_n h) bl l ∧
    length bl = Z.to_nat LOGSIZE ∧ logged (ls_log s') = hdr_blocks h ∧
    rep (ls_bio s') V P ∅ ∧ ran (ls_bio s) (ls_bio s') []) s.
Proof.
  intros l h Hrep Hsz Hdev Hr Hmax Hlen Hn. unfold read_head. apply wp_getS. fold l.
  rewrite Hdev, u32_small by lia.
  apply wp_liftB_bind. eapply wp_mono.
  { eapply bread_spec; [exact Hrep|done|by rewrite held_nil|right; by rewrite held_nil, union_empty_r_L]. }
  intros i s1 (_ & Hrep1 & Hd1 & Hp1). apply wp_getS. simpl.
  rewrite (buf_data_spec _ _ _ _ _ _ _ Hrep1 (lookup_insert_eq _ _ _)). fold h.
  apply wp_modify. simpl. fold l. apply wp_bind. apply read_head_loop; simpl.
  { rewrite Hlen. lia. }
  intros bl Hbl Htk. apply wp_liftB. simpl.
  eapply wp_mono; [eapply brelse_spec; [exact Hrep1|by rewrite lookup_insert_eq|done]|].
  intros [] s4 (Hrep4 & Hd4 & Hp4). simpl. rewrite delete_insert_id in Hrep4 by done.
  exists bl. split_and!; [done|congruence|done|done|]. apply ran_nil; congruence.
Qed.
End specs.
