(* ===== verification/LogCrash.v ===== *)
(** * Crash safety of the log (src/log.c)

    The writes that [commit] and recovery issue, in order, and what a reboot
    after any prefix of them recovers.  A crash keeps a prefix of the block
    writes the driver completed; the reboot starts from the zeroed in-memory
    log, a cache fresh from [binit] and runs [initlog]. *)

From S2P Require Import Prelude Dll Sleeplock Bio Memide FsLayout Log.

(** The kernel state at boot, before [initlog]. *)
Definition boot {D} (d : D) (pid : Z) : logst D := mkLogst (bcache_boot d pid) log_zero.

(** The writes of [commit] for the logical contents [V]. *)
Definition home_ws (V : Z → list byte) (bl : list Z) : list (Z * list byte) := (λ b, (b, V b)) <$> bl.

Definition commit_hdr (l : log) (V : Z → list byte) : list byte :=
  hdr_put (lh_n l) (lh_block l) (V (lg_start l)).

Definition commit_ws (l : log) (V : Z → list byte) : list (Z * list byte) :=
  log_ws (lg_start l) V (logged l) ++ [(lg_start l, commit_hdr l V)] ++
  home_ws V (logged l) ++ [(lg_start l, hdr_put 0 (lh_block l) (commit_hdr l V))].

(** [log_disk start nlog size f W]: the disk contents [f] hold a log at
    [start .. start + nlog) whose recovery yields [W] outside that area. *)
Record log_disk (start nlog size : Z) (f W : Z → list byte) : Prop := {
  ld_area : 0 ≤ start ∧ 1 ≤ nlog ∧ start + nlog ≤ size ≤ 2 ^ 31;
  ld_sb : 1 < size ∧ ¬ (start ≤ 1 < start + nlog) ∧ 1 ∉ hdr_blocks (f start);
  ld_geo : s32 (sb_logstart (sb_decode (W 1))) = start ∧ s32 (sb_nlog (sb_decode (W 1))) = nlog;
  ld_n : 0 ≤ hdr_n (f start) ∧ hdr_n (f start) ≤ nlog - 1 ∧ hdr_n (f start) ≤ LOGSIZE;
  ld_len : length (f start) = BSIZE;
  ld_nodup : NoDup (hdr_blocks (f start));
  ld_blocks : ∀ b, b ∈ hdr_blocks (f start) → 0 ≤ b < size ∧ ¬ (start ≤ b < start + nlog);
  ld_rec : ∀ t b, hdr_blocks (f start) !! t = Some b → f (start + Z.of_nat t + 1) = W b;
  ld_home : ∀ k, ¬ (start ≤ k < start + nlog) → k ∉ hdr_blocks (f start) → f k = W k;
}.

Section pure.
Implicit Types (f W V : Z → list byte) (bl : list Z).

Lemma log_disk_ext start nlog size f g W :
  (∀ k, f k = g k) → log_disk start nlog size f W → log_disk start nlog size g W.
Proof.
  intros Hfg []. split; rewrite <-?Hfg; try done.
  - intros t b. rewrite <-!Hfg. auto.
  - intros k. rewrite <-!Hfg. auto.
Qed.

Lemma hdr_blocks_nil d : hdr_n d = 0 → hdr_blocks d = [].
Proof. intros E. unfold hdr_blocks. by rewrite E. Qed.

Lemma hdr_blocks_put n bl d :
  hdr_fits n bl → length d = BSIZE → (∀ b, b ∈ take (Z.to_nat n) bl → 0 ≤ b < 2 ^ 31) →
  hdr_blocks (hdr_put n bl d) = take (Z.to_nat n) bl.
Proof.
  intros Hfit Hd Hb. unfold hdr_blocks. rewrite hdr_n_put by done.
  assert (Hlen : length (take (Z.to_nat n) bl) = Z.to_nat n)
    by (destruct Hfit; rewrite length_take; lia).
  apply list_eq_same_length with (Z.to_nat n); [done|by rewrite length_fmap, length_seq|].
  intros i x y Hi Hx Hy. rewrite list_lookup_fmap in Hx. rewrite lookup_seq_lt in Hx by done.
  simpl in Hx. injection Hx as <-. apply hdr_block_put; try done.
  apply Hb. by eapply list_elem_of_lookup_2.
Qed.

Lemma hdr_put_zero bl d : hdr_put 0 bl d = st 4 0 0 d.
Proof. unfold hdr_put. by rewrite take_0. Qed.

Lemma length_home_ws V bl : length (home_ws V bl) = length bl.
Proof. apply length_fmap. Qed.

Lemma home_ws_fst V bl : (home_ws V bl).*1 = bl.
Proof. unfold home_ws. rewrite <-list_fmap_compose. apply list_fmap_id. Qed.

Lemma take_home_ws V bl n : take n (home_ws V bl) = home_ws V (take n bl).
Proof. unfold home_ws. by rewrite fmap_take. Qed.

(** After writing home blocks only, listed blocks hold [V], others are as before. *)
Lemma dwrites_home f V bl k :
  dwrites f (home_ws V bl) k = if decide (k ∈ bl) then V k else f k.
Proof.
  revert f. induction bl as [|b bl IH]; intros f; [done|].
  change (dwrites (dwrite f (b, V b)) (home_ws V bl) k = if decide (k ∈ b :: bl) then V k else f k).
  rewrite IH. unfold dwrite. simpl. destruct (decide (k ∈ bl)), (decide (k ∈ b :: bl)); try set_solver.
  - assert (k = b) as -> by set_solver. apply fn_lookup_insert.
  - apply fn_lookup_insert_ne. set_solver.
Qed.

Lemma log_ws_nodup start V bl : NoDup (log_ws start V bl).*1.
Proof.
  induction bl as [|b bl IH] using rev_ind; [constructor|].
  rewrite log_ws_snoc, fmap_app. apply NoDup_app. split_and!; [done| |by apply NoDup_singleton].
  intros k Hk%log_ws_fst. simpl. rewrite list_elem_of_singleton. lia.
Qed.

Lemma log_ws_read f start V bl t b :
  bl !! t = Some b → dwrites f (log_ws start V bl) (start + Z.of_nat t + 1) = V b.
Proof.
  intros Ht. apply dwrites_lookup; [apply log_ws_nodup|].
  apply list_elem_of_lookup. exists t. unfold log_ws. by rewrite list_lookup_imap, Ht.
Qed.

Lemma length_log_ws start V bl : length (log_ws start V bl) = length bl.
Proof. apply length_imap. Qed.

(** Writing home blocks with the contents recovery gives them changes nothing. *)
Lemma log_disk_home start nlog size f W bl :
  log_disk start nlog size f W → (∀ b, b ∈ bl → b ∈ hdr_blocks (f start)) →
  log_disk start nlog size (dwrites f (home_ws W bl)) W.
Proof.
  intros Hd Hbl. pose proof Hd as [Ha ? ? ? ? ? Hb Hr Hh].
  assert (Hs : dwrites f (home_ws W bl) start = f start).
  { apply dwrites_notin. rewrite home_ws_fst. intros Hin%Hbl%Hb. lia. }
  split; rewrite ?Hs; try done.
  - intros t b Ht. rewrite dwrites_notin; [by apply Hr|]. rewrite home_ws_fst. intros Hin%Hbl%Hb.
    apply lookup_lt_Some in Ht. unfold hdr_blocks in Ht. rewrite length_fmap, length_seq in Ht. lia.
  - intros k Hk Hnk. rewrite dwrites_home. case_decide; [done|]. by apply Hh.
Qed.

(** Clearing the header after all home blocks are written. *)
Lemma log_disk_clear start nlog size f W :
  log_disk start nlog size f W → (∀ k, ¬ (start ≤ k < start + nlog) → f k = W k) →
  log_disk start nlog size (<[start := st 4 0 0 (f start)]> f) W.
Proof.
  intros [Ha Hsb ? ? Hl ? Hb Hr Hh] Hf.
  assert (Hn : hdr_n (st 4 0 0 (f start)) = 0).
  { unfold hdr_n. rewrite ld_st_eq; [reflexivity|]. rewrite Hl. unfold BSIZE. lia. }
  split; rewrite ?fn_lookup_insert, ?(hdr_blocks_nil _ Hn), ?Hn; try (done || lia).
  - split_and!; [lia|lia|set_solver].
  - rewrite length_st; [done|]. rewrite Hl. unfold BSIZE. lia.
  - constructor.
  - set_solver.
  - intros k Hk _. rewrite fn_lookup_insert_ne by lia. by apply Hf.
Qed.
End pure.

Section specs.
Context {D : Type} {drv : DiskDriver D} {dl : DiskLaws D}.
Implicit Types (V : Z → list byte) (P : gset Z) (l : log).

Lemma readsb_spec (s : bio D) V P :
  rep s V P ∅ → (base.size P < NBUF)%nat → 1 < disk_size (bc_disk s) →
  wp (readsb ROOTDEV) (λ sb s', sb = sb_decode (V 1) ∧ rep s' V P ∅ ∧ ran s s' []) s.
Proof.
  intros Hrep Hsz Hr. unfold readsb. apply wp_bind. eapply wp_mono.
  { eapply bread_spec; [exact Hrep|lia|by rewrite held_nil|right; by rewrite held_nil, union_empty_r_L]. }
  intros i s1 (_ & Hrep1 & Hd1 & Hp1). apply wp_getS. cbv zeta.
  rewrite (buf_data_spec _ _ _ _ _ _ _ Hrep1 (lookup_insert_eq _ _ _)).
  apply wp_bind. eapply wp_mono; [eapply brelse_spec; [exact Hrep1|by rewrite lookup_insert_eq|done]|].
  intros [] s2 (Hrep2 & Hd2 & Hp2). rewrite delete_insert_id in Hrep2 by done.
  apply wp_ret. split_and!; [done|done|]. apply ran_nil; congruence.
Qed.

(** What [install_trans] writes when the log holds the contents [W]. *)
Lemma install_ws_home start f W bl :
  (∀ t b, bl !! t = Some b → f (start + Z.of_nat t + 1) = W b) → install_ws start f bl = home_ws W bl.
Proof.
  intros Hr. apply list_eq. intros t. unfold install_ws, home_ws.
  rewrite list_lookup_imap, list_lookup_fmap. destruct (bl !! t) eqn:E; simpl; [|done].
  by rewrite (Hr _ _ E).
Qed.

(** The writes of recovery on disk contents [f] with logical contents [W]. *)
Definition recover_ws (start : Z) (f W : Z → list byte) : list (Z * list byte) :=
  home_ws W (hdr_blocks (f start)) ++ [(start, st 4 0 0 (f start))].

Lemma initlog_spec (d : D) pid start nlog W :
  log_disk start nlog (disk_size d) (disk_block d) W →
  wp (initlog ROOTDEV) (λ _ s',
    rep (ls_bio s') (dwrites (disk_block d) (recover_ws start (disk_block d) W)) ∅ ∅ ∧
    ran (bcache_boot d pid) (ls_bio s') (recover_ws start (disk_block d) W) ∧
    ls_log s' = mkLog start nlog 0 0 ROOTDEV 0 (lh_block (ls_log s')) ∧
    log_wf (disk_size d) (ls_log s')) (boot d pid).
Proof.
  intros Hd. pose proof (rep_boot d pid) as Hrep. set (f := disk_block d) in *.
  destruct (ld_area _ _ _ _ _ Hd) as (A1 & A2 & A3). destruct (ld_sb _ _ _ _ _ Hd) as (S1 & S2 & S3).
  destruct (ld_geo _ _ _ _ _ Hd) as (G1 & G2). destruct (ld_n _ _ _ _ _ Hd) as (N1 & N2 & N3).
  unfold initlog. change (Z.of_nat BSIZE <=? 4 * (1 + LOGSIZE)) with false. cbv iota.
  apply wp_liftB_bind. eapply wp_mono; [eapply (readsb_spec (bcache_boot d pid)); [exact Hrep| |]|].
  { rewrite size_empty. apply Nat.ltb_lt. by vm_compute. }
  { done. }
  intros sb s1 (-> & Hrep1 & Hran1). pose proof Hran1 as (_ & Hsz1 & _).
  unfold upd_log. apply wp_modify. cbn [ls_log ls_bio boot].
  rewrite (ld_home _ _ _ _ _ Hd 1 S2 S3), G1, G2.
  unfold recover_from_log. apply wp_bind. eapply wp_mono.
  { eapply read_head_spec; cbn [ls_log ls_bio lg_dev lg_start lh_block]; [exact Hrep1| |done| | |done|];
      rewrite ?Hsz1; [|cbn [bc_disk bcache_boot]; lia..].
    rewrite size_empty. apply Nat.ltb_lt. by vm_compute. }
  intros [] s2 (bl & Hl2 & Hbl & Hlog & Hrep2 & Hran2). cbn [ls_log ls_bio lg_start] in *.
  pose proof Hran2 as (_ & Hsz2 & _).
  assert (Hwf : log_wf (disk_size (bc_disk (ls_bio s2))) (ls_log s2)).
  { rewrite Hsz2, Hsz1. rewrite Hl2 in *. split; simpl in *; rewrite ?Hlog; try done; try lia.
    - apply Hd. - intros b Hb%(ld_blocks _ _ _ _ _ Hd). unfold in_log. simpl. done. }
  assert (HW : install_ws start f (hdr_blocks (f start)) = home_ws W (hdr_blocks (f start))).
  { apply install_ws_home. apply Hd. }
  apply wp_bind. eapply wp_mono.
  { eapply install_trans_spec; [exact Hwf|by left| |exact Hrep2].
    rewrite size_empty. apply Nat.ltb_lt. by vm_compute. }
  intros [] s3 (Hl3 & Hrep3 & Hran3). rewrite Hl2 in Hl3. simpl in Hl3.
  assert (Hst : lg_start (ls_log s2) = start) by (by rewrite Hl2).
  rewrite Hst, Hlog in Hrep3, Hran3. fold f in Hrep3, Hran3. rewrite HW in Hrep3, Hran3. pose proof Hran3 as (_ & Hsz3 & _).
  apply wp_modify. eapply wp_mono.
  { eapply write_head_spec; cbn [ls_log ls_bio]; rewrite ?Hl3; cbn [set_lh lg_dev lg_start lh_n lh_block];
      [exact Hrep3| |done| | |set_solver|]; rewrite ?Hsz3, ?Hsz2, ?Hsz1; [|cbn [bc_disk bcache_boot]; lia..|].
    - rewrite size_empty. apply Nat.ltb_lt. by vm_compute.
    - split; [unfold LOGSIZE, MAXOPBLOCKS; lia|done]. }
  intros [] s4 (Hl4 & Hrep4 & Hran4). cbn [ls_log ls_bio] in *. rewrite Hl3 in Hl4, Hrep4, Hran4.
  cbn [set_lh lg_start lh_n lh_block] in Hl4, Hrep4, Hran4. rewrite hdr_put_zero in Hrep4, Hran4.
  rewrite dwrites_notin in Hrep4, Hran4 by (rewrite home_ws_fst; intros Hin%(ld_blocks _ _ _ _ _ Hd); lia).
  split_and!.
  - unfold recover_ws. rewrite dwrites_app. exact Hrep4.
  - unfold recover_ws. eapply ran_app; [|exact Hran4].
    apply (ran_app _ s1 _ [] _ Hran1). by apply (ran_app _ (ls_bio s2) _ [] _ Hran2).
  - by rewrite Hl4.
  - rewrite Hl4. split; cbn; try done; try lia; try set_solver.
    constructor.
Qed.

(** [commit] of a non-empty transaction: what is on disk and in the cache after. *)
Lemma commit_spec (s : logst D) V :
  let l := ls_log s in
  log_wf (disk_size (bc_disk (ls_bio s))) l → 0 < lh_n l < Z.of_nat NBUF →
  rep (ls_bio s) V (list_to_set (logged l)) ∅ →
  wp commit (λ _ s', ls_log s' = set_lh 0 (lh_block l) l ∧
    rep (ls_bio s') (dwrites V (commit_ws l V)) ∅ ∅ ∧
    ran (ls_bio s) (ls_bio s') (commit_ws l V)) s.
Proof.
  intros l Hwf Hn Hrep. pose proof (lw_area _ _ Hwf) as Har. pose proof (lw_n _ _ Hwf) as Hln.
  assert (Hsz : (base.size (list_to_set (logged l) : gset Z) < NBUF)%nat)
    by (rewrite (logged_size _ _ Hwf); lia).
  assert (Hst : lg_start l ∉ (list_to_set (logged l) : gset Z)).
  { rewrite elem_of_list_to_set. intros Hin%(lw_home _ _ Hwf). unfold in_log in Hin. lia. }
  assert (Hfit : hdr_fits (lh_n l) (lh_block l)) by (split; [lia|apply Hwf]).
  unfold commit. apply wp_getS. fold l. rewrite (proj2 (Z.ltb_lt _ _)) by lia.
  apply wp_bind. eapply wp_mono; [apply (write_log_spec s V); [done|fold l; lia|done]|].
  intros [] s1 (Hl1 & Hrep1 & Hran1). fold l in Hrep1, Hran1. pose proof Hran1 as (_ & Hsz1 & _).
  set (V1 := dwrites V (log_ws (lg_start l) V (logged l))) in *.
  assert (HV1 : V1 (lg_start l) = V (lg_start l)).
  { apply dwrites_notin. intros Hk%log_ws_fst. lia. }
  apply wp_bind. eapply wp_mono.
  { eapply (write_head_spec s1); rewrite ?Hl1, ?Hsz1; fold l; [exact Hrep1|done|apply Hwf|lia|lia|done|done]. }
  intros [] s2 (Hl2 & Hrep2 & Hran2). rewrite Hl1 in Hl2, Hrep2, Hran2. fold l in Hl2, Hrep2, Hran2.
  rewrite HV1 in Hrep2, Hran2. fold (commit_hdr l V) in Hrep2, Hran2. pose proof Hran2 as (_ & Hsz2 & _).
  set (V2 := <[lg_start l := commit_hdr l V]> V1) in *.
  assert (HV2 : install_ws (lg_start l) V2 (logged l) = home_ws V (logged l)).
  { apply install_ws_home. intros t b Ht. unfold V2. rewrite fn_lookup_insert_ne by lia. by apply log_ws_read. }
  apply wp_bind. eapply wp_mono.
  { apply (install_trans_spec s2 V2 (list_to_set (logged l))); rewrite ?Hl2, ?Hsz2, ?Hsz1; [done|by right|done|done]. }
  intros [] s3 (Hl3 & Hrep3 & Hran3). rewrite Hl2 in Hl3, Hrep3, Hran3. fold l in Hl3.
  rewrite HV2 in Hrep3, Hran3. pose proof Hran3 as (_ & Hsz3 & _).
  assert (HV3 : dwrites V2 (home_ws V (logged l)) (lg_start l) = commit_hdr l V).
  { rewrite dwrites_notin; [apply fn_lookup_insert|]. rewrite home_ws_fst.
    intros Hin. apply Hst. by apply elem_of_list_to_set. }
  unfold upd_log. apply wp_modify. eapply wp_mono.
  { eapply write_head_spec; cbn [ls_log ls_bio]; rewrite ?Hl3, ?Hsz3, ?Hsz2, ?Hsz1;
      cbn [set_lh lg_dev lg_start lh_n lh_block]; [exact Hrep3| |apply Hwf|lia|lia|set_solver|].
    - rewrite size_empty. apply Nat.ltb_lt. by vm_compute.
    - split; [unfold LOGSIZE, MAXOPBLOCKS; lia|apply Hwf]. }
  intros [] s4 (Hl4 & Hrep4 & Hran4). cbn [ls_log ls_bio] in Hl4, Hrep4, Hran4.
  rewrite Hl3 in Hl4, Hrep4, Hran4. cbn [set_lh lg_start lh_n lh_block] in Hrep4, Hran4.
  rewrite HV3 in Hrep4, Hran4. split_and!; [done| |].
  - unfold commit_ws. rewrite !dwrites_app. exact Hrep4.
  - unfold commit_ws. repeat (eapply ran_app; [eassumption|]). eassumption.
Qed.
End specs.

(** ** Crashes *)

Section crash.
Context {D : Type} {drv : DiskDriver D} {dl : DiskLaws D}.
Implicit Types (V f W : Z → list byte).

(** The state of a disk just before [commit] of log [l] with logical contents [V]. *)
Lemma log_disk_before l V f start nlog size :
  log_wf size l → start = lg_start l → nlog = lg_size l →
  1 < size → ¬ in_log l 1 → s32 (sb_logstart (sb_decode (f 1))) = lg_start l →
  s32 (sb_nlog (sb_decode (f 1))) = lg_size l → length (f start) = BSIZE → hdr_n (f start) = 0 →
  log_disk start nlog size f f.
Proof.
  intros Hwf -> -> H1 H1' Hs Hn Hlen Hh. pose proof (lw_area _ _ Hwf). pose proof (lw_n _ _ Hwf).
  split; rewrite ?(hdr_blocks_nil _ Hh), ?Hh; try done; try lia.
  - split_and!; [done|done|set_solver].
  - constructor.
  - set_solver.
Qed.

Lemma log_disk_log_ws start nlog size f W V bl :
  log_disk start nlog size f W → hdr_n (f start) = 0 → Z.of_nat (length bl) ≤ nlog - 1 →
  log_disk start nlog size (dwrites f (log_ws start V bl)) W.
Proof.
  intros [? ? ? ? ? ? ? ? Hh] Hn Hbl.
  assert (Hs : dwrites f (log_ws start V bl) start = f start).
  { apply dwrites_notin. intros Hk%log_ws_fst. lia. }
  split; rewrite ?Hs; try done.
  - intros t b. by rewrite (hdr_blocks_nil _ Hn).
  - intros k Hk Hb. rewrite dwrites_notin; [by apply Hh|]. intros Hk'%log_ws_fst. lia.
Qed.

(** Just after the commit point: the header lists the logged blocks. *)
Lemma log_disk_committed l V f size :
  log_wf size l → log_disk (lg_start l) (lg_size l) size f f → 1 ∉ logged l →
  (∀ k, k ∉ logged l → V k = f k) →
  log_disk (lg_start l) (lg_size l) size
    (<[lg_start l := commit_hdr l V]> (dwrites f (log_ws (lg_start l) V (logged l)))) V.
Proof.
  intros Hwf Hd H1 HV. pose proof Hd as [Ha Hsb Hg ? Hl ? ? ? ?]. pose proof (lw_n _ _ Hwf) as Hn.
  assert (Hfit : hdr_fits (lh_n l) (lh_block l)) by (split; [lia|apply Hwf]).
  assert (Hst : V (lg_start l) = f (lg_start l)).
  { apply HV. intros Hin%(lw_home _ _ Hwf). unfold in_log in Hin. lia. }
  assert (Hlen : length (V (lg_start l)) = BSIZE) by (by rewrite Hst).
  assert (Hhn : hdr_n (commit_hdr l V) = lh_n l) by (by apply hdr_n_put).
  assert (Hbs : hdr_blocks (commit_hdr l V) = logged l).
  { apply hdr_blocks_put; [done|done|]. intros b Hb%(lw_home _ _ Hwf). lia. }
  split; rewrite ?fn_lookup_insert, ?Hhn, ?Hbs; try done.
  - split_and!; [apply Hsb|apply Hsb|done].
  - by rewrite HV.
  - by apply hdr_put_len.
  - apply Hwf.
  - intros b Hb. apply (lw_home _ _ Hwf _ Hb).
  - intros t b Ht. rewrite fn_lookup_insert_ne by lia. by apply log_ws_read.
  - intros k Hk Hb. rewrite fn_lookup_insert_ne by lia. rewrite HV by done. apply dwrites_notin.
    intros Hk'%log_ws_fst. pose proof (logged_length _ _ Hwf). lia.
Qed.

Lemma take_log_ws start V bl n : take n (log_ws start V bl) = log_ws start V (take n bl).
Proof.
  revert n. induction bl as [|b bl IH] using rev_ind; intros n; [by destruct n|].
  rewrite log_ws_snoc. destruct (decide (n ≤ length bl)%nat).
  - rewrite !take_app_le by (rewrite ?length_log_ws; done). apply IH.
  - rewrite !take_ge; [by rewrite log_ws_snoc|..];
      rewrite ?length_app, ?length_log_ws; simpl; lia.
Qed.

(** The disk invariant holds after every prefix of the writes of [commit]; the
    recoverable contents switch from old to new at the header write. *)
Lemma commit_prefix l V f size n :
  log_wf size l → log_disk (lg_start l) (lg_size l) size f f → hdr_n (f (lg_start l)) = 0 →
  1 ∉ logged l → (∀ k, k ∉ logged l → V k = f k) → (n ≤ length (commit_ws l V))%nat →
  log_disk (lg_start l) (lg_size l) size (dwrites f (take n (commit_ws l V)))
    (if decide (n ≤ length (logged l))%nat then f else V).
Proof.
  intros Hwf Hd H0 H1 HV Hn. pose proof (lw_n _ _ Hwf) as Hln. pose proof (logged_length _ _ Hwf) as Hlen.
  unfold commit_ws in *. set (L := length (logged l)) in *.
  rewrite !length_app, length_log_ws, length_home_ws in Hn. simpl in Hn. fold L in Hn.
  assert (HLw : length (log_ws (lg_start l) V (logged l)) = L) by apply length_log_ws.
  case_decide as Hc.
  { rewrite take_app_le by lia. rewrite take_log_ws. apply log_disk_log_ws; [done|done|].
    rewrite length_take. lia. }
  rewrite take_app_ge, dwrites_app, HLw by lia. rewrite take_app_ge by (simpl; lia).
  simpl length. rewrite dwrites_app.
  set (f2 := <[lg_start l := commit_hdr l V]> (dwrites f (log_ws (lg_start l) V (logged l)))). pose proof (log_disk_committed l V f size Hwf Hd H1 HV) as Hd2. fold f2 in Hd2.
  assert (Hf2 : f2 (lg_start l) = commit_hdr l V) by apply fn_lookup_insert.
  assert (Hbs : hdr_blocks (commit_hdr l V) = logged l).
  { destruct Hd as [? ? ? ? Hl2 ? ? ? ?]. apply hdr_blocks_put.
    - split; [lia|apply Hwf].
    - rewrite HV; [done|]. intros Hin%(lw_home _ _ Hwf). unfold in_log in Hin. lia.
    - intros b Hb%(lw_home _ _ Hwf). pose proof (lw_area _ _ Hwf). lia. }
  change (log_disk (lg_start l) (lg_size l) size
    (dwrites f2 (take (n - L - 1) (home_ws V (logged l) ++ [(lg_start l, hdr_put 0 (lh_block l) (commit_hdr l V))]))) V).
  destruct (decide (n - L - 1 ≤ L)%nat) as [Hm|Hm].
  { rewrite take_app_le by (by rewrite length_home_ws). rewrite take_home_ws. apply log_disk_home; [done|].
    rewrite Hf2, Hbs. intros b Hb. by eapply subseteq_take. }
  rewrite take_ge by (rewrite length_app, length_home_ws; simpl; lia). rewrite dwrites_app.
  cbn [dwrites foldl dwrite fst snd]. fold (dwrites f2 (home_ws V (logged l))). rewrite hdr_put_zero.
  assert (Hd3 : log_disk (lg_start l) (lg_size l) size (dwrites f2 (home_ws V (logged l))) V).
  { apply log_disk_home; [done|]. by rewrite Hf2, Hbs. }
  assert (Hs3 : dwrites f2 (home_ws V (logged l)) (lg_start l) = commit_hdr l V).
  { rewrite dwrites_notin; [done|]. rewrite home_ws_fst. intros Hin%(lw_home _ _ Hwf).
    unfold in_log in Hin. lia. }
  rewrite <-Hs3. apply log_disk_clear; [done|]. intros k Hk. rewrite dwrites_home. case_decide; [done|].
  apply (ld_home _ _ _ _ _ Hd2); [done|]. by rewrite Hf2, Hbs.
Qed.

(** The disk invariant holds after every prefix of the writes of recovery. *)
Lemma recover_prefix f W start nlog size n :
  log_disk start nlog size f W →
  log_disk start nlog size (dwrites f (take n (recover_ws start f W))) W.
Proof.
  intros Hd. unfold recover_ws. set (bl := hdr_blocks (f start)).
  destruct (decide (n ≤ length bl)%nat).
  { rewrite take_app_le by (by rewrite length_home_ws). rewrite take_home_ws. apply log_disk_home; [done|].
    intros b Hb. by eapply subseteq_take. }
  rewrite take_ge by (rewrite length_app, length_home_ws; simpl; lia). rewrite dwrites_app.
  cbn [dwrites foldl dwrite fst snd]. fold (dwrites f (home_ws W bl)).
  assert (Hs : dwrites f (home_ws W bl) start = f start).
  { apply dwrites_notin. rewrite home_ws_fst. intros Hin%(ld_blocks _ _ _ _ _ Hd).
    destruct (ld_area _ _ _ _ _ Hd). lia. }
  rewrite <-Hs. apply log_disk_clear; [by apply log_disk_home|].
  intros k Hk. rewrite dwrites_home. case_decide; [done|]. by apply Hd.
Qed.

Lemma recover_home f W start nlog size k :
  log_disk start nlog size f W → ¬ (start ≤ k < start + nlog) →
  dwrites f (recover_ws start f W) k = W k.
Proof.
  intros Hd Hk. pose proof (ld_area _ _ _ _ _ Hd). unfold recover_ws. rewrite dwrites_app. simpl. unfold dwrite. simpl.
  rewrite fn_lookup_insert_ne by lia. rewrite dwrites_home. case_decide; [done|]. by apply Hd.
Qed.

(** A transaction about to commit: the log in memory is well formed, the blocks
    it lists are the pinned ones, the header on disk is empty and the super
    block describes this log. *)
Record txn (s : logst D) V : Prop := {
  tx_wf : log_wf (disk_size (bc_disk (ls_bio s))) (ls_log s);
  tx_n : 0 < lh_n (ls_log s) < Z.of_nat NBUF;
  tx_rep : rep (ls_bio s) V (list_to_set (logged (ls_log s))) ∅;
  tx_sb : 1 < disk_size (bc_disk (ls_bio s)) ∧ ¬ in_log (ls_log s) 1 ∧ 1 ∉ logged (ls_log s);
  tx_start : s32 (sb_logstart (sb_decode (disk_block (bc_disk (ls_bio s)) 1))) = lg_start (ls_log s);
  tx_size : s32 (sb_nlog (sb_decode (disk_block (bc_disk (ls_bio s)) 1))) = lg_size (ls_log s);
  tx_clean : hdr_n (disk_block (bc_disk (ls_bio s)) (lg_start (ls_log s))) = 0;
}.

(** The disk [d] of a machine that stopped after the first [n] of the block
    writes [ws] that were issued starting from the disk [d0]. *)
Definition crashed (d0 d : D) (ws : list (Z * list byte)) (n : nat) : Prop :=
  (n ≤ length ws)%nat ∧ disk_size d = disk_size d0 ∧
  ∀ k, disk_block d k = dwrites (disk_block d0) (take n ws) k.

(** The state after [initlog]: an empty log and the contents [W] outside it. *)
Definition recovered (l : log) W (s : logst D) : Prop :=
  lh_n (ls_log s) = 0 ∧ lg_start (ls_log s) = lg_start l ∧ lg_size (ls_log s) = lg_size l ∧
  ∃ V, rep (ls_bio s) V ∅ ∅ ∧ hdr_n (disk_block (bc_disk (ls_bio s)) (lg_start l)) = 0 ∧
       ∀ k, ¬ in_log l k → V k = W k.

Lemma initlog_recovers (d : D) pid l W :
  log_disk (lg_start l) (lg_size l) (disk_size d) (disk_block d) W →
  wp (initlog ROOTDEV) (λ _ s', recovered l W s' ∧
    ran (bcache_boot d pid) (ls_bio s') (recover_ws (lg_start l) (disk_block d) W)) (boot d pid).
Proof.
  intros Hd. eapply wp_mono; [by apply initlog_spec|]. intros [] s' (Hrep & Hran & Hl & Hwf).
  split; [|done]. unfold recovered. rewrite Hl. split_and!; [done..|]. eexists. split_and!; [exact Hrep| |].
  - destruct Hran as (Hb & _). rewrite Hb. unfold recover_ws. rewrite dwrites_app. simpl. unfold dwrite. simpl.
    rewrite fn_lookup_insert. unfold hdr_n. rewrite ld_st_eq; [reflexivity|].
    cbn [bc_disk bcache_boot]. rewrite (ld_len _ _ _ _ _ Hd). unfold BSIZE. lia.
  - intros k Hk. eapply recover_home; [exact Hd|]. exact Hk.
Qed.

(** C1. Atomic commit: if the machine stops after any number n of the block writes that commit
    issues and then reboots, initlog recovers exactly the blocks as they were before the
    transaction when the header write had not happened yet (n at most the number of logged
    blocks), and exactly the blocks of the transaction once it had; in both cases the recovered
    log is empty. *)
Theorem commit_crash_safe (s : logst D) V pid :
  txn s V →
  wp commit (λ _ s', ∃ ws,
    disk_writes (bc_disk (ls_bio s')) = reverse ws ++ disk_writes (bc_disk (ls_bio s)) ∧
    ∀ n d, crashed (bc_disk (ls_bio s)) d ws n →
      wp (initlog ROOTDEV) (λ _ s'',
        recovered (ls_log s) (if decide (n ≤ length (logged (ls_log s)))%nat
                              then disk_block (bc_disk (ls_bio s)) else V) s'') (boot d pid)) s.
Proof.
  intros [Hwf Hn Hrep (Hs1 & Hs2 & Hs3) Hst Hsz Hcl].
  eapply wp_mono; [by apply (commit_spec s V)|]. intros [] s' (Hl & Hrep' & Hran).
  destruct Hran as (_ & _ & Hw & _). eexists. split; [exact Hw|].
  intros n d (Hle & Hds & Hdb). eapply wp_mono; [apply initlog_recovers with (l := ls_log s)|by intros ? ? [? _]].
  rewrite Hds. eapply log_disk_ext; [intros k; symmetry; apply Hdb|].
  pose proof (lw_area _ _ Hwf). pose proof (lw_n _ _ Hwf).
  apply commit_prefix; try done.
  - eapply log_disk_before; try done. apply disk_block_len. lia.
  - intros k Hk. destruct Hrep as (_ & _ & HV). apply HV. by rewrite elem_of_list_to_set.
Qed.

(** C2. Recovery is idempotent under crashes: on any disk whose log recovers to the contents W,
    initlog succeeds with contents W and an empty log, and stopping it after any prefix of its
    writes and rebooting recovers W again. *)
Theorem recover_crash_safe (d : D) pid pid' l W :
  log_disk (lg_start l) (lg_size l) (disk_size d) (disk_block d) W →
  wp (initlog ROOTDEV) (λ _ s', recovered l W s' ∧ ∃ ws,
    disk_writes (bc_disk (ls_bio s')) = reverse ws ++ disk_writes d ∧
    ∀ n d', crashed d d' ws n →
      wp (initlog ROOTDEV) (λ _ s'', recovered l W s'') (boot d' pid')) (boot d pid).
Proof.
  intros Hd. eapply wp_mono; [by apply initlog_recovers|]. intros [] s' (Hrec & _ & _ & Hw & _).
  split; [done|]. eexists. split; [exact Hw|]. intros n d' (_ & Hds & Hdb).
  eapply wp_mono; [apply initlog_recovers|by intros ? ? [? _]].
  rewrite Hds. eapply log_disk_ext; [intros k; symmetry; apply Hdb|]. by apply recover_prefix.
Qed.
End crash.
