(* ===== verification/LogProtocol.v ===== *)
(** * The reservation protocol of the log (src/log.c)

    Concurrent file-system operations bracketed by [begin_op] and [end_op], each
    calling [log_write] in between, as a transition system over the locked
    sections of those functions.  Every interleaving is a sequence of steps. *)

From S2P Require Import Prelude Dll Sleeplock Bio Memide FsLayout Log.

(** The log in memory, and for every outstanding operation the distinct blocks
    it has passed to [log_write]. *)
Record proto : Type := mkProto { pr_log : log; pr_ops : list (gset Z) }.

Section protocol.
(** Bound on the distinct blocks that one operation writes. *)
Variable budget : nat.

Inductive pstep : proto → proto → Prop :=
| pstep_begin l l' ops :
    log_reserve l = Some l' → pstep (mkProto l ops) (mkProto l' (∅ :: ops))
| pstep_write l ops1 X ops2 b :
    log_full l = false → 1 ≤ lg_outstanding l → 0 ≤ b < 2 ^ 31 →
    (base.size ({[b]} ∪ X) ≤ budget)%nat →
    pstep (mkProto l (ops1 ++ X :: ops2)) (mkProto (log_absorb b l) (ops1 ++ ({[b]} ∪ X) :: ops2))
| pstep_end l l' c ops1 X ops2 :
    log_end l = Some (l', c) → pstep (mkProto l (ops1 ++ X :: ops2)) (mkProto l' (ops1 ++ ops2))
| pstep_commit l ops :
    lg_committing l = 1 → pstep (mkProto l ops) (mkProto (set_committing 0 (set_lh 0 (lh_block l) l)) ops).

(** The log as [initlog] leaves it, with no operation outstanding. *)
Definition idle (l : log) : Prop :=
  lh_n l = 0 ∧ lg_outstanding l = 0 ∧ lg_committing l = 0 ∧ length (lh_block l) = Z.to_nat LOGSIZE.

Definition preach (l0 : log) (p : proto) : Prop := rtc pstep (mkProto l0 []) p.
End protocol.

(** ** Absorption *)

Section absorb.
Implicit Types (l : log) (bl : list Z).

Lemma absorb_index_le b bl n : (n ≤ length bl)%nat → (absorb_index b bl n ≤ n)%nat.
Proof.
  revert bl. induction n as [|n IH]; intros [|x bl] Hn; simpl in *; try lia.
  destruct (u32 x =? b); [lia|]. specialize (IH bl). lia.
Qed.

(** [log_write]'s loop stops at the block's entry, or at [n] if it has none. *)
Lemma absorb_index_spec b bl n :
  (n ≤ length bl)%nat → (∀ x, x ∈ take n bl → 0 ≤ x < 2 ^ 31) →
  if decide (b ∈ take n bl) then take n bl !! absorb_index b bl n = Some b else absorb_index b bl n = n.
Proof.
  revert bl. induction n as [|n IH]; intros bl Hn Hr.
  { rewrite decide_False by (rewrite take_0; set_solver). by destruct bl. }
  destruct bl as [|x bl]; simpl in Hn; [lia|]. cbn [take absorb_index] in *.
  rewrite (u32_small x) by (specialize (Hr x ltac:(set_solver)); lia).
  destruct (Z.eqb_spec x b) as [->|Hne].
  - rewrite decide_True by set_solver. done.
  - specialize (IH bl ltac:(lia) ltac:(set_solver)). case_decide as Hb.
    + rewrite decide_True by set_solver. done.
    + rewrite decide_False by set_solver. by rewrite IH.
Qed.

(** What [log_write] does to the header: append a new block, absorb an old one. *)
Lemma log_absorb_spec b l :
  0 ≤ lh_n l → lh_n l < LOGSIZE → length (lh_block l) = Z.to_nat LOGSIZE →
  (∀ x, x ∈ logged l → 0 ≤ x < 2 ^ 31) → 0 ≤ b < 2 ^ 31 →
  logged (log_absorb b l) = (if decide (b ∈ logged l) then logged l else logged l ++ [b]) ∧
  lh_n (log_absorb b l) = lh_n l + (if decide (b ∈ logged l) then 0 else 1) ∧
  length (lh_block (log_absorb b l)) = length (lh_block l).
Proof.
  intros H0 Hn Hlen Hr Hb. unfold log_absorb.
  pose proof (absorb_index_spec b (lh_block l) (Z.to_nat (lh_n l)) ltac:(lia) Hr) as Hidx.
  rewrite (s32_small b) by lia. set (i := absorb_index _ _ _) in *. change (take _ _) with (logged l) in Hidx.
  split_and!; [| |by cbn; rewrite length_insert].
  - unfold logged at 1. cbn [set_lh lh_n lh_block]. case_decide as Hin.
    + assert (Hi : (i < Z.to_nat (lh_n l))%nat).
      { apply lookup_lt_Some in Hidx. unfold logged in Hidx. rewrite length_take in Hidx. lia. }
      rewrite (proj2 (Z.eqb_neq _ _)) by lia. rewrite take_insert_lt by done. by apply list_insert_id.
    + rewrite Hidx, Z2Nat.id, Z.eqb_refl by done. replace (Z.to_nat (lh_n l + 1)) with (S (Z.to_nat (lh_n l))) by lia.
      rewrite (take_S_r _ _ b) by (apply list_lookup_insert_eq; lia). by rewrite take_insert_ge by done.
  - cbn [set_lh lh_n]. case_decide as Hin.
    + apply lookup_lt_Some in Hidx. unfold logged in Hidx. rewrite length_take in Hidx.
      rewrite (proj2 (Z.eqb_neq _ _)) by lia. lia.
    + by rewrite Hidx, Z2Nat.id, Z.eqb_refl by done.
Qed.
End absorb.

(** ** The invariant *)

(** What the outstanding operations may still add to the log. *)
Definition slack (budget : nat) (ops : list (gset Z)) : nat :=
  sum_list_with (λ X, budget - base.size X)%nat ops.

Arguments slack : simpl never.

Lemma slack_begin budget ops : slack budget (∅ :: ops) = (budget + slack budget ops)%nat.
Proof. unfold slack. cbn [sum_list_with]. rewrite size_empty. lia. Qed.

Lemma slack_app budget ops1 X ops2 :
  slack budget (ops1 ++ X :: ops2) = (slack budget (ops1 ++ ops2) + (budget - base.size X))%nat.
Proof. unfold slack. rewrite !sum_list_with_app. simpl. lia. Qed.

Lemma slack_le budget ops : (slack budget ops ≤ length ops * budget)%nat.
Proof. unfold slack. induction ops; simpl; lia. Qed.

Definition op_budget : nat := Z.to_nat MAXOPBLOCKS - 1.

Record proto_inv (p : proto) : Prop := {
  pi_len : length (lh_block (pr_log p)) = Z.to_nat LOGSIZE;
  pi_n : 0 ≤ lh_n (pr_log p);
  pi_range : ∀ b, b ∈ logged (pr_log p) → 0 ≤ b < 2 ^ 31;
  pi_nodup : NoDup (logged (pr_log p));
  pi_out : lg_outstanding (pr_log p) = Z.of_nat (length (pr_ops p));
  pi_com : lg_committing (pr_log p) = 0 ∨ lg_committing (pr_log p) = 1 ∧ pr_ops p = [];
  pi_idle : pr_ops p = [] → lg_committing (pr_log p) = 0 → lh_n (pr_log p) = 0;
  pi_ops : ∀ X, X ∈ pr_ops p → ∀ b, b ∈ X → b ∈ logged (pr_log p);
  pi_room : lh_n (pr_log p) + Z.of_nat (slack op_budget (pr_ops p)) ≤ LOGSIZE - 2;
}.

Lemma idle_inv l : idle l → proto_inv (mkProto l []).
Proof.
  intros (Hn & Ho & Hc & Hl). assert (Hlg : logged l = []) by (unfold logged; by rewrite Hn).
  split; simpl; rewrite ?Hlg, ?Hn; try (done || lia || set_solver || by left || constructor).
Qed.

Lemma begin_inv l l' ops :
  log_reserve l = Some l' → proto_inv (mkProto l ops) → proto_inv (mkProto l' (∅ :: ops)).
Proof.
  unfold log_reserve. intros Hr [Hlen Hn Hrg Hnd Hout Hcom Hidle Hops Hroom]; simpl in *.
  destruct (Z.eqb_spec (lg_committing l) 0) as [Hc|]; simpl in Hr; [|done].
  destruct (Z.ltb_spec LOGSIZE (lh_n l + (lg_outstanding l + 1) * MAXOPBLOCKS)) as [|Hle]; [done|].
  injection Hr as <-. pose proof (slack_le op_budget ops) as Hs.
  split; simpl; try done; try lia.
  - intros X [->|HX]%elem_of_cons; [set_solver|]. by apply Hops.
  - rewrite slack_begin. unfold op_budget, LOGSIZE, MAXOPBLOCKS in *. destruct ops as [|X ops].
    + rewrite Hidle in * by done. change (slack _ []) with 0%nat. lia.
    + cbn [length] in *. lia.
Qed.

Lemma write_inv l ops1 X ops2 b :
  log_full l = false → 0 ≤ b < 2 ^ 31 → (base.size ({[b]} ∪ X) ≤ op_budget)%nat →
  proto_inv (mkProto l (ops1 ++ X :: ops2)) →
  proto_inv (mkProto (log_absorb b l) (ops1 ++ ({[b]} ∪ X) :: ops2)).
Proof.
  intros Hf Hb Hsz [Hlen Hn Hrg Hnd Hout Hcom Hidle Hops Hroom]; simpl in *.
  unfold log_full in Hf. apply orb_false_iff in Hf as [Hf _]. apply Z.leb_gt in Hf.
  destruct (log_absorb_spec b l Hn Hf Hlen Hrg Hb) as (Hlg & Hn' & Hlen').
  assert (HX : X ∈ ops1 ++ X :: ops2) by set_solver.
  split; cbn [pr_log pr_ops]; rewrite ?Hlg, ?Hn', ?Hlen'; try done.
  - case_decide; lia.
  - intros b' Hb'. case_decide; [by apply Hrg|]. apply elem_of_app in Hb' as [Hb'|Hb']; [by apply Hrg|].
    by apply list_elem_of_singleton in Hb' as ->.
  - case_decide as Hd; [done|]. apply NoDup_app. split_and!; [done| |by apply NoDup_singleton].
    intros b' Hb' ->%list_elem_of_singleton. done.
  - change (lg_outstanding l = Z.of_nat (length (ops1 ++ ({[b]} ∪ X) :: ops2))).
    rewrite Hout, !length_app. done.
  - destruct Hcom as [?|[? Heq]]; [by left|]. by destruct ops1.
  - intros Heq. by destruct ops1.
  - intros Y HY b' Hb'. assert (b' ∈ logged l ∨ b' = b) as [?| ->].
    { apply elem_of_app in HY as [HY|[->|HY]%elem_of_cons].
      - left. apply (Hops Y); set_solver.
      - apply elem_of_union in Hb' as [->%elem_of_singleton|Hb']; [by right|]. left. by apply (Hops X).
      - left. apply (Hops Y); set_solver. }
    + case_decide; set_solver.
    + case_decide; set_solver.
  - rewrite slack_app in *. case_decide as Hin.
    + pose proof (subseteq_size X ({[b]} ∪ X) ltac:(set_solver)). lia.
    + assert (HbX : b ∉ X) by (intros HbX; apply Hin; by apply (Hops X)).
      rewrite size_union in * by set_solver. rewrite size_singleton in *. lia.
Qed.

Lemma end_inv l l' c ops1 X ops2 :
  log_end l = Some (l', c) → proto_inv (mkProto l (ops1 ++ X :: ops2)) → proto_inv (mkProto l' (ops1 ++ ops2)).
Proof.
  unfold log_end. intros He [Hlen Hn Hrg Hnd Hout Hcom Hidle Hops Hroom]; simpl in *.
  destruct (Z.eqb_spec (lg_committing l) 0) as [Hc|]; simpl in He; [|done].
  rewrite slack_app in Hroom. rewrite length_app in Hout. simpl in Hout.
  destruct (Z.eqb_spec (lg_outstanding l - 1) 0) as [H0|H0]; injection He as <- <-;
    (split; simpl; rewrite ?length_app; try done; try lia; [|set_solver || intros Y HY; apply Hops; set_solver..]).
  - right. split; [done|]. apply app_nil. destruct ops1, ops2; simpl in *; (done || lia).
  - intros Heq. apply app_nil in Heq as [-> ->]. simpl in *. lia.
Qed.

Lemma commit_inv l ops :
  lg_committing l = 1 → proto_inv (mkProto l ops) →
  proto_inv (mkProto (set_committing 0 (set_lh 0 (lh_block l) l)) ops).
Proof.
  intros Hc [Hlen Hn Hrg Hnd Hout Hcom Hidle Hops Hroom]; simpl in *.
  destruct Hcom as [?|[_ ->]]; [lia|].
  split; simpl; try (done || lia || set_solver || by left || constructor).
Qed.

Lemma preach_inv l0 p : idle l0 → preach op_budget l0 p → proto_inv p.
Proof.
  intros Hi Hr. unfold preach in Hr.
  cut (∀ q p, rtc (pstep op_budget) q p → proto_inv q → proto_inv p).
  { intros Hc. eapply Hc; [exact Hr|]. by apply idle_inv. }
  clear. intros q p Hr. induction Hr as [|q r p Hs _ IH]; [done|]. intros Hq. apply IH.
  destruct Hs.
  - by eapply begin_inv.
  - by apply write_inv.
  - by eapply end_inv.
  - by apply commit_inv.
Qed.

Lemma preach_size m l0 p : preach m l0 p → lg_size (pr_log p) = lg_size l0.
Proof.
  unfold preach. cut (∀ q, rtc (pstep m) q p → lg_size (pr_log p) = lg_size (pr_log q)).
  { intros Hc Hr. by apply (Hc (mkProto l0 [])). }
  intros q Hr. induction Hr as [|q r p Hs _ IH]; [done|]. rewrite IH. destruct Hs as [l l' ? H| |l l' ? ? ? ? H|]; simpl; try done.
  - unfold log_reserve in H. by repeat case_match; simplify_eq/=.
  - unfold log_end in H. by repeat case_match; simplify_eq/=.
Qed.


Theorem begin_op_idle_proceeds {D} {drv : DiskDriver D} (l0 : log) p (s : logst D) :
  idle l0 → preach op_budget l0 p → ls_log s = pr_log p →
  (pr_ops p = [] → lg_committing (pr_log p) = 0 →
     begin_op s = Ok tt (mkLogst (ls_bio s) (set_outstanding 1 (ls_log s)))) ∧
  (pr_ops p ≠ [] → ∃ l c, log_end (ls_log s) = Some (l, c) ∧
     c = bool_decide (length (pr_ops p) = 1%nat)).
Proof.
  intros Hi Hr Hl. pose proof (preach_inv _ _ Hi Hr) as [? ? ? ? Hout Hcom Hidle ? Hroom]. split.
  - intros Ho Hc. unfold begin_op, mbind, M_bind, getS, log_reserve. rewrite Hl, Hc. simpl.
    rewrite Hout, Ho, Hidle by done. done.
  - intros Ho. unfold log_end. destruct Hcom as [Hc|[_ ?]]; [|done].
    rewrite Hl. cbn [set_outstanding lg_committing lg_outstanding]. rewrite Hc, Hout.
    destruct (Z.eqb_spec (Z.of_nat (length (pr_ops p)) - 1) 0); eexists _, _; (split; [done|]).
    + by rewrite bool_decide_true by lia. + by rewrite bool_decide_false by lia.
Qed.

(** ** An executable run of the protocol *)

Inductive event : Type := EvBegin | EvWrite (i : nat) (b : Z) | EvEnd (i : nat) | EvCommit.

Definition pexec1 (budget : nat) (p : proto) (e : event) : option proto :=
  let l := pr_log p in
  match e with
  | EvBegin => l' ← log_reserve l; Some (mkProto l' (∅ :: pr_ops p))
  | EvWrite i b =>
      X ← pr_ops p !! i;
      if negb (log_full l) && (1 <=? lg_outstanding l) && (0 <=? b) && (b <? 2 ^ 31)
         && (base.size ({[b]} ∪ X) <=? budget)%nat
      then Some (mkProto (log_absorb b l) (<[i := {[b]} ∪ X]> (pr_ops p))) else None
  | EvEnd i =>
      _ ← pr_ops p !! i; '(l', _) ← log_end l;
      Some (mkProto l' (delete i (pr_ops p)))
  | EvCommit => if lg_committing l =? 1 then
      Some (mkProto (set_committing 0 (set_lh 0 (lh_block l) l)) (pr_ops p)) else None
  end.

Fixpoint pexec (budget : nat) (p : proto) (es : list event) : option proto :=
  match es with
  | [] => Some p
  | e :: es => p' ← pexec1 budget p e; pexec budget p' es
  end.

Lemma pexec1_sound m p e p' : pexec1 m p e = Some p' → pstep m p p'.
Proof.
  destruct p as [l ops], e as [|i b|i|]; simpl; intros H.
  - apply bind_Some in H as (l' & Hr & [= <-]). by constructor.
  - apply bind_Some in H as (X & HX & H). case_match eqn:Hc; [|done]. injection H as <-.
    apply andb_true_iff in Hc as [Hc H5]. apply andb_true_iff in Hc as [Hc H4].
    apply andb_true_iff in Hc as [Hc H3]. apply andb_true_iff in Hc as [H1 H2].
    apply negb_true_iff in H1. apply Nat.leb_le in H5.
    rewrite <-(take_drop_middle _ _ _ HX) at 1. rewrite insert_take_drop by (by eapply lookup_lt_Some).
    constructor; try done; lia.
  - apply bind_Some in H as (X & HX & H). apply bind_Some in H as ([l' c] & He & [= <-]).
    rewrite <-(take_drop_middle _ _ _ HX) at 1. rewrite delete_take_drop. by econstructor.
  - case_match eqn:Hc; [|done]. injection H as <-. constructor. lia.
Qed.

Lemma pexec_sound m p es p' : pexec m p es = Some p' → rtc (pstep m) p p'.
Proof.
  revert p. induction es as [|e es IH]; intros p H; simpl in H; [injection H as <-; apply rtc_refl|].
  apply bind_Some in H as (q & Hq & H). eapply rtc_l; [by eapply pexec1_sound|by apply IH].
Qed.

(** The log as [mkfs] lays it out: [nlog = LOGSIZE] blocks starting at block 2. *)
Definition mkfs_log : log := mkLog 2 LOGSIZE 0 0 ROOTDEV 0 (replicate (Z.to_nat LOGSIZE) 0).

Definition fill_trace : list event :=
  [EvBegin; EvBegin; EvBegin] ++
  (EvWrite 0 <$> seqZ 100 10) ++ (EvWrite 1 <$> seqZ 110 10) ++ (EvWrite 2 <$> seqZ 120 9).

(** C31. On the log that mkfs lays out (LOGSIZE blocks including the header), three operations
    admitted by begin_op that stay within MAXOPBLOCKS distinct blocks each reach a state where a
    further reserved log_write panics. *)
Theorem log_write_fills_reserved_log :
  ∃ p X, preach (Z.to_nat MAXOPBLOCKS) mkfs_log p ∧ X ∈ pr_ops p ∧
    (base.size X < Z.to_nat MAXOPBLOCKS)%nat ∧
    ∀ (s : logst memdisk) i, ls_log s = pr_log p → log_write i s = Panic "too big a transaction".
Proof.
  destruct (pexec (Z.to_nat MAXOPBLOCKS) (mkProto mkfs_log []) fill_trace) as [p|] eqn:E; [|by vm_compute in E].
  pose proof (pexec_sound _ _ _ _ E) as Hr. vm_compute in E. injection E as <-.
  eexists _, _. split; [exact Hr|]. split; [do 2 apply list_elem_of_further; apply list_elem_of_here|].
  split; [apply Nat.ltb_lt; vm_compute; reflexivity|]. intros s i Hl. unfold log_write, mbind, M_bind, getS.
  rewrite Hl. reflexivity.
Qed.
