(* ===== verification/Tx.v ===== *)
(** * The transactional block store that fs.c uses

    [fs.c] touches the disk only through [bread], writes to [b->data],
    [log_write] and [brelse], inside a transaction.  [TxStore] is that interface
    and [TxLaws] its contract; the file system is proved against the contract,
    and the log over the buffer cache (src/log.c, src/bio.c) implements it. *)

From S2P Require Import Prelude Dll Sleeplock Bio Memide FsLayout Log LogCrash LogProtocol.

Class TxStore (S : Type) := {
  tx_bread : Z → Z → M S nat;           (* bread(dev, blockno) *)
  tx_data : S → nat → list byte;        (* b->data *)
  tx_put : nat → list byte → M S unit;  (* assignment to b->data *)
  tx_log_write : nat → M S unit;
  tx_brelse : nat → M S unit;
}.

(** Size of the disk and place of the log on it. *)
Record geom : Type := mkGeom { g_size : Z; g_start : Z; g_nlog : Z }.

Definition g_log (g : geom) (k : Z) : Prop := g_start g ≤ k < g_start g + g_nlog g.

(** Blocks a transaction may log: [log_write] panics at this number. *)
Definition g_cap (g : geom) : Z := Z.min LOGSIZE (g_nlog g - 1).

(** [tx_inv g s V L H]: in state [s] of a transaction the blocks have contents
    [V], the blocks [L] are in the log, the buffers [H] are in use. *)
Class TxLaws (S : Type) {ops : TxStore S} := {
  tx_inv : geom → S → (Z → list byte) → gset Z → gmap nat (Z * list byte) → Prop;
  tx_inv_len g s V L H k : tx_inv g s V L H → 0 ≤ k < g_size g → length (V k) = BSIZE;
  tx_held g s V L H i k d : tx_inv g s V L H → H !! i = Some (k, d) → length d = BSIZE ∧ 0 ≤ k < g_size g;
  tx_bread_ok g s V L H k :
    tx_inv g s V L H → 0 ≤ k < g_size g → k ∉ held H → (base.size (L ∪ held H) < NBUF)%nat →
    wp (tx_bread ROOTDEV k) (λ i s', H !! i = None ∧ tx_inv g s' V L (<[i := (k, V k)]> H)) s;
  tx_data_ok g s V L H i k d : tx_inv g s V L H → H !! i = Some (k, d) → tx_data s i = d;
  tx_put_ok g s V L H i k d d' :
    tx_inv g s V L H → H !! i = Some (k, d) → length d' = BSIZE →
    wp (tx_put i d') (λ _ s', tx_inv g s' V L (<[i := (k, d')]> H)) s;
  tx_log_write_ok g s V L H i k d :
    tx_inv g s V L H → H !! i = Some (k, d) → ¬ g_log g k → Z.of_nat (base.size L) < g_cap g →
    wp (tx_log_write i) (λ _ s', tx_inv g s' (<[k := d]> V) ({[k]} ∪ L) H) s;
  tx_brelse_ok g s V L H i k :
    tx_inv g s V L H → H !! i = Some (k, V k) →
    wp (tx_brelse i) (λ _ s', tx_inv g s' V L (delete i H)) s;
}.

(** ** The log implements the interface *)

Section log_store.
Context {D : Type} {drv : DiskDriver D} {dl : DiskLaws D}.
Implicit Types (V : Z → list byte) (L : gset Z) (H : gmap nat (Z * list byte)).

#[global] Instance log_tx_store : TxStore (logst D) := {
  tx_bread dev k := liftB (bread dev k);
  tx_data s := buf_data (ls_bio s);
  tx_put i d := liftB (put_data i d);
  tx_log_write := log_write;
  tx_brelse i := liftB (brelse i);
}.

Record log_tx_inv (g : geom) (s : logst D) V L H : Prop := {
  ti_wf : log_wf (g_size g) (ls_log s);
  ti_size : disk_size (bc_disk (ls_bio s)) = g_size g;
  ti_start : lg_start (ls_log s) = g_start g;
  ti_nlog : lg_size (ls_log s) = g_nlog g;
  ti_out : 1 ≤ lg_outstanding (ls_log s);
  ti_clean : hdr_n (disk_block (bc_disk (ls_bio s)) (g_start g)) = 0;
  ti_logged : L = list_to_set (logged (ls_log s));
  ti_rep : rep (ls_bio s) V L H;
  ti_len : ∀ k, 0 ≤ k < g_size g → length (V k) = BSIZE;
}.

(** An operation of the cache that keeps the disk, the log and [V]. *)
Lemma log_tx_inv_cache g s b' V L H H' :
  log_tx_inv g s V L H → rep b' V L H' → bc_disk b' = bc_disk (ls_bio s) →
  log_tx_inv g (mkLogst b' (ls_log s)) V L H'.
Proof. intros [] Hrep Hd. split; simpl; rewrite ?Hd; done. Qed.

Lemma logged_set_size size l : log_wf size l → Z.of_nat (base.size (list_to_set (logged l) : gset Z)) = lh_n l.
Proof. intros Hwf. rewrite (logged_size _ _ Hwf). pose proof (lw_n _ _ Hwf). lia. Qed.

(** [log_write] keeps the log well formed and adds the block to it. *)
Lemma log_absorb_wf size l b :
  log_wf size l → 0 ≤ b < size → ¬ in_log l b → lh_n l < Z.min LOGSIZE (lg_size l - 1) →
  log_wf size (log_absorb b l) ∧
  list_to_set (logged (log_absorb b l)) = ({[b]} ∪ list_to_set (logged l) : gset Z).
Proof.
  intros Hwf Hb Hnb Hn. pose proof (lw_area _ _ Hwf). pose proof (lw_n _ _ Hwf).
  destruct (log_absorb_spec b l) as (Hlg & Hn' & Hlen); [lia|lia|apply Hwf| |lia|].
  { intros x Hx%(lw_home _ _ Hwf). lia. }
  split.
  - split; [apply Hwf|done|by rewrite Hlen; apply Hwf|rewrite Hn'; simpl; case_decide; lia| |].
    + rewrite Hlg. case_decide; [apply Hwf|]. apply NoDup_app. split_and!; [apply Hwf| |by apply NoDup_singleton].
      intros x Hx ->%list_elem_of_singleton. done.
    + rewrite Hlg. intros x Hx. assert (x ∈ logged l ∨ x = b) as [?| ->] by (case_decide; set_solver).
      * by apply (lw_home _ _ Hwf). * done.
  - rewrite Hlg. case_decide as Hd.
    + apply (elem_of_list_to_set (C := gset Z)) in Hd. set_solver.
    + rewrite list_to_set_app_L. set_solver.
Qed.

Lemma log_write_ok g s V L H i k d :
  log_tx_inv g s V L H → H !! i = Some (k, d) → ¬ g_log g k → Z.of_nat (base.size L) < g_cap g →
  wp (log_write i) (λ _ s', log_tx_inv g s' (<[k := d]> V) ({[k]} ∪ L) H) s.
Proof.
  intros [Hwf Hsz Hst Hnl Hout Hcl HL Hrep Hlen] Hi Hk Hc.
  destruct (rep_held _ _ _ _ _ _ _ Hrep Hi) as (_ & Hd & Hr & _ & Hbno & _).
  subst L. rewrite (logged_set_size _ _ Hwf) in Hc. unfold g_cap in Hc. rewrite <-Hnl in Hc. rewrite Hsz in Hr.
  destruct (log_absorb_wf _ _ k Hwf Hr) as [Hwf' HL']; [unfold in_log; by rewrite Hst, Hnl|done|].
  unfold log_write. apply wp_getS. unfold log_full.
  rewrite (proj2 (Z.leb_gt _ _)), (proj2 (Z.leb_gt _ _)), (proj2 (Z.ltb_ge _ _)) by lia. simpl orb. cbv iota.
  rewrite Hbno. unfold upd_log. apply wp_modify. apply wp_liftB. simpl.
  eapply wp_mono; [by eapply pin_spec|]. intros [] b' (Hrep' & Hdk & _).
  split; cbn [ls_log ls_bio]; rewrite ?Hdk; try done.
  - intros k' Hk'. destruct (decide (k = k')) as [<-|]; [by rewrite fn_lookup_insert|].
    rewrite fn_lookup_insert_ne by done. by apply Hlen.
Qed.

#[local] Obligation Tactic := idtac.

#[global] Program Instance log_tx_laws : TxLaws (logst D) := { tx_inv := log_tx_inv }.
Next Obligation. intros. by eapply ti_len. Qed.
Next Obligation. intros g s V L H i k d Hi Hh. destruct (rep_held _ _ _ _ _ _ _ (ti_rep _ _ _ _ _ Hi) Hh) as (_ & ? & Hr & _). by rewrite (ti_size _ _ _ _ _ Hi) in Hr. Qed.
Next Obligation.
  intros g s V L H k Hi Hr Hk Hroom. apply wp_liftB. eapply wp_mono.
  { eapply bread_spec; [by eapply ti_rep|by rewrite (ti_size _ _ _ _ _ Hi)|done|by right]. }
  intros i b' (Hn & Hrep & Hd & _). split; [done|]. by eapply log_tx_inv_cache.
Qed.
Next Obligation. intros g s V L H i k d Hi Hh. eapply buf_data_spec; [by eapply ti_rep|done]. Qed.
Next Obligation.
  intros g s V L H i k d d' Hi Hh Hl. apply wp_liftB. eapply wp_mono.
  { eapply put_data_spec; [by eapply ti_rep|done|done]. }
  intros [] b' (Hrep & Hd & _). by eapply log_tx_inv_cache.
Qed.
Next Obligation. apply log_write_ok. Qed.
Next Obligation.
  intros g s V L H i k Hi Hh. apply wp_liftB. eapply wp_mono.
  { eapply brelse_spec; [by eapply ti_rep|done|done]. }
  intros [] b' (Hrep & Hd & _). by eapply log_tx_inv_cache.
Qed.

(** ** Beginning and ending a transaction *)

(** No operation outstanding: the log is empty and every block is on disk. *)
Record quiet (g : geom) (s : logst D) V : Prop := {
  q_wf : log_wf (g_size g) (ls_log s);
  q_size : disk_size (bc_disk (ls_bio s)) = g_size g;
  q_start : lg_start (ls_log s) = g_start g;
  q_nlog : lg_size (ls_log s) = g_nlog g;
  q_n : lh_n (ls_log s) = 0;
  q_out : lg_outstanding (ls_log s) = 0;
  q_com : lg_committing (ls_log s) = 0;
  q_clean : hdr_n (V (g_start g)) = 0;
  q_rep : rep (ls_bio s) V ∅ ∅;
}.

Lemma quiet_disk g s V k : quiet g s V → V k = disk_block (bc_disk (ls_bio s)) k.
Proof. intros Hq. destruct (q_rep _ _ _ Hq) as (_ & _ & HV). apply HV. set_solver. Qed.

Lemma begin_op_ok g s V :
  quiet g s V →
  wp begin_op (λ _ s', tx_inv g s' V ∅ ∅ ∧ lg_outstanding (ls_log s') = 1 ∧ lg_committing (ls_log s') = 0) s.
Proof.
  intros Hq. pose proof (quiet_disk _ _ _ (g_start g) Hq) as Hh. pose proof Hq as [Hwf ? ? ? Hn Ho Hc Hcl ?].
  unfold begin_op. apply wp_getS. unfold log_reserve. rewrite Hc, Ho, Hn. simpl.
  unfold upd_log, modify, wp. split_and!; [|done..].
  split; cbn [ls_log ls_bio]; try done.
  - destruct Hwf. split; done.
  - cbn. congruence.
  - unfold logged. cbn [set_outstanding lh_n]. by rewrite Hn.
  - intros k Hk. rewrite (quiet_disk _ _ _ _ Hq). apply disk_block_len. lia.
Qed.

Lemma dwrites_commit_home size l V k :
  log_wf size l → ¬ in_log l k → dwrites V (commit_ws l V) k = V k.
Proof.
  intros Hwf Hk. unfold in_log in Hk. pose proof (lw_n _ _ Hwf). pose proof (logged_length _ _ Hwf).
  unfold commit_ws. rewrite !dwrites_app. cbn [dwrites foldl]. unfold dwrite. cbn [fst snd].
  rewrite fn_lookup_insert_ne by lia. fold (dwrites (<[lg_start l := commit_hdr l V]> (dwrites V (log_ws (lg_start l) V (logged l)))) (home_ws V (logged l))).
  rewrite dwrites_home. case_decide; [done|]. rewrite fn_lookup_insert_ne by lia.
  apply dwrites_notin. intros Hin%log_ws_fst. lia.
Qed.

Lemma commit_clears_header l V size :
  log_wf size l → length (V (lg_start l)) = BSIZE →
  hdr_n (dwrites V (commit_ws l V) (lg_start l)) = 0.
Proof.
  intros Hwf Hl. pose proof (lw_n _ _ Hwf). unfold commit_ws. rewrite !dwrites_app. cbn [dwrites foldl]. unfold dwrite. cbn [fst snd].
  rewrite fn_lookup_insert. apply hdr_n_put; [split; [unfold LOGSIZE, MAXOPBLOCKS; lia|apply Hwf]|].
  apply hdr_put_len; [split; [lia|apply Hwf]|done].
Qed.

Lemma end_op_ok g s V L :
  tx_inv g s V L ∅ → lg_outstanding (ls_log s) = 1 → lg_committing (ls_log s) = 0 →
  (base.size L < NBUF)%nat →
  wp end_op (λ _ s', ∃ V', quiet g s' V' ∧
    ∀ k, ¬ g_log g k → disk_block (bc_disk (ls_bio s')) k = V k) s.
Proof.
  intros [Hwf Hsz Hst Hnl Hout Hcl HL Hrep Hlen] Ho Hc HNB.
  assert (HLs : Z.of_nat (base.size L) = lh_n (ls_log s)) by (rewrite HL; by apply (logged_set_size _ _ Hwf)).
  pose proof (lw_n _ _ Hwf) as Hn. pose proof (lw_area _ _ Hwf) as Har.
  unfold end_op. apply wp_getS. unfold log_end. cbn [set_outstanding lg_committing lg_outstanding].
  rewrite Hc, Ho. cbn [Z.eqb negb Z.sub Z.add Z.opp Z.pos_sub]. unfold upd_log at 1. apply wp_modify.
  set (l := ls_log s) in *. set (l1 := set_committing 1 _).
  assert (Hwf1 : log_wf (g_size g) l1) by (destruct Hwf; split; done).
  assert (Hlg : logged l1 = logged l) by done.
  destruct (decide (0 < lh_n l)) as [Hpos|Hz].
  - apply wp_bind. eapply wp_mono.
    { apply (commit_spec (mkLogst (ls_bio s) l1) V); cbn [ls_log ls_bio];
        [by rewrite Hsz|cbn; lia|by rewrite Hlg, <-HL]. }
    intros [] s' (Hl' & Hrep' & Hran). cbn [ls_log ls_bio] in *.
    unfold upd_log, modify, wp. exists (dwrites V (commit_ws l1 V)).
    assert (Hq : quiet g (mkLogst (ls_bio s') (set_committing 0 (ls_log s'))) (dwrites V (commit_ws l1 V))).
    { destruct Hran as (_ & Hsz' & _). rewrite Hl'. destruct Hwf1. split; cbn; try done.
      - split; cbn; try done; try lia; try set_solver. constructor.
      - congruence.
      - rewrite <-Hst. apply (commit_clears_header l1 V (g_size g)); [by split|]. apply Hlen. cbn. lia. }
    split; [done|]. intros k Hk. etrans; [symmetry; exact (quiet_disk _ _ _ k Hq)|].
    eapply dwrites_commit_home; [exact Hwf1|]. unfold in_log. cbn. by rewrite Hst, Hnl.
  - assert (Hz' : lh_n l = 0) by lia. assert (L = ∅) as ->.
    { apply leibniz_equiv, size_empty_iff. lia. }
    unfold commit. apply wp_bind, wp_getS. cbn [ls_log]. change (lh_n l1) with (lh_n l). rewrite Hz'. cbn [Z.ltb Z.compare].
    apply wp_ret. unfold upd_log, modify, wp. cbn [ls_bio ls_log]. exists V.
    destruct Hrep as (Hlru & Hb & HV). assert (HV' : ∀ k, V k = disk_block (bc_disk (ls_bio s)) k) by set_solver.
    split; [|intros k _; by rewrite HV']. destruct Hwf1. split; cbn; try done.
    by rewrite HV'.
Qed.

(** C3. When the last outstanding operation ends, end_op does not panic or block, every block
    outside the log area is on the disk with its logical contents, and the log is empty with no
    operation outstanding. *)
Theorem end_op_durable g s V L :
  tx_inv g s V L ∅ → lg_outstanding (ls_log s) = 1 → lg_committing (ls_log s) = 0 →
  (base.size L < NBUF)%nat →
  wp end_op (λ _ s', ∃ V', quiet g s' V' ∧
    ∀ k, ¬ g_log g k → disk_block (bc_disk (ls_bio s')) k = V k) s.
Proof. apply end_op_ok. Qed.
End log_store.
