(* ===== verification/LogExample.v ===== *)
(** * A transaction on a concrete disk

    An eight-block memory disk with a three-block log, a transaction that
    rewrites block 6, and the theorems about the log at this state. *)

From S2P Require Import Prelude Dll Sleeplock Bio Memide FsLayout Log LogCrash LogProtocol Tx.

Definition ex_super : list byte :=
  mjoin (le_bytes 4 <$> [8; 1; 8; 3; 2; 5; 6]) ++ replicate (BSIZE - 28) Byte.x00.

Definition ex_disk : memdisk :=
  ideinit (replicate BSIZE Byte.x00 ++ ex_super ++ replicate (6 * BSIZE) Byte.x00).

Definition ex_geom : geom := mkGeom 8 2 3.
Definition ex_data : list byte := replicate BSIZE Byte.x2a.

(** [begin_op], a write of block 6, ready for [end_op] *)
Definition ex_txn : M (logst memdisk) unit :=
  initlog ROOTDEV;;
  begin_op;;
  b ← tx_bread ROOTDEV 6;
  tx_put b ex_data;;
  tx_log_write b;;
  tx_brelse b.

Definition ex_state : logst memdisk :=
  match ex_txn (boot ex_disk 1) with Ok _ s => s | _ => boot ex_disk 1 end.

Lemma ex_block_empty : hdr_n (disk_block ex_disk 2) = 0.
Proof. vm_compute. reflexivity. Qed.

Lemma ex_log_disk : log_disk 2 3 (disk_size ex_disk) (disk_block ex_disk) (disk_block ex_disk).
Proof.
  assert (Hb : hdr_blocks (disk_block ex_disk 2) = []) by (apply hdr_blocks_nil; exact ex_block_empty).
  assert (Hs : disk_size ex_disk = 8) by (vm_compute; reflexivity).
  split; rewrite ?Hb, ?Hs.
  - lia.
  - split_and!; [lia|lia|set_solver].
  - split; vm_compute; reflexivity.
  - rewrite ex_block_empty. unfold LOGSIZE, MAXOPBLOCKS. lia.
  - apply disk_block_len. rewrite Hs. lia.
  - constructor.
  - set_solver.
  - intros t b Ht. by rewrite lookup_nil in Ht.
  - done.
Qed.

Definition ex_V0 : Z → list byte := dwrites (disk_block ex_disk) (recover_ws 2 (disk_block ex_disk) (disk_block ex_disk)).
Definition ex_V : Z → list byte := <[6 := ex_data]> ex_V0.

Lemma ex_V0_eq k : ex_V0 k = if decide (k = 2) then st 4 0 0 (disk_block ex_disk 2) else disk_block ex_disk k.
Proof.
  unfold ex_V0, recover_ws. rewrite (hdr_blocks_nil _ ex_block_empty). cbn [home_ws fmap list_fmap app].
  unfold dwrites, dwrite. cbn [foldl fst snd]. case_decide as Hk.
  - subst. apply fn_lookup_insert.
  - by rewrite fn_lookup_insert_ne.
Qed.

(** The state in the middle of the transaction. *)
Lemma ex_state_tx : tx_inv ex_geom ex_state ex_V {[6]} ∅.
Proof.
  cut (wp ex_txn (λ _ s, tx_inv ex_geom s ex_V {[6]} ∅) (boot ex_disk 1)).
  { unfold wp, ex_state. destruct (ex_txn (boot ex_disk 1)); done. }
  unfold ex_txn. apply wp_bind. eapply wp_mono; [apply initlog_spec; apply ex_log_disk|].
  intros [] s1 (Hrep & Hran & Hl & Hwf). fold ex_V0 in Hrep.
  assert (Hq : quiet ex_geom s1 ex_V0).
  { destruct Hran as (_ & Hsz & _). split; try (rewrite Hl; reflexivity); done. }
  apply wp_bind. eapply wp_mono; [by apply (begin_op_ok ex_geom)|]. intros [] s2 (Ht & _ & _).
  apply wp_bind. eapply wp_mono; [eapply (tx_bread_ok ex_geom); [exact Ht|cbn; lia| |]|].
  { rewrite held_nil. set_solver. }
  { rewrite held_nil, union_empty_l_L, size_empty. apply Nat.ltb_lt. reflexivity. }
  intros i s3 [_ Ht3]. apply wp_bind.
  eapply wp_mono; [eapply (tx_put_ok ex_geom); [exact Ht3|apply lookup_insert_eq|reflexivity]|].
  intros [] s4 Ht4. rewrite insert_insert_eq in Ht4. apply wp_bind.
  eapply wp_mono; [eapply (tx_log_write_ok ex_geom); [exact Ht4|apply lookup_insert_eq| |]|].
  { unfold g_log. cbn. lia. }
  { rewrite size_empty. reflexivity. }
  intros [] s5 Ht5. eapply wp_mono; [eapply (tx_brelse_ok ex_geom); [exact Ht5|]|].
  { rewrite lookup_insert_eq, fn_lookup_insert. reflexivity. }
  intros [] s6 Ht6. by rewrite delete_insert_id, union_empty_r_L in Ht6.
Qed.

Lemma ex_state_txn : txn ex_state ex_V.
Proof.
  destruct ex_state_tx as [Hwf Hsz Hst Hnl Ho Hcl HL Hrep Hlen].
  assert (Hd : disk_size (bc_disk (ls_bio ex_state)) = 8) by exact Hsz.
  assert (Hlg : logged (ls_log ex_state) = [6]) by (vm_compute; reflexivity).
  split.
  - by rewrite Hsz.
  - vm_compute. split; reflexivity.
  - by rewrite <-HL.
  - rewrite Hd, Hlg. unfold in_log. rewrite Hst, Hnl. clear.
    change (g_start ex_geom) with 2. change (g_nlog ex_geom) with 3.
    split_and!; [lia|lia|set_solver].
  - vm_compute. reflexivity.
  - vm_compute. reflexivity.
  - vm_compute. reflexivity.
Qed.

Lemma commit_crash_safe_witness :
  txn ex_state ex_V ∧
  wp commit (λ _ s', ∃ ws,
    disk_writes (bc_disk (ls_bio s')) = reverse ws ++ disk_writes (bc_disk (ls_bio ex_state)) ∧
    ∀ n d, crashed (bc_disk (ls_bio ex_state)) d ws n →
      wp (initlog ROOTDEV) (λ _ s'',
        recovered (ls_log ex_state) (if decide (n ≤ length (logged (ls_log ex_state)))%nat
                              then disk_block (bc_disk (ls_bio ex_state)) else ex_V) s'') (boot d 1)) ex_state.
Proof. split; [exact ex_state_txn|]. exact (commit_crash_safe ex_state ex_V 1 ex_state_txn). Defined.

(** The log [mkLog 2 3 ...] that recovery of [ex_disk] is stated for. *)
Definition ex_log : log := mkLog 2 3 0 0 ROOTDEV 0 [].

Lemma recover_crash_safe_witness :
  wp (initlog ROOTDEV) (λ _ s', recovered ex_log (disk_block ex_disk) s' ∧ ∃ ws,
    disk_writes (bc_disk (ls_bio s')) = reverse ws ++ disk_writes ex_disk ∧
    ∀ n d', crashed ex_disk d' ws n →
      wp (initlog ROOTDEV) (λ _ s'', recovered ex_log (disk_block ex_disk) s'') (boot d' 2)) (boot ex_disk 1).
Proof. exact (recover_crash_safe ex_disk 1 2 ex_log (disk_block ex_disk) ex_log_disk). Defined.

Lemma end_op_durable_witness :
  wp end_op (λ _ s', ∃ V', quiet ex_geom s' V' ∧
    ∀ k, ¬ g_log ex_geom k → disk_block (bc_disk (ls_bio s')) k = ex_V k) ex_state.
Proof.
  apply (end_op_durable ex_geom ex_state ex_V {[6]}).
  - exact ex_state_tx.
  - vm_compute. reflexivity.
  - vm_compute. reflexivity.
  - apply Nat.ltb_lt. vm_compute. reflexivity.
Defined.

(** ** The reservation protocol from the log [mkfs] lays out *)

Lemma mkfs_log_idle : idle mkfs_log.
Proof. repeat split. Qed.

Definition ex_proto : proto :=
  match pexec op_budget (mkProto mkfs_log []) [EvBegin; EvBegin; EvWrite 0 40; EvWrite 1 41; EvWrite 1 40] with
  | Some p => p | None => mkProto mkfs_log [] end.

Lemma ex_proto_reach : preach op_budget mkfs_log ex_proto.
Proof.
  apply (pexec_sound _ _ [EvBegin; EvBegin; EvWrite 0 40; EvWrite 1 41; EvWrite 1 40]).
  vm_compute. reflexivity.
Qed.

Definition ex_proto_state : logst memdisk := mkLogst (ls_bio ex_state) (pr_log ex_proto).


Lemma begin_op_idle_proceeds_witness :
  (pr_ops ex_proto = [] → lg_committing (pr_log ex_proto) = 0 →
     begin_op ex_proto_state = Ok tt (mkLogst (ls_bio ex_proto_state) (set_outstanding 1 (ls_log ex_proto_state)))) ∧
  (pr_ops ex_proto ≠ [] → ∃ l c, log_end (ls_log ex_proto_state) = Some (l, c) ∧
     c = bool_decide (length (pr_ops ex_proto) = 1%nat)).
Proof. exact (begin_op_idle_proceeds mkfs_log ex_proto ex_proto_state mkfs_log_idle ex_proto_reach eq_refl). Defined.
