(* ===== verification/CString.v ===== *)
(** * C memory and strings (src/string.c, src/ulib.c)

    Memory is a function from addresses to bytes; a loop over [n] bytes is a
    recursion on [n].  The functions that only read take the bytes they point at
    as a function of the offset, [ptr m a].  Addresses do not wrap around. *)

From S2P Require Import Prelude.

Abbreviation mem := (Z → byte).

(** The bytes a pointer [a] reads, by offset. *)
Definition ptr (m : mem) (a : Z) : Z → byte := λ i, m (a + i).

(** A byte string followed by zeroes, as a pointer to it reads. *)
Definition chars (l : list byte) : Z → byte := λ i, nth (Z.to_nat i) l Byte.x00.

(** The kernel's string.c *)
Module Kstring.

(** [rep stosb] and [rep stosl] (src/x86.h) *)
Fixpoint stosb (addr data : Z) (cnt : nat) (m : mem) : mem :=
  match cnt with
  | O => m
  | S cnt => stosb (addr + 1) data cnt (<[addr := to_uchar data]> m)
  end.

Definition store4 (addr data : Z) (m : mem) : mem :=
  <[addr + 3 := to_uchar (Z.shiftr data 24)]>
  (<[addr + 2 := to_uchar (Z.shiftr data 16)]>
  (<[addr + 1 := to_uchar (Z.shiftr data 8)]>
  (<[addr := to_uchar data]> m))).

Fixpoint stosl (addr data : Z) (cnt : nat) (m : mem) : mem :=
  match cnt with
  | O => m
  | S cnt => stosl (addr + 4) data cnt (store4 addr data m)
  end.

Definition memset (dst c n : Z) (m : mem) : mem :=
  if (Z.rem (s32 dst) 4 =? 0) && (n mod 4 =? 0) then
    let c := Z.land c 255 in
    stosl dst (Z.lor (Z.lor (Z.lor (Z.shiftl c 24) (Z.shiftl c 16)) (Z.shiftl c 8)) c) (Z.to_nat (n / 4)) m
  else stosb dst c (Z.to_nat n) m.

Fixpoint memcmp (s1 s2 : Z → byte) (i : Z) (n : nat) : Z :=
  match n with
  | O => 0
  | S n => if uchar (s1 i) =? uchar (s2 i) then memcmp s1 s2 (i + 1) n else uchar (s1 i) - uchar (s2 i)
  end.

(** [while(n-- > 0) *d++ = *s++] and [while(n-- > 0) *--d = *--s] *)
Fixpoint copy_up (d s : Z) (n : nat) (m : mem) : mem :=
  match n with
  | O => m
  | S n => copy_up (d + 1) (s + 1) n (<[d := m s]> m)
  end.

Fixpoint copy_down (d s : Z) (n : nat) (m : mem) : mem :=
  match n with
  | O => m
  | S n => copy_down (d - 1) (s - 1) n (<[d - 1 := m (s - 1)]> m)
  end.

Definition memmove (dst src n : Z) (m : mem) : mem :=
  if (src <? dst) && (dst <? src + n)
  then copy_down (dst + n) (src + n) (Z.to_nat n) m
  else copy_up dst src (Z.to_nat n) m.

Definition memcpy (dst src n : Z) (m : mem) : mem := memmove dst src n m.

Fixpoint strncmp_loop (p q : Z → byte) (i : Z) (n : nat) : Z :=
  match n with
  | O => 0
  | S n =>
      if negb (schar (p i) =? 0) && (schar (p i) =? schar (q i)) then strncmp_loop p q (i + 1) n
      else uchar (p i) - uchar (q i)
  end.
Definition strncmp (p q : Z → byte) (n : Z) : Z := strncmp_loop p q 0 (Z.to_nat n).

(** [while(n-- > 0) *s++ = 0] *)
Fixpoint zero_fill (s : Z) (n : nat) (m : mem) : mem :=
  match n with
  | O => m
  | S n => zero_fill (s + 1) n (<[s := Byte.x00]> m)
  end.

Fixpoint strncpy (s t : Z) (n : nat) (m : mem) : mem :=
  match n with
  | O => m
  | S n =>
      let m' := <[s := m t]> m in
      if uchar (m t) =? 0 then zero_fill (s + 1) n m' else strncpy (s + 1) (t + 1) n m'
  end.

(** the body of [safestrcpy] for [n > 0], [n] being one less *)
Fixpoint safestrcpy_loop (s t : Z) (n : nat) (m : mem) : mem :=
  match n with
  | O => <[s := Byte.x00]> m
  | S n =>
      let m' := <[s := m t]> m in
      if uchar (m t) =? 0 then <[s + 1 := Byte.x00]> m' else safestrcpy_loop (s + 1) (t + 1) n m'
  end.
Definition safestrcpy (s t n : Z) (m : mem) : mem :=
  if n <=? 0 then m else safestrcpy_loop s t (Z.to_nat (n - 1)) m.

(** [for(n = 0; s[n]; n++)], up to [fuel] bytes *)
Fixpoint strlen (s : Z → byte) (n : Z) (fuel : nat) : option Z :=
  match fuel with
  | O => None
  | S fuel => if uchar (s n) =? 0 then Some n else strlen s (n + 1) fuel
  end.

End Kstring.

(** The user library's ulib.c *)
Module Ulib.

Definition memset (dst c n : Z) (m : mem) : mem := Kstring.stosb dst c (Z.to_nat n) m.

Definition memmove (vdst vsrc n : Z) (m : mem) : mem := Kstring.copy_up vdst vsrc (Z.to_nat n) m.

Fixpoint strcpy (s t : Z) (fuel : nat) (m : mem) : option mem :=
  match fuel with
  | O => None
  | S fuel =>
      let m' := <[s := m t]> m in
      if uchar (m t) =? 0 then Some m' else strcpy (s + 1) (t + 1) fuel m'
  end.

Fixpoint strcmp (p q : Z → byte) (i : Z) (fuel : nat) : option Z :=
  match fuel with
  | O => None
  | S fuel =>
      if negb (schar (p i) =? 0) && (schar (p i) =? schar (q i)) then strcmp p q (i + 1) fuel
      else Some (uchar (p i) - uchar (q i))
  end.

(** The offset of the first [c], or [None] for the null pointer. *)
Fixpoint strchr (s : Z → byte) (i : Z) (c : byte) (fuel : nat) : option (option Z) :=
  match fuel with
  | O => None
  | S fuel =>
      if uchar (s i) =? 0 then Some None
      else if schar (s i) =? schar c then Some (Some i) else strchr s (i + 1) c fuel
  end.

(** [while('0' <= *s && *s <= '9') n = n*10 + *s++ - '0'], on 32-bit [int] *)
Fixpoint atoi_loop (s : Z → byte) (i n : Z) (fuel : nat) : option Z :=
  match fuel with
  | O => None
  | S fuel =>
      if (48 <=? schar (s i)) && (schar (s i) <=? 57)
      then atoi_loop s (i + 1) (s32 (n * 10 + schar (s i) - 48)) fuel else Some n
  end.
Definition atoi (s : Z → byte) (fuel : nat) : option Z := atoi_loop s 0 0 fuel.

(** [gets]: [input] is what the successive one-byte reads return. *)
Fixpoint gets_loop (buf i max : Z) (input : list byte) (m : mem) : mem * list byte :=
  if i + 1 <? max then
    match input with
    | [] => (<[buf + i := Byte.x00]> m, [])
    | c :: input =>
        let m := <[buf + i := c]> m in
        if (uchar c =? 10) || (uchar c =? 13) then (<[buf + (i + 1) := Byte.x00]> m, input)
        else gets_loop buf (i + 1) max input m
    end
  else (<[buf + i := Byte.x00]> m, input).
Definition gets (buf max : Z) (input : list byte) (m : mem) : mem * list byte := gets_loop buf 0 max input m.

End Ulib.

(** ** Blocks of memory *)

Section blocks.
Implicit Types (m : mem) (a d s : Z).

Lemma stosb_at d c n m a :
  Kstring.stosb d c n m a = if decide (d ≤ a < d + Z.of_nat n) then to_uchar c else m a.
Proof.
  revert d m. induction n as [|n IH]; intros d m; cbn [Kstring.stosb].
  - rewrite decide_False by lia. done.
  - rewrite IH. destruct (decide (a = d)) as [->|Hne].
    + rewrite decide_False, decide_True by lia. apply fn_lookup_insert.
    + rewrite fn_lookup_insert_ne by done. by repeat case_decide; try lia.
Qed.

Lemma byte_of_word c i :
  0 ≤ i < 4 → to_uchar (Z.shiftr (Z.lor (Z.lor (Z.lor (Z.shiftl (Z.land c 255) 24) (Z.shiftl (Z.land c 255) 16))
    (Z.shiftl (Z.land c 255) 8)) (Z.land c 255)) (8 * i)) = to_uchar c.
Proof.
  intros Hi. apply uchar_inj. rewrite !uchar_to_uchar. change 256 with (2 ^ 8). rewrite <-!Z.land_ones by lia.
  apply Z.bits_inj'. intros n Hn. rewrite !Z.land_spec, !Z.shiftr_spec, !Z.lor_spec, !Z.shiftl_spec, !Z.land_spec by lia.
  change 255 with (Z.ones 8). rewrite !Z.testbit_ones by lia.
  assert (i = 0 ∨ i = 1 ∨ i = 2 ∨ i = 3) as [->|[->|[->| ->]]] by lia;
  destruct (Z.ltb_spec n 8); rewrite ?andb_false_r; try done;
  repeat match goal with |- context [0 <=? ?x] => destruct (Z.leb_spec 0 x); try lia end;
  repeat match goal with |- context [?x <? 8] => destruct (Z.ltb_spec x 8); try lia end;
  rewrite ?andb_false_r, ?andb_true_r, ?orb_false_r; cbn [orb andb]; f_equal; lia.
Qed.

Lemma store4_at d c m a :
  Kstring.store4 d (Z.lor (Z.lor (Z.lor (Z.shiftl (Z.land c 255) 24) (Z.shiftl (Z.land c 255) 16))
    (Z.shiftl (Z.land c 255) 8)) (Z.land c 255)) m a =
  if decide (d ≤ a < d + 4) then to_uchar c else m a.
Proof.
  unfold Kstring.store4. set (w := Z.lor _ _).
  pose proof (byte_of_word c 0 ltac:(lia)) as H0. pose proof (byte_of_word c 1 ltac:(lia)) as H1.
  pose proof (byte_of_word c 2 ltac:(lia)) as H2. pose proof (byte_of_word c 3 ltac:(lia)) as H3.
  fold w in H0, H1, H2, H3. change (8 * 0) with 0 in H0.
  rewrite Z.shiftr_0_r in H0. change (8 * 1) with 8 in H1. change (8 * 2) with 16 in H2. change (8 * 3) with 24 in H3.
  rewrite H0, H1, H2, H3. unfold insert, fn_insert. repeat (case_decide; try lia); done.
Qed.

Lemma stosl_at d c n m a :
  Kstring.stosl d (Z.lor (Z.lor (Z.lor (Z.shiftl (Z.land c 255) 24) (Z.shiftl (Z.land c 255) 16))
    (Z.shiftl (Z.land c 255) 8)) (Z.land c 255)) n m a =
  if decide (d ≤ a < d + 4 * Z.of_nat n) then to_uchar c else m a.
Proof.
  revert d m. induction n as [|n IH]; intros d m; cbn [Kstring.stosl].
  - rewrite decide_False by lia. done.
  - rewrite IH, store4_at. by repeat (case_decide; try lia).
Qed.

Lemma memset_spec dst c n m a :
  0 ≤ n →
  Kstring.memset dst c n m a = if decide (dst ≤ a < dst + n) then to_uchar c else m a.
Proof.
  intros Hn. unfold Kstring.memset. destruct (Z.eqb_spec (Z.rem (s32 dst) 4) 0), (Z.eqb_spec (n mod 4) 0); simpl;
    [|by rewrite stosb_at, Z2Nat.id by lia..].
  rewrite stosl_at, Z2Nat.id by (apply Z.div_pos; lia).
  pose proof (Z_div_mod_eq_full n 4). by repeat (case_decide; try lia).
Qed.

(** A forward copy is right unless the source starts below an overlapping target. *)
Lemma copy_up_at d s n m a :
  d ≤ s ∨ s + Z.of_nat n ≤ d →
  Kstring.copy_up d s n m a = if decide (d ≤ a < d + Z.of_nat n) then m (s + (a - d)) else m a.
Proof.
  revert d s m. induction n as [|n IH]; intros d s m Ho; cbn [Kstring.copy_up].
  - rewrite decide_False by lia. done.
  - rewrite IH by lia. unfold insert, fn_insert. repeat (case_decide; try lia); f_equal; lia.
Qed.

Lemma copy_down_at d s n m a :
  s ≤ d →
  Kstring.copy_down d s n m a = if decide (d - Z.of_nat n ≤ a < d) then m (s + (a - d)) else m a.
Proof.
  revert d s m. induction n as [|n IH]; intros d s m Ho; cbn [Kstring.copy_down].
  - rewrite decide_False by lia. done.
  - rewrite IH by lia. unfold insert, fn_insert. repeat (case_decide; try lia); f_equal; lia.
Qed.

Lemma memmove_spec dst src n m a :
  0 ≤ n →
  Kstring.memmove dst src n m a = if decide (dst ≤ a < dst + n) then m (src + (a - dst)) else m a.
Proof.
  intros Hn. unfold Kstring.memmove.
  destruct (Z.ltb_spec src dst), (Z.ltb_spec dst (src + n)); simpl;
    [rewrite copy_down_at by lia|rewrite copy_up_at by lia..];
    rewrite Z2Nat.id by lia; repeat (case_decide; try lia); f_equal; lia.
Qed.
End blocks.

(** ** Strings *)

(** [cstr p l]: the pointer reads the characters [l] and then a NUL. *)
Definition cstr (p : Z → byte) (l : list byte) : Prop :=
  (Byte.x00 ∉ l) ∧ (∀ i c, l !! i = Some c → p (Z.of_nat i) = c) ∧ p (Z.of_nat (length l)) = Byte.x00.

Section strings.
Implicit Types (m : mem) (p q : Z → byte) (l : list byte).

Lemma cstr_chars l : Byte.x00 ∉ l → cstr (chars l) l.
Proof.
  intros H0. split_and!; [done| |].
  - intros i c Hi. unfold chars. rewrite Nat2Z.id. by rewrite (nth_lookup_Some _ _ _ _ Hi).
  - unfold chars. rewrite Nat2Z.id. apply nth_overflow. lia.
Qed.

(** [strlen] stops at the first NUL, within one step more than the length. *)
Lemma strlen_cstr p l fuel :
  cstr p l → (length l < fuel)%nat → Kstring.strlen p 0 fuel = Some (Z.of_nat (length l)).
Proof.
  intros (H0 & Hl & Hend) Hf.
  cut (∀ k fuel, (k ≤ length l)%nat → (length l - k < fuel)%nat →
         Kstring.strlen p (Z.of_nat k) fuel = Some (Z.of_nat (length l))).
  { intros Hc. apply (Hc 0%nat); lia. }
  clear Hf fuel. intros k fuel. revert k. induction fuel as [|fuel IH]; intros k Hk Hf; [lia|]. cbn [Kstring.strlen].
  destruct (decide (k = length l)) as [->|Hne].
  - rewrite Hend. done.
  - destruct (lookup_lt_is_Some_2 l k) as [c Hc]; [lia|]. rewrite (Hl _ _ Hc).
    destruct (Z.eqb_spec (uchar c) 0) as [Hz%uchar_eq_0|].
    { subst. by apply list_elem_of_lookup_2 in Hc. }
    replace (Z.of_nat k + 1) with (Z.of_nat (S k)) by lia. apply IH; lia.
Qed.

Lemma schar_inj_iff a b : schar a = schar b ↔ a = b.
Proof.
  split; [|by intros ->]. unfold schar. intros H. apply uchar_inj.
  pose proof (uchar_range a). pose proof (uchar_range b). repeat case_match; lia.
Qed.

Lemma schar_0 b : schar b = 0 ↔ b = Byte.x00.
Proof. change 0 with (schar Byte.x00) at 1. apply schar_inj_iff. Qed.

(** The loop of [strncmp]: the first position that decides. *)
Lemma strncmp_loop_spec p q n i :
  (∀ j, i ≤ j < i + Z.of_nat n → p j = q j ∧ p j ≠ Byte.x00) ∧ Kstring.strncmp_loop p q i n = 0 ∨
  (∃ j, i ≤ j < i + Z.of_nat n ∧ (∀ j', i ≤ j' < j → p j' = q j' ∧ p j' ≠ Byte.x00) ∧
     (p j = Byte.x00 ∨ p j ≠ q j) ∧ Kstring.strncmp_loop p q i n = uchar (p j) - uchar (q j)).
Proof.
  revert i. induction n as [|n IH]; intros i; cbn [Kstring.strncmp_loop].
  { left. split; [lia|done]. }
  destruct (Z.eqb_spec (schar (p i)) 0) as [H0|H0]; simpl.
  { right. exists i. rewrite schar_0 in H0. split_and!; [lia|lia|lia|by left|done]. }
  destruct (Z.eqb_spec (schar (p i)) (schar (q i))) as [He|He]; simpl.
  - rewrite schar_inj_iff in He. rewrite schar_0 in H0.
    destruct (IH (i + 1)) as [[Ha ->]|(j & Hj & Ha & Hd & ->)].
    + left. split; [|done]. intros j Hj. destruct (decide (j = i)) as [->|]; [done|]. apply Ha. lia.
    + right. exists j. split_and!; [lia|lia| |done|done].
      intros j' Hj'. destruct (decide (j' = i)) as [->|]; [done|]. apply Ha. lia.
  - rewrite schar_inj_iff in He. right. exists i. split_and!; [lia|lia|lia|by right|done].
Qed.

(** [strncmp] returns 0 exactly when the strings agree on their first [n] bytes
    up to and including the first NUL. *)
Definition str_agree (p q : Z → byte) (n : Z) : Prop :=
  ∀ j, 0 ≤ j < n → (∀ j', 0 ≤ j' < j → p j' ≠ Byte.x00) → p j = q j.

Lemma strncmp_zero p q n :
  0 ≤ n → Kstring.strncmp p q n = 0 ↔ str_agree p q n.
Proof.
  intros Hn. unfold Kstring.strncmp, str_agree. pose proof (strncmp_loop_spec p q (Z.to_nat n) 0) as Hl.
  rewrite Z2Nat.id in Hl by done.
  destruct Hl as [[Ha ->]|(j & Hj & Ha & Hd & ->)].
  - split; [|done]. intros _ j Hj _. by apply Ha.
  - split.
    + intros He. assert (Hpq : p j = q j) by (apply uchar_inj; lia).
      intros j' Hj' Hnz. destruct Hd as [Hz|Hd]; [|done].
      destruct (decide (j' ≤ j)) as [Hle|].
      * destruct (decide (j' = j)) as [->|]; [done|]. apply Ha. lia.
      * destruct (Hnz j); [lia|done].
    + intros Hag. rewrite (Hag j Hj); [lia|]. intros j' Hj'. by apply Ha.
Qed.

(** The [n] bytes that [strncpy] stores for the source [t]. *)
Fixpoint strncpy_bytes (t : Z → byte) (i : Z) (n : nat) : list byte :=
  match n with
  | O => []
  | S n => if uchar (t i) =? 0 then replicate (S n) Byte.x00 else t i :: strncpy_bytes t (i + 1) n
  end.

Lemma length_strncpy_bytes t i n : length (strncpy_bytes t i n) = n.
Proof.
  revert i. induction n as [|n IH]; intros i; [done|]. cbn [strncpy_bytes].
  case_match; [apply length_replicate|]. cbn [length]. by rewrite IH.
Qed.

(** Up to the first NUL the copy is the source, and zeroes from there on. *)
Lemma strncpy_bytes_lookup t i n k :
  (k < n)%nat →
  ((∀ j, i ≤ j < i + Z.of_nat k → t j ≠ Byte.x00) → strncpy_bytes t i n !! k = Some (t (i + Z.of_nat k))) ∧
  ((∃ j, i ≤ j < i + Z.of_nat k ∧ t j = Byte.x00) → strncpy_bytes t i n !! k = Some Byte.x00).
Proof.
  revert i k. induction n as [|n IH]; intros i k Hk; [lia|]. cbn [strncpy_bytes].
  destruct (Z.eqb_spec (uchar (t i)) 0) as [H0|H0].
  - rewrite lookup_replicate_2 by done. split; [|done]. intros Hnz. destruct k as [|k].
    + rewrite Z.add_0_r. by apply uchar_eq_0 in H0 as ->.
    + destruct (Hnz i); [lia|]. by apply uchar_eq_0.
  - rewrite uchar_eq_0 in H0. destruct k as [|k].
    + rewrite Z.add_0_r. split; [done|]. intros (j & Hj & _). lia.
    + change ((t i :: strncpy_bytes t (i + 1) n) !! S k) with (strncpy_bytes t (i + 1) n !! k).
      destruct (IH (i + 1) k ltac:(lia)) as [IH1 IH2]. split.
      * intros Hnz. rewrite IH1; [do 2 f_equal; lia|]. intros j Hj. apply Hnz. lia.
      * intros (j & Hj & Ht). apply IH2. exists j. split; [|done].
        destruct (decide (j = i)) as [->|]; [done|]. lia.
Qed.

Lemma zero_fill_at s n m a :
  Kstring.zero_fill s n m a = if decide (s ≤ a < s + Z.of_nat n) then Byte.x00 else m a.
Proof.
  revert s m. induction n as [|n IH]; intros s m; cbn [Kstring.zero_fill].
  - rewrite decide_False by lia. done.
  - rewrite IH. unfold insert, fn_insert. by repeat (case_decide; try lia).
Qed.

Lemma strncpy_bytes_ext t t' i n :
  (∀ j, i ≤ j < i + Z.of_nat n → t j = t' j) → strncpy_bytes t i n = strncpy_bytes t' i n.
Proof.
  revert i. induction n as [|n IH]; intros i He; [done|]. cbn [strncpy_bytes].
  rewrite (He i) by lia. case_match; [done|]. f_equal. apply IH. intros j Hj. apply He. lia.
Qed.

(** [strncpy] stores exactly [strncpy_bytes], and nothing else. *)
Lemma strncpy_at s t n m a :
  s + Z.of_nat n ≤ t ∨ t + Z.of_nat n ≤ s →
  Kstring.strncpy s t n m a =
    if decide (s ≤ a < s + Z.of_nat n)
    then nth (Z.to_nat (a - s)) (strncpy_bytes m t n) Byte.x00 else m a.
Proof.
  revert s t m. induction n as [|n IH]; intros s t m Ho; cbn [Kstring.strncpy strncpy_bytes].
  { rewrite decide_False by lia. done. }
  destruct (Z.eqb_spec (uchar (m t)) 0) as [H0|H0].
  - apply uchar_eq_0 in H0. rewrite zero_fill_at. unfold insert, fn_insert. rewrite H0.
    assert (Hr : ∀ k, nth k (replicate (S n) Byte.x00) Byte.x00 = Byte.x00).
    { intros k. destruct (nth_in_or_default k (replicate (S n) Byte.x00) Byte.x00) as [Hin| ->]; [|done].
      rewrite <-list_elem_of_In in Hin. by apply elem_of_replicate in Hin as [-> _]. }
    rewrite Hr. by repeat (case_decide; try lia).
  - rewrite IH by lia. rewrite (strncpy_bytes_ext _ m) by (intros j Hj; rewrite fn_lookup_insert_ne; [done|lia]).
    unfold insert, fn_insert. repeat (case_decide; try lia); [|subst; by rewrite Z.sub_diag|done].
    replace (Z.to_nat (a - s)) with (S (Z.to_nat (a - (s + 1)))) by lia. done.
Qed.

(** [safestrcpy] leaves a NUL-terminated string of fewer than [n] bytes, the
    source cut to [n - 1] bytes, and does not touch memory outside [n] bytes. *)
Lemma safestrcpy_loop_at s t n m :
  s + Z.of_nat (S n) ≤ t ∨ t + Z.of_nat (S n) ≤ s →
  (∀ a, a < s ∨ s + Z.of_nat (S n) ≤ a → Kstring.safestrcpy_loop s t n m a = m a) ∧
  ∃ k, (k ≤ n)%nat ∧ Kstring.safestrcpy_loop s t n m (s + Z.of_nat k) = Byte.x00 ∧
    (∀ j, 0 ≤ j < Z.of_nat k → m (t + j) ≠ Byte.x00 ∧ Kstring.safestrcpy_loop s t n m (s + j) = m (t + j)) ∧
    ((k < n)%nat → m (t + Z.of_nat k) = Byte.x00).
Proof.
  revert s t m. induction n as [|n IH]; intros s t m Ho; cbn [Kstring.safestrcpy_loop].
  { split; [intros a Ha; apply fn_lookup_insert_ne; lia|]. exists 0%nat.
    rewrite Z.add_0_r, fn_lookup_insert. split_and!; [lia|done|lia|lia]. }
  destruct (Z.eqb_spec (uchar (m t)) 0) as [H0|H0].
  - split; [intros a Ha; rewrite !fn_lookup_insert_ne by lia; done|]. apply uchar_eq_0 in H0.
    exists 0%nat. rewrite !Z.add_0_r. rewrite fn_lookup_insert_ne, fn_lookup_insert by lia.
    split_and!; [lia|done|lia|done].
  - destruct (IH (s + 1) (t + 1) (<[s := m t]> m) ltac:(lia)) as [Hout (k & Hk & Hz & Hc & Hend)].
    set (m' := Kstring.safestrcpy_loop _ _ _ _) in *. split.
    { intros a Ha. rewrite Hout by lia. apply fn_lookup_insert_ne. lia. }
    exists (S k). rewrite uchar_eq_0 in H0. split_and!; [lia| | |].
    + by replace (s + Z.of_nat (S k)) with (s + 1 + Z.of_nat k) by lia.
    + intros j Hj. destruct (decide (j = 0)) as [->|Hne].
      * rewrite !Z.add_0_r. rewrite Hout by lia. rewrite fn_lookup_insert. done.
      * destruct (Hc (j - 1) ltac:(lia)) as [Hc1 Hc2].
        replace (t + 1 + (j - 1)) with (t + j) in * by lia. replace (s + 1 + (j - 1)) with (s + j) in Hc2 by lia.
        rewrite fn_lookup_insert_ne in Hc1, Hc2 by lia. done.
    + intros Hlt. rewrite <-Hend by lia. rewrite fn_lookup_insert_ne by lia. f_equal. lia.
Qed.
End strings.

(** [memmove] copies the source as it was before the call, also when the two overlap. *)
Theorem memmove_overlap_correct (dst src n : Z) (m : mem) :
  0 ≤ n →
  (∀ a, Kstring.memmove dst src n m a = if decide (dst ≤ a < dst + n) then m (src + (a - dst)) else m a) ∧
  (∀ a, Kstring.memmove dst src n m a = Kstring.memcpy dst src n m a) ∧
  (∀ a, dst ≤ src ∨ src + n ≤ dst → Ulib.memmove dst src n m a = Kstring.memmove dst src n m a).
Proof.
  intros Hn. split_and!; [intros a; by apply memmove_spec|done|].
  intros a Ho. rewrite memmove_spec by done. unfold Ulib.memmove.
  rewrite copy_up_at by lia. by rewrite Z2Nat.id by lia.
Qed.

(** [safestrcpy] stays within its buffer and ends it with a NUL. *)
Theorem safestrcpy_safe (s t n : Z) (m : mem) :
  0 < n → s + n ≤ t ∨ t + n ≤ s →
  let m' := Kstring.safestrcpy s t n m in
  (∀ a, a < s ∨ s + n ≤ a → m' a = m a) ∧
  ∃ k, 0 ≤ k < n ∧ m' (s + k) = Byte.x00 ∧
    (∀ j, 0 ≤ j < k → m (t + j) ≠ Byte.x00 ∧ m' (s + j) = m (t + j)) ∧
    (k < n - 1 → m (t + k) = Byte.x00).
Proof.
  intros Hn Ho m'. unfold m', Kstring.safestrcpy. rewrite (proj2 (Z.leb_gt _ _)) by lia.
  destruct (safestrcpy_loop_at s t (Z.to_nat (n - 1)) m) as [Hout (k & Hk & Hz & Hc & Hend)]; [lia|].
  split; [intros a Ha; apply Hout; lia|]. exists (Z.of_nat k). split_and!; [lia|lia|done|done|].
  intros Hlt. apply Hend. lia.
Qed.

(** The kernel's own use: an overlapping move up by one byte. *)
Definition ex_mem : mem := λ a, to_uchar (a * 7).

Lemma memmove_overlap_correct_witness :
  (∀ a, Kstring.memmove 101 100 8 ex_mem a = if decide (101 ≤ a < 101 + 8) then ex_mem (100 + (a - 101)) else ex_mem a) ∧
  (∀ a, Kstring.memmove 101 100 8 ex_mem a = Kstring.memcpy 101 100 8 ex_mem a) ∧
  (∀ a, 101 ≤ 100 ∨ 100 + 8 ≤ 101 → Ulib.memmove 101 100 8 ex_mem a = Kstring.memmove 101 100 8 ex_mem a).
Proof. apply (memmove_overlap_correct 101 100 8 ex_mem). lia. Defined.

Lemma safestrcpy_safe_witness :
  let m' := Kstring.safestrcpy 0 64 16 ex_mem in
  (∀ a, a < 0 ∨ 0 + 16 ≤ a → m' a = ex_mem a) ∧
  ∃ k, 0 ≤ k < 16 ∧ m' (0 + k) = Byte.x00 ∧
    (∀ j, 0 ≤ j < k → ex_mem (64 + j) ≠ Byte.x00 ∧ m' (0 + j) = ex_mem (64 + j)) ∧
    (k < 16 - 1 → ex_mem (64 + k) = Byte.x00).
Proof. apply (safestrcpy_safe 0 64 16 ex_mem); lia. Defined.
