(* ===== verification/Fs.v ===== *)
(** * The file system (src/fs.c, src/fs.h, src/file.h)

    Blocks, inodes, directories and names over the transactional block store of
    [Tx].  Buffers are the numbers the store hands out; a [struct inode *] is an
    index of the inode cache; the spin lock of the cache makes its sections
    atomic and the sleep lock of each inode is kept.  The device switch is a
    pair of parameters: the read and write functions of a major number. *)

From S2P Require Import Prelude Dll Sleeplock Bio Memide FsLayout Log LogCrash LogProtocol Tx CString.

Definition NINODE : nat := 50.
Definition NDEV : Z := 10.
Definition NDIRECT : Z := 12.
Definition NINDIRECT : Z := Z.of_nat BSIZE / 4.
Definition MAXFILE : Z := NDIRECT + NINDIRECT.
Definition DINODE_SIZE : nat := 64.
Definition IPB : Z := Z.of_nat BSIZE / Z.of_nat DINODE_SIZE.
Definition IBLOCK (i : Z) (sb : superblock) : Z := u32 (i / IPB + sb_inodestart sb).
Definition BPB : Z := Z.of_nat BSIZE * 8.
Definition BBLOCK (b : Z) (sb : superblock) : Z := u32 (b / BPB + sb_bmapstart sb).
Definition DIRSIZ : nat := 14.
Definition T_DIR : Z := 1.
Definition T_FILE : Z := 2.
Definition T_DEV : Z := 3.

(** [struct inode]: the in-memory copy of an inode *)
Record inode : Type := mkInode {
  i_dev : Z; i_inum : Z; i_ref : Z; i_lock : sleeplock; i_valid : Z;
  i_type : Z; i_major : Z; i_minor : Z; i_nlink : Z; i_size : Z;
  i_addrs : list Z;
}.

Definition zero_inode : inode := mkInode 0 0 0 initsleeplock 0 0 0 0 0 0 (replicate 13 0).
#[global] Instance inode_inhabited : Inhabited inode := populate zero_inode.

Definition set_iref v i := mkInode (i_dev i) (i_inum i) v (i_lock i) (i_valid i) (i_type i) (i_major i) (i_minor i) (i_nlink i) (i_size i) (i_addrs i).
Definition set_ilock v i := mkInode (i_dev i) (i_inum i) (i_ref i) v (i_valid i) (i_type i) (i_major i) (i_minor i) (i_nlink i) (i_size i) (i_addrs i).
Definition set_ivalid v i := mkInode (i_dev i) (i_inum i) (i_ref i) (i_lock i) v (i_type i) (i_major i) (i_minor i) (i_nlink i) (i_size i) (i_addrs i).
Definition set_itype v i := mkInode (i_dev i) (i_inum i) (i_ref i) (i_lock i) (i_valid i) v (i_major i) (i_minor i) (i_nlink i) (i_size i) (i_addrs i).
Definition set_imeta maj min nl i := mkInode (i_dev i) (i_inum i) (i_ref i) (i_lock i) (i_valid i) (i_type i) maj min nl (i_size i) (i_addrs i).
Definition set_isize v i := mkInode (i_dev i) (i_inum i) (i_ref i) (i_lock i) (i_valid i) (i_type i) (i_major i) (i_minor i) (i_nlink i) v (i_addrs i).
Definition set_iaddrs v i := mkInode (i_dev i) (i_inum i) (i_ref i) (i_lock i) (i_valid i) (i_type i) (i_major i) (i_minor i) (i_nlink i) (i_size i) v.

(** [struct stat] as [stati] fills it *)
Record stat : Type := mkStat { st_type : Z; st_dev : Z; st_ino : Z; st_nlink : Z; st_size : Z }.

(** [struct dinode] number [inum % IPB] of a block: the fields at their offsets *)
Definition dinode_off (inum : Z) : nat := DINODE_SIZE * Z.to_nat (inum mod IPB).

Fixpoint ld_words (n off : nat) (d : list byte) : list Z :=
  match n with O => [] | S n => ld 4 off d :: ld_words n (off + 4) d end.
Fixpoint st_words (ws : list Z) (off : nat) (d : list byte) : list byte :=
  match ws with [] => d | w :: ws => st_words ws (off + 4) (st 4 off w d) end.

Definition dip_type (inum : Z) (d : list byte) : Z := s16 (ld 2 (dinode_off inum) d).

(** The copy of [dip]'s fields into [ip] that [ilock] performs. *)
Definition dinode_read (inum : Z) (d : list byte) (ip : inode) : inode :=
  let o := dinode_off inum in
  set_iaddrs (ld_words 13 (o + 12) d)
    (set_isize (ld 4 (o + 8) d)
      (set_imeta (s16 (ld 2 (o + 2) d)) (s16 (ld 2 (o + 4) d)) (s16 (ld 2 (o + 6) d))
        (set_itype (s16 (ld 2 o d)) ip))).

(** The copy of [ip]'s fields into [dip] that [iupdate] performs. *)
Definition dinode_write (ip : inode) (d : list byte) : list byte :=
  let o := dinode_off (i_inum ip) in
  st_words (i_addrs ip) (o + 12)
    (st 4 (o + 8) (i_size ip) (st 2 (o + 6) (i_nlink ip) (st 2 (o + 4) (i_minor ip)
      (st 2 (o + 2) (i_major ip) (st 2 o (i_type ip) d))))).

(** [memset(dip, 0, sizeof( *dip)); dip->type = type] *)
Definition dinode_clear (inum type : Z) (d : list byte) : list byte :=
  let o := dinode_off inum in st 2 o type (blit o (replicate DINODE_SIZE Byte.x00) d).

(** Bit [bi] of a bitmap block, as [bp->data[bi/8] & m] with [m = 1 << (bi % 8)] reads it. *)
Definition bit_mask (bi : Z) : Z := Z.shiftl 1 (bi mod 8).
Definition data_at (d : list byte) (i : Z) : byte := nth (Z.to_nat i) d Byte.x00.
Definition bit_free (d : list byte) (bi : Z) : bool :=
  Z.land (uchar (data_at d (bi / 8))) (bit_mask bi) =? 0.
Definition bit_set (d : list byte) (bi : Z) : list byte :=
  <[Z.to_nat (bi / 8) := to_uchar (Z.lor (uchar (data_at d (bi / 8))) (bit_mask bi))]> d.
Definition bit_clear (d : list byte) (bi : Z) : list byte :=
  <[Z.to_nat (bi / 8) := to_uchar (Z.land (uchar (data_at d (bi / 8))) (Z.lnot (bit_mask bi)))]> d.

(** [balloc]'s inner loop: the first free bit from [bi] on, [n] bits at most. *)
Fixpoint find_free (d : list byte) (b bi size : Z) (n : nat) : option Z :=
  match n with
  | O => None
  | S n =>
      if b + bi <? size then
        if bit_free d bi then Some bi else find_free d b (bi + 1) size n
      else None
  end.

(** [struct dirent] *)
Definition DIRENT_SIZE : Z := 16.
Definition de_inum (d : list byte) : Z := ld 2 0 d.
Definition de_name (d : list byte) : list byte := take DIRSIZ (drop 2 d).
Definition mk_dirent (inum : Z) (name : list byte) : list byte := le_bytes 2 inum ++ name.

Record fsst (S : Type) : Type := mkFsst {
  fs_st : S;                (* the block store *)
  fs_sb : superblock;       (* sb *)
  fs_inode : list inode;    (* icache.inode *)
  fs_pid : Z;               (* myproc()->pid *)
  fs_cwd : nat;             (* myproc()->cwd *)
}.
Arguments mkFsst {S}. Arguments fs_st {S}. Arguments fs_sb {S}. Arguments fs_inode {S}.
Arguments fs_pid {S}. Arguments fs_cwd {S}.

Section ops.
Context {S : Type} {ops : TxStore S}.
Abbreviation F := (M (fsst S)).

Definition liftS {A} (m : M S A) : F A := λ s,
  match m (fs_st s) with
  | Ok a st => Ok a (mkFsst st (fs_sb s) (fs_inode s) (fs_pid s) (fs_cwd s))
  | Blocked st => Blocked (mkFsst st (fs_sb s) (fs_inode s) (fs_pid s) (fs_cwd s))
  | Panic msg => Panic msg
  end.

Definition upd_inode (ip : nat) (f : inode → inode) : F unit :=
  modify (λ s, mkFsst (fs_st s) (fs_sb s) (alter f ip (fs_inode s)) (fs_pid s) (fs_cwd s)).

Definition get_inode (ip : nat) : F inode := s ← getS; mret (fs_inode s !!! ip).

Definition get_data (bp : nat) : F (list byte) := s ← getS; mret (tx_data (fs_st s) bp).

Definition set_sb (sb : superblock) : F unit :=
  modify (λ s, mkFsst (fs_st s) sb (fs_inode s) (fs_pid s) (fs_cwd s)).

(** [readsb(dev, &sb)] over the store *)
Definition read_sb (dev : Z) : F superblock :=
  bp ← liftS (tx_bread dev 1);
  d ← get_data bp;
  liftS (tx_brelse bp);;
  mret (sb_decode d).

(** Zero a block. *)
Definition bzero (dev bno : Z) : F unit :=
  bp ← liftS (tx_bread dev bno);
  liftS (tx_put bp (replicate BSIZE Byte.x00));;
  liftS (tx_log_write bp);;
  liftS (tx_brelse bp).

(** Allocate a zeroed disk block. *)
Fixpoint balloc_from (dev b : Z) (fuel : nat) : F Z :=
  match fuel with
  | O => panic "balloc: out of blocks"
  | Datatypes.S fuel =>
      s ← getS;
      let sb := fs_sb s in
      if b <? sb_size sb then
        bp ← liftS (tx_bread dev (BBLOCK b sb));
        d ← get_data bp;
        match find_free d b 0 (sb_size sb) (Z.to_nat BPB) with
        | Some bi =>
            liftS (tx_put bp (bit_set d bi));;
            liftS (tx_log_write bp);;
            liftS (tx_brelse bp);;
            bzero dev (b + bi);;
            mret (b + bi)
        | None =>
            liftS (tx_brelse bp);;
            balloc_from dev (b + BPB) fuel
        end
      else panic "balloc: out of blocks"
  end.

(** one bitmap block per iteration *)
Definition balloc (dev : Z) : F Z :=
  s ← getS;
  balloc_from dev 0 (Z.to_nat (sb_size (fs_sb s) / BPB + 1)).

(** Free a disk block. *)
Definition bfree (dev b : Z) : F unit :=
  sb ← read_sb dev;
  set_sb sb;;
  bp ← liftS (tx_bread dev (BBLOCK b sb));
  d ← get_data bp;
  let bi := b mod BPB in
  if bit_free d bi then panic "freeing free block"
  else
    liftS (tx_put bp (bit_clear d bi));;
    liftS (tx_log_write bp);;
    liftS (tx_brelse bp).

Definition iinit (dev : Z) : F unit :=
  mfor 0 NINODE (λ i, upd_inode i (set_ilock initsleeplock));;
  sb ← read_sb dev;
  set_sb sb.

(** The scan of the cache in [iget]: the entry of [(dev, inum)] if it has one,
    and the first empty slot. *)
Fixpoint iget_scan (l : list inode) (dev inum : Z) (i : nat) (empty : option nat) : option nat * option nat :=
  match l with
  | [] => (None, empty)
  | ip :: l =>
      if (0 <? i_ref ip) && (i_dev ip =? dev) && (i_inum ip =? inum) then (Some i, empty)
      else
        let empty := match empty with
          | None => if i_ref ip =? 0 then Some i else None
          | _ => empty end in
        iget_scan l dev inum (Datatypes.S i) empty
  end.

(** Find the inode with number inum on device dev and return the in-memory copy. *)
Definition iget (dev inum : Z) : F nat :=
  s ← getS;
  match iget_scan (fs_inode s) dev inum 0 None with
  | (Some ip, _) => upd_inode ip (λ x, set_iref (i_ref x + 1) x);; mret ip
  | (None, None) => panic "iget: no inodes"
  | (None, Some ip) =>
      upd_inode ip (λ x, mkInode dev inum 1 (i_lock x) 0 (i_type x) (i_major x) (i_minor x) (i_nlink x) (i_size x) (i_addrs x));;
      mret ip
  end.

(** Increment reference count for ip. *)
Definition idup (ip : nat) : F nat :=
  upd_inode ip (λ x, set_iref (i_ref x + 1) x);; mret ip.

(** Allocate an inode on device dev. *)
Fixpoint ialloc_from (dev type inum : Z) (fuel : nat) : F nat :=
  match fuel with
  | O => panic "ialloc: no inodes"
  | Datatypes.S fuel =>
      s ← getS;
      if inum <? sb_ninodes (fs_sb s) then
        bp ← liftS (tx_bread dev (IBLOCK inum (fs_sb s)));
        d ← get_data bp;
        if dip_type inum d =? 0 then
          liftS (tx_put bp (dinode_clear inum type d));;
          liftS (tx_log_write bp);;
          liftS (tx_brelse bp);;
          iget dev inum
        else
          liftS (tx_brelse bp);;
          ialloc_from dev type (inum + 1) fuel
      else panic "ialloc: no inodes"
  end.

Definition ialloc (dev type : Z) : F nat :=
  s ← getS;
  ialloc_from dev type 1 (Z.to_nat (sb_ninodes (fs_sb s))).

(** Copy a modified in-memory inode to disk. *)
Definition iupdate (ip : nat) : F unit :=
  s ← getS;
  x ← get_inode ip;
  bp ← liftS (tx_bread (i_dev x) (IBLOCK (i_inum x) (fs_sb s)));
  d ← get_data bp;
  liftS (tx_put bp (dinode_write x d));;
  liftS (tx_log_write bp);;
  liftS (tx_brelse bp).

(** [acquiresleep(&ip->lock)] *)
Definition lock_inode (ip : nat) : F unit :=
  s ← getS;
  match acquiresleep (fs_pid s) (i_lock (fs_inode s !!! ip)) with
  | None => sleeps
  | Some lk => upd_inode ip (set_ilock lk)
  end.

(** Lock the given inode; reads the inode from disk if necessary. *)
Definition ilock (ip : nat) : F unit :=
  x ← get_inode ip;
  if i_ref x <? 1 then panic "ilock"
  else
    lock_inode ip;;
    x ← get_inode ip;
    if i_valid x =? 0 then
      s ← getS;
      bp ← liftS (tx_bread (i_dev x) (IBLOCK (i_inum x) (fs_sb s)));
      d ← get_data bp;
      upd_inode ip (dinode_read (i_inum x) d);;
      liftS (tx_brelse bp);;
      upd_inode ip (set_ivalid 1);;
      x ← get_inode ip;
      if i_type x =? 0 then panic "ilock: no type" else mret tt
    else mret tt.

(** Unlock the given inode. *)
Definition iunlock (ip : nat) : F unit :=
  s ← getS;
  let x := fs_inode s !!! ip in
  if negb (holdingsleep (fs_pid s) (i_lock x)) || (i_ref x <? 1) then panic "iunlock"
  else upd_inode ip (λ x, set_ilock (releasesleep (i_lock x)) x).

(** The entry [bn] of the indirect block [addr], allocated if it is 0. *)
Definition bmap_indirect (dev addr bn : Z) : F Z :=
  bp ← liftS (tx_bread dev addr);
  d ← get_data bp;
  let a := ld 4 (4 * Z.to_nat bn) d in
  a ← (if a =? 0 then
         a ← balloc dev;
         d ← get_data bp;
         liftS (tx_put bp (st 4 (4 * Z.to_nat bn) a d));;
         liftS (tx_log_write bp);;
         mret a
       else mret a);
  liftS (tx_brelse bp);;
  mret a.

(** Return the disk block address of the nth block in inode ip; if there is no
    such block, bmap allocates one. *)
Definition bmap (ip : nat) (bn : Z) : F Z :=
  x ← get_inode ip;
  if bn <? NDIRECT then
    let addr := i_addrs x !!! Z.to_nat bn in
    if addr =? 0 then
      addr ← balloc (i_dev x);
      upd_inode ip (λ x, set_iaddrs (<[Z.to_nat bn := addr]> (i_addrs x)) x);;
      mret addr
    else mret addr
  else
    let bn := bn - NDIRECT in
    if bn <? NINDIRECT then
      let addr := i_addrs x !!! Z.to_nat NDIRECT in
      addr ← (if addr =? 0 then
                addr ← balloc (i_dev x);
                upd_inode ip (λ x, set_iaddrs (<[Z.to_nat NDIRECT := addr]> (i_addrs x)) x);;
                mret addr
              else mret addr);
      bmap_indirect (i_dev x) addr bn
    else panic "bmap: out of range".

(** Truncate inode (discard contents). *)
Definition itrunc (ip : nat) : F unit :=
  x ← get_inode ip;
  mfor 0 (Z.to_nat NDIRECT) (λ i,
    x ← get_inode ip;
    if i_addrs x !!! i =? 0 then mret tt
    else
      bfree (i_dev x) (i_addrs x !!! i);;
      upd_inode ip (λ x, set_iaddrs (<[i := 0]> (i_addrs x)) x));;
  x ← get_inode ip;
  (if i_addrs x !!! Z.to_nat NDIRECT =? 0 then mret tt
   else
     bp ← liftS (tx_bread (i_dev x) (i_addrs x !!! Z.to_nat NDIRECT));
     mfor 0 (Z.to_nat NINDIRECT) (λ j,
       d ← get_data bp;
       if ld 4 (4 * j) d =? 0 then mret tt else bfree (i_dev x) (ld 4 (4 * j) d));;
     liftS (tx_brelse bp);;
     bfree (i_dev x) (i_addrs x !!! Z.to_nat NDIRECT);;
     upd_inode ip (λ x, set_iaddrs (<[Z.to_nat NDIRECT := 0]> (i_addrs x)) x));;
  upd_inode ip (set_isize 0);;
  iupdate ip.

(** Drop a reference to an in-memory inode. *)
Definition iput (ip : nat) : F unit :=
  lock_inode ip;;
  x ← get_inode ip;
  (if negb (i_valid x =? 0) && (i_nlink x =? 0) then
     if i_ref x =? 1 then
       itrunc ip;;
       upd_inode ip (set_itype 0);;
       iupdate ip;;
       upd_inode ip (set_ivalid 0)
     else mret tt
   else mret tt);;
  upd_inode ip (λ x, set_ilock (releasesleep (i_lock x)) x);;
  upd_inode ip (λ x, set_iref (i_ref x - 1) x).

(** Common idiom: unlock, then put. *)
Definition iunlockput (ip : nat) : F unit := iunlock ip;; iput ip.

(** Copy stat information from inode. *)
Definition stati (ip : nat) : F stat :=
  x ← get_inode ip;
  mret (mkStat (i_type x) (i_dev x) (i_inum x) (i_nlink x) (i_size x)).

Section devices.
(** [devsw[major].read] and [.write]; [None] is the null pointer. *)
Context (devread : Z → option (nat → Z → F (Z * list byte))).
Context (devwrite : Z → option (nat → list byte → Z → F Z)).

(** The copy loop of [readi]: [tot] bytes of [n] are done, [acc] read so far. *)
Fixpoint readi_loop (ip : nat) (off tot n : Z) (acc : list byte) (fuel : nat) : F (list byte) :=
  match fuel with
  | O => mret acc
  | Datatypes.S fuel =>
      if tot <? n then
        x ← get_inode ip;
        addr ← bmap ip (off / Z.of_nat BSIZE);
        bp ← liftS (tx_bread (i_dev x) addr);
        d ← get_data bp;
        let m := Z.min (n - tot) (Z.of_nat BSIZE - off mod Z.of_nat BSIZE) in
        liftS (tx_brelse bp);;
        readi_loop ip (off + m) (tot + m) n
          (acc ++ take (Z.to_nat m) (drop (Z.to_nat (off mod Z.of_nat BSIZE)) d)) fuel
      else mret acc
  end.

(** Iterations enough for [n] bytes: one per block touched. *)
Definition copy_fuel (n : Z) : nat := Z.to_nat (n / Z.of_nat BSIZE + 2).

(** Read data from inode: the count returned and the bytes copied to [dst]. *)
Definition readi (ip : nat) (off n : Z) : F (Z * list byte) :=
  x ← get_inode ip;
  if i_type x =? T_DEV then
    if (i_major x <? 0) || (NDEV <=? i_major x) then mret (-1, [])
    else match devread (i_major x) with
         | None => mret (-1, [])
         | Some read => read ip n
         end
  else if (i_size x <? off) || (u32 (off + n) <? off) then mret (-1, [])
  else
    let n := if i_size x <? off + n then i_size x - off else n in
    bs ← readi_loop ip off 0 n [] (copy_fuel n);
    mret (n, bs).

(** The copy loop of [writei]; [src] is the data not yet written. *)
Fixpoint writei_loop (ip : nat) (src : list byte) (off tot n : Z) (fuel : nat) : F Z :=
  match fuel with
  | O => mret off
  | Datatypes.S fuel =>
      if tot <? n then
        x ← get_inode ip;
        addr ← bmap ip (off / Z.of_nat BSIZE);
        bp ← liftS (tx_bread (i_dev x) addr);
        d ← get_data bp;
        let m := Z.min (n - tot) (Z.of_nat BSIZE - off mod Z.of_nat BSIZE) in
        liftS (tx_put bp (blit (Z.to_nat (off mod Z.of_nat BSIZE)) (take (Z.to_nat m) src) d));;
        liftS (tx_log_write bp);;
        liftS (tx_brelse bp);;
        writei_loop ip (drop (Z.to_nat m) src) (off + m) (tot + m) n fuel
      else mret off
  end.

(** Write data to inode. *)
Definition writei (ip : nat) (src : list byte) (off n : Z) : F Z :=
  x ← get_inode ip;
  if i_type x =? T_DEV then
    if (i_major x <? 0) || (NDEV <=? i_major x) then mret (-1)
    else match devwrite (i_major x) with
         | None => mret (-1)
         | Some write => write ip src n
         end
  else if (i_size x <? off) || (u32 (off + n) <? off) then mret (-1)
  else if MAXFILE * Z.of_nat BSIZE <? off + n then mret (-1)
  else
    off ← writei_loop ip src off 0 n (copy_fuel n);
    x ← get_inode ip;
    (if (0 <? n) && (i_size x <? off) then
       upd_inode ip (set_isize off);;
       iupdate ip
     else mret tt);;
    mret n.

Definition namecmp (s t : Z → byte) : Z := Kstring.strncmp s t (Z.of_nat DIRSIZ).

(** Look for a directory entry in a directory: the inode and its offset. *)
Fixpoint dirlookup_from (dp : nat) (name : Z → byte) (off : Z) (fuel : nat) : F (option (nat * Z)) :=
  match fuel with
  | O => mret None
  | Datatypes.S fuel =>
      x ← get_inode dp;
      if off <? i_size x then
        '(r, de) ← readi dp off DIRENT_SIZE;
        if negb (r =? DIRENT_SIZE) then panic "dirlookup read"
        else if de_inum de =? 0 then dirlookup_from dp name (off + DIRENT_SIZE) fuel
        else if namecmp name (chars (de_name de)) =? 0 then
          ip ← iget (i_dev x) (de_inum de);
          mret (Some (ip, off))
        else dirlookup_from dp name (off + DIRENT_SIZE) fuel
      else mret None
  end.

Definition dir_fuel (size : Z) : nat := Z.to_nat (size / DIRENT_SIZE + 2).

Definition dirlookup (dp : nat) (name : Z → byte) : F (option (nat * Z)) :=
  x ← get_inode dp;
  if negb (i_type x =? T_DIR) then panic "dirlookup not DIR"
  else dirlookup_from dp name 0 (dir_fuel (i_size x)).

(** [dirlink]'s search for an empty entry *)
Fixpoint dirlink_slot (dp : nat) (off : Z) (fuel : nat) : F Z :=
  match fuel with
  | O => mret off
  | Datatypes.S fuel =>
      x ← get_inode dp;
      if off <? i_size x then
        '(r, de) ← readi dp off DIRENT_SIZE;
        if negb (r =? DIRENT_SIZE) then panic "dirlink read"
        else if de_inum de =? 0 then mret off
        else dirlink_slot dp (off + DIRENT_SIZE) fuel
      else mret off
  end.

(** Write a new directory entry (name, inum) into the directory dp. *)
Definition dirlink (dp : nat) (name : Z → byte) (inum : Z) : F Z :=
  r ← dirlookup dp name;
  match r with
  | Some (ip, _) => iput ip;; mret (-1)
  | None =>
      x ← get_inode dp;
      off ← dirlink_slot dp 0 (dir_fuel (i_size x));
      r ← writei dp (mk_dirent inum (strncpy_bytes name 0 DIRSIZ)) off DIRENT_SIZE;
      if negb (r =? DIRENT_SIZE) then panic "dirlink" else mret 0
  end.
End devices.
End ops.

(** ** Paths *)

Definition slash : byte := Byte.x2f.

Fixpoint skip_slashes (path : list byte) : list byte :=
  match path with
  | c :: p => if decide (c = slash) then skip_slashes p else path
  | [] => []
  end.

(** the characters up to the next slash, and what follows them *)
Fixpoint span_elem (path : list byte) : list byte * list byte :=
  match path with
  | c :: p => if decide (c = slash) then ([], path) else let '(e, r) := span_elem p in (c :: e, r)
  | [] => ([], [])
  end.

(** Copy the next path element from path into name; [path] lists the characters
    before the NUL, [name] is the contents of the [DIRSIZ]-byte buffer. *)
Definition skipelem (path name : list byte) : option (list byte * list byte) :=
  match skip_slashes path with
  | [] => None
  | s =>
      let '(e, rest) := span_elem s in
      let name := if (DIRSIZ <=? length e)%nat then blit 0 (take DIRSIZ e) name
                  else blit 0 (e ++ [Byte.x00]) name in
      Some (skip_slashes rest, name)
  end.

Section names.
Context {S : Type} {ops : TxStore S}.
Context (devread : Z → option (nat → Z → M (fsst S) (Z * list byte))).

(** The loop of [namex], from inode [ip] *)
Fixpoint namex_loop (ip : nat) (path : list byte) (nameiparent : bool) (name : list byte) (fuel : nat)
    : M (fsst S) (option nat * list byte) :=
  match fuel with
  | O => mret (None, name)
  | Datatypes.S fuel =>
      match skipelem path name with
      | None => if nameiparent then iput ip;; mret (None, name) else mret (Some ip, name)
      | Some (path, name) =>
          ilock ip;;
          x ← get_inode ip;
          if negb (i_type x =? T_DIR) then iunlockput ip;; mret (None, name)
          else if nameiparent && bool_decide (path = []) then iunlock ip;; mret (Some ip, name)
          else
            r ← dirlookup devread ip (chars name);
            match r with
            | None => iunlockput ip;; mret (None, name)
            | Some (next, _) => iunlockput ip;; namex_loop next path nameiparent name fuel
            end
      end
  end.

(** Look up and return the inode for a path name. *)
Definition namex (path : list byte) (nameiparent : bool) (name : list byte) : M (fsst S) (option nat * list byte) :=
  s ← getS;
  ip ← (if bool_decide (head path = Some slash) then iget ROOTDEV ROOTINO else idup (fs_cwd s));
  namex_loop ip path nameiparent name (length path + 1).

Definition namei (path : list byte) : M (fsst S) (option nat) :=
  r ← namex path false (replicate DIRSIZ Byte.x00); mret r.1.

Definition nameiparent (path name : list byte) : M (fsst S) (option nat * list byte) := namex path true name.
End names.
