(* ===== verification/FsAlloc.v ===== *)
(** * The block allocator (src/fs.c: [bzero], [balloc], [bfree])

    The free bitmap as a predicate on block numbers, and what the allocator does
    to it and to the blocks. *)

From S2P Require Import Prelude Dll Sleeplock Bio Memide FsLayout Log LogCrash LogProtocol Tx CString Fs.

(** ** Bits of a bitmap block *)

Section bits.
Implicit Types (d : list byte) (bi : Z).

Lemma testbit_mask bi n : 0 ≤ bi → 0 ≤ n → Z.testbit (bit_mask bi) n = bool_decide (n = bi mod 8).
Proof.
  intros Hbi Hn. unfold bit_mask. pose proof (Z.mod_pos_bound bi 8 ltac:(lia)).
  rewrite Z.shiftl_spec by lia. destruct (decide (n = bi mod 8)) as [->|Hne].
  - by rewrite Z.sub_diag, bool_decide_true.
  - rewrite bool_decide_false by done. destruct (decide (n < bi mod 8)).
    + apply Z.testbit_neg_r. lia.
    + apply Z.bits_above_log2; simpl; lia.
Qed.

Lemma bit_mask_land z bi : 0 ≤ bi → Z.land z (bit_mask bi) = 0 ↔ Z.testbit z (bi mod 8) = false.
Proof.
  intros Hbi. pose proof (Z.mod_pos_bound bi 8 ltac:(lia)) as Hm. split.
  - intros H. assert (Hb : Z.testbit (Z.land z (bit_mask bi)) (bi mod 8) = false) by (rewrite H; apply Z.bits_0).
    rewrite Z.land_spec, testbit_mask, bool_decide_true in Hb by lia. by rewrite andb_true_r in Hb.
  - intros H. apply Z.bits_inj'. intros n Hn. rewrite Z.bits_0, Z.land_spec, testbit_mask by lia.
    case_bool_decide; [subst; by rewrite H|apply andb_false_r].
Qed.

(** The bit as a boolean of the byte that holds it. *)
Lemma bit_free_testbit d bi :
  0 ≤ bi → bit_free d bi = negb (Z.testbit (uchar (data_at d (bi / 8))) (bi mod 8)).
Proof.
  intros Hbi. unfold bit_free. pose proof (bit_mask_land (uchar (data_at d (bi / 8))) bi Hbi) as H.
  destruct (Z.eqb_spec (Z.land (uchar (data_at d (bi / 8))) (bit_mask bi)) 0) as [E|E], (Z.testbit _ _); naive_solver.
Qed.

Lemma data_at_insert d i j b :
  (i < length d)%nat → 0 ≤ j → data_at (<[i := b]> d) j = if decide (j = Z.of_nat i) then b else data_at d j.
Proof.
  intros Hi Hj. unfold data_at. case_decide as H.
  - subst j. rewrite Nat2Z.id. apply nth_lookup_Some. by apply list_lookup_insert_eq.
  - rewrite !nth_lookup. by rewrite list_lookup_insert_ne by lia.
Qed.

Lemma testbit_byte z n : 0 ≤ n < 8 → Z.testbit (uchar (to_uchar z)) n = Z.testbit z n.
Proof.
  intros Hn. rewrite uchar_to_uchar. change 256 with (2 ^ 8). rewrite <-Z.land_ones by lia.
  rewrite Z.land_spec, Z.testbit_ones by lia. rewrite (proj2 (Z.leb_le _ _)), (proj2 (Z.ltb_lt _ _)) by lia.
  by rewrite andb_true_r.
Qed.

Lemma div_mod_8_inj a b : a / 8 = b / 8 → a mod 8 = b mod 8 → a = b.
Proof. intros. rewrite (Z_div_mod_eq_full a 8), (Z_div_mod_eq_full b 8). lia. Qed.

Lemma bit_free_set d bi bj :
  0 ≤ bi → 0 ≤ bj → bi / 8 < Z.of_nat (length d) →
  bit_free (bit_set d bi) bj = bit_free d bj && negb (bool_decide (bj = bi)).
Proof.
  intros Hi Hj Hl. pose proof (Z.mod_pos_bound bj 8 ltac:(lia)). pose proof (Z.div_pos bi 8).
  pose proof (Z.div_pos bj 8). rewrite !bit_free_testbit by done. unfold bit_set. rewrite data_at_insert by lia.
  rewrite Z2Nat.id by lia. destruct (decide (bj / 8 = bi / 8)) as [E|E].
  - rewrite testbit_byte, Z.lor_spec, testbit_mask by lia. rewrite E, negb_orb. do 2 f_equal.
    apply bool_decide_ext. split; [intros; by apply div_mod_8_inj|by intros ->].
  - rewrite bool_decide_false by (intros ->; done). by rewrite andb_true_r.
Qed.

Lemma bit_free_clear d bi bj :
  0 ≤ bi → 0 ≤ bj → bi / 8 < Z.of_nat (length d) →
  bit_free (bit_clear d bi) bj = bit_free d bj || bool_decide (bj = bi).
Proof.
  intros Hi Hj Hl. pose proof (Z.mod_pos_bound bj 8 ltac:(lia)). pose proof (Z.div_pos bi 8).
  pose proof (Z.div_pos bj 8). rewrite !bit_free_testbit by done. unfold bit_clear. rewrite data_at_insert by lia.
  rewrite Z2Nat.id by lia. destruct (decide (bj / 8 = bi / 8)) as [E|E].
  - rewrite testbit_byte, Z.land_spec, Z.lnot_spec, testbit_mask by lia. rewrite E, negb_andb, negb_involutive. do 2 f_equal.
    apply bool_decide_ext. split; [intros; by apply div_mod_8_inj|by intros ->].
  - rewrite bool_decide_false by (intros ->; done). by rewrite orb_false_r.
Qed.

Lemma length_bit_set d bi : length (bit_set d bi) = length d.
Proof. apply length_insert. Qed.
Lemma length_bit_clear d bi : length (bit_clear d bi) = length d.
Proof. apply length_insert. Qed.

(** [balloc]'s inner loop finds the first free bit inside the disk. *)
Lemma find_free_spec d b bi size n :
  match find_free d b bi size n with
  | Some r => bi ≤ r < bi + Z.of_nat n ∧ b + r < size ∧ bit_free d r = true ∧
      ∀ r', bi ≤ r' < r → bit_free d r' = false
  | None => ∀ r', bi ≤ r' < bi + Z.of_nat n → b + r' < size → bit_free d r' = false
  end.
Proof.
  revert bi. induction n as [|n IH]; intros bi; cbn [find_free]; [lia|].
  destruct (Z.ltb_spec (b + bi) size) as [Hlt|]; [|lia].
  destruct (bit_free d bi) eqn:E.
  - split_and!; [lia|lia|done|done|lia].
  - specialize (IH (bi + 1)). destruct (find_free d b (bi + 1) size n) as [r|].
    + destruct IH as (? & ? & ? & Hr). split_and!; [lia|lia|done|done|].
      intros r' Hr'. destruct (decide (r' = bi)) as [->|]; [done|]. apply Hr. lia.
    + intros r' Hr' Hs. destruct (decide (r' = bi)) as [->|]; [done|]. apply IH; lia.
Qed.
End bits.

(** ** Calls of the store from the file system *)

Definition with_st {S} (s : fsst S) (st : S) : fsst S :=
  mkFsst st (fs_sb s) (fs_inode s) (fs_pid s) (fs_cwd s).

Definition with_inode {S} (s : fsst S) (l : list inode) : fsst S :=
  mkFsst (fs_st s) (fs_sb s) l (fs_pid s) (fs_cwd s).

Section calls.
Context {S : Type} {ops : TxStore S} {laws : TxLaws S}.
Implicit Types (s : fsst S) (V : Z → list byte) (L : gset Z) (H : gmap nat (Z * list byte)).

Lemma with_st_with_st s st st' : with_st (with_st s st) st' = with_st s st'.
Proof. done. Qed.

Lemma with_st_id s : with_st s (fs_st s) = s.
Proof. by destruct s. Qed.

Lemma wp_liftS {A} (m : M S A) (Q : A → fsst S → Prop) s :
  wp m (λ a st, Q a (with_st s st)) (fs_st s) → wp (liftS m) Q s.
Proof. unfold wp, liftS. by destruct (m (fs_st s)). Qed.

Lemma held_size H : (base.size (held H) ≤ base.size H)%nat.
Proof.
  unfold held. induction H as [|i x H Hi IH] using map_ind.
  { rewrite fmap_empty, map_img_empty_L. done. }
  rewrite fmap_insert, map_size_insert_None by done.
  etrans; [apply subseteq_size, map_img_insert_subseteq|]. rewrite size_union_alt, size_singleton.
  pose proof (subseteq_size ((map_img (fst <$> H) : gset Z) ∖ {[x.1]}) (map_img (fst <$> H)) ltac:(set_solver)). lia.
Qed.

Lemma room_held L H n :
  (base.size L + base.size H < n)%nat → (base.size (L ∪ held H) < n)%nat.
Proof.
  intros Hn. pose proof (held_size H). rewrite size_union_alt.
  pose proof (subseteq_size (held H ∖ L) (held H) ltac:(set_solver)). lia.
Qed.

Lemma wp_bread g s V L H k (Q : nat → fsst S → Prop) :
  tx_inv g (fs_st s) V L H → 0 ≤ k < g_size g → k ∉ held H → (base.size L + base.size H < NBUF)%nat →
  (∀ i st', H !! i = None → tx_inv g st' V L (<[i := (k, V k)]> H) → Q i (with_st s st')) →
  wp (liftS (tx_bread ROOTDEV k)) Q s.
Proof.
  intros Hi Hk Hh Hr HQ. apply wp_liftS. eapply wp_mono; [by eapply tx_bread_ok; [exact Hi|..|apply room_held]|].
  intros i st' [? ?]. by apply HQ.
Qed.

Lemma wp_get_data g s V L H i k d (Q : list byte → fsst S → Prop) :
  tx_inv g (fs_st s) V L H → H !! i = Some (k, d) → Q d s → wp (get_data i) Q s.
Proof. intros Hi Hh HQ. unfold get_data. apply wp_getS, wp_ret. by rewrite (tx_data_ok _ _ _ _ _ _ _ _ Hi Hh). Qed.

Lemma wp_put g s V L H i k d d' (Q : unit → fsst S → Prop) :
  tx_inv g (fs_st s) V L H → H !! i = Some (k, d) → length d' = BSIZE →
  (∀ st', tx_inv g st' V L (<[i := (k, d')]> H) → Q tt (with_st s st')) →
  wp (liftS (tx_put i d')) Q s.
Proof.
  intros Hi Hh Hl HQ. apply wp_liftS. eapply wp_mono; [by eapply tx_put_ok|]. intros [] st'. apply HQ.
Qed.

Lemma wp_log_write g s V L H i k d (Q : unit → fsst S → Prop) :
  tx_inv g (fs_st s) V L H → H !! i = Some (k, d) → ¬ g_log g k → Z.of_nat (base.size L) < g_cap g →
  (∀ st', tx_inv g st' (<[k := d]> V) ({[k]} ∪ L) H → Q tt (with_st s st')) →
  wp (liftS (tx_log_write i)) Q s.
Proof.
  intros Hi Hh Hk Hc HQ. apply wp_liftS. eapply wp_mono; [by eapply tx_log_write_ok|]. intros [] st'. apply HQ.
Qed.

Lemma wp_brelse g s V L H i k (Q : unit → fsst S → Prop) :
  tx_inv g (fs_st s) V L H → H !! i = Some (k, V k) →
  (∀ st', tx_inv g st' V L (delete i H) → Q tt (with_st s st')) →
  wp (liftS (tx_brelse i)) Q s.
Proof.
  intros Hi Hh HQ. apply wp_liftS. eapply wp_mono; [by eapply tx_brelse_ok|]. intros [] st'. apply HQ.
Qed.

(** A whole update of block [k]: read it, replace its data, log it, release it. *)
Lemma wp_block_update {A} g s V L H i k d' (m : M (fsst S) A) (Q : A → fsst S → Prop) :
  H !! i = None → tx_inv g (fs_st s) V L (<[i := (k, V k)]> H) → length d' = BSIZE →
  ¬ g_log g k → Z.of_nat (base.size L) < g_cap g →
  (∀ st', tx_inv g st' (<[k := d']> V) ({[k]} ∪ L) H → wp m Q (with_st s st')) →
  wp (liftS (tx_put i d');; liftS (tx_log_write i);; liftS (tx_brelse i);; m) Q s.
Proof.
  intros Hn Hi Hl Hk Hc HQ. apply wp_bind. eapply wp_put; [exact Hi|apply lookup_insert_eq|done|].
  intros st1 Hi1. rewrite insert_insert_eq in Hi1.
  apply wp_bind. eapply (wp_log_write g (with_st s st1)); [exact Hi1|apply lookup_insert_eq|done|done|].
  intros st2 Hi2. apply wp_bind. eapply (wp_brelse g (with_st (with_st s st1) st2)); [exact Hi2| |].
  { by rewrite lookup_insert_eq, fn_lookup_insert. }
  intros st3 Hi3. rewrite !with_st_with_st. apply HQ. by rewrite delete_insert_id in Hi3.
Qed.
End calls.

(** ** The allocator *)

(** The super block describes the disk [g]: the bitmap and inode blocks lie on
    it, outside the log. *)
Record sb_ok (g : geom) (sb : superblock) : Prop := {
  so_size : sb_size sb = g_size g ∧ 0 < g_size g ≤ 2 ^ 31;
  so_start : 0 ≤ sb_bmapstart sb ∧ 0 ≤ sb_inodestart sb;
  so_bmap : ∀ b, 0 ≤ b < g_size g → b / BPB + sb_bmapstart sb < g_size g ∧ ¬ g_log g (b / BPB + sb_bmapstart sb);
  so_inode : ∀ i, 0 ≤ i < sb_ninodes sb → i / IPB + sb_inodestart sb < g_size g ∧ ¬ g_log g (i / IPB + sb_inodestart sb);
  so_disj : ∀ i b, 0 ≤ i < sb_ninodes sb → 0 ≤ b < g_size g → IBLOCK i sb ≠ BBLOCK b sb;
}.

(** Block [b] is marked in use in the bitmap. *)
Definition used (sb : superblock) (V : Z → list byte) (b : Z) : bool :=
  negb (bit_free (V (BBLOCK b sb)) (b mod BPB)).

Lemma BBLOCK_eq g sb b : sb_ok g sb → 0 ≤ b < g_size g → BBLOCK b sb = b / BPB + sb_bmapstart sb.
Proof.
  intros [? ? Hb _ _] Hr. unfold BBLOCK. apply u32_small. destruct (Hb b Hr).
  pose proof (Z.div_pos b BPB ltac:(lia) ltac:(reflexivity)). lia.
Qed.

Lemma BBLOCK_range g sb b : sb_ok g sb → 0 ≤ b < g_size g → 0 ≤ BBLOCK b sb < g_size g ∧ ¬ g_log g (BBLOCK b sb).
Proof.
  intros Hs Hr. rewrite (BBLOCK_eq g) by done. pose proof Hs as [? ? Hb _ _]. destruct (Hb b Hr).
  pose proof (Z.div_pos b BPB ltac:(lia) ltac:(reflexivity)). split; [lia|done].
Qed.

Lemma bit_in_block b : 0 ≤ b mod BPB ∧ b mod BPB / 8 < Z.of_nat BSIZE.
Proof.
  pose proof (Z.mod_pos_bound b BPB ltac:(reflexivity)). split; [lia|].
  apply Z.div_lt_upper_bound; [lia|]. unfold BPB in *. lia.
Qed.

(** Marking [b] used, or free, changes that bit only. *)
Lemma used_set g sb V b b' :
  sb_ok g sb → (∀ k, 0 ≤ k < g_size g → length (V k) = BSIZE) → 0 ≤ b < g_size g → 0 ≤ b' < g_size g →
  used sb (<[BBLOCK b sb := bit_set (V (BBLOCK b sb)) (b mod BPB)]> V) b' = used sb V b' || bool_decide (b' = b).
Proof.
  intros Hs Hlen Hb Hb'. unfold used. pose proof (bit_in_block b) as [? ?]. pose proof (bit_in_block b') as [? ?].
  destruct (decide (BBLOCK b sb = BBLOCK b' sb)) as [E|E].
  - rewrite E, fn_lookup_insert. rewrite bit_free_set by (try rewrite Hlen; try done; by apply (BBLOCK_range g)).
    rewrite negb_andb, negb_involutive. f_equal. apply bool_decide_ext. split; [|by intros ->].
    intros Hm. rewrite !(BBLOCK_eq g) in E by done. rewrite (Z_div_mod_eq_full b BPB), (Z_div_mod_eq_full b' BPB). lia.
  - rewrite fn_lookup_insert_ne by done. rewrite bool_decide_false by (intros ->; done). by rewrite orb_false_r.
Qed.

Lemma used_clear g sb V b b' :
  sb_ok g sb → (∀ k, 0 ≤ k < g_size g → length (V k) = BSIZE) → 0 ≤ b < g_size g → 0 ≤ b' < g_size g →
  used sb (<[BBLOCK b sb := bit_clear (V (BBLOCK b sb)) (b mod BPB)]> V) b' = used sb V b' && negb (bool_decide (b' = b)).
Proof.
  intros Hs Hlen Hb Hb'. unfold used. pose proof (bit_in_block b) as [? ?]. pose proof (bit_in_block b') as [? ?].
  destruct (decide (BBLOCK b sb = BBLOCK b' sb)) as [E|E].
  - rewrite E, fn_lookup_insert. rewrite bit_free_clear by (try rewrite Hlen; try done; by apply (BBLOCK_range g)).
    rewrite negb_orb. do 2 f_equal. apply bool_decide_ext. split; [|by intros ->].
    intros Hm. rewrite !(BBLOCK_eq g) in E by done. rewrite (Z_div_mod_eq_full b BPB), (Z_div_mod_eq_full b' BPB). lia.
  - rewrite fn_lookup_insert_ne by done. rewrite bool_decide_false by (intros ->; done). by rewrite andb_true_r.
Qed.

Section alloc.
Context {S : Type} {ops : TxStore S} {laws : TxLaws S}.
Implicit Types (s : fsst S) (V : Z → list byte) (L : gset Z) (H : gmap nat (Z * list byte)).

Definition zeros : list byte := replicate BSIZE Byte.x00.

(** Room for [n] more logged blocks, with the buffers [H] in use. *)
Definition room (g : geom) (L : gset Z) (H : gmap nat (Z * list byte)) (n : nat) : Prop :=
  Z.of_nat (base.size L + n) ≤ g_cap g ∧ (base.size L + base.size H + n + 1 ≤ NBUF)%nat.

Lemma size_add L k : (base.size ({[k]} ∪ L) ≤ Datatypes.S (base.size L))%nat.
Proof.
  rewrite size_union_alt, size_singleton.
  pose proof (subseteq_size (L ∖ {[k]}) L ltac:(set_solver)). lia.
Qed.

Lemma room_add g L H k n : room g L H (Datatypes.S n) → room g ({[k]} ∪ L) H n.
Proof. intros [? ?]. pose proof (size_add L k). split; lia. Qed.

Lemma bzero_spec g s V L H b :
  tx_inv g (fs_st s) V L H → 0 ≤ b < g_size g → b ∉ held H → ¬ g_log g b → room g L H 1 →
  wp (bzero ROOTDEV b) (λ _ s', ∃ st', s' = with_st s st' ∧ tx_inv g st' (<[b := zeros]> V) ({[b]} ∪ L) H) s.
Proof.
  intros Hi Hb Hh Hg [Hc Hr]. unfold bzero. apply wp_bind.
  eapply wp_bread; [exact Hi|done|done|lia|]. intros i st1 Hn Hi1.
  apply wp_bind. eapply (wp_put g (with_st s st1)); [exact Hi1|apply lookup_insert_eq|done|].
  intros st2 Hi2. rewrite insert_insert_eq in Hi2.
  apply wp_bind. eapply (wp_log_write g (with_st s st2)); [exact Hi2|apply lookup_insert_eq|done|lia|].
  intros st3 Hi3. eapply (wp_brelse g (with_st s st3)); [exact Hi3| |].
  { by rewrite lookup_insert_eq, fn_lookup_insert. }
  intros st4 Hi4. rewrite delete_insert_id in Hi4 by done. by exists st4.
Qed.

(** What a successful [balloc] has done: block [b] was the first free one, its
    bit is set and it is zeroed. *)
Definition balloc_post (g : geom) s V L H (b : Z) (s' : fsst S) : Prop :=
  let sb := fs_sb s in
  ∃ st', s' = with_st s st' ∧ 0 ≤ b < g_size g ∧ used sb V b = false ∧
    (∀ b', 0 ≤ b' < b → used sb V b' = true) ∧
    tx_inv g st' (<[b := zeros]> (<[BBLOCK b sb := bit_set (V (BBLOCK b sb)) (b mod BPB)]> V))
      ({[b]} ∪ ({[BBLOCK b sb]} ∪ L)) H.

(** A data block: not the boot block, the super block, a log block, a bitmap
    block or an inode block. *)
Definition is_data (g : geom) (sb : superblock) (k : Z) : Prop :=
  0 < k < g_size g ∧ k ≠ 1 ∧ ¬ g_log g k ∧ (∀ b, 0 ≤ b < g_size g → k ≠ BBLOCK b sb) ∧
  (∀ i, 0 ≤ i < sb_ninodes sb → k ≠ IBLOCK i sb).

(** Side conditions of the allocator: the buffers in use hold used blocks that are
    not bitmap blocks, and the blocks that are not data are marked used. *)
Record alloc_ok (g : geom) s V L H : Prop := {
  ao_inv : tx_inv g (fs_st s) V L H;
  ao_sb : sb_ok g (fs_sb s);
  ao_held : ∀ k, k ∈ held H → used (fs_sb s) V k = true;
  ao_bmap : ∀ b, 0 ≤ b < g_size g → BBLOCK b (fs_sb s) ∉ held H;
  ao_meta : ∀ k, 0 ≤ k < g_size g → ¬ is_data g (fs_sb s) k → used (fs_sb s) V k = true;
}.

(** A block that the bitmap has free is a data block. *)
Lemma free_is_data g s V L H b :
  alloc_ok g s V L H → 0 ≤ b < g_size g → used (fs_sb s) V b = false → is_data g (fs_sb s) b.
Proof.
  intros Hok Hb Hu. assert (Hn : ¬ ¬ is_data g (fs_sb s) b).
  { intros Hn. rewrite (ao_meta _ _ _ _ _ Hok) in Hu; done. }
  unfold is_data in *. split_and!.
  - destruct (decide (0 < b)); [done|]. destruct Hn. intros (? & _). lia.
  - lia.
  - intros ->. apply Hn. intros (_ & ? & _). lia.
  - intros Hg. apply Hn. intros (_ & _ & ? & _). done.
  - intros b' Hb' ->. apply Hn. intros (_ & _ & _ & Hbb & _). by apply (Hbb b').
  - intros i Hi ->. apply Hn. intros (_ & _ & _ & _ & Hii). by apply (Hii i).
Qed.

Lemma balloc_from_spec g s V L H fuel j :
  alloc_ok g s V L H → room g L H 2 → 0 ≤ j → g_size g < BPB * (j + Z.of_nat fuel) →
  (∀ b', 0 ≤ b' < BPB * j → b' < g_size g → used (fs_sb s) V b' = true) →
  wpp (balloc_from ROOTDEV (BPB * j) fuel) (balloc_post g s V L H)
    (λ msg, msg = "balloc: out of blocks"%string ∧ ∀ b', 0 ≤ b' < g_size g → used (fs_sb s) V b' = true) s.
Proof.
  revert s j. induction fuel as [|fuel IH]; intros s j Hok Hroom Hj Hf Hu.
  { split; [done|]. intros b' Hb'. apply Hu; [|lia]. rewrite Z.add_0_r in Hf. lia. }
  pose proof Hok as [Hi Hs Hheld Hbm Hmeta]. pose proof Hroom as [Hc Hr]. set (sb := fs_sb s) in *.
  assert (HB : 0 < BPB) by reflexivity. destruct (so_size _ _ Hs) as [Hsz _].
  cbn [balloc_from]. apply wp_wpp_bind, wp_getS, wp_ret. fold sb. rewrite Hsz.
  destruct (Z.ltb_spec (BPB * j) (g_size g)) as [Hlt|Hge].
  2:{ split; [done|]. intros b' Hb'. apply Hu; lia. }
  assert (Hblk : ∀ bi, 0 ≤ bi < BPB → (BPB * j + bi) / BPB = j ∧ (BPB * j + bi) mod BPB = bi).
  { intros bi Hbi. split; symmetry;
      [apply (Z.div_unique_pos _ _ _ bi)|apply (Z.mod_unique_pos _ _ j bi)]; lia. }
  assert (HBB : ∀ bi, 0 ≤ bi < BPB → BPB * j + bi < g_size g → BBLOCK (BPB * j + bi) sb = BBLOCK (BPB * j) sb).
  { intros bi Hbi Hlt'. rewrite !(BBLOCK_eq g) by (done || nia). destruct (Hblk bi Hbi) as [-> _].
    destruct (Hblk 0 ltac:(lia)) as [E _]. rewrite Z.add_0_r in E. by rewrite E. }
  destruct (BBLOCK_range g sb (BPB * j) Hs ltac:(nia)) as [Hbr Hbg].
  apply wp_wpp_bind. eapply wp_bread; [exact Hi|done|apply Hbm; nia|lia|]. intros i st1 Hn Hi1.
  apply wp_wpp_bind. eapply (wp_get_data g (with_st s st1)); [exact Hi1|apply lookup_insert_eq|].
  pose proof (find_free_spec (V (BBLOCK (BPB * j) sb)) (BPB * j) 0 (g_size g) (Z.to_nat BPB)) as Hff.
  destruct (find_free _ _ _ _ _) as [bi|].
  - destruct Hff as (Hbi & Hlim & Hfree & Hfirst). rewrite Z2Nat.id in Hbi by done.
    assert (Hnu : used sb V (BPB * j + bi) = false).
    { unfold used. rewrite HBB by lia. destruct (Hblk bi ltac:(lia)) as [_ ->]. by rewrite Hfree. }
    apply wp_wpp. eapply (wp_block_update g (with_st s st1)); [exact Hn|exact Hi1| |done|lia|].
    { rewrite length_bit_set. by eapply (tx_inv_len g). }
    intros st2 Hi2. apply wp_bind. eapply wp_mono; [eapply (bzero_spec g (with_st s st2)); [exact Hi2|nia| | |]|].
    { intros Hin%Hheld. congruence. }
    { apply (free_is_data g s V L H (BPB * j + bi) Hok); [nia|done]. }
    { by apply room_add. }
    intros [] s3 (st3 & -> & Hi3). apply wp_ret. exists st3. fold sb. rewrite HBB by lia.
    destruct (Hblk bi ltac:(lia)) as [_ ->]. split_and!; [done|nia|lia|done| |done].
    intros b' Hb'. destruct (decide (b' < BPB * j)) as [|Hge']; [apply Hu; lia|].
    replace b' with (BPB * j + (b' - BPB * j)) by lia. unfold used. rewrite HBB by lia.
    destruct (Hblk (b' - BPB * j) ltac:(lia)) as [_ ->]. rewrite Hfirst by lia. done.
  - apply wp_wpp_bind. eapply (wp_brelse g (with_st s st1)); [exact Hi1|by rewrite lookup_insert_eq|].
    intros st2 Hi2. rewrite delete_insert_id in Hi2 by done. rewrite with_st_with_st.
    replace (BPB * j + BPB) with (BPB * (j + 1)) by lia.
    apply (IH (with_st s st2) (j + 1)); [by split|done|lia|lia|].
    intros b' Hb' Hlt'. cbn [fs_sb with_st]. fold sb. destruct (decide (b' < BPB * j)); [apply Hu; lia|].
    replace b' with (BPB * j + (b' - BPB * j)) by lia. unfold used. rewrite HBB by lia.
    destruct (Hblk (b' - BPB * j) ltac:(lia)) as [_ ->]. rewrite Hff by lia. done.
Qed.

Lemma balloc_ok g s V L H :
  alloc_ok g s V L H → room g L H 2 →
  wpp (balloc ROOTDEV) (balloc_post g s V L H)
    (λ msg, msg = "balloc: out of blocks"%string ∧ ∀ b', 0 ≤ b' < g_size g → used (fs_sb s) V b' = true) s.
Proof.
  intros Hok Hroom. unfold balloc. apply wp_wpp_bind, wp_getS, wp_ret.
  destruct (so_size _ _ (ao_sb _ _ _ _ _ Hok)) as [Hsz Hp]. rewrite Hsz.
  replace 0 with (BPB * 0) by lia. apply balloc_from_spec; [done|done|lia| |lia].
  rewrite Z.add_0_l, Z2Nat.id by (pose proof (Z.div_pos (g_size g) BPB ltac:(lia) ltac:(reflexivity)); lia).
  pose proof (Z_div_mod_eq_full (g_size g) BPB). pose proof (Z.mod_pos_bound (g_size g) BPB ltac:(reflexivity)). lia.
Qed.


(** The free blocks of the disk. *)
Definition free_blocks (g : geom) (sb : superblock) V : Z := tally (λ b, negb (used sb V b)) (Z.to_nat (g_size g)).

Lemma free_blocks_ext g sb V V' : (∀ k, 0 ≤ k < g_size g → used sb V' k = used sb V k) → free_blocks g sb V' = free_blocks g sb V.
Proof. intros H. apply tally_ext. intros k Hk. rewrite H; [done|lia]. Qed.

Lemma free_blocks_none g sb V : (∀ k, 0 ≤ k < g_size g → used sb V k = true) → free_blocks g sb V = 0.
Proof. intros H. apply tally_none. intros k Hk. rewrite H; [done|lia]. Qed.

Lemma free_blocks_taken g sb V V' b :
  0 ≤ b < g_size g → used sb V b = false → (∀ k, 0 ≤ k < g_size g → used sb V' k = used sb V k || bool_decide (k = b)) →
  free_blocks g sb V = free_blocks g sb V' + 1.
Proof.
  intros Hb Hf Hu. apply tally_less with b; [lia|by rewrite Hf|rewrite Hu by done; by rewrite bool_decide_true, orb_true_r|].
  intros k Hk Hne. rewrite Hu by lia. by rewrite bool_decide_false, orb_false_r.
Qed.

(** What the rest of the file system sees of a [balloc]. *)
Lemma balloc_frame g s V L H b s' :
  alloc_ok g s V L H → balloc_post g s V L H b s' →
  let V' := <[b := zeros]> (<[BBLOCK b (fs_sb s) := bit_set (V (BBLOCK b (fs_sb s))) (b mod BPB)]> V) in
  let L' := {[b]} ∪ ({[BBLOCK b (fs_sb s)]} ∪ L) in
  is_data g (fs_sb s) b ∧ V' b = zeros ∧ alloc_ok g s' V' L' H ∧ (b ∉ held H) ∧
  (base.size L' ≤ base.size L + 2)%nat ∧
  (∀ k, 0 ≤ k < g_size g → used (fs_sb s) V' k = used (fs_sb s) V k || bool_decide (k = b)) ∧
  (∀ k, (∀ b', 0 ≤ b' < g_size g → k ≠ BBLOCK b' (fs_sb s)) → k ≠ b → V' k = V k).
Proof.
  intros Hok (st' & -> & Hb & Hu & _ & Hi) V' L'. pose proof (free_is_data _ _ _ _ _ _ Hok Hb Hu) as Hd.
  pose proof Hok as [Hi0 Hs Hheld Hbm Hmeta].
  assert (Hlen : ∀ k, 0 ≤ k < g_size g → length (V k) = BSIZE) by (intros; by eapply (tx_inv_len g)).
  assert (Hused : ∀ k, 0 ≤ k < g_size g → used (fs_sb s) V' k = used (fs_sb s) V k || bool_decide (k = b)).
  { intros k Hk. rewrite <-(used_set g) by done. unfold used, V'. rewrite fn_lookup_insert_ne; [done|].
    destruct Hd as (_ & _ & _ & Hbb & _). by apply Hbb. }
  split_and!; [done|apply fn_lookup_insert| | | |done|].
  - split; cbn [with_st fs_st fs_sb]; try done.
    + intros k Hk. assert (0 ≤ k < g_size g) as Hkr.
      { apply elem_of_held in Hk as (i & d & Hk). by eapply (tx_held g). }
      rewrite Hused by done. by rewrite Hheld.
    + intros k Hk Hnd. rewrite Hused by done. by rewrite Hmeta.
  - intros Hin%Hheld. congruence.
  - pose proof (size_add ({[BBLOCK b (fs_sb s)]} ∪ L) b). pose proof (size_add L (BBLOCK b (fs_sb s))). unfold L'. lia.
  - intros k Hbb Hne. unfold V'. rewrite fn_lookup_insert_ne by done.
    rewrite fn_lookup_insert_ne; [done|]. intros E. by apply (Hbb b).
Qed.

Lemma read_sb_spec g s V L H (Q : superblock → fsst S → Prop) :
  tx_inv g (fs_st s) V L H → 1 < g_size g → 1 ∉ held H → (base.size L + base.size H < NBUF)%nat →
  (∀ st', tx_inv g st' V L H → Q (sb_decode (V 1)) (with_st s st')) → wp (read_sb ROOTDEV) Q s.
Proof.
  intros Hi Hsz Hh Hr HQ. unfold read_sb. apply wp_bind. eapply wp_bread; [exact Hi|lia|done|lia|].
  intros i st1 Hn Hi1. apply wp_bind. eapply (wp_get_data g (with_st s st1)); [exact Hi1|apply lookup_insert_eq|].
  apply wp_bind. eapply (wp_brelse g (with_st s st1)); [exact Hi1|apply lookup_insert_eq|].
  intros st2 Hi2. rewrite delete_insert_id in Hi2 by done. apply wp_ret. by apply HQ.
Qed.

(** The state of a file system whose in-memory super block is the one on disk. *)
Definition sb_loaded (g : geom) s V H : Prop :=
  sb_decode (V 1) = fs_sb s ∧ 1 < g_size g ∧ 1 ∉ held H.

Definition bfree_post (g : geom) s V L H (b : Z) (s' : fsst S) : Prop :=
  let sb := fs_sb s in
  ∃ st', s' = with_st s st' ∧ used sb V b = true ∧
    tx_inv g st' (<[BBLOCK b sb := bit_clear (V (BBLOCK b sb)) (b mod BPB)]> V) ({[BBLOCK b sb]} ∪ L) H.

(** [bfree] clears the bit of a block in use and changes nothing else; it panics on a
    block that is free already. *)
Theorem bfree_correct g s V L H b :
  alloc_ok g s V L H → sb_loaded g s V H → room g L H 1 → 0 ≤ b < g_size g →
  wpp (bfree ROOTDEV b) (λ _, bfree_post g s V L H b)
    (λ msg, msg = "freeing free block"%string ∧ used (fs_sb s) V b = false) s.
Proof.
  intros [Hi Hs Hheld Hbm Hmeta] (Hsb & H1 & H1h) [Hc Hr] Hb. unfold bfree.
  apply wp_wpp_bind. eapply read_sb_spec; [exact Hi|done|done|lia|]. intros st1 Hi1.
  apply wp_wpp_bind. unfold set_sb, modify. unfold wp. rewrite Hsb.
  change (mkFsst (fs_st (with_st s st1)) (fs_sb s) _ _ _) with (with_st s st1). set (sb := fs_sb s) in *.
  destruct (BBLOCK_range g sb b Hs Hb) as [Hbr Hbg].
  apply wp_wpp_bind. eapply (wp_bread g (with_st s st1)); [exact Hi1|done|by apply Hbm|lia|]. intros i st2 Hn Hi2.
  apply wp_wpp_bind. eapply (wp_get_data g (with_st s st2)); [exact Hi2|apply lookup_insert_eq|].
  destruct (bit_free (V (BBLOCK b sb)) (b mod BPB)) eqn:E.
  { split; [done|]. unfold used. by rewrite E. }
  assert (Hl : length (bit_clear (V (BBLOCK b sb)) (b mod BPB)) = BSIZE).
  { rewrite length_bit_clear. by eapply (tx_inv_len g). }
  apply wp_wpp. apply wp_bind. eapply (wp_put g (with_st s st2)); [exact Hi2|apply lookup_insert_eq|done|].
  intros st3 Hi3. rewrite insert_insert_eq in Hi3.
  apply wp_bind. eapply (wp_log_write g (with_st s st3)); [exact Hi3|apply lookup_insert_eq|done|lia|].
  intros st4 Hi4. eapply (wp_brelse g (with_st s st4)); [exact Hi4| |].
  { by rewrite lookup_insert_eq, fn_lookup_insert. }
  intros st5 Hi5. rewrite delete_insert_id in Hi5 by done. exists st5. split_and!; [done| |done].
  unfold used. fold sb. by rewrite E.
Qed.
End alloc.
