(* ===== verification/FsInode.v ===== *)
(** * Inodes on disk and in the cache (src/fs.c: [iupdate], [ilock], [iget], [ialloc])

    The in-memory inode and the on-disk [struct dinode] carry the same fields:
    what [iupdate] stores is what [ilock] loads back.  The cache never holds two
    entries for one inode. *)

From S2P Require Import Prelude Dll Sleeplock Bio Memide FsLayout Log LogCrash LogProtocol Tx CString Fs FsAlloc.

(** ** The encoding *)

Section encoding.
Local Open Scope nat_scope.
Implicit Types (d : list byte) (ws : list Z).

Lemma length_st_words ws off d : off + 4 * length ws ≤ length d → length (st_words ws off d) = length d.
Proof.
  revert off d. induction ws as [|w ws IH]; intros off d Hl; cbn [st_words length] in *; [done|].
  rewrite IH; rewrite length_st; lia.
Qed.

Lemma ld_st_words_ne ws off d n o :
  off + 4 * length ws ≤ length d → o + n ≤ off ∨ off + 4 * length ws ≤ o →
  ld n o (st_words ws off d) = ld n o d.
Proof.
  revert off d. induction ws as [|w ws IH]; intros off d Hl Ho; cbn [st_words length] in *; [done|].
  rewrite IH by (rewrite ?length_st; lia). apply ld_st_ne; lia.
Qed.

Lemma ld_words_ext n off d d' :
  (∀ i, i < n → ld 4 (off + 4 * i) d = ld 4 (off + 4 * i) d') → ld_words n off d = ld_words n off d'.
Proof.
  revert off. induction n as [|n IH]; intros off He; cbn [ld_words]; [done|]. f_equal.
  - specialize (He 0). rewrite Nat.mul_0_r, Nat.add_0_r in He. apply He. lia.
  - apply IH. intros i Hi. specialize (He (S i) ltac:(lia)).
    replace (off + 4 + 4 * i) with (off + 4 * S i) by lia. done.
Qed.

Lemma ld_words_st_words ws off d :
  off + 4 * length ws ≤ length d → ld_words (length ws) off (st_words ws off d) = u32 <$> ws.
Proof.
  revert off d. induction ws as [|w ws IH]; intros off d Hl; [done|].
  cbn [st_words length ld_words fmap list_fmap] in *. f_equal.
  - rewrite ld_st_words_ne by (rewrite ?length_st; lia). rewrite ld_st_eq by lia. done.
  - apply IH. rewrite length_st; lia.
Qed.

Lemma length_ld_words n off d : length (ld_words n off d) = n.
Proof. revert off. induction n as [|n IH]; intros off; cbn [ld_words length]; [done|]. by rewrite IH. Qed.

Lemma dinode_off_bound inum : (dinode_off inum + DINODE_SIZE ≤ BSIZE).
Proof.
  unfold dinode_off. pose proof (Z.mod_pos_bound inum IPB ltac:(reflexivity)) as H.
  change IPB with 8%Z in *. unfold DINODE_SIZE, BSIZE. lia.
Qed.

Lemma dinode_off_apart i j :
  (i `mod` IPB ≠ j `mod` IPB)%Z → dinode_off i + DINODE_SIZE ≤ dinode_off j ∨ dinode_off j + DINODE_SIZE ≤ dinode_off i.
Proof.
  unfold dinode_off. pose proof (Z.mod_pos_bound i IPB ltac:(reflexivity)).
  pose proof (Z.mod_pos_bound j IPB ltac:(reflexivity)). unfold DINODE_SIZE. lia.
Qed.
End encoding.

(** The fields fit the on-disk widths. *)
Record inode_fits (x : inode) : Prop := {
  if_type : - 2 ^ 15 ≤ i_type x < 2 ^ 15;
  if_major : - 2 ^ 15 ≤ i_major x < 2 ^ 15;
  if_minor : - 2 ^ 15 ≤ i_minor x < 2 ^ 15;
  if_nlink : - 2 ^ 15 ≤ i_nlink x < 2 ^ 15;
  if_size : 0 ≤ i_size x < 2 ^ 32;
  if_addrs : length (i_addrs x) = 13%nat ∧ ∀ a, a ∈ i_addrs x → 0 ≤ a < 2 ^ 32;
}.

(** Lengths through stores, with the side conditions on the offsets. *)
Ltac solve_len := first [lia | rewrite length_st_words; solve_len | rewrite length_st; solve_len].

Section dinode.
Implicit Types (x y : inode) (d : list byte).

Lemma length_dinode_write x d :
  inode_fits x → length d = BSIZE → length (dinode_write x d) = BSIZE.
Proof.
  intros Hf Hd. pose proof (dinode_off_bound (i_inum x)). destruct (if_addrs _ Hf) as [Hl _].
  unfold dinode_write, DINODE_SIZE in *. solve_len.
Qed.

Lemma s16_small z : - 2 ^ 15 ≤ z < 2 ^ 15 → s16 (z mod 256 ^ Z.of_nat 2) = z.
Proof.
  intros Hz. unfold s16. change (256 ^ Z.of_nat 2) with (2 ^ 16).
  rewrite Zplus_mod_idemp_l. rewrite Z.mod_small by lia. lia.
Qed.

(** Each field of [dip] is a load of an earlier store. *)
Ltac solve_ld := first
  [ rewrite ld_st_words_ne by solve_len; solve_ld
  | rewrite ld_st_eq by solve_len
  | rewrite ld_st_ne by solve_len; solve_ld ].

Lemma dinode_read_write x y d :
  inode_fits x → length d = BSIZE →
  dinode_read (i_inum x) (dinode_write x d) y =
    set_iaddrs (i_addrs x) (set_isize (i_size x)
      (set_imeta (i_major x) (i_minor x) (i_nlink x) (set_itype (i_type x) y))).
Proof.
  intros Hf Hd. pose proof (dinode_off_bound (i_inum x)) as Hb. pose proof Hf as [H1 H2 H3 H4 H5 [Hl Ha]].
  unfold dinode_read. set (d' := dinode_write x d). set (o := dinode_off (i_inum x)) in *. unfold DINODE_SIZE in Hb.
  assert (E1 : ld_words 13 (o + 12) d' = i_addrs x).
  { unfold d', dinode_write. fold o. rewrite <-Hl. rewrite ld_words_st_words by solve_len.
    rewrite <-(list_fmap_id (i_addrs x)) at 2. apply list_fmap_ext. intros i a Hi.
    apply u32_small, Ha. by eapply list_elem_of_lookup_2. }
  assert (E2 : ld 4 (o + 8) d' = i_size x).
  { unfold d', dinode_write. fold o. solve_ld. by apply u32_small. }
  assert (E3 : s16 (ld 2 (o + 6) d') = i_nlink x) by (unfold d', dinode_write; fold o; solve_ld; by apply s16_small).
  assert (E4 : s16 (ld 2 (o + 4) d') = i_minor x) by (unfold d', dinode_write; fold o; solve_ld; by apply s16_small).
  assert (E5 : s16 (ld 2 (o + 2) d') = i_major x) by (unfold d', dinode_write; fold o; solve_ld; by apply s16_small).
  assert (E6 : s16 (ld 2 o d') = i_type x) by (unfold d', dinode_write; fold o; solve_ld; by apply s16_small).
  by rewrite E1, E2, E3, E4, E5, E6.
Qed.

(** Every load outside the slot of [x] is untouched by [dinode_write x]. *)
Lemma ld_dinode_write_ne x d n o :
  inode_fits x → length d = BSIZE →
  (o + n ≤ dinode_off (i_inum x) ∨ dinode_off (i_inum x) + DINODE_SIZE ≤ o)%nat →
  ld n o (dinode_write x d) = ld n o d.
Proof.
  intros Hf Hd Ho. pose proof (dinode_off_bound (i_inum x)) as Hb. destruct (if_addrs _ Hf) as [Hl _].
  unfold dinode_write, DINODE_SIZE in *. rewrite ld_st_words_ne by solve_len.
  rewrite !ld_st_ne by solve_len. done.
Qed.

Lemma dinode_read_ext j y d d' :
  (∀ n o, (dinode_off j ≤ o ∧ o + n ≤ dinode_off j + DINODE_SIZE)%nat → ld n o d' = ld n o d) →
  dinode_read j d' y = dinode_read j d y.
Proof.
  intros He. unfold dinode_read. unfold DINODE_SIZE in He.
  rewrite (ld_words_ext _ _ d' d) by (intros i Hi; apply He; lia).
  rewrite !He by lia. done.
Qed.

Lemma dinode_read_write_ne x j y d :
  inode_fits x → length d = BSIZE → i_inum x mod IPB ≠ j mod IPB →
  dinode_read j (dinode_write x d) y = dinode_read j d y.
Proof.
  intros Hf Hd Hne. pose proof (dinode_off_apart _ _ Hne). apply dinode_read_ext.
  intros n o Ho. apply ld_dinode_write_ne; [done|done|lia].
Qed.
Lemma dinode_read_eq i d x :
  dinode_read i d x =
    mkInode (i_dev x) (i_inum x) (i_ref x) (i_lock x) (i_valid x) (s16 (ld 2 (dinode_off i) d))
      (s16 (ld 2 (dinode_off i + 2) d)) (s16 (ld 2 (dinode_off i + 4) d)) (s16 (ld 2 (dinode_off i + 6) d))
      (ld 4 (dinode_off i + 8) d) (ld_words 13 (dinode_off i + 12) d).
Proof.
  unfold dinode_read. generalize (ld_words 13 (dinode_off i + 12) d). intros ws. destruct x as [dev n r lk v ty ma mi nl sz ad].
  cbn [set_itype set_imeta set_isize set_iaddrs i_dev i_inum i_ref i_lock i_valid i_type i_major i_minor i_nlink i_size i_addrs].
  reflexivity.
Qed.

End dinode.

(** ** Writing an inode through to disk, and loading it *)

Section specs.
Context {S : Type} {ops : TxStore S} {laws : TxLaws S}.
Implicit Types (s : fsst S) (V : Z → list byte) (L : gset Z) (H : gmap nat (Z * list byte)).

Lemma IBLOCK_eq g sb i : sb_ok g sb → 0 ≤ i < sb_ninodes sb → IBLOCK i sb = i / IPB + sb_inodestart sb.
Proof.
  intros [[_ Hsz] [_ ?] _ Hi _] Hr. destruct (Hi i Hr) as [Hlt _].
  pose proof (Z.div_pos i IPB ltac:(lia) ltac:(reflexivity)). apply u32_small. lia.
Qed.

Lemma IBLOCK_range g sb i :
  sb_ok g sb → 0 ≤ i < sb_ninodes sb → 0 ≤ IBLOCK i sb < g_size g ∧ ¬ g_log g (IBLOCK i sb).
Proof.
  intros Hs Hr. rewrite (IBLOCK_eq g) by done. destruct Hs as [_ [_ ?] _ Hi _], (Hi i Hr) as [Hlt Hng].
  pose proof (Z.div_pos i IPB ltac:(lia) ltac:(reflexivity)). split; [lia|done].
Qed.

(** The contents after [iupdate] of the inode [x]. *)
Definition V_iupdate (sb : superblock) (x : inode) (V : Z → list byte) : Z → list byte :=
  <[IBLOCK (i_inum x) sb := dinode_write x (V (IBLOCK (i_inum x) sb))]> V.

Lemma iupdate_spec g s V L H ip :
  let x := fs_inode s !!! ip in let b := IBLOCK (i_inum x) (fs_sb s) in
  tx_inv g (fs_st s) V L H → sb_ok g (fs_sb s) → i_dev x = ROOTDEV → 0 ≤ i_inum x < sb_ninodes (fs_sb s) →
  inode_fits x → b ∉ held H → room g L H 1 →
  wp (iupdate ip) (λ _ s', ∃ st', s' = with_st s st' ∧
    tx_inv g st' (V_iupdate (fs_sb s) x V) ({[b]} ∪ L) H) s.
Proof.
  intros x b Hi Hs Hdev Hin Hf Hh [Hc Hr]. destruct (IBLOCK_range g _ _ Hs Hin) as [Hb Hg]. fold b in Hb, Hg.
  unfold iupdate. apply wp_getS. apply wp_bind. unfold get_inode. apply wp_getS, wp_ret. fold x. rewrite Hdev. fold b.
  apply wp_bind. eapply wp_bread; [exact Hi|done|done|lia|]. intros i st1 Hn Hi1.
  apply wp_bind. eapply (wp_get_data g (with_st s st1)); [exact Hi1|apply lookup_insert_eq|].
  assert (Hl : length (dinode_write x (V b)) = BSIZE) by (apply length_dinode_write; [done|by eapply (tx_inv_len g)]).
  apply wp_bind. eapply (wp_put g (with_st s st1)); [exact Hi1|apply lookup_insert_eq|done|].
  intros st2 Hi2. rewrite insert_insert_eq in Hi2.
  apply wp_bind. eapply (wp_log_write g (with_st s st2)); [exact Hi2|apply lookup_insert_eq|done|lia|].
  intros st3 Hi3. eapply (wp_brelse g (with_st s st3)); [exact Hi3| |].
  { by rewrite lookup_insert_eq, fn_lookup_insert. }
  intros st4 Hi4. rewrite delete_insert_id in Hi4 by done. by exists st4.
Qed.

(** [ilock] of an entry that must be read: it becomes valid, locked and holds
    the fields of the on-disk inode. *)
Lemma ilock_spec g s V L H ip :
  let x := fs_inode s !!! ip in let b := IBLOCK (i_inum x) (fs_sb s) in
  let y := set_ivalid 1 (dinode_read (i_inum x) (V b) (set_ilock (mkSleeplock 1 (fs_pid s)) x)) in
  (ip < length (fs_inode s))%nat →
  tx_inv g (fs_st s) V L H → sb_ok g (fs_sb s) → i_dev x = ROOTDEV → 0 ≤ i_inum x < sb_ninodes (fs_sb s) →
  1 ≤ i_ref x → sl_locked (i_lock x) = 0 → i_valid x = 0 → i_type y ≠ 0 →
  b ∉ held H → (base.size L + base.size H < NBUF)%nat →
  wp (ilock ip) (λ _ s', ∃ st', s' = with_inode (with_st s st') (<[ip := y]> (fs_inode s)) ∧ tx_inv g st' V L H) s.
Proof.
  intros x b y Hlen Hi Hs Hdev Hin Href Hlk Hval Hty Hh Hr.
  destruct (IBLOCK_range g _ _ Hs Hin) as [Hb Hg]. fold b in Hb, Hg.
  unfold ilock. apply wp_bind. unfold get_inode. apply wp_getS, wp_ret. fold x.
  rewrite (proj2 (Z.ltb_ge _ _)) by lia. apply wp_bind. unfold lock_inode. apply wp_getS. fold x.
  unfold acquiresleep. rewrite Hlk. cbn [Z.eqb]. unfold upd_inode at 1. unfold modify, wp.
  set (s1 := mkFsst _ _ _ _ _).
  assert (Hx1 : fs_inode s1 !!! ip = set_ilock (mkSleeplock 1 (fs_pid s)) x).
  { cbn. by rewrite list_lookup_total_alter_eq. }
  apply (wp_bind (get_inode ip)). unfold get_inode. apply wp_getS, wp_ret. rewrite Hx1. cbn [i_valid i_dev i_inum set_ilock].
  rewrite Hval, Hdev. cbn [Z.eqb]. apply wp_getS. change (fs_sb s1) with (fs_sb s). fold b.
  apply wp_bind. eapply (wp_bread g s1); [exact Hi|done|done|lia|]. intros i st1 Hn Hi1.
  apply wp_bind. eapply (wp_get_data g (with_st s1 st1)); [exact Hi1|apply lookup_insert_eq|].
  unfold upd_inode at 1. apply wp_modify. set (s2 := mkFsst _ _ _ _ _).
  apply wp_bind. eapply (wp_brelse g s2); [exact Hi1|apply lookup_insert_eq|]. intros st2 Hi2.
  rewrite delete_insert_id in Hi2 by done. unfold upd_inode. apply wp_modify.
  cbn [with_st fs_inode fs_st fs_sb fs_pid fs_cwd s1 s2]. apply wp_bind. apply wp_getS, wp_ret.
  rewrite !list_alter_alter_eq. cbn [fs_inode]. rewrite list_lookup_total_alter_eq by done. unfold compose. fold x.
  match goal with |- context [i_type ?t =? 0] => change t with y end. rewrite (proj2 (Z.eqb_neq _ _)) by done.
  apply wp_ret. exists st2. split; [|done]. rewrite alter_insert. unfold with_inode, with_st. simpl. fold x. done.
Qed.

(** C38. Writing an in-memory inode to its disk slot with iupdate and loading the slot with ilock
    into a fresh cache entry gives the same type, device numbers, link count, size and block
    addresses. *)
Theorem iupdate_ilock_roundtrip g s V L H ip ip' :
  let x := fs_inode s !!! ip in let x' := fs_inode s !!! ip' in
  (ip' < length (fs_inode s))%nat →
  tx_inv g (fs_st s) V L H → sb_ok g (fs_sb s) → room g L H 1 →
  i_dev x = ROOTDEV → 0 ≤ i_inum x < sb_ninodes (fs_sb s) → inode_fits x → i_type x ≠ 0 →
  IBLOCK (i_inum x) (fs_sb s) ∉ held H →
  i_dev x' = ROOTDEV → i_inum x' = i_inum x → 1 ≤ i_ref x' → sl_locked (i_lock x') = 0 → i_valid x' = 0 →
  wp (iupdate ip;; ilock ip') (λ _ s',
    fs_inode s' = <[ip' := mkInode (i_dev x') (i_inum x') (i_ref x') (mkSleeplock 1 (fs_pid s)) 1
      (i_type x) (i_major x) (i_minor x) (i_nlink x) (i_size x) (i_addrs x)]> (fs_inode s)) s.
Proof.
  intros x x' Hlen Hi Hs Hroom Hdev Hin Hf Hty Hh Hdev' Hin' Href Hlk Hval. pose proof Hroom as [Hc Hr].
  destruct (IBLOCK_range g _ _ Hs Hin) as [Hb Hg].
  apply wp_bind. eapply wp_mono; [eapply iupdate_spec; done|]. intros [] s1 (st1 & -> & Hi1). fold x in Hi1.
  set (V1 := V_iupdate (fs_sb s) x V) in *.
  assert (HV : V1 (IBLOCK (i_inum x) (fs_sb s)) = dinode_write x (V (IBLOCK (i_inum x) (fs_sb s)))).
  { apply fn_lookup_insert. }
  assert (Hd : ∀ y, dinode_read (i_inum x') (V1 (IBLOCK (i_inum x') (fs_sb s))) y =
    set_iaddrs (i_addrs x) (set_isize (i_size x)
      (set_imeta (i_major x) (i_minor x) (i_nlink x) (set_itype (i_type x) y)))).
  { intros y. rewrite Hin', HV. apply dinode_read_write; [done|]. by eapply (tx_inv_len g). }
  pose proof (size_add L (IBLOCK (i_inum x) (fs_sb s))).
  eapply wp_mono; [eapply (ilock_spec g (with_st s st1)); cbn [with_st fs_inode fs_sb fs_pid fs_st]; fold x'|].
  - done.
  - exact Hi1.
  - done.
  - done.
  - by rewrite Hin'.
  - done.
  - done.
  - done.
  - by rewrite Hd.
  - by rewrite Hin'.
  - lia.
  - intros [] s2 (st2 & -> & _). cbn [with_inode with_st fs_inode fs_sb fs_pid]. fold x'. by rewrite Hd.
Qed.
End specs.

(** ** The inode cache *)

(** Entry [x] is in use for the inode [(dev, inum)]. *)
Definition i_is (dev inum : Z) (x : inode) : bool := (0 <? i_ref x) && (i_dev x =? dev) && (i_inum x =? inum).

(** No two entries in use for one inode; reference counts are not negative. *)
Definition icache_ok (l : list inode) : Prop :=
  (∀ i x, l !! i = Some x → 0 ≤ i_ref x) ∧
  (∀ i j x y, l !! i = Some x → l !! j = Some y → 0 < i_ref x → 0 < i_ref y →
     i_dev x = i_dev y → i_inum x = i_inum y → i = j).

Lemma i_is_true dev inum x : i_is dev inum x = true ↔ 0 < i_ref x ∧ i_dev x = dev ∧ i_inum x = inum.
Proof.
  unfold i_is. rewrite !andb_true_iff, Z.ltb_lt, !Z.eqb_eq. tauto.
Qed.

Lemma iget_scan_spec l dev inum n e :
  match iget_scan l dev inum n e with
  | (Some i, _) => ∃ k x, i = (n + k)%nat ∧ l !! k = Some x ∧ i_is dev inum x = true
  | (None, e') =>
      (∀ k x, l !! k = Some x → i_is dev inum x = false) ∧
      match e with
      | Some _ => e' = e
      | None => match e' with
                | Some i => ∃ k x, i = (n + k)%nat ∧ l !! k = Some x ∧ i_ref x = 0
                | None => ∀ k x, l !! k = Some x → i_ref x ≠ 0
                end
      end
  end.
Proof.
  revert n e. induction l as [|x l IH]; intros n e; cbn [iget_scan].
  { split; [done|]. by destruct e. }
  fold (i_is dev inum x). destruct (i_is dev inum x) eqn:Hx.
  { exists 0%nat, x. split_and!; [lia|done|done]. }
  set (e1 := match e with None => _ | _ => _ end). specialize (IH (S n) e1).
  destruct (iget_scan l dev inum (S n) e1) as [[i|] e'].
  { destruct IH as (k & y & -> & Hk & Hy). exists (S k), y. split_and!; [lia|done|done]. }
  destruct IH as [Hno He]. split; [intros [|k] y Hk; [by simplify_eq/=|by eapply Hno]|].
  destruct e as [e|]; [done|]. unfold e1 in He. destruct (Z.eqb_spec (i_ref x) 0) as [H0|H0].
  - subst e'. exists 0%nat, x. split_and!; [lia|done|done].
  - destruct e' as [i|].
    + destruct He as (k & y & -> & Hk & Hy). exists (S k), y. split_and!; [lia|done|done].
    + intros [|k] y Hk; [by simplify_eq/=|by eapply He].
Qed.

Section icache.
Context {S : Type}.
Implicit Types (s : fsst S).

(** [iget] returns an entry for the inode with one more reference, the only
    entry in use for it; it panics only when no entry is free. *)
Lemma iget_ok s dev inum :
  icache_ok (fs_inode s) →
  wpp (iget dev inum) (λ ip s',
    ∃ x, fs_inode s !! ip = Some x ∧ icache_ok (fs_inode s') ∧
      ∃ y, s' = with_inode s (<[ip := y]> (fs_inode s)) ∧ i_dev y = dev ∧ i_inum y = inum ∧ i_lock y = i_lock x ∧
        (0 < i_ref x ∧ i_dev x = dev ∧ i_inum x = inum ∧ y = set_iref (i_ref x + 1) x ∨
         i_ref x = 0 ∧ i_ref y = 1 ∧ i_valid y = 0 ∧ ∀ j z, fs_inode s !! j = Some z → i_is dev inum z = false))
    (λ msg, msg = "iget: no inodes"%string ∧ ∀ j z, fs_inode s !! j = Some z → 0 < i_ref z ∧ i_is dev inum z = false) s.
Proof.
  intros [Href Huniq]. pose proof (iget_scan_spec (fs_inode s) dev inum 0 None) as Hscan.
  unfold iget. apply wp_wpp_bind, wp_getS, wp_ret.
  destruct (iget_scan (fs_inode s) dev inum 0 None) as [[ip|] e].
  - destruct Hscan as (k & x & -> & Hk & Hx). cbn [Nat.add]. apply wp_wpp. unfold upd_inode. apply wp_modify, wp_ret.
    pose proof Hx as (Hr & Hd & Hn)%i_is_true. exists x. split; [done|].
    rewrite alter_insert, (list_lookup_total_correct _ _ _ Hk). cbn [fs_inode].
    split.
    + split.
      * intros i z. rewrite list_lookup_insert_Some. intros [(-> & <- & _)|[_ Hz]]; [simpl; lia|by eapply Href].
      * intros i j z w. rewrite !list_lookup_insert_Some.
        intros [(<- & <- & _)|[Hi Hz]] [(<- & <- & _)|[Hj Hw]] Hz0 Hw0 Hdv Hnm; simpl in *; try done.
        -- symmetry. apply (Huniq j k w x); congruence || lia.
        -- apply (Huniq i k z x); congruence || lia.
        -- by apply (Huniq i j z w).
    + eexists. split_and!; [done|done|done|done|]. left. done.
  - destruct Hscan as [Hno He]. destruct e as [ip|].
    + destruct He as (k & x & -> & Hk & Hx). cbn [Nat.add]. apply wp_wpp. unfold upd_inode. apply wp_modify, wp_ret.
      exists x. split; [done|]. rewrite alter_insert, (list_lookup_total_correct _ _ _ Hk). cbn [fs_inode].
      assert (Hfresh : ∀ i z, fs_inode s !! i = Some z → 0 < i_ref z → i_dev z = dev → i_inum z = inum → False).
      { intros i z Hz Hz0 Hd Hn. specialize (Hno _ _ Hz). apply not_true_iff_false in Hno. apply Hno. by apply i_is_true. }
      split.
      * split.
        -- intros i z. rewrite list_lookup_insert_Some. intros [(-> & <- & _)|[_ Hz]]; [simpl; lia|by eapply Href].
        -- intros i j z w. rewrite !list_lookup_insert_Some.
           intros [(<- & <- & _)|[Hi Hz]] [(<- & <- & _)|[Hj Hw]] Hz0 Hw0 Hdv Hnm; simpl in *; try done.
           ++ exfalso. by eapply (Hfresh j w).
           ++ exfalso. by eapply (Hfresh i z).
           ++ by apply (Huniq i j z w).
      * eexists. split_and!; [done|done|done|done|]. right. done.
    + split; [done|]. intros j z Hz. split; [|by eapply Hno]. specialize (Href _ _ Hz). specialize (He _ _ Hz). lia.
Qed.

(** [iget] returns the one cache slot of an inode, or takes a free one. *)
Theorem iget_correct s dev inum :
  icache_ok (fs_inode s) →
  wpp (iget dev inum) (λ ip s',
    ∃ x, fs_inode s !! ip = Some x ∧ icache_ok (fs_inode s') ∧
      ∃ y, s' = with_inode s (<[ip := y]> (fs_inode s)) ∧ i_dev y = dev ∧ i_inum y = inum ∧ i_lock y = i_lock x ∧
        (0 < i_ref x ∧ i_dev x = dev ∧ i_inum x = inum ∧ y = set_iref (i_ref x + 1) x ∨
         i_ref x = 0 ∧ i_ref y = 1 ∧ i_valid y = 0 ∧ ∀ j z, fs_inode s !! j = Some z → i_is dev inum z = false))
    (λ msg, msg = "iget: no inodes"%string ∧ ∀ j z, fs_inode s !! j = Some z → 0 < i_ref z ∧ i_is dev inum z = false) s.
Proof. apply iget_ok. Qed.
End icache.
