(* ===== verification/FsFile.v ===== *)
(** * File contents (src/fs.c: [bmap], [readi], [writei])

    The block map of an inode as a function, the bytes of a file, and the
    theorems that [readi] returns them and [writei] changes exactly the range it
    is given. *)

From S2P Require Import Prelude Dll Sleeplock Bio Memide FsLayout Log LogCrash LogProtocol Tx CString Fs FsAlloc FsInode.

(** The block that holds block [bn] of the file, 0 if there is none. *)
Definition faddr (V : Z → list byte) (x : inode) (bn : Z) : Z :=
  if bn <? NDIRECT then i_addrs x !!! Z.to_nat bn
  else if i_addrs x !!! 12%nat =? 0 then 0
  else ld 4 (4 * Z.to_nat (bn - NDIRECT)) (V (i_addrs x !!! 12%nat)).

(** Byte [pos] of the file, and [n] bytes from [off]. *)
Definition fbyte (V : Z → list byte) (x : inode) (pos : Z) : byte :=
  nth (Z.to_nat (pos mod Z.of_nat BSIZE)) (V (faddr V x (pos / Z.of_nat BSIZE))) Byte.x00.
Definition fread (V : Z → list byte) (x : inode) (off : Z) (n : nat) : list byte :=
  (λ i, fbyte V x (off + Z.of_nat i)) <$> seq 0 n.

(** The block map of [x] is well formed: its blocks are distinct data blocks
    that the bitmap has in use. *)
Record file_wf (g : geom) (sb : superblock) (V : Z → list byte) (x : inode) : Prop := {
  fw_len : length (i_addrs x) = 13%nat;
  fw_ind : i_addrs x !!! 12%nat ≠ 0 → is_data g sb (i_addrs x !!! 12%nat) ∧ used sb V (i_addrs x !!! 12%nat) = true;
  fw_blk : ∀ bn, 0 ≤ bn < MAXFILE → faddr V x bn ≠ 0 →
    is_data g sb (faddr V x bn) ∧ used sb V (faddr V x bn) = true ∧ faddr V x bn ≠ i_addrs x !!! 12%nat;
  fw_inj : ∀ bn bn', 0 ≤ bn < MAXFILE → 0 ≤ bn' < MAXFILE → faddr V x bn ≠ 0 →
    faddr V x bn = faddr V x bn' → bn = bn';
}.

(** Every block of the first [hi] bytes is mapped. *)
Definition mapped (V : Z → list byte) (x : inode) (hi : Z) : Prop :=
  ∀ bn, 0 ≤ bn < MAXFILE → bn * Z.of_nat BSIZE < hi → faddr V x bn ≠ 0.

Lemma MAXFILE_val : MAXFILE = 140.
Proof. reflexivity. Qed.
Lemma BSIZE_val : BSIZE = 512%nat.
Proof. reflexivity. Qed.

Section bmap.
Context {S : Type} {ops : TxStore S} {laws : TxLaws S}.
Implicit Types (s : fsst S) (V : Z → list byte) (L : gset Z).

(** The map changes at [bn] only, to [b]. *)
Definition mapped_at V x V' x' (bn b : Z) : Prop :=
  faddr V' x' bn = b ∧ ∀ bn', 0 ≤ bn' < MAXFILE → bn' ≠ bn → faddr V' x' bn' = faddr V x bn'.

(** Storing a fresh block in a direct slot. *)
Lemma faddr_direct V x bn b V' :
  length (i_addrs x) = 13%nat → 0 ≤ bn < NDIRECT →
  (i_addrs x !!! 12%nat ≠ 0 → V' (i_addrs x !!! 12%nat) = V (i_addrs x !!! 12%nat)) →
  mapped_at V x V' (set_iaddrs (<[Z.to_nat bn := b]> (i_addrs x)) x) bn b.
Proof.
  intros Hl Hbn HV. unfold NDIRECT in *. split.
  - unfold faddr, NDIRECT. rewrite (proj2 (Z.ltb_lt _ _)) by lia. cbn. by rewrite list_lookup_total_insert_eq by lia.
  - intros bn' Hbn' Hne. unfold faddr, NDIRECT. cbn [i_addrs set_iaddrs].
    rewrite (list_lookup_total_insert_ne _ _ 12) by lia. destruct (Z.ltb_spec bn' 12).
    + by rewrite list_lookup_total_insert_ne by lia.
    + destruct (Z.eqb_spec (i_addrs x !!! 12%nat) 0); [done|]. by rewrite HV.
Qed.

(** Storing a fresh block in a slot of the indirect block. *)
Lemma faddr_indirect V x bn b V' :
  NDIRECT ≤ bn < MAXFILE → i_addrs x !!! 12%nat ≠ 0 → length (V (i_addrs x !!! 12%nat)) = BSIZE →
  0 ≤ b < 2 ^ 32 →
  V' (i_addrs x !!! 12%nat) = st 4 (4 * Z.to_nat (bn - NDIRECT)) b (V (i_addrs x !!! 12%nat)) →
  mapped_at V x V' x bn b.
Proof.
  intros Hbn H0 Hl Hb HV. rewrite MAXFILE_val in Hbn. rewrite BSIZE_val in Hl. unfold NDIRECT in *. split.
  - unfold faddr, NDIRECT. rewrite (proj2 (Z.ltb_ge _ _)), (proj2 (Z.eqb_neq _ _)) by lia. rewrite HV.
    rewrite ld_st_eq by (rewrite Hl; lia). by apply u32_small.
  - intros bn' Hbn' Hne. rewrite MAXFILE_val in Hbn'. unfold faddr, NDIRECT. destruct (Z.ltb_spec bn' 12); [done|].
    rewrite (proj2 (Z.eqb_neq _ _)) by lia. rewrite HV. apply ld_st_ne; rewrite ?Hl; lia.
Qed.

(** Mapping a fresh data block keeps the map well formed. *)
Lemma file_wf_mapped g sb V x V' x' bn b :
  file_wf g sb V x → 0 ≤ bn < MAXFILE → mapped_at V x V' x' bn b →
  length (i_addrs x') = 13%nat → i_addrs x' !!! 12%nat = i_addrs x !!! 12%nat →
  is_data g sb b → used sb V b = false → used sb V' b = true →
  (∀ k, is_data g sb k → used sb V k = true → used sb V' k = true) →
  file_wf g sb V' x'.
Proof.
  intros [Hl Hind Hblk Hinj] Hbn [Hat Hne] Hl' Hi' Hb Hub Hub' Hmono. split; [done| | |]; rewrite ?Hi'.
  - intros H0. destruct (Hind H0). auto.
  - intros bn' Hbn' H0. destruct (decide (bn' = bn)) as [->|Hn].
    + rewrite Hat in *. split_and!; [done|done|]. intros E. rewrite <-E in Hind.
      destruct Hind as [_ ?]; [|congruence]. destruct Hb. lia.
    + rewrite Hne in * by done. destruct (Hblk bn' Hbn' H0) as (? & ? & ?). auto.
  - assert (Hfr : ∀ bn', 0 ≤ bn' < MAXFILE → faddr V x bn' ≠ b).
    { intros bn' Hbn' E. destruct (Hblk bn' Hbn') as (_ & ? & _); [rewrite E; destruct Hb; lia|congruence]. }
    intros b1 b2 H1 H2 H0 E. destruct (decide (b1 = bn)) as [->|N1], (decide (b2 = bn)) as [->|N2]; [done|..].
    + rewrite Hat, (Hne b2) in E by done. by destruct (Hfr b2 H2).
    + rewrite Hat, (Hne b1) in E by done. by destruct (Hfr b1 H1).
    + rewrite !Hne in * by done. by apply Hinj.
Qed.

(** The blocks of the file: its indirect block and those it maps. *)
Definition file_owns V x (k : Z) : Prop :=
  k ≠ 0 ∧ (k = i_addrs x !!! 12%nat ∨ ∃ bn, 0 ≤ bn < MAXFILE ∧ k = faddr V x bn).

(** A change to the file leaves the rest of the disk alone: no block in use is freed,
    those that are neither the file's nor in the bitmap are unchanged, and the blocks
    the file gained were free. *)
Record isolated (g : geom) (sb : superblock) V x V' x' : Prop := {
  is_used : ∀ k, 0 ≤ k < g_size g → used sb V k = true → used sb V' k = true;
  is_keep : ∀ k, 0 ≤ k < g_size g → used sb V k = true → (∀ b, 0 ≤ b < g_size g → k ≠ BBLOCK b sb) → ¬ file_owns V x k → V' k = V k;
  is_own : ∀ k, file_owns V' x' k → file_owns V x k ∨ used sb V k = false;
}.

Lemma isolated_refl g sb V x : isolated g sb V x V x.
Proof. split; auto. Qed.

Lemma isolated_trans g sb V x V1 x1 V2 x2 :
  isolated g sb V x V1 x1 → isolated g sb V1 x1 V2 x2 → (∀ k, file_owns V2 x2 k → 0 ≤ k < g_size g) → isolated g sb V x V2 x2.
Proof.
  intros [U1 K1 O1] [U2 K2 O2] Hr. split.
  - auto.
  - intros k Hk Hu Hb Hn. rewrite K2, K1; auto. intros [?|?]%O1; congruence.
  - intros k Hk. destruct (O2 k Hk) as [Ho|Hf]; [by apply O1|]. right. specialize (U1 k (Hr k Hk)). destruct (used sb V k); [|done]. by rewrite U1 in Hf.
Qed.

Lemma file_owns_range g sb V x k : file_wf g sb V x → file_owns V x k → is_data g sb k.
Proof.
  intros Hwf [H0 [->|(bn & Hbn & ->)]]; [by apply (fw_ind _ _ _ _ Hwf)|by apply (fw_blk _ _ _ _ Hwf)].
Qed.

(** Mapping a fresh block. *)
Lemma isolated_mapped g sb V x V' x' bn b :
  mapped_at V x V' x' bn b → i_addrs x' !!! 12%nat = i_addrs x !!! 12%nat → used sb V b = false →
  (∀ k, 0 ≤ k < g_size g → used sb V k = true → used sb V' k = true) →
  (∀ k, (∀ b', 0 ≤ b' < g_size g → k ≠ BBLOCK b' sb) → k ≠ b → ¬ file_owns V x k → V' k = V k) → isolated g sb V x V' x'.
Proof.
  intros [Hat Hne] H12 Hub Hu Hk. split; [done| |].
  - intros k _ Huk Hb Hn. apply Hk; [done| |done]. intros ->. congruence.
  - intros k [H0 [->|(bn' & Hb' & ->)]]; [left; split; [done|left; congruence]|].
    destruct (decide (bn' = bn)) as [->|Hn]; [right; by rewrite Hat|]. left. split; [done|]. right. exists bn'. split; [done|by apply Hne].
Qed.

(** The blocks that the first [hi] bytes of the file lack, the indirect block included, and
    what the disk has left over for others once they are allocated. *)
Definition lacking V x (hi : Z) : Z :=
  tally (λ bn, (bn * Z.of_nat BSIZE <? hi) && (faddr V x bn =? 0)) (Z.to_nat MAXFILE) +
  Z.b2z ((NDIRECT * Z.of_nat BSIZE <? hi) && (i_addrs x !!! 12%nat =? 0)).
Definition spare (g : geom) (sb : superblock) V x (hi : Z) : Z := free_blocks g sb V - lacking V x hi.

(** The disk has fewer free blocks than the file of [hi] bytes lacks. *)
Definition disk_full (g : geom) (sb : superblock) V x (hi : Z) (msg : string) : Prop :=
  msg = "balloc: out of blocks"%string ∧ free_blocks g sb V < lacking V x hi.

Lemma disk_full_spare g sb V x V' x' hi msg :
  spare g sb V' x' hi = spare g sb V x hi → disk_full g sb V' x' hi msg → disk_full g sb V x hi msg.
Proof. unfold spare, disk_full. intros E [-> H]. split; [done|lia]. Qed.

Lemma disk_full_mono g sb V x hi hi' msg : hi ≤ hi' → disk_full g sb V x hi msg → disk_full g sb V x hi' msg.
Proof.
  intros Hle [-> H]. split; [done|]. eapply Z.lt_le_trans; [exact H|]. unfold lacking. apply Z.add_le_mono.
  - apply tally_mono. intros k _ [Hk Hf]%andb_true_iff. rewrite Hf, andb_true_r. apply Z.ltb_lt in Hk. apply Z.ltb_lt. lia.
  - destruct (Z.ltb_spec (NDIRECT * Z.of_nat BSIZE) hi), (Z.ltb_spec (NDIRECT * Z.of_nat BSIZE) hi'), (i_addrs x !!! 12%nat =? 0); cbn; lia.
Qed.

Lemma spare_ext g sb V x V' x' hi :
  (∀ bn, faddr V' x' bn = faddr V x bn) → i_addrs x' !!! 12%nat = i_addrs x !!! 12%nat →
  (∀ k, 0 ≤ k < g_size g → used sb V' k = used sb V k) → spare g sb V' x' hi = spare g sb V x hi.
Proof.
  intros Hf H12 Hu. unfold spare, lacking. rewrite (free_blocks_ext g sb V V'), H12 by done. do 2 f_equal.
  apply tally_ext. intros bn _. by rewrite Hf.
Qed.

Lemma lacking_pos V x hi bn :
  0 ≤ bn < MAXFILE → bn * Z.of_nat BSIZE < hi → faddr V x bn = 0 ∨ NDIRECT ≤ bn ∧ i_addrs x !!! 12%nat = 0 → 0 < lacking V x hi.
Proof.
  intros Hbn Hlt H. unfold lacking. pose proof (tally_nonneg (λ bn, (bn * Z.of_nat BSIZE <? hi) && (faddr V x bn =? 0)) (Z.to_nat MAXFILE)) as Hn.
  destruct H as [H|[Hd ->]].
  - pose proof (tally_pos (λ bn, (bn * Z.of_nat BSIZE <? hi) && (faddr V x bn =? 0)) (Z.to_nat MAXFILE) bn) as Hp.
    cbv beta in Hp. rewrite H, (proj2 (Z.ltb_lt _ _)) in Hp by done. specialize (Hp ltac:(lia) eq_refl). match goal with |- context [Z.b2z ?c] => destruct c end; cbn [Z.b2z]; lia.
  - rewrite (proj2 (Z.ltb_lt _ _)) by (rewrite BSIZE_val in *; unfold NDIRECT in *; lia). cbn [Z.eqb andb Z.b2z]. lia.
Qed.

Lemma lacking_mapped V x hi : mapped V x hi → lacking V x hi = 0.
Proof.
  intros Hm. unfold lacking. rewrite tally_none.
  - destruct (Z.ltb_spec (NDIRECT * Z.of_nat BSIZE) hi) as [Hlt|]; [|done]. cbn [andb].
    specialize (Hm NDIRECT ltac:(rewrite MAXFILE_val; unfold NDIRECT; lia) Hlt). unfold faddr in Hm. rewrite Z.ltb_irrefl in Hm.
    destruct (i_addrs x !!! 12%nat =? 0); done.
  - intros bn Hbn. destruct (Z.ltb_spec (bn * Z.of_nat BSIZE) hi) as [Hlt|]; [|done]. cbn [andb].
    apply Z.eqb_neq, Hm; [lia|done].
Qed.

(** A block allocated and mapped leaves as much over as before. *)
Lemma spare_mapped g sb V x V' x' bn b hi :
  mapped_at V x V' x' bn b → b ≠ 0 → faddr V x bn = 0 → i_addrs x' !!! 12%nat = i_addrs x !!! 12%nat →
  free_blocks g sb V = free_blocks g sb V' + 1 → 0 ≤ bn < MAXFILE → bn * Z.of_nat BSIZE < hi → spare g sb V' x' hi = spare g sb V x hi.
Proof.
  intros [Ha Hn] Hb H0 H12 Hf Hbn Hlt. unfold spare, lacking. rewrite H12.
  rewrite (tally_less (λ bn, (bn * Z.of_nat BSIZE <? hi) && (faddr V x bn =? 0)) (λ bn, (bn * Z.of_nat BSIZE <? hi) && (faddr V' x' bn =? 0)) _ bn).
  - lia.
  - lia.
  - by rewrite H0, (proj2 (Z.ltb_lt _ _)).
  - by rewrite Ha, (proj2 (Z.eqb_neq _ _)), andb_false_r.
  - intros j Hj Hne. rewrite Hn; [done|lia|done].
Qed.

Lemma spare_indirect g sb V x V' x' hi :
  (∀ bn, 0 ≤ bn → faddr V' x' bn = faddr V x bn) → i_addrs x !!! 12%nat = 0 → i_addrs x' !!! 12%nat ≠ 0 →
  free_blocks g sb V = free_blocks g sb V' + 1 → NDIRECT * Z.of_nat BSIZE < hi → spare g sb V' x' hi = spare g sb V x hi.
Proof.
  intros Hfa H0 H1 Hf Hlt. unfold spare, lacking. rewrite H0, (proj2 (Z.eqb_neq _ _) H1), (proj2 (Z.ltb_lt _ _) Hlt). cbn [Z.eqb andb Z.b2z].
  rewrite (tally_ext (λ bn, (bn * Z.of_nat BSIZE <? hi) && (faddr V' x' bn =? 0)) (λ bn, (bn * Z.of_nat BSIZE <? hi) && (faddr V x bn =? 0)));
    [lia|]. intros k Hk. by rewrite Hfa by lia.
Qed.

(** What a call of [bmap] gives its callers. *)
Definition bmap_post (g : geom) s V L (ip : nat) (bn b : Z) (s' : fsst S) : Prop :=
  let x := fs_inode s !!! ip in let sb := fs_sb s in
  ∃ st' V' L' a', let x' := set_iaddrs a' x in
    s' = with_inode (with_st s st') (<[ip := x']> (fs_inode s)) ∧
    alloc_ok g s' V' L' ∅ ∧ file_wf g sb V' x' ∧
    (base.size L' ≤ base.size L + 5)%nat ∧
    is_data g sb b ∧ mapped_at V x V' x' bn b ∧
    (faddr V x bn ≠ 0 → b = faddr V x bn ∧ V' b = V b ∧ L' = L ∧ V' = V ∧ x' = x) ∧
    (faddr V x bn = 0 → V' b = zeros) ∧
    (∀ bn', 0 ≤ bn' < MAXFILE → faddr V x bn' ≠ 0 → V' (faddr V x bn') = V (faddr V x bn')) ∧
    isolated g sb V x V' x' ∧ (∀ hi, bn * Z.of_nat BSIZE < hi → spare g sb V' x' hi = spare g sb V x hi).

Lemma get_inode_ok ip (Q : inode → fsst S → Prop) s : Q (fs_inode s !!! ip) s → wp (get_inode ip) Q s.
Proof. done. Qed.

Lemma set_iaddrs_id x : set_iaddrs (i_addrs x) x = x.
Proof. by destruct x. Qed.

Lemma with_inode_id s ip : (ip < length (fs_inode s))%nat → with_inode s (<[ip := fs_inode s !!! ip]> (fs_inode s)) = s.
Proof. intros Hl. unfold with_inode. rewrite list_insert_id; [by destruct s|]. by apply list_lookup_lookup_total_lt. Qed.

(** The environment of a file operation: nothing held, room in the log. *)
Record file_env (g : geom) s V L (ip : nat) : Prop := {
  fe_alloc : alloc_ok g s V L ∅;
  fe_len : (ip < length (fs_inode s))%nat;
  fe_dev : i_dev (fs_inode s !!! ip) = ROOTDEV;
  fe_wf : file_wf g (fs_sb s) V (fs_inode s !!! ip);
}.

Lemma alloc_ok_inode g s V L H l : alloc_ok g s V L H → alloc_ok g (with_inode s l) V L H.
Proof. intros []. by split. Qed.

Lemma set_iaddrs_twice a b x : set_iaddrs a (set_iaddrs b x) = set_iaddrs a x.
Proof. done. Qed.

(** [balloc] with what its callers in [bmap] use of it. *)
Lemma wpp_balloc {A} g s V L H (k : Z → M (fsst S) A) (Q : A → fsst S → Prop) (E : string → Prop) :
  alloc_ok g s V L H → room g L H 2 → (free_blocks g (fs_sb s) V = 0 → E "balloc: out of blocks"%string) →
  (∀ b st' V' L', alloc_ok g (with_st s st') V' L' H →
     is_data g (fs_sb s) b → used (fs_sb s) V b = false → used (fs_sb s) V' b = true → V' b = zeros →
     (base.size L' ≤ base.size L + 2)%nat → b ∉ held H →
     (∀ k, 0 ≤ k < g_size g → used (fs_sb s) V k = true → used (fs_sb s) V' k = true) →
     (∀ k, is_data g (fs_sb s) k → k ≠ b → V' k = V k) →
     (∀ k, (∀ b', 0 ≤ b' < g_size g → k ≠ BBLOCK b' (fs_sb s)) → k ≠ b → V' k = V k) →
     free_blocks g (fs_sb s) V = free_blocks g (fs_sb s) V' + 1 →
     wpp (k b) Q E (with_st s st')) →
  wpp (balloc ROOTDEV ≫= k) Q E s.
Proof.
  intros Hok Hr HE HQ. apply wpp_bind. eapply wpp_mono; [by apply balloc_ok| |intros msg [-> Hf]; by apply HE, free_blocks_none].
  intros b s' Hp. pose proof (balloc_frame _ _ _ _ _ _ _ Hok Hp) as (Hd & Hz & Hok' & Hnh & Hsz & Hu & Hk).
  destruct Hp as (st' & -> & Hb & Hub & _ & _).
  eapply HQ; [exact Hok'|done|done| |done|done|done| | |done|by apply free_blocks_taken with b].
  - rewrite Hu by lia. by rewrite bool_decide_true, orb_true_r.
  - intros k' Hk' Hu'. rewrite Hu by done. by rewrite Hu'.
  - intros k' (_ & _ & _ & Hbb & _). by apply Hk.
Qed.

(** The direct blocks. *)
Lemma bmap_direct g s V L ip bn hi :
  file_env g s V L ip → room g L ∅ 5 → 0 ≤ bn < NDIRECT → bn * Z.of_nat BSIZE < hi →
  wpp (bmap ip bn) (bmap_post g s V L ip bn) (disk_full g (fs_sb s) V (fs_inode s !!! ip) hi) s.
Proof.
  intros [Hok Hlen Hdev Hwf] [Hc Hr] Hbn Hhi. pose proof (fw_len _ _ _ _ Hwf) as Hl.
  set (x := fs_inode s !!! ip) in *. set (sb := fs_sb s) in *.
  assert (Hbn' : 0 ≤ bn < MAXFILE) by (rewrite MAXFILE_val; unfold NDIRECT in *; lia).
  assert (Hfa : faddr V x bn = i_addrs x !!! Z.to_nat bn).
  { unfold faddr. by rewrite (proj2 (Z.ltb_lt _ _)) by lia. }
  unfold bmap. apply wp_wpp_bind. apply get_inode_ok. fold x. rewrite (proj2 (Z.ltb_lt _ _)) by lia. rewrite <-Hfa.
  destruct (Z.eqb_spec (faddr V x bn) 0) as [H0|H0].
  - rewrite Hdev. eapply wpp_balloc; [exact Hok|split; lia| |].
    { intros Hf. fold sb in Hf |- *. pose proof (lacking_pos V x hi bn Hbn' Hhi (or_introl H0)). split; [done|lia]. }
    intros b st' V' L' Hok' Hd Hub Hub' Hz Hsz _ Hu Hk Hk' Hf. apply wp_wpp. unfold upd_inode. apply wp_modify, wp_ret.
    assert (Hma : mapped_at V x V' (set_iaddrs (<[Z.to_nat bn := b]> (i_addrs x)) x) bn b).
    { apply faddr_direct; [done|done|]. intros Hi. destruct (fw_ind _ _ _ _ Hwf Hi) as [Hdi Hui].
      apply Hk; [done|]. intros E. rewrite E in Hui. fold sb in Hub. congruence. }
    exists st', V', L', (<[Z.to_nat bn := b]> (i_addrs x)). fold x sb. cbn [with_st fs_inode fs_st fs_sb fs_pid fs_cwd].
    rewrite alter_insert. fold x. split_and!; [done|by apply (alloc_ok_inode g (with_st s st'))| |lia|done|done|done|done| | |].
    + eapply file_wf_mapped; [exact Hwf|done|exact Hma| | |done|done|done|].
      * cbn. by rewrite length_insert. * cbn. by rewrite list_lookup_total_insert_ne by (unfold NDIRECT in *; lia).
      * intros k (? & _) ?. apply Hu; [lia|done].
    + intros bn1 Hb1 Hn. destruct (fw_blk _ _ _ _ Hwf bn1 Hb1 Hn) as (? & Hu1 & _). apply Hk; [done|].
      intros E. rewrite E in Hu1. fold sb in Hub. congruence.
    + eapply isolated_mapped; [exact Hma| |done|done|auto]. cbn. by rewrite list_lookup_total_insert_ne by (unfold NDIRECT in *; lia).
    + intros hi' Hhi'. eapply spare_mapped; [exact Hma|destruct Hd; lia|done| |done|done|done].
      cbn. by rewrite list_lookup_total_insert_ne by (unfold NDIRECT in *; lia).
  - apply wp_wpp, wp_ret. exists (fs_st s), V, L, (i_addrs x). fold x sb. rewrite set_iaddrs_id, with_st_id.
    unfold x at 1. rewrite with_inode_id by done. destruct (fw_blk _ _ _ _ Hwf bn Hbn' H0) as (? & ? & _).
    split_and!; try done; [lia|apply isolated_refl].
Qed.

(** The entry of the indirect block set to a fresh block. *)
Lemma indirect_stored g s V x bn b V2 d' :
  let sb := fs_sb s in let ind := i_addrs x !!! 12%nat in
  file_wf g sb V x → NDIRECT ≤ bn < MAXFILE → ind ≠ 0 → length (V ind) = BSIZE → is_data g sb b →
  g_size g ≤ 2 ^ 31 → used sb V b = false → used sb V2 b = true →
  (∀ k, 0 ≤ k < g_size g → used sb V k = true → used sb V2 k = true) →
  (∀ k, (∀ b', 0 ≤ b' < g_size g → k ≠ BBLOCK b' sb) → k ≠ b → V2 k = V k) →
  d' = st 4 (4 * Z.to_nat (bn - NDIRECT)) b (V ind) →
  let V' := <[ind := d']> V2 in
  (∀ k, 0 ≤ k < g_size g → used sb V' k = used sb V2 k) ∧ mapped_at V x V' x bn b ∧ file_wf g sb V' x ∧ isolated g sb V x V' x.
Proof.
  intros sb ind Hwf Hbn Hi0 HlV Hd Hsz Hub Hub2 Hu Hk -> V'. destruct (fw_ind _ _ _ _ Hwf Hi0) as [(Hir & _ & _ & Hib & _) _]. fold ind in Hib.
  assert (Hu' : ∀ k, 0 ≤ k < g_size g → used sb V' k = used sb V2 k).
  { intros k Hkr. unfold used, V'. rewrite fn_lookup_insert_ne; [done|]. by apply Hib. }
  assert (Hma : mapped_at V x V' x bn b).
  { apply faddr_indirect; [done|done|done|destruct Hd as ((? & ?) & _); lia|]. fold ind. unfold V'. by rewrite fn_lookup_insert. }
  split_and!; [done|done| |].
  - apply (file_wf_mapped g sb V x V' x bn b); [exact Hwf|unfold NDIRECT in *; lia|exact Hma|apply Hwf|done|done|done| |].
    + rewrite Hu'; [done|]. destruct Hd. lia.
    + intros k Hk' Huk. destruct Hk'. rewrite Hu' by lia. apply Hu; [lia|done].
  - eapply isolated_mapped; [exact Hma|done|done| |].
    + intros k Hk' Huk. rewrite Hu' by done. by apply Hu.
    + intros k Hb' Hkb Hno. unfold V'. rewrite fn_lookup_insert_ne; [by apply Hk|]. intros <-. apply Hno. split; [done|by left].
Qed.

(** The second half of the indirect case: the indirect block exists. *)
Lemma bmap_indirect_spec g s V L ip bn hi :
  let x := fs_inode s !!! ip in
  file_env g s V L ip → room g L ∅ 3 → NDIRECT ≤ bn < MAXFILE → bn * Z.of_nat BSIZE < hi → i_addrs x !!! 12%nat ≠ 0 →
  wpp (bmap_indirect ROOTDEV (i_addrs x !!! 12%nat) (bn - NDIRECT)) (λ b s',
    ∃ st' V' L', s' = with_st s st' ∧ alloc_ok g s' V' L' ∅ ∧ file_wf g (fs_sb s) V' x ∧
      (base.size L' ≤ base.size L + 3)%nat ∧ is_data g (fs_sb s) b ∧ mapped_at V x V' x bn b ∧
      (faddr V x bn ≠ 0 → b = faddr V x bn ∧ V' b = V b ∧ L' = L ∧ V' = V) ∧
      (faddr V x bn = 0 → V' b = zeros) ∧
      (∀ k, is_data g (fs_sb s) k → used (fs_sb s) V k = true → k ≠ i_addrs x !!! 12%nat → V' k = V k) ∧
      isolated g (fs_sb s) V x V' x ∧ (∀ hi', bn * Z.of_nat BSIZE < hi' → spare g (fs_sb s) V' x hi' = spare g (fs_sb s) V x hi'))
    (disk_full g (fs_sb s) V x hi) s.
Proof.
  intros x [Hok Hlen Hdev Hwf] [Hc Hr] Hbn Hhi Hi0. fold x in Hdev, Hwf. set (ind := i_addrs x !!! 12%nat) in *.
  set (sb := fs_sb s) in *. destruct (fw_ind _ _ _ _ Hwf Hi0) as [Hdi Hui]. fold ind in Hdi, Hui.
  pose proof Hdi as ((Hi1 & Hi2) & _ & Hig & Hib & _).
  assert (Hbn' : 0 ≤ bn < MAXFILE) by (unfold NDIRECT in *; lia).
  assert (Hfa : faddr V x bn = ld 4 (4 * Z.to_nat (bn - NDIRECT)) (V ind)).
  { unfold faddr. fold ind. by rewrite (proj2 (Z.ltb_ge _ _)), (proj2 (Z.eqb_neq _ _)) by lia. }
  pose proof (ao_inv _ _ _ _ _ Hok) as Hinv. assert (HlV : length (V ind) = BSIZE) by (eapply (tx_inv_len g); [done|lia]).
  unfold bmap_indirect. apply wp_wpp_bind.
  eapply wp_bread; [exact Hinv|lia|by rewrite held_nil|rewrite map_size_empty in *; lia|]. intros i st1 Hn Hinv1.
  apply wp_wpp_bind. eapply (wp_get_data g (with_st s st1)); [exact Hinv1|apply lookup_insert_eq|].
  rewrite <-Hfa. destruct (Z.eqb_spec (faddr V x bn) 0) as [H0|H0].
  - (* allocate the data block *)
    assert (Hok1 : alloc_ok g (with_st s st1) V L (<[i := (ind, V ind)]> ∅)).
    { destruct Hok as [_ Hs _ _ Hm]. split; try done.
      - intros k Hk. apply elem_of_held in Hk as (j & d & Hj). rewrite lookup_insert in Hj. case_decide; simplify_eq. done.
      - intros b Hb Hk. apply elem_of_held in Hk as (j & d & Hj). rewrite lookup_insert in Hj. case_decide; simplify_eq.
        by apply (Hib b). }
    assert (Hsz1 : base.size (<[i := (ind, V ind)]> (∅ : gmap nat (Z * list byte))) = 1%nat)
      by (rewrite insert_empty; apply map_size_singleton).
    apply wpp_bind. eapply (wpp_balloc g (with_st s st1)); [exact Hok1|split; rewrite ?Hsz1, ?map_size_empty in *; lia| |].
    { cbn [with_st fs_sb]. fold sb. intros Hf. pose proof (lacking_pos V x hi bn Hbn' Hhi (or_introl H0)). split; [done|lia]. }
    cbn [with_st fs_sb]. fold sb. intros b st2 V2 L2 Hok2 Hd Hub Hub2 Hz Hsz Hnh Hu Hk Hk2 Hf.
    rewrite with_st_with_st in *. pose proof (ao_inv _ _ _ _ _ Hok2) as Hinv2. cbn [with_st fs_st] in Hinv2.
    assert (Hib' : ind ≠ b) by (intros ->; congruence).
    assert (HV2 : V2 ind = V ind) by (by apply Hk).
    apply wp_wpp_bind. eapply (wp_get_data g (with_st s st2)); [exact Hinv2|apply lookup_insert_eq|].
    apply wp_wpp_bind. eapply (wp_put g (with_st s st2)); [exact Hinv2|apply lookup_insert_eq| |].
    { rewrite length_st; [done|]. rewrite HlV, BSIZE_val. rewrite MAXFILE_val in Hbn'. unfold NDIRECT. lia. }
    intros st3 Hinv3. rewrite insert_insert_eq in Hinv3. set (d' := st 4 _ b (V ind)) in *.
    apply wp_wpp_bind. eapply (wp_log_write g (with_st s st3)); [exact Hinv3|apply lookup_insert_eq|done|lia|].
    intros st4 Hinv4. apply wp_wpp, wp_ret, wp_wpp_bind.
    eapply (wp_brelse g (with_st s st4)); [exact Hinv4|by rewrite lookup_insert_eq, fn_lookup_insert|].
    intros st5 Hinv5. rewrite delete_insert_id in Hinv5 by done. apply wp_wpp, wp_ret.
    destruct (indirect_stored g s V x bn b V2 d' Hwf Hbn Hi0 HlV Hd) as (Hu' & Hma & Hwf' & His); try done; [by destruct Hok as [_ [[? ?] _ _ _ _] _ _ _]; lia|].
    fold ind sb in Hu', Hma, Hwf', His. exists st5, (<[ind := d']> V2), ({[ind]} ∪ L2). split_and!; [done| |done| |done|done|done| | |done|].
    + destruct Hok2 as [_ Hs _ _ Hm]. split; cbn [with_st fs_st fs_sb]; fold sb; try done.
      intros k Hk' Hnd. rewrite Hu' by done. by apply Hm.
    + pose proof (size_add L2 ind). lia.
    + intros _. by rewrite fn_lookup_insert_ne.
    + intros k Hk' Huk Hne. rewrite fn_lookup_insert_ne by done. apply Hk; [done|]. intros ->. congruence.
    + intros hi' Hhi'. eapply spare_mapped; [exact Hma|destruct Hd; lia|done|done| |done|done]. by rewrite (free_blocks_ext g sb V2 (<[ind := d']> V2) Hu').
  - apply wp_wpp, wp_bind, wp_ret, wp_bind. eapply (wp_brelse g (with_st s st1)); [exact Hinv1|apply lookup_insert_eq|].
    intros st2 Hinv2. rewrite delete_insert_id in Hinv2 by done. apply wp_ret.
    destruct (fw_blk _ _ _ _ Hwf bn Hbn' H0) as (? & ? & _).
    exists st2, V, L. split_and!; try done; [|lia|apply isolated_refl]. destruct Hok. by split.
Qed.

Lemma ld_zeros n off : ld n off zeros = 0.
Proof.
  unfold ld, zeros. rewrite drop_replicate, take_replicate.
  generalize (n `min` (BSIZE - off))%nat. intros k. induction k as [|k IH]; [done|]. cbn. by rewrite IH.
Qed.

(** Installing a fresh, zeroed indirect block maps nothing yet. *)
Lemma faddr_new_indirect V x V' b bn :
  length (i_addrs x) = 13%nat → i_addrs x !!! 12%nat = 0 → V' b = zeros → 0 ≤ bn →
  faddr V' (set_iaddrs (<[12%nat := b]> (i_addrs x)) x) bn = faddr V x bn.
Proof.
  intros Hl H0 Hz Hbn. unfold faddr, NDIRECT. cbn [i_addrs set_iaddrs]. rewrite list_lookup_total_insert_eq by lia.
  destruct (Z.ltb_spec bn 12); [by rewrite list_lookup_total_insert_ne by lia|].
  rewrite H0, Hz, ld_zeros. by case_match.
Qed.

Lemma indirect_installed g sb V x V1 b :
  let x1 := set_iaddrs (<[12%nat := b]> (i_addrs x)) x in
  file_wf g sb V x → i_addrs x !!! 12%nat = 0 → is_data g sb b → used sb V b = false → used sb V1 b = true → V1 b = zeros →
  (∀ k, 0 ≤ k < g_size g → used sb V k = true → used sb V1 k = true) →
  (∀ k, (∀ b', 0 ≤ b' < g_size g → k ≠ BBLOCK b' sb) → k ≠ b → V1 k = V k) →
  i_addrs x1 !!! 12%nat = b ∧ (∀ bn, 0 ≤ bn → faddr V1 x1 bn = faddr V x bn) ∧
  (∀ bn, 0 ≤ bn < MAXFILE → faddr V x bn ≠ 0 → faddr V x bn ≠ b) ∧ file_wf g sb V1 x1 ∧ isolated g sb V x V1 x1.
Proof.
  intros x1 Hwf H0 Hd Hub Hub1 Hz Hu Hk. pose proof (fw_len _ _ _ _ Hwf) as Hl.
  assert (Hfa : ∀ bn, 0 ≤ bn → faddr V1 x1 bn = faddr V x bn) by (intros; by apply faddr_new_indirect).
  assert (Hb12 : i_addrs x1 !!! 12%nat = b) by (cbn; by rewrite list_lookup_total_insert_eq by lia).
  assert (Hold : ∀ bn, 0 ≤ bn < MAXFILE → faddr V x bn ≠ 0 → faddr V x bn ≠ b).
  { intros bn Hb Hn E. destruct (fw_blk _ _ _ _ Hwf bn Hb Hn) as (_ & Hu' & _). rewrite E in Hu'. congruence. }
  split_and!; [done|done|done|split|split; [done| |]].
  - cbn. by rewrite length_insert.
  - by rewrite Hb12.
  - intros bn Hb Hn. rewrite Hfa in * by lia. destruct (fw_blk _ _ _ _ Hwf bn Hb Hn) as (Hd' & Hu' & _).
    rewrite Hb12. split_and!; [done| |by apply Hold]. apply Hu; [destruct Hd'; lia|done].
  - intros b1 b2 Hb1 Hb2. rewrite !Hfa by lia. by apply Hwf.
  - intros k Hkr Huk Hbb _. apply Hk; [done|]. intros ->. congruence.
  - intros k [Hk0 [->|(bn & Hb & ->)]]; [right; by rewrite Hb12|]. rewrite Hfa in * by lia. left. split; [done|]. right. by exists bn.
Qed.

Lemma mapped_at_post V x V1 x1 V' bn b :
  (∀ bn', 0 ≤ bn' → faddr V1 x1 bn' = faddr V x bn') → mapped_at V1 x1 V' x1 bn b → mapped_at V x V' x1 bn b.
Proof. intros Hf [Ha Hn]. split; [done|]. intros bn' Hb Hne. rewrite Hn by done. apply Hf. lia. Qed.

Lemma bmap_ok g s V L ip bn hi :
  file_env g s V L ip → room g L ∅ 5 → 0 ≤ bn < MAXFILE → bn * Z.of_nat BSIZE < hi →
  wpp (bmap ip bn) (bmap_post g s V L ip bn) (disk_full g (fs_sb s) V (fs_inode s !!! ip) hi) s.
Proof.
  intros Henv Hroom Hbn Hhi. destruct (decide (bn < NDIRECT)); [apply bmap_direct; [done|done|lia|done]|].
  pose proof Henv as [Hok Hlen Hdev Hwf]. pose proof Hroom as [Hc Hr]. rewrite map_size_empty in Hr.
  set (x := fs_inode s !!! ip) in *. set (sb := fs_sb s) in *. pose proof (fw_len _ _ _ _ Hwf) as Hl.
  unfold bmap. apply wp_wpp_bind, get_inode_ok. fold x. rewrite (proj2 (Z.ltb_ge _ _)) by lia.
  rewrite (proj2 (Z.ltb_lt _ _)) by (rewrite MAXFILE_val in Hbn; change NINDIRECT with 128; unfold NDIRECT; lia).
  change (Z.to_nat NDIRECT) with 12%nat. rewrite Hdev.
  destruct (Z.eqb_spec (i_addrs x !!! 12%nat) 0) as [H0|H0].
  - apply wpp_bind. eapply wpp_balloc; [exact Hok|split; rewrite ?map_size_empty; lia| |].
    { intros Hf. fold sb in Hf |- *. pose proof (lacking_pos V x hi bn Hbn Hhi ltac:(right; split; [lia|done])). split; [done|lia]. }
    fold sb. intros b st1 V1 L1 Hok1 Hd Hub Hub1 Hz Hsz _ Hu Hk Hk1 Hf.
    apply wp_wpp. unfold upd_inode. apply wp_modify, wp_ret. cbn [with_st fs_inode fs_st fs_sb fs_pid fs_cwd].
    rewrite alter_insert. fold x. set (x1 := set_iaddrs (<[12%nat := b]> (i_addrs x)) x).
    set (s1 := mkFsst _ _ _ _ _). assert (Hx1 : fs_inode s1 !!! ip = x1) by (cbn; by rewrite list_lookup_total_insert_eq).
    destruct (indirect_installed g sb V x V1 b Hwf H0) as (Hb12 & Hfa & Hold & Hwf1 & His1); try done. fold x1 in Hb12, Hfa, Hwf1, His1.
    assert (Henv1 : file_env g s1 V1 L1 ip).
    { split; [by apply (alloc_ok_inode g (with_st s st1))|cbn; by rewrite length_insert|by rewrite Hx1|by rewrite Hx1]. }
    assert (Hsp : ∀ hi', bn * Z.of_nat BSIZE < hi' → spare g sb V1 x1 hi' = spare g sb V x hi').
    { intros hi' Hhi'. apply spare_indirect; [done|done|rewrite Hb12; destruct Hd; lia|done|rewrite BSIZE_val in *; unfold NDIRECT in *; lia]. }
    pose proof (bmap_indirect_spec g s1 V1 L1 ip bn hi Henv1) as Hind. cbv zeta in Hind. rewrite Hx1, Hb12 in Hind.
    change (fs_sb s1) with sb in Hind. eapply wpp_mono; [apply Hind| |].
    + split; rewrite ?map_size_empty; lia. + lia. + done. + destruct Hd. lia.
    + intros a s' (st' & V' & L' & -> & Hok' & Hwf' & Hsz' & Hda & Hma & Hm1 & Hm0 & Hkk & His & Hsp').
      exists st', V', L', (<[12%nat := b]> (i_addrs x)). fold x sb. fold x1.
      assert (Hf0 : faddr V x bn = 0) by (unfold faddr; rewrite H0, (proj2 (Z.ltb_ge _ _)) by lia; done).
      split_and!; [done|done|done|lia|done|by eapply mapped_at_post|by rewrite Hf0|by rewrite <-Hfa in Hf0 by lia; auto| | |].
      3: { intros hi' Hhi'. by rewrite Hsp', Hsp. }
      2: { eapply isolated_trans; [exact His1|exact His|]. intros k Hko. destruct (file_owns_range _ _ _ _ _ Hwf' Hko). lia. }
      intros bn' Hb' Hn'. destruct (fw_blk _ _ _ _ Hwf bn' Hb' Hn') as (Hd' & Hu' & _).
      rewrite Hkk; [apply Hk; [done|by apply Hold]|done|apply Hu; [destruct Hd'; lia|done]|by apply Hold].
    + intros msg. apply disk_full_spare. by apply Hsp.
  - apply wp_wpp_bind, wp_ret. pose proof (bmap_indirect_spec g s V L ip bn hi Henv) as Hind. cbv zeta in Hind. fold x sb in Hind.
    eapply wpp_mono; [apply Hind| |done].
    + split; rewrite ?map_size_empty; lia. + lia. + done. + done.
    + intros a s' (st' & V' & L' & -> & Hok' & Hwf' & Hsz' & Hda & Hma & Hm1 & Hm0 & Hkk & His & Hsp').
      exists st', V', L', (i_addrs x). fold x sb. rewrite set_iaddrs_id.
      assert (Hid : with_inode (with_st s st') (<[ip := x]> (fs_inode s)) = with_st s st')
        by (by apply (with_inode_id (with_st s st') ip)).
      cbv zeta. rewrite ?Hid. split_and!; [done|done|done|lia|done|done|by intros Hn; destruct (Hm1 Hn) as (? & ? & ? & ?)|done| |done|done].
      intros bn' Hb' Hn'. destruct (fw_blk _ _ _ _ Hwf bn' Hb' Hn') as (Hd' & Hu' & Hne'). by apply Hkk.
Qed.
End bmap.

(** ** Reading *)

Section contents.
Implicit Types (V : Z → list byte) (x : inode).

Lemma fread_app V x off a b : fread V x off (a + b) = fread V x off a ++ fread V x (off + Z.of_nat a) b.
Proof.
  unfold fread. rewrite seq_app, fmap_app. f_equal.
  assert (E : seq (0 + a) b = Nat.add a <$> seq 0 b) by (rewrite fmap_add_seq; f_equal; lia).
  rewrite E, <-list_fmap_compose.
  apply list_fmap_ext. intros i k Hk. unfold compose. f_equal. lia.
Qed.

Lemma length_fread V x off n : length (fread V x off n) = n.
Proof. unfold fread. by rewrite length_fmap, length_seq. Qed.

Lemma lookup_fread V x off n i : (i < n)%nat → fread V x off n !! i = Some (fbyte V x (off + Z.of_nat i)).
Proof. intros Hi. unfold fread. by rewrite list_lookup_fmap, lookup_seq_lt. Qed.

(** A position inside the block of [off]. *)
Lemma pos_in_block off i :
  0 ≤ off → 0 ≤ i < Z.of_nat BSIZE - off mod Z.of_nat BSIZE →
  (off + i) / Z.of_nat BSIZE = off / Z.of_nat BSIZE ∧ (off + i) mod Z.of_nat BSIZE = off mod Z.of_nat BSIZE + i.
Proof.
  intros Ho Hi. rewrite BSIZE_val in *. pose proof (Z_div_mod_eq_full off (Z.of_nat 512)).
  pose proof (Z.mod_pos_bound off (Z.of_nat 512) ltac:(lia)). split.
  - symmetry. apply (Z.div_unique_pos _ _ _ (off mod Z.of_nat 512 + i)); lia.
  - symmetry. apply (Z.mod_unique_pos _ _ (off / Z.of_nat 512)); lia.
Qed.

Lemma slice_fread V x off m :
  0 ≤ off → 0 ≤ m ≤ Z.of_nat BSIZE - off mod Z.of_nat BSIZE →
  length (V (faddr V x (off / Z.of_nat BSIZE))) = BSIZE →
  take (Z.to_nat m) (drop (Z.to_nat (off mod Z.of_nat BSIZE)) (V (faddr V x (off / Z.of_nat BSIZE)))) =
  fread V x off (Z.to_nat m).
Proof.
  intros Ho Hm Hl. pose proof (Z.mod_pos_bound off (Z.of_nat BSIZE) ltac:(rewrite BSIZE_val; lia)).
  apply list_eq_same_length with (Z.to_nat m).
  - by rewrite length_fread.
  - rewrite length_take, length_drop, Hl. lia.
  - intros i c c' Hi Hc' Hc. rewrite lookup_fread in Hc by done. injection Hc as <-.
    rewrite lookup_take_lt, lookup_drop in Hc' by done. unfold fbyte.
    destruct (pos_in_block off (Z.of_nat i) Ho ltac:(lia)) as [-> ->].
    rewrite Z2Nat.inj_add, Nat2Z.id by lia. by rewrite (nth_lookup_Some _ _ _ _ Hc').
Qed.
End contents.

(** Arithmetic of one iteration of the copy loops. *)
Section chunk.
Variables (off rem m : Z).
Hypothesis Hoff : 0 ≤ off.
Hypothesis Hrem : 0 < rem.
Hypothesis Hm : m = Z.min rem (Z.of_nat BSIZE - off mod Z.of_nat BSIZE).

Lemma chunk_pos : 0 < m ≤ rem ∧ m ≤ Z.of_nat BSIZE - off mod Z.of_nat BSIZE ∧ 0 ≤ off mod Z.of_nat BSIZE.
Proof. pose proof (Z.mod_pos_bound off (Z.of_nat BSIZE) ltac:(rewrite BSIZE_val; lia)). lia. Qed.

Lemma chunk_next nb :
  off mod Z.of_nat BSIZE + rem ≤ Z.of_nat BSIZE * (nb + 1) → 0 < rem - m →
  (off + m) mod Z.of_nat BSIZE + (rem - m) ≤ Z.of_nat BSIZE * nb.
Proof.
  intros Hn Hr. assert (m = Z.of_nat BSIZE - off mod Z.of_nat BSIZE) as Hm' by lia.
  assert ((off + m) mod Z.of_nat BSIZE = 0) as ->; [|lia]. rewrite Hm'.
  rewrite Z.add_sub_assoc. rewrite Zminus_mod_idemp_r. replace (off + Z.of_nat BSIZE - off) with (Z.of_nat BSIZE) by lia.
  apply Z_mod_same_full.
Qed.
End chunk.

Section readi.
Context {S : Type} {ops : TxStore S} {laws : TxLaws S}.
Context (devread : Z → option (nat → Z → M (fsst S) (Z * list byte))).
Implicit Types (s : fsst S) (V : Z → list byte) (L : gset Z).

(** A mapped block: [bmap] returns it and changes nothing. *)
Lemma bmap_mapped g s V L ip bn (Q : Z → fsst S → Prop) :
  let x := fs_inode s !!! ip in
  file_env g s V L ip → (base.size L < NBUF)%nat → 0 ≤ bn < MAXFILE → faddr V x bn ≠ 0 →
  (∀ st', tx_inv g st' V L ∅ → Q (faddr V x bn) (with_st s st')) →
  wp (bmap ip bn) Q s.
Proof.
  intros x [Hok Hlen Hdev Hwf] Hr Hbn H0 HQ. fold x in Hdev, Hwf. pose proof (ao_inv _ _ _ _ _ Hok) as Hinv.
  unfold bmap. apply wp_bind, get_inode_ok. fold x. unfold faddr in *. destruct (Z.ltb_spec bn NDIRECT) as [Hd|Hd].
  - rewrite (proj2 (Z.eqb_neq _ _)) by done. apply wp_ret. rewrite <-(with_st_id s) at 1. by apply HQ.
  - rewrite (proj2 (Z.ltb_lt _ _)) by (rewrite MAXFILE_val in Hbn; change NINDIRECT with 128; unfold NDIRECT; lia).
    change (Z.to_nat NDIRECT) with 12%nat in *. destruct (Z.eqb_spec (i_addrs x !!! 12%nat) 0); [done|].
    apply wp_bind, wp_ret. destruct (fw_ind _ _ _ _ Hwf) as [((? & ?) & _) _]; [done|]. rewrite Hdev.
    unfold bmap_indirect. apply wp_bind.
    eapply wp_bread; [exact Hinv|lia|by rewrite held_nil|rewrite map_size_empty; lia|]. intros i st1 Hn Hinv1.
    apply wp_bind. eapply (wp_get_data g (with_st s st1)); [exact Hinv1|apply lookup_insert_eq|].
    rewrite (proj2 (Z.eqb_neq _ _)) by done. apply wp_bind, wp_ret, wp_bind.
    eapply (wp_brelse g (with_st s st1)); [exact Hinv1|apply lookup_insert_eq|].
    intros st2 Hinv2. rewrite delete_insert_id in Hinv2 by done. apply wp_ret. by apply HQ.
Qed.

Lemma file_env_st g s V L ip st' :
  file_env g s V L ip → tx_inv g st' V L ∅ → file_env g (with_st s st') V L ip.
Proof. intros [[] ? ? ?] Hi. split; done. Qed.

Lemma readi_loop_spec g s V L ip off tot n acc fuel :
  let x := fs_inode s !!! ip in
  file_env g s V L ip → (base.size L < NBUF)%nat → mapped V x (off + (n - tot)) →
  0 ≤ off → tot ≤ n → off + (n - tot) ≤ MAXFILE * Z.of_nat BSIZE →
  (tot < n → off mod Z.of_nat BSIZE + (n - tot) ≤ Z.of_nat BSIZE * Z.of_nat fuel) →
  wp (readi_loop ip off tot n acc fuel) (λ bs s', bs = acc ++ fread V x off (Z.to_nat (n - tot)) ∧
    ∃ st', s' = with_st s st' ∧ tx_inv g st' V L ∅) s.
Proof.
  intros x. revert s off tot acc x. induction fuel as [|fuel IH]; intros s off tot acc x Henv Hr Hmap Ho Ht Hmax Hf;
    pose proof (Z.mod_pos_bound off (Z.of_nat BSIZE) ltac:(rewrite BSIZE_val; lia)) as Hmod.
  { assert (tot = n) as -> by lia. apply wp_ret. rewrite Z.sub_diag. split; [by rewrite app_nil_r|].
    exists (fs_st s). split; [by rewrite with_st_id|]. by destruct Henv as [[] _ _ _]. }
  cbn [readi_loop]. destruct (Z.ltb_spec tot n) as [Hlt|].
  2:{ assert (tot = n) as -> by lia. apply wp_ret. rewrite Z.sub_diag. split; [by rewrite app_nil_r|].
      exists (fs_st s). split; [by rewrite with_st_id|]. by destruct Henv as [[] _ _ _]. }
  set (m := Z.min (n - tot) (Z.of_nat BSIZE - off mod Z.of_nat BSIZE)).
  destruct (chunk_pos off (n - tot) m ltac:(lia) eq_refl) as (Hm1 & Hm2 & _).
  pose proof (Z_div_mod_eq_full off (Z.of_nat BSIZE)) as Hdm.
  assert (Hbn : 0 ≤ off / Z.of_nat BSIZE < MAXFILE).
  { split; [apply Z.div_pos; rewrite ?BSIZE_val; lia|]. apply Z.div_lt_upper_bound; rewrite ?BSIZE_val in *; lia. }
  assert (H0 : faddr V x (off / Z.of_nat BSIZE) ≠ 0) by (apply Hmap; [done|lia]).
  pose proof Henv as [Hok Hlen Hdev Hwf]. fold x in Hdev, Hwf.
  destruct (fw_blk _ _ _ _ Hwf _ Hbn H0) as (((? & ?) & _) & _ & _).
  apply wp_bind, get_inode_ok. fold x. rewrite Hdev.
  apply wp_bind. eapply bmap_mapped; [done|done|done|done|]. fold x. intros st1 Hi1. apply wp_bind.
  eapply (wp_bread g (with_st s st1)); [exact Hi1|lia|by rewrite held_nil|rewrite map_size_empty; lia|].
  intros i st2 Hn Hi2. apply wp_bind. eapply (wp_get_data g (with_st s st2)); [exact Hi2|apply lookup_insert_eq|].
  cbv zeta. fold m. apply wp_bind. eapply (wp_brelse g (with_st s st2)); [exact Hi2|apply lookup_insert_eq|].
  intros st3 Hi3. rewrite delete_insert_id in Hi3 by done. rewrite !with_st_with_st.
  assert (Hl : length (V (faddr V x (off / Z.of_nat BSIZE))) = BSIZE) by (eapply (tx_inv_len g); [exact Hi1|lia]).
  rewrite slice_fread by (done || lia).
  pose proof (file_env_st _ _ _ _ _ _ Henv Hi3) as Henv3.
  eapply wp_mono; [eapply (IH (with_st s st3) (off + m) (tot + m)); [exact Henv3|done| |lia|lia|lia|]|].
  - cbn [with_st fs_inode]. fold x. by replace (off + m + (n - (tot + m))) with (off + (n - tot)) by lia.
  - intros Hlt'. replace (n - (tot + m)) with (n - tot - m) by lia.
    specialize (Hf Hlt). apply chunk_next; lia.
  - intros bs s' (-> & st' & -> & Hi'). cbn [with_st fs_inode]. fold x. split; [|by exists st'].
    rewrite <-app_assoc. f_equal. replace (Z.to_nat (n - tot)) with (Z.to_nat m + Z.to_nat (n - (tot + m)))%nat by lia.
    rewrite fread_app. by rewrite Z2Nat.id by lia.
Qed.

(** The bytes a read of [n] at [off] may return. *)
Definition read_len (x : inode) (off n : Z) : Z := Z.min n (i_size x - off).

Lemma readi_ok g s V L ip off n :
  let x := fs_inode s !!! ip in
  file_env g s V L ip → (base.size L < NBUF)%nat →
  i_type x ≠ T_DEV → mapped V x (i_size x) → 0 ≤ i_size x ≤ MAXFILE * Z.of_nat BSIZE →
  0 ≤ off < 2 ^ 32 → 0 ≤ n < 2 ^ 32 →
  wp (readi devread ip off n) (λ r s',
    (if (i_size x <? off) || (2 ^ 32 <=? off + n) then r = (-1, []) ∧ s' = s
     else r = (read_len x off n, fread V x off (Z.to_nat (read_len x off n))) ∧
          ∃ st', s' = with_st s st' ∧ tx_inv g st' V L ∅)) s.
Proof.
  intros x Henv Hr Hty Hmap Hsz Ho Hn. unfold readi. apply wp_bind, get_inode_ok. fold x.
  rewrite (proj2 (Z.eqb_neq _ _)) by done.
  assert (Hov : (u32 (off + n) <? off) = (2 ^ 32 <=? off + n)).
  { unfold u32. destruct (Z.leb_spec (2 ^ 32) (off + n)).
    - assert ((off + n) mod 2 ^ 32 = off + n - 2 ^ 32) as -> by (symmetry; apply (Z.mod_unique_pos _ _ 1); lia).
      apply Z.ltb_lt. lia.
    - rewrite Z.mod_small by lia. apply Z.ltb_ge. lia. }
  rewrite Hov. destruct (Z.ltb_spec (i_size x) off) as [|Hos]; cbn [orb]; [by apply wp_ret|].
  destruct (Z.leb_spec (2 ^ 32) (off + n)); [by apply wp_ret|].
  set (n' := if i_size x <? off + n then i_size x - off else n).
  assert (Hn' : n' = read_len x off n).
  { unfold n', read_len. destruct (Z.ltb_spec (i_size x) (off + n)); lia. }
  assert (Hrl : 0 ≤ read_len x off n ≤ i_size x - off) by (unfold read_len; lia).
  apply wp_bind. eapply wp_mono; [eapply readi_loop_spec; fold x; try done; rewrite ?Hn', ?Z.sub_0_r; try lia|].
  - intros bn Hbn Hlt. apply Hmap; [done|lia].
  - intros _. unfold copy_fuel. pose proof (Z.mod_pos_bound off (Z.of_nat BSIZE) ltac:(rewrite BSIZE_val; lia)).
    pose proof (Z_div_mod_eq_full (read_len x off n) (Z.of_nat BSIZE)).
    pose proof (Z.mod_pos_bound (read_len x off n) (Z.of_nat BSIZE) ltac:(rewrite BSIZE_val; lia)).
    pose proof (Z.div_pos (read_len x off n) (Z.of_nat BSIZE) ltac:(lia) ltac:(rewrite BSIZE_val; lia)).
    rewrite Z2Nat.id by lia. lia.
  - intros bs s' (-> & Hst). apply wp_ret. rewrite Hn', Z.sub_0_r in *. by split.
Qed.

(** C23. readi returns the bytes of the file from the offset on, cut at the end of the file, through
    the direct and indirect block map, and leaves every block as it was; an offset past the end
    or an overflowing range gives -1. *)
Theorem readi_correct g s V L ip off n :
  let x := fs_inode s !!! ip in
  file_env g s V L ip → (base.size L < NBUF)%nat →
  i_type x ≠ T_DEV → mapped V x (i_size x) → 0 ≤ i_size x ≤ MAXFILE * Z.of_nat BSIZE →
  0 ≤ off < 2 ^ 32 → 0 ≤ n < 2 ^ 32 →
  wp (readi devread ip off n) (λ r s',
    (if (i_size x <? off) || (2 ^ 32 <=? off + n) then r = (-1, []) ∧ s' = s
     else r = (read_len x off n, fread V x off (Z.to_nat (read_len x off n))) ∧
          ∃ st', s' = with_st s st' ∧ tx_inv g st' V L ∅)) s.
Proof. apply readi_ok. Qed.
End readi.
