(* ===== verification/FsWrite.v ===== *)
(** * Writing files (src/fs.c: [writei])

    [writei] stores its argument at the offset, extends the file when it ends
    beyond it, and leaves every other byte of the file alone. *)

From S2P Require Import Prelude Dll Sleeplock Bio Memide FsLayout Log LogCrash LogProtocol Tx CString Fs FsAlloc FsInode FsFile.

Section pure.
Implicit Types (V : Z → list byte) (x : inode) (sb : superblock).

(** The block map depends on the indirect block only. *)
Lemma faddr_ext V V' x bn :
  (i_addrs x !!! 12%nat ≠ 0 → V' (i_addrs x !!! 12%nat) = V (i_addrs x !!! 12%nat)) →
  faddr V' x bn = faddr V x bn.
Proof. intros Hi. unfold faddr. destruct (bn <? NDIRECT); [done|]. case_match eqn:E; [done|]. rewrite Hi; [done|]. lia. Qed.

Lemma used_ext sb V V' k : V' (BBLOCK k sb) = V (BBLOCK k sb) → used sb V' k = used sb V k.
Proof. intros E. unfold used. by rewrite E. Qed.

Lemma file_wf_ext g sb V V' x :
  file_wf g sb V x → (∀ bn, faddr V' x bn = faddr V x bn) →
  (∀ k, is_data g sb k → used sb V k = true → used sb V' k = true) → file_wf g sb V' x.
Proof.
  intros [Hl Hi Hb Hj] Hf Hu. split; [done| | |].
  - intros H0. destruct (Hi H0). auto.
  - intros bn Hbn. rewrite Hf. intros H0. destruct (Hb bn Hbn H0) as (? & ? & ?). auto.
  - intros b1 b2. rewrite !Hf. apply Hj.
Qed.
End pure.

Section writei.
Context {S : Type} {ops : TxStore S} {laws : TxLaws S}.
Context (devwrite : Z → option (nat → list byte → Z → M (fsst S) Z)).
Implicit Types (s : fsst S) (V : Z → list byte) (L : gset Z).

(** How the file differs after [chunk] was written at [off]. *)
Record wrote V x V' x' (off : Z) (chunk : list byte) : Prop := {
  wr_new : ∀ pos, off ≤ pos < off + Z.of_nat (length chunk) →
    fbyte V' x' pos = nth (Z.to_nat (pos - off)) chunk Byte.x00;
  wr_old : ∀ pos, 0 ≤ pos < MAXFILE * Z.of_nat BSIZE → ¬ (off ≤ pos < off + Z.of_nat (length chunk)) →
    faddr V x (pos / Z.of_nat BSIZE) ≠ 0 → fbyte V' x' pos = fbyte V x pos;
  wr_keep : ∀ bn, 0 ≤ bn < MAXFILE → faddr V x bn ≠ 0 → faddr V' x' bn ≠ 0;
  wr_map : ∀ bn, (0 < length chunk)%nat → 0 ≤ bn < MAXFILE → off < (bn + 1) * Z.of_nat BSIZE → bn * Z.of_nat BSIZE < off + Z.of_nat (length chunk) →
    faddr V' x' bn ≠ 0;
  wr_same : mapped V x (off + Z.of_nat (length chunk)) → x' = x;
}.

Lemma wrote_nil V x off : wrote V x V x off [].
Proof. split; try done; simpl; lia. Qed.

Lemma wrote_app V x V1 x1 V2 x2 off c1 c2 :
  0 ≤ off → (length c1 > 0)%nat →
  wrote V x V1 x1 off c1 → wrote V1 x1 V2 x2 (off + Z.of_nat (length c1)) c2 →
  off + Z.of_nat (length c1) ≤ MAXFILE * Z.of_nat BSIZE →
  wrote V x V2 x2 off (c1 ++ c2).
Proof.
  intros Ho Hc [N1 O1 K1 M1 S1] [N2 O2 K2 M2 S2] Hmax.
  assert (HB : 0 < Z.of_nat BSIZE) by (rewrite BSIZE_val; lia).
  split; rewrite ?length_app, ?Nat2Z.inj_add.
  - intros pos Hpos. destruct (decide (pos < off + Z.of_nat (length c1))) as [Hlt|Hge].
    + rewrite app_nth1 by lia. rewrite <-N1 by lia. apply O2; [lia|lia|].
      pose proof (Z_div_mod_eq_full pos (Z.of_nat BSIZE)). pose proof (Z.mod_pos_bound pos (Z.of_nat BSIZE) HB).
      apply M1; [lia| |lia|lia]. split; [apply Z.div_pos; lia|]. apply Z.div_lt_upper_bound; lia.
    + rewrite app_nth2 by lia. rewrite N2 by lia. f_equal. lia.
  - intros pos Hpos Hn H0. rewrite O2; [apply O1; [done|lia|done]|done|lia|].
    apply K1; [|done]. split; [apply Z.div_pos; lia|]. apply Z.div_lt_upper_bound; lia.
  - intros bn Hbn H0. apply K2; [done|]. by apply K1.
  - intros bn _ Hbn H1 H2. destruct (decide (bn * Z.of_nat BSIZE < off + Z.of_nat (length c1))).
    + apply K2; [done|]. by apply M1.
    + apply M2; [lia|done|lia|lia].
  - intros Hm. assert (x1 = x) as E by (apply S1; intros bn ??; apply Hm; [done|lia]). rewrite <-E. apply S2.
    intros bn Hbn Hlt. apply K1; [done|]. apply Hm; [done|lia].
Qed.

(** Writing a block that the file maps. *)
Lemma isolated_write g sb V x bn d :
  file_wf g sb V x → 0 ≤ bn < MAXFILE → faddr V x bn ≠ 0 → isolated g sb V x (<[faddr V x bn := d]> V) x.
Proof.
  intros Hwf Hbn H0. destruct (fw_blk _ _ _ _ Hwf bn Hbn H0) as ((_ & _ & _ & Hbb & _) & _ & Hne). split.
  - intros k Hk Hu. rewrite <-Hu. apply used_ext, fn_lookup_insert_ne. by apply Hbb.
  - intros k _ _ _ Hn. apply fn_lookup_insert_ne. intros <-. apply Hn. split; [done|]. right. by exists bn.
  - intros k [Hk [->|(n & Hn & ->)]]; left; (split; [done|]); [by left|right]. exists n. split; [done|].
    apply faddr_ext. intros _. by apply fn_lookup_insert_ne.
Qed.

(** Writing a block of the file leaves its map and the bitmap alone. *)
Lemma block_frame g sb V x bn d :
  file_wf g sb V x → 0 ≤ bn < MAXFILE → faddr V x bn ≠ 0 →
  (∀ n, faddr (<[faddr V x bn := d]> V) x n = faddr V x n) ∧
  (∀ q, 0 ≤ q < g_size g → used sb (<[faddr V x bn := d]> V) q = used sb V q).
Proof.
  intros Hwf Hbn H0. destruct (fw_blk _ _ _ _ Hwf bn Hbn H0) as ((_ & _ & _ & Hbb & _) & _ & Hne). split.
  - intros n. apply faddr_ext. intros _. by apply fn_lookup_insert_ne.
  - intros q Hq. apply used_ext, fn_lookup_insert_ne. by apply Hbb.
Qed.

(** The block that [bmap] returned, with [chunk] stored in it. *)
Lemma block_wrote g sb V x V1 x1 off chunk b :
  let o := off mod Z.of_nat BSIZE in let bn := off / Z.of_nat BSIZE in
  file_wf g sb V1 x1 → 0 ≤ off → (0 < length chunk)%nat → o + Z.of_nat (length chunk) ≤ Z.of_nat BSIZE →
  0 ≤ bn < MAXFILE → mapped_at V x V1 x1 bn b → b ≠ 0 → length (V1 b) = BSIZE →
  (faddr V x bn ≠ 0 → b = faddr V x bn ∧ V1 b = V b ∧ x1 = x) →
  (∀ bn', 0 ≤ bn' < MAXFILE → faddr V x bn' ≠ 0 → V1 (faddr V x bn') = V (faddr V x bn')) →
  wrote V x (<[b := blit (Z.to_nat o) chunk (V1 b)]> V1) x1 off chunk.
Proof.
  intros o bn Hwf Ho Hch Hoc Hbn [Hma Hmn] Hb0 HlV Hm1 Hmk. assert (HB : 0 < Z.of_nat BSIZE) by (rewrite BSIZE_val; lia).
  pose proof (Z.mod_pos_bound off (Z.of_nat BSIZE) HB) as Hmod. fold o in Hmod.
  pose proof (Z_div_mod_eq_full off (Z.of_nat BSIZE)) as Hdm. fold o bn in Hdm. set (d' := blit (Z.to_nat o) chunk (V1 b)).
  destruct (block_frame g sb V1 x1 bn d' Hwf Hbn) as [Hfa _]; [by rewrite Hma|]. rewrite Hma in Hfa. split.
  - intros pos Hpos. unfold fbyte. rewrite Hfa.
    destruct (pos_in_block off (pos - off) Ho ltac:(fold o; lia)) as [E1 E2].
    replace (off + (pos - off)) with pos in E1, E2 by lia. fold bn in E1. fold o in E2. rewrite E1, E2, Hma, fn_lookup_insert.
    unfold d'. rewrite nth_blit by lia. rewrite decide_True by lia. f_equal. lia.
  - intros pos Hpos Hnp H0. unfold fbyte. rewrite Hfa. set (q := pos / Z.of_nat BSIZE) in *.
    assert (Hq : 0 ≤ q < MAXFILE) by (split; [apply Z.div_pos; lia|apply Z.div_lt_upper_bound; lia]).
    destruct (decide (q = bn)) as [Eq|Nq].
    + rewrite Eq in *. destruct (Hm1 H0) as (Eb & _ & Ex). rewrite Hma, fn_lookup_insert. unfold d'. rewrite nth_blit by lia.
      pose proof (Z_div_mod_eq_full pos (Z.of_nat BSIZE)) as H. pose proof (Z.mod_pos_bound pos (Z.of_nat BSIZE) HB).
      fold q in H. rewrite Eq in H. rewrite decide_False by lia. rewrite Eb, Hmk by done. done.
    + rewrite Hmn by done. rewrite fn_lookup_insert_ne; [by rewrite Hmk|]. intros E. apply Nq.
      apply (fw_inj _ _ _ _ Hwf); [done|done|by rewrite Hmn by done|]. rewrite Hmn by done. congruence.
  - intros q Hq H0. rewrite Hfa. destruct (decide (q = bn)) as [->|]; [by rewrite Hma|]. by rewrite Hmn.
  - intros q _ Hq H1 H2. rewrite Hfa. assert (q = bn) as ->; [|by rewrite Hma].
    clearbody o bn. clear -H1 H2 Hdm Hoc Hmod. rewrite BSIZE_val in *. lia.
  - intros Hm. apply Hm1, Hm; [done|]. clearbody o bn. clear -Hdm Hmod Hch. rewrite BSIZE_val in *. lia.
Qed.

(** One block's worth of [writei]. *)
Lemma wpp_chunk {A} g s V L ip off chunk (k : M (fsst S) A) (Q : A → fsst S → Prop) (E : string → Prop) hi :
  let x := fs_inode s !!! ip in let o := off mod Z.of_nat BSIZE in
  file_env g s V L ip → room g L ∅ 6 → 0 ≤ off → (0 < length chunk)%nat →
  o + Z.of_nat (length chunk) ≤ Z.of_nat BSIZE → off + Z.of_nat (length chunk) ≤ MAXFILE * Z.of_nat BSIZE →
  off + Z.of_nat (length chunk) ≤ hi → (∀ msg, disk_full g (fs_sb s) V x hi msg → E msg) →
  (∀ st' V' L' a', let x' := set_iaddrs a' x in
     file_env g (with_inode (with_st s st') (<[ip := x']> (fs_inode s))) V' L' ip →
     (base.size L' ≤ base.size L + 6)%nat → wrote V x V' x' off chunk → isolated g (fs_sb s) V x V' x' →
     (∀ hi, off + Z.of_nat (length chunk) ≤ hi → spare g (fs_sb s) V' x' hi = spare g (fs_sb s) V x hi) →
     wpp k Q E (with_inode (with_st s st') (<[ip := x']> (fs_inode s)))) →
  wpp (addr ← bmap ip (off / Z.of_nat BSIZE);
       bp ← liftS (tx_bread ROOTDEV addr);
       d ← get_data bp;
       liftS (tx_put bp (blit (Z.to_nat o) chunk d));;
       liftS (tx_log_write bp);; liftS (tx_brelse bp);; k) Q E s.
Proof.
  intros x o Henv [Hc Hr] Ho Hch Hoc Hmax Hhi HE HQ. rewrite map_size_empty in Hr. set (bn := off / Z.of_nat BSIZE) in *.
  assert (HB : 0 < Z.of_nat BSIZE) by (rewrite BSIZE_val; lia).
  assert (Hbn : 0 ≤ bn < MAXFILE) by (split; [apply Z.div_pos; lia|]; apply Z.div_lt_upper_bound; lia).
  assert (Hlo : bn * Z.of_nat BSIZE < off + Z.of_nat (length chunk)).
  { pose proof (Z_div_mod_eq_full off (Z.of_nat BSIZE)) as Hdm. pose proof (Z.mod_pos_bound off (Z.of_nat BSIZE) HB). fold bn in Hdm. lia. }
  apply wpp_bind. eapply wpp_mono; [apply (bmap_ok g s V L ip bn hi Henv); [split; rewrite ?map_size_empty; lia|done|lia]| |exact HE].
  intros b s1 (st1 & V1 & L1 & a1 & -> & Hok1 & Hwf1 & Hsz1 & Hd & Hma & Hm1 & _ & Hmk & His & Hsp).
  fold x in Hwf1, Hma, Hm1, Hmk, His, Hsp |- *. set (x1 := set_iaddrs a1 x) in *.
  set (s1 := with_inode (with_st s st1) (<[ip := x1]> (fs_inode s))) in *.
  pose proof (ao_inv _ _ _ _ _ Hok1) as Hi1. pose proof Hd as ((Hb0 & Hb1) & _ & Hbg & _).
  apply wp_wpp_bind. eapply (wp_bread g s1); [exact Hi1|lia|by rewrite held_nil|rewrite map_size_empty; lia|]. intros i st2 Hn Hi2.
  apply wp_wpp_bind. eapply (wp_get_data g (with_st s1 st2)); [exact Hi2|apply lookup_insert_eq|].
  assert (HlV : length (V1 b) = BSIZE) by (eapply (tx_inv_len g); [exact Hi1|lia]). pose proof (Z.mod_pos_bound off (Z.of_nat BSIZE) ltac:(rewrite BSIZE_val; lia)).
  set (d' := blit (Z.to_nat o) chunk (V1 b)). assert (Hld : length d' = BSIZE) by (unfold d', o; rewrite length_blit; lia).
  apply wp_wpp_bind. eapply (wp_put g (with_st s1 st2)); [exact Hi2|apply lookup_insert_eq|done|].
  intros st3 Hi3. rewrite insert_insert_eq in Hi3.
  apply wp_wpp_bind. eapply (wp_log_write g (with_st s1 st3)); [exact Hi3|apply lookup_insert_eq|done|lia|].
  intros st4 Hi4. apply wp_wpp_bind. eapply (wp_brelse g (with_st s1 st4)); [exact Hi4|by rewrite lookup_insert_eq, fn_lookup_insert|].
  intros st5 Hi5. rewrite delete_insert_id in Hi5 by done. pose proof Hma as [Ha _].
  destruct (block_frame g (fs_sb s) V1 x1 bn d' Hwf1 Hbn) as [Hfa Hus]; [lia|]. rewrite Ha in Hfa, Hus.
  assert (Hwf' : file_wf g (fs_sb s) (<[b := d']> V1) x1) by (eapply file_wf_ext; [exact Hwf1|done|]; intros q ((? & ?) & _) Hu; rewrite Hus by lia; done).
  change (with_st (with_st s1 st4) st5) with (with_inode (with_st s st5) (<[ip := x1]> (fs_inode s))).
  apply (HQ st5 (<[b := d']> V1) ({[b]} ∪ L1) a1).
  - fold x1. split; cbn [with_inode with_st fs_inode fs_sb]; rewrite ?list_lookup_total_insert_eq, ?length_insert by apply Henv; [|apply Henv|apply Henv|done].
    destruct Hok1 as [_ Hs _ _ Hm]. split; cbn [with_inode with_st fs_sb fs_st] in *; try done. intros q Hq Hnd. rewrite Hus by done. by apply Hm.
  - pose proof (size_add L1 b). lia.
  - eapply block_wrote; try done; [lia|]. intros H0. by destruct (Hm1 H0) as (? & ? & _ & _ & ?).
  - eapply isolated_trans; [exact His| |].
    + pose proof (isolated_write g (fs_sb s) V1 x1 bn d' Hwf1 Hbn) as Hiw. rewrite Ha in Hiw. apply Hiw. lia.
    + intros q Hq. destruct (file_owns_range _ _ _ _ _ Hwf' Hq). lia.
  - intros hi' Hhi'. rewrite <-Hsp by lia. by apply spare_ext.
Qed.

Definition writei_post (g : geom) s V L (ip : nat) (off : Z) (src : list byte) (n6 : nat) (s' : fsst S) : Prop :=
  let x := fs_inode s !!! ip in
  ∃ st' V' L' a', let x' := set_iaddrs a' x in
    s' = with_inode (with_st s st') (<[ip := x']> (fs_inode s)) ∧
    file_env g s' V' L' ip ∧ (base.size L' ≤ base.size L + n6)%nat ∧ wrote V x V' x' off src ∧
    isolated g (fs_sb s) V x V' x' ∧
    (∀ hi, off + Z.of_nat (length src) ≤ hi → spare g (fs_sb s) V' x' hi = spare g (fs_sb s) V x hi).

Lemma writei_loop_spec g s V L ip src off tot n nb fuel hi :
  file_env g s V L ip → room g L ∅ (6 * nb) → 0 ≤ off → tot ≤ n → length src = Z.to_nat (n - tot) →
  off + (n - tot) ≤ MAXFILE * Z.of_nat BSIZE → off + (n - tot) ≤ hi → (nb ≤ fuel)%nat →
  (tot < n → off mod Z.of_nat BSIZE + (n - tot) ≤ Z.of_nat BSIZE * Z.of_nat nb) →
  wpp (writei_loop ip src off tot n fuel)
    (λ r s', r = off + (n - tot) ∧ writei_post g s V L ip off src (6 * nb) s') (disk_full g (fs_sb s) V (fs_inode s !!! ip) hi) s.
Proof.
  revert s V L src off tot nb. induction fuel as [|fuel IH]; intros s V L src off tot nb Henv Hroom Ho Ht Hs Hmax Hhi Hnb Hf;
    pose proof (Z.mod_pos_bound off (Z.of_nat BSIZE) ltac:(rewrite BSIZE_val; lia)) as Hmod.
  all: assert (Hend : tot = n → off = off + (n - tot) ∧ writei_post g s V L ip off src (6 * nb) s)
    by (intros ->; split; [lia|]; assert (src = []) as -> by (apply length_zero_iff_nil; lia);
        exists (fs_st s), V, L, (i_addrs (fs_inode s !!! ip)); cbv zeta; rewrite set_iaddrs_id, with_st_id, with_inode_id by apply Henv;
        split_and!; [done|done|lia|apply wrote_nil|apply isolated_refl|done]).
  { apply wp_wpp, wp_ret. apply Hend. lia. }
  cbn [writei_loop]. destruct (Z.ltb_spec tot n) as [Hlt|]; [|apply wp_wpp, wp_ret; apply Hend; lia].
  specialize (Hf Hlt). destruct nb as [|nb]; [lia|].
  set (m := Z.min (n - tot) (Z.of_nat BSIZE - off mod Z.of_nat BSIZE)).
  destruct (chunk_pos off (n - tot) m ltac:(lia) eq_refl) as (Hm1 & Hm2 & _).
  assert (Hlc : length (take (Z.to_nat m) src) = Z.to_nat m) by (rewrite length_take; lia).
  apply wp_wpp_bind, get_inode_ok. rewrite (fe_dev _ _ _ _ _ Henv). pose proof Hroom as [Hc Hr].
  apply wpp_chunk with (g := g) (V := V) (L := L) (hi := hi); rewrite ?Hlc; try done; try lia; [split; lia|].
  intros st1 V1 L1 a1 x1 Henv1 Hsz1 Hw1 His1 Hsp1. set (s1 := with_inode _ _) in *.
  assert (Hx1 : fs_inode s1 !!! ip = x1) by (apply list_lookup_total_insert_eq; apply Henv).
  eapply wpp_mono; [apply (IH s1 V1 L1 (drop (Z.to_nat m) src) (off + m) (tot + m) nb)| |].
  - done.
  - split; lia.
  - lia.
  - lia.
  - rewrite length_drop. lia.
  - lia.
  - lia.
  - lia.
  - intros Hlt'. replace (n - (tot + m)) with (n - tot - m) by lia. apply chunk_next; lia.
  - intros r s' (-> & st2 & V2 & L2 & a2 & -> & Henv2 & Hsz2 & Hw2 & His2 & Hsp2). split; [lia|].
    rewrite Hx1 in *. exists st2, V2, L2, a2. cbv zeta.
    assert (E : with_inode (with_st s1 st2) (<[ip := set_iaddrs a2 x1]> (fs_inode s1)) =
                with_inode (with_st s st2) (<[ip := set_iaddrs a2 (fs_inode s !!! ip)]> (fs_inode s))).
    { unfold s1, with_inode, with_st, x1. cbn. by rewrite list_insert_insert_eq. }
    rewrite <-E. split_and!; [done|done|lia| | |].
    3: { intros hi' Hhi'. rewrite Hsp2, Hsp1; [done| |]; rewrite ?length_drop; lia. }
    2: { eapply isolated_trans; [exact His1|exact His2|]. intros q Hq. destruct Henv2 as [_ _ _ Hwf2].
         rewrite E in Hwf2. cbn [with_inode with_st fs_inode fs_sb] in Hwf2. rewrite list_lookup_total_insert_eq in Hwf2 by apply Henv.
         destruct (file_owns_range _ _ _ _ _ Hwf2 Hq). lia. }
    rewrite <-(take_drop (Z.to_nat m) src). eapply wrote_app; [done|lia|exact Hw1| |lia].
    rewrite Hlc, Z2Nat.id by lia. exact Hw2.
  - intros msg. rewrite Hx1. apply disk_full_spare, Hsp1. lia.
Qed.

(** The blocks that [n] bytes from [off] touch. *)
Definition span (off n : Z) : nat := Z.to_nat ((off mod Z.of_nat BSIZE + n + Z.of_nat BSIZE - 1) / Z.of_nat BSIZE).

Lemma span_enough off n :
  0 ≤ n → off mod Z.of_nat BSIZE + n ≤ Z.of_nat BSIZE * Z.of_nat (span off n) ∧ (span off n ≤ copy_fuel n)%nat.
Proof.
  intros Hn. unfold span, copy_fuel. pose proof (Z.mod_pos_bound off (Z.of_nat BSIZE) ltac:(rewrite BSIZE_val; lia)) as Hm.
  set (o := off mod Z.of_nat BSIZE) in *. clearbody o. rewrite BSIZE_val in *.
  pose proof (Z_div_mod_eq_full (o + n + Z.of_nat 512 - 1) (Z.of_nat 512)).
  pose proof (Z.mod_pos_bound (o + n + Z.of_nat 512 - 1) (Z.of_nat 512) ltac:(lia)).
  pose proof (Z_div_mod_eq_full n (Z.of_nat 512)). pose proof (Z.mod_pos_bound n (Z.of_nat 512) ltac:(lia)).
  split; lia.
Qed.

(** The fields of the in-memory inode that [writei] may store fit the disk. *)
Definition meta_fits (x : inode) : Prop :=
  - 2 ^ 15 ≤ i_type x < 2 ^ 15 ∧ - 2 ^ 15 ≤ i_major x < 2 ^ 15 ∧ - 2 ^ 15 ≤ i_minor x < 2 ^ 15 ∧
  - 2 ^ 15 ≤ i_nlink x < 2 ^ 15.

Lemma file_wf_fits g sb V x n :
  sb_ok g sb → file_wf g sb V x → meta_fits x → 0 ≤ n < 2 ^ 32 → inode_fits (set_isize n x).
Proof.
  intros Hs Hwf (? & ? & ? & ?) Hn. destruct (so_size _ _ Hs) as [_ Hsz]. split; try done. cbn [i_addrs set_isize].
  split; [apply Hwf|]. intros a Ha. apply list_elem_of_lookup in Ha as (i & Hi).
  pose proof (lookup_lt_Some _ _ _ Hi) as Hlt. rewrite (fw_len _ _ _ _ Hwf) in Hlt.
  apply list_lookup_total_correct in Hi. destruct (decide (a = 0)) as [->|Hne]; [lia|].
  destruct (decide (i = 12%nat)) as [->|].
  - rewrite <-Hi in Hne. destruct (fw_ind _ _ _ _ Hwf Hne) as [((? & ?) & _) _]. lia.
  - assert (E : faddr V x (Z.of_nat i) = a).
    { unfold faddr, NDIRECT. rewrite (proj2 (Z.ltb_lt _ _)) by lia. by rewrite Nat2Z.id. }
    rewrite <-E in Hne. destruct (fw_blk _ _ _ _ Hwf (Z.of_nat i)) as (((? & ?) & _) & _); [rewrite MAXFILE_val; lia|done|]. lia.
Qed.

(** Writing the inode back does not touch the file's blocks or the bitmap. *)
Lemma iupdate_frame g sb V x y :
  sb_ok g sb → file_wf g sb V x → 0 ≤ i_inum y < sb_ninodes sb →
  (∀ k, is_data g sb k → V_iupdate sb y V k = V k) ∧
  (∀ k, 0 ≤ k < g_size g → used sb (V_iupdate sb y V) k = used sb V k) ∧
  (∀ bn, faddr (V_iupdate sb y V) x bn = faddr V x bn).
Proof.
  intros Hs Hwf Hi. unfold V_iupdate.
  assert (Hd : ∀ k, is_data g sb k → <[IBLOCK (i_inum y) sb := dinode_write y (V (IBLOCK (i_inum y) sb))]> V k = V k).
  { intros k (_ & _ & _ & _ & Hk). apply fn_lookup_insert_ne. intros E. by apply (Hk (i_inum y)). }
  split_and!; [done| |].
  - intros k Hk. apply used_ext. apply fn_lookup_insert_ne. by apply (so_disj _ _ Hs).
  - intros bn. apply faddr_ext. intros H0. apply Hd. by apply (fw_ind _ _ _ _ Hwf).
Qed.

(** The inode in memory is the one on the disk. *)
Definition inode_synced (sb : superblock) V (x : inode) : Prop := dinode_read (i_inum x) (V (IBLOCK (i_inum x) sb)) x = x.

(** What a write leaves alone on the disk: blocks in use stay so, those outside the log
    and the file keep their contents, the blocks the file gained were free, the other
    inodes are unchanged, the file's inode is on the disk if it was, and as many free
    blocks are gone as the file lacks less. *)
Record file_confined (g : geom) (sb : superblock) V x V' x' : Prop := {
  cf_used : ∀ k, 0 ≤ k < g_size g → used sb V k = true → used sb V' k = true;
  cf_keep : ∀ k, 0 ≤ k < g_size g → used sb V k = true → (∀ b, 0 ≤ b < g_size g → k ≠ BBLOCK b sb) →
    ¬ g_log g k → k ≠ IBLOCK (i_inum x) sb → ¬ file_owns V x k → V' k = V k;
  cf_own : ∀ k, file_owns V' x' k → file_owns V x k ∨ used sb V k = false;
  cf_inode : ∀ j y, 0 ≤ j < sb_ninodes sb → j ≠ i_inum x → dinode_read j (V' (IBLOCK j sb)) y = dinode_read j (V (IBLOCK j sb)) y;
  cf_sync : inode_synced sb V x → inode_synced sb V' x';
  cf_spare : ∀ hi, i_size x' ≤ hi → spare g sb V' x' hi = spare g sb V x hi;
}.

Section file_confined.
Context (g : geom) (s : fsst S) (V : Z → list byte) (L : gset Z) (x : inode) (V1 : Z → list byte) (x1 : inode).
Context (Hok : alloc_ok g s V L ∅) (Hwf : file_wf g (fs_sb s) V x) (His : isolated g (fs_sb s) V x V1 x1) (fin : Z) (Hsp : ∀ hi, fin ≤ hi → spare g (fs_sb s) V1 x1 hi = spare g (fs_sb s) V x hi).

Lemma isolated_iblock j : 0 ≤ j < sb_ninodes (fs_sb s) → V1 (IBLOCK j (fs_sb s)) = V (IBLOCK j (fs_sb s)).
Proof.
  intros Hj. destruct (IBLOCK_range g _ _ (ao_sb _ _ _ _ _ Hok) Hj) as [Hr _].
  assert (Hnd : ¬ is_data g (fs_sb s) (IBLOCK j (fs_sb s))) by (intros (_ & _ & _ & _ & Hd); by apply (Hd j)).
  apply (is_keep _ _ _ _ _ _ His); [done|by apply (ao_meta _ _ _ _ _ Hok)| |by intros Ho%(file_owns_range _ _ _ _ _ Hwf)].
  intros b Hb. by apply (so_disj _ _ (ao_sb _ _ _ _ _ Hok)).
Qed.

Lemma file_confined_isolated : 0 ≤ i_inum x < sb_ninodes (fs_sb s) → x1 = x → fin ≤ i_size x → file_confined g (fs_sb s) V x V1 x1.
Proof.
  intros Hi E Hfin. split; [apply His| |apply His| | |intros hi Hhi; apply Hsp; rewrite E in Hhi; lia].
  - intros k Hk Hu Hb _ _. by apply His.
  - intros j y Hj _. by rewrite isolated_iblock.
  - unfold inode_synced. rewrite E. by rewrite isolated_iblock.
Qed.

Lemma file_confined_iupdate x2 :
  0 ≤ i_inum x < sb_ninodes (fs_sb s) → file_wf g (fs_sb s) V1 x1 → inode_fits x2 → i_inum x2 = i_inum x → i_addrs x2 = i_addrs x1 → fin ≤ i_size x2 →
  (∀ k, 0 ≤ k < g_size g → length (V1 k) = BSIZE) → file_confined g (fs_sb s) V x (V_iupdate (fs_sb s) x2 V1) x2.
Proof.
  intros Hi Hwf1 Hfit Hnum Hadr Hfin Hlen. pose proof (ao_sb _ _ _ _ _ Hok) as Hs. rewrite <-Hnum in Hi.
  destruct (iupdate_frame g (fs_sb s) V1 x1 x2 Hs Hwf1 Hi) as (_ & Hfu & Hff).
  destruct (IBLOCK_range g _ _ Hs Hi) as [Hr _]. split.
  - intros k Hk Hu. rewrite Hfu by done. by apply His.
  - intros k Hk Hu Hb _ Hne Hn. unfold V_iupdate. rewrite fn_lookup_insert_ne by congruence. by apply His.
  - intros k [H0 Ho]. apply His. split; [done|]. rewrite Hadr in Ho. destruct Ho as [?|(bn & Hbn & ->)]; [by left|right].
    exists bn. split; [done|]. rewrite <-Hff. unfold faddr. by rewrite Hadr.
  - intros j y Hj Hne. rewrite <-(isolated_iblock j) by done. unfold V_iupdate.
    destruct (decide (IBLOCK (i_inum x2) (fs_sb s) = IBLOCK j (fs_sb s))) as [E|]; [|by rewrite fn_lookup_insert_ne].
    rewrite <-E, fn_lookup_insert. apply dinode_read_write_ne; [done|by apply Hlen|]. rewrite (IBLOCK_eq g), (IBLOCK_eq g) in E by done.
    pose proof (Z_div_mod_eq_full (i_inum x2) IPB). pose proof (Z_div_mod_eq_full j IPB). intros Em. apply Hne. rewrite <-Hnum.
    assert (i_inum x2 / IPB = j / IPB) by lia. congruence.
  - intros _. unfold inode_synced, V_iupdate. rewrite fn_lookup_insert, dinode_read_write by (try done; by apply Hlen). by destruct x2.
  - intros hi Hhi. rewrite <-(Hsp hi) by lia. apply spare_ext; [|by rewrite Hadr|done]. intros bn. rewrite <-Hff. unfold faddr. by rewrite Hadr.
Qed.
End file_confined.

(** What [writei] gives its callers: the file has the new bytes in the range, the
    old ones elsewhere, and the size covers both. *)
(** What a write leaves alone in the cached inode. *)
Definition same_slot (x x' : inode) : Prop :=
  i_dev x' = i_dev x ∧ i_inum x' = i_inum x ∧ i_ref x' = i_ref x ∧ i_lock x' = i_lock x ∧ i_valid x' = i_valid x ∧ meta_fits x'.
Definition written (g : geom) s V (ip : nat) (off : Z) (src : list byte) (s' : fsst S) : Prop :=
  let x := fs_inode s !!! ip in let n := Z.of_nat (length src) in
  ∃ V' L' x', fs_inode s' = <[ip := x']> (fs_inode s) ∧ file_env g s' V' L' ip ∧
    i_type x' = i_type x ∧ i_size x' = (if decide (0 < n) then Z.max (i_size x) (off + n) else i_size x) ∧
    mapped V' x' (i_size x') ∧ (base.size L' < NBUF)%nat ∧
    (∀ pos, off ≤ pos < off + n → fbyte V' x' pos = nth (Z.to_nat (pos - off)) src Byte.x00) ∧
    (∀ pos, 0 ≤ pos < i_size x → ¬ (off ≤ pos < off + n) → fbyte V' x' pos = fbyte V x pos) ∧ same_slot x x' ∧
    file_confined g (fs_sb s) V x V' x'.

Record writei_pre (g : geom) s V L (ip : nat) (off n : Z) : Prop := {
  wp_env : file_env g s V L ip;
  wp_type : i_type (fs_inode s !!! ip) ≠ T_DEV;
  wp_meta : meta_fits (fs_inode s !!! ip);
  wp_inum : 0 ≤ i_inum (fs_inode s !!! ip) < sb_ninodes (fs_sb s);
  wp_mapped : mapped V (fs_inode s !!! ip) (i_size (fs_inode s !!! ip));
  wp_size : 0 ≤ i_size (fs_inode s !!! ip) ≤ MAXFILE * Z.of_nat BSIZE;
  wp_range : 0 ≤ off ≤ i_size (fs_inode s !!! ip) ∧ 0 ≤ n ∧ off + n ≤ MAXFILE * Z.of_nat BSIZE;
  wp_room : room g L ∅ (6 * span off n + 1);
}.

Lemma wrote_mapped V x V' x' off src :
  wrote V x V' x' off src → mapped V x (i_size x) → off ≤ i_size x →
  mapped V' x' (if decide (0 < Z.of_nat (length src)) then Z.max (i_size x) (off + Z.of_nat (length src)) else i_size x).
Proof.
  intros [_ _ Hk Hm] Hmap Ho bn Hbn Hlt. destruct (decide (bn * Z.of_nat BSIZE < i_size x)) as [|Hge].
  - apply Hk; [done|]. by apply Hmap.
  - case_decide; [|lia]. apply Hm; [lia|done| |lia]. rewrite BSIZE_val in *. lia.
Qed.

Lemma mapped_pos V x hi pos :
  mapped V x hi → 0 ≤ pos < hi → hi ≤ MAXFILE * Z.of_nat BSIZE →
  0 ≤ pos / Z.of_nat BSIZE < MAXFILE ∧ faddr V x (pos / Z.of_nat BSIZE) ≠ 0.
Proof.
  intros Hm Hp Hh. assert (HB : 0 < Z.of_nat BSIZE) by (rewrite BSIZE_val; lia).
  assert (Hr : 0 ≤ pos / Z.of_nat BSIZE < MAXFILE) by (split; [apply Z.div_pos; lia|apply Z.div_lt_upper_bound; lia]).
  split; [done|]. apply Hm; [done|]. pose proof (Z_div_mod_eq_full pos (Z.of_nat BSIZE)). pose proof (Z.mod_pos_bound pos (Z.of_nat BSIZE) HB). lia.
Qed.

(** The end of [writei], after the loop: the size grows if the range ends past it. *)
Section finish.
Context (g : geom) (s : fsst S) (V : Z → list byte) (L : gset Z) (ip : nat) (src : list byte) (off n : Z).
Context (st1 : S) (V1 : Z → list byte) (L1 : gset Z) (a1 : list Z).
Abbreviation x := (fs_inode s !!! ip).
Abbreviation x1 := (set_iaddrs a1 x).
Abbreviation s1 := (with_inode (with_st s st1) (<[ip := x1]> (fs_inode s))).
Context (Hpre : writei_pre g s V L ip off n) (Hsrc : Z.of_nat (length src) = n) (Henv1 : file_env g s1 V1 L1 ip).
Context (Hsz1 : (base.size L1 ≤ base.size L + 6 * span off n)%nat) (Hw : wrote V x V1 x1 off src) (His : isolated g (fs_sb s) V x V1 x1).
Context (Hsp : ∀ hi, off + n ≤ hi → spare g (fs_sb s) V1 x1 hi = spare g (fs_sb s) V x hi).

Lemma finish_slot y : <[ip := y]> (fs_inode s) !!! ip = y.
Proof. apply list_lookup_total_insert_eq, (wp_env _ _ _ _ _ _ _ Hpre). Qed.

Lemma finish_old pos : 0 ≤ pos < i_size x → ¬ (off ≤ pos < off + n) → fbyte V1 x1 pos = fbyte V x pos.
Proof.
  destruct Hpre. intros Hp Hnp. apply (wr_old _ _ _ _ _ _ Hw); [lia|lia|]. eapply mapped_pos; [done|done|lia].
Qed.

Lemma finish_wf : file_wf g (fs_sb s) V1 x1.
Proof. pose proof (fe_wf _ _ _ _ _ Henv1) as H. cbn [with_inode with_st fs_inode fs_sb] in H. by rewrite finish_slot in H. Qed.

Lemma finish_map : mapped V1 x1 (if decide (0 < n) then Z.max (i_size x) (off + n) else i_size x).
Proof. destruct Hpre. rewrite <-Hsrc. apply (wrote_mapped _ _ _ _ _ _ Hw); [done|lia]. Qed.

Lemma finish_same : off + n ≤ i_size x → written g s V ip off src s1.
Proof.
  intros Hle. pose proof finish_map as Hmap1. destruct Hpre. destruct wp_room0 as [_ Hr]. rewrite map_size_empty in Hr.
  exists V1, L1, x1. rewrite Hsrc. assert (E : (if decide (0 < n) then Z.max (i_size x) (off + n) else i_size x) = i_size x) by (case_decide; lia).
  rewrite E in *. split_and!; try done; [lia|by rewrite <-Hsrc; apply Hw|apply finish_old|].
  eapply file_confined_isolated; [apply wp_env0|apply wp_env0|exact His|exact Hsp|done| |done]. apply (wr_same _ _ _ _ _ _ Hw).
  intros bn Hbn Hlt. apply wp_mapped0; [done|lia].
Qed.

(** Writing the inode back does not change the bytes of the file. *)
Lemma finish_byte x2 pos hi :
  i_inum x2 = i_inum x → i_addrs x2 = a1 → mapped V1 x1 hi → 0 ≤ pos < hi → hi ≤ MAXFILE * Z.of_nat BSIZE →
  fbyte (V_iupdate (fs_sb s) x2 V1) x2 pos = fbyte V1 x1 pos.
Proof.
  intros Hi Ha Hm Hp Hh. destruct (mapped_pos _ _ _ _ Hm Hp Hh) as [Hbn H0]. pose proof finish_wf as Hwf. destruct Hpre.
  destruct (iupdate_frame g (fs_sb s) V1 x1 x2 (ao_sb _ _ _ _ _ (fe_alloc _ _ _ _ _ Henv1)) Hwf) as (Hfd & _ & Hff); [by rewrite Hi|].
  assert (Hx : ∀ W bn, faddr W x2 bn = faddr W x1 bn) by (intros; unfold faddr; by rewrite Ha).
  unfold fbyte. rewrite Hx, Hff, Hfd; [done|]. by apply (fw_blk _ _ _ _ Hwf).
Qed.

Lemma finish_env x2 st' L' :
  i_inum x2 = i_inum x → i_addrs x2 = a1 → i_dev x2 = i_dev x → tx_inv g st' (V_iupdate (fs_sb s) x2 V1) L' ∅ →
  file_env g (with_inode (with_st s st') (<[ip := x2]> (fs_inode s))) (V_iupdate (fs_sb s) x2 V1) L' ip.
Proof.
  intros Hi Ha Hd Hinv. pose proof finish_wf as Hwf. pose proof (fe_alloc _ _ _ _ _ Henv1) as [_ Hs _ _ Hm]. destruct Hpre.
  destruct (iupdate_frame g (fs_sb s) V1 x1 x2 Hs Hwf) as (_ & Hfu & Hff); [by rewrite Hi|].
  split; cbn [with_inode with_st fs_inode fs_sb]; rewrite ?finish_slot, ?length_insert; [|apply wp_env0|rewrite Hd; apply wp_env0|].
  - split; cbn [with_inode with_st fs_st fs_sb]; [done|done|rewrite held_nil; set_solver|rewrite held_nil; set_solver|].
    intros k Hk Hnd. rewrite Hfu by done. by apply Hm.
  - assert (Hwf2 : file_wf g (fs_sb s) (V_iupdate (fs_sb s) x2 V1) x1).
    { eapply file_wf_ext; [exact Hwf|exact Hff|]. intros k ((? & ?) & _) Hu. rewrite Hfu by lia. done. }
    destruct Hwf2 as [Hl Hin Hb Hj]. split; unfold faddr in *; rewrite Ha; done.
Qed.

Lemma finish_grow :
  i_size x < off + n → wp (upd_inode ip (set_isize (off + n));; iupdate ip) (λ _, written g s V ip off src) s1.
Proof.
  intros Hgrow. pose proof finish_map as Hmap1. pose proof finish_wf as Hwf1. pose proof (fe_alloc _ _ _ _ _ Henv1) as Hok1.
  pose proof finish_byte as Hfb. pose proof finish_env as Hfe. pose proof finish_old as Hold.
  destruct Hpre. destruct wp_room0 as [Hc Hr]. rewrite map_size_empty in Hr. rewrite decide_True in Hmap1 by lia. rewrite Z.max_r in Hmap1 by lia.
  assert (Hm32 : MAXFILE * Z.of_nat BSIZE < 2 ^ 32) by (vm_compute; reflexivity).
  set (x2 := set_isize (off + n) x1). unfold upd_inode. apply wp_bind, wp_modify_end. cbn [with_inode with_st fs_st fs_sb fs_inode fs_pid fs_cwd].
  rewrite alter_insert, finish_slot, list_insert_insert_eq. fold x2. set (s2 := mkFsst _ _ _ _ _).
  assert (Hx2 : fs_inode s2 !!! ip = x2) by apply finish_slot.
  assert (Hfit : inode_fits x2) by (eapply file_wf_fits; [exact (ao_sb _ _ _ _ _ Hok1)|exact Hwf1|done|lia]).
  eapply wp_mono; [eapply (iupdate_spec g s2 V1 L1 ∅ ip); rewrite ?Hx2; [apply Hok1|apply Hok1|apply wp_env0|done|done|by rewrite held_nil|split; rewrite ?map_size_empty; lia]|].
  intros [] s3 (st3 & -> & Hi3). rewrite Hx2 in Hi3. exists (V_iupdate (fs_sb s) x2 V1), ({[IBLOCK (i_inum x2) (fs_sb s)]} ∪ L1), x2.
  rewrite Hsrc, decide_True by lia. change (i_size x2) with (off + n).
  split_and!; [done|by apply (Hfe x2 st3)|done|lia| | | | |by split_and!|].
  - intros bn Hbn Hlt. change (faddr (V_iupdate (fs_sb s) x2 V1) x2 bn) with (faddr (V_iupdate (fs_sb s) x2 V1) x1 bn).
    destruct (iupdate_frame g (fs_sb s) V1 x1 x2 (ao_sb _ _ _ _ _ Hok1) Hwf1 wp_inum0) as (_ & _ & ->). by apply Hmap1.
  - pose proof (size_add L1 (IBLOCK (i_inum x2) (fs_sb s))). lia.
  - intros pos Hp. rewrite (Hfb x2 pos (off + n)) by (done || lia). apply (wr_new _ _ _ _ _ _ Hw). by rewrite Hsrc.
  - intros pos Hp Hnp. rewrite (Hfb x2 pos (off + n)) by (done || lia). by apply Hold.
  - apply (file_confined_iupdate g s V L x V1 x1) with (fin := off + n); [apply wp_env0|apply wp_env0|exact His|exact Hsp|done|exact Hwf1|done|done|done|done|].
    intros k Hk. by apply (tx_inv_len g _ _ _ _ k (ao_inv _ _ _ _ _ Hok1)).
Qed.
End finish.

(** The disk has fewer free blocks than a write of [n] bytes at [off] needs. *)
Definition write_full (g : geom) s V (ip : nat) (off n : Z) : string → Prop :=
  let x := fs_inode s !!! ip in disk_full g (fs_sb s) V x (Z.max (i_size x) (off + n)).

Lemma writei_ok g s V L ip src off n :
  writei_pre g s V L ip off n → length src = Z.to_nat n →
  wpp (writei devwrite ip src off n) (λ r s', r = n ∧ written g s V ip off src s') (write_full g s V ip off n) s.
Proof.
  intros Hpre Hsrc. pose proof Hpre as [Henv Hty Hmeta Hinum Hmap Hsz (Hoff & Hn & Hmax) [Hc Hr]].
  rewrite map_size_empty in Hr. destruct (span_enough off n Hn) as [Hsp Hfu].
  unfold writei. apply wp_wpp_bind, get_inode_ok. rewrite (proj2 (Z.eqb_neq _ _)) by done.
  assert (Hm32 : MAXFILE * Z.of_nat BSIZE < 2 ^ 32) by (vm_compute; reflexivity).
  rewrite u32_small by lia. rewrite (proj2 (Z.ltb_ge _ _)), (proj2 (Z.ltb_ge _ _)) by lia. cbn [orb].
  rewrite (proj2 (Z.ltb_ge _ _)) by lia. apply wpp_bind.
  eapply wpp_mono; [eapply (writei_loop_spec g s V L ip src off 0 n (span off n))| |intros msg Hfull; exact Hfull];
    rewrite ?Z.sub_0_r; try done; try lia; [split; rewrite ?map_size_empty; lia|].
  intros r s1 (-> & st1 & V1 & L1 & a1 & -> & Henv1 & Hsz1 & Hw & His & Hspare). apply wp_wpp, wp_bind, get_inode_ok, wp_bind.
  cbn [with_inode with_st fs_inode]. rewrite list_lookup_total_insert_eq by apply Henv. cbn [i_size set_iaddrs].
  assert (En : Z.of_nat (length src) = n) by lia. rewrite En in Hspare.
  destruct (Z.ltb_spec 0 n) as [Hpos|Hz]; cbn [andb]; [destruct (Z.ltb_spec (i_size (fs_inode s !!! ip)) (off + n)) as [Hgrow|Hno]|].
  - eapply wp_mono; [by eapply finish_grow|]. intros [] s2 Hwr. by apply wp_ret.
  - apply wp_ret, wp_ret. split; [done|]. by eapply finish_same.
  - apply wp_ret, wp_ret. split; [done|]. eapply finish_same; [done..|lia].
Qed.

(** C21. writei stores the data at the offset and returns its length, allocating and mapping the
    blocks it needs, growing the size when it writes past the end and leaving the other bytes of
    the file, the blocks of other files and the other inodes as they were; it panics only when
    the disk has fewer free blocks than the file, at the size it would get, lacks. *)
Theorem writei_correct g s V L ip src off n :
  writei_pre g s V L ip off n → length src = Z.to_nat n →
  wpp (writei devwrite ip src off n) (λ r s', r = n ∧ written g s V ip off src s') (write_full g s V ip off n) s.
Proof. apply writei_ok. Qed.

(** An offset past the end, or a write past the largest file, fails and changes nothing. *)
Theorem writei_rejects s ip src off n :
  let x := fs_inode s !!! ip in
  i_type x ≠ T_DEV → 0 ≤ off < 2 ^ 32 → 0 ≤ n < 2 ^ 32 →
  i_size x < off ∨ MAXFILE * Z.of_nat BSIZE < off + n →
  writei devwrite ip src off n s = Ok (-1) s.
Proof.
  intros x Hty Ho Hn Hbad. unfold writei, get_inode, mbind, M_bind, getS, mret, M_ret. fold x.
  rewrite (proj2 (Z.eqb_neq _ _)) by done. destruct (Z.ltb_spec (i_size x) off); [done|]. cbn [orb].
  destruct (Z.ltb_spec (u32 (off + n)) off); [done|].
  destruct Hbad; [lia|]. by rewrite (proj2 (Z.ltb_lt _ _)) by lia.
Qed.

(** What [writei] wrote is what [readi] then reads. *)
Theorem writei_readi_roundtrip devread g s V L ip src off n :
  writei_pre g s V L ip off n → length src = Z.to_nat n →
  wpp (writei devwrite ip src off n;; readi devread ip off n) (λ r _, r = (n, src)) (write_full g s V ip off n) s.
Proof.
  intros Hpre Hsrc. apply wpp_bind. eapply wpp_mono; [by eapply writei_ok| |done].
  intros r s1 (_ & V1 & L1 & x1 & Hin & Henv & Hty & Hsz & Hmap & HNB & Hnew & _).
  destruct Hpre as [Henv0 Ht _ _ _ Hsize (Hoff & Hn & Hmax) _].
  assert (Hm32 : MAXFILE * Z.of_nat BSIZE < 2 ^ 32) by (vm_compute; reflexivity).
  assert (Hx1 : fs_inode s1 !!! ip = x1) by (rewrite Hin; apply list_lookup_total_insert_eq; apply Henv0).
  assert (En : Z.of_nat (length src) = n) by lia. rewrite En in *.
  assert (Hs1 : off + n ≤ i_size x1 ∧ 0 ≤ i_size x1 ≤ MAXFILE * Z.of_nat BSIZE) by (rewrite Hsz; case_decide; lia).
  apply wp_wpp. eapply wp_mono; [eapply (readi_ok devread g s1 V1 L1 ip off n)|]; rewrite ?Hx1; try done; try lia.
  intros r' s2. rewrite (proj2 (Z.ltb_ge _ _)), (proj2 (Z.leb_gt _ _)) by lia. cbn [orb].
    intros (-> & _). assert (read_len x1 off n = n) as -> by (unfold read_len; lia). f_equal.
    apply list_eq_same_length with (Z.to_nat n); [done|apply length_fread|].
    intros i c c' Hi Hc Hc'. rewrite lookup_fread in Hc by done. injection Hc as <-.
    rewrite Hnew by lia. replace (Z.to_nat (off + Z.of_nat i - off)) with i by lia. by apply nth_lookup_Some.
Qed.
End writei.
