(* ===== verification/FsDir.v ===== *)
(** * Directories and path names (src/fs.c: [dirlookup], [skipelem])

    A directory is a file of 16-byte entries; [dirlookup] finds the first entry
    in use with the name.  [skipelem] peels one element off a path, so that the
    loop of [namex] walks the elements of the path in order. *)

From S2P Require Import Prelude Dll Sleeplock Bio Memide FsLayout Log LogCrash LogProtocol Tx CString Fs FsAlloc FsInode FsFile.

(** ** Path elements *)

(** The elements of a path: its maximal runs of characters other than slashes. *)
Fixpoint elems (path : list byte) (cur : list byte) : list (list byte) :=
  match path with
  | [] => match cur with [] => [] | _ => [cur] end
  | c :: p => if decide (c = slash) then match cur with [] => elems p [] | _ => cur :: elems p [] end
              else elems p (cur ++ [c])
  end.
Definition path_elems (path : list byte) : list (list byte) := elems path [].

Section paths.
Implicit Types (p e : list byte).

Lemma skip_slashes_elems p : path_elems (skip_slashes p) = path_elems p.
Proof.
  unfold path_elems. induction p as [|c p IH]; [done|]. cbn [skip_slashes elems]. case_decide; [done|].
  cbn [elems]. by rewrite decide_False.
Qed.

Lemma skip_slashes_head p : head (skip_slashes p) ≠ Some slash.
Proof. induction p as [|c p IH]; [done|]. cbn [skip_slashes]. case_decide; [done|]. simpl. congruence. Qed.

Lemma skip_slashes_suffix p :
  Byte.x00 ∉ p → (length (skip_slashes p) ≤ length p)%nat ∧ Byte.x00 ∉ skip_slashes p.
Proof.
  induction p as [|c p IH]; intros H; [done|]. cbn [skip_slashes]. case_decide; [|done].
  destruct IH as [? ?]; [set_solver|]. split; [simpl; lia|done].
Qed.

Lemma span_elem_spec p e r :
  span_elem p = (e, r) → p = e ++ r ∧ (slash ∉ e) ∧ (r = [] ∨ head r = Some slash).
Proof.
  revert e r. induction p as [|c p IH]; intros e r; cbn [span_elem].
  { intros [= <- <-]. split_and!; [done|set_solver|by left]. }
  case_decide as Hc; [intros [= <- <-]; split_and!; [done|set_solver|right; by rewrite Hc]|].
  destruct (span_elem p) as [e' r'] eqn:E. intros [= <- <-]. destruct (IH e' r' eq_refl) as (-> & Hs & Hr).
  split_and!; [done|set_solver|done].
Qed.

Lemma elems_app e r cur : slash ∉ e → elems (e ++ r) cur = elems r (cur ++ e).
Proof.
  revert cur. induction e as [|c e IH]; intros cur Hs; [by rewrite app_nil_r|].
  cbn [app elems]. rewrite decide_False by set_solver. rewrite IH by set_solver. by rewrite <-app_assoc.
Qed.


Lemma until_nul_app e r : Byte.x00 ∉ e → until_nul (e ++ Byte.x00 :: r) = e.
Proof. induction e as [|c e IH]; intros H; cbn; [done|]. rewrite decide_False by set_solver. f_equal. apply IH. set_solver. Qed.

Lemma until_nul_id e : Byte.x00 ∉ e → until_nul e = e.
Proof. induction e as [|c e IH]; intros H; cbn; [done|]. rewrite decide_False by set_solver. f_equal. apply IH. set_solver. Qed.

(** [skipelem] fails exactly when the path has no element left; otherwise it
    returns the path after the first element, without leading slashes, and the
    buffer holds that element cut to [DIRSIZ] bytes. *)
Theorem skipelem_correct path name :
  length name = DIRSIZ → Byte.x00 ∉ path →
  match skipelem path name with
  | None => path_elems path = []
  | Some (rest, name') => ∃ e, path_elems path = e :: path_elems rest ∧ e ≠ [] ∧
      head rest ≠ Some slash ∧ length name' = DIRSIZ ∧ until_nul name' = take DIRSIZ e ∧
      (length rest < length path)%nat ∧ Byte.x00 ∉ rest
  end.
Proof.
  intros Hn H0. unfold skipelem. rewrite <-skip_slashes_elems.
  pose proof (skip_slashes_head path) as Hh. destruct (skip_slashes_suffix path H0) as [Hlen Hz].
  destruct (skip_slashes path) as [|c s] eqn:Es; [done|]. clear Es H0.
  destruct (span_elem (c :: s)) as [e r] eqn:E.
  assert (Hne : e ≠ []) by (cbn [span_elem] in E; case_decide; [by subst|destruct (span_elem s); by injection E as <- _]).
  destruct (span_elem_spec _ _ _ E) as (Eq & Hs & Hr). rewrite Eq in *.
  assert (Hze : Byte.x00 ∉ e) by set_solver. exists e. split_and!; [|done|apply skip_slashes_head| | | |].
  - rewrite skip_slashes_elems. unfold path_elems. rewrite elems_app by done. simpl app.
    destruct Hr as [->|Hr]; [by destruct e|]. destruct r as [|c' r]; [done|]. injection Hr as ->.
    cbn [elems]. rewrite !decide_True by done. by destruct e.
  - case_match eqn:Hc; [apply Nat.leb_le in Hc|apply Nat.leb_gt in Hc].
    + rewrite length_blit; [done|]. rewrite length_take. lia.
    + rewrite length_blit; [done|]. rewrite length_app, Hn. simpl. lia.
  - case_match eqn:Hc.
    + apply Nat.leb_le in Hc. unfold blit. rewrite take_0. simpl. rewrite drop_ge by (rewrite length_take, Hn; lia).
      rewrite app_nil_r. apply until_nul_id. intros Hin. apply Hze. by eapply subseteq_take.
    + apply Nat.leb_gt in Hc. unfold blit. rewrite take_0. simpl. rewrite <-app_assoc. simpl.
      rewrite until_nul_app by done. by rewrite take_ge by lia.
  - destruct (skip_slashes_suffix r) as [Hsl _]; [set_solver|]. rewrite length_app in Hlen. destruct e; [done|]. simpl in Hlen. lia.
  - apply skip_slashes_suffix. set_solver.
Qed.
End paths.

(** ** Looking up a name *)

Section dirlookup.
Context {S : Type} {ops : TxStore S} {laws : TxLaws S}.
Context (devread : Z → option (nat → Z → M (fsst S) (Z * list byte))).
Implicit Types (s : fsst S) (V : Z → list byte) (L : gset Z).

(** Entry number [k] of the directory [x]. *)
Definition entry V x (k : Z) : list byte := fread V x (DIRENT_SIZE * k) 16.

(** The entry is in use and has the name. *)
Definition entry_is (name : Z → byte) (e : list byte) : Prop :=
  de_inum e ≠ 0 ∧ str_agree name (chars (de_name e)) (Z.of_nat DIRSIZ).

(** What a directory needs to be searched: whole entries, all of them mapped. *)
Record dir_env (g : geom) s V L (dp : nat) (n : Z) : Prop := {
  de_env : file_env g s V L dp;
  de_type : i_type (fs_inode s !!! dp) = T_DIR;
  de_size : i_size (fs_inode s !!! dp) = DIRENT_SIZE * n ∧ 0 ≤ n;
  de_max : i_size (fs_inode s !!! dp) ≤ MAXFILE * Z.of_nat BSIZE;
  de_mapped : mapped V (fs_inode s !!! dp) (i_size (fs_inode s !!! dp));
  de_room : (base.size L < NBUF)%nat;
}.

Lemma dir_env_st g s V L dp n st' :
  dir_env g s V L dp n → tx_inv g st' V L ∅ → dir_env g (with_st s st') V L dp n.
Proof. intros [] Hi. split; try done. by apply file_env_st. Qed.

(** Reading entry [k]. *)
Lemma readi_entry g s V L dp n k (Q : Z * list byte → fsst S → Prop) :
  dir_env g s V L dp n → 0 ≤ k < n →
  (∀ st', tx_inv g st' V L ∅ → Q (DIRENT_SIZE, entry V (fs_inode s !!! dp) k) (with_st s st')) →
  wp (readi devread dp (DIRENT_SIZE * k) DIRENT_SIZE) Q s.
Proof.
  intros [Henv Hty [Hsz Hn] Hmax Hmap Hr] Hk HQ. set (x := fs_inode s !!! dp) in *.
  assert (Hm32 : MAXFILE * Z.of_nat BSIZE < 2 ^ 32) by (vm_compute; reflexivity). unfold DIRENT_SIZE in *.
  eapply wp_mono; [eapply (readi_ok devread g s V L dp (16 * k) 16); fold x; try done; try lia; by rewrite Hty|].
  intros r s'. fold x. rewrite (proj2 (Z.ltb_ge _ _)), (proj2 (Z.leb_gt _ _)) by lia. cbn [orb].
  assert (read_len x (16 * k) 16 = 16) as -> by (unfold read_len; lia). intros (-> & st' & -> & Hi). by apply HQ.
Qed.

(** The outcome of a search from entry [k] on. *)
Definition lookup_post (g : geom) s V L (dp : nat) (name : Z → byte) (n k : Z) (r : option (nat * Z)) (s' : fsst S) : Prop :=
  let x := fs_inode s !!! dp in
  match r with
  | None => (∀ j, k ≤ j < n → ¬ entry_is name (entry V x j)) ∧ ∃ st', s' = with_st s st' ∧ tx_inv g st' V L ∅
  | Some (ip, off) => ∃ j st', k ≤ j < n ∧ off = DIRENT_SIZE * j ∧ entry_is name (entry V x j) ∧
      (∀ i, k ≤ i < j → ¬ entry_is name (entry V x i)) ∧ tx_inv g st' V L ∅ ∧
      iget ROOTDEV (de_inum (entry V x j)) (with_st s st') = Ok ip s'
  end.

(** The one error: the name is there, and the inode cache is full. *)
Definition no_inodes V (l : list inode) (dp : nat) (name : Z → byte) (n k : Z) (msg : string) : Prop :=
  msg = "iget: no inodes"%string ∧ (∀ i z, l !! i = Some z → 0 < i_ref z) ∧
  ∃ j, k ≤ j < n ∧ entry_is name (entry V (l !!! dp) j).

Lemma dirlookup_from_spec g s V L dp name n k fuel :
  dir_env g s V L dp n → 0 ≤ k ≤ n → n - k < Z.of_nat fuel → icache_ok (fs_inode s) →
  wpp (dirlookup_from devread dp name (DIRENT_SIZE * k) fuel) (lookup_post g s V L dp name n k)
    (no_inodes V (fs_inode s) dp name n k) s.
Proof.
  revert s k. induction fuel as [|fuel IH]; intros s k Hdir Hk Hf Hic; [lia|].
  pose proof Hdir as [Henv Hty [Hsz Hn] Hmax Hmap Hr]. set (x := fs_inode s !!! dp) in *.
  cbn [dirlookup_from]. apply wp_wpp_bind, get_inode_ok. fold x. rewrite Hsz.
  destruct (Z.ltb_spec (DIRENT_SIZE * k) (DIRENT_SIZE * n)) as [Hlt|Hge].
  2:{ apply wp_wpp, wp_ret. unfold DIRENT_SIZE in Hge. split; [lia|]. exists (fs_st s). rewrite with_st_id. split; [done|].
      by destruct Henv as [[] _ _ _]. }
  assert (Hkn : 0 ≤ k < n) by (unfold DIRENT_SIZE in Hlt; lia).
  apply wp_wpp_bind. eapply readi_entry; [exact Hdir|done|]. fold x. intros st1 Hi1. rewrite Z.eqb_refl. cbn [negb].
  replace (DIRENT_SIZE * k + DIRENT_SIZE) with (DIRENT_SIZE * (k + 1)) by (unfold DIRENT_SIZE; lia).
  assert (Hskip : ¬ entry_is name (entry V x k) →
    wpp (dirlookup_from devread dp name (DIRENT_SIZE * (k + 1)) fuel) (lookup_post g s V L dp name n k)
      (no_inodes V (fs_inode s) dp name n k) (with_st s st1)).
  { intros Hno. eapply wpp_mono; [eapply (IH (with_st s st1) (k + 1)); [by apply dir_env_st|lia|lia|done]| |].
    2: { intros msg (-> & Hfull & j & Hj & He). split; [done|]. split; [done|]. exists j. split; [lia|done]. }
    intros [[ip off]|] s'; unfold lookup_post; cbn [with_st fs_inode]; fold x.
    - intros (j & st' & Hj & -> & He & Hfirst & Hi' & Hg). exists j, st'. split_and!; try done; try lia.
      intros i Hi. destruct (decide (i = k)) as [->|]; [done|]. apply Hfirst. lia.
    - intros [Hall Hst]. split; [|done]. intros j Hj. destruct (decide (j = k)) as [->|]; [done|]. apply Hall. lia. }
  destruct (Z.eqb_spec (de_inum (entry V x k)) 0) as [H0|H0].
  { apply Hskip. intros [? _]. done. }
  unfold namecmp. destruct (Z.eqb_spec (Kstring.strncmp name (chars (de_name (entry V x k))) (Z.of_nat DIRSIZ)) 0) as [Hc|Hc];
    rewrite strncmp_zero in Hc by (unfold DIRSIZ; lia).
  - assert (Hdev : i_dev x = ROOTDEV) by apply Henv. rewrite Hdev. apply wpp_bind.
    pose proof (iget_ok (with_st s st1) ROOTDEV (de_inum (entry V x k)) Hic) as Hg.
    unfold wpp in *. destruct (iget ROOTDEV (de_inum (entry V x k)) (with_st s st1)) as [ip s'|s'|msg] eqn:E; [|done|].
    + exists k, st1. fold x. split_and!; (done || lia).
    + destruct Hg as [-> Hfull]. split; [done|]. split; [intros i z Hz; by destruct (Hfull i z Hz)|]. exists k. split; [lia|by split].
  - apply Hskip. intros [_ ?]. done.
Qed.

Lemma dirlookup_ok g s V L dp name n :
  dir_env g s V L dp n → icache_ok (fs_inode s) →
  wpp (dirlookup devread dp name) (lookup_post g s V L dp name n 0) (no_inodes V (fs_inode s) dp name n 0) s.
Proof.
  intros Hdir Hic. pose proof Hdir as [_ Hty [Hsz Hn] _ _ _]. unfold dirlookup. apply wp_wpp_bind, get_inode_ok.
  rewrite Hty, Z.eqb_refl. cbn [negb]. replace 0 with (DIRENT_SIZE * 0) at 1 by lia.
  apply dirlookup_from_spec; [done|lia| |done]. rewrite Hsz. unfold dir_fuel.
  replace (DIRENT_SIZE * n) with (n * DIRENT_SIZE) by lia. rewrite Z.div_mul by done. lia.
Qed.

(** [dirlookup] finds the first entry in use with the name; its only failure is a full inode cache. *)
Theorem dirlookup_correct g s V L dp name n :
  dir_env g s V L dp n → icache_ok (fs_inode s) →
  wpp (dirlookup devread dp name) (lookup_post g s V L dp name n 0) (no_inodes V (fs_inode s) dp name n 0) s.
Proof. apply dirlookup_ok. Qed.
End dirlookup.

(** "//a/bb" *)
Lemma skipelem_correct_witness :
  let path := [slash; slash; Byte.x61; slash; Byte.x62; Byte.x62] in
  let name := replicate DIRSIZ Byte.x00 in
  match skipelem path name with
  | None => path_elems path = []
  | Some (rest, name') => ∃ e, path_elems path = e :: path_elems rest ∧ e ≠ [] ∧
      head rest ≠ Some slash ∧ length name' = DIRSIZ ∧ until_nul name' = take DIRSIZ e ∧
      (length rest < length path)%nat ∧ Byte.x00 ∉ rest
  end.
Proof.
  intros path name. apply (skipelem_correct path name).
  - reflexivity.
  - unfold path. set_solver.
Defined.
