(* ===== verification/FsLink.v ===== *)
(** * Adding directory entries (src/fs.c: [dirlink])

    [dirlink] writes a new entry over the first unused one, or at the end of the
    directory.  Afterwards [dirlookup] finds the name, and every other entry is
    where it was. *)

From S2P Require Import Prelude Dll Sleeplock Bio Memide FsLayout Log LogCrash LogProtocol Tx CString Fs FsAlloc FsInode FsFile FsWrite FsDir.

(** ** Entries *)

Lemma length_mk_dirent inum name : length name = DIRSIZ → length (mk_dirent inum name) = 16%nat.
Proof. intros H. unfold mk_dirent. rewrite length_app, H. done. Qed.

Lemma de_inum_mk inum name : de_inum (mk_dirent inum name) = u16 inum.
Proof. unfold de_inum, mk_dirent, ld. rewrite drop_0, take_app_length'; [apply le_val_bytes2|done]. Qed.

Lemma de_name_mk inum name : length name = DIRSIZ → de_name (mk_dirent inum name) = name.
Proof.
  intros H. unfold de_name, mk_dirent. rewrite drop_app_length' by done. rewrite <- H. apply firstn_all.
Qed.

(** [strncpy] keeps what [strncmp] looks at. *)
Lemma strncpy_agree name n : str_agree name (chars (strncpy_bytes name 0 n)) (Z.of_nat n).
Proof.
  intros j Hj Hnz. unfold chars. destruct (strncpy_bytes_lookup name 0 n (Z.to_nat j) ltac:(lia)) as [H _].
  rewrite Z2Nat.id in H by lia. rewrite Z.add_0_l in H. symmetry. apply nth_lookup_Some, H. intros i Hi. apply Hnz. lia.
Qed.

Lemma entry_is_new inum name : 0 < inum < 2 ^ 16 → entry_is name (mk_dirent inum (strncpy_bytes name 0 DIRSIZ)).
Proof.
  intros H. split; [rewrite de_inum_mk; unfold u16; rewrite Z.mod_small by lia; lia|].
  rewrite de_name_mk by apply length_strncpy_bytes. apply strncpy_agree.
Qed.

(** An entry lies in one block. *)
Lemma span_entry k : 0 ≤ k → span (DIRENT_SIZE * k) DIRENT_SIZE = 1%nat.
Proof.
  intros Hk. unfold span, DIRENT_SIZE. rewrite BSIZE_val. change (Z.of_nat 512) with 512.
  assert ((16 * k) mod 512 = 16 * (k mod 32)) as -> by (change 512 with (16 * 32); apply Z.mul_mod_distr_l; lia).
  pose proof (Z.mod_pos_bound k 32 ltac:(lia)).
  assert ((16 * (k mod 32) + 16 + 512 - 1) / 512 = 1) as -> by (symmetry; apply (Z.div_unique _ _ _ (16 * (k mod 32) + 15)); lia). done.
Qed.

(** Updating a slot without changing whose it is. *)
Lemma icache_ok_same l i x x' :
  icache_ok l → l !! i = Some x → i_dev x' = i_dev x → i_inum x' = i_inum x → i_ref x' = i_ref x → icache_ok (<[i := x']> l).
Proof.
  intros [Href Huniq] Hi Hd Hn Hr.
  assert (∀ j y, <[i := x']> l !! j = Some y → ∃ z, l !! j = Some z ∧ i_dev y = i_dev z ∧ i_inum y = i_inum z ∧ i_ref y = i_ref z) as H.
  { intros j y [[-> ->]|[_ Hy]]%insert_cases; [by exists x|by exists y]. }
  split.
  - intros j y (z & Hz & _ & _ & ->)%H. by apply (Href j).
  - intros j k y z (y' & Hy & Ed & En & Er)%H (z' & Hz & Ed' & En' & Er')%H H1 H2 H3 H4. apply (Huniq j k y' z'); congruence || lia.
Qed.

Section dirlink.
Context {S : Type} {ops : TxStore S} {laws : TxLaws S}.
Context (devread : Z → option (nat → Z → M (fsst S) (Z * list byte))).
Context (devwrite : Z → option (nat → list byte → Z → M (fsst S) Z)).
Implicit Types (s : fsst S) (V : Z → list byte) (L : gset Z).

(** The first unused entry, or the end. *)
Definition slot_post (g : geom) s V L (dp : nat) (n k off : Z) (s' : fsst S) : Prop :=
  let x := fs_inode s !!! dp in
  ∃ j st', k ≤ j ≤ n ∧ off = DIRENT_SIZE * j ∧ (j < n → de_inum (entry V x j) = 0) ∧
    (∀ i, k ≤ i < j → de_inum (entry V x i) ≠ 0) ∧ s' = with_st s st' ∧ tx_inv g st' V L ∅.

Lemma dirlink_slot_spec g s V L dp n k fuel :
  dir_env g s V L dp n → 0 ≤ k ≤ n → n - k < Z.of_nat fuel →
  wp (dirlink_slot devread dp (DIRENT_SIZE * k) fuel) (slot_post g s V L dp n k) s.
Proof.
  revert s k. induction fuel as [|fuel IH]; intros s k Hdir Hk Hf; [lia|].
  pose proof Hdir as [Henv Hty [Hsz Hn] Hmax Hmap Hr]. set (x := fs_inode s !!! dp) in *.
  cbn [dirlink_slot]. apply wp_bind, get_inode_ok. fold x. rewrite Hsz.
  destruct (Z.ltb_spec (DIRENT_SIZE * k) (DIRENT_SIZE * n)) as [Hlt|Hge].
  2: { apply wp_ret. exists k, (fs_st s). unfold DIRENT_SIZE in Hge. rewrite with_st_id.
       split_and!; try done; try lia. by destruct Henv as [[] _ _ _]. }
  assert (Hkn : 0 ≤ k < n) by (unfold DIRENT_SIZE in Hlt; lia).
  apply wp_bind. eapply readi_entry; [exact Hdir|done|]. fold x. intros st1 Hi1. rewrite Z.eqb_refl. cbn [negb].
  destruct (Z.eqb_spec (de_inum (entry V x k)) 0) as [H0|H0].
  { apply wp_ret. exists k, st1. split_and!; try done; lia. }
  replace (DIRENT_SIZE * k + DIRENT_SIZE) with (DIRENT_SIZE * (k + 1)) by (unfold DIRENT_SIZE; lia).
  eapply wp_mono; [apply (IH (with_st s st1) (k + 1)); [by apply dir_env_st|lia|lia]|].
  intros off s' (j & st' & Hj & -> & Hfree & Hused & -> & Hi'). exists j, st'. cbn [with_st fs_inode] in *. fold x in Hfree, Hused |- *.
  split_and!; try done; try lia. intros i Hi. destruct (decide (i = k)) as [->|]; [done|]. apply Hused. lia.
Qed.

(** What [dirlink] needs: a directory of [n] entries with room for another one, in a transaction. *)
Record link_pre (g : geom) s V L (dp : nat) (n inum : Z) : Prop := {
  lp_dir : dir_env g s V L dp n;
  lp_meta : meta_fits (fs_inode s !!! dp);
  lp_inum : 0 ≤ i_inum (fs_inode s !!! dp) < sb_ninodes (fs_sb s);
  lp_fits : DIRENT_SIZE * (n + 1) ≤ MAXFILE * Z.of_nat BSIZE;
  lp_room : room g L ∅ 7;
  lp_cache : icache_ok (fs_inode s);
  lp_new : 0 < inum < 2 ^ 16;
}.

(** The directory with the new entry in slot [j], the first unused one or else the end, and the other entries. *)
Definition linked (g : geom) s V (dp : nat) (n : Z) (e : list byte) (s' : fsst S) : Prop :=
  let x := fs_inode s !!! dp in
  ∃ V' L' j, let x' := fs_inode s' !!! dp in
    fs_inode s' = <[dp := x']> (fs_inode s) ∧ same_slot x x' ∧ dir_env g s' V' L' dp (Z.max n (j + 1)) ∧
    0 ≤ j ≤ n ∧ (j < n → de_inum (entry V x j) = 0) ∧ (∀ i, 0 ≤ i < j → de_inum (entry V x i) ≠ 0) ∧ entry V' x' j = e ∧
    (∀ i, 0 ≤ i < n → i ≠ j → entry V' x' i = entry V x i) ∧ file_confined g (fs_sb s) V x V' x'.

(** Every entry is in use, and the disk has too few free blocks for another one. *)
Definition dir_full (g : geom) s V (dp : nat) (n : Z) (msg : string) : Prop :=
  let x := fs_inode s !!! dp in
  (∀ i, 0 ≤ i < n → de_inum (entry V x i) ≠ 0) ∧ disk_full g (fs_sb s) V x (DIRENT_SIZE * (n + 1)) msg.

Lemma entry_ext V x V' x' i : (∀ pos, DIRENT_SIZE * i ≤ pos < DIRENT_SIZE * i + 16 → fbyte V' x' pos = fbyte V x pos) → entry V' x' i = entry V x i.
Proof.
  intros H. unfold entry, fread. apply list_fmap_ext. intros k j Hk. apply lookup_seq in Hk as [-> Hk]. apply H. lia.
Qed.

Lemma written_linked g s V L dp n j e s' :
  dir_env g s V L dp n → 0 ≤ j ≤ n → length e = 16%nat → DIRENT_SIZE * (n + 1) ≤ MAXFILE * Z.of_nat BSIZE →
  (j < n → de_inum (entry V (fs_inode s !!! dp) j) = 0) → (∀ i, 0 ≤ i < j → de_inum (entry V (fs_inode s !!! dp) i) ≠ 0) →
  written g s V dp (DIRENT_SIZE * j) e s' → linked g s V dp n e s'.
Proof.
  intros [Henv Hty [Hsz Hn] Hmax Hmap Hr] Hj He Hfit Hfree Hused (V' & L' & x' & Hin & Henv' & Hty' & Hsz' & Hmap' & HNB & Hnew & Hold & Hsame & Hconf).
  assert (Hx' : fs_inode s' !!! dp = x') by (rewrite Hin; apply list_lookup_total_insert_eq; apply Henv).
  rewrite He in Hsz', Hnew, Hold. rewrite decide_True in Hsz' by lia. change (Z.of_nat 16) with 16 in *. unfold linked, DIRENT_SIZE in *.
  exists V', L', j. rewrite Hx'. split_and!; try done; try lia.
  - split; rewrite ?Hx'; try done; [by rewrite Hty'|unfold DIRENT_SIZE; lia|lia].
  - apply list_eq_same_length with 16%nat; [done|apply length_fread|].
    intros i c c' Hi Hc Hc'. unfold entry in Hc. rewrite lookup_fread in Hc by done. injection Hc as <-. unfold DIRENT_SIZE.
    rewrite Hnew by lia. replace (Z.to_nat (16 * j + Z.of_nat i - 16 * j)) with i by lia. by apply nth_lookup_Some.
  - intros i Hi Hne. apply entry_ext. intros pos Hpos. unfold DIRENT_SIZE in Hpos. apply Hold; lia.
Qed.

Lemma dirlink_ok g s V L dp name n inum :
  link_pre g s V L dp n inum → (∀ j, 0 ≤ j < n → ¬ entry_is name (entry V (fs_inode s !!! dp) j)) →
  wpp (dirlink devread devwrite dp name inum)
    (λ r s', r = 0 ∧ linked g s V dp n (mk_dirent inum (strncpy_bytes name 0 DIRSIZ)) s') (dir_full g s V dp n) s.
Proof.
  intros [Hdir Hmeta Hinum Hfit Hroom Hic Hnew] Habs. pose proof Hdir as [Henv Hty [Hsz Hn] Hmax Hmap Hr].
  unfold dirlink. apply wpp_bind. eapply wpp_mono; [by apply dirlookup_ok| |].
  2: { intros msg (_ & _ & j & Hj & He). by destruct (Habs j Hj). }
  intros [[ip off]|] s1; unfold lookup_post.
  { intros (j & st' & Hj & _ & He & _). by destruct (Habs j Hj). }
  intros (_ & st1 & -> & Hi1). apply wp_wpp_bind, get_inode_ok. cbn [with_st fs_inode]. rewrite Hsz.
  apply wp_wpp_bind. replace 0 with (DIRENT_SIZE * 0) at 1 by lia.
  eapply wp_mono; [apply (dirlink_slot_spec g (with_st s st1) V L dp n 0); [by apply dir_env_st|lia|]|].
  { unfold dir_fuel. replace (DIRENT_SIZE * n) with (n * DIRENT_SIZE) by lia. rewrite Z.div_mul by done. lia. }
  intros off s2 (j & st2 & Hj & -> & Hfree & Hused & -> & Hi2). rewrite with_st_with_st in *. cbn [with_st fs_inode] in Hfree, Hused.
  set (e := mk_dirent inum (strncpy_bytes name 0 DIRSIZ)).
  assert (He : length e = 16%nat) by (apply length_mk_dirent, length_strncpy_bytes).
  apply wpp_bind. eapply wpp_mono; [apply (writei_ok devwrite g (with_st s st2) V L dp e (DIRENT_SIZE * j) DIRENT_SIZE)| |].
  - split; cbn [with_st fs_inode fs_sb]; try done.
    + by apply file_env_st.
    + by rewrite Hty.
    + unfold DIRENT_SIZE in *. lia.
    + unfold DIRENT_SIZE in *. lia.
    + rewrite span_entry by lia. exact Hroom.
  - rewrite He. reflexivity.
  - intros r s3 [-> Hw]. rewrite Z.eqb_refl. cbn [negb]. apply wp_wpp, wp_ret. split; [done|].
    apply (written_linked g (with_st s st2) V L dp n j e); try done. by apply dir_env_st.
  - intros msg. unfold write_full, dir_full. cbn [with_st fs_inode fs_sb]. rewrite Hsz. intros [-> Hlow].
    destruct (decide (j < n)) as [Hjn|Hjn].
    + rewrite Z.max_l, <-Hsz, lacking_mapped in Hlow by (done || unfold DIRENT_SIZE; lia).
      pose proof (tally_nonneg (λ b, negb (used (fs_sb s) V b)) (Z.to_nat (g_size g))). unfold free_blocks in Hlow. lia.
    + assert (j = n) as -> by lia. split; [done|]. split; [done|]. rewrite Z.max_r in Hlow by (unfold DIRENT_SIZE; lia).
      by replace (DIRENT_SIZE * (n + 1)) with (DIRENT_SIZE * n + DIRENT_SIZE) by lia.
Qed.

(** A lookup in the new directory finds the new entry: no entry before it has the name. *)
Lemma lookup_linked g s V L dp name n inum s' :
  link_pre g s V L dp n inum → (∀ j, 0 ≤ j < n → ¬ entry_is name (entry V (fs_inode s !!! dp) j)) →
  linked g s V dp n (mk_dirent inum (strncpy_bytes name 0 DIRSIZ)) s' →
  wpp (dirlookup devread dp name)
    (λ r s'', ∃ ip off, r = Some (ip, off) ∧ i_dev (fs_inode s'' !!! ip) = ROOTDEV ∧ i_inum (fs_inode s'' !!! ip) = inum)
    (λ msg, msg = "iget: no inodes"%string) s'.
Proof.
  intros [Hdir _ _ _ _ Hic Hnew] Habs (V' & L' & j & Hin & (Sd & Si & Sr & _) & Hdir' & Hj & Hfree & _ & He & Hoth & _).
  set (x := fs_inode s !!! dp) in *. set (x' := fs_inode s' !!! dp) in *.
  assert (Hlt : (dp < length (fs_inode s))%nat) by apply Hdir.
  assert (Hic' : icache_ok (fs_inode s')).
  { rewrite Hin. apply icache_ok_same with x; [done|by apply list_lookup_lookup_total_lt|done..]. }
  eapply wpp_mono; [by apply dirlookup_ok| |by intros msg []]. unfold lookup_post. fold x'. intros [[ip off]|] s1.
  - intros (k & st' & Hk & _ & Hek & Hfirst & Hi & Hg). exists ip, off. split; [done|].
    assert (k = j) as ->.
    { destruct (decide (k = j)); [done|]. destruct (decide (k < n)) as [Hkn|Hkn]; [|lia].
      rewrite Hoth in Hek by lia. by destruct (Habs k ltac:(lia)). }
    rewrite He, de_inum_mk in Hg. unfold u16 in Hg. rewrite Z.mod_small in Hg by lia.
    pose proof (iget_ok (with_st s' st') ROOTDEV inum Hic') as Higet. unfold wpp in Higet. rewrite Hg in Higet.
    destruct Higet as (y & Hy & _ & z & -> & Hd & Hn & _). cbn [with_inode fs_inode with_st].
    rewrite list_lookup_total_insert_eq by (by eapply lookup_lt_Some). done.
  - intros [Hall _]. destruct (Hall j ltac:(lia)). rewrite He. by apply entry_is_new.
Qed.

End dirlink.
