(* ===== verification/FsPath.v ===== *)
(** * Path resolution (src/fs.c: [namex], [namei], [nameiparent])

    The tree of directories on the disk resolves a path name, element by element.
    [namex] does so through the inode cache, the buffer cache and the locks: it
    returns the inode that the tree has at the path, leaves every lock free, and
    takes exactly one reference, to the inode it returns. *)

From S2P Require Import Prelude Dll Sleeplock Bio Memide FsLayout Log LogCrash LogProtocol Tx CString Fs FsAlloc FsInode FsFile FsDir.

(** ** Names as strings *)

Lemma chars_cons c l j : 0 ≤ j → chars (c :: l) (j + 1) = chars l j.
Proof. intros Hj. unfold chars. by rewrite Z2Nat.inj_add, Nat.add_1_r by lia. Qed.

Lemma str_agree_nil n : str_agree (chars []) (chars []) n.
Proof. by intros j. Qed.

Lemma str_agree_cons c d a b n :
  0 ≤ n → str_agree (chars (c :: a)) (chars (d :: b)) (n + 1) ↔ c = d ∧ (c ≠ Byte.x00 → str_agree (chars a) (chars b) n).
Proof.
  intros Hn. split.
  - intros H. split; [apply (H 0); lia|]. intros Hc j Hj Hnz.
    rewrite <-(chars_cons c), <-(chars_cons d b) by lia. apply H; [lia|].
    intros j' Hj'. destruct (decide (j' = 0)) as [->|]; [done|].
    replace j' with (j' - 1 + 1) by lia. rewrite chars_cons by lia. apply Hnz. lia.
  - intros [-> H] j Hj Hnz. destruct (decide (j = 0)) as [->|]; [done|].
    replace j with (j - 1 + 1) by lia. rewrite !chars_cons by lia. apply H; [apply (Hnz 0); lia|lia|].
    intros j' Hj'. rewrite <-(chars_cons d) by lia. apply Hnz. lia.
Qed.

(** Two name fields compare equal exactly when they hold the same string. *)
Lemma str_agree_until_nul a b :
  length a = length b → str_agree (chars a) (chars b) (Z.of_nat (length a)) ↔ until_nul a = until_nul b.
Proof.
  revert b. induction a as [|c a IH]; intros [|d b] Hl; try done.
  injection Hl as Hl. replace (Z.of_nat (length (c :: a))) with (Z.of_nat (length a) + 1) by (simpl; lia).
  rewrite str_agree_cons, (IH b Hl) by lia. cbn [until_nul]. case_decide as Hc; case_decide as Hd.
  - split; [done|]. intros _. split; [congruence|done].
  - split; [intros [? _]; congruence|done].
  - split; [intros [? _]; congruence|done].
  - split; [intros [-> H]; by rewrite H|]. intros [= -> H]. done.
Qed.

(** ** The tree on the disk *)

(** The inode number [i] as the disk has it. *)
Definition dnode (sb : superblock) (V : Z → list byte) (i : Z) : inode := dinode_read i (V (IBLOCK i sb)) zero_inode.

(** The inode is allocated. *)
Definition live (sb : superblock) (V : Z → list byte) (i : Z) : Prop :=
  0 ≤ i < sb_ninodes sb ∧ i_type (dnode sb V i) ≠ 0.

Definition entries (V : Z → list byte) (x : inode) : list (list byte) :=
  entry V x <$> seqZ 0 (i_size x / DIRENT_SIZE).

(** The inode number that the directory [x] has for the name. *)
Definition dir_find (V : Z → list byte) (x : inode) (name : list byte) : option Z :=
  head (omap (λ e, if decide (de_inum e ≠ 0 ∧ until_nul (de_name e) = name) then Some (de_inum e) else None) (entries V x)).

(** The inode at the end of the walk from [i] along the names. *)
Fixpoint resolve (sb : superblock) (V : Z → list byte) (i : Z) (es : list (list byte)) : option Z :=
  match es with
  | [] => Some i
  | e :: es =>
      if i_type (dnode sb V i) =? T_DIR then
        match dir_find V (dnode sb V i) (take DIRSIZ e) with
        | None => None
        | Some j => resolve sb V j es
        end
      else None
  end.

(** What [namex] looks for: the inode at the path, or the directory that would hold it. *)
Definition target (sb : superblock) (V : Z → list byte) (parent : bool) (i : Z) (es : list (list byte)) : option Z :=
  if parent then
    match es with
    | [] => None
    | _ => j ← resolve sb V i (removelast es); if i_type (dnode sb V j) =? T_DIR then Some j else None
    end
  else resolve sb V i es.

(** Directories are whole, and the entries in use lead to allocated, linked inodes. *)
Record tree_ok (g : geom) (sb : superblock) (V : Z → list byte) : Prop := {
  tk_root : live sb V ROOTINO;
  tk_link : ∀ i, live sb V i → i_nlink (dnode sb V i) ≠ 0;
  tk_file : ∀ i, live sb V i → i_type (dnode sb V i) = T_DIR → file_wf g sb V (dnode sb V i);
  tk_size : ∀ i, live sb V i → i_type (dnode sb V i) = T_DIR →
    i_size (dnode sb V i) = DIRENT_SIZE * (i_size (dnode sb V i) / DIRENT_SIZE) ∧
    0 ≤ i_size (dnode sb V i) ≤ MAXFILE * Z.of_nat BSIZE ∧ mapped V (dnode sb V i) (i_size (dnode sb V i));
  tk_entry : ∀ i e, live sb V i → i_type (dnode sb V i) = T_DIR →
    e ∈ entries V (dnode sb V i) → de_inum e ≠ 0 → live sb V (de_inum e);
}.

Section tree.
Implicit Types (V : Z → list byte) (x y : inode).

Lemma target_cons sb V parent i e es :
  target sb V parent i (e :: es) =
    if i_type (dnode sb V i) =? T_DIR then
      if parent && bool_decide (es = []) then Some i
      else match dir_find V (dnode sb V i) (take DIRSIZ e) with None => None | Some j => target sb V parent j es end
    else None.
Proof.
  destruct parent; cbn [target andb]; [|done]. destruct es as [|e' es].
  - cbn. by destruct (_ =? _).
  - rewrite bool_decide_eq_false_2 by done. change (removelast (e :: e' :: es)) with (e :: removelast (e' :: es)).
    cbn [resolve]. destruct (_ =? T_DIR); [|done]. by destruct (dir_find _ _ _).
Qed.

Lemma head_omap_first {A B} (f : A → option B) l k a b :
  l !! k = Some a → f a = Some b → (∀ j c, (j < k)%nat → l !! j = Some c → f c = None) → head (omap f l) = Some b.
Proof.
  revert k. induction l as [|c l IH]; intros [|k] Hk Ha Hf; try done; cbn [omap list_omap].
  - injection Hk as ->. by rewrite Ha.
  - rewrite (Hf 0%nat c) by (done || lia). apply (IH k); [done|done|]. intros j d Hj Hd. apply (Hf (Datatypes.S j) d); [lia|done].
Qed.

Lemma omap_none {A B} (f : A → option B) l : (∀ a, a ∈ l → f a = None) → omap f l = [].
Proof. induction l as [|c l IH]; intros H; [done|]. cbn. rewrite H by set_solver. apply IH. set_solver. Qed.

Lemma elem_of_entries V x e : e ∈ entries V x ↔ ∃ j, 0 ≤ j < i_size x / DIRENT_SIZE ∧ e = entry V x j.
Proof.
  unfold entries. rewrite list_elem_of_fmap. setoid_rewrite elem_of_seqZ. split; intros (j & ? & ?); exists j; split; (done || lia).
Qed.

Lemma lookup_entries V x j : 0 ≤ j < i_size x / DIRENT_SIZE → entries V x !! Z.to_nat j = Some (entry V x j).
Proof. intros Hj. unfold entries. rewrite list_lookup_fmap, lookup_seqZ_lt by lia. simpl. do 2 f_equal. lia. Qed.

Lemma dir_find_none V x name :
  (∀ j, 0 ≤ j < i_size x / DIRENT_SIZE → ¬ (de_inum (entry V x j) ≠ 0 ∧ until_nul (de_name (entry V x j)) = name)) →
  dir_find V x name = None.
Proof.
  intros H. unfold dir_find. rewrite omap_none; [done|]. intros e (j & Hj & ->)%elem_of_entries. by rewrite decide_False by auto.
Qed.

Lemma dir_find_some V x name j :
  0 ≤ j < i_size x / DIRENT_SIZE → de_inum (entry V x j) ≠ 0 → until_nul (de_name (entry V x j)) = name →
  (∀ i, 0 ≤ i < j → ¬ (de_inum (entry V x i) ≠ 0 ∧ until_nul (de_name (entry V x i)) = name)) →
  dir_find V x name = Some (de_inum (entry V x j)).
Proof.
  intros Hj H0 Hn Hf. unfold dir_find. eapply (head_omap_first _ _ (Z.to_nat j)); [by apply lookup_entries|by rewrite decide_True by auto|].
  intros k c Hk. rewrite <-(Nat2Z.id k), lookup_entries by lia. intros [= <-]. rewrite decide_False; [done|]. apply Hf. lia.
Qed.
End tree.

(** ** The inode cache *)

(** Entry [x] of the cache: [h] when this process holds its lock, free otherwise;
    an entry in use stands for an allocated inode, and once read agrees with it. *)
Record slot_ok (h : bool) (pid : Z) (sb : superblock) (V : Z → list byte) (x : inode) : Prop := {
  so_lock : if h then i_lock x = mkSleeplock 1 pid ∧ 0 < i_ref x ∧ i_valid x = 1 else sl_locked (i_lock x) = 0;
  so_use : 0 < i_ref x → i_dev x = ROOTDEV ∧ live sb V (i_inum x) ∧
    (i_valid x = 0 ∨ i_valid x = 1 ∧ dinode_read (i_inum x) (V (IBLOCK (i_inum x) sb)) x = x);
}.

(** The whole cache; [h] is the slot this process has locked, if any. *)
Definition cache_ok (h : option nat) (pid : Z) (sb : superblock) (V : Z → list byte) (l : list inode) : Prop :=
  icache_ok l ∧ ∀ k x, l !! k = Some x → slot_ok (bool_decide (h = Some k)) pid sb V x.

Definition sum_slots (f : inode → Z) (l : list inode) : Z := foldr (λ x n, f x + n) 0 l.

(** References to inode [i], and free entries. *)
Definition nrefs (l : list inode) (i : Z) : Z := sum_slots (λ x, if i_inum x =? i then i_ref x else 0) l.
Definition nfree (l : list inode) : Z := sum_slots (λ x, if i_ref x =? 0 then 1 else 0) l.

(** [d] more references at slot [k], which is for inode [i]. *)
Definition bumped (l : list inode) (k : nat) (i d : Z) (l' : list inode) : Prop :=
  ∃ x y, l !! k = Some x ∧ l' = <[k := y]> l ∧ i_inum y = i ∧ i_ref y = i_ref x + d ∧ (i_ref x = 0 ∨ i_inum x = i).

Definition delta (j i d : Z) : Z := if j =? i then d else 0.

Section cache.
Implicit Types (V : Z → list byte) (l : list inode) (x y : inode).

Lemma sum_slots_insert f l k x y : l !! k = Some x → sum_slots f (<[k := y]> l) = sum_slots f l - f x + f y.
Proof.
  revert k. induction l as [|z l IH]; intros [|k] Hk; try done; simpl.
  - injection Hk as ->. lia.
  - unfold sum_slots in *. rewrite (IH k Hk). lia.
Qed.

Lemma bumped_nrefs l k i d l' j : bumped l k i d l' → nrefs l' j = nrefs l j + delta j i d.
Proof.
  intros (x & y & Hx & -> & Hi & Hr & Hc). unfold nrefs, delta. rewrite (sum_slots_insert _ _ _ _ _ Hx), Hi, Hr, (Z.eqb_sym j).
  destruct (Z.eqb_spec i j) as [->|]; destruct (Z.eqb_spec (i_inum x) j); destruct Hc; lia.
Qed.

Lemma nfree_full l : (∀ k x, l !! k = Some x → 0 < i_ref x) → nfree l = 0.
Proof.
  intros H. induction l as [|x l IH]; [done|]. unfold nfree, sum_slots in *. simpl.
  rewrite IH by (intros k z Hz; by apply (H (S k) z)). specialize (H 0%nat x eq_refl).
  destruct (Z.eqb_spec (i_ref x) 0); lia.
Qed.

Definition one (b : bool) : Z := if b then 1 else 0.

(** A step of the walk, a reference taken at [next] and one dropped at [ip]: it
    leaves as many entries free, those that the walk itself holds counted. *)
Lemma nfree_walk l ip y next j i l2 l3 :
  (∀ k x, l !! k = Some x → 0 ≤ i_ref x) → l !! ip = Some y → 0 < i_ref y → i_inum y = i →
  bumped l next j 1 l2 → bumped l2 ip i (-1) l3 →
  ∃ z, l3 !! next = Some z ∧ i_inum z = j ∧ 0 < i_ref z ∧
    nfree l + one (i_ref y =? 1) ≤ nfree l3 + one (i_ref z =? 1).
Proof.
  intros H0 Hy Hr Hi (x & z & Hx & -> & Hz & Hrz & Hcx) (w & w' & Hw & -> & Hw' & Hrw & Hcw). specialize (H0 _ _ Hx).
  unfold nfree. rewrite (sum_slots_insert _ _ _ _ _ Hw), (sum_slots_insert _ _ _ _ _ Hx), Hrz, Hrw.
  destruct (decide (next = ip)) as [->|Hne].
  - rewrite list_lookup_insert_eq in Hw by (by eapply lookup_lt_Some). simplify_eq. exists w'.
    rewrite list_lookup_insert_eq by (rewrite length_insert; by eapply lookup_lt_Some). rewrite Hrw, Hrz.
    replace (i_ref y + 1 + -1) with (i_ref y) by lia. split_and!; [done|destruct Hcw; (congruence || lia)|lia|].
    destruct (Z.eqb_spec (i_ref y) 0), (Z.eqb_spec (i_ref y + 1) 0), (Z.eqb_spec (i_ref y) 1); unfold one; lia.
  - rewrite list_lookup_insert_ne in Hw by done. rewrite Hy in Hw. injection Hw as <-. exists z.
    rewrite list_lookup_insert_ne, list_lookup_insert_eq by (done || (by eapply lookup_lt_Some)).
    split_and!; [done|done|lia|]. rewrite Hrz.
    destruct (Z.eqb_spec (i_ref y) 0), (Z.eqb_spec (i_ref y + -1) 0), (Z.eqb_spec (i_ref x) 0), (Z.eqb_spec (i_ref x + 1) 0),
      (Z.eqb_spec (i_ref y) 1), (Z.eqb_spec (i_ref x + 1) 1); unfold one; lia.
Qed.

Lemma bumped_nfree_0 l k i l' : bumped l k i 0 l' → nfree l' = nfree l.
Proof.
  intros (x & y & Hx & -> & _ & Hr & _). unfold nfree. rewrite (sum_slots_insert _ _ _ _ _ Hx), Hr, Z.add_0_r. lia.
Qed.

Lemma bumped_keeps l next j l2 ip y :
  bumped l next j 1 l2 → l !! ip = Some y → 0 < i_ref y → ∃ w, l2 !! ip = Some w ∧ i_inum w = i_inum y ∧ 0 < i_ref w.
Proof.
  intros (x & z & Hx & -> & Hz & Hrz & Hc) Hy Hr. destruct (decide (next = ip)) as [->|Hne].
  - exists z. rewrite list_lookup_insert_eq by (by eapply lookup_lt_Some). simplify_eq. destruct Hc; split_and!; (done || lia).
  - exists y. by rewrite list_lookup_insert_ne.
Qed.

Lemma icache_ok_insert l k x y :
  icache_ok l → l !! k = Some x → 0 ≤ i_ref y →
  (0 < i_ref y → 0 < i_ref x ∧ i_dev y = i_dev x ∧ i_inum y = i_inum x) → icache_ok (<[k := y]> l).
Proof.
  intros [Hr Hu] Hx Hy Hxy. split.
  - intros i z. rewrite list_lookup_insert_Some. intros [(<- & <- & _)|[_ Hz]]; [done|by eapply Hr].
  - intros i j z w. rewrite !list_lookup_insert_Some.
    intros [(<- & <- & _)|[Hi Hz]] [(<- & <- & _)|[Hj Hw]] Hz0 Hw0 Hd Hn; [done| | |by eapply Hu].
    + destruct (Hxy Hz0) as (? & ? & ?). apply (Hu k j x w); congruence.
    + destruct (Hxy Hw0) as (? & ? & ?). apply (Hu i k z x); congruence.
Qed.

(** Changing slot [k], the only slot whose lock changes hands. *)
Lemma cache_ok_insert h h' pid sb V l k x y :
  cache_ok h pid sb V l → l !! k = Some x → icache_ok (<[k := y]> l) →
  slot_ok (bool_decide (h' = Some k)) pid sb V y →
  (∀ j, j ≠ k → bool_decide (h' = Some j) = bool_decide (h = Some j)) → cache_ok h' pid sb V (<[k := y]> l).
Proof.
  intros [_ Hs] Hx Hi Hy Hh. split; [done|]. intros j z. rewrite list_lookup_insert_Some.
  intros [(<- & <- & _)|[Hj Hz]]; [done|]. rewrite Hh by done. by apply Hs.
Qed.

Lemma held_other (k j : nat) : j ≠ k → bool_decide (Some k = Some j) = bool_decide (@None nat = Some j).
Proof. intros H. rewrite !bool_decide_eq_false_2 by congruence. done. Qed.

Lemma dinode_read_fields i d x y :
  i_type (dinode_read i d x) = i_type (dinode_read i d y) ∧ i_nlink (dinode_read i d x) = i_nlink (dinode_read i d y) ∧
  i_size (dinode_read i d x) = i_size (dinode_read i d y) ∧ i_addrs (dinode_read i d x) = i_addrs (dinode_read i d y).
Proof. rewrite !dinode_read_eq. cbn [i_type i_nlink i_size i_addrs]. split_and!; reflexivity. Qed.

(** Reading the inode again changes nothing; the fields that only the cache has stay. *)
Lemma dinode_read_again i d x :
  dinode_read i d (set_ivalid 1 (dinode_read i d x)) = set_ivalid 1 (dinode_read i d x).
Proof. rewrite !dinode_read_eq. reflexivity. Qed.

Lemma dinode_read_cache i d lk r x :
  dinode_read i d (set_iref r (set_ilock lk x)) = set_iref r (set_ilock lk (dinode_read i d x)).
Proof. rewrite !dinode_read_eq. reflexivity. Qed.

Lemma dinode_read_kept i d x :
  i_dev (dinode_read i d x) = i_dev x ∧ i_inum (dinode_read i d x) = i_inum x ∧ i_ref (dinode_read i d x) = i_ref x ∧
  i_lock (dinode_read i d x) = i_lock x.
Proof. rewrite dinode_read_eq. cbn [i_dev i_inum i_ref i_lock]. split_and!; reflexivity. Qed.

(** A valid entry has the fields of the inode on the disk. *)
Lemma valid_fields sb V x :
  dinode_read (i_inum x) (V (IBLOCK (i_inum x) sb)) x = x →
  i_type x = i_type (dnode sb V (i_inum x)) ∧ i_nlink x = i_nlink (dnode sb V (i_inum x)) ∧
  i_size x = i_size (dnode sb V (i_inum x)) ∧ i_addrs x = i_addrs (dnode sb V (i_inum x)).
Proof. intros H. rewrite <-H at 1 3 5 7. apply dinode_read_fields. Qed.

Lemma faddr_addrs V x y bn : i_addrs x = i_addrs y → faddr V x bn = faddr V y bn.
Proof. intros H. unfold faddr. by rewrite H. Qed.

Lemma file_wf_addrs g sb V x y : i_addrs x = i_addrs y → file_wf g sb V y → file_wf g sb V x.
Proof.
  intros H [? ? ? ?]. split; rewrite ?H; try done; intros bn; rewrite !(faddr_addrs V x y _ H); auto.
  intros bn'. rewrite !(faddr_addrs V x y _ H). auto.
Qed.

Lemma mapped_addrs V x y hi : i_addrs x = i_addrs y → mapped V y hi → mapped V x hi.
Proof. intros H Hm bn. rewrite (faddr_addrs V x y _ H). apply Hm. Qed.

Lemma entry_addrs V x y k : i_addrs x = i_addrs y → entry V x k = entry V y k.
Proof. intros H. unfold entry, fread. apply list_fmap_ext. intros i j _. unfold fbyte. by rewrite (faddr_addrs V x y _ H). Qed.

Lemma entry_is_string V x k name :
  length name = DIRSIZ →
  entry_is (chars name) (entry V x k) ↔ de_inum (entry V x k) ≠ 0 ∧ until_nul (de_name (entry V x k)) = until_nul name.
Proof.
  intros Hn. unfold entry_is. rewrite <-Hn, str_agree_until_nul; [intuition congruence|].
  rewrite Hn. unfold de_name, entry, fread. by rewrite length_take, length_drop, length_fmap, length_seq.
Qed.

(** One more reference to an entry in use. *)
Lemma slot_ok_ref h pid sb V x r :
  slot_ok h pid sb V x → 0 < i_ref x → 0 < r → slot_ok h pid sb V (set_iref r x).
Proof.
  intros [Hlk Huse] H0 Hr. destruct (Huse H0) as (Hd & Hl & Hv). split.
  - destruct h; [|done]. destruct Hlk as (? & _ & ?). done.
  - intros _. cbn [i_dev i_inum i_valid set_iref]. split_and!; [done|done|]. destruct Hv as [?|[? Hv]]; [by left|right].
    split; [done|]. pose proof (dinode_read_cache (i_inum x) (V (IBLOCK (i_inum x) sb)) (i_lock x) r x) as E.
    rewrite Hv in E. exact E.
Qed.

(** An entry [iget] has just taken for inode [i]. *)
Lemma slot_ok_new h pid sb V x y :
  slot_ok h pid sb V x → i_ref x = 0 → i_lock y = i_lock x → i_dev y = ROOTDEV → i_valid y = 0 → live sb V (i_inum y) →
  slot_ok h pid sb V y.
Proof.
  intros [Hlk _] H0 Hl Hd Hv Hlive. destruct h; [lia|]. split; [by rewrite Hl|]. auto.
Qed.
End cache.

(** ** The operations on one slot *)

Section ops.
Context {S : Type} {ops : TxStore S} {laws : TxLaws S}.
Context (devread : Z → option (nat → Z → M (fsst S) (Z * list byte))).
Implicit Types (s : fsst S) (V : Z → list byte) (L : gset Z).

(** A consistent file system in which this process holds the lock of slot [h], if any. *)
Record fs_ok (g : geom) s V L (h : option nat) : Prop := {
  fo_alloc : alloc_ok g s V L ∅;
  fo_room : (base.size L < NBUF)%nat;
  fo_tree : tree_ok g (fs_sb s) V;
  fo_cache : cache_ok h (fs_pid s) (fs_sb s) V (fs_inode s);
}.

Definition same_env s s' : Prop := fs_sb s' = fs_sb s ∧ fs_pid s' = fs_pid s ∧ fs_cwd s' = fs_cwd s.

(** One call changed the references of slot [k] by [d], and nothing else of the cache. *)
Definition slot_step s (k : nat) (i d : Z) s' : Prop := same_env s s' ∧ bumped (fs_inode s) k i d (fs_inode s').

Lemma fo_slot g s V L h k x :
  fs_ok g s V L h → fs_inode s !! k = Some x → slot_ok (bool_decide (h = Some k)) (fs_pid s) (fs_sb s) V x.
Proof. intros [_ _ _ [_ Hs]]. apply Hs. Qed.

(** Writing back one slot, with a new state of the buffer cache. *)
Lemma fs_ok_slot g s V L h h' st' k x y :
  fs_ok g s V L h → tx_inv g st' V L ∅ → fs_inode s !! k = Some x →
  0 ≤ i_ref y → (0 < i_ref y → 0 < i_ref x) → i_dev y = i_dev x → i_inum y = i_inum x →
  slot_ok (bool_decide (h' = Some k)) (fs_pid s) (fs_sb s) V y →
  (∀ j, j ≠ k → bool_decide (h' = Some j) = bool_decide (h = Some j)) →
  fs_ok g (with_inode (with_st s st') (<[k := y]> (fs_inode s))) V L h' ∧
  slot_step s k (i_inum x) (i_ref y - i_ref x) (with_inode (with_st s st') (<[k := y]> (fs_inode s))).
Proof.
  intros [Ha Hr Ht [Hi Hs]] Hinv Hx H0 Hp Hd Hn Hy Hh. split.
  - split; [by destruct Ha|done|done|]. cbn [with_inode with_st fs_inode fs_pid fs_sb].
    eapply cache_ok_insert; [by split|exact Hx| |exact Hy|done]. eapply icache_ok_insert; [done|exact Hx|done|].
    intros H. split_and!; auto.
  - split; [done|]. exists x, y. cbn. split_and!; [done|done|done|lia|by right].
Qed.

Lemma ilock_fs g s V L ip x :
  fs_ok g s V L None → fs_inode s !! ip = Some x → 0 < i_ref x →
  wp (ilock ip) (λ _ s', fs_ok g s' V L (Some ip) ∧ slot_step s ip (i_inum x) 0 s') s.
Proof.
  intros Hok Hx Href. destruct (fo_slot _ _ _ _ _ _ _ Hok Hx) as [Hlk Huse].
  rewrite bool_decide_eq_false_2 in Hlk by done. destruct (Huse Href) as (Hdev & Hlive & Hv).
  pose proof (list_lookup_total_correct _ _ _ Hx) as Hx'.
  set (z := dinode_read (i_inum x) (V (IBLOCK (i_inum x) (fs_sb s))) (set_ilock (mkSleeplock 1 (fs_pid s)) x)).
  destruct (dinode_read_kept (i_inum x) (V (IBLOCK (i_inum x) (fs_sb s))) (set_ilock (mkSleeplock 1 (fs_pid s)) x)) as (Hzd & Hzn & Hzr & Hzl).
  pose proof (dinode_read_again (i_inum x) (V (IBLOCK (i_inum x) (fs_sb s))) (set_ilock (mkSleeplock 1 (fs_pid s)) x)) as Hz.
  fold z in Hzd, Hzn, Hzr, Hzl, Hz. cbn [i_dev i_inum i_ref i_lock set_ilock] in Hzd, Hzn, Hzr, Hzl.
  assert (Hpost : ∀ st', tx_inv g st' V L ∅ → fs_ok g (with_inode (with_st s st') (<[ip := set_ivalid 1 z]> (fs_inode s))) V L (Some ip) ∧
    slot_step s ip (i_inum x) 0 (with_inode (with_st s st') (<[ip := set_ivalid 1 z]> (fs_inode s)))).
  { clearbody z. intros st' Hi. replace 0 with (i_ref (set_ivalid 1 z) - i_ref x) by (cbn; lia).
    eapply fs_ok_slot; try done; [cbn; lia| |apply held_other].
    rewrite bool_decide_eq_true_2 by done. split; cbn [i_lock i_ref i_valid i_dev i_inum set_ivalid]; [split_and!; [done|lia|done]|].
    intros _. rewrite Hzn. split_and!; [congruence|done|]. right. by split. }
  destruct Hv as [Hv|[Hv Hrd]].
  - eapply wp_mono; [eapply (ilock_spec g s V L ∅ ip); rewrite ?Hx'; try assumption; try lia|].
    + by eapply lookup_lt_Some.
    + apply Hok.
    + apply Hok.
    + apply Hlive.
    + exact (proj2 Hlive).
    + by rewrite held_nil.
    + rewrite map_size_empty. pose proof (fo_room _ _ _ _ _ Hok). lia.
    + rewrite Hx'. intros [] s' (st' & -> & Hi). by apply Hpost.
  - assert (Hy : set_ilock (mkSleeplock 1 (fs_pid s)) x = set_ivalid 1 z).
    { unfold z. pose proof (dinode_read_cache (i_inum x) (V (IBLOCK (i_inum x) (fs_sb s))) (mkSleeplock 1 (fs_pid s)) (i_ref x) x) as E.
      rewrite Hrd in E. change (set_iref (i_ref x) (set_ilock (mkSleeplock 1 (fs_pid s)) x)) with (set_ilock (mkSleeplock 1 (fs_pid s)) x) in E.
      rewrite E, <-Hv. reflexivity. }
    clearbody z. unfold ilock. apply wp_bind, get_inode_ok. rewrite Hx', (proj2 (Z.ltb_ge _ _)) by lia.
    apply wp_bind. unfold lock_inode. apply wp_getS. rewrite Hx'. unfold acquiresleep. rewrite Hlk. cbn [Z.eqb].
    unfold upd_inode. apply wp_modify_end. rewrite alter_insert, Hx'.
    apply wp_bind, get_inode_ok. cbn [fs_inode]. rewrite list_lookup_total_insert_eq by (by eapply lookup_lt_Some).
    cbn [i_valid set_ilock]. rewrite Hv. apply wp_ret. rewrite Hy. apply (Hpost (fs_st s)). apply Hok.
Qed.
Lemma iunlock_fs g s V L ip x :
  fs_ok g s V L (Some ip) → fs_inode s !! ip = Some x →
  wp (iunlock ip) (λ _ s', fs_ok g s' V L None ∧ slot_step s ip (i_inum x) 0 s') s.
Proof.
  intros Hok Hx. destruct (fo_slot _ _ _ _ _ _ _ Hok Hx) as [Hlk Huse].
  rewrite bool_decide_eq_true_2 in Hlk by done. destruct Hlk as (Hlk & Href & Hv). destruct (Huse Href) as (Hdev & Hlive & Hrd).
  pose proof (list_lookup_total_correct _ _ _ Hx) as Hx'.
  unfold iunlock. apply wp_getS. rewrite Hx', Hlk. unfold holdingsleep. cbn [sl_locked sl_pid].
  rewrite Z.eqb_refl, (proj2 (Z.ltb_ge _ _)) by lia. cbn [Z.eqb negb andb orb].
  unfold upd_inode. apply wp_modify_end. rewrite alter_insert, Hx'.
  set (y := set_ilock _ x). replace 0 with (i_ref y - i_ref x) by (cbn; lia).
  apply (fs_ok_slot g s V L (Some ip) None (fs_st s)); try done; [apply Hok|cbn; lia| |].
  - rewrite bool_decide_eq_false_2 by done. split; [done|]. intros _. unfold y. cbn [i_dev i_inum i_valid set_ilock].
    split_and!; [done|done|]. destruct Hrd as [?|[? Hrd]]; [by left|right]. split; [done|].
    pose proof (dinode_read_cache (i_inum x) (V (IBLOCK (i_inum x) (fs_sb s))) (releasesleep (i_lock x)) (i_ref x) x) as E.
    rewrite Hrd in E. exact E.
  - intros j Hj. by rewrite held_other.
Qed.

Lemma iput_fs g s V L ip x :
  fs_ok g s V L None → fs_inode s !! ip = Some x → 0 < i_ref x →
  wp (iput ip) (λ _ s', fs_ok g s' V L None ∧ slot_step s ip (i_inum x) (-1) s') s.
Proof.
  intros Hok Hx Href. destruct (fo_slot _ _ _ _ _ _ _ Hok Hx) as [Hlk Huse].
  rewrite bool_decide_eq_false_2 in Hlk by done. destruct (Huse Href) as (Hdev & Hlive & Hrd).
  pose proof (list_lookup_total_correct _ _ _ Hx) as Hx'. pose proof (lookup_lt_Some _ _ _ Hx) as Hlt.
  unfold iput. apply wp_bind. unfold lock_inode. apply wp_getS. rewrite Hx'. unfold acquiresleep. rewrite Hlk. cbn [Z.eqb].
  unfold upd_inode. apply wp_modify_end. rewrite alter_insert, Hx'. apply wp_bind, get_inode_ok. cbn [fs_inode].
  rewrite list_lookup_total_insert_eq by done. cbn [i_valid i_nlink set_ilock].
  replace (negb (i_valid x =? 0) && (i_nlink x =? 0)) with false.
  2: { destruct Hrd as [->|[-> Hrd]]; [done|]. destruct (valid_fields _ _ _ Hrd) as (_ & -> & _).
       symmetry. apply Z.eqb_neq. by apply (tk_link _ _ _ (fo_tree _ _ _ _ _ Hok)). }
  apply wp_ret_bind, wp_modify, wp_modify_end. cbn [fs_st fs_sb fs_inode fs_pid fs_cwd].
  rewrite !alter_insert, list_lookup_total_insert_eq, !list_insert_insert_eq, list_lookup_total_insert_eq by (rewrite ?length_insert; done).
  set (y := set_iref _ _). replace (-1) with (i_ref y - i_ref x) by (cbn; lia).
  apply (fs_ok_slot g s V L None None (fs_st s)); try done; [apply Hok|cbn; lia|].
  rewrite bool_decide_eq_false_2 by done. split; [done|]. intros _. unfold y. cbn [i_dev i_inum i_valid set_ilock set_iref].
  split_and!; [done|done|]. destruct Hrd as [?|[? Hrd]]; [by left|right]. split; [done|].
  pose proof (dinode_read_cache (i_inum x) (V (IBLOCK (i_inum x) (fs_sb s))) (mkSleeplock 0 0) (i_ref x - 1) x) as E.
  rewrite Hrd in E. exact E.
Qed.

(** The two calls together: their changes at one slot add up. *)
Lemma slot_step_trans s k i d s1 d' s2 :
  slot_step s k i d s1 → slot_step s1 k i d' s2 → slot_step s k i (d + d') s2.
Proof.
  intros [(E1 & E2 & E3) (x & y & Hx & Hl & Hi & Hr & Hc)] [(F1 & F2 & F3) (x' & y' & Hx' & Hl' & Hi' & Hr' & Hc')].
  split; [split_and!; congruence|]. rewrite Hl, list_lookup_insert_eq in Hx' by (by eapply lookup_lt_Some). injection Hx' as <-.
  exists x, y'. rewrite Hl', Hl, list_insert_insert_eq. split_and!; [done|done|done|lia|done].
Qed.

Lemma slot_step_at s k i d s' : slot_step s k i d s' → ∃ y, fs_inode s' !! k = Some y ∧ i_inum y = i ∧
  ∀ x, fs_inode s !! k = Some x → i_ref y = i_ref x + d.
Proof.
  intros [_ (x & y & Hx & -> & Hi & Hr & _)]. exists y. rewrite list_lookup_insert_eq by (by eapply lookup_lt_Some).
  split_and!; [done|done|]. intros ? ?. by simplify_eq.
Qed.

Lemma iunlockput_fs g s V L ip x :
  fs_ok g s V L (Some ip) → fs_inode s !! ip = Some x → 0 < i_ref x →
  wp (iunlockput ip) (λ _ s', fs_ok g s' V L None ∧ slot_step s ip (i_inum x) (-1) s') s.
Proof.
  intros Hok Hx Href. unfold iunlockput. apply wp_bind. eapply wp_mono; [by eapply iunlock_fs|].
  intros [] s1 [Hok1 Hst1]. destruct (slot_step_at _ _ _ _ _ Hst1) as (y & Hy & Hi & Hr). specialize (Hr _ Hx).
  eapply wp_mono; [eapply iput_fs; [done|exact Hy|lia]|]. intros [] s2 [Hok2 Hst2]. split; [done|].
  rewrite Hi in Hst2. exact (slot_step_trans _ _ _ _ _ _ _ Hst1 Hst2).
Qed.
(** [iget] of an allocated inode. *)
Lemma iget_fs g s V L h i :
  fs_ok g s V L h → live (fs_sb s) V i →
  wpp (iget ROOTDEV i) (λ ip s', fs_ok g s' V L h ∧ slot_step s ip i 1 s')
    (λ msg, msg = "iget: no inodes"%string ∧ nfree (fs_inode s) = 0) s.
Proof.
  intros Hok Hlive. pose proof Hok as [Ha Hr Ht Hc]. eapply wpp_mono; [apply iget_ok, Hc| |].
  - intros ip s' (x & Hx & Hic & y & -> & Hd & Hn & Hl & Hcase). pose proof (fo_slot _ _ _ _ _ _ _ Hok Hx) as Hsx.
    assert (Hy : slot_ok (bool_decide (h = Some ip)) (fs_pid s) (fs_sb s) V y ∧ i_ref y = i_ref x + 1 ∧ (i_ref x = 0 ∨ i_inum x = i)).
    { destruct Hcase as [(H0 & _ & ? & ->)|(H0 & H1 & Hv & _)].
      - split_and!; [apply slot_ok_ref; (done || lia)|done|by right].
      - split_and!; [|lia|by left]. eapply slot_ok_new; try done. by rewrite Hn. }
    destruct Hy as (Hy & Hry & Hxi). split.
    + split; [by destruct Ha|done|done|]. cbn [with_inode fs_inode fs_pid fs_sb]. by eapply cache_ok_insert.
    + split; [done|]. by exists x, y.
  - intros msg [-> Hfull]. split; [done|]. apply nfree_full. intros k x Hx. by destruct (Hfull k x Hx).
Qed.

Lemma dir_env_fs g s V L ip x :
  fs_ok g s V L (Some ip) → fs_inode s !! ip = Some x → i_type x = T_DIR →
  dir_env g s V L ip (i_size x / DIRENT_SIZE).
Proof.
  intros Hok Hx Hty. destruct (fo_slot _ _ _ _ _ _ _ Hok Hx) as [Hlk Huse].
  rewrite bool_decide_eq_true_2 in Hlk by done. destruct Hlk as (_ & Href & Hv). destruct (Huse Href) as (Hdev & Hlive & Hrd).
  destruct Hrd as [?|[_ Hrd]]; [congruence|]. destruct (valid_fields _ _ _ Hrd) as (Et & _ & Es & Ea).
  pose proof Hok as [Ha Hr Ht Hc]. destruct (tk_size _ _ _ Ht _ Hlive) as (Hsz & Hmax & Hmap); [congruence|].
  rewrite <-Es in *.
  split; rewrite ?(list_lookup_total_correct _ _ _ Hx); [split| | | | |]; rewrite ?(list_lookup_total_correct _ _ _ Hx); try done.
  - by eapply lookup_lt_Some.
  - eapply file_wf_addrs; [exact Ea|]. apply (tk_file _ _ _ Ht); congruence.
  - split; [done|]. apply Z.div_pos; [lia|done].
  - lia.
  - by eapply mapped_addrs.
Qed.

Lemma fs_ok_st g s V L h st' : fs_ok g s V L h → tx_inv g st' V L ∅ → fs_ok g (with_st s st') V L h.
Proof. intros [[] ? ? ?] Hi. by split. Qed.

Lemma dirlookup_fs g s V L ip x name :
  fs_ok g s V L (Some ip) → fs_inode s !! ip = Some x → i_type x = T_DIR → length name = DIRSIZ →
  wpp (dirlookup devread ip (chars name)) (λ r s', fs_ok g s' V L (Some ip) ∧
      match r with
      | None => dir_find V (dnode (fs_sb s) V (i_inum x)) (until_nul name) = None ∧ same_env s s' ∧ fs_inode s' = fs_inode s
      | Some (next, _) => ∃ j, dir_find V (dnode (fs_sb s) V (i_inum x)) (until_nul name) = Some j ∧ slot_step s next j 1 s'
      end)
    (λ msg, msg = "iget: no inodes"%string ∧ nfree (fs_inode s) = 0) s.
Proof.
  intros Hok Hx Hty Hname. pose proof (dir_env_fs _ _ _ _ _ _ Hok Hx Hty) as Hdir. pose proof Hok as [Ha Hr Ht Hc].
  destruct (fo_slot _ _ _ _ _ _ _ Hok Hx) as [Hlk Huse]. rewrite bool_decide_eq_true_2 in Hlk by done.
  destruct Hlk as (_ & Href & Hv). destruct (Huse Href) as (Hdev & Hlive & [?|[_ Hrd]]); [congruence|].
  destruct (valid_fields _ _ _ Hrd) as (Et & _ & Es & Ea). clear Hrd Huse.
  set (d := dnode (fs_sb s) V (i_inum x)) in *. assert (He : ∀ j, entry V x j = entry V d j) by (intros j; by apply entry_addrs).
  eapply wpp_mono; [apply (dirlookup_ok devread g s V L ip _ _ Hdir), Hc| |].
  2:{ intros msg (-> & Hfull & _). split; [done|]. by apply nfree_full. }
  intros r s'. unfold lookup_post. rewrite (list_lookup_total_correct _ _ _ Hx). destruct r as [[next off]|].
  - intros (j & st' & Hj & -> & Hent & Hfirst & Hinv & Hget). rewrite entry_is_string in Hent by done. destruct Hent as [H0 Hnm].
    assert (Hlj : live (fs_sb s) V (de_inum (entry V x j))).
    { rewrite He in *. apply (tk_entry _ _ _ Ht (i_inum x)); [done|fold d; congruence| |done]. apply elem_of_entries.
      exists j. fold d. rewrite <-Es. done. }
    pose proof (iget_fs g _ V L _ _ (fs_ok_st _ _ _ _ _ _ Hok Hinv) Hlj) as Hg. unfold wpp in Hg. rewrite Hget in Hg.
    destruct Hg as [Hok' Hst]. split; [done|]. exists (de_inum (entry V x j)). split; [|done]. rewrite He in *.
    apply dir_find_some; [by rewrite <-Es|done|done|]. intros i Hi. rewrite <-He, <-entry_is_string by done. by apply Hfirst.
  - intros (Hno & st' & -> & Hinv). split; [by apply fs_ok_st|]. split_and!; [|done|done].
    apply dir_find_none. intros j Hj. rewrite <-He, <-entry_is_string by done. apply Hno. by rewrite Es.
Qed.
(** ** The walk *)

Lemma elems_nonempty p cur : cur ≠ [] → elems p cur ≠ [].
Proof.
  revert cur. induction p as [|c p IH]; intros cur H; cbn [elems]; [by destruct cur|].
  case_decide; [by destruct cur|]. apply IH. by destruct cur.
Qed.

Lemma path_elems_nil p : head p ≠ Some slash → path_elems p = [] → p = [].
Proof.
  destruct p as [|c p]; [done|]. cbn. intros Hc. rewrite decide_False by congruence. intros H. by apply elems_nonempty in H.
Qed.

Lemma same_env_trans s s1 s2 : same_env s s1 → same_env s1 s2 → same_env s s2.
Proof. intros (? & ? & ?) (? & ? & ?). split_and!; congruence. Qed.

Lemma locked_type g s V L ip x :
  fs_ok g s V L (Some ip) → fs_inode s !! ip = Some x → 0 < i_ref x ∧ i_type x = i_type (dnode (fs_sb s) V (i_inum x)).
Proof.
  intros Hok Hx. destruct (fo_slot _ _ _ _ _ _ _ Hok Hx) as [Hlk Huse]. rewrite bool_decide_eq_true_2 in Hlk by done.
  destruct Hlk as (_ & Href & Hv). destruct (Huse Href) as (_ & _ & [?|[_ Hrd]]); [congruence|].
  split; [done|]. apply (valid_fields _ _ _ Hrd).
Qed.

(** The outcome of a walk from inode [i] along the names: the inode found, or
    nothing; [d] references to [i] dropped and one to the inode found taken. *)
Definition walk_post (g : geom) s V L (parent : bool) (i d : Z) (es : list (list byte)) (r : option nat * list byte) s' : Prop :=
  fs_ok g s' V L None ∧ same_env s s' ∧
  match r.1 with
  | None => target (fs_sb s) V parent i es = None ∧ ∀ j, nrefs (fs_inode s') j = nrefs (fs_inode s) j - delta j i d
  | Some ip => ∃ x, fs_inode s' !! ip = Some x ∧ 0 < i_ref x ∧ target (fs_sb s) V parent i es = Some (i_inum x) ∧
      (∀ j, nrefs (fs_inode s') j = nrefs (fs_inode s) j - delta j i d + delta j (i_inum x) 1) ∧
      (parent = true → ∃ e, last es = Some e ∧ until_nul r.2 = take DIRSIZ e)
  end.

(** The walk panics only when it needs a cache entry and none, or one that it takes itself, was free. *)
Definition walk_full (free : Z) (msg : string) : Prop := msg = "iget: no inodes"%string ∧ free ≤ 1.

Lemma walk_post_none g s V L parent i es name k s' s2 :
  fs_ok g s2 V L None → same_env s s' → (∀ j, nrefs (fs_inode s') j = nrefs (fs_inode s) j) → slot_step s' k i (-1) s2 →
  target (fs_sb s) V parent i es = None → walk_post g s V L parent i 1 es (None, name) s2.
Proof.
  intros Hok He Hn [He2 Hb] Ht. split; [done|]. split; [by eapply same_env_trans|]. split; [done|].
  intros j. rewrite (bumped_nrefs _ _ _ _ _ _ Hb), Hn. unfold delta. destruct (_ =? _); lia.
Qed.
Lemma delta_0 j i : delta j i 0 = 0.
Proof. unfold delta. by destruct (_ =? _). Qed.

(** Composing one step of the walk with the rest. *)
Lemma walk_post_step g s V L parent i e es es' j s3 r s' :
  same_env s s3 → (∀ k, nrefs (fs_inode s3) k = nrefs (fs_inode s) k - delta k i 1 + delta k j 1) →
  es = e :: es' → target (fs_sb s) V parent i es = target (fs_sb s) V parent j es' → (parent = true → es' ≠ []) →
  walk_post g s3 V L parent j 1 es' r s' → walk_post g s V L parent i 1 es r s'.
Proof.
  intros He Hn -> Ht Hp (Hok & He' & Hr). pose proof He as (Esb & _ & _). rewrite Esb in Hr.
  split; [done|]. split; [by eapply same_env_trans|].
  destruct r as [[ip|] name]; cbn [fst snd] in *.
  - destruct Hr as (x & Hx & H0 & Htx & Hnx & Hname). exists x. split_and!; [done|done|congruence| |].
    + intros k. rewrite Hnx, Hn. lia.
    + intros Hpar. destruct (Hname Hpar) as (e' & Hl & Hu). exists e'. split; [|done]. specialize (Hp Hpar). by destruct es'.
  - destruct Hr as [Htx Hnx]. split; [congruence|]. intros k. rewrite Hnx, Hn. lia.
Qed.

(** The state of the walk while it holds the lock of slot [ip]. *)
Record walk_at (g : geom) s V L (ip : nat) (x : inode) s1 (y : inode) : Prop := {
  wa_ok : fs_ok g s1 V L (Some ip);
  wa_slot : fs_inode s1 !! ip = Some y;
  wa_inum : i_inum y = i_inum x;
  wa_ref : i_ref y = i_ref x ∧ 0 < i_ref x;
  wa_env : same_env s s1;
  wa_nrefs : ∀ j, nrefs (fs_inode s1) j = nrefs (fs_inode s) j;
  wa_nfree : nfree (fs_inode s1) = nfree (fs_inode s);
  wa_type : i_type y = i_type (dnode (fs_sb s) V (i_inum x));
}.

Lemma ilock_walk g s V L ip x :
  fs_ok g s V L None → fs_inode s !! ip = Some x → 0 < i_ref x →
  wp (ilock ip) (λ _ s1, ∃ y, walk_at g s V L ip x s1 y) s.
Proof.
  intros Hok Hx Href. eapply wp_mono; [by eapply ilock_fs|]. intros [] s1 [Hok1 Hst1].
  destruct (slot_step_at _ _ _ _ _ Hst1) as (y & Hy & Hyi & Hyr). specialize (Hyr _ Hx). destruct Hst1 as [He1 Hb1].
  destruct (locked_type _ _ _ _ _ _ Hok1 Hy) as [_ Hty]. rewrite Hyi, (proj1 He1) in Hty.
  exists y. split; try done; [lia| |by eapply bumped_nfree_0].
  intros j. rewrite (bumped_nrefs _ _ _ _ _ _ Hb1), delta_0. lia.
Qed.

(** Giving up: the walk unlocks and puts the inode it holds. *)
Lemma walk_stop g s V L parent ip x s1 y es name :
  walk_at g s V L ip x s1 y → target (fs_sb s) V parent (i_inum x) es = None →
  wp (iunlockput ip;; mret (None, name)) (walk_post g s V L parent (i_inum x) 1 es) s1.
Proof.
  intros [Hok Hy Hi Hr He Hn _ _] Ht. apply wp_bind. eapply wp_mono; [eapply iunlockput_fs; [done|exact Hy|lia]|].
  intros [] s2 [Hok2 Hst]. apply wp_ret. rewrite Hi in Hst. by eapply walk_post_none.
Qed.

(** Stopping at the parent: the walk keeps its reference. *)
Lemma walk_parent g s V L ip x s1 y e name :
  walk_at g s V L ip x s1 y → target (fs_sb s) V true (i_inum x) [e] = Some (i_inum x) → until_nul name = take DIRSIZ e →
  wp (iunlock ip;; mret (Some ip, name)) (walk_post g s V L true (i_inum x) 1 [e]) s1.
Proof.
  intros [Hok Hy Hi Hr He Hn _ _] Ht Hname. apply wp_bind. eapply wp_mono; [by eapply iunlock_fs|].
  intros [] s2 [Hok2 Hst]. apply wp_ret. rewrite Hi in Hst. destruct (slot_step_at _ _ _ _ _ Hst) as (w & Hw & Hwi & Hwr).
  specialize (Hwr _ Hy). destruct Hst as [He2 Hb]. split_and!; [done|by eapply same_env_trans|].
  exists w. rewrite Hwi. split_and!; [done|lia|done| |by exists e].
  intros j. rewrite (bumped_nrefs _ _ _ _ _ _ Hb), Hn, delta_0. lia.
Qed.

(** Moving on to the next directory. *)
Lemma walk_next g s V L ip x s1 y next j s2 :
  walk_at g s V L ip x s1 y → fs_ok g s2 V L (Some ip) → slot_step s1 next j 1 s2 →
  wp (iunlockput ip) (λ _ s3, fs_ok g s3 V L None ∧ same_env s s3 ∧
    (∀ k, nrefs (fs_inode s3) k = nrefs (fs_inode s) k - delta k (i_inum x) 1 + delta k j 1) ∧
    ∃ z, fs_inode s3 !! next = Some z ∧ i_inum z = j ∧ 0 < i_ref z ∧
      nfree (fs_inode s) + one (i_ref x =? 1) ≤ nfree (fs_inode s3) + one (i_ref z =? 1)) s2.
Proof.
  intros [Hok Hy Hi Hr He Hn Hfr _] Hok2 [He2 Hb2].
  destruct (bumped_keeps _ _ _ _ _ _ Hb2 Hy) as (w & Hw & Hwi & Hwr); [lia|].
  eapply wp_mono; [eapply iunlockput_fs; [done|exact Hw|done]|]. intros [] s3 [Hok3 [He3 Hb3]]. rewrite Hwi in Hb3.
  split_and!; [done|eapply same_env_trans; [done|by eapply same_env_trans]| |].
  - intros k. rewrite (bumped_nrefs _ _ _ _ _ _ Hb3), (bumped_nrefs _ _ _ _ _ _ Hb2), Hn, Hi. unfold delta. destruct (_ =? i_inum x); lia.
  - rewrite <-Hfr, <-(proj1 Hr). eapply nfree_walk; [apply (fo_cache _ _ _ _ _ Hok)|exact Hy|lia|reflexivity|exact Hb2|exact Hb3].
Qed.

Lemma namex_loop_fs g s V L parent ip x path name fuel free :
  (length path < fuel)%nat → Byte.x00 ∉ path → length name = DIRSIZ →
  fs_ok g s V L None → fs_inode s !! ip = Some x → 0 < i_ref x → free ≤ nfree (fs_inode s) + one (i_ref x =? 1) →
  wpp (namex_loop devread ip path parent name fuel) (walk_post g s V L parent (i_inum x) 1 (path_elems path)) (walk_full free) s.
Proof.
  revert s ip x path name. induction fuel as [|fuel IH]; intros s ip x path name Hf Hz Hname Hok Hx Href Hfree; [lia|].
  cbn [namex_loop]. pose proof (skipelem_correct path name Hname Hz) as Hskip.
  destruct (skipelem path name) as [[rest name']|].
  2:{ rewrite Hskip. apply wp_wpp. destruct parent.
      - apply wp_bind. eapply wp_mono; [by eapply iput_fs|]. intros [] s' [Hok' Hst]. apply wp_ret. by eapply walk_post_none.
      - apply wp_ret. split_and!; [done|done|]. exists x. split_and!; [done|done|done| |done]. intros j. cbn [fst]. lia. }
  destruct Hskip as (e & -> & _ & Hhd & Hname' & Hn' & Hlen & Hz').
  apply wp_wpp_bind. eapply wp_mono; [by eapply ilock_walk|]. intros [] s1 [y Hat].
  pose proof Hat as [Hok1 Hy Hyi _ He1 _ Hfr Hty].
  apply wp_wpp_bind, get_inode_ok. rewrite (list_lookup_total_correct _ _ _ Hy), Hty.
  pose proof (target_cons (fs_sb s) V parent (i_inum x) e (path_elems rest)) as Ht.
  destruct (_ =? T_DIR) eqn:Edir; cbn [negb] in *; [|by eapply wp_wpp, walk_stop].
  replace (bool_decide (path_elems rest = [])) with (bool_decide (rest = [])) in Ht.
  2:{ apply bool_decide_ext. split; [by intros ->|by apply path_elems_nil]. }
  destruct (parent && bool_decide (rest = [])) eqn:Elast.
  { apply andb_true_iff in Elast as [-> ->%bool_decide_eq_true_1]. by eapply wp_wpp, walk_parent. }
  apply wpp_bind. eapply wpp_mono; [eapply dirlookup_fs; [done|exact Hy| |done]| |].
  { rewrite Hty. by apply Z.eqb_eq. }
  2:{ intros msg [-> Hfull]. split; [done|]. unfold one in Hfree. destruct (_ =? 1); lia. }
  rewrite Hyi, (proj1 He1), Hn'. intros [[next off]|] s2 [Hok2 Hr].
  - destruct Hr as (j & Hfind & Hst2). rewrite Hfind in Ht. apply wp_wpp_bind.
    eapply wp_mono; [by eapply walk_next|]. intros [] s3 (Hok3 & He3 & Hn3 & z & Hzs & <- & Hzr & Hfr3).
    eapply wpp_mono; [apply (IH s3 next z rest name'); try done; lia| |done].
    intros r s'. eapply walk_post_step; [done|done|done|done|]. intros -> Hnil.
    apply path_elems_nil in Hnil; [|done]. by rewrite Hnil in Elast.
  - destruct Hr as (Hfind & He2 & El). rewrite Hfind in Ht. eapply wp_wpp, (walk_stop g s V L parent ip x s2 y); [|done].
    split; rewrite ?El; try done; [by split; [apply Hat|]|by eapply same_env_trans|apply Hat].
Qed.
(** ** [namex] *)

Lemma idup_fs g s V L ip x :
  fs_ok g s V L None → fs_inode s !! ip = Some x → 0 < i_ref x →
  wp (idup ip) (λ r s', r = ip ∧ fs_ok g s' V L None ∧ slot_step s ip (i_inum x) 1 s') s.
Proof.
  intros Hok Hx Href. unfold idup, upd_inode. apply wp_modify, wp_ret. split; [done|].
  rewrite alter_insert, (list_lookup_total_correct _ _ _ Hx). set (y := set_iref _ x).
  replace 1 with (i_ref y - i_ref x) by (cbn; lia).
  apply (fs_ok_slot g s V L None None (fs_st s)); try done; [apply Hok|cbn; lia|].
  apply slot_ok_ref; [by apply (fo_slot g s V L)|done|lia].
Qed.

Lemma slot_step_taken g s V L h k i s' :
  fs_ok g s V L h → slot_step s k i 1 s' → ∃ y, fs_inode s' !! k = Some y ∧ i_inum y = i ∧ 0 < i_ref y ∧
    nfree (fs_inode s) ≤ nfree (fs_inode s') + one (i_ref y =? 1).
Proof.
  intros [_ _ _ [[H0 _] _]] [_ (x & y & Hx & -> & Hi & Hr & _)]. exists y. specialize (H0 _ _ Hx).
  rewrite list_lookup_insert_eq by (by eapply lookup_lt_Some). split_and!; [done|done|lia|].
  unfold nfree. rewrite (sum_slots_insert _ _ _ _ _ Hx), Hr. unfold one.
  destruct (Z.eqb_spec (i_ref x) 0), (Z.eqb_spec (i_ref x + 1) 0), (Z.eqb_spec (i_ref x + 1) 1); lia.
Qed.

(** The inode a path starts from. *)
Definition start_inum s (path : list byte) : Z :=
  if bool_decide (head path = Some slash) then ROOTINO else i_inum (fs_inode s !!! fs_cwd s).

(** The first reference of the walk. *)
Lemma namex_start g s V L path x :
  fs_ok g s V L None → fs_inode s !! fs_cwd s = Some x → 0 < i_ref x →
  wpp (if bool_decide (head path = Some slash) then iget ROOTDEV ROOTINO else idup (fs_cwd s))
    (λ ip s', fs_ok g s' V L None ∧ slot_step s ip (start_inum s path) 1 s') (walk_full (nfree (fs_inode s))) s.
Proof.
  intros Hok Hx Href. unfold start_inum. rewrite (list_lookup_total_correct _ _ _ Hx). destruct (bool_decide _).
  - eapply wpp_mono; [apply iget_fs; [done|apply Hok]|done|]. intros msg [-> Hf]. split; [done|lia].
  - apply wp_wpp. eapply wp_mono; [by eapply idup_fs|]. by intros r s' (-> & Hok' & Hst).
Qed.

Lemma namex_ok g s V L path parent name x :
  fs_ok g s V L None → fs_inode s !! fs_cwd s = Some x → 0 < i_ref x → Byte.x00 ∉ path → length name = DIRSIZ →
  wpp (namex devread path parent name) (walk_post g s V L parent (start_inum s path) 0 (path_elems path))
    (walk_full (nfree (fs_inode s))) s.
Proof.
  intros Hok Hx Href Hz Hname. unfold namex. apply wp_wpp_bind, wp_getS, wp_ret.
  apply wpp_bind. eapply wpp_mono; [by eapply namex_start| |done]. intros ip s1 [Hok1 Hst].
  destruct (slot_step_taken _ _ _ _ _ _ _ _ Hok Hst) as (y & Hy & Hyi & Hyr & Hfr). destruct Hst as [He Hb].
  eapply wpp_mono; [eapply (namex_loop_fs g s1 V L parent ip y path name); try done; lia| |done].
  rewrite Hyi. intros [[ip'|] name'] s' (Hok' & He' & Hr); (split; [done|]); (split; [by eapply same_env_trans|]);
    cbn [fst snd] in *; rewrite (proj1 He) in Hr.
  - destruct Hr as (z & Hzs & Hz0 & Ht & Hn & Hpar). exists z. split_and!; try done.
    intros j. rewrite Hn, (bumped_nrefs _ _ _ _ _ _ Hb), delta_0. lia.
  - destruct Hr as [Ht Hn]. split; [done|]. intros j. rewrite Hn, (bumped_nrefs _ _ _ _ _ _ Hb), delta_0. lia.
Qed.

(** C6. namex resolves a path as the tree of directories on the disk does, for namei and for
    nameiparent: it returns the inode of the tree at the path, or of the directory that holds
    the last name together with that name, or nothing when the tree has none; every inode lock
    is free again, exactly one reference is taken, to the inode returned, and none when there is
    none; the only panic needs an inode cache with at most one free entry. *)
Theorem namex_correct g s V L path parent name x :
  fs_ok g s V L None → fs_inode s !! fs_cwd s = Some x → 0 < i_ref x → Byte.x00 ∉ path → length name = DIRSIZ →
  wpp (namex devread path parent name) (walk_post g s V L parent (start_inum s path) 0 (path_elems path))
    (walk_full (nfree (fs_inode s))) s.
Proof. apply namex_ok. Qed.
End ops.
