(* ===== verification/FsExample.v ===== *)
(** * A small file system

    A 48-block disk laid out as mkfs does it: log at 2, inodes at 32, bitmap at
    33, data from 34.  The root directory (block 34) lists "." and "f"; the file
    "f" (block 35) holds five bytes.  The theorems about fs.c at this state. *)

From S2P Require Import Prelude Dll Sleeplock Bio Memide FsLayout Log LogCrash LogProtocol Tx CString Fs FsAlloc FsInode FsFile FsWrite FsDir FsLink FsPath.

Definition pad (l : list byte) : list byte := l ++ replicate (BSIZE - length l) Byte.x00.

Definition fx_super : list byte := pad (mjoin (le_bytes 4 <$> [48; 14; 8; 30; 2; 32; 33])).

Definition fx_dir : inode := mkInode ROOTDEV 1 1 (mkSleeplock 1 1) 1 T_DIR 0 0 1 32 (34 :: replicate 12 0).
Definition fx_file : inode := mkInode ROOTDEV 2 1 (mkSleeplock 1 1) 1 T_FILE 0 0 1 5 (35 :: replicate 12 0).

Definition fx_inodes : list byte := dinode_write fx_file (dinode_write fx_dir zeros).
Definition fx_bitmap : list byte := pad (replicate 4 Byte.xff ++ [Byte.x0f]).
Definition fx_name (c : byte) : list byte := c :: replicate 13 Byte.x00.
Definition fx_dirdata : list byte := pad (mk_dirent 1 (fx_name Byte.x2e) ++ mk_dirent 2 (fx_name Byte.x66)).
Definition fx_data : list byte := pad [Byte.x68; Byte.x65; Byte.x6c; Byte.x6c; Byte.x6f].

Definition fx_disk : memdisk :=
  ideinit (zeros ++ fx_super ++ replicate (30 * BSIZE) Byte.x00 ++ fx_inodes ++ fx_bitmap ++
           fx_dirdata ++ fx_data ++ replicate (12 * BSIZE) Byte.x00).

Definition fx_geom : geom := mkGeom 48 2 30.

Definition fx_V : Z → list byte := dwrites (disk_block fx_disk) (recover_ws 2 (disk_block fx_disk) (disk_block fx_disk)).

(** The store inside a transaction. *)
Definition fx_begin : M (logst memdisk) unit := initlog ROOTDEV;; begin_op.
Definition fx_store : logst memdisk :=
  match fx_begin (boot fx_disk 1) with Ok _ s => s | _ => boot fx_disk 1 end.

Lemma fx_block_empty : hdr_n (disk_block fx_disk 2) = 0.
Proof. vm_compute. reflexivity. Qed.

Lemma fx_log_disk : log_disk 2 30 (disk_size fx_disk) (disk_block fx_disk) (disk_block fx_disk).
Proof.
  assert (Hb : hdr_blocks (disk_block fx_disk 2) = []) by (apply hdr_blocks_nil; exact fx_block_empty).
  assert (Hs : disk_size fx_disk = 48) by (vm_compute; reflexivity).
  split; rewrite ?Hb, ?Hs.
  - lia.
  - split; [lia|]. split; [lia|apply not_elem_of_nil].
  - split; vm_compute; reflexivity.
  - rewrite fx_block_empty. unfold LOGSIZE, MAXOPBLOCKS. lia.
  - apply disk_block_len. rewrite Hs. lia.
  - constructor.
  - intros b Hin. destruct (not_elem_of_nil _ Hin).
  - intros t b Ht. rewrite lookup_nil in Ht. discriminate Ht.
  - intros k _ _. reflexivity.
Qed.

Lemma fx_initlog : wp (initlog ROOTDEV) (λ _ s, quiet fx_geom s fx_V) (boot fx_disk 1).
Proof.
  eapply wp_mono; [apply initlog_spec; apply fx_log_disk|].
  intros [] s1 (Hrep & Hran & Hl & Hwf). fold fx_V in Hrep.
  assert (Hsz : disk_size (bc_disk (ls_bio s1)) = 48) by (destruct Hran as (_ & -> & _); vm_compute; reflexivity).
  assert (Hcl : hdr_n (fx_V 2) = 0) by (vm_compute; reflexivity).
  split; try (rewrite Hl; reflexivity); done.
Qed.

(** The store between transactions. *)
Definition fx_idle : logst memdisk := match initlog ROOTDEV (boot fx_disk 1) with Ok _ s => s | _ => boot fx_disk 1 end.
Lemma fx_idle_quiet : quiet fx_geom fx_idle fx_V.
Proof.
  cut (wp (initlog ROOTDEV) (λ _ s, quiet fx_geom s fx_V) (boot fx_disk 1)); [|exact fx_initlog].
  unfold wp, fx_idle. destruct (initlog ROOTDEV (boot fx_disk 1)) as [[] s|s|msg]; [intros H; exact H|intros []..].
Qed.

Lemma fx_store_inv : tx_inv fx_geom fx_store fx_V ∅ ∅.
Proof.
  cut (wp fx_begin (λ _ s, tx_inv fx_geom s fx_V ∅ ∅) (boot fx_disk 1)).
  { unfold wp, fx_store. destruct (fx_begin (boot fx_disk 1)); done. }
  unfold fx_begin. apply wp_bind. eapply wp_mono; [apply fx_initlog|].
  intros [] s1 Hq. eapply wp_mono; [by apply (begin_op_ok fx_geom)|]. by intros [] s2 (Ht & _ & _).
Qed.

Definition fx_icache : list inode := fx_file :: fx_dir :: replicate 48 zero_inode.
Definition fx_state : fsst (logst memdisk) := mkFsst fx_store (sb_decode (fx_V 1)) fx_icache 1 1.

(** A decidable fact about every block of the disk, checked by evaluation. *)
Lemma fx_range (P : Z → Prop) (f : Z → bool) n :
  (∀ k, f k = true → P k) → forallb f (seqZ 0 n) = true → ∀ k, 0 ≤ k < n → P k.
Proof.
  intros Hf Hall k Hk. apply Hf. rewrite forallb_forall in Hall. apply Hall.
  apply list_elem_of_In, elem_of_seqZ. lia.
Qed.

Definition fx_sb : superblock := mkSb 48 14 8 30 2 32 33.
Lemma fx_sb_eq : sb_decode (fx_V 1) = fx_sb.
Proof. vm_compute. reflexivity. Qed.

Lemma fx_iblock i : 0 ≤ i < 8 → IBLOCK i fx_sb = 32.
Proof. revert i. apply (fx_range _ (λ i, IBLOCK i fx_sb =? 32)); [intros k; apply Z.eqb_eq|vm_compute; reflexivity]. Qed.
Lemma fx_bblock b : 0 ≤ b < 48 → BBLOCK b fx_sb = 33.
Proof. revert b. apply (fx_range _ (λ b, BBLOCK b fx_sb =? 33)); [intros k; apply Z.eqb_eq|vm_compute; reflexivity]. Qed.

Lemma fx_sb_ok : sb_ok fx_geom fx_sb.
Proof.
  split; cbn [fx_geom g_size fx_sb sb_size sb_bmapstart sb_inodestart sb_ninodes]; unfold g_log; cbn [g_start g_nlog fx_geom].
  - lia.
  - lia.
  - apply (fx_range _ (λ b, b / BPB =? 0)); [|vm_compute; reflexivity]. intros k Hk%Z.eqb_eq. rewrite Hk. lia.
  - apply (fx_range _ (λ b, b / IPB =? 0)); [|vm_compute; reflexivity]. intros k Hk%Z.eqb_eq. rewrite Hk. lia.
  - intros i b Hi Hb. fold fx_sb. rewrite fx_iblock, fx_bblock by done. lia.
Qed.

Lemma fx_data_iff k : is_data fx_geom fx_sb k ↔ 34 ≤ k < 48.
Proof.
  unfold is_data, g_log. cbn [fx_geom g_size g_start g_nlog fx_sb sb_ninodes]. fold fx_sb. split.
  - intros (H1 & H2 & H3 & H4 & H5). specialize (H4 0 ltac:(lia)). specialize (H5 0 ltac:(lia)).
    rewrite fx_bblock in H4 by lia. rewrite fx_iblock in H5 by lia. lia.
  - intros Hk. split_and!; [lia|lia|lia|lia| |].
    + intros b Hb. rewrite fx_bblock by done. lia.
    + intros i Hi. rewrite fx_iblock by done. lia.
Qed.

Lemma fx_used : ∀ k, 0 ≤ k < 48 → used fx_sb fx_V k = (k <? 36).
Proof.
  apply (fx_range _ (λ k, Bool.eqb (used fx_sb fx_V k) (k <? 36))); [intros k; apply eqb_prop|vm_compute; reflexivity].
Qed.

Lemma fx_alloc_ok : alloc_ok fx_geom fx_state fx_V ∅ ∅.
Proof.
  split; cbn [fs_st fs_sb fx_state]; rewrite ?fx_sb_eq.
  - exact fx_store_inv.
  - exact fx_sb_ok.
  - intros k. rewrite held_nil. set_solver.
  - intros b _. rewrite held_nil. set_solver.
  - intros k Hk Hn. cbn in Hk. rewrite fx_data_iff in Hn. rewrite fx_used by done. apply Z.ltb_lt. lia.
Qed.

(** The block maps of the two inodes: one direct block each. *)
Lemma fx_faddr V x b bn :
  i_addrs x = b :: replicate 12 0 → 0 ≤ bn < MAXFILE → faddr V x bn = if bn =? 0 then b else 0.
Proof.
  intros Hx Hbn. unfold faddr. rewrite Hx. destruct (Z.ltb_spec bn NDIRECT) as [H|H].
  - revert bn Hbn H. assert (Hall : ∀ bn, 0 ≤ bn < 12 → (b :: replicate 12 0) !!! Z.to_nat bn = if bn =? 0 then b else 0).
    { intros bn Hbn. assert (bn ∈ seqZ 0 12) as Hin by (apply elem_of_seqZ; lia). cbn in Hin.
      repeat (apply elem_of_cons in Hin as [->|Hin]; [reflexivity|]). by apply not_elem_of_nil in Hin. }
    intros bn Hbn H. unfold NDIRECT in H. apply Hall. lia.
  - change ((b :: replicate 12 0) !!! 12%nat) with 0. unfold NDIRECT in H. destruct (Z.eqb_spec bn 0); [lia|reflexivity].
Qed.

Lemma fx_file_wf x b :
  i_addrs x = b :: replicate 12 0 → 34 ≤ b < 36 → file_wf fx_geom fx_sb fx_V x.
Proof.
  intros Hx Hb. assert (H12 : i_addrs x !!! 12%nat = 0) by (rewrite Hx; reflexivity). split; rewrite ?H12.
  - rewrite Hx. reflexivity.
  - intros H. destruct (H eq_refl).
  - intros bn Hbn. rewrite (fx_faddr fx_V x b bn Hx Hbn). destruct (bn =? 0); [|intros H; destruct (H eq_refl)].
    intros _. split; [apply fx_data_iff; lia|]. split; [|lia]. rewrite fx_used by lia. apply Z.ltb_lt. lia.
  - intros b1 b2 H1 H2. rewrite (fx_faddr fx_V x b b1 Hx H1), (fx_faddr fx_V x b b2 Hx H2).
    destruct (Z.eqb_spec b1 0), (Z.eqb_spec b2 0); intros; lia.
Qed.

Lemma fx_mapped x b : i_addrs x = b :: replicate 12 0 → 34 ≤ b < 36 → mapped fx_V x 512.
Proof.
  intros Hx Hb bn Hbn Hlt. rewrite (fx_faddr fx_V x b bn Hx Hbn). rewrite BSIZE_val in Hlt.
  rewrite (proj2 (Z.eqb_eq _ _)) by lia. lia.
Qed.

Lemma fx_env_file : file_env fx_geom fx_state fx_V ∅ 0.
Proof.
  split; [exact fx_alloc_ok|cbn; lia|reflexivity|]. change (fs_inode fx_state !!! 0%nat) with fx_file.
  change (fs_sb fx_state) with (sb_decode (fx_V 1)). rewrite fx_sb_eq. apply (fx_file_wf fx_file 35); [reflexivity|lia].
Qed.

Lemma fx_env_dir : file_env fx_geom fx_state fx_V ∅ 1.
Proof.
  split; [exact fx_alloc_ok|cbn; lia|reflexivity|]. change (fs_inode fx_state !!! 1%nat) with fx_dir.
  change (fs_sb fx_state) with (sb_decode (fx_V 1)). rewrite fx_sb_eq. apply (fx_file_wf fx_dir 34); [reflexivity|lia].
Qed.

Lemma fx_room n : (n ≤ 29)%nat → room fx_geom ∅ ∅ n.
Proof.
  intros Hn. unfold room. rewrite size_empty, map_size_empty. change (g_cap fx_geom) with 29. change NBUF with 30%nat. lia.
Qed.

Lemma fx_NBUF : (base.size (∅ : gset Z) < NBUF)%nat.
Proof. rewrite size_empty. apply Nat.ltb_lt. reflexivity. Qed.

(** ** The theorems at this file system *)


Lemma fx_sb_loaded : sb_loaded fx_geom fx_state fx_V ∅.
Proof. split; [reflexivity|]. split; [reflexivity|]. rewrite held_nil. set_solver. Qed.

Lemma bfree_correct_witness :
  wpp (bfree ROOTDEV 35) (λ _, bfree_post fx_geom fx_state fx_V ∅ ∅ 35)
    (λ msg, msg = "freeing free block"%string ∧ used (fs_sb fx_state) fx_V 35 = false) fx_state.
Proof.
  apply (bfree_correct fx_geom fx_state fx_V ∅ ∅ 35 fx_alloc_ok fx_sb_loaded (fx_room 1 ltac:(lia))).
  cbn. lia.
Defined.

Lemma fx_fits : inode_fits fx_file.
Proof.
  split; cbn [i_type i_major i_minor i_nlink i_size i_addrs fx_file]; [unfold T_FILE; lia|lia|lia|lia|lia|].
  split; [reflexivity|]. intros a Ha. apply elem_of_cons in Ha as [->|Ha]; [lia|].
  apply elem_of_replicate in Ha as [-> _]. lia.
Qed.

(** the same cache with a second, stale entry for the file *)
Definition fx_stale : inode := mkInode ROOTDEV 2 1 initsleeplock 0 0 0 0 0 0 (replicate 13 0).
Definition fx_state2 : fsst (logst memdisk) := with_inode fx_state (<[2%nat := fx_stale]> fx_icache).

Lemma iupdate_ilock_roundtrip_witness :
  wp (iupdate 0;; ilock 2) (λ _ s',
    fs_inode s' = <[2%nat := mkInode ROOTDEV 2 1 (mkSleeplock 1 1) 1 T_FILE 0 0 1 5 (35 :: replicate 12 0)]>
      (fs_inode fx_state2)) fx_state2.
Proof.
  apply (iupdate_ilock_roundtrip fx_geom fx_state2 fx_V ∅ ∅ 0 2);
    change (fs_inode fx_state2 !!! 0%nat) with fx_file; change (fs_inode fx_state2 !!! 2%nat) with fx_stale;
    change (fs_sb fx_state2) with (sb_decode (fx_V 1)); rewrite ?fx_sb_eq.
  - cbn. lia.
  - exact fx_store_inv.
  - exact fx_sb_ok.
  - apply fx_room. lia.
  - reflexivity.
  - cbn. lia.
  - exact fx_fits.
  - discriminate.
  - rewrite held_nil. apply not_elem_of_empty.
  - reflexivity.
  - reflexivity.
  - cbn. lia.
  - reflexivity.
  - reflexivity.
Defined.

Lemma fx_icache_ok : icache_ok fx_icache.
Proof.
  assert (Hl : ∀ i x, fx_icache !! i = Some x → i = 0%nat ∧ x = fx_file ∨ i = 1%nat ∧ x = fx_dir ∨ i_ref x = 0).
  { intros [|[|i]] x; cbn [fx_icache]; intros H; [by injection H as <-; left|by injection H as <-; right; left|right; right].
    change (replicate 48 zero_inode !! i = Some x) in H. apply lookup_replicate in H as [-> _]. reflexivity. }
  split.
  - intros i x H. destruct (Hl i x H) as [[_ ->]|[[_ ->]| E]]; cbn; lia.
  - intros i j x y Hx Hy Rx Ry Hd Hn.
    destruct (Hl i x Hx) as [[-> ->]|[[-> ->]|E]]; [| |lia];
      destruct (Hl j y Hy) as [[-> ->]|[[-> ->]|E']]; try lia; try reflexivity; discriminate Hn.
Qed.

Lemma iget_correct_witness :
  wpp (iget ROOTDEV 2) (λ ip s',
    ∃ x, fs_inode fx_state !! ip = Some x ∧ icache_ok (fs_inode s') ∧
      ∃ y, s' = with_inode fx_state (<[ip := y]> (fs_inode fx_state)) ∧ i_dev y = ROOTDEV ∧ i_inum y = 2 ∧ i_lock y = i_lock x ∧
        (0 < i_ref x ∧ i_dev x = ROOTDEV ∧ i_inum x = 2 ∧ y = set_iref (i_ref x + 1) x ∨
         i_ref x = 0 ∧ i_ref y = 1 ∧ i_valid y = 0 ∧ ∀ j z, fs_inode fx_state !! j = Some z → i_is ROOTDEV 2 z = false))
    (λ msg, msg = "iget: no inodes"%string ∧ ∀ j z, fs_inode fx_state !! j = Some z → 0 < i_ref z ∧ i_is ROOTDEV 2 z = false) fx_state.
Proof. exact (iget_correct fx_state ROOTDEV 2 fx_icache_ok). Defined.

(** no device drivers *)
Definition no_read : Z → option (nat → Z → M (fsst (logst memdisk)) (Z * list byte)) := λ _, None.
Definition no_write : Z → option (nat → list byte → Z → M (fsst (logst memdisk)) Z) := λ _, None.

Lemma readi_correct_witness :
  wp (readi no_read 0 1 10) (λ r s',
    (if (i_size fx_file <? 1) || (2 ^ 32 <=? 1 + 10) then r = (-1, []) ∧ s' = fx_state
     else r = (read_len fx_file 1 10, fread fx_V fx_file 1 (Z.to_nat (read_len fx_file 1 10))) ∧
          ∃ st', s' = with_st fx_state st' ∧ tx_inv fx_geom st' fx_V ∅ ∅)) fx_state.
Proof.
  apply (readi_correct no_read fx_geom fx_state fx_V ∅ 0 1 10 fx_env_file fx_NBUF);
    change (fs_inode fx_state !!! 0%nat) with fx_file.
  - discriminate.
  - intros bn Hbn Hlt. apply (fx_mapped fx_file 35); [reflexivity|lia|done|]. cbn in Hlt. lia.
  - rewrite MAXFILE_val, BSIZE_val. cbn [i_size fx_file]. lia.
  - lia.
  - lia.
Defined.

(** appending three bytes to the file *)
Definition fx_src : list byte := [Byte.x21; Byte.x21; Byte.x21].

Lemma fx_writei_pre : writei_pre fx_geom fx_state fx_V ∅ 0 5 3.
Proof.
  split; change (fs_inode fx_state !!! 0%nat) with fx_file.
  - exact fx_env_file.
  - discriminate.
  - unfold meta_fits. cbn [i_type i_major i_minor i_nlink fx_file]. unfold T_FILE. lia.
  - change (fs_sb fx_state) with (sb_decode (fx_V 1)). rewrite fx_sb_eq. cbn. lia.
  - intros bn Hbn Hlt. apply (fx_mapped fx_file 35); [reflexivity|lia|done|]. cbn in Hlt. lia.
  - rewrite MAXFILE_val, BSIZE_val. cbn [i_size fx_file]. lia.
  - rewrite MAXFILE_val, BSIZE_val. cbn [i_size fx_file]. lia.
  - apply fx_room. apply Nat.leb_le. vm_compute. reflexivity.
Qed.

Lemma writei_correct_witness :
  wpp (writei no_write 0 fx_src 5 3) (λ r s', r = 3 ∧ written fx_geom fx_state fx_V 0 5 fx_src s')
    (write_full fx_geom fx_state fx_V 0 5 3) fx_state.
Proof. exact (writei_correct no_write fx_geom fx_state fx_V ∅ 0 fx_src 5 3 fx_writei_pre eq_refl). Defined.

Lemma writei_readi_roundtrip_witness :
  wpp (writei no_write 0 fx_src 5 3;; readi no_read 0 5 3) (λ r _, r = (3, fx_src)) (write_full fx_geom fx_state fx_V 0 5 3) fx_state.
Proof. exact (writei_readi_roundtrip no_write no_read fx_geom fx_state fx_V ∅ 0 fx_src 5 3 fx_writei_pre eq_refl). Defined.

Lemma writei_rejects_witness : writei no_write 0 fx_src 6 3 fx_state = Ok (-1) fx_state.
Proof.
  apply (writei_rejects no_write fx_state 0 fx_src 6 3); change (fs_inode fx_state !!! 0%nat) with fx_file.
  - discriminate.
  - lia.
  - lia.
  - left. reflexivity.
Defined.

Lemma fx_dir_env : dir_env fx_geom fx_state fx_V ∅ 1 2.
Proof.
  split; change (fs_inode fx_state !!! 1%nat) with fx_dir.
  - exact fx_env_dir.
  - reflexivity.
  - split; [reflexivity|lia].
  - rewrite MAXFILE_val, BSIZE_val. cbn [i_size fx_dir]. lia.
  - intros bn Hbn Hlt. apply (fx_mapped fx_dir 34); [reflexivity|lia|done|]. cbn in Hlt. lia.
  - exact fx_NBUF.
Qed.

Lemma dirlookup_correct_witness :
  wpp (dirlookup no_read 1 (chars [Byte.x66])) (lookup_post fx_geom fx_state fx_V ∅ 1 (chars [Byte.x66]) 2 0)
    (no_inodes fx_V (fs_inode fx_state) 1 (chars [Byte.x66]) 2 0) fx_state.
Proof. exact (dirlookup_correct no_read fx_geom fx_state fx_V ∅ 1 (chars [Byte.x66]) 2 fx_dir_env fx_icache_ok). Defined.

(** linking inode 3 under the name g *)
Lemma fx_link_pre : link_pre fx_geom fx_state fx_V ∅ 1 2 3.
Proof.
  split; change (fs_inode fx_state !!! 1%nat) with fx_dir.
  - exact fx_dir_env.
  - unfold meta_fits. cbn [i_type i_major i_minor i_nlink fx_dir]. unfold T_DIR. lia.
  - change (fs_sb fx_state) with (sb_decode (fx_V 1)). rewrite fx_sb_eq. cbn. lia.
  - rewrite MAXFILE_val, BSIZE_val. unfold DIRENT_SIZE. lia.
  - apply fx_room. lia.
  - exact fx_icache_ok.
  - lia.
Qed.

Lemma fx_absent j : 0 ≤ j < 2 → ¬ entry_is (chars [Byte.x67]) (entry fx_V fx_dir j).
Proof.
  intros Hj [_ H]. apply strncmp_zero in H; [|unfold DIRSIZ; lia]. revert H.
  assert (j = 0 ∨ j = 1) as [-> | ->] by lia; vm_compute; discriminate.
Qed.


(** Resolving the path /./f from the root, with one entry of the cache in use. *)
Definition fx_root : inode := set_ilock initsleeplock fx_dir.
Definition fx_cache : list inode := zero_inode :: fx_root :: replicate 48 zero_inode.
Definition fx_walk : fsst (logst memdisk) := with_inode fx_state fx_cache.

Lemma fx_dnodes : ∀ i, 0 ≤ i < 8 → live fx_sb fx_V i → i = 1 ∨ i = 2.
Proof.
  apply (fx_range (λ i, live fx_sb fx_V i → i = 1 ∨ i = 2) (λ i, (i_type (dnode fx_sb fx_V i) =? 0) || (i =? 1) || (i =? 2)) 8); [|vm_compute; reflexivity].
  intros i [[H%Z.eqb_eq|H%Z.eqb_eq]%orb_true_iff|H%Z.eqb_eq]%orb_true_iff [_ Hl]; [done|by left|by right].
Qed.

Lemma fx_live_inv i : live fx_sb fx_V i → i = 1 ∨ i = 2.
Proof. intros Hl. apply fx_dnodes; [|done]. destruct Hl as [Hi _]. exact Hi. Qed.

Lemma fx_live i : i = 1 ∨ i = 2 → live fx_sb fx_V i.
Proof. intros [-> | ->]; (split; [cbn; lia|vm_compute; discriminate]). Qed.

Lemma fx_dnode_1 : dnode fx_sb fx_V 1 = mkInode 0 0 0 initsleeplock 0 T_DIR 0 0 1 32 (34 :: replicate 12 0).
Proof. vm_compute. reflexivity. Qed.
Lemma fx_dnode_2 : dnode fx_sb fx_V 2 = mkInode 0 0 0 initsleeplock 0 T_FILE 0 0 1 5 (35 :: replicate 12 0).
Proof. vm_compute. reflexivity. Qed.

Lemma fx_entries : de_inum <$> entries fx_V (dnode fx_sb fx_V 1) = [1; 2].
Proof. vm_compute. reflexivity. Qed.

Lemma fx_tree_ok : tree_ok fx_geom fx_sb fx_V.
Proof.
  split.
  - apply fx_live. by left.
  - intros i [-> | ->]%fx_live_inv; rewrite ?fx_dnode_1, ?fx_dnode_2; discriminate.
  - intros i [-> | ->]%fx_live_inv; rewrite ?fx_dnode_1, ?fx_dnode_2; [|discriminate].
    intros _. apply (fx_file_wf _ 34); [reflexivity|lia].
  - intros i [-> | ->]%fx_live_inv; rewrite ?fx_dnode_1, ?fx_dnode_2; [|discriminate].
    intros _. cbn [i_size]. split_and!; [reflexivity|lia|rewrite MAXFILE_val, BSIZE_val; lia|].
    intros bn Hbn H. eapply fx_mapped; [reflexivity| |exact Hbn|lia]. lia.
  - intros i e [-> | ->]%fx_live_inv; [|rewrite fx_dnode_2; discriminate]. intros _ He _.
    apply (list_elem_of_fmap_2 de_inum) in He. rewrite fx_entries in He. apply fx_live. set_solver.
Qed.

Lemma fx_root_read : dinode_read 1 (fx_V (IBLOCK 1 fx_sb)) fx_root = fx_root.
Proof. vm_compute. reflexivity. Qed.

Lemma fx_cache_ok : cache_ok None 1 fx_sb fx_V fx_cache.
Proof.
  assert (Hl : ∀ k x, fx_cache !! k = Some x → k = 1%nat ∧ x = fx_root ∨ x = zero_inode).
  { intros [|[|k]] x H; [right|left|right]; [by injection H as <-|by injection H as <-|]. by apply lookup_replicate in H as [? _]. }
  split; [split|].
  - intros k x [[_ ->] | ->]%Hl; cbn; lia.
  - intros i j x y [[-> ->] | ->]%Hl [[-> ->] | ->]%Hl; cbn; lia.
  - intros k x [[-> ->] | ->]%Hl; rewrite bool_decide_eq_false_2 by done; split; try reflexivity.
    + intros _. split_and!; [reflexivity|apply fx_live; by left|]. right. split; [reflexivity|exact fx_root_read].
    + cbn. lia.
Qed.

Lemma fx_walk_ok : fs_ok fx_geom fx_walk fx_V ∅ None.
Proof.
  split; [apply alloc_ok_inode, fx_alloc_ok|exact fx_NBUF| |]; change (fs_sb fx_walk) with (sb_decode (fx_V 1)); rewrite fx_sb_eq.
  - exact fx_tree_ok.
  - exact fx_cache_ok.
Qed.

Definition fx_path : list byte := [slash; Byte.x2e; slash; Byte.x66].

Lemma namex_correct_witness :
  wpp (namex no_read fx_path false (replicate DIRSIZ Byte.x00))
    (walk_post fx_geom fx_walk fx_V ∅ false (start_inum fx_walk fx_path) 0 (path_elems fx_path))
    (walk_full (nfree (fs_inode fx_walk))) fx_walk ∧
  target fx_sb fx_V false (start_inum fx_walk fx_path) (path_elems fx_path) = Some 2 ∧ nfree (fs_inode fx_walk) = 49.
Proof.
  split; [|split; vm_compute; reflexivity].
  apply (namex_correct no_read fx_geom fx_walk fx_V ∅ fx_path false (replicate DIRSIZ Byte.x00) fx_root fx_walk_ok).
  - reflexivity.
  - cbn. lia.
  - unfold fx_path. set_solver.
  - reflexivity.
Defined.
