(* ===== verification/Grep.v ===== *)
(** * grep (src/grep.c)

    The regular-expression matcher over C strings (lists of the characters before
    the NUL) and the line-splitting loop around it, with the meaning of patterns
    as sets of strings and the theorem that the matcher decides it. *)

From S2P Require Import Prelude.

Definition caret : byte := Byte.x5e.
Definition dollar : byte := Byte.x24.
Definition dot : byte := Byte.x2e.
Definition star : byte := Byte.x2a.
Definition newline : byte := Byte.x0a.
Definition nul : byte := Byte.x00.

(** ** The matcher *)

(** [matchstar(c, re, text)], given [matchhere(re, .)] *)
Fixpoint matchstar (mh : list byte → bool) (c : byte) (text : list byte) : bool :=
  if mh text then true
  else match text with
       | [] => false
       | t :: text => if bool_decide (t = c) || bool_decide (c = dot) then matchstar mh c text else false
       end.

Fixpoint matchhere (re text : list byte) {struct re} : bool :=
  match re with
  | [] => true
  | c :: re1 =>
      match re1 with
      | c1 :: re2 =>
          if decide (c1 = star) then matchstar (matchhere re2) c text
          else match text with
               | t :: text => if bool_decide (c = dot) || bool_decide (c = t) then matchhere re1 text else false
               | [] => false
               end
      | [] =>
          if decide (c = dollar) then match text with [] => true | _ => false end
          else match text with
               | t :: text => if bool_decide (c = dot) || bool_decide (c = t) then matchhere re1 text else false
               | [] => false
               end
      end
  end.

(** the do-while loop of [match] *)
Fixpoint match_from (re text : list byte) : bool :=
  if matchhere re text then true
  else match text with [] => false | _ :: text => match_from re text end.

Definition grep_match (re text : list byte) : bool :=
  match re with
  | c :: re1 => if decide (c = caret) then matchhere re1 text else match_from re text
  | [] => match_from re text
  end.

(** ** The lines of the input *)

(** [strchr(p, '\n')]: the text before the first newline and after it; the search ends
    at a NUL, also one that was read from the file *)
Fixpoint cut_line (p : list byte) : option (list byte * list byte) :=
  match p with
  | [] => None
  | c :: p => if decide (c = nul) then None
              else if decide (c = newline) then Some ([], p)
              else match cut_line p with Some (l, r) => Some (c :: l, r) | None => None end
  end.

(** The inner loop: the output for the complete lines of [p], and the rest. *)
Fixpoint grep_lines (pattern p : list byte) (fuel : nat) : list byte * list byte :=
  match fuel with
  | O => ([], p)
  | S fuel =>
      match cut_line p with
      | None => ([], p)
      | Some (l, r) =>
          let '(out, rest) := grep_lines pattern r fuel in
          ((if grep_match pattern l then l ++ [newline] else []) ++ out, rest)
      end
  end.

(** One iteration of the read loop: [buf] is what is kept from the last one, [n]
    the bytes just read; when the whole buffer has no newline it is dropped. *)
Definition grep_step (pattern buf n : list byte) : list byte * list byte :=
  let b := buf ++ n in
  let '(out, rest) := grep_lines pattern b (S (length b)) in
  (out, if decide (length rest = length b) then [] else rest).

(** [grep]: [reads] are the results of the successive [read] calls. *)
Fixpoint grep (pattern buf : list byte) (reads : list (list byte)) : list byte :=
  match reads with
  | [] => []
  | n :: reads =>
      match n with
      | [] => []
      | _ => let '(out, buf) := grep_step pattern buf n in out ++ grep pattern buf reads
      end
  end.

(** ** What a pattern means *)

Inductive atom : Type := AChar (c : byte) | AAny.
Inductive item : Type := One (a : atom) | Many (a : atom).

Definition atom_of (c : byte) : atom := if decide (c = dot) then AAny else AChar c.

(** A pattern: items, and whether the match must end the text. *)
Fixpoint parse (re : list byte) : list item * bool :=
  match re with
  | [] => ([], false)
  | c :: re1 =>
      match re1 with
      | [] => if decide (c = dollar) then ([], true) else ([One (atom_of c)], false)
      | c1 :: re2 =>
          if decide (c1 = star) then let '(its, e) := parse re2 in (Many (atom_of c) :: its, e)
          else let '(its, e) := parse re1 in (One (atom_of c) :: its, e)
      end
  end.

Definition atom_matches (a : atom) (c : byte) : Prop := match a with AChar x => x = c | AAny => True end.

(** The strings that a list of items denotes. *)
Inductive denotes : list item → list byte → Prop :=
| den_nil : denotes [] []
| den_one a its c t : atom_matches a c → denotes its t → denotes (One a :: its) (c :: t)
| den_stop a its t : denotes its t → denotes (Many a :: its) t
| den_more a its c t : atom_matches a c → denotes (Many a :: its) t → denotes (Many a :: its) (c :: t).

(** Some prefix of [text] is in the language, all of it if [e] holds. *)
Definition prefix_matches (p : list item * bool) (text : list byte) : Prop :=
  ∃ t1 t2, text = t1 ++ t2 ∧ denotes p.1 t1 ∧ (p.2 = true → t2 = []).

Section matcher.
Implicit Types (re text : list byte).

Lemma atom_of_true c t : bool_decide (c = dot) || bool_decide (c = t) = true ↔ atom_matches (atom_of c) t.
Proof.
  unfold atom_of, atom_matches. destruct (decide (c = dot)) as [->|H].
  - rewrite bool_decide_true by done. done.
  - rewrite (bool_decide_false (c = dot)) by done. simpl. by rewrite bool_decide_eq_true.
Qed.

Lemma star_cond c t : bool_decide (t = c) || bool_decide (c = dot) = bool_decide (c = dot) || bool_decide (c = t).
Proof. rewrite orb_comm. f_equal. by apply bool_decide_ext. Qed.

Lemma prefix_one a its e text :
  prefix_matches (One a :: its, e) text ↔ ∃ c t, text = c :: t ∧ atom_matches a c ∧ prefix_matches (its, e) t.
Proof.
  split.
  - intros (t1 & t2 & -> & Hd & He). inversion Hd; subst. eexists _, _. split; [done|]. split; [done|]. by exists t, t2.
  - intros (c & t & -> & Ha & t1 & t2 & -> & Hd & He). exists (c :: t1), t2. split_and!; [done|by constructor|done].
Qed.

Lemma prefix_many a its e text :
  prefix_matches (Many a :: its, e) text ↔
  prefix_matches (its, e) text ∨ ∃ c t, text = c :: t ∧ atom_matches a c ∧ prefix_matches (Many a :: its, e) t.
Proof.
  split.
  - intros (t1 & t2 & -> & Hd & He). inversion Hd; subst.
    + left. by exists t1, t2.
    + right. eexists _, _. split; [done|]. split; [done|]. by exists t, t2.
  - intros [(t1 & t2 & -> & Hd & He)|(c & t & -> & Ha & t1 & t2 & -> & Hd & He)].
    + exists t1, t2. split_and!; [done|by apply den_stop|done].
    + exists (c :: t1), t2. split_and!; [done|by apply den_more|done].
Qed.

Lemma matchstar_spec mh c its e text :
  (∀ t, mh t = true ↔ prefix_matches (its, e) t) →
  matchstar mh c text = true ↔ prefix_matches (Many (atom_of c) :: its, e) text.
Proof.
  intros Hmh. induction text as [|t text IH]; rewrite prefix_many; cbn [matchstar].
  - destruct (mh []) eqn:E; [rewrite Hmh in E; tauto|]. split; [done|].
    intros [H|(? & ? & ? & _)]; [|done]. apply Hmh in H. congruence.
  - destruct (mh (t :: text)) eqn:E; [rewrite Hmh in E; tauto|]. rewrite star_cond.
    assert (Hn : ¬ prefix_matches (its, e) (t :: text)) by (intros H; apply Hmh in H; congruence).
    destruct (bool_decide (c = dot) || bool_decide (c = t)) eqn:Hc.
    + rewrite IH. apply atom_of_true in Hc. split; [intros; right; by eexists _, _|].
      intros [?|(c' & t' & [= <- <-] & _ & ?)]; done.
    + split; [done|]. intros [?|(c' & t' & [= <- <-] & Ha & _)]; [done|]. apply atom_of_true in Ha. congruence.
Qed.

Lemma matchhere_one c re1 text :
  (∀ t, matchhere re1 t = true ↔ prefix_matches (parse re1) t) →
  (match text with
   | t :: text => if bool_decide (c = dot) || bool_decide (c = t) then matchhere re1 text else false
   | [] => false end) = true ↔
  prefix_matches (One (atom_of c) :: (parse re1).1, (parse re1).2) text.
Proof.
  intros IH. rewrite prefix_one. destruct text as [|t text].
  { split; [done|]. by intros (? & ? & ? & _). }
  destruct (bool_decide (c = dot) || bool_decide (c = t)) eqn:Hc.
  - rewrite IH. apply atom_of_true in Hc. destruct (parse re1) as [its e]. split; [intros; by eexists _, _|].
    by intros (? & ? & [= <- <-] & _ & ?).
  - split; [done|]. intros (? & ? & [= <- <-] & Ha & _). apply atom_of_true in Ha. congruence.
Qed.

(** [matchhere] decides whether the text starts with a match. *)
Lemma matchhere_spec re text : matchhere re text = true ↔ prefix_matches (parse re) text.
Proof.
  remember (length re) as n eqn:Hn. revert re text Hn.
  induction (lt_wf n) as [n _ IH]. intros re text ->. destruct re as [|c re1].
  { split; [intros _|done]. exists [], text. split_and!; [done|constructor|done]. }
  destruct re1 as [|c1 re2].
  - cbn [matchhere parse]. destruct (decide (c = dollar)) as [->|Hc].
    + destruct text as [|t text].
      * split; [intros _|done]. exists [], []. split_and!; [done|constructor|done].
      * split; [done|]. intros (t1 & t2 & E & Hd & He). inversion Hd; subst. simpl in E. by rewrite He in E.
    + rewrite (matchhere_one c [] text); [done|]. intros t. apply (IH 0%nat); simpl; lia.
  - assert (Em : matchhere (c :: c1 :: re2) text =
      if decide (c1 = star) then matchstar (matchhere re2) c text
      else match text with
           | t :: text => if bool_decide (c = dot) || bool_decide (c = t) then matchhere (c1 :: re2) text else false
           | [] => false end) by reflexivity.
    assert (Ep : parse (c :: c1 :: re2) =
      if decide (c1 = star) then let '(its, e) := parse re2 in (Many (atom_of c) :: its, e)
      else let '(its, e) := parse (c1 :: re2) in (One (atom_of c) :: its, e)) by reflexivity.
    rewrite Em, Ep. destruct (decide (c1 = star)) as [->|Hc].
    + destruct (parse re2) as [its e] eqn:E. apply matchstar_spec. intros t. rewrite <-E.
      apply (IH (length re2)); simpl; lia.
    + rewrite (matchhere_one c (c1 :: re2) text).
      * by destruct (parse (c1 :: re2)).
      * intros t. apply (IH (length (c1 :: re2))); simpl; lia.
Qed.

Lemma match_from_spec re text :
  match_from re text = true ↔ ∃ pre suf, text = pre ++ suf ∧ prefix_matches (parse re) suf.
Proof.
  induction text as [|t text IH]; cbn [match_from].
  - destruct (matchhere re []) eqn:E.
    + split; [intros _|done]. exists [], []. by rewrite <-matchhere_spec.
    + split; [done|]. intros (pre & suf & Hps & Hm). symmetry in Hps. apply app_nil in Hps as [-> ->].
      apply matchhere_spec in Hm. congruence.
  - destruct (matchhere re (t :: text)) eqn:E.
    + split; [intros _|done]. exists [], (t :: text). by rewrite <-matchhere_spec.
    + rewrite IH. split.
      * intros (pre & suf & -> & Hm). by exists (t :: pre), suf.
      * intros (pre & suf & Hps & Hm). destruct pre as [|p pre]; simpl in Hps.
        -- subst suf. apply matchhere_spec in Hm. congruence.
        -- injection Hps as <- ->. by exists pre, suf.
Qed.
End matcher.

(** C39. The matcher accepts a line exactly when the line has a substring in the language that the
    pattern denotes, with anchors and stars as documented. *)
Theorem grep_match_correct re text :
  grep_match re text = true ↔
  match re with
  | c :: re1 => if decide (c = caret) then prefix_matches (parse re1) text
                else ∃ pre suf, text = pre ++ suf ∧ prefix_matches (parse re) suf
  | [] => True
  end.
Proof.
  unfold grep_match. destruct re as [|c re1].
  - rewrite match_from_spec. split; [done|]. intros _. exists [], text. split; [done|].
    exists [], text. split_and!; [done|constructor|done].
  - case_decide; [apply matchhere_spec|apply match_from_spec].
Qed.

(** ** Lines *)

Section lines.
Variable pattern : list byte.
Implicit Types (p l r b c n : list byte).

Lemma cut_line_Some p l r : cut_line p = Some (l, r) → p = l ++ newline :: r ∧ (newline ∉ l) ∧ (nul ∉ l).
Proof.
  revert l. induction p as [|x p IH]; intros l; cbn [cut_line]; [done|]. case_decide as H0; [done|]. case_decide as Hx.
  - intros [= <- <-]. subst. split; [done|set_solver].
  - destruct (cut_line p) as [[l' r']|] eqn:E; [|done]. intros [= <- <-]. destruct (IH l' eq_refl) as (-> & ? & ?).
    split; [done|set_solver].
Qed.

(** A NUL before the first newline hides it. *)
Lemma cut_line_nul l r : newline ∉ l → cut_line (l ++ nul :: r) = None.
Proof.
  induction l as [|x l IH]; intros Hn; cbn [cut_line app]; [by rewrite decide_True|].
  case_decide; [done|]. rewrite decide_False by set_solver. by rewrite IH by set_solver.
Qed.

Lemma cut_line_None p : nul ∉ p → cut_line p = None ↔ newline ∉ p.
Proof.
  induction p as [|x p IH]; intros H0; cbn [cut_line]; [set_solver|]. rewrite decide_False by set_solver. case_decide as Hx.
  - split; [done|]. subst. set_solver.
  - specialize (IH ltac:(set_solver)). destruct (cut_line p) as [[l r]|]; [|set_solver]. split; [done|]. intros Hn.
    assert (Hp : newline ∉ p) by set_solver. by apply IH in Hp.
Qed.

Lemma cut_line_app l r : newline ∉ l → nul ∉ l → cut_line (l ++ newline :: r) = Some (l, r).
Proof.
  induction l as [|x l IH]; intros Hn H0; cbn [cut_line app]; [by rewrite decide_False, decide_True|].
  rewrite !decide_False by set_solver. by rewrite IH by set_solver.
Qed.

(** The result for the whole of [b]; the fuel is more than its lines. *)
Definition scan b := grep_lines pattern b (S (length b)).

Lemma grep_lines_fuel b f1 f2 :
  (length b < f1)%nat → (length b < f2)%nat → grep_lines pattern b f1 = grep_lines pattern b f2.
Proof.
  revert b f2. induction f1 as [|f1 IH]; intros b [|f2] H1 H2; try lia. cbn [grep_lines].
  destruct (cut_line b) as [[l r]|] eqn:E; [|done]. apply cut_line_Some in E as [-> _].
  rewrite length_app in *. simpl in *. by rewrite (IH r f2) by lia.
Qed.

Lemma scan_line l r :
  newline ∉ l → nul ∉ l →
  scan (l ++ newline :: r) =
    ((if grep_match pattern l then l ++ [newline] else []) ++ (scan r).1, (scan r).2).
Proof.
  intros Hl H0. unfold scan at 1. cbn [grep_lines]. rewrite cut_line_app by done.
  rewrite (grep_lines_fuel r (length (l ++ newline :: r)) (S (length r))) by (rewrite ?length_app; simpl; lia).
  fold (scan r). by destruct (scan r).
Qed.

Lemma scan_stop b : cut_line b = None → scan b = ([], b).
Proof. intros Hb. unfold scan. cbn [grep_lines]. by rewrite Hb. Qed.

Lemma scan_none b : nul ∉ b → newline ∉ b → scan b = ([], b).
Proof. intros H0 Hb. by apply scan_stop, cut_line_None. Qed.

(** Scanning in two parts, keeping the incomplete line between them. *)
Lemma scan_app b c : nul ∉ b → scan (b ++ c) = ((scan b).1 ++ (scan ((scan b).2 ++ c)).1, (scan ((scan b).2 ++ c)).2).
Proof.
  remember (length b) as k eqn:Hk. revert b Hk. induction (lt_wf k) as [k _ IH]. intros b -> H0.
  destruct (cut_line b) as [[l r]|] eqn:E.
  - apply cut_line_Some in E as (-> & Hl & Hl0). rewrite <-app_assoc. simpl. rewrite !scan_line by done. cbn [fst snd].
    rewrite (IH (length r)) by (rewrite ?length_app; simpl; lia || set_solver || done). cbn [fst snd]. by rewrite <-app_assoc.
  - rewrite (scan_stop b) by done. simpl. by destruct (scan (b ++ c)).
Qed.

(** What is left is the end of the text, without a complete line. *)
Lemma scan_rest b : ∃ pre, b = pre ++ (scan b).2 ∧ cut_line (scan b).2 = None.
Proof.
  remember (length b) as k eqn:Hk. revert b Hk. induction (lt_wf k) as [k _ IH]. intros b ->.
  destruct (cut_line b) as [[l r]|] eqn:E; [|exists []; by rewrite scan_stop].
  apply cut_line_Some in E as (-> & Hl & Hl0). rewrite scan_line by done. cbn [snd].
  destruct (IH (length r) ltac:(rewrite length_app; simpl; lia) r eq_refl) as (pre & Hr & Hc).
  exists (l ++ newline :: pre). split; [|done]. rewrite <-app_assoc. simpl. by rewrite <-Hr.
Qed.

Lemma scan_rest_shorter b : nul ∉ b → newline ∈ b → (length (scan b).2 < length b)%nat.
Proof.
  intros H0 Hb. destruct (cut_line b) as [[l r]|] eqn:E; [|by apply cut_line_None in E].
  apply cut_line_Some in E as (-> & Hl & Hl0). rewrite scan_line by done. cbn [snd].
  destruct (scan_rest r) as (pre & Hr & _). apply (f_equal length) in Hr. rewrite length_app in *. simpl. lia.
Qed.

Lemma grep_lines_all buf reads :
  nul ∉ buf → (∀ n, n ∈ reads → newline ∈ n ∧ nul ∉ n) →
  grep pattern buf reads ++ (if decide (reads = []) then (scan buf).1 else []) = (scan (buf ++ mjoin reads)).1.
Proof.
  revert buf. induction reads as [|n reads IH]; intros buf H0 Hr; cbn [grep mjoin list_join].
  { rewrite decide_True by done. by rewrite app_nil_r. }
  rewrite decide_False, app_nil_r by done. destruct (Hr n ltac:(set_solver)) as [Hn Hn0].
  destruct n as [|x n]; [set_solver|]. unfold grep_step. change (grep_lines pattern (buf ++ x :: n) (S (length (buf ++ x :: n)))) with (scan (buf ++ x :: n)).
  pose proof (scan_rest_shorter (buf ++ x :: n) ltac:(set_solver) ltac:(set_solver)) as Hlt.
  destruct (scan_rest (buf ++ x :: n)) as (pre & Hpre & Hrest).
  assert (Hrest0 : nul ∉ (scan (buf ++ x :: n)).2).
  { intros Hin. assert (nul ∈ buf ++ x :: n) by (rewrite Hpre; set_solver). set_solver. }
  rewrite app_assoc, (scan_app (buf ++ x :: n)) by set_solver. cbn [fst]. clear Hpre.
  destruct (scan (buf ++ x :: n)) as [out rest] eqn:E. cbn [fst snd] in *. rewrite decide_False by lia. f_equal.
  rewrite <-IH by (done || set_solver). destruct reads as [|n' reads]; [|by rewrite app_nil_r].
  cbn [grep app]. rewrite decide_True by done. symmetry. by rewrite scan_stop.
Qed.
End lines.

(** The complete lines of a text, without their newlines. *)
Fixpoint complete_lines (text cur : list byte) : list (list byte) :=
  match text with
  | [] => []
  | c :: text => if decide (c = newline) then cur :: complete_lines text [] else complete_lines text (cur ++ [c])
  end.

(** The lines that match, each with its newline. *)
Definition matching_lines (pattern text : list byte) : list byte :=
  mjoin ((λ l, l ++ [newline]) <$> filter (λ l, grep_match pattern l = true) (complete_lines text [])).

Lemma complete_lines_app l text cur : newline ∉ l → complete_lines (l ++ text) cur = complete_lines text (cur ++ l).
Proof.
  revert cur. induction l as [|c l IH]; intros cur Hl; [by rewrite app_nil_r|]. cbn [app complete_lines].
  rewrite decide_False by set_solver. rewrite IH by set_solver. by rewrite <-app_assoc.
Qed.

Lemma scan_matching pattern text : nul ∉ text → (scan pattern text).1 = matching_lines pattern text.
Proof.
  unfold matching_lines. remember (length text) as k eqn:Hk. revert text Hk. induction (lt_wf k) as [k _ IH]. intros text -> H0.
  destruct (cut_line text) as [[l r]|] eqn:E.
  - apply cut_line_Some in E as (-> & Hl & Hl0). rewrite scan_line by done. cbn [fst].
    rewrite (IH (length r)) by (rewrite ?length_app; simpl; lia || set_solver || done).
    rewrite complete_lines_app by done. cbn [app complete_lines]. rewrite decide_True by done. rewrite filter_cons.
    destruct (grep_match pattern l) eqn:Em; [by rewrite decide_True|by rewrite decide_False].
  - apply cut_line_None in E; [|done]. rewrite scan_none by done. rewrite <-(app_nil_r text), complete_lines_app by done. done.
Qed.

(** C40. When every chunk that read returns contains a newline and no NUL byte, grep prints exactly
    the complete lines of the whole input that match, in order, also when a line spans two
    chunks. *)
Theorem grep_prints_matching_lines pattern reads :
  reads ≠ [] → (∀ n, n ∈ reads → newline ∈ n ∧ nul ∉ n) →
  grep pattern [] reads = matching_lines pattern (mjoin reads).
Proof.
  intros Hne Hr. pose proof (grep_lines_all pattern [] reads ltac:(set_solver) Hr) as H.
  rewrite decide_False, app_nil_r in H by done. rewrite <-scan_matching; [exact H|].
  intros (n & H0 & Hn)%list_elem_of_join. by destruct (Hr n Hn).
Qed.

(** a chunk in which no line ends is dropped: a read that ends in the middle of the only
    line of the buffer loses it *)
Theorem grep_drops_split_line pattern n1 n2 :
  n1 ≠ [] → cut_line n1 = None → grep pattern [] (n1 :: n2) = grep pattern [] n2.
Proof.
  intros Hne Hn. destruct n1 as [|x n1]; [done|]. cbn [grep]. unfold grep_step. cbn [app].
  change (grep_lines pattern (x :: n1) (S (length (x :: n1)))) with (scan pattern (x :: n1)).
  rewrite scan_stop by done. by rewrite decide_True.
Qed.

(** a NUL in the input ends the search for lines: nothing of this chunk behind it is seen *)
Theorem grep_stops_at_nul pattern l n reads :
  newline ∉ l → grep pattern [] ((l ++ nul :: n) :: reads) = grep pattern [] reads.
Proof. intros Hl. apply grep_drops_split_line; [by destruct l|by apply cut_line_nul]. Qed.

Definition ex_abc : list byte := [Byte.x61; Byte.x62; Byte.x63].

Lemma grep_prints_matching_lines_witness :
  grep ex_abc [] [ex_abc ++ [newline]; [newline]] = matching_lines ex_abc (mjoin [ex_abc ++ [newline]; [newline]]).
Proof.
  apply (grep_prints_matching_lines ex_abc [ex_abc ++ [newline]; [newline]]); [discriminate|].
  intros n Hn. apply elem_of_cons in Hn as [->|Hn]; [|apply list_elem_of_singleton in Hn as ->]; split;
    refine (bool_decide_unpack _ _); vm_compute; exact I.
Defined.

Lemma grep_drops_split_line_witness :
  grep ex_abc [] [[Byte.x61]; [Byte.x62; Byte.x63; newline]] = grep ex_abc [] [[Byte.x62; Byte.x63; newline]].
Proof.
  apply (grep_drops_split_line ex_abc [Byte.x61] [[Byte.x62; Byte.x63; newline]]); [discriminate|].
  reflexivity.
Defined.

(** the chunk NUL, newline, a, newline prints nothing for the pattern [a] *)
Lemma grep_stops_at_nul_witness : grep [Byte.x61] [] [[nul; newline; Byte.x61; newline]] = [].
Proof. apply (grep_stops_at_nul [Byte.x61] [] [newline; Byte.x61; newline] []). set_solver. Defined.
