(* ===== verification/Pipe.v ===== *)
(** * Pipes (src/pipe.c)

    [struct pipe] with its two free-running 32-bit counters, and the critical
    sections of its operations: a call runs until it returns or sleeps, and a
    sleeping writer resumes with the bytes it has not written yet. *)

From S2P Require Import Prelude.

Definition PIPESIZE : Z := 512.


Record pipe : Type := mkPipe {
  p_data : list byte;
  p_nread : Z;      (* number of bytes read *)
  p_nwrite : Z;     (* number of bytes written *)
  p_readopen : Z;   (* read fd is still open *)
  p_writeopen : Z;  (* write fd is still open *)
}.

(** the pipe that [pipealloc] sets up in a fresh page *)
Definition pipe_init (page : list byte) : pipe := mkPipe page 0 0 1 1.

(** [pipeclose]: the flag says whether the page is freed. *)
Definition pipeclose (p : pipe) (writable : bool) : pipe * bool :=
  let p := if writable then mkPipe (p_data p) (p_nread p) (p_nwrite p) (p_readopen p) 0
           else mkPipe (p_data p) (p_nread p) (p_nwrite p) 0 (p_writeopen p) in
  (p, (p_readopen p =? 0) && (p_writeopen p =? 0)).

(** How a critical section ends, with the bytes [rest] not written: [WFail] returns
    -1, [WSleep] sleeps and will resume with [rest]. *)
Inductive wres : Type := WDone | WFail (rest : list byte) | WSleep (rest : list byte).

Definition wres_rest (r : wres) : list byte := match r with WDone => [] | WFail l | WSleep l => l end.

(** [pipewrite] from the byte [addr[i]] on, as far as it runs without sleeping *)
Fixpoint pipewrite (p : pipe) (addr : list byte) (killed : bool) : pipe * wres :=
  match addr with
  | [] => (p, WDone)
  | c :: rest =>
      if p_nwrite p =? u32 (p_nread p + PIPESIZE) then
        if (p_readopen p =? 0) || killed then (p, WFail addr) else (p, WSleep addr)
      else
        pipewrite (mkPipe (<[Z.to_nat (p_nwrite p mod PIPESIZE) := c]> (p_data p)) (p_nread p)
                     (u32 (p_nwrite p + 1)) (p_readopen p) (p_writeopen p)) rest killed
  end.

Inductive rres : Type := RDone (bs : list byte) | RFail | RSleep.

(** the copy loop of [piperead] *)
Fixpoint piperead_loop (p : pipe) (n : nat) : pipe * list byte :=
  match n with
  | O => (p, [])
  | S n =>
      if p_nread p =? p_nwrite p then (p, [])
      else
        let c := p_data p !!! Z.to_nat (p_nread p mod PIPESIZE) in
        let '(p', bs) := piperead_loop (mkPipe (p_data p) (u32 (p_nread p + 1)) (p_nwrite p) (p_readopen p) (p_writeopen p)) n in
        (p', c :: bs)
  end.

Definition piperead (p : pipe) (n : nat) (killed : bool) : pipe * rres :=
  if (p_nread p =? p_nwrite p) && negb (p_writeopen p =? 0) then
    if killed then (p, RFail) else (p, RSleep)
  else let '(p', bs) := piperead_loop p n in (p', RDone bs).

(** ** The queue a pipe implements *)

(** [pipe_holds p q]: the bytes written and not yet read are [q]. *)
Record pipe_holds (p : pipe) (q : list byte) : Prop := {
  ph_len : length (p_data p) = Z.to_nat PIPESIZE;
  ph_nread : 0 ≤ p_nread p < 2 ^ 32;
  ph_nwrite : p_nwrite p = u32 (p_nread p + Z.of_nat (length q));
  ph_room : Z.of_nat (length q) ≤ PIPESIZE;
  ph_data : ∀ i c, q !! i = Some c →
    p_data p !! Z.to_nat ((p_nread p + Z.of_nat i) mod PIPESIZE) = Some c;
}.

Section queue.
Implicit Types (p : pipe) (q addr : list byte).

(** The slot of a counter does not change when the counter wraps around. *)
Lemma slot_u32 a b : (u32 a + b) mod PIPESIZE = (a + b) mod PIPESIZE.
Proof.
  unfold u32, PIPESIZE. rewrite (Zplus_mod (a mod 2 ^ 32)), (Zplus_mod a b). f_equal. f_equal.
  apply Z.mod_mod_divide. exists (2 ^ 23). reflexivity.
Qed.

Lemma slot_inj a i j :
  0 ≤ i < PIPESIZE → 0 ≤ j < PIPESIZE → (a + i) mod PIPESIZE = (a + j) mod PIPESIZE → i = j.
Proof.
  intros Hi Hj H. unfold PIPESIZE in *.
  pose proof (Z_div_mod_eq_full (a + i) 512). pose proof (Z_div_mod_eq_full (a + j) 512). lia.
Qed.

Lemma slot_lt a : (Z.to_nat (a mod PIPESIZE) < Z.to_nat PIPESIZE)%nat.
Proof. pose proof (Z.mod_pos_bound a PIPESIZE ltac:(reflexivity)). lia. Qed.

(** [nread == nwrite] means empty, [nwrite == nread + PIPESIZE] means full. *)
Lemma holds_empty p q : pipe_holds p q → p_nread p = p_nwrite p ↔ q = [].
Proof.
  intros [? Hr Hw Hroom _]. rewrite Hw. unfold u32, PIPESIZE in *. split; [|intros ->; simpl; rewrite Z.add_0_r, Z.mod_small by lia; done].
  intros H. apply length_zero_iff_nil. pose proof (Z_div_mod_eq_full (p_nread p + Z.of_nat (length q)) (2 ^ 32)). lia.
Qed.

Lemma holds_full p q : pipe_holds p q → p_nwrite p = u32 (p_nread p + PIPESIZE) ↔ Z.of_nat (length q) = PIPESIZE.
Proof.
  intros [? Hr Hw Hroom _]. rewrite Hw. split; [|by intros ->]. unfold u32, PIPESIZE in *. intros H.
  pose proof (Z_div_mod_eq_full (p_nread p + Z.of_nat (length q)) (2 ^ 32)).
  pose proof (Z_div_mod_eq_full (p_nread p + 512) (2 ^ 32)). lia.
Qed.

Lemma holds_push p q c :
  pipe_holds p q → Z.of_nat (length q) < PIPESIZE →
  pipe_holds (mkPipe (<[Z.to_nat (p_nwrite p mod PIPESIZE) := c]> (p_data p)) (p_nread p)
                (u32 (p_nwrite p + 1)) (p_readopen p) (p_writeopen p)) (q ++ [c]).
Proof.
  intros [Hl Hr Hw Hroom Hd] Hlt. split; cbn [p_data p_nread p_nwrite].
  - by rewrite length_insert.
  - done.
  - rewrite Hw, u32_add_l, length_app. simpl. f_equal. lia.
  - rewrite length_app. simpl. lia.
  - assert (Hslot : p_nwrite p mod PIPESIZE = (p_nread p + Z.of_nat (length q)) mod PIPESIZE).
    { rewrite Hw. rewrite <-(Z.add_0_r (u32 _)), slot_u32. by rewrite Z.add_0_r. }
    rewrite Hslot. intros i c' Hi. apply lookup_app_Some in Hi as [Hi|[Hge Hi]].
    + pose proof (lookup_lt_Some _ _ _ Hi). rewrite list_lookup_insert_ne; [by apply Hd|].
      intros E. apply Z2Nat.inj in E; [|apply Z.mod_pos_bound; reflexivity..].
      apply slot_inj in E; [lia|lia|lia].
    + assert (i = length q ∧ c' = c) as [-> ->].
      { destruct (i - length q)%nat eqn:E; [|done]. simpl in Hi. injection Hi as <-. split; [lia|done]. }
      apply list_lookup_insert_eq. rewrite Hl. apply slot_lt.
Qed.

Lemma holds_pop p c q :
  pipe_holds p (c :: q) →
  p_data p !!! Z.to_nat (p_nread p mod PIPESIZE) = c ∧
  pipe_holds (mkPipe (p_data p) (u32 (p_nread p + 1)) (p_nwrite p) (p_readopen p) (p_writeopen p)) q.
Proof.
  intros [Hl Hr Hw Hroom Hd]. cbn [length] in *. split.
  - apply list_lookup_total_correct. specialize (Hd 0%nat c eq_refl). by rewrite Z.add_0_r in Hd.
  - split; cbn [p_data p_nread p_nwrite].
    + done.
    + apply u32_range.
    + rewrite Hw, u32_add_l. f_equal. lia.
    + lia.
    + intros i c' Hi. rewrite slot_u32. specialize (Hd (S i) c' Hi).
      by replace (p_nread p + 1 + Z.of_nat i) with (p_nread p + Z.of_nat (S i)) by lia.
Qed.

(** A run of [pipewrite] appends what it wrote, and stops only when done or full. *)
Lemma pipewrite_spec p q addr killed :
  pipe_holds p q →
  ∃ w rest, addr = w ++ rest ∧ pipe_holds (pipewrite p addr killed).1 (q ++ w) ∧
    p_readopen (pipewrite p addr killed).1 = p_readopen p ∧ p_writeopen (pipewrite p addr killed).1 = p_writeopen p ∧
    wres_rest (pipewrite p addr killed).2 = rest ∧
    match (pipewrite p addr killed).2 with
    | WDone => rest = []
    | WFail _ => rest ≠ [] ∧ Z.of_nat (length (q ++ w)) = PIPESIZE ∧ (p_readopen p = 0 ∨ killed = true)
    | WSleep _ => rest ≠ [] ∧ Z.of_nat (length (q ++ w)) = PIPESIZE ∧ p_readopen p ≠ 0 ∧ killed = false
    end.
Proof.
  revert p q. induction addr as [|c addr IH]; intros p q Hp; cbn [pipewrite].
  { exists [], []. rewrite (app_nil_r q). done. }
  destruct (Z.eqb_spec (p_nwrite p) (u32 (p_nread p + PIPESIZE))) as [Hf|Hf]; rewrite (holds_full _ _ Hp) in Hf.
  - exists [], (c :: addr). rewrite (app_nil_r q). cbn [app].
    destruct (Z.eqb_spec (p_readopen p) 0), killed; cbn [orb fst snd]; split_and!; try done; auto.
  - destruct (IH _ _ (holds_push p q c Hp ltac:(pose proof (ph_room _ _ Hp); lia))) as (w & rest & -> & Hh & Ho1 & Ho2 & Hr & Hres).
    exists (c :: w), rest. rewrite <-app_assoc in *. split_and!; try done.
Qed.

(** A run of [piperead] takes bytes off the front. *)
Lemma piperead_loop_spec p q n :
  pipe_holds p q →
  let r := piperead_loop p n in
  r.2 = take n q ∧ pipe_holds r.1 (drop n q) ∧ p_readopen r.1 = p_readopen p ∧ p_writeopen r.1 = p_writeopen p.
Proof.
  revert p q. induction n as [|n IH]; intros p q Hp; cbn [piperead_loop]; [done|].
  destruct (Z.eqb_spec (p_nread p) (p_nwrite p)) as [He|He]; rewrite (holds_empty _ _ Hp) in He; [by subst|].
  destruct q as [|c q]; [done|]. destruct (holds_pop _ _ _ Hp) as [Hc Hp']. specialize (IH _ _ Hp'). cbv zeta in IH.
  destruct (piperead_loop _ n) as [p' bs]. cbn [fst snd take drop p_readopen p_writeopen] in *.
  destruct IH as (-> & ? & ? & ?). by rewrite Hc.
Qed.
End queue.

(** ** Interleavings *)

(** A pipe in use, with every byte ever written to it and read from it. *)
Record pstate : Type := mkPstate { ps_pipe : pipe; ps_written : list byte; ps_read : list byte }.

Inductive pipe_step : pstate → pstate → Prop :=
| step_write p w r addr killed done p' res :
    pipewrite p addr killed = (p', res) → addr = done ++ wres_rest res →
    pipe_step (mkPstate p w r) (mkPstate p' (w ++ done) r)
| step_read p w r n killed p' bs :
    piperead p n killed = (p', RDone bs) → pipe_step (mkPstate p w r) (mkPstate p' w (r ++ bs))
| step_close p w r writable :
    pipe_step (mkPstate p w r) (mkPstate (pipeclose p writable).1 w r).

Definition pipe_inv (s : pstate) : Prop :=
  ∃ q, ps_written s = ps_read s ++ q ∧ pipe_holds (ps_pipe s) q.

Lemma pipe_step_inv s s' : pipe_step s s' → pipe_inv s → pipe_inv s'.
Proof.
  intros Hs (q & Hw & Hp). destruct Hs as [p w r addr killed done p' res Hwr Ha|p w r n killed p' bs Hrd|p w r writable];
    cbn [ps_written ps_read ps_pipe] in *.
  - destruct (pipewrite_spec p q addr killed Hp) as (w' & rest & Ha' & Hh & _ & _ & Hres & _). rewrite Hwr in *. cbn [fst snd] in *.
    subst rest. rewrite Ha in Ha'. apply app_inv_tail in Ha' as ->. exists (q ++ w'). cbn. rewrite Hw. by rewrite app_assoc.
  - unfold piperead in Hrd. case_match; [by case_match|]. pose proof (piperead_loop_spec p q n Hp) as Hl. cbv zeta in Hl.
    destruct (piperead_loop p n) as [p1 bs1]. cbn [fst snd] in Hl. injection Hrd as <- <-. destruct Hl as (-> & Hh & _ & _).
    exists (drop n q). cbn. split; [|done]. by rewrite <-app_assoc, take_drop.
  - exists q. split; [done|]. destruct Hp. destruct writable; by split.
Qed.

(** C29. Over every sequence of reads and writes the pipe behaves as a queue: the bytes read so far
    followed by the bytes in the buffer are exactly the bytes written, and the buffer never
    holds more than PIPESIZE bytes, also when the 32-bit counters wrap around. *)
Theorem pipe_fifo page s :
  length page = Z.to_nat PIPESIZE →
  rtc pipe_step (mkPstate (pipe_init page) [] []) s →
  ∃ q, ps_written s = ps_read s ++ q ∧ Z.of_nat (length q) ≤ PIPESIZE ∧ pipe_holds (ps_pipe s) q.
Proof.
  intros Hl Hr. cut (pipe_inv s). { intros (q & Hw & Hp). exists q. split_and!; [done|apply Hp|done]. }
  assert (H0 : pipe_inv (mkPstate (pipe_init page) [] [])).
  { exists []. split; [done|]. split; done. }
  revert H0. induction Hr as [|a b c Hs _ IH]; [done|]. intros Ha. apply IH. by eapply pipe_step_inv.
Qed.

(** What the calls return, on a pipe that holds [q]. *)
Theorem pipe_calls p q addr n killed :
  pipe_holds p q →
  (Z.of_nat (length q + length addr) ≤ PIPESIZE → (pipewrite p addr killed).2 = WDone ∧
     pipe_holds (pipewrite p addr killed).1 (q ++ addr)) ∧
  (q = [] → p_writeopen p ≠ 0 → piperead p n killed = (p, if killed then RFail else RSleep)) ∧
  (q = [] → p_writeopen p = 0 → (piperead p n killed).2 = RDone []) ∧
  (q ≠ [] → (piperead p n killed).2 = RDone (take n q) ∧ pipe_holds (piperead p n killed).1 (drop n q)).
Proof.
  intros Hp. pose proof (holds_empty _ _ Hp) as He. pose proof (piperead_loop_spec p q n Hp) as Hl. cbv zeta in Hl.
  unfold piperead. split_and!.
  - intros Hroom. destruct (pipewrite_spec p q addr killed Hp) as (w & rest & -> & Hh & _ & _ & Hr & Hres).
    rewrite !length_app in *. destruct (pipewrite p (w ++ rest) killed) as [p' [|?|?]]; cbn [fst snd wres_rest] in *.
    + subst rest. by rewrite app_nil_r.
    + destruct Hres as (Hne & ? & _). destruct rest; [done|]. simpl in *. lia.
    + destruct Hres as (Hne & ? & _). destruct rest; [done|]. simpl in *. lia.
  - intros Hq Ho. apply He in Hq. rewrite (proj2 (Z.eqb_eq _ _)), (proj2 (Z.eqb_neq _ _)) by done. by destruct killed.
  - intros Hq Ho. rewrite Ho, andb_false_r. destruct (piperead_loop p n). cbn [fst snd] in *. destruct Hl as (-> & _). by rewrite Hq, take_nil.
  - intros Hq. assert (Hne : p_nread p ≠ p_nwrite p) by (intros H; apply He in H; done).
    rewrite (proj2 (Z.eqb_neq _ _)) by done. cbn [andb]. destruct (piperead_loop p n). cbn [fst snd] in *. by destruct Hl as (-> & ? & _).
Qed.

Definition ex_page : list byte := replicate 512 Byte.x00.

Lemma ex_pipe_steps :
  rtc pipe_step (mkPstate (pipe_init ex_page) [] [])
    (mkPstate (pipewrite (pipe_init ex_page) [Byte.x61; Byte.x62] false).1 [Byte.x61; Byte.x62] []).
Proof.
  eapply rtc_l; [|apply rtc_refl].
  exact (step_write (pipe_init ex_page) [] [] [Byte.x61; Byte.x62] false [Byte.x61; Byte.x62] _ WDone eq_refl eq_refl).
Qed.

Lemma pipe_fifo_witness :
  ∃ q, [Byte.x61; Byte.x62] = [] ++ q ∧ Z.of_nat (length q) ≤ PIPESIZE ∧
    pipe_holds (pipewrite (pipe_init ex_page) [Byte.x61; Byte.x62] false).1 q.
Proof. exact (pipe_fifo ex_page _ eq_refl ex_pipe_steps). Defined.

Lemma ex_pipe_holds : pipe_holds (pipe_init ex_page) [].
Proof. split; [reflexivity|cbn; lia|reflexivity|cbn; unfold PIPESIZE; lia|]. intros i c H. rewrite lookup_nil in H. discriminate H. Qed.

Lemma pipe_calls_witness :
  let p := pipe_init ex_page in
  (Z.of_nat (length (@nil byte) + length [Byte.x61]) ≤ PIPESIZE → (pipewrite p [Byte.x61] false).2 = WDone ∧
     pipe_holds (pipewrite p [Byte.x61] false).1 ([] ++ [Byte.x61])) ∧
  ([] = @nil byte → p_writeopen p ≠ 0 → piperead p 3 false = (p, if false then RFail else RSleep)) ∧
  ([] = @nil byte → p_writeopen p = 0 → (piperead p 3 false).2 = RDone []) ∧
  ([] ≠ @nil byte → (piperead p 3 false).2 = RDone (take 3 []) ∧ pipe_holds (piperead p 3 false).1 (drop 3 [])).
Proof. exact (pipe_calls (pipe_init ex_page) [] [Byte.x61] 3 false ex_pipe_holds). Defined.
