(* ===== verification/Kalloc.v ===== *)
(** * The physical page allocator (src/kalloc.c)

    Free pages are linked through their first word.  Memory is the kernel's view
    of physical memory, byte addressed; [kend] is the linker symbol [end], the
    first address after the kernel.  The lock makes each operation atomic. *)

From S2P Require Import Prelude CString.

Definition PGSIZE : Z := 4096.
Definition KERNBASE : Z := 2147483648.    (* 0x80000000 *)
Definition EXTMEM : Z := 1048576.         (* 0x100000 *)
Definition PHYSTOP : Z := 234881024.      (* 0xE000000 *)
Definition DEVSPACE : Z := 4261412864.    (* 0xFE000000 *)
Definition KERNLINK : Z := KERNBASE + EXTMEM.
Definition V2P (a : Z) : Z := u32 (a - KERNBASE).
Definition P2V (a : Z) : Z := u32 (a + KERNBASE).
Definition PGROUNDUP (sz : Z) : Z := Z.land (u32 (sz + PGSIZE - 1)) (Z.lnot (PGSIZE - 1)).
Definition PGROUNDDOWN (a : Z) : Z := Z.land a (Z.lnot (PGSIZE - 1)).

(** A 32-bit word of memory. *)
Definition ldw (m : mem) (a : Z) : Z := le_val [m a; m (a + 1); m (a + 2); m (a + 3)].
Definition stw (a v : Z) (m : mem) : mem := Kstring.store4 a v m.

Record kst : Type := mkKst {
  k_mem : mem;
  k_use_lock : Z;
  k_freelist : Z;
}.

Definition set_mem (m : mem) (s : kst) : kst := mkKst m (k_use_lock s) (k_freelist s).

Section kalloc.
Variable kend : Z.

(** Free the page of physical memory pointed at by v. *)
Definition kfree (v : Z) : M kst unit :=
  if negb (v mod PGSIZE =? 0) || (v <? kend) || (PHYSTOP <=? V2P v) then panic "kfree"
  else
    modify (λ s, set_mem (Kstring.memset v 1 PGSIZE (k_mem s)) s);;
    modify (λ s, mkKst (stw v (k_freelist s) (k_mem s)) (k_use_lock s) v).

(** Allocate one 4096-byte page of physical memory; 0 if there is none. *)
Definition kalloc : M kst Z :=
  s ← getS;
  let r := k_freelist s in
  (if r =? 0 then mret tt else modify (λ s, mkKst (k_mem s) (k_use_lock s) (ldw (k_mem s) r)));;
  mret r.

(** [for(; p + PGSIZE <= (char* )vend; p += PGSIZE) kfree(p)] *)
Fixpoint freerange_loop (p vend : Z) (fuel : nat) : M kst unit :=
  match fuel with
  | O => mret tt
  | S fuel => if p + PGSIZE <=? vend then kfree p;; freerange_loop (p + PGSIZE) vend fuel else mret tt
  end.

Definition freerange (vstart vend : Z) : M kst unit :=
  freerange_loop (PGROUNDUP vstart) vend (Z.to_nat ((vend - vstart) / PGSIZE + 1)).

Definition kinit1 (vstart vend : Z) : M kst unit :=
  modify (λ s, mkKst (k_mem s) 0 (k_freelist s));; freerange vstart vend.

Definition kinit2 (vstart vend : Z) : M kst unit :=
  freerange vstart vend;; modify (λ s, mkKst (k_mem s) 1 (k_freelist s)).
End kalloc.

(** ** Words of memory *)

Section words.
Implicit Types (m : mem) (a b v : Z).

Lemma store4_bytes a v m b :
  Kstring.store4 a v m b = if decide (a ≤ b < a + 4) then to_uchar (Z.shiftr v (8 * (b - a))) else m b.
Proof.
  unfold Kstring.store4, insert, fn_insert. repeat (case_decide; try lia); subst; try done;
    f_equal; f_equal; lia || (rewrite Z.sub_diag; by rewrite Z.shiftr_0_r).
Qed.

Lemma le_bytes_shiftr v : le_bytes 4 v = (λ i, to_uchar (Z.shiftr v (8 * i))) <$> [0; 1; 2; 3].
Proof.
  cbn [le_bytes fmap list_fmap]. rewrite !Z.shiftr_div_pow2 by lia. change (8 * 0) with 0. change (8 * 1) with 8.
  change (8 * 2) with 16. change (8 * 3) with 24. rewrite !Z.div_div by lia. by rewrite Z.div_1_r.
Qed.

Lemma ldw_stw a v m : 0 ≤ v < 2 ^ 32 → ldw (stw a v m) a = v.
Proof.
  intros Hv. unfold ldw, stw. rewrite !store4_bytes. rewrite !decide_True by lia.
  replace (a + 1 - a) with 1 by lia. replace (a + 2 - a) with 2 by lia. replace (a + 3 - a) with 3 by lia. rewrite Z.sub_diag.
  change [_; _; _; _] with ((λ i, to_uchar (Z.shiftr v (8 * i))) <$> [0; 1; 2; 3]).
  rewrite <-le_bytes_shiftr, le_val_bytes4. by apply u32_small.
Qed.

Lemma ldw_ext m m' a : (∀ b, a ≤ b < a + 4 → m' b = m b) → ldw m' a = ldw m a.
Proof. intros H. unfold ldw. by rewrite !H by lia. Qed.

Lemma stw_at a v m b : b < a ∨ a + 4 ≤ b → stw a v m b = m b.
Proof. intros H. unfold stw. rewrite store4_bytes. by rewrite decide_False by lia. Qed.

Lemma ldw_stw_ne a b v m : a + 4 ≤ b ∨ b + 4 ≤ a → ldw (stw b v m) a = ldw m a.
Proof. intros H. apply ldw_ext. intros c Hc. apply stw_at. lia. Qed.

Lemma ldw_range m a : 0 ≤ ldw m a < 2 ^ 32.
Proof. unfold ldw. pose proof (le_val_range [m a; m (a + 1); m (a + 2); m (a + 3)]). simpl in *. lia. Qed.
End words.

(** ** Page rounding *)

Lemma round_down a : PGROUNDDOWN a = PGSIZE * (a / PGSIZE).
Proof.
  unfold PGROUNDDOWN. change (PGSIZE - 1) with (Z.ones 12). rewrite <-Z.ldiff_land, Z.ldiff_ones_r by lia.
  rewrite Z.shiftr_div_pow2, Z.shiftl_mul_pow2 by lia. change (2 ^ 12) with PGSIZE. lia.
Qed.

Lemma round_up sz : 0 ≤ sz → sz + PGSIZE - 1 < 2 ^ 32 → PGROUNDUP sz = PGSIZE * ((sz + PGSIZE - 1) / PGSIZE).
Proof.
  intros H0 Hsz. unfold PGROUNDUP. rewrite u32_small by (unfold PGSIZE in *; lia). apply round_down.
Qed.

(** The least multiple of the page size from [sz] on. *)
Lemma round_up_spec sz :
  0 ≤ sz → sz + PGSIZE - 1 < 2 ^ 32 →
  sz ≤ PGROUNDUP sz < sz + PGSIZE ∧ PGROUNDUP sz mod PGSIZE = 0.
Proof.
  intros H0 Hsz. rewrite round_up by done. unfold PGSIZE in *.
  pose proof (Z_div_mod_eq_full (sz + 4096 - 1) 4096). pose proof (Z.mod_pos_bound (sz + 4096 - 1) 4096 ltac:(lia)).
  split; [lia|]. rewrite Z.mul_comm. apply Z_mod_mult.
Qed.

(** ** The free list *)

Section freelist.
Variable kend : Z.
Hypothesis Hkend : KERNBASE < kend.
Implicit Types (m : mem) (l : list Z).

(** A page that [kfree] accepts. *)
Definition page_ok (v : Z) : Prop := v mod PGSIZE = 0 ∧ kend ≤ v < KERNBASE + PHYSTOP.

(** The pages linked from [p]. *)
Fixpoint chain m (p : Z) l : Prop :=
  match l with
  | [] => p = 0
  | q :: l => p = q ∧ page_ok q ∧ chain m (ldw m q) l
  end.

Definition in_page (v a : Z) : Prop := v ≤ a < v + PGSIZE.

Lemma pages_apart v w a : page_ok v → page_ok w → in_page v a → in_page w a → v = w.
Proof.
  intros [Hv _] [Hw _] Ha Hb. unfold in_page, PGSIZE in *.
  pose proof (Z_div_mod_eq_full v 4096). pose proof (Z_div_mod_eq_full w 4096). lia.
Qed.

Lemma chain_pages m p l v : chain m p l → v ∈ l → page_ok v.
Proof.
  revert p. induction l as [|q l IH]; intros p Hc Hv; [set_solver|]. destruct Hc as (_ & Hq & Hc).
  apply elem_of_cons in Hv as [->|Hv]; [done|]. by eapply IH.
Qed.

(** The list depends on the memory of its own pages only. *)
Lemma chain_ext m m' p l :
  chain m p l → (∀ v a, v ∈ l → in_page v a → m' a = m a) → chain m' p l.
Proof.
  revert p. induction l as [|q l IH]; intros p Hc Hm; [done|]. destruct Hc as (-> & Hq & Hc).
  split; [done|]. split; [done|]. rewrite (ldw_ext m m') by (intros b Hb; apply (Hm q); [set_solver|unfold in_page, PGSIZE; lia]).
  apply IH; [done|]. intros v a Hv. apply Hm. set_solver.
Qed.

Lemma page_ok_nz v : page_ok v → v ≠ 0 ∧ 0 ≤ v < 2 ^ 32.
Proof. intros [_ Hv]. unfold KERNBASE, PHYSTOP in *. lia. Qed.

Lemma page_ok_kfree v : page_ok v → negb (v mod PGSIZE =? 0) || (v <? kend) || (PHYSTOP <=? V2P v) = false.
Proof.
  intros [Ha Hr]. rewrite Ha. cbn [Z.eqb negb orb]. rewrite (proj2 (Z.ltb_ge _ _)) by lia. cbn [orb].
  apply Z.leb_gt. unfold V2P. rewrite u32_small; unfold KERNBASE, PHYSTOP in *; lia.
Qed.

(** [kfree] pushes the page and touches nothing outside it. *)
Lemma kfree_spec s l v :
  chain (k_mem s) (k_freelist s) l → page_ok v → v ∉ l →
  wp (kfree kend v) (λ _ s', chain (k_mem s') (k_freelist s') (v :: l) ∧ k_freelist s' = v ∧ k_use_lock s' = k_use_lock s ∧
    ∀ a, ¬ in_page v a → k_mem s' a = k_mem s a) s.
Proof.
  intros Hc Hv Hn. unfold kfree. rewrite page_ok_kfree by done. unfold modify, mbind, M_bind, wp. cbn [k_mem k_freelist k_use_lock set_mem].
  set (m' := stw v _ _).
  assert (Hf : 0 ≤ k_freelist s < 2 ^ 32).
  { destruct l as [|q l]; [simpl in Hc; rewrite Hc; lia|]. destruct Hc as (-> & Hq & _). by apply page_ok_nz. }
  assert (Hout : ∀ a, ¬ in_page v a → m' a = k_mem s a).
  { intros a Ha. unfold in_page, PGSIZE in Ha. unfold m'. rewrite stw_at by lia.
    rewrite memset_spec by (unfold PGSIZE; lia). unfold PGSIZE. by rewrite decide_False by lia. }
  split_and!; [|done|done|done]. split; [done|]. split; [done|].
  assert (E : ldw m' v = k_freelist s) by (unfold m'; by apply ldw_stw). rewrite E.
  apply (chain_ext (k_mem s)); [done|]. intros w a Hw Ha. apply Hout. intros Hva.
  apply Hn. rewrite (pages_apart v w a); [done|done|by eapply chain_pages|done|done].
Qed.

(** [kalloc] pops the first page. *)
Lemma kalloc_spec s l :
  chain (k_mem s) (k_freelist s) l →
  wp kalloc (λ v s', k_mem s' = k_mem s ∧ k_use_lock s' = k_use_lock s ∧
    match l with
    | [] => v = 0 ∧ s' = s
    | w :: l' => v = w ∧ page_ok w ∧ chain (k_mem s') (k_freelist s') l'
    end) s.
Proof.
  intros Hc. unfold kalloc. apply wp_getS. cbv zeta. destruct l as [|w l]; simpl in Hc.
  - rewrite Hc. cbn [Z.eqb]. apply wp_bind, wp_ret, wp_ret. done.
  - destruct Hc as (Hf & Hw & Hc). rewrite Hf. destruct (page_ok_nz w Hw). rewrite (proj2 (Z.eqb_neq _ _)) by done.
    apply wp_modify. apply wp_ret. cbn. done.
Qed.

(** [freerange] frees every whole page of the range. *)
Lemma freerange_loop_spec s l p vend n fuel :
  chain (k_mem s) (k_freelist s) l → p + PGSIZE * n ≤ vend < p + PGSIZE * (n + 1) → 0 ≤ n → n < Z.of_nat fuel →
  p mod PGSIZE = 0 → kend ≤ p → vend ≤ KERNBASE + PHYSTOP → (∀ v, v ∈ l → v < p) →
  wp (freerange_loop kend p vend fuel) (λ _ s',
    chain (k_mem s') (k_freelist s') (reverse ((λ i, p + PGSIZE * i) <$> seqZ 0 n) ++ l) ∧
    (∀ a, a < p ∨ p + PGSIZE * n ≤ a → k_mem s' a = k_mem s a)) s.
Proof.
  revert s l p n. induction fuel as [|fuel IH]; intros s l p n Hc Hn H0 Hf Hp Hk Hv Hl; [lia|]. cbn [freerange_loop].
  destruct (Z.leb_spec (p + PGSIZE) vend) as [Hle|Hgt].
  - assert (Hn1 : 1 ≤ n) by (unfold PGSIZE in *; lia).
    apply wp_bind. eapply wp_mono; [apply (kfree_spec s l p Hc)|].
    + split; [done|]. unfold PGSIZE in *. lia.
    + intros Hin. specialize (Hl _ Hin). lia.
    + intros [] s1 (Hc1 & _ & _ & Hm1).
      eapply wp_mono; [apply (IH s1 (p :: l) (p + PGSIZE) (n - 1) Hc1); try (unfold PGSIZE in *; lia)|].
      * rewrite <-Zplus_mod_idemp_r, Z_mod_same_full, Z.add_0_r. done.
      * intros v [->|Hin]%elem_of_cons; [unfold PGSIZE; lia|]. specialize (Hl _ Hin). unfold PGSIZE. lia.
      * intros [] s2 (Hc2 & Hm2). split.
        -- rewrite (seqZ_cons 0 n) by lia. rewrite fmap_cons, reverse_cons, <-app_assoc. cbn [app].
           replace (p + PGSIZE * 0) with p by lia. rewrite Z.add_1_r, <-Z.sub_1_r in *. change (Z.succ 0) with 1.
           assert (E : (λ i, p + PGSIZE * i) <$> seqZ 1 (n - 1) = (λ i, p + PGSIZE + PGSIZE * i) <$> seqZ 0 (n - 1)).
           { assert (E1 : seqZ 1 (n - 1) = Z.add 1 <$> seqZ 0 (n - 1)) by (rewrite fmap_add_seqZ; f_equal).
             rewrite E1, <-list_fmap_compose. apply list_fmap_ext. intros i k _. unfold compose. lia. }
           rewrite E. exact Hc2.
        -- intros a Ha. rewrite Hm2 by (unfold PGSIZE in *; lia). apply Hm1. unfold in_page, PGSIZE in *. lia.
  - assert (n = 0) as -> by (unfold PGSIZE in *; lia). apply wp_ret. simpl. done.
Qed.

Lemma freerange_ok s vstart vend :
  k_freelist s = 0 → kend ≤ vstart ≤ vend → PGROUNDUP vstart ≤ vend ≤ KERNBASE + PHYSTOP →
  let p := PGROUNDUP vstart in let n := (vend - p) / PGSIZE in
  wp (freerange kend vstart vend) (λ _ s',
    chain (k_mem s') (k_freelist s') (reverse ((λ i, p + PGSIZE * i) <$> seqZ 0 n)) ∧
    ∀ a, a < p ∨ p + PGSIZE * n ≤ a → k_mem s' a = k_mem s a) s.
Proof.
  intros Hf Hk Hr p n.
  assert (Hv32 : 0 ≤ vstart ∧ vstart + PGSIZE - 1 < 2 ^ 32) by (unfold KERNBASE, PHYSTOP, PGSIZE in *; lia).
  destruct (round_up_spec vstart) as [Hp Hm]; [lia|lia|]. fold p in Hp, Hm. unfold freerange. fold p.
  pose proof (Z_div_mod_eq_full (vend - p) PGSIZE) as Hd. pose proof (Z.mod_pos_bound (vend - p) PGSIZE ltac:(reflexivity)). fold n in Hd.
  pose proof (freerange_loop_spec s [] p vend n (Z.to_nat ((vend - vstart) / PGSIZE + 1))) as Hl. rewrite app_nil_r in Hl.
  apply Hl; try done; try lia.
  - apply Z.div_pos; [lia|reflexivity].
  - assert (n ≤ (vend - vstart) / PGSIZE) by (apply Z.div_le_mono; [reflexivity|lia]).
    assert (0 ≤ n) by (apply Z.div_pos; [lia|reflexivity]). lia.
  - set_solver.
Qed.

(** [freerange] puts every whole page of the range on the free list. *)
Theorem freerange_frees_pages s vstart vend :
  k_freelist s = 0 → kend ≤ vstart ≤ vend → PGROUNDUP vstart ≤ vend ≤ KERNBASE + PHYSTOP →
  let p := PGROUNDUP vstart in let n := (vend - p) / PGSIZE in
  wp (freerange kend vstart vend) (λ _ s',
    chain (k_mem s') (k_freelist s') (reverse ((λ i, p + PGSIZE * i) <$> seqZ 0 n)) ∧
    ∀ a, a < p ∨ p + PGSIZE * n ≤ a → k_mem s' a = k_mem s a) s.
Proof. apply freerange_ok. Qed.

(** ** No page is handed out twice *)

(** The allocator with the pages [A] that its clients hold. *)
Record astate : Type := mkAstate { a_k : kst; a_pages : list Z }.

Inductive astep : astate → astate → Prop :=
| astep_alloc s A v s' :
    kalloc s = Ok v s' → v ≠ 0 → astep (mkAstate s A) (mkAstate s' (v :: A))
| astep_free s A1 v A2 s' :
    kfree kend v s = Ok tt s' → astep (mkAstate s (A1 ++ v :: A2)) (mkAstate s' (A1 ++ A2))
| astep_write s A m' :  (* clients write to the pages they hold *)
    (∀ a, (∀ v, v ∈ A → ¬ in_page v a) → m' a = k_mem s a) →
    astep (mkAstate s A) (mkAstate (set_mem m' s) A).

Definition alloc_inv (x : astate) : Prop :=
  ∃ l, chain (k_mem (a_k x)) (k_freelist (a_k x)) l ∧ NoDup (a_pages x ++ l) ∧ ∀ v, v ∈ a_pages x → page_ok v.

Lemma astep_inv x y : astep x y → alloc_inv x → alloc_inv y.
Proof.
  intros Hs (l & Hc & Hnd & Hok). destruct Hs as [s A v s' Hk Hv|s A1 v A2 s' Hk|s A m' Hm]; cbn [a_k a_pages] in *.
  - pose proof (kalloc_spec s l Hc) as Hw. unfold wp in Hw. rewrite Hk in Hw. destruct Hw as (_ & _ & Hl).
    destruct l as [|w l]; [by destruct Hl|]. destruct Hl as (-> & Hp & Hc'). exists l. cbn. split; [done|]. split.
    + rewrite (app_assoc A [w] l) in Hnd || idtac. apply NoDup_cons. rewrite NoDup_app in *.
      rewrite NoDup_cons in Hnd. set_solver.
    + intros u [->|Hu]%elem_of_cons; [done|]. by apply Hok.
  - assert (Hv : page_ok v) by (apply Hok; set_solver).
    assert (Hvl : v ∉ l) by (rewrite NoDup_app in Hnd; set_solver).
    pose proof (kfree_spec s l v Hc Hv Hvl) as Hw. unfold wp in Hw. rewrite Hk in Hw. destruct Hw as (Hc' & _ & _ & _).
    exists (v :: l). cbn. split; [done|]. split; [|set_solver].
    assert (Hperm : A1 ++ A2 ++ v :: l ≡ₚ (A1 ++ v :: A2) ++ l) by (rewrite <-app_assoc; apply Permutation_app_head; cbn; symmetry; apply Permutation_middle).
    rewrite <-app_assoc. by rewrite Hperm.
  - exists l. cbn. split; [|done]. apply (chain_ext (k_mem s)); [done|]. intros v a Hv Ha. apply Hm. intros w Hw Hwa.
    assert (v = w) as -> by (eapply pages_apart; [by eapply chain_pages|by apply Hok|done|done]).
    rewrite NoDup_app in Hnd. set_solver.
Qed.

(** C26. Over every sequence of allocations, frees of held pages and client writes inside held
    pages, no page is held twice, every held page can be freed without a panic, and the next
    allocation returns a page that nobody holds. *)
Theorem kalloc_exclusive s l y :
  chain (k_mem s) (k_freelist s) l → NoDup l → rtc astep (mkAstate s []) y →
  NoDup (a_pages y) ∧ (∀ v, v ∈ a_pages y → page_ok v ∧ v ≠ k_freelist (a_k y)) ∧
  (∀ v, v ∈ a_pages y → ∃ s', kfree kend v (a_k y) = Ok tt s') ∧
  (∃ v s', kalloc (a_k y) = Ok v s' ∧ (v ∉ a_pages y)).
Proof.
  intros Hc Hnd Hr. assert (Hinv : alloc_inv y).
  { assert (H0 : alloc_inv (mkAstate s [])) by (exists l; split_and!; [done|done|set_solver]).
    revert H0. induction Hr as [|a b c Hs _ IH]; [done|]. intros Ha. apply IH. by eapply astep_inv. }
  clear Hc Hnd Hr. destruct Hinv as (l' & Hc & Hnd & Hok). pose proof Hnd as (HA & Hd & _)%NoDup_app. split_and!; [done| | |].
  - intros v Hv. split; [by apply Hok|]. intros Hf. destruct l' as [|q l'].
    + simpl in Hc. destruct (page_ok_nz v (Hok v Hv)). lia.
    + destruct Hc as (E & _). apply (Hd v Hv). rewrite Hf, E. set_solver.
  - intros v Hv. pose proof (kfree_spec (a_k y) l' v Hc (Hok v Hv) (Hd v Hv)) as Hw. unfold wp in Hw.
    destruct (kfree kend v (a_k y)) as [[] s'|?|?]; [by exists s'|done|done].
  - pose proof (kalloc_spec (a_k y) l' Hc) as Hw. unfold wp in Hw.
    destruct (kalloc (a_k y)) as [v s'|?|?]; [|done|done]. exists v, s'. split; [done|].
    destruct Hw as (_ & _ & Hl). intros Hv. destruct l' as [|w l'].
    + destruct Hl as [-> _]. destruct (page_ok_nz 0 (Hok 0 Hv)). lia.
    + destruct Hl as (-> & _). apply (Hd w Hv). set_solver.
Qed.
End freelist.

(** ** A kernel of one page, three pages of memory *)

Definition ex_kend : Z := KERNBASE + 4096.
Definition ex_kst : kst := mkKst (λ _, Byte.x00) 0 0.
Lemma freerange_frees_pages_witness :
  wp (freerange ex_kend (KERNBASE + 5000) (KERNBASE + 20480)) (λ _ s',
    chain ex_kend (k_mem s') (k_freelist s')
      (reverse ((λ i, PGROUNDUP (KERNBASE + 5000) + PGSIZE * i) <$> seqZ 0 ((KERNBASE + 20480 - PGROUNDUP (KERNBASE + 5000)) / PGSIZE))) ∧
    ∀ a, a < PGROUNDUP (KERNBASE + 5000) ∨
         PGROUNDUP (KERNBASE + 5000) + PGSIZE * ((KERNBASE + 20480 - PGROUNDUP (KERNBASE + 5000)) / PGSIZE) ≤ a →
         k_mem s' a = k_mem ex_kst a) ex_kst.
Proof.
  apply (freerange_frees_pages ex_kend ltac:(reflexivity) ex_kst (KERNBASE + 5000) (KERNBASE + 20480)).
  - reflexivity.
  - unfold ex_kend. lia.
  - split; vm_compute; discriminate.
Defined.

(** The free list after boot, one allocation, a second one, and the first page given back. *)
Definition st_of {A} (r : res kst A) : kst := match r with Ok _ s => s | _ => ex_kst end.
Definition ex_boot : kst := st_of (freerange ex_kend (KERNBASE + 5000) (KERNBASE + 20480) ex_kst).
Definition ex_p1 : Z := k_freelist ex_boot.
Definition ex_s1 : kst := st_of (kalloc ex_boot).
Definition ex_p2 : Z := k_freelist ex_s1.
Definition ex_s2 : kst := st_of (kalloc ex_s1).
Definition ex_s3 : kst := st_of (kfree ex_kend ex_p1 ex_s2).

Lemma kalloc_returns s : kalloc s = Ok (k_freelist s) (st_of (kalloc s)).
Proof. unfold kalloc, mbind, M_bind, getS, modify, mret, M_ret. cbv beta iota. by destruct (k_freelist s =? 0). Qed.

Lemma ex_boot_chain : chain ex_kend (k_mem ex_boot) (k_freelist ex_boot) [KERNBASE + 16384; KERNBASE + 12288; KERNBASE + 8192].
Proof.
  assert (PGROUNDUP (KERNBASE + 5000) ≤ KERNBASE + 20480 ≤ KERNBASE + PHYSTOP) as Hr by (split; vm_compute; discriminate).
  assert (ex_kend ≤ KERNBASE + 5000 ≤ KERNBASE + 20480) as Hk by (unfold ex_kend; lia).
  pose proof (freerange_ok ex_kend eq_refl ex_kst _ _ eq_refl Hk Hr) as H.
  unfold ex_boot. cbv zeta in H. unfold wp in H. destruct (freerange _ _ _ _) as [[] s| |]; [|destruct H|destruct H]. destruct H as [H _].
  exact H.
Qed.

Lemma ex_steps : rtc (astep ex_kend) (mkAstate ex_boot []) (mkAstate ex_s3 [ex_p2]).
Proof.
  eapply rtc_l; [apply astep_alloc; [apply kalloc_returns|vm_compute; discriminate]|].
  eapply rtc_l; [apply astep_alloc; [apply kalloc_returns|vm_compute; discriminate]|].
  apply rtc_once. apply (astep_free ex_kend ex_s2 [ex_p2] ex_p1 [] ex_s3). reflexivity.
Qed.

Lemma kalloc_exclusive_witness :
  let y := mkAstate ex_s3 [ex_p2] in
  NoDup (a_pages y) ∧ (∀ v, v ∈ a_pages y → page_ok ex_kend v ∧ v ≠ k_freelist (a_k y)) ∧
  (∀ v, v ∈ a_pages y → ∃ s', kfree ex_kend v (a_k y) = Ok tt s') ∧
  (∃ v s', kalloc (a_k y) = Ok v s' ∧ (v ∉ a_pages y)).
Proof.
  apply (kalloc_exclusive ex_kend ltac:(reflexivity) ex_boot _ (mkAstate ex_s3 [ex_p2]) ex_boot_chain).
  - refine (bool_decide_unpack _ _). vm_compute. exact I.
  - exact ex_steps.
Defined.
