(* ===== verification/Vm.v ===== *)
(** * Page tables and address spaces (src/vm.c, src/mmu.h)

    A page directory is a page of 1024 words; a present entry holds the physical
    address of a page table of 1024 words.  Both live in the memory that the page
    allocator hands out, so every operation works on the allocator's state. *)

From S2P Require Import Prelude CString Kalloc.

Definition PTXSHIFT : Z := 12.
Definition PDXSHIFT : Z := 22.
Definition NPDENTRIES : Z := 1024.
Definition PDX (va : Z) : Z := Z.land (Z.shiftr va PDXSHIFT) 1023.
Definition PTX (va : Z) : Z := Z.land (Z.shiftr va PTXSHIFT) 1023.
Definition PGADDR (d t o : Z) : Z := u32 (Z.lor (Z.lor (Z.shiftl d PDXSHIFT) (Z.shiftl t PTXSHIFT)) o).
Definition PTE_P : Z := 1.
Definition PTE_W : Z := 2.
Definition PTE_U : Z := 4.
Definition PTE_ADDR (pte : Z) : Z := Z.land pte (Z.lnot 4095).
Definition PTE_FLAGS (pte : Z) : Z := Z.land pte 4095.

(** [*pte & PTE_P] as a condition. *)
Definition present (pte : Z) : bool := negb (Z.land pte PTE_P =? 0).

Definition load (a : Z) : M kst Z := gets (λ s, ldw (k_mem s) a).
Definition store (a v : Z) : M kst unit := modify (λ s, set_mem (stw a v (k_mem s)) s).
Definition memset (dst c n : Z) : M kst unit := modify (λ s, set_mem (Kstring.memset dst c n (k_mem s)) s).
Definition memmove (dst src n : Z) : M kst unit := modify (λ s, set_mem (Kstring.memmove dst src n (k_mem s)) s).

(** Bytes from outside this memory written at [dst]. *)
Fixpoint put_bytes (dst : Z) (bs : list byte) (m : mem) : mem :=
  match bs with
  | [] => m
  | b :: bs => put_bytes (dst + 1) bs (<[dst := b]> m)
  end.
Definition copy_in (dst : Z) (bs : list byte) : M kst unit := modify (λ s, set_mem (put_bytes dst bs (k_mem s)) s).

Section vm.
Variable kend : Z.  (* first address after the kernel *)
Variable data : Z.  (* first address after its read-only part *)

(** The address of the entry for [va]; 0 without a page table. *)
Definition walkpgdir (pgdir va : Z) (alloc : bool) : M kst Z :=
  let pde := pgdir + 4 * PDX va in
  e ← load pde;
  if present e then mret (P2V (PTE_ADDR e) + 4 * PTX va)
  else if negb alloc then mret 0
  else
    pgtab ← kalloc;
    if pgtab =? 0 then mret 0
    else
      memset pgtab 0 PGSIZE;;
      store pde (Z.lor (Z.lor (Z.lor (V2P pgtab) PTE_P) PTE_W) PTE_U);;
      mret (pgtab + 4 * PTX va).

Fixpoint mappages_loop (pgdir a last pa perm : Z) (fuel : nat) : M kst Z :=
  match fuel with
  | O => sleeps
  | S fuel =>
      pte ← walkpgdir pgdir a true;
      if pte =? 0 then mret (-1)
      else
        e ← load pte;
        if present e then panic "remap"
        else
          store pte (Z.lor (Z.lor pa perm) PTE_P);;
          if a =? last then mret 0
          else mappages_loop pgdir (u32 (a + PGSIZE)) last (u32 (pa + PGSIZE)) perm fuel
  end.

(** Map the pages of [va .. va + size) to physical memory from [pa] on. *)
Definition mappages (pgdir va size pa perm : Z) : M kst Z :=
  let a := PGROUNDDOWN va in
  let last := PGROUNDDOWN (u32 (va + size - 1)) in
  mappages_loop pgdir a last pa perm (Z.to_nat (u32 (last - a) / PGSIZE + 1)).

Fixpoint deallocuvm_loop (pgdir a oldsz : Z) (fuel : nat) : M kst unit :=
  match fuel with
  | O => sleeps
  | S fuel =>
      if a <? oldsz then
        pte ← walkpgdir pgdir a false;
        if pte =? 0 then deallocuvm_loop pgdir (u32 (u32 (PGADDR (PDX a + 1) 0 0 - PGSIZE) + PGSIZE)) oldsz fuel
        else
          e ← load pte;
          (if present e then
             let pa := PTE_ADDR e in
             if pa =? 0 then panic "kfree"
             else kfree kend (P2V pa);; store pte 0
           else mret tt);;
          deallocuvm_loop pgdir (u32 (a + PGSIZE)) oldsz fuel
      else mret tt
  end.

(** Give back the user pages from [newsz] up to [oldsz]. *)
Definition deallocuvm (pgdir oldsz newsz : Z) : M kst Z :=
  if oldsz <=? newsz then mret oldsz
  else deallocuvm_loop pgdir (PGROUNDUP newsz) oldsz (Z.to_nat (oldsz / PGSIZE + 2));; mret newsz.

(** [for(i = 0; i < NPDENTRIES; i++)] of [freevm], from [i] *)
Fixpoint freevm_tables (pgdir i : Z) (n : nat) : M kst unit :=
  match n with
  | O => mret tt
  | S n =>
      e ← load (pgdir + 4 * i);
      (if present e then kfree kend (P2V (PTE_ADDR e)) else mret tt);;
      freevm_tables pgdir (i + 1) n
  end.

Definition freevm (pgdir : Z) : M kst unit :=
  if pgdir =? 0 then panic "freevm: no pgdir"
  else
    deallocuvm pgdir KERNBASE 0;;
    freevm_tables pgdir 0 (Z.to_nat NPDENTRIES);;
    kfree kend pgdir.

(** The kernel's mappings, in every page table. *)
Record kmap : Type := mkKmap { virt : Z; phys_start : Z; phys_end : Z; km_perm : Z }.

Definition kmaps : list kmap :=
  [ mkKmap KERNBASE 0 EXTMEM PTE_W;
    mkKmap KERNLINK (V2P KERNLINK) (V2P data) 0;
    mkKmap data (V2P data) PHYSTOP PTE_W;
    mkKmap DEVSPACE DEVSPACE 0 PTE_W ].

Fixpoint setupkvm_loop (pgdir : Z) (ks : list kmap) : M kst Z :=
  match ks with
  | [] => mret pgdir
  | k :: ks =>
      r ← mappages pgdir (virt k) (u32 (phys_end k - phys_start k)) (phys_start k) (km_perm k);
      if r <? 0 then freevm pgdir;; mret 0 else setupkvm_loop pgdir ks
  end.

Definition setupkvm : M kst Z :=
  pgdir ← kalloc;
  if pgdir =? 0 then mret 0
  else
    memset pgdir 0 PGSIZE;;
    if DEVSPACE <? P2V PHYSTOP then panic "PHYSTOP too high" else setupkvm_loop pgdir kmaps.

(** Load the first program at address 0; [init] holds its [sz] bytes. *)
Definition inituvm (pgdir : Z) (init : list byte) (sz : Z) : M kst unit :=
  if PGSIZE <=? sz then panic "inituvm: more than a page"
  else
    mem ← kalloc;
    memset mem 0 PGSIZE;;
    mappages pgdir 0 PGSIZE (V2P mem) (Z.lor PTE_W PTE_U);;
    copy_in mem (take (Z.to_nat sz) init).

Fixpoint allocuvm_loop (pgdir a oldsz newsz : Z) (fuel : nat) : M kst Z :=
  match fuel with
  | O => sleeps
  | S fuel =>
      if a <? newsz then
        mem ← kalloc;
        if mem =? 0 then deallocuvm pgdir newsz oldsz;; mret 0
        else
          memset mem 0 PGSIZE;;
          r ← mappages pgdir a PGSIZE (V2P mem) (Z.lor PTE_W PTE_U);
          if r <? 0 then deallocuvm pgdir newsz oldsz;; kfree kend mem;; mret 0
          else allocuvm_loop pgdir (u32 (a + PGSIZE)) oldsz newsz fuel
      else mret newsz
  end.

(** Grow the process from [oldsz] to [newsz]; 0 on failure. *)
Definition allocuvm (pgdir oldsz newsz : Z) : M kst Z :=
  if KERNBASE <=? newsz then mret 0
  else if newsz <? oldsz then mret oldsz
  else allocuvm_loop pgdir (PGROUNDUP oldsz) oldsz newsz (Z.to_nat (newsz / PGSIZE + 2)).

Definition clearpteu (pgdir uva : Z) : M kst unit :=
  pte ← walkpgdir pgdir uva false;
  if pte =? 0 then panic "clearpteu"
  else e ← load pte; store pte (Z.land e (Z.lnot PTE_U)).

Fixpoint copyuvm_loop (pgdir d i sz : Z) (fuel : nat) : M kst Z :=
  match fuel with
  | O => sleeps
  | S fuel =>
      if i <? sz then
        pte ← walkpgdir pgdir i false;
        if pte =? 0 then panic "copyuvm: pte should exist"
        else
          e ← load pte;
          if negb (present e) then panic "copyuvm: page not present"
          else
            mem ← kalloc;
            if mem =? 0 then freevm d;; mret 0
            else
              memmove mem (P2V (PTE_ADDR e)) PGSIZE;;
              r ← mappages d i PGSIZE (V2P mem) (PTE_FLAGS e);
              if r <? 0 then kfree kend mem;; freevm d;; mret 0
              else copyuvm_loop pgdir d (u32 (i + PGSIZE)) sz fuel
      else mret d
  end.

(** A copy of the user part of [pgdir] for a child; 0 on failure. *)
Definition copyuvm (pgdir sz : Z) : M kst Z :=
  d ← setupkvm;
  if d =? 0 then mret 0 else copyuvm_loop pgdir d 0 sz (Z.to_nat (sz / PGSIZE + 2)).

(** The kernel address of a user page; 0 if the user cannot access it.  Without
    a page table the entry is read through a null pointer. *)
Definition uva2ka (pgdir uva : Z) : M kst Z :=
  pte ← walkpgdir pgdir uva false;
  if pte =? 0 then panic "null pointer"
  else
    e ← load pte;
    if Z.land e PTE_P =? 0 then mret 0
    else if Z.land e PTE_U =? 0 then mret 0
    else mret (P2V (PTE_ADDR e)).

Fixpoint copyout_loop (pgdir va : Z) (buf : list byte) (len : Z) (fuel : nat) : M kst Z :=
  match fuel with
  | O => sleeps
  | S fuel =>
      if 0 <? len then
        let va0 := PGROUNDDOWN va in
        pa0 ← uva2ka pgdir va0;
        if pa0 =? 0 then mret (-1)
        else
          let n := PGSIZE - (va - va0) in
          let n := if len <? n then len else n in
          copy_in (pa0 + (va - va0)) (take (Z.to_nat n) buf);;
          copyout_loop pgdir (u32 (va0 + PGSIZE)) (drop (Z.to_nat n) buf) (len - n) fuel
      else mret 0
  end.

(** Copy the [len] bytes [p] to user address [va]. *)
Definition copyout (pgdir va : Z) (p : list byte) (len : Z) : M kst Z :=
  copyout_loop pgdir va p len (Z.to_nat (len / PGSIZE + 3)).
End vm.
