(* ===== verification/PageTable.v ===== *)
(** * What a page directory maps

    The map from virtual page numbers to entries that a directory stands for, the
    pages it is made of, and what [walkpgdir] and [mappages] (src/vm.c) do to it. *)

From S2P Require Import Prelude CString Kalloc Vm.

(** ** Entries *)

Lemma PDX_eq va : 0 ≤ va < 2 ^ 32 → PDX va = va / PGSIZE / 1024.
Proof.
  intros Hv. unfold PDX, PDXSHIFT. change 1023 with (Z.ones 10). rewrite Z.land_ones, Z.shiftr_div_pow2 by lia.
  unfold PGSIZE. rewrite Z.div_div by lia. apply Z.mod_small. split; [apply Z.div_pos; lia|]. apply Z.div_lt_upper_bound; lia.
Qed.

Lemma PTX_eq va : PTX va = (va / PGSIZE) mod 1024.
Proof. unfold PTX, PTXSHIFT. change 1023 with (Z.ones 10). by rewrite Z.land_ones, Z.shiftr_div_pow2 by lia. Qed.

Lemma PTE_ADDR_eq e : PTE_ADDR e = PGSIZE * (e / PGSIZE).
Proof. exact (round_down e). Qed.

Lemma PTE_FLAGS_eq e : PTE_FLAGS e = e mod PGSIZE.
Proof. unfold PTE_FLAGS. change 4095 with (Z.ones 12). by rewrite Z.land_ones by lia. Qed.

Lemma present_odd e : present e = Z.odd e.
Proof. unfold present, PTE_P. change 1 with (Z.ones 1). rewrite Z.land_ones, Z.pow_1_r, Zmod_odd by lia. by destruct (Z.odd e). Qed.

(** An entry of a page-aligned address and flags. *)
Lemma lor_page x c : x mod PGSIZE = 0 → 0 ≤ c < PGSIZE → Z.lor x c = x + c.
Proof.
  intros Hx Hc. assert (E : Z.land x c = 0).
  { apply Z.bits_inj'. intros i Hi. rewrite Z.land_spec, Z.bits_0. destruct (decide (i < 12)).
    - rewrite <-(Z.mod_pow2_bits_low x 12 i) by lia. change (2 ^ 12) with PGSIZE. by rewrite Hx, Z.bits_0.
    - rewrite <-(Z.mod_small c (2 ^ 12)) by (unfold PGSIZE in Hc; lia). rewrite Z.mod_pow2_bits_high by lia. apply andb_false_r. }
  rewrite <-Z.lxor_lor by done. symmetry. by apply Z.add_nocarry_lxor.
Qed.

Lemma lor_low a b : 0 ≤ a < PGSIZE → 0 ≤ b < PGSIZE → 0 ≤ Z.lor a b < PGSIZE.
Proof.
  intros Ha Hb. assert (Z.lor a b mod PGSIZE = Z.lor a b) as <-; [|by apply Z.mod_pos_bound].
  change PGSIZE with (2 ^ 12) in *. by rewrite <-Z.land_ones, Z.land_lor_distr_l, !Z.land_ones, !Z.mod_small by lia.
Qed.

(** The entry that [mappages] stores. *)
Definition entry (pa perm : Z) : Z := Z.lor (Z.lor pa perm) PTE_P.

Lemma entry_spec pa perm :
  pa mod PGSIZE = 0 → 0 ≤ pa < 2 ^ 32 → 0 ≤ perm < PGSIZE →
  present (entry pa perm) = true ∧ PTE_ADDR (entry pa perm) = pa ∧ PTE_FLAGS (entry pa perm) = Z.lor perm PTE_P ∧ 0 ≤ entry pa perm < 2 ^ 32.
Proof.
  intros Hm Hpa Hp. unfold entry. rewrite <-Z.lor_assoc. set (c := Z.lor perm PTE_P).
  assert (Hodd : Z.odd c = true) by (unfold c; rewrite <-Z.bit0_odd, Z.lor_spec; apply orb_true_r).
  assert (Hc : 0 ≤ c < PGSIZE).
  { apply lor_low; [done|]. by unfold PTE_P, PGSIZE. }
  rewrite lor_page by done. pose proof (Z_div_mod_eq_full pa PGSIZE) as Hd.
  assert (Hq : (pa + c) / PGSIZE = pa / PGSIZE /\ (pa + c) mod PGSIZE = c).
  { replace (pa + c) with (c + (pa / PGSIZE) * PGSIZE) by lia. rewrite Z.div_add, Z.mod_add, Z.div_small, Z.mod_small by (done || (unfold PGSIZE; lia)). lia. }
  split_and!.
  - rewrite present_odd. rewrite Z.odd_add, Hodd. assert (Z.odd pa = false) as ->; [|done].
    replace pa with (PGSIZE * (pa / PGSIZE)) by lia. by rewrite Z.odd_mul.
  - rewrite PTE_ADDR_eq. lia.
  - rewrite PTE_FLAGS_eq. tauto.
  - lia.
  - unfold PGSIZE in *. lia.
Qed.

(** ** What a page directory maps *)

Lemma ldw_zero m a : (∀ b, a ≤ b < a + 4 → m b = Byte.x00) → ldw m a = ldw (λ _, Byte.x00) 0.
Proof. intros H. unfold ldw. by rewrite !H by lia. Qed.

Section tables.
Variable kend : Z.
Hypothesis Hkend : KERNBASE < kend.
Implicit Types (m : mem) (d v : Z) (l : list Z).

Local Abbreviation page_ok := (page_ok kend).
Local Abbreviation chain := (chain kend).

Definition pde m d (i : Z) : Z := ldw m (d + 4 * i).
Definition table (e : Z) : Z := P2V (PTE_ADDR e).

(** The address of the entry of virtual page [n], and the entry, 0 without a page table. *)
Definition slot m d (n : Z) : Z := table (pde m d (n / 1024)) + 4 * (n mod 1024).
Definition pte m d (n : Z) : Z := if present (pde m d (n / 1024)) then ldw m (slot m d n) else 0.

(** The pages that make up the directory. *)
Definition owns m d v : Prop := v = d ∨ ∃ i, 0 ≤ i < 1024 ∧ present (pde m d i) = true ∧ v = table (pde m d i).

Record dir_ok m d : Prop := mkDirOk {
  dir_page : page_ok d;
  dir_table i : 0 ≤ i < 1024 → present (pde m d i) = true → page_ok (table (pde m d i)) ∧ table (pde m d i) ≠ d;
  dir_inj i j : 0 ≤ i < 1024 → 0 ≤ j < 1024 → present (pde m d i) = true → present (pde m d j) = true →
    table (pde m d i) = table (pde m d j) → i = j;
}.

(** The directory beside a free list [l] that shares no page with it. *)
Record vm_inv (s : kst) d l : Prop := mkVmInv {
  vi_chain : chain (k_mem s) (k_freelist s) l;
  vi_nodup : NoDup l;
  vi_dir : dir_ok (k_mem s) d;
  vi_apart v : v ∈ l → ¬ owns (k_mem s) d v;
}.

Lemma owns_page m d v : dir_ok m d → owns m d v → page_ok v.
Proof. intros Hd [->|(i & Hi & Hp & ->)]; [by apply (dir_page m)|]. by apply (dir_table m d Hd). Qed.

Lemma slot_page m d n :
  dir_ok m d → 0 ≤ n < 2 ^ 20 → present (pde m d (n / 1024)) = true →
  let t := table (pde m d (n / 1024)) in
  owns m d t ∧ t ≠ d ∧ t ≤ slot m d n ∧ slot m d n + 4 ≤ t + PGSIZE.
Proof.
  intros Hd Hn Hp t. assert (Hi : 0 ≤ n / 1024 < 1024) by (split; [apply Z.div_pos; lia|apply Z.div_lt_upper_bound; lia]).
  destruct (dir_table m d Hd _ Hi Hp). pose proof (Z.mod_pos_bound n 1024 ltac:(lia)).
  split_and!; [right; eauto|done|unfold slot, t; lia|unfold slot, t, PGSIZE; lia].
Qed.

(** What the directory maps depends on its own pages only. *)
Lemma pde_frame m m' d i :
  0 ≤ i < 1024 → (∀ a, in_page d a → m' a = m a) → pde m' d i = pde m d i.
Proof. intros Hi Hm. apply ldw_ext. intros b Hb. apply Hm. unfold in_page, PGSIZE. lia. Qed.

Lemma owns_ext m m' d v : (∀ i, 0 ≤ i < 1024 → pde m' d i = pde m d i) → owns m' d v ↔ owns m d v.
Proof. intros E. unfold owns. split; (intros [->|(i & Hi & Hp & ->)]; [by left|right; exists i]); by rewrite E in * || (rewrite <-E in *). Qed.

Lemma dir_ok_ext m m' d : (∀ i, 0 ≤ i < 1024 → pde m' d i = pde m d i) → dir_ok m d → dir_ok m' d.
Proof.
  intros E [Hp Ht Hi]. split; [done| |].
  - intros i Hr. rewrite E by done. by apply Ht.
  - intros i j Hr1 Hr2. rewrite !E by done. by apply Hi.
Qed.

Lemma vpn_dir n : 0 ≤ n < 2 ^ 20 → 0 ≤ n / 1024 < 1024.
Proof. intros. split; [apply Z.div_pos; lia|apply Z.div_lt_upper_bound; lia]. Qed.

Lemma dir_frame m m' d :
  dir_ok m d → (∀ v a, owns m d v → in_page v a → m' a = m a) →
  (∀ i, 0 ≤ i < 1024 → pde m' d i = pde m d i) ∧ (∀ n, 0 ≤ n < 2 ^ 20 → pte m' d n = pte m d n).
Proof.
  intros Hd Hm. assert (Hpde : ∀ i, 0 ≤ i < 1024 → pde m' d i = pde m d i).
  { intros i Hi. apply pde_frame; [done|]. intros a. apply Hm. by left. }
  split; [done|]. intros n Hn. unfold pte, slot. rewrite Hpde by (by apply vpn_dir). destruct (present _) eqn:Hp; [|done].
  destruct (slot_page m d n Hd Hn Hp) as (Ho & _ & H1 & H2). apply ldw_ext. intros b Hb. apply (Hm _ b Ho). unfold in_page, slot in *. lia.
Qed.

(** Storing an entry changes the mapping of its page only. *)
Lemma store_slot m d n e :
  dir_ok m d → 0 ≤ n < 2 ^ 20 → present (pde m d (n / 1024)) = true → 0 ≤ e < 2 ^ 32 →
  let m' := stw (slot m d n) e m in
  (∀ i, 0 ≤ i < 1024 → pde m' d i = pde m d i) ∧
  (∀ k, 0 ≤ k < 2 ^ 20 → pte m' d k = if decide (k = n) then e else pte m d k) ∧
  (∀ a, ¬ in_page (table (pde m d (n / 1024))) a → m' a = m a).
Proof.
  intros Hd Hn Hp He m'. destruct (slot_page m d n Hd Hn Hp) as (Ho & Hne & H1 & H2). set (t := table (pde m d (n / 1024))) in *.
  assert (Hout : ∀ a, ¬ in_page t a → m' a = m a) by (intros a Ha; apply stw_at; unfold in_page in Ha; lia).
  assert (Hpt : page_ok t) by (by eapply owns_page).
  assert (Hpde : ∀ i, 0 ≤ i < 1024 → pde m' d i = pde m d i).
  { intros i Hi. apply pde_frame; [done|]. intros a Ha. apply Hout. intros Hb. apply Hne.
    by apply (pages_apart kend t d a Hpt (dir_page _ _ Hd)). }
  split_and!; [done| |done]. intros k Hk. unfold pte at 1. unfold slot. rewrite Hpde by (by apply vpn_dir). case_decide as E.
  - subst k. rewrite Hp. by apply ldw_stw.
  - unfold pte. destruct (present (pde m d (k / 1024))) eqn:Hpk; [|done]. unfold slot.
    destruct (slot_page m d k Hd Hk Hpk) as (Ho' & Hne' & H1' & H2').
    destruct (decide (k / 1024 = n / 1024)) as [Ed|Ed].
    + apply ldw_stw_ne. unfold slot in *. rewrite Ed. pose proof (Z_div_mod_eq_full k 1024). pose proof (Z_div_mod_eq_full n 1024). lia.
    + apply ldw_ext. intros b Hb. apply Hout. intros Hb'. apply Ed. apply (dir_inj m d Hd); try done; [by apply vpn_dir..|].
      symmetry. apply (pages_apart kend t _ b Hpt); [by eapply owns_page|done|]. unfold in_page, slot in *. lia.
Qed.

(** The state after pages of the free list [l] became part of the directory. *)
Record grow m d l m' l' : Prop := mkGrow {
  gr_sub : l' ⊆ l;
  gr_mono v : owns m d v → owns m' d v;
  gr_new v : owns m' d v → owns m d v ∨ (v ∈ l ∧ (v ∉ l'));
  gr_all v : v ∈ l → v ∈ l' ∨ owns m' d v;
  gr_mem a : (∀ v, owns m' d v → ¬ in_page v a) → m' a = m a;
}.

Lemma grow_refl m d l : grow m d l m l.
Proof. split; auto. Qed.

Lemma grow_trans m d l m1 l1 m2 l2 : grow m d l m1 l1 → grow m1 d l1 m2 l2 → grow m d l m2 l2.
Proof. clear Hkend kend.
  intros [S1 M1 N1 A1 E1] [S2 M2 N2 A2 E2]. split.
  - set_solver.
  - auto.
  - intros v Hv. destruct (N2 v Hv) as [Ho|[Hi Hn]]; [|right; set_solver]. destruct (N1 v Ho) as [?|[? ?]]; [by left|right; set_solver].
  - intros v Hv. destruct (A1 v Hv); auto.
  - intros a Ha. rewrite E2, E1; [done| |done]. intros v Hv. apply Ha. auto.
Qed.

Lemma V2P_page t : page_ok t → V2P t = t - KERNBASE ∧ V2P t mod PGSIZE = 0 ∧ 0 ≤ V2P t < 2 ^ 32 ∧ P2V (V2P t) = t.
Proof.
  intros [Ha Hr]. assert (E : V2P t = t - KERNBASE) by (unfold V2P; apply u32_small; unfold KERNBASE, PHYSTOP in *; lia).
  rewrite E. split_and!; [done| |unfold KERNBASE, PHYSTOP in *; lia..|].
  - by rewrite Zminus_mod, Ha.
  - unfold P2V. rewrite u32_small; unfold KERNBASE, PHYSTOP in *; lia.
Qed.

(** The entry that maps page [t]. *)
Lemma entry_page t perm :
  page_ok t → 0 ≤ perm < PGSIZE →
  let e := entry (V2P t) perm in
  present e = true ∧ table e = t ∧ PTE_FLAGS e = Z.lor perm PTE_P ∧ 0 ≤ e < 2 ^ 32.
Proof.
  intros Ht Hp e. destruct (V2P_page t Ht) as (_ & Hm & Hr & E). destruct (entry_spec (V2P t) perm Hm Hr Hp) as (H1 & H2 & H3 & H4).
  unfold table. fold e in H1, H2, H3, H4. rewrite H2. done.
Qed.

(** A fresh zeroed page installed as the table of directory entry [i]. *)
Lemma install_table m d i t :
  dir_ok m d → 0 ≤ i < 1024 → present (pde m d i) = false → page_ok t → ¬ owns m d t →
  let m' := stw (d + 4 * i) (Z.lor (Z.lor (Z.lor (V2P t) PTE_P) PTE_W) PTE_U) (Kstring.memset t 0 PGSIZE m) in
  dir_ok m' d ∧ present (pde m' d i) = true ∧ table (pde m' d i) = t ∧
  (∀ v, owns m' d v ↔ owns m d v ∨ v = t) ∧
  (∀ k, 0 ≤ k < 2 ^ 20 → pte m' d k = pte m d k) ∧
  (∀ a, ¬ in_page t a → ¬ in_page d a → m' a = m a).
Proof.
  intros Hd Hi Hp Ht Hno m'.
  assert (Ee : Z.lor (Z.lor (Z.lor (V2P t) PTE_P) PTE_W) PTE_U = entry (V2P t) 6) by (unfold entry; by rewrite <-!Z.lor_assoc).
  destruct (entry_page t 6 Ht) as (Hpe & Hte & _ & Hre); [done|]. rewrite <-Ee in *. set (e := Z.lor _ PTE_U) in *. clear Ee.
  assert (Hdt : ∀ a, in_page d a → ¬ in_page t a).
  { intros a H1 H2. apply Hno. left. by apply (pages_apart kend t d a Ht (dir_page _ _ Hd)). }
  assert (Hin : ∀ j, 0 ≤ j < 1024 → ∀ b, d + 4 * j ≤ b < d + 4 * j + 4 → in_page d b) by (unfold in_page, PGSIZE; lia).
  assert (Hz : ∀ a, ¬ in_page t a → Kstring.memset t 0 PGSIZE m a = m a).
  { intros a Ha. rewrite memset_spec by done. by rewrite decide_False. }
  assert (Hpde : ∀ j, 0 ≤ j < 1024 → pde m' d j = if decide (j = i) then e else pde m d j).
  { intros j Hj. unfold pde, m'. case_decide as E; [subst j; by apply ldw_stw|]. rewrite ldw_stw_ne by lia.
    apply ldw_ext. intros b Hb. apply Hz, Hdt. by apply (Hin j). }
  assert (Hout : ∀ a, ¬ in_page t a → ¬ in_page d a → m' a = m a).
  { intros a Ha Hb. unfold m'. rewrite stw_at; [by apply Hz|]. unfold in_page, PGSIZE in Hb. lia. }
  assert (Hi' : pde m' d i = e) by (rewrite Hpde by done; by rewrite decide_True).
  split_and!; [| by rewrite Hi' | by rewrite Hi' | | |done].
  - split; [by apply (dir_page m)| |].
    + intros j Hj. rewrite Hpde by done. case_decide; [|by apply (dir_table m d Hd)]. rewrite Hte. intros _. split; [done|].
      intros ->. apply Hno. by left.
    + intros j k Hj Hk. rewrite !Hpde by done.
      destruct (decide (j = i)) as [->|], (decide (k = i)) as [->|]; [done| | |by apply (dir_inj m d Hd)].
      * intros _ Hpk. rewrite Hte. intros E. destruct Hno. right. by exists k.
      * intros Hpj _. rewrite Hte. intros E. destruct Hno. right. by exists j.
  - intros v. split.
    + intros [->|(j & Hj & Hpj & ->)]; [left; by left|]. rewrite Hpde in * by done. case_decide; [by right|]. left. right. by exists j.
    + intros [[->|(j & Hj & Hpj & ->)]| ->]; [by left| |].
      * right. exists j. rewrite Hpde by done. case_decide; [congruence|done].
      * right. exists i. by rewrite Hi'.
  - intros k Hk. pose proof (vpn_dir k Hk) as Hkd. unfold pte, slot. rewrite Hpde by done. case_decide as E.
    + subst i. rewrite Hpe, Hp, Hte. pose proof (Z.mod_pos_bound k 1024 ltac:(lia)).
      assert (Ez : ldw m' (t + 4 * (k mod 1024)) = ldw (λ _, Byte.x00) 0); [|by rewrite Ez].
      apply ldw_zero. intros b Hb. unfold m'. rewrite stw_at; [rewrite memset_spec by done; rewrite decide_True; [done|unfold PGSIZE; lia]|].
      assert (Hnd : ¬ in_page d b) by (intros Hb'; apply (Hdt b Hb'); unfold in_page, PGSIZE; lia). unfold in_page, PGSIZE in Hnd. lia.
    + destruct (present (pde m d (k / 1024))) eqn:Hpk; [|done].
      destruct (slot_page m d k Hd Hk Hpk) as (Ho & Hne & H1 & H2). unfold slot in *. apply ldw_ext. intros b Hb. apply Hout; intros Hb'.
      * apply Hno. rewrite (pages_apart kend t (table (pde m d (k / 1024))) b); [done|done|by eapply owns_page|done|unfold in_page; lia].
      * apply Hne. apply (pages_apart kend _ d b); [by eapply owns_page|by apply (dir_page m)|unfold in_page; lia|done].
Qed.

Lemma walkpgdir_look s d va :
  0 ≤ va < 2 ^ 32 →
  wp (walkpgdir d va false) (λ p s', s' = s ∧
    p = if present (pde (k_mem s) d (va / PGSIZE / 1024)) then slot (k_mem s) d (va / PGSIZE) else 0) s.
Proof.
  intros Hv. unfold walkpgdir, load, gets, wp, mbind, M_bind. rewrite PDX_eq, PTX_eq by done. fold (pde (k_mem s) d (va / PGSIZE / 1024)).
  by destruct (present _).
Qed.

Lemma vpn_range va : 0 ≤ va < 2 ^ 32 → 0 ≤ va / PGSIZE < 2 ^ 20.
Proof. intros. unfold PGSIZE. split; [apply Z.div_pos; lia|apply Z.div_lt_upper_bound; lia]. Qed.

Lemma slot_nz m d n : dir_ok m d → 0 ≤ n < 2 ^ 20 → present (pde m d (n / 1024)) = true → slot m d n ≠ 0.
Proof.
  intros Hd Hn Hp. destruct (slot_page m d n Hd Hn Hp) as (Ho & _ & H1 & _).
  destruct (owns_page _ _ _ Hd Ho) as [_ Hr]. unfold KERNBASE in *. lia.
Qed.

Lemma walkpgdir_alloc s d l va :
  0 ≤ va < 2 ^ 32 → vm_inv s d l → let n := va / PGSIZE in
  wp (walkpgdir d va true) (λ p s',
    (p = 0 ∧ s' = s ∧ l = []) ∨
    (p = slot (k_mem s') d n ∧ p ≠ 0 ∧ present (pde (k_mem s') d (n / 1024)) = true ∧
     ∃ l', vm_inv s' d l' ∧ grow (k_mem s) d l (k_mem s') l' ∧ ∀ k, 0 ≤ k < 2 ^ 20 → pte (k_mem s') d k = pte (k_mem s) d k)) s.
Proof.
  intros Hv [Hc Hnd Hd Hap] n. pose proof (vpn_range va Hv) as Hn. fold n in Hn. unfold walkpgdir.
  rewrite PDX_eq, PTX_eq by done. fold n. apply wp_bind. unfold load, gets, wp at 1. fold (pde (k_mem s) d (n / 1024)).
  destruct (present _) eqn:Hp.
  - apply wp_ret. right. fold (table (pde (k_mem s) d (n / 1024))). fold (slot (k_mem s) d n).
    split_and!; [done|by apply slot_nz|done|]. exists l. split_and!; [by split|apply grow_refl|done].
  - cbn [negb]. apply wp_bind. eapply wp_mono; [by eapply kalloc_spec|]. intros t s1 (Em & _ & Hl). destruct l as [|w l'].
    + destruct Hl as [-> ->]. cbn [Z.eqb]. apply wp_ret. by left.
    + destruct Hl as (-> & Hw & Hc1). destruct (page_ok_nz kend Hkend w Hw) as [Hnz _]. rewrite (proj2 (Z.eqb_neq _ _) Hnz).
      assert (How : ¬ owns (k_mem s) d w) by (apply Hap; set_solver). apply NoDup_cons in Hnd as [Hwl Hnd].
      destruct (install_table (k_mem s) d (n / 1024) w Hd (vpn_dir n Hn) Hp Hw How) as (Hd' & Hp' & Ht' & Ho' & Hpte & Hout).
      unfold memset, store. do 2 apply wp_modify. apply wp_ret. cbn [k_mem set_mem k_freelist] in *. rewrite Em. rewrite Em in Hc1.
      set (m' := stw _ _ _) in *.
      right. assert (Es : w + 4 * (n mod 1024) = slot m' d n) by (unfold slot; by rewrite Ht'). rewrite Es.
      split_and!; [done|by apply slot_nz|done|]. exists l'. split_and!; [split; cbn|split|done].
      * eapply (chain_ext kend); [done..|]. intros v a Hvl Ha. assert (page_ok v) by (by eapply chain_pages). apply Hout; intros Hb.
        -- apply Hwl. by rewrite <-(pages_apart kend v w a).
        -- apply (Hap v); [set_solver|]. left. by apply (pages_apart kend v d a); [|apply (dir_page _ _ Hd)|..].
      * done.
      * done.
      * intros v Hvl. rewrite Ho'. intros [Hov| ->]; [|done]. apply (Hap v); [set_solver|done].
      * set_solver.
      * intros v Hov. apply Ho'. by left.
      * intros v Hov. apply Ho' in Hov as [Hov| ->]; [by left|right]. set_solver.
      * intros v [->|Hv']%elem_of_cons; [right; apply Ho'; by right|by left].
      * intros a Ha. apply Hout; apply Ha; apply Ho'; [by right|]. left. by left.
Qed.

(** A change inside the directory's own pages that keeps its entries. *)
Lemma vm_inv_inside s d l m' :
  vm_inv s d l → (∀ i, 0 ≤ i < 1024 → pde m' d i = pde (k_mem s) d i) →
  (∀ a, (∀ v, owns (k_mem s) d v → ¬ in_page v a) → m' a = k_mem s a) →
  vm_inv (set_mem m' s) d l ∧ grow (k_mem s) d l m' l.
Proof.
  intros [Hc Hnd Hd Hap] Hpde Hm. pose proof (λ v, owns_ext (k_mem s) m' d v Hpde) as Ho. split; split; cbn.
  - eapply (chain_ext kend); [done..|]. intros v a Hv Ha. apply Hm. intros w Hw Hwa. apply (Hap v Hv).
    rewrite (pages_apart kend v w a); [done|by eapply chain_pages|by eapply owns_page|done|done].
  - done.
  - by eapply dir_ok_ext.
  - intros v Hv. rewrite Ho. auto.
  - done.
  - intros v. by rewrite Ho.
  - intros v. rewrite Ho. by left.
  - by left.
  - intros a Ha. apply Hm. intros v Hv. apply Ha. by apply Ho.
Qed.

Lemma store_inv s d l n e :
  vm_inv s d l → 0 ≤ n < 2 ^ 20 → present (pde (k_mem s) d (n / 1024)) = true → 0 ≤ e < 2 ^ 32 →
  let m' := stw (slot (k_mem s) d n) e (k_mem s) in
  vm_inv (set_mem m' s) d l ∧ grow (k_mem s) d l m' l ∧
  (∀ k, 0 ≤ k < 2 ^ 20 → pte m' d k = if decide (k = n) then e else pte (k_mem s) d k).
Proof.
  intros Hi Hn Hp He m'. destruct (store_slot (k_mem s) d n e (vi_dir _ _ _ Hi) Hn Hp He) as (H1 & H2 & H3). fold m' in H1, H2, H3.
  destruct (vm_inv_inside s d l m' Hi H1) as [Hi' Hg]; [|done]. intros a Ha. apply H3. apply Ha.
  right. exists (n / 1024). split; [by apply vpn_dir|done].
Qed.

Lemma u32_aligned x : x mod PGSIZE = 0 → u32 x mod PGSIZE = 0.
Proof. intros H. unfold u32. rewrite Z.mod_mod_divide; [done|]. by exists (2 ^ 20). Qed.

(** [mappages] maps the pages [n .. n + k], or fails for want of a page after a first part of them. *)
Lemma mappages_loop_spec s d l n k pa perm fuel :
  vm_inv s d l → 0 ≤ n → 0 ≤ k → n + k < 2 ^ 20 → k < Z.of_nat fuel →
  pa mod PGSIZE = 0 → 0 ≤ pa < 2 ^ 32 → 0 ≤ perm < PGSIZE →
  (∀ j, n ≤ j ≤ n + k → present (pte (k_mem s) d j) = false) →
  wp (mappages_loop d (PGSIZE * n) (PGSIZE * (n + k)) pa perm fuel) (λ r s', ∃ l' c,
    vm_inv s' d l' ∧ grow (k_mem s) d l (k_mem s') l' ∧
    (∀ j, 0 ≤ j < 2 ^ 20 → pte (k_mem s') d j =
       if decide (n ≤ j < n + c) then entry (u32 (pa + PGSIZE * (j - n))) perm else pte (k_mem s) d j) ∧
    ((r = 0 ∧ c = k + 1) ∨ (r = -1 ∧ 0 ≤ c ≤ k ∧ l' = []))) s.
Proof.
  revert s l n k pa. induction fuel as [|fuel IH]; intros s l n k pa Hi H0 Hk Hnk Hf Hal Hpa Hperm Hno; [lia|]. cbn [mappages_loop].
  assert (Hva : 0 ≤ PGSIZE * n < 2 ^ 32) by (unfold PGSIZE; lia).
  assert (Hdiv : PGSIZE * n / PGSIZE = n) by (rewrite Z.mul_comm; by apply Z.div_mul).
  apply wp_bind. eapply wp_mono; [by eapply walkpgdir_alloc|]. rewrite Hdiv. intros p s1 [(-> & -> & ->)|(-> & Hnz & Hp1 & l1 & Hi1 & Hg1 & Hpte1)].
  - cbn [Z.eqb]. apply wp_ret. exists [], 0. split_and!; [done|apply grow_refl| |right; split_and!; [done|lia|lia|done]].
    intros j Hj. by rewrite decide_False by lia.
  - rewrite (proj2 (Z.eqb_neq _ _) Hnz). apply wp_bind. unfold load, gets, wp at 1.
    assert (Ep : ldw (k_mem s1) (slot (k_mem s1) d n) = pte (k_mem s1) d n) by (unfold pte; by rewrite Hp1). rewrite Ep.
    rewrite Hpte1, Hno by lia. unfold store. apply wp_modify. fold (entry pa perm).
    destruct (entry_spec pa perm Hal Hpa Hperm) as (Hpe & _ & _ & Her).
    destruct (store_inv s1 d l1 n (entry pa perm) Hi1) as (Hi2 & Hg2 & Hpte2); [lia|done|done|].
    set (m2 := stw _ _ _) in *. set (s2 := set_mem m2 s1) in *.
    assert (Hk2 : k_mem s2 = m2) by done.
    destruct (Z.eqb_spec (PGSIZE * n) (PGSIZE * (n + k))) as [E|E].
    + assert (k = 0) as -> by (unfold PGSIZE in E; lia). apply wp_ret. exists l1, 1.
      split_and!; [done|by eapply grow_trans| |by left]. intros j Hj. rewrite Hk2, Hpte2 by done. case_decide as Ej.
      * subst j. rewrite decide_True by lia. rewrite Z.sub_diag, Z.mul_0_r, Z.add_0_r, u32_small by done. done.
      * rewrite decide_False by lia. by apply Hpte1.
    + assert (1 ≤ k) by (destruct (decide (k = 0)) as [->|]; [destruct E; f_equal; lia|lia]).
      rewrite (u32_small (PGSIZE * n + PGSIZE)) by (unfold PGSIZE; lia).
      replace (PGSIZE * n + PGSIZE) with (PGSIZE * (n + 1)) by lia. replace (n + k) with (n + 1 + (k - 1)) by lia.
      eapply wp_mono; [apply (IH s2 l1 (n + 1) (k - 1) (u32 (pa + PGSIZE)) Hi2); try lia; try done|].
      * apply u32_aligned. by rewrite Zplus_mod, Hal.
      * apply u32_range.
      * intros j Hj. rewrite Hk2, Hpte2 by lia. rewrite decide_False by lia. rewrite Hpte1 by lia. apply Hno. lia.
      * intros r s3 (l3 & c & Hi3 & Hg3 & Hpte3 & Hr). exists l3, (c + 1).
        split_and!; [done|eapply grow_trans; [done|]; by eapply grow_trans| |destruct Hr as [[-> ->]|(-> & ? & ->)]; [left; lia|right; split_and!; [done|lia|lia|done]]].
        intros j Hj. rewrite Hpte3 by done. rewrite Hk2, Hpte2, Hpte1 by done.
        assert (0 ≤ c) by (destruct Hr; lia). repeat (case_decide; try lia); try done.
        -- f_equal. rewrite u32_add_l. f_equal. lia.
        -- subst j. rewrite Z.sub_diag, Z.mul_0_r, Z.add_0_r, u32_small by done. done.
Qed.

Lemma mappages_ok s d l va size pa perm :
  vm_inv s d l → 0 ≤ va → 1 ≤ size → va + size ≤ 2 ^ 32 → pa mod PGSIZE = 0 → 0 ≤ pa < 2 ^ 32 → 0 ≤ perm < PGSIZE →
  let n := va / PGSIZE in let top := (va + size - 1) / PGSIZE + 1 in
  (∀ j, n ≤ j < top → present (pte (k_mem s) d j) = false) →
  wp (mappages d va size pa perm) (λ r s', ∃ l' c,
    vm_inv s' d l' ∧ grow (k_mem s) d l (k_mem s') l' ∧
    (∀ j, 0 ≤ j < 2 ^ 20 → pte (k_mem s') d j =
       if decide (n ≤ j < c) then entry (u32 (pa + PGSIZE * (j - n))) perm else pte (k_mem s) d j) ∧
    ((r = 0 ∧ c = top) ∨ (r = -1 ∧ n ≤ c < top ∧ l' = []))) s.
Proof.
  intros Hi Hva Hsz Hend Hal Hpa Hperm n top Hno. unfold mappages. rewrite (u32_small (va + size - 1)) by lia. rewrite !round_down. fold n.
  assert (Hle : n ≤ top - 1) by (unfold n, top; rewrite Z.add_simpl_r; apply Z.div_le_mono; [done|lia]).
  assert (Hn0 : 0 ≤ n) by (apply Z.div_pos; [lia|done]).
  assert (Htop : top - 1 < 2 ^ 20) by (unfold top, PGSIZE; rewrite Z.add_simpl_r; apply Z.div_lt_upper_bound; lia).
  replace ((va + size - 1) / PGSIZE) with (n + (top - 1 - n)) by (unfold top; lia).
  rewrite u32_small by (unfold PGSIZE; lia). replace (PGSIZE * (n + (top - 1 - n)) - PGSIZE * n) with ((top - 1 - n) * PGSIZE) by lia.
  rewrite Z.div_mul by done.
  eapply wp_mono; [apply (mappages_loop_spec s d l n (top - 1 - n)); try done; try lia; intros; apply Hno; lia|].
  intros r s' (l' & c & H1 & H2 & H3 & H4). exists l', (n + c). split_and!; [done|done|done|].
  destruct H4 as [[-> ->]|(-> & ? & ->)]; [left; lia|right; split_and!; [done|lia|lia|done]].
Qed.

(** [mappages] sets the entries of its range, no others, and fails only without a page for a table. *)
Theorem mappages_correct s d l va size pa perm :
  vm_inv s d l → 0 ≤ va → 1 ≤ size → va + size ≤ 2 ^ 32 → pa mod PGSIZE = 0 → 0 ≤ pa < 2 ^ 32 → 0 ≤ perm < PGSIZE →
  let n := va / PGSIZE in let top := (va + size - 1) / PGSIZE + 1 in
  (∀ j, n ≤ j < top → present (pte (k_mem s) d j) = false) →
  wp (mappages d va size pa perm) (λ r s', ∃ l' c,
    vm_inv s' d l' ∧ grow (k_mem s) d l (k_mem s') l' ∧
    (∀ j, 0 ≤ j < 2 ^ 20 → pte (k_mem s') d j =
       if decide (n ≤ j < c) then entry (u32 (pa + PGSIZE * (j - n))) perm else pte (k_mem s) d j) ∧
    ((r = 0 ∧ c = top) ∨ (r = -1 ∧ n ≤ c < top ∧ l' = []))) s.
Proof. apply mappages_ok. Qed.
End tables.

Arguments owns_page {kend}.
Arguments slot_page {kend}.
Arguments dir_ok_ext {kend}.
Arguments dir_frame {kend}.
Arguments store_slot {kend}.
Arguments dir_page {kend}.
Arguments dir_table {kend}.
Arguments dir_inj {kend}.
Arguments vi_chain {kend}.
Arguments vi_nodup {kend}.
Arguments vi_dir {kend}.
Arguments vi_apart {kend}.
Arguments V2P_page {kend}.
Arguments entry_page {kend}.
Arguments slot_nz {kend}.
Arguments walkpgdir_alloc {kend}.
Arguments vm_inv_inside {kend}.
Arguments store_inv {kend}.
Arguments mappages_ok {kend}.
