(* ===== verification/AddrSpace.v ===== *)
(** * User address spaces

    The user half of a page directory: which page backs which user page, and what
    [allocuvm], [deallocuvm] and [copyout] (src/vm.c) do to it. *)

From S2P Require Import Prelude CString Kalloc Vm PageTable.

Section space.
Variable kend : Z.
Hypothesis Hkend : KERNBASE < kend.
Implicit Types (m : mem) (d v : Z) (l : list Z).

Local Abbreviation page_ok := (page_ok kend).
Local Abbreviation chain := (chain kend).
Local Abbreviation vm_inv := (vm_inv kend).
Local Abbreviation dir_ok := (dir_ok kend).

(** ** User address spaces *)

(** The kernel address of the page that backs user page [n]. *)
Definition frame m d (n : Z) : Z := table (pte m d n).
Definition upage (n : Z) : Prop := 0 ≤ n < 2 ^ 19.

(** Each user page has a page of its own, neither free nor part of the directory. *)
Record as_ok (s : kst) d l : Prop := mkAsOk {
  ao_vm : vm_inv s d l;
  ao_frame n : upage n → present (pte (k_mem s) d n) = true →
    page_ok (frame (k_mem s) d n) ∧ ¬ owns (k_mem s) d (frame (k_mem s) d n) ∧ (frame (k_mem s) d n ∉ l);
  ao_inj n k : upage n → upage k → present (pte (k_mem s) d n) = true → present (pte (k_mem s) d k) = true →
    frame (k_mem s) d n = frame (k_mem s) d k → n = k;
}.

(** The pages that the range [n .. top) of user pages holds. *)
Definition frames m d (n top v : Z) : Prop := ∃ k, n ≤ k < top ∧ present (pte m d k) = true ∧ v = frame m d k.

(** Too few free pages for [k] pages and the tables that map them. *)
Definition short l (k : Z) : Prop := Z.of_nat (length l) ≤ 1025 + k.

Lemma used_up m d n c x l :
  NoDup l → n ≤ c → (∀ v, v ∈ l → owns m d v ∨ frames m d n c v ∨ v ∈ x) → short l (c - n + Z.of_nat (length x)).
Proof.
  intros Hnd Hnc Hl. unfold short.
  assert (Hs : l ⊆+ d :: ((λ i, table (pde m d i)) <$> seqZ 0 1024) ++ (frame m d <$> seqZ n (c - n)) ++ x).
  { apply NoDup_submseteq; [done|]. intros v Hv. rewrite elem_of_cons, !elem_of_app, !list_elem_of_fmap.
    destruct (Hl v Hv) as [[->|(i & Hi & _ & ->)]|[(k & Hk & _ & ->)|Hx]]; [by left|..|tauto]; right; [left; exists i|right; left; exists k]; rewrite elem_of_seqZ; split; [done|lia|done|lia]. }
  apply submseteq_length in Hs. cbn [length] in Hs. rewrite !length_app, !length_fmap, !length_seqZ in Hs. lia.
Qed.

(** The state after the user pages [n .. top) are gone. *)
Record unmapped (s : kst) d l (n top : Z) (s' : kst) l' : Prop := mkUnmapped {
  un_ok : as_ok s' d l';
  un_pde i : 0 ≤ i < 1024 → pde (k_mem s') d i = pde (k_mem s) d i;
  un_pte k : 0 ≤ k < 2 ^ 20 → pte (k_mem s') d k = if decide (n ≤ k < top ∧ present (pte (k_mem s) d k) = true) then 0 else pte (k_mem s) d k;
  un_free v : v ∈ l' ↔ v ∈ l ∨ frames (k_mem s) d n top v;
  un_mem a : (∀ v, owns (k_mem s) d v ∨ frames (k_mem s) d n top v → ¬ in_page v a) → k_mem s' a = k_mem s a;
}.

Lemma free_frame s d l n :
  as_ok s d l → upage n → present (pde (k_mem s) d (n / 1024)) = true → present (pte (k_mem s) d n) = true →
  wp (kfree kend (frame (k_mem s) d n);; store (slot (k_mem s) d n) 0)
    (λ _ s', unmapped s d l n (n + 1) s' (frame (k_mem s) d n :: l)) s.
Proof.
  intros [Hvm Hfr Hinj] Hn Hpd Hp. destruct (Hfr n Hn Hp) as (Hv & Hno & Hnl). set (v := frame (k_mem s) d n) in *.
  assert (Hn20 : 0 ≤ n < 2 ^ 20) by (unfold upage in Hn; lia).
  destruct Hvm as [Hc Hnd Hd Hap]. apply wp_bind. eapply wp_mono; [by apply (kfree_spec kend Hkend s l v)|].
  intros [] s1 (Hc1 & _ & _ & Hm1).
  assert (Hown : ∀ w a, owns (k_mem s) d w → in_page w a → k_mem s1 a = k_mem s a).
  { intros w a Hw Ha. apply Hm1. intros Hva. apply Hno. rewrite (pages_apart kend v w a); [done|done|by eapply owns_page|done|done]. }
  destruct (dir_frame _ (k_mem s1) d Hd Hown) as [Hpde1 Hpte1]. pose proof (λ w, owns_ext (k_mem s) (k_mem s1) d w Hpde1) as Ho1.
  assert (Hi1 : vm_inv s1 d (v :: l)).
  { split; [done|by constructor|by eapply dir_ok_ext|]. intros w [->|Hw]%elem_of_cons; rewrite Ho1; auto. }
  assert (Hsl : slot (k_mem s) d n = slot (k_mem s1) d n) by (unfold slot; by rewrite Hpde1 by (by apply vpn_dir)).
  unfold store, modify, wp. rewrite Hsl.
  destruct (store_slot (k_mem s1) d n 0 (vi_dir _ _ _ Hi1) Hn20) as (Hpde2 & Hpte2 & Hm2); [by rewrite Hpde1 by (by apply vpn_dir)|lia|].
  set (m2 := stw _ _ _) in *.
  assert (Ho2 : ∀ w, owns m2 d w ↔ owns (k_mem s) d w) by (intros w; rewrite <-Ho1; by apply owns_ext).
  assert (Hpt : ∀ k, 0 ≤ k < 2 ^ 20 → pte m2 d k = if decide (k = n) then 0 else pte (k_mem s) d k).
  { intros k Hk. rewrite Hpte2 by done. case_decide; [done|]. by apply Hpte1. }
  destruct (vm_inv_inside Hkend s1 d (v :: l) m2 Hi1 Hpde2) as [Hi2 _].
  { intros a Ha. apply Hm2. apply Ha. right. exists (n / 1024). rewrite Hpde1 by (by apply vpn_dir). split; [by apply vpn_dir|done]. }
  split; cbn [k_mem set_mem].
  - split; cbn [k_mem set_mem]; [done| |].
    + intros k Hk. assert (0 ≤ k < 2 ^ 20) by (unfold upage in Hk; lia). unfold frame. rewrite Hpt by done. case_decide; [done|].
      intros Hpk. rewrite Ho2. destruct (Hfr k Hk Hpk) as (? & ? & Hkl). split_and!; [done|done|]. rewrite not_elem_of_cons. split; [|done].
      intros E. assert (k = n) by (by apply Hinj). done.
    + intros k j Hk Hj. assert (0 ≤ k < 2 ^ 20 ∧ 0 ≤ j < 2 ^ 20) as [Hk' Hj'] by (unfold upage in *; lia). unfold frame. rewrite !Hpt by done.
      repeat case_decide; try done. by apply Hinj.
  - intros i Hi. rewrite Hpde2, Hpde1 by done. done.
  - intros k Hk. rewrite Hpt by done. destruct (decide (k = n)) as [->|]; [by rewrite decide_True by (split; [lia|done])|by rewrite decide_False by lia].
  - intros w. rewrite elem_of_cons. split.
    + intros [->|Hw]; [right; exists n; split_and!; [lia|lia|done|done]|by left].
    + intros [Hw|(k & Hk & Hpk & ->)]; [by right|left]. assert (k = n) as -> by lia. done.
  - intros a Ha. rewrite Hm2, Hm1; [done| |].
    + apply Ha. right. exists n. split_and!; [lia|lia|done|done].
    + apply Ha. left. right. exists (n / 1024). rewrite Hpde1 by (by apply vpn_dir). split; [by apply vpn_dir|done].
Qed.

Lemma unmapped_none s d l n top :
  as_ok s d l → (∀ k, n ≤ k < top → present (pte (k_mem s) d k) = false) → unmapped s d l n top s l.
Proof.
  intros Hok Hno. split; [done|done| | |done].
  - intros k Hk. case_decide as E; [|done]. destruct E as [E1 E2]. by rewrite Hno in E2.
  - intros v. split; [by left|]. intros [?|(k & Hk & Hp & _)]; [done|]. by rewrite Hno in Hp.
Qed.

Lemma unmapped_trans s d l n k top s1 l1 s2 l2 :
  0 ≤ n → n ≤ k ≤ top → top ≤ 2 ^ 19 → unmapped s d l n k s1 l1 → unmapped s1 d l1 k top s2 l2 → unmapped s d l n top s2 l2.
Proof.
  intros H0 Hk Ht [Ok1 D1 P1 F1 M1] [Ok2 D2 P2 F2 M2].
  assert (Hfr : ∀ v, frames (k_mem s) d n top v ↔ frames (k_mem s) d n k v ∨ frames (k_mem s1) d k top v).
  { intros v. unfold frames, frame. split.
    - intros (j & Hj & Hp & ->). destruct (decide (j < k)); [left; exists j; split_and!; [lia|lia|done|done]|].
      right. exists j. rewrite P1 by lia. rewrite decide_False by lia. split_and!; [lia|lia|done|done].
    - intros [(j & Hj & Hp & ->)|(j & Hj & Hp & ->)]; exists j; [split_and!; [lia|lia|done|done]|].
      rewrite P1 in * by lia. rewrite decide_False in * by lia. split_and!; [lia|lia|done|done]. }
  split; [done| | | |].
  - intros i Hi. rewrite D2, D1 by done. done.
  - intros j Hj. rewrite P2, P1 by done. destruct (present (pte (k_mem s) d j)) eqn:Hp.
    + destruct (decide (n ≤ j < k)) as [A|A].
      * rewrite (decide_True (P := n ≤ j < k ∧ _)) by done. rewrite decide_False by (intros [_ ?]; done). by rewrite decide_True by (split; [lia|done]).
      * rewrite (decide_False (P := n ≤ j < k ∧ _)) by tauto. destruct (decide (k ≤ j < top)) as [B|B].
        -- rewrite !decide_True by (rewrite ?Hp; split; [lia|done]). done.
        -- rewrite !decide_False by lia. done.
    + rewrite !(decide_False (P := _ ∧ false = true)) by (intros [_ ?]; done). by rewrite decide_False by (rewrite Hp; intros [_ ?]; done).
  - intros v. rewrite F2, F1, Hfr. tauto.
  - intros a Ha. rewrite M2, M1; [done| |].
    + intros v Hv. apply Ha. rewrite Hfr. tauto.
    + intros v Hv. apply Ha. rewrite Hfr. destruct Hv as [Hv|Hv]; [|tauto]. left. by apply (owns_ext (k_mem s) (k_mem s1)).
Qed.

Lemma skip_table n : 0 ≤ n < 2 ^ 19 →
  u32 (u32 (PGADDR (PDX (PGSIZE * n) + 1) 0 0 - PGSIZE) + PGSIZE) = PGSIZE * (1024 * (n / 1024 + 1)).
Proof.
  intros Hn. rewrite u32_add_l. rewrite PDX_eq by (unfold PGSIZE; lia). rewrite (Z.mul_comm PGSIZE n), Z.div_mul by done.
  assert (0 ≤ n / 1024 < 512) by (split; [apply Z.div_pos; lia|apply Z.div_lt_upper_bound; lia]).
  unfold PGADDR. rewrite Z.shiftl_0_l, !Z.lor_0_r, Z.shiftl_mul_pow2 by (unfold PDXSHIFT; lia). unfold PDXSHIFT, PGSIZE.
  rewrite (u32_small (_ * 2 ^ 22)) by lia. rewrite u32_small by lia. lia.
Qed.

Lemma deallocuvm_loop_spec s d l n top oldsz fuel :
  as_ok s d l → 0 ≤ n ≤ top → oldsz ≤ KERNBASE → PGSIZE * (top - 1) < oldsz ≤ PGSIZE * top → top - n < Z.of_nat fuel →
  wp (deallocuvm_loop kend d (PGSIZE * n) oldsz fuel) (λ _ s', ∃ l', unmapped s d l n top s' l') s.
Proof.
  revert s l n. induction fuel as [|fuel IH]; intros s l n Hok H0 Hold Htop Hf; [lia|]. cbn [deallocuvm_loop].
  destruct (Z.ltb_spec (PGSIZE * n) oldsz) as [Hlt|Hge].
  - assert (Hn : n < top) by (unfold PGSIZE in *; lia). assert (Ht19 : top ≤ 2 ^ 19) by (unfold KERNBASE, PGSIZE in *; lia).
    assert (Hu : upage n) by (unfold upage; lia).
    apply wp_bind. eapply wp_mono; [apply walkpgdir_look; unfold PGSIZE; lia|].
    rewrite (Z.mul_comm PGSIZE n), Z.div_mul, Z.mul_comm by done. intros p s' [-> ->].
    pose proof (vi_dir _ _ _ (ao_vm _ _ _ Hok)) as Hd.
    destruct (present (pde (k_mem s) d (n / 1024))) eqn:Hpd.
    + rewrite (proj2 (Z.eqb_neq _ _)) by (apply (slot_nz Hkend); [done|lia|done]). apply wp_bind. unfold load, gets, wp at 1.
      assert (Ep : ldw (k_mem s) (slot (k_mem s) d n) = pte (k_mem s) d n) by (unfold pte; by rewrite Hpd). rewrite Ep. apply wp_bind.
      assert (Hstep : wp (if present (pte (k_mem s) d n)
                      then if PTE_ADDR (pte (k_mem s) d n) =? 0 then panic "kfree"
                           else kfree kend (P2V (PTE_ADDR (pte (k_mem s) d n)));; store (slot (k_mem s) d n) 0
                      else mret tt) (λ _ s', ∃ l', unmapped s d l n (n + 1) s' l') s).
      { destruct (present (pte (k_mem s) d n)) eqn:Hp.
        - destruct (ao_frame _ _ _ Hok n Hu Hp) as (Hv & _ & _). unfold frame, table in Hv.
          rewrite (proj2 (Z.eqb_neq _ _)); [|intros E; rewrite E in Hv; destruct Hv as [_ Hv]; change (P2V 0) with KERNBASE in Hv; lia].
          eapply wp_mono; [by apply free_frame|]. intros [] s1 H1. by eexists.
        - apply wp_ret. exists l. apply unmapped_none; [done|]. intros k Hk. by assert (k = n) as -> by lia. }
      eapply wp_mono; [exact Hstep|]. intros [] s1 (l1 & H1).
      rewrite u32_small by (unfold PGSIZE; lia). replace (PGSIZE * n + PGSIZE) with (PGSIZE * (n + 1)) by lia.
      eapply wp_mono; [apply (IH s1 l1 (n + 1)); [by destruct H1|lia|done|done|lia]|].
      intros [] s2 (l2 & H2). exists l2. apply (unmapped_trans s d l n (n + 1) top s1 l1 s2 l2); try done; lia.
    + cbn [Z.eqb]. rewrite skip_table by (unfold upage in Hu; lia). set (n' := 1024 * (n / 1024 + 1)).
      assert (Hn' : n < n') by (unfold n'; pose proof (Z_div_mod_eq_full n 1024); pose proof (Z.mod_pos_bound n 1024 ltac:(lia)); lia).
      assert (Hnone : ∀ k, n ≤ k < n' → present (pte (k_mem s) d k) = false).
      { intros k Hk. unfold pte. replace (k / 1024) with (n / 1024); [by rewrite Hpd|]. unfold n' in Hk.
        pose proof (Z_div_mod_eq_full n 1024). pose proof (Z.mod_pos_bound n 1024 ltac:(lia)).
        apply Z.div_unique with (k - 1024 * (n / 1024)); lia. }
      destruct (decide (n' ≤ top)).
      * eapply wp_mono; [apply (IH s l n'); [done|lia|done|done|lia]|]. intros [] s2 (l2 & H2). exists l2.
        apply (unmapped_trans s d l n n' top s l s2 l2); try done; try lia. by apply unmapped_none.
      * destruct fuel as [|fuel]; [lia|]. cbn [deallocuvm_loop]. rewrite (proj2 (Z.ltb_ge _ _)) by (unfold PGSIZE in *; lia).
        apply wp_ret. exists l. apply unmapped_none; [done|]. intros k Hk. apply Hnone. lia.
  - apply wp_ret. exists l. apply unmapped_none; [done|]. intros k Hk. unfold PGSIZE in *. lia.
Qed.

(** The number of pages that hold [sz] bytes. *)
Definition npages (sz : Z) : Z := (sz + PGSIZE - 1) / PGSIZE.

Lemma npages_spec sz : PGSIZE * (npages sz - 1) < sz ≤ PGSIZE * npages sz.
Proof.
  unfold npages. pose proof (Z_div_mod_eq_full (sz + PGSIZE - 1) PGSIZE). pose proof (Z.mod_pos_bound (sz + PGSIZE - 1) PGSIZE ltac:(done)). lia.
Qed.

Lemma npages_mono a b : a ≤ b → npages a ≤ npages b.
Proof. intros. unfold npages. apply Z.div_le_mono; [done|lia]. Qed.

Lemma npages_nonneg a : 0 ≤ a → 0 ≤ npages a.
Proof. intros. unfold npages. apply Z.div_pos; [unfold PGSIZE; lia|done]. Qed.

Lemma roundup_npages sz : 0 ≤ sz ≤ KERNBASE → PGROUNDUP sz = PGSIZE * npages sz.
Proof. intros Hs. unfold npages. apply round_up; unfold KERNBASE, PGSIZE in *; lia. Qed.

Lemma deallocuvm_ok s d l oldsz newsz :
  as_ok s d l → 0 ≤ newsz → oldsz ≤ KERNBASE →
  wp (deallocuvm kend d oldsz newsz) (λ r s',
    r = Z.min oldsz newsz ∧ ∃ l', unmapped s d l (npages newsz) (npages oldsz) s' l') s.
Proof.
  intros Hok Hn Ho. unfold deallocuvm. destruct (Z.leb_spec oldsz newsz) as [Hle|Hlt].
  - apply wp_ret. split; [lia|]. exists l. apply unmapped_none; [done|]. intros k Hk. pose proof (npages_mono oldsz newsz Hle). lia.
  - rewrite roundup_npages by lia. pose proof (npages_mono newsz oldsz ltac:(lia)). pose proof (npages_nonneg newsz Hn).
    apply wp_bind. eapply wp_mono; [apply (deallocuvm_loop_spec s d l (npages newsz) (npages oldsz)); [done|done|done|apply npages_spec|]|].
    + pose proof (npages_spec oldsz). assert (npages oldsz ≤ oldsz / PGSIZE + 1); [|lia].
      rewrite <-(Z.div_add _ 1) by done. apply Z.div_le_mono; [done|unfold PGSIZE; lia].
    + intros [] s' Hs'. apply wp_ret. split; [lia|done].
Qed.

(** [deallocuvm] removes the user pages above the new size and frees each of their frames once. *)
Theorem deallocuvm_correct s d l oldsz newsz :
  as_ok s d l → 0 ≤ newsz → oldsz ≤ KERNBASE →
  wp (deallocuvm kend d oldsz newsz) (λ r s',
    r = Z.min oldsz newsz ∧ ∃ l', unmapped s d l (npages newsz) (npages oldsz) s' l') s.
Proof. apply deallocuvm_ok. Qed.

(** A change outside the directory and the free list keeps the address space. *)
Lemma as_ok_outside s d l m' :
  as_ok s d l → (∀ v a, owns (k_mem s) d v ∨ v ∈ l → in_page v a → m' a = k_mem s a) →
  as_ok (set_mem m' s) d l ∧ (∀ i, 0 ≤ i < 1024 → pde m' d i = pde (k_mem s) d i) ∧
  (∀ n, 0 ≤ n < 2 ^ 20 → pte m' d n = pte (k_mem s) d n).
Proof.
  intros [[Hc Hnd Hd Hap] Hfr Hinj] Hm.
  destruct (dir_frame (k_mem s) m' d Hd) as [Hpde Hpte]; [intros; eapply Hm; eauto|]. pose proof (λ v, owns_ext (k_mem s) m' d v Hpde) as Ho.
  assert (Hf : ∀ n, upage n → pte m' d n = pte (k_mem s) d n ∧ frame m' d n = frame (k_mem s) d n).
  { intros n Hn. unfold frame. rewrite Hpte by (unfold upage in Hn; lia). done. }
  split; [|done]. split; [split|..]; cbn.
  - eapply (chain_ext kend); [done..|]. intros v a Hv. apply Hm. by right.
  - done.
  - by eapply dir_ok_ext.
  - intros v Hv. rewrite Ho. auto.
  - intros n Hn. destruct (Hf n Hn) as [-> ->]. rewrite Ho. auto.
  - intros n k Hn Hk. destruct (Hf n Hn) as [-> ->], (Hf k Hk) as [-> ->]. auto.
Qed.

(** A page that is in no use. *)
Definition unused (s : kst) d l v : Prop :=
  page_ok v ∧ (v ∉ l) ∧ ¬ owns (k_mem s) d v ∧ ∀ n, upage n → present (pte (k_mem s) d n) = true → frame (k_mem s) d n ≠ v.

Lemma as_ok_kalloc s d l :
  as_ok s d l →
  wp kalloc (λ v s', k_mem s' = k_mem s ∧
    match l with
    | [] => v = 0 ∧ s' = s
    | w :: l' => v = w ∧ as_ok s' d l' ∧ unused s' d l' w
    end) s.
Proof.
  intros [[Hc Hnd Hd Hap] Hfr Hinj]. eapply wp_mono; [by apply kalloc_spec|]. intros v s' (Em & _ & Hl). split; [done|].
  destruct l as [|w l']; [done|]. destruct Hl as (-> & Hw & Hc'). apply NoDup_cons in Hnd as [Hwl Hnd]. unfold unused. rewrite Em in *.
  split_and!; [done| |done|done|apply Hap; by left|].
  - split; [split|..]; rewrite ?Em; [done|done|done| | |done].
    + intros u Hu. apply Hap. by right.
    + intros n Hn Hp. destruct (Hfr n Hn Hp) as (? & ? & Hl). split_and!; [done|done|]. intros ?. apply Hl. by right.
  - intros n Hn Hp E. destruct (Hfr n Hn Hp) as (_ & _ & Hni). rewrite E in Hni. apply Hni. by left.
Qed.

Lemma as_ok_kfree s d l v :
  as_ok s d l → unused s d l v →
  wp (kfree kend v) (λ _ s', as_ok s' d (v :: l) ∧ (∀ i, 0 ≤ i < 1024 → pde (k_mem s') d i = pde (k_mem s) d i) ∧
    (∀ n, 0 ≤ n < 2 ^ 20 → pte (k_mem s') d n = pte (k_mem s) d n) ∧ ∀ a, ¬ in_page v a → k_mem s' a = k_mem s a) s.
Proof.
  intros Hok (Hv & Hvl & Hno & Hnf). pose proof Hok as [[Hc Hnd Hd Hap] Hfr Hinj].
  eapply wp_mono; [by apply (kfree_spec kend Hkend s l v)|]. intros [] s' (Hc' & _ & _ & Hm).
  destruct (as_ok_outside s d l (k_mem s') Hok) as ([[_ _ Hd' Hap'] Hfr' Hinj'] & Hpde & Hpte); cbn [k_mem set_mem] in *.
  { intros w a Hw Ha. apply Hm. intros Hva. assert (Hwp : page_ok w) by (destruct Hw; [by apply (owns_page _ _ _ Hd)|by eapply (chain_pages kend) in Hc]).
    assert (v = w) as <- by (by apply (pages_apart kend v w a)). destruct Hw; done. }
  pose proof (λ w, owns_ext (k_mem s) (k_mem s') d w Hpde) as Ho.
  split_and!; [|done|done|done]. split; [split|..]; cbn.
  - done.
  - by constructor.
  - done.
  - intros w [->|Hw]%elem_of_cons; [|auto]. by rewrite Ho.
  - intros n Hn Hp. destruct (Hfr' n Hn Hp) as (? & ? & ?). split_and!; [done|done|]. apply not_elem_of_cons. split; [|done].
    unfold frame in *. rewrite Hpte in * by (unfold upage in Hn; lia). by apply Hnf.
  - done.
Qed.

Lemma map_fresh s d l w n perm :
  as_ok s d l → unused s d l w → upage n → present (pte (k_mem s) d n) = false → 0 ≤ perm < PGSIZE →
  wp (mappages d (PGSIZE * n) PGSIZE (V2P w) perm) (λ r s', ∃ l', as_ok s' d l' ∧ grow (k_mem s) d l (k_mem s') l' ∧
    ((r = 0 ∧ ∀ k, 0 ≤ k < 2 ^ 20 → pte (k_mem s') d k = if decide (k = n) then entry (V2P w) perm else pte (k_mem s) d k) ∨
     (r = -1 ∧ l' = [] ∧ unused s' d l' w ∧ ∀ k, 0 ≤ k < 2 ^ 20 → pte (k_mem s') d k = pte (k_mem s) d k))) s.
Proof.
  intros [Hvm Hfr Hinj] (Hw & Hwl & Hwo & Hwf) Hn Hp Hperm. destruct (V2P_page Hkend w Hw) as (_ & Hal & Hr & _).
  assert (H20 : ∀ k, upage k → 0 ≤ k < 2 ^ 20) by (unfold upage; lia).
  assert (E1 : PGSIZE * n / PGSIZE = n) by (rewrite Z.mul_comm; by apply Z.div_mul).
  assert (E2 : (PGSIZE * n + PGSIZE - 1) / PGSIZE = n) by (symmetry; apply Z.div_unique with (PGSIZE - 1); unfold PGSIZE; lia).
  eapply wp_mono; [apply (mappages_ok Hkend s d l); try done; try (unfold PGSIZE, upage in *; lia)|].
  { rewrite E1, E2. intros j Hj. by assert (j = n) as -> by lia. }
  rewrite E1, E2. intros r s' (l' & c & Hvm' & Hg & Hpte & Hres). exists l'.
  assert (Hfree : ∀ v, ¬ owns (k_mem s) d v → v ∉ l → ¬ owns (k_mem s') d v ∧ (v ∉ l')).
  { intros v H1 H2. split; [intros Hv; apply (gr_new _ _ _ _ _ Hg) in Hv; tauto|]. intros Hv. by apply (gr_sub _ _ _ _ _ Hg) in Hv. }
  assert (Hold : ∀ k, upage k → pte (k_mem s') d k = pte (k_mem s) d k → present (pte (k_mem s') d k) = true →
    page_ok (frame (k_mem s') d k) ∧ ¬ owns (k_mem s') d (frame (k_mem s') d k) ∧ (frame (k_mem s') d k ∉ l') ∧ frame (k_mem s') d k = frame (k_mem s) d k ∧ frame (k_mem s') d k ≠ w).
  { intros k Hk E. unfold frame. rewrite E. intros Hpk. destruct (Hfr k Hk Hpk) as (? & H1 & H2). destruct (Hfree _ H1 H2).
    split_and!; [done|done|done|done|]. by apply Hwf. }
  destruct (Hfree w Hwo Hwl) as [Hwo' Hwl'].
  destruct Hres as [[-> ->]|(-> & Hc & ->)].
  - assert (Hpte' : ∀ k, 0 ≤ k < 2 ^ 20 → pte (k_mem s') d k = if decide (k = n) then entry (V2P w) perm else pte (k_mem s) d k).
    { intros k Hk. rewrite Hpte by done. repeat (case_decide; try lia). subst. by rewrite Z.sub_diag, Z.mul_0_r, Z.add_0_r, u32_small by done. }
    clear Hpte. destruct (entry_page Hkend w perm Hw Hperm) as (Hpe & Hte & _ & _).
    assert (Hnew : frame (k_mem s') d n = w) by (unfold frame; rewrite Hpte' by auto; by rewrite decide_True).
    split_and!; [split; [done|..]|done|by left].
    + intros k Hk. destruct (decide (k = n)) as [->|]; [rewrite Hnew; done|]. intros Hpk.
      destruct (Hold k Hk) as (? & ? & ? & _); [rewrite Hpte' by auto; by rewrite decide_False|done|done].
    + intros j k Hj Hk Hpj Hpk.
      assert (Hne : ∀ i, upage i → i ≠ n → present (pte (k_mem s') d i) = true → present (pte (k_mem s) d i) = true ∧ frame (k_mem s') d i = frame (k_mem s) d i ∧ frame (k_mem s') d i ≠ w).
      { intros i Hi Hin Hpi. assert (E : pte (k_mem s') d i = pte (k_mem s) d i) by (rewrite Hpte' by auto; by rewrite decide_False).
        destruct (Hold i Hi E Hpi) as (_ & _ & _ & ? & ?). by rewrite <-E. }
      destruct (decide (j = n)) as [->|Hjn], (decide (k = n)) as [->|Hkn]; [done|..].
      * rewrite Hnew. destruct (Hne k) as (_ & _ & ?); [done..|]. congruence.
      * rewrite Hnew. destruct (Hne j) as (_ & _ & ?); [done..|]. congruence.
      * destruct (Hne j) as (? & -> & _); [done..|]. destruct (Hne k) as (? & -> & _); [done..|]. by apply Hinj.
  - assert (Hpte' : ∀ k, 0 ≤ k < 2 ^ 20 → pte (k_mem s') d k = pte (k_mem s) d k) by (intros k Hk; rewrite Hpte by done; by rewrite decide_False by lia).
    split_and!; [split; [done|..]|done|right; split_and!; [done|done| |done]].
    + intros k Hk Hpk. destruct (Hold k Hk (Hpte' k (H20 k Hk)) Hpk) as (? & ? & ? & _). done.
    + intros j k Hj Hk. unfold frame. rewrite !Hpte' by auto. by apply Hinj.
    + split_and!; [done|done|done|]. intros k Hk. unfold frame. rewrite Hpte' by auto. intros ?. by apply Hwf.
Qed.

(** The state after fresh pages of the free list back the user pages [n .. c);
    the pages [x] are taken but not used yet. *)
Record grown (s : kst) d l (n c : Z) (x : list Z) (s' : kst) l' : Prop := mkGrown {
  gn_ok : as_ok s' d l';
  gn_old k : 0 ≤ k < 2 ^ 20 → ¬ n ≤ k < c → pte (k_mem s') d k = pte (k_mem s) d k;
  gn_new k : n ≤ k < c →
    present (pte (k_mem s') d k) = true ∧ PTE_FLAGS (pte (k_mem s') d k) = Z.lor (Z.lor PTE_P PTE_W) PTE_U ∧
    frame (k_mem s') d k ∈ l ∧ ∀ a, in_page (frame (k_mem s') d k) a → k_mem s' a = Byte.x00;
  gn_sub v : v ∈ l' → v ∈ l;
  gn_own v : owns (k_mem s') d v → owns (k_mem s) d v ∨ v ∈ l;
  gn_all v : v ∈ l → v ∈ l' ∨ owns (k_mem s') d v ∨ frames (k_mem s') d n c v ∨ v ∈ x;
  gn_mem a : (∀ v, owns (k_mem s) d v ∨ v ∈ l → ¬ in_page v a) → k_mem s' a = k_mem s a;
}.

(** The state after a failed growth: as before, but for new page tables. *)
Record shrunk (s : kst) d l (n top : Z) (x : list Z) (s' : kst) l' : Prop := mkShrunk {
  sh_ok : as_ok s' d l';
  sh_old k : 0 ≤ k < 2 ^ 20 → ¬ n ≤ k < top → pte (k_mem s') d k = pte (k_mem s) d k;
  sh_none k : n ≤ k < top → present (pte (k_mem s') d k) = false;
  sh_all v : v ∈ l → v ∈ l' ∨ owns (k_mem s') d v ∨ v ∈ x;
  sh_mem a : (∀ v, owns (k_mem s) d v ∨ v ∈ l → ¬ in_page v a) → k_mem s' a = k_mem s a;
}.

(** A growth that has used up the free list. *)
Lemma grown_short s d l n c x s' k :
  NoDup l → n ≤ c → c - n + Z.of_nat (length x) ≤ k → grown s d l n c x s' [] → short l k.
Proof.
  intros Hnd Hnc Hk Hg. assert (short l (c - n + Z.of_nat (length x))); [|unfold short in *; lia].
  apply (used_up (k_mem s') d n c x l); [done|done|]. intros v Hv. destruct (gn_all _ _ _ _ _ _ _ _ Hg v Hv) as [[]%not_elem_of_nil|]; done.
Qed.

Lemma grown_refl s d l n : as_ok s d l → grown s d l n n [] s l.
Proof. intros Hok. split; try done; try lia; auto. Qed.

Lemma grown_unmapped s d l n c x s1 l1 top s2 l2 :
  0 ≤ n → c ≤ top ≤ 2 ^ 19 → (∀ k, n ≤ k < top → present (pte (k_mem s) d k) = false) →
  grown s d l n c x s1 l1 → unmapped s1 d l1 n top s2 l2 → shrunk s d l n top x s2 l2.
Proof.
  intros H0 Hc Hno [Ok1 O1 N1 S1 W1 A1 M1] [Ok2 D2 P2 F2 M2].
  assert (Hfr : ∀ v, frames (k_mem s1) d n top v → v ∈ l).
  { intros v (k & Hk & Hp & ->). destruct (decide (k < c)) as [Hkc|Hkc]; [destruct (N1 k) as (_ & _ & ? & _); [lia|done]|].
    rewrite O1, Hno in Hp by lia. done. }
  split; [done| | | |].
  - intros k Hk Hr. rewrite P2 by done. rewrite decide_False by tauto. apply O1; [done|lia].
  - intros k Hk. rewrite P2 by lia. case_decide as E; [done|]. apply not_true_is_false. tauto.
  - intros v Hv. rewrite F2, (owns_ext (k_mem s1) (k_mem s2)) by done. destruct (A1 v Hv) as [?|[?|[(k & Hk & Hp & ->)|?]]]; [tauto|tauto| |tauto].
    left. right. exists k. split_and!; [lia|lia|done|done].
  - intros a Ha. rewrite M2; [by apply M1|]. intros v [Hv|Hv]; apply Ha; [by apply W1|right; by apply Hfr].
Qed.

(** A change inside a page that is taken but not used. *)
Lemma grown_fill s d l n c w s1 l1 m' :
  n ≤ c ≤ 2 ^ 19 → 0 ≤ n → grown s d l n c [w] s1 l1 → unused s1 d l1 w → w ∈ l → (∀ a, ¬ in_page w a → m' a = k_mem s1 a) →
  grown s d l n c [w] (set_mem m' s1) l1 ∧ unused (set_mem m' s1) d l1 w.
Proof.
  intros Hc H0 [Ok1 O1 N1 S1 W1 A1 M1] (Hw & Hwl & Hwo & Hwf) Hwin Hm. pose proof Ok1 as [[Hch _ Hd _] Hfr _].
  assert (Hap : ∀ v a, page_ok v → v ≠ w → in_page v a → m' a = k_mem s1 a).
  { intros v a Hv Hne Ha. apply Hm. intros Hb. apply Hne. by apply (pages_apart kend v w a). }
  destruct (as_ok_outside s1 d l1 m' Ok1) as (Ok' & Hpde & Hpte).
  { intros v a [Hv|Hv]; apply Hap; [by eapply owns_page|intros ->; done|by eapply chain_pages|intros ->; done]. }
  pose proof (λ v, owns_ext (k_mem s1) m' d v Hpde) as Ho.
  split; [split; cbn [k_mem set_mem]|split_and!; cbn [k_mem set_mem]]; try done.
  - intros k Hk Hr. rewrite Hpte by done. by apply O1.
  - intros k Hk. unfold frame. rewrite Hpte by lia. destruct (N1 k Hk) as (Hp & Hf & Hl & Hz).
    assert (Hu : upage k) by (unfold upage; lia). destruct (Hfr k Hu Hp) as (? & _ & _). split_and!; [done|done|done|].
    intros a Ha. rewrite (Hap _ a) by (done || by apply Hwf). by apply Hz.
  - intros v. rewrite Ho. apply W1.
  - intros v Hv. rewrite Ho. destruct (A1 v Hv) as [?|[?|[(k & Hk & Hp & ->)|?]]]; [tauto|tauto| |tauto].
    right. right. left. exists k. unfold frame. rewrite Hpte by lia. done.
  - intros a Ha. rewrite Hm; [by apply M1|]. apply Ha. by right.
  - by rewrite Ho.
  - intros k Hk. unfold frame. rewrite Hpte by (unfold upage in Hk; lia). by apply Hwf.
Qed.

(** The entries that a growing directory keeps still map zeroed fresh pages. *)
Lemma grown_keep s d l n c x s1 l1 s2 l2 k :
  n ≤ k < c → c ≤ 2 ^ 19 → 0 ≤ n → grown s d l n c x s1 l1 → grow (k_mem s1) d l1 (k_mem s2) l2 → as_ok s2 d l2 →
  pte (k_mem s2) d k = pte (k_mem s1) d k →
  present (pte (k_mem s2) d k) = true ∧ PTE_FLAGS (pte (k_mem s2) d k) = Z.lor (Z.lor PTE_P PTE_W) PTE_U ∧
  frame (k_mem s2) d k ∈ l ∧ ∀ a, in_page (frame (k_mem s2) d k) a → k_mem s2 a = Byte.x00.
Proof.
  intros Hk Hc H0 Hg Hgr Hok E. destruct (gn_new _ _ _ _ _ _ _ _ Hg k Hk) as (Hp & Hf & Hl & Hz).
  assert (Hu : upage k) by (unfold upage; lia). unfold frame in *. rewrite E. split_and!; [done|done|done|].
  intros a Ha. rewrite (gr_mem _ _ _ _ _ Hgr); [by apply Hz|]. intros v Hv Hva.
  destruct (ao_frame _ _ _ Hok k Hu) as (Hpg & Hno & _); [by rewrite E|]. unfold frame in *. rewrite E in *. apply Hno.
  rewrite (pages_apart kend (table (pte (k_mem s1) d k)) v a); [done|done|by apply (owns_page _ _ _ (vi_dir _ _ _ (ao_vm _ _ _ Hok)))|done|done].
Qed.

Lemma grown_map s d l n c w s1 l1 s2 l2 :
  0 ≤ n ≤ c → c < 2 ^ 19 → grown s d l n c [w] s1 l1 → unused s1 d l1 w → w ∈ l → (∀ a, in_page w a → k_mem s1 a = Byte.x00) →
  as_ok s2 d l2 → grow (k_mem s1) d l1 (k_mem s2) l2 →
  (∀ k, 0 ≤ k < 2 ^ 20 → pte (k_mem s2) d k = if decide (k = c) then entry (V2P w) (Z.lor PTE_W PTE_U) else pte (k_mem s1) d k) →
  grown s d l n (c + 1) [] s2 l2.
Proof.
  intros Hc Hc19 Hg (Hw & Hwl & Hwo & Hwf) Hwin Hz Hok Hgr Hpte. destruct (entry_page Hkend w (Z.lor PTE_W PTE_U) Hw) as (Hpe & Hte & Hfl & _); [done|].
  pose proof (Hpte c ltac:(lia)) as Hpc. rewrite decide_True in Hpc by done.
  assert (Hne : ∀ k, 0 ≤ k < 2 ^ 20 → k ≠ c → pte (k_mem s2) d k = pte (k_mem s1) d k) by (intros; rewrite Hpte by done; by rewrite decide_False).
  pose proof Hg as [Ok1 O1 N1 S1 W1 A1 M1]. pose proof Hgr as [SG MG NG AG EG].
  assert (Hfc : frame (k_mem s2) d c = w) by (unfold frame; by rewrite Hpc).
  assert (Hout : ∀ a, (∀ v, owns (k_mem s) d v ∨ v ∈ l → ¬ in_page v a) → k_mem s2 a = k_mem s1 a).
  { intros a Ha. apply EG. intros v Hv. apply Ha. destruct (NG v Hv) as [?|[? _]]; [by apply W1|right; by apply S1]. }
  split; [done| | | | | |].
  - intros k Hk Hr. rewrite Hne by lia. apply O1; [done|lia].
  - intros k Hk. destruct (decide (k = c)) as [->|Hkc].
    + rewrite Hfc, Hpc, Hfl. split_and!; [done|done|done|]. intros a Ha. rewrite EG; [by apply Hz|]. intros v Hv Hva.
      assert (w = v) as <- by (apply (pages_apart kend w v a); [done|by apply (owns_page _ _ _ (vi_dir _ _ _ (ao_vm _ _ _ Hok)))|done|done]).
      destruct (NG w Hv) as [?|[? _]]; done.
    + apply (grown_keep s d l n c [w] s1 l1 s2 l2); try done; try lia. apply Hne; lia.
  - intros v Hv. by apply S1, SG.
  - intros v Hv. destruct (NG v Hv) as [?|[? _]]; [by apply W1|right; by apply S1].
  - intros v Hv. destruct (A1 v Hv) as [Hv1|[Hv1|[(k & Hk & Hp & ->)|Hv1]]].
    + destruct (AG v Hv1); tauto.
    + right. left. by apply MG.
    + right. right. left. exists k. unfold frame. rewrite Hne by lia. split_and!; [lia|lia|done|done].
    + apply list_elem_of_singleton in Hv1 as ->. right. right. left. exists c. rewrite Hfc, Hpc. split_and!; [lia|lia|done|done].
  - intros a Ha. rewrite Hout by done. by apply M1.
Qed.

Lemma grown_nomap s d l n c w s1 l1 s2 l2 :
  0 ≤ n ≤ c → c < 2 ^ 19 → grown s d l n c [w] s1 l1 → as_ok s2 d l2 → grow (k_mem s1) d l1 (k_mem s2) l2 →
  (∀ k, 0 ≤ k < 2 ^ 20 → pte (k_mem s2) d k = pte (k_mem s1) d k) →
  grown s d l n c [w] s2 l2.
Proof.
  intros Hc Hc19 Hg Hok Hgr Hpte. pose proof Hg as [Ok1 O1 N1 S1 W1 A1 M1]. pose proof Hgr as [SG MG NG AG EG].
  split; [done| | | | | |].
  - intros k Hk Hr. rewrite Hpte by lia. by apply O1.
  - intros k Hk. apply (grown_keep s d l n c [w] s1 l1 s2 l2); try done; try lia. apply Hpte; lia.
  - intros v Hv. by apply S1, SG.
  - intros v Hv. destruct (NG v Hv) as [?|[? _]]; [by apply W1|right; by apply S1].
  - intros v Hv. destruct (A1 v Hv) as [Hv1|[Hv1|[(k & Hk & Hp & ->)|Hv1]]].
    + destruct (AG v Hv1); tauto.
    + right. left. by apply MG.
    + right. right. left. exists k. unfold frame. rewrite Hpte by lia. split_and!; [lia|lia|done|done].
    + tauto.
  - intros a Ha. rewrite EG; [by apply M1|]. intros v Hv. apply Ha. destruct (NG v Hv) as [?|[? _]]; [by apply W1|right; by apply S1].
Qed.

Lemma shrunk_free s d l n top w s1 l1 :
  0 ≤ n → top ≤ 2 ^ 19 → shrunk s d l n top [w] s1 l1 → unused s1 d l1 w → w ∈ l →
  wp (kfree kend w) (λ _ s', shrunk s d l n top [] s' (w :: l1)) s1.
Proof.
  intros Hn Ht [Ok1 O1 N1 A1 M1] Hun Hwin. eapply wp_mono; [by apply as_ok_kfree|]. intros [] s2 (Ok2 & Hpde & Hpte & Hm). split; [done| | | |].
  - intros k Hk Hr. rewrite Hpte by done. by apply O1.
  - intros k Hk. rewrite Hpte by lia. by apply N1.
  - intros v Hv. rewrite (owns_ext (k_mem s1)) by done. rewrite elem_of_cons. destruct (A1 v Hv) as [?|[?|Hv1]]; [tauto|tauto|].
    apply list_elem_of_singleton in Hv1 as ->. tauto.
  - intros a Ha. rewrite Hm; [by apply M1|]. apply Ha. by right.
Qed.

(** What is unused stays so when user pages go away. *)
Lemma unused_unmapped s d l n top s' l' v :
  0 ≤ n → top ≤ 2 ^ 19 → unmapped s d l n top s' l' → unused s d l v → unused s' d l' v.
Proof.
  intros Hn Ht [Ok2 D2 P2 F2 M2] (Hv & Hvl & Hvo & Hvf). split_and!; [done| | |].
  - rewrite F2. intros [?|(k & Hk & Hp & ->)]; [done|]. apply (Hvf k); [unfold upage; lia|done|done].
  - by rewrite (owns_ext (k_mem s)).
  - intros k Hk. unfold frame. rewrite P2 by (unfold upage in Hk; lia). case_decide; [done|]. by apply Hvf.
Qed.

Lemma allocuvm_loop_spec s d l oldsz newsz c s1 l1 fuel :
  let n := npages oldsz in let top := npages newsz in
  0 ≤ oldsz → newsz < KERNBASE → n ≤ c ≤ top → top - c < Z.of_nat fuel → NoDup l →
  (∀ k, n ≤ k < top → present (pte (k_mem s) d k) = false) → grown s d l n c [] s1 l1 →
  wp (allocuvm_loop kend d (PGSIZE * c) oldsz newsz fuel) (λ r s',
    (r = newsz ∧ ∃ l', grown s d l n top [] s' l') ∨ (r = 0 ∧ short l (top - n) ∧ ∃ l', shrunk s d l n top [] s' l')) s1.
Proof.
  intros n top Ho Hnew. pose proof (npages_spec newsz) as Htop. fold top in Htop. pose proof (npages_nonneg oldsz Ho) as Hn0. fold n in Hn0.
  revert c s1 l1. induction fuel as [|fuel IH]; intros c s1 l1 Hc Hf Hnd Hno Hg; [lia|]. cbn [allocuvm_loop].
  assert (Ht19 : top ≤ 2 ^ 19) by (unfold KERNBASE, PGSIZE in *; lia).
  destruct (Z.ltb_spec (PGSIZE * c) newsz) as [Hlt|Hge].
  2: { apply wp_ret. left. split; [done|]. exists l1. assert (c = top) as -> by (unfold PGSIZE in *; lia). done. }
  assert (Hct : c < top) by (unfold PGSIZE in *; lia).
  apply wp_bind. eapply wp_mono; [apply as_ok_kalloc; apply Hg|]. intros w s2 (Em & Hl). destruct l1 as [|w' l2].
  { destruct Hl as [-> ->]. cbn [Z.eqb]. apply wp_bind. eapply wp_mono; [apply deallocuvm_ok; [apply Hg|lia|lia]|].
    intros _ s3 (_ & l3 & H3). apply wp_ret. right. split; [done|].
    split; [apply (grown_short s d l n c [] s1); [done|lia|cbn; lia|done]|]. exists l3. eapply grown_unmapped; [lia| |done|done|done]. lia. }
  destruct Hl as (-> & Hok2 & Hun2). destruct (page_ok_nz kend Hkend w' (proj1 Hun2)) as [Hnz _]. rewrite (proj2 (Z.eqb_neq _ _) Hnz).
  rename w' into w. assert (Hwin : w ∈ l) by (apply (gn_sub _ _ _ _ _ _ _ _ Hg); by left).
  assert (Hg2 : grown s d l n c [w] s2 l2).
  { destruct Hg as [_ O1 N1 S1 W1 A1 M1]. split; rewrite ?Em; try done.
    - intros v Hv. apply S1. by right.
    - intros v Hv. rewrite list_elem_of_singleton. destruct (A1 v Hv) as [[->|?]%elem_of_cons|[?|[?|[]%not_elem_of_nil]]]; tauto. }
  apply wp_bind. unfold memset, modify at 1, wp at 1.
  destruct (grown_fill s d l n c w s2 l2 (Kstring.memset w 0 PGSIZE (k_mem s2))) as [Hg3 Hun3]; try done; try lia.
  { intros a Ha. rewrite memset_spec by done. by rewrite decide_False. }
  assert (Hz : ∀ a, in_page w a → Kstring.memset w 0 PGSIZE (k_mem s2) a = Byte.x00).
  { intros a Ha. rewrite memset_spec by done. by rewrite decide_True. }
  set (s3 := set_mem _ s2) in *. apply wp_bind.
  eapply wp_mono; [apply (map_fresh s3 d l2 w c); [apply Hg3|done|unfold upage; lia| |done]|].
  { rewrite (gn_old _ _ _ _ _ _ _ _ Hg3) by lia. apply Hno. lia. }
  intros r s4 (l4 & Hok4 & Hgr4 & [(-> & Hpte)|(-> & -> & Hun4 & Hpte)]).
  - cbn [Z.ltb Z.compare]. rewrite u32_small by (unfold PGSIZE; lia). replace (PGSIZE * c + PGSIZE) with (PGSIZE * (c + 1)) by lia.
    apply (IH (c + 1) s4 l4); [lia|lia|done|done|]. apply (grown_map s d l n c w s3 l2 s4 l4); try done; lia.
  - cbn [Z.ltb Z.compare]. assert (Hg4 : grown s d l n c [w] s4 []) by (apply (grown_nomap s d l n c w s3 l2); try done; lia).
    apply wp_bind. eapply wp_mono; [apply deallocuvm_ok; [done|lia|lia]|]. intros _ s5 (_ & l5 & H5).
    apply wp_bind. eapply wp_mono; [apply (shrunk_free s d l n top w s5 l5); [lia|lia| | |done]|].
    + eapply grown_unmapped; [lia| |done|done|done]. lia.
    + eapply unused_unmapped; [| |done|done]; lia.
    + intros [] s6 H6. apply wp_ret. right. split; [done|]. split; [apply (grown_short s d l n c [w] s4); [done|lia|cbn; lia|done]|by eexists].
Qed.

Lemma allocuvm_ok s d l oldsz newsz :
  let n := npages oldsz in let top := npages newsz in
  as_ok s d l → 0 ≤ oldsz ≤ newsz → (∀ k, n ≤ k < top → present (pte (k_mem s) d k) = false) →
  wp (allocuvm kend d oldsz newsz) (λ r s',
    (newsz < KERNBASE ∧ r = newsz ∧ ∃ l', grown s d l n top [] s' l') ∨
    (newsz < KERNBASE ∧ r = 0 ∧ short l (top - n) ∧ ∃ l', shrunk s d l n top [] s' l') ∨ (KERNBASE ≤ newsz ∧ r = 0 ∧ s' = s)) s.
Proof.
  intros n top Hok Ho Hno. unfold allocuvm. destruct (Z.leb_spec KERNBASE newsz) as [Hk|Hk]; [apply wp_ret; tauto|].
  rewrite (proj2 (Z.ltb_ge _ _)) by lia. rewrite roundup_npages by lia. pose proof (npages_mono oldsz newsz ltac:(lia)) as Hm.
  pose proof (npages_nonneg oldsz ltac:(lia)) as Hn. fold n top in Hm. fold n in Hn. fold n.
  eapply wp_mono; [apply (allocuvm_loop_spec s d l oldsz newsz n s l); try done; try lia; try (by apply grown_refl); try apply Hok|].
  - assert (npages newsz ≤ newsz / PGSIZE + 1); [|fold top; lia].
    rewrite <-(Z.div_add _ 1) by done. apply Z.div_le_mono; [done|unfold PGSIZE; lia].
  - intros r s' [H1|H1]; tauto.
Qed.

(** C27. allocuvm maps the pages between the two sizes to fresh zeroed frames that the user may
    write, or, only when there are too few free pages or the size reaches the kernel, fails and
    leaves none of them mapped; every free page ends up free, in the page tables or mapped, and
    user pages never share a frame. *)
Theorem allocuvm_correct s d l oldsz newsz :
  let n := npages oldsz in let top := npages newsz in
  as_ok s d l → 0 ≤ oldsz ≤ newsz → (∀ k, n ≤ k < top → present (pte (k_mem s) d k) = false) →
  wp (allocuvm kend d oldsz newsz) (λ r s',
    (newsz < KERNBASE ∧ r = newsz ∧ ∃ l', grown s d l n top [] s' l') ∨
    (newsz < KERNBASE ∧ r = 0 ∧ short l (top - n) ∧ ∃ l', shrunk s d l n top [] s' l') ∨ (KERNBASE ≤ newsz ∧ r = 0 ∧ s' = s)) s.
Proof. apply allocuvm_ok. Qed.

(** ** Copying to user memory *)

(** The byte a user program sees at [va]. *)
Definition ubyte m d (va : Z) : option byte :=
  let e := pte m d (va / PGSIZE) in
  if present e && negb (Z.land e PTE_U =? 0) then Some (m (table e + va mod PGSIZE)) else None.

Lemma put_bytes_at dst bs m a :
  put_bytes dst bs m a = if decide (dst ≤ a < dst + Z.of_nat (length bs)) then bs !!! Z.to_nat (a - dst) else m a.
Proof.
  revert dst m. induction bs as [|b bs IH]; intros dst m; cbn [put_bytes length].
  - by rewrite decide_False by lia.
  - rewrite IH. destruct (decide (a = dst)) as [->|Hne].
    + rewrite decide_False by lia. rewrite decide_True by lia. by rewrite fn_lookup_insert, Z.sub_diag.
    + rewrite fn_lookup_insert_ne by done. repeat (case_decide; try lia); [|done].
      replace (Z.to_nat (a - dst)) with (S (Z.to_nat (a - (dst + 1)))) by lia. done.
Qed.

Lemma uva2ka_spec s d l va b :
  as_ok s d l → 0 ≤ va < KERNBASE → ubyte (k_mem s) d va = Some b →
  wp (uva2ka d va) (λ v s', s' = s ∧ v = frame (k_mem s) d (va / PGSIZE) ∧ v ≠ 0) s.
Proof.
  intros Hok Hva Hb. unfold ubyte in Hb. destruct (present (pte (k_mem s) d (va / PGSIZE))) eqn:Hp; [|done].
  destruct (Z.land _ PTE_U =? 0) eqn:Hu; [done|]. clear Hb.
  assert (Hn : upage (va / PGSIZE)) by (unfold upage, KERNBASE, PGSIZE in *; split; [apply Z.div_pos; lia|apply Z.div_lt_upper_bound; lia]).
  pose proof (vi_dir _ _ _ (ao_vm _ _ _ Hok)) as Hd.
  assert (Hpd : present (pde (k_mem s) d (va / PGSIZE / 1024)) = true) by (unfold pte in Hp; by destruct (present (pde _ _ _))).
  unfold uva2ka. apply wp_bind. eapply wp_mono; [apply walkpgdir_look; unfold KERNBASE in *; lia|]. rewrite Hpd. intros p s' [-> ->].
  rewrite (proj2 (Z.eqb_neq _ _)) by (apply (slot_nz Hkend); [done|unfold upage in Hn; lia|done]).
  apply wp_bind. unfold load, gets, wp at 1.
  assert (Ep : ldw (k_mem s) (slot (k_mem s) d (va / PGSIZE)) = pte (k_mem s) d (va / PGSIZE)) by (unfold pte; by rewrite Hpd). rewrite Ep.
  unfold present in Hp. destruct (Z.land _ PTE_P =? 0) eqn:Hp'; [done|]. rewrite Hu. apply wp_ret. split_and!; [done|done|].
  apply (page_ok_nz kend Hkend). apply (ao_frame _ _ _ Hok); [done|]. unfold present. by rewrite Hp'.
Qed.

(** Writing [bs] into the page of user page [n], from offset [o] on. *)
Lemma put_frame s d l n o bs :
  as_ok s d l → upage n → present (pte (k_mem s) d n) = true → 0 ≤ o → o + Z.of_nat (length bs) ≤ PGSIZE →
  let m' := put_bytes (frame (k_mem s) d n + o) bs (k_mem s) in
  as_ok (set_mem m' s) d l ∧ (∀ k, 0 ≤ k < 2 ^ 20 → pte m' d k = pte (k_mem s) d k) ∧
  ∀ a, 0 ≤ a < KERNBASE → ubyte m' d a =
    if decide (PGSIZE * n + o ≤ a < PGSIZE * n + o + Z.of_nat (length bs) ∧ is_Some (ubyte (k_mem s) d a))
    then Some (bs !!! Z.to_nat (a - (PGSIZE * n + o))) else ubyte (k_mem s) d a.
Proof.
  intros Hok Hn Hp Ho Hlen m'. pose proof Hok as [[Hc _ Hd _] Hfr Hinj]. destruct (Hfr n Hn Hp) as (Hv & Hvo & Hvl).
  assert (Hout : ∀ v a, page_ok v → v ≠ frame (k_mem s) d n → in_page v a → m' a = k_mem s a).
  { intros v a Hpv Hne Ha. unfold m'. rewrite put_bytes_at, decide_False; [done|]. intros Hr. apply Hne.
    apply (pages_apart kend v _ a); [done|done|done|unfold in_page; lia]. }
  destruct (as_ok_outside s d l m' Hok) as (Hok' & _ & Hpte).
  { intros v a [Hw|Hw]; apply Hout; [by eapply owns_page|intros ->; done|by eapply chain_pages|intros ->; done]. }
  split_and!; [done|done|]. intros a Ha. unfold ubyte.
  assert (Hna : upage (a / PGSIZE)) by (unfold upage, KERNBASE, PGSIZE in *; split; [apply Z.div_pos; lia|apply Z.div_lt_upper_bound; lia]).
  rewrite Hpte by (unfold upage in Hna; lia). set (e := pte (k_mem s) d (a / PGSIZE)) in *.
  pose proof (Z_div_mod_eq_full a PGSIZE) as Hdm. pose proof (Z.mod_pos_bound a PGSIZE ltac:(done)) as Hmb.
  destruct (present e && negb (Z.land e PTE_U =? 0)) eqn:Hb.
  2: { rewrite decide_False; [done|]. intros [_ [? ?]]. done. }
  apply andb_true_iff in Hb as [Hpe Hue].
  destruct (decide (a / PGSIZE = n)) as [En|En].
  - assert (Et : table e = frame (k_mem s) d n) by (unfold e, frame; by rewrite En). rewrite Et. unfold m'. rewrite put_bytes_at.
    destruct (decide (PGSIZE * n + o ≤ a < PGSIZE * n + o + Z.of_nat (length bs))) as [R|R].
    + rewrite decide_True by lia. rewrite decide_True by (split; [done|by eexists]). do 2 f_equal. lia.
    + rewrite decide_False by lia. by rewrite decide_False by tauto.
  - rewrite decide_False by (unfold PGSIZE in *; lia). f_equal. destruct (Hfr _ Hna Hpe) as (Hv' & _ & _).
    apply (Hout (table e)); [done| |unfold in_page; lia]. intros E. apply En. by apply Hinj.
Qed.

Lemma page_offset va : PGSIZE * (va / PGSIZE) ≤ va < PGSIZE * (va / PGSIZE) + PGSIZE.
Proof. pose proof (Z_div_mod_eq_full va PGSIZE). pose proof (Z.mod_pos_bound va PGSIZE ltac:(done)). lia. Qed.

(** Copying [len] bytes to accessible user memory changes those bytes and nothing else of the address space. *)
Lemma copyout_loop_spec s d l va buf len fuel :
  as_ok s d l → 0 ≤ va → va + len ≤ KERNBASE → 0 ≤ len → len = Z.of_nat (length buf) → (0 < fuel)%nat →
  (0 < len → (va + len - 1) / PGSIZE - va / PGSIZE + 1 < Z.of_nat fuel) →
  (∀ a, va ≤ a < va + len → is_Some (ubyte (k_mem s) d a)) →
  wp (copyout_loop d va buf len fuel) (λ r s', r = 0 ∧ as_ok s' d l ∧
    (∀ k, 0 ≤ k < 2 ^ 20 → pte (k_mem s') d k = pte (k_mem s) d k) ∧
    ∀ a, 0 ≤ a < KERNBASE → ubyte (k_mem s') d a =
      if decide (va ≤ a < va + len) then Some (buf !!! Z.to_nat (a - va)) else ubyte (k_mem s) d a) s.
Proof.
  revert s va buf len. induction fuel as [|fuel IH]; intros s va buf len Hok Hva Hend Hlen Hbuf Hf0 Hf Hacc; [lia|]. cbn [copyout_loop].
  destruct (Z.ltb_spec 0 len) as [Hpos|Hz].
  2: { apply wp_ret. split_and!; [done|done|done|]. intros a Ha. by rewrite decide_False by lia. }
  specialize (Hf Hpos). pose proof (page_offset va) as Hpo. rewrite round_down. set (q := va / PGSIZE) in *.
  destruct (Hacc va) as [b Hb]; [lia|].
  assert (Hq : upage q) by (unfold upage, q, KERNBASE, PGSIZE in *; split; [apply Z.div_pos; lia|apply Z.div_lt_upper_bound; lia]).
  assert (Hp : present (pte (k_mem s) d q) = true) by (unfold ubyte in Hb; fold q in Hb; by destruct (present _)).
  assert (Eq : PGSIZE * q / PGSIZE = q) by (rewrite Z.mul_comm; by apply Z.div_mul).
  apply wp_bind. eapply wp_mono.
  { apply (uva2ka_spec s d l (PGSIZE * q) (k_mem s (table (pte (k_mem s) d q) + (PGSIZE * q) mod PGSIZE)) Hok); [unfold upage, PGSIZE, KERNBASE in *; lia|].
    unfold ubyte in *. fold q in Hb. rewrite Eq. by destruct (present _ && _). }
  intros v s' (-> & -> & Hnz). rewrite Eq in *. rewrite (proj2 (Z.eqb_neq _ _) Hnz).
  set (n := if len <? PGSIZE - (va - PGSIZE * q) then len else PGSIZE - (va - PGSIZE * q)).
  assert (Hn : 0 < n ≤ len ∧ va - PGSIZE * q + n ≤ PGSIZE ∧ (n = len ∨ va + n = PGSIZE * (q + 1))).
  { unfold n. destruct (Z.ltb_spec len (PGSIZE - (va - PGSIZE * q))); unfold PGSIZE in *; lia. }
  assert (Hlt : length (take (Z.to_nat n) buf) = Z.to_nat n) by (rewrite length_take; lia).
  unfold copy_in. apply wp_modify.
  destruct (put_frame s d l q (va - PGSIZE * q) (take (Z.to_nat n) buf) Hok Hq Hp) as (Hok1 & Hpte1 & Hub1); [lia|lia|].
  set (m1 := put_bytes _ _ _) in *. set (s1 := set_mem m1 s) in *. rewrite Hlt in Hub1.
  replace (PGSIZE * q + (va - PGSIZE * q)) with va in Hub1 by lia. rewrite Z2Nat.id in Hub1 by lia.
  assert (Hacc1 : ∀ a, 0 ≤ a < KERNBASE → is_Some (ubyte (k_mem s) d a) → is_Some (ubyte m1 d a)).
  { intros a Ha Hs. rewrite Hub1 by done. case_decide; [by eexists|done]. }
  destruct (decide (n = len)) as [En|En].
  - assert (Hstop : ∀ x y, wp (copyout_loop d x y (len - n) fuel) (λ r s', r = 0 ∧ s' = s1) s1).
    { intros x y. destruct fuel as [|fuel]; [|cbn [copyout_loop]; rewrite (proj2 (Z.ltb_ge _ _)) by lia; by apply wp_ret].
      exfalso. assert (0 ≤ (va + len - 1) / PGSIZE - q) by (unfold q; apply Z.le_0_sub, Z.div_le_mono; [done|lia]). lia. }
    eapply wp_mono; [apply Hstop|]. intros r s2 [-> ->]. split_and!; [done|done|done|].
    intros a Ha. cbn [k_mem set_mem]. change (k_mem s1) with m1. rewrite Hub1 by done. rewrite En.
    destruct (decide (va ≤ a < va + len)) as [R|R].
    + rewrite decide_True by (split; [lia|by apply Hacc]). by rewrite take_ge by lia.
    + by rewrite decide_False by tauto.
  - rewrite u32_small by (unfold upage, PGSIZE in *; lia). replace (PGSIZE * q + PGSIZE) with (va + n) by lia.
    eapply wp_mono; [apply (IH s1 (va + n) (drop (Z.to_nat n) buf) (len - n)); try done; try lia|].
    + rewrite length_drop. lia.
    + assert (Eq1 : (va + n) / PGSIZE = q + 1) by (replace (va + n) with ((q + 1) * PGSIZE) by lia; by apply Z.div_mul).
      assert (q + 1 ≤ (va + len - 1) / PGSIZE) by (rewrite <-Eq1; apply Z.div_le_mono; [done|lia]). lia.
    + assert (Eq1 : (va + n) / PGSIZE = q + 1) by (replace (va + n) with ((q + 1) * PGSIZE) by lia; by apply Z.div_mul).
      intros _. rewrite Eq1. replace (va + n + (len - n) - 1) with (va + len - 1) by lia. lia.
    + intros a Ha. apply Hacc1; [unfold KERNBASE in *; lia|]. apply Hacc. lia.
    + intros r s2 (-> & Hok2 & Hpte2 & Hub2). split_and!; [done|done|intros; by rewrite Hpte2, <-Hpte1|].
      intros a Ha. rewrite Hub2 by done. change (k_mem s1) with m1. rewrite Hub1 by done.
      destruct (decide (va ≤ a < va + len)) as [R|R].
      * destruct (decide (va + n ≤ a)).
        -- rewrite decide_True by lia. f_equal. rewrite lookup_total_drop. f_equal. lia.
        -- rewrite decide_False by lia. rewrite decide_True by (split; [lia|by apply Hacc]). f_equal. apply lookup_total_take_lt. lia.
      * rewrite decide_False by lia. by rewrite decide_False by lia.
Qed.

Lemma copyout_fuel va len : 0 ≤ va → 0 < len → (va + len - 1) / PGSIZE - va / PGSIZE + 1 < len / PGSIZE + 3.
Proof.
  intros Hva Hlen. unfold PGSIZE. pose proof (Z_div_mod_eq_full (va + len - 1) 4096). pose proof (Z.mod_pos_bound (va + len - 1) 4096 ltac:(lia)).
  pose proof (Z_div_mod_eq_full va 4096). pose proof (Z.mod_pos_bound va 4096 ltac:(lia)).
  pose proof (Z_div_mod_eq_full len 4096). pose proof (Z.mod_pos_bound len 4096 ltac:(lia)). lia.
Qed.

Lemma copyout_ok s d l va p :
  let len := Z.of_nat (length p) in
  as_ok s d l → 0 ≤ va → va + len ≤ KERNBASE → (∀ a, va ≤ a < va + len → is_Some (ubyte (k_mem s) d a)) →
  wp (copyout d va p len) (λ r s', r = 0 ∧ as_ok s' d l ∧
    (∀ k, 0 ≤ k < 2 ^ 20 → pte (k_mem s') d k = pte (k_mem s) d k) ∧
    ∀ a, 0 ≤ a < KERNBASE → ubyte (k_mem s') d a =
      if decide (va ≤ a < va + len) then Some (p !!! Z.to_nat (a - va)) else ubyte (k_mem s) d a) s.
Proof.
  intros len Hok Hva Hend Hacc. unfold copyout. assert (0 ≤ len / PGSIZE) by (apply Z.div_pos; [lia|done]).
  apply copyout_loop_spec; try done; try lia. intros Hpos. rewrite Z2Nat.id by lia. by apply copyout_fuel.
Qed.

(** C28. copyout writes the buffer at the user address through the page table, also across pages,
    and changes no other user byte and no mapping. *)
Theorem copyout_correct s d l va p :
  let len := Z.of_nat (length p) in
  as_ok s d l → 0 ≤ va → va + len ≤ KERNBASE → (∀ a, va ≤ a < va + len → is_Some (ubyte (k_mem s) d a)) →
  wp (copyout d va p len) (λ r s', r = 0 ∧ as_ok s' d l ∧
    (∀ k, 0 ≤ k < 2 ^ 20 → pte (k_mem s') d k = pte (k_mem s) d k) ∧
    ∀ a, 0 ≤ a < KERNBASE → ubyte (k_mem s') d a =
      if decide (va ≤ a < va + len) then Some (p !!! Z.to_nat (a - va)) else ubyte (k_mem s) d a) s.
Proof. apply copyout_ok. Qed.
End space.
