(* ===== verification/CopyVm.v ===== *)
(** * Building, copying and freeing address spaces

    [setupkvm], [copyuvm] and [freevm] (src/vm.c): the kernel part of every
    address space, the child's copy of its parent's memory, and that a failure
    gives back every page that was taken. *)

From S2P Require Import Prelude CString Kalloc Vm PageTable AddrSpace.

Section copy.
Variable kend : Z.
Hypothesis Hkend : KERNBASE < kend.
Implicit Types (m : mem) (d v w : Z) (l x : list Z) (s : kst).

Local Abbreviation page_ok := (page_ok kend).
Local Abbreviation chain := (chain kend).
Local Abbreviation as_ok := (as_ok kend).
Local Abbreviation unused := (unused kend).
Local Abbreviation USERTOP := (2 ^ 19).

(** An address space under construction: from state [s0] with free list [l0], the
    pages of [l0] are the free ones, those of the directory [d], its user pages,
    and those in hand, [x]; nothing else has changed. *)
Record fresh s0 l0 s d l x : Prop := mkFresh {
  fr_ok : as_ok s d l;
  fr_part v : v ∈ l0 ↔ v ∈ l ∨ owns (k_mem s) d v ∨ frames (k_mem s) d 0 USERTOP v ∨ v ∈ x;
  fr_mem a : (∀ v, v ∈ l0 → ¬ in_page v a) → k_mem s a = k_mem s0 a;
}.

(** Every page is free again. *)
Record released s0 l0 s l : Prop := mkReleased {
  rl_chain : chain (k_mem s) (k_freelist s) l;
  rl_nodup : NoDup l;
  rl_free v : v ∈ l ↔ v ∈ l0;
  rl_mem a : (∀ v, v ∈ l0 → ¬ in_page v a) → k_mem s a = k_mem s0 a;
}.

(** ** Freeing *)

Lemma freevm_tables_spec s d l i n :
  chain (k_mem s) (k_freelist s) l → NoDup l → dir_ok kend (k_mem s) d → (d ∉ l) →
  (∀ j, i ≤ j < 1024 → present (pde (k_mem s) d j) = true → table (pde (k_mem s) d j) ∉ l) → 0 ≤ i → i + Z.of_nat n = 1024 →
  wp (freevm_tables kend d i n) (λ _ s', ∃ l', chain (k_mem s') (k_freelist s') l' ∧ NoDup l' ∧ (d ∉ l') ∧
    (∀ v, v ∈ l' ↔ v ∈ l ∨ ∃ j, i ≤ j < 1024 ∧ present (pde (k_mem s) d j) = true ∧ v = table (pde (k_mem s) d j)) ∧
    ∀ a, (∀ v, owns (k_mem s) d v → ¬ in_page v a) → k_mem s' a = k_mem s a) s.
Proof.
  revert s l i. induction n as [|n IH]; intros s l i Hc Hnd Hd Hdl Ht H0 Hn; cbn [freevm_tables].
  { apply wp_ret. exists l. split_and!; [done|done|done| |done]. intros v. split; [by left|]. intros [?|(j & ? & _)]; [done|lia]. }
  unfold load. apply wp_gets. change (ldw (k_mem s) (d + 4 * i)) with (pde (k_mem s) d i).
  destruct (present (pde (k_mem s) d i)) eqn:Hp.
  - destruct (dir_table _ _ Hd i ltac:(lia) Hp) as [Hti Htd]. apply wp_bind.
    eapply wp_mono; [apply (kfree_spec kend Hkend s l); [done|done|apply Ht; [lia|done]]|]. intros [] s1 (Hc1 & _ & _ & Hm).
    fold (table (pde (k_mem s) d i)) in Hc1, Hm.
    assert (Hpde : ∀ j, 0 ≤ j < 1024 → pde (k_mem s1) d j = pde (k_mem s) d j).
    { intros j Hj. apply pde_frame; [done|]. intros a Ha. apply Hm. intros Hb. apply Htd. by apply (pages_apart kend _ _ a Hti (dir_page _ _ Hd)). }
    eapply wp_mono; [apply (IH s1 (table (pde (k_mem s) d i) :: l) (i + 1))|].
    + done.
    + constructor; [apply Ht; [lia|done]|done].
    + by eapply dir_ok_ext.
    + apply not_elem_of_cons. split; [by apply not_eq_sym|done].
    + intros j Hj. rewrite Hpde by lia. intros Hpj. apply not_elem_of_cons. split; [|apply Ht; [lia|done]].
      intros E. apply (dir_inj _ _ Hd) in E; [lia|lia|lia|done|done].
    + lia.
    + lia.
    + intros [] s2 (l' & Hc2 & Hnd2 & Hd2 & Hl2 & Hm2). exists l'. split_and!; [done|done|done| |].
      * intros v. rewrite Hl2, elem_of_cons. split.
        -- intros [[->|?]|(j & Hj & Hpj & ->)]; [right; exists i; split_and!; [lia|lia|done|done]|by left|].
           rewrite Hpde in * by lia. right. exists j. split_and!; [lia|lia|done|done].
        -- intros [?|(j & Hj & Hpj & ->)]; [tauto|]. destruct (decide (j = i)) as [->|]; [tauto|]. right. exists j.
           rewrite Hpde by lia. split_and!; [lia|lia|done|done].
      * intros a Ha. rewrite Hm2; [apply Hm, Ha; right; exists i; split_and!; [lia|lia|done|done]|].
        intros v Hv. apply Ha. by rewrite owns_ext in Hv.
  - apply wp_ret_bind. eapply wp_mono; [apply (IH s l (i + 1)); [done..| |lia|lia]|].
    + intros j Hj. apply Ht. lia.
    + intros [] s2 (l' & Hc2 & Hnd2 & Hd2 & Hl2 & Hm2). exists l'. split_and!; [done|done|done| |done].
      intros v. rewrite Hl2. split; (intros [?|(j & Hj & Hpj & ->)]; [by left|right; exists j]); split_and!; try done; try lia.
      destruct (decide (j = i)) as [->|]; [congruence|lia].
Qed.

Lemma frames_none m d : (∀ k, upage k → present (pte m d k) = false) → ∀ v, ¬ frames m d 0 USERTOP v.
Proof. intros H v (k & Hk & Hp & _). rewrite H in Hp; [done|]. unfold upage. lia. Qed.

(** [freevm] gives back the pages of the user, the page tables and the directory. *)
Lemma freevm_ok s0 l0 s d l :
  fresh s0 l0 s d l [] → wp (freevm kend d) (λ _ s', ∃ l', released s0 l0 s' l') s.
Proof.
  intros [Hok Hpart Hmem]. pose proof Hok as [[_ _ Hd _] _ _]. unfold freevm.
  destruct (page_ok_nz kend Hkend d (dir_page _ _ Hd)) as [Hnz _]. rewrite (proj2 (Z.eqb_neq _ _) Hnz).
  apply wp_bind. eapply wp_mono; [apply (deallocuvm_ok kend Hkend s d l); [done|lia|lia]|].
  intros _ s1 (_ & l1 & [Hok1 Hpde Hpte Hfree Hm1]). change (npages 0) with 0 in *. change (npages KERNBASE) with USERTOP in *.
  pose proof (λ w, owns_ext (k_mem s) (k_mem s1) d w Hpde) as Ho. pose proof Hok1 as [[Hc1 Hnd1 Hd1 Hap1] _ _].
  apply wp_bind. eapply wp_mono; [apply (freevm_tables_spec s1 d l1 0); try done|].
  { intros Hin. apply (Hap1 d Hin). by left. }
  { intros j Hj Hp Hin. apply (Hap1 _ Hin). right. by exists j. }
  intros [] s2 (l2 & Hc2 & Hnd2 & Hd2 & Hl2 & Hm2).
  eapply wp_mono; [by apply (kfree_spec kend Hkend s2 l2); [|apply (dir_page _ _ Hd)|]|]. intros [] s3 (Hc3 & _ & _ & Hm3).
  assert (Hin : ∀ v, v ∈ d :: l2 ↔ v ∈ l0).
  { intros v. rewrite elem_of_cons, Hl2, Hfree, Hpart, <-Ho. unfold owns. set_solver. }
  exists (d :: l2). split; [done|by constructor|done|].
  intros a Ha. rewrite Hm3, Hm2, Hm1, Hmem; [done|done|..].
  - intros v Hv. apply Ha. apply Hpart. tauto.
  - intros v Hv. apply Ha. apply Hpart. rewrite Ho in Hv. tauto.
  - apply Ha. apply Hin. by left.
Qed.

(** ** Steps of a construction *)

Lemma fresh_kalloc s0 l0 s d l :
  fresh s0 l0 s d l [] →
  wp kalloc (λ v s', k_mem s' = k_mem s ∧
    match l with
    | [] => v = 0 ∧ s' = s
    | w :: l' => v = w ∧ v ≠ 0 ∧ fresh s0 l0 s' d l' [w] ∧ unused s' d l' w
    end) s.
Proof.
  intros [Hok Hpart Hmem]. eapply wp_mono; [by apply (as_ok_kalloc kend Hkend s d l)|]. intros v s' (Em & Hl). split; [done|].
  destruct l as [|w l']; [done|]. destruct Hl as (-> & Hok' & Hun). split_and!; [done|apply (page_ok_nz kend Hkend), Hun| |done].
  split; [done| |by rewrite Em]. intros v. rewrite Em, Hpart. set_solver.
Qed.

(** Writing to the page in hand. *)
Lemma fresh_fill s0 l0 s d l w m' :
  fresh s0 l0 s d l [w] → unused s d l w → (∀ a, ¬ in_page w a → m' a = k_mem s a) →
  fresh s0 l0 (set_mem m' s) d l [w] ∧ unused (set_mem m' s) d l w ∧ (∀ n, 0 ≤ n < 2 ^ 20 → pte m' d n = pte (k_mem s) d n).
Proof.
  intros [Hok Hpart Hmem] Hun Hm. pose proof Hok as [[Hc _ Hd _] _ _]. destruct Hun as (Hw & Hwl & Hwo & Hwf).
  destruct (as_ok_outside kend Hkend s d l m' Hok) as (Hok' & Hpde & Hpte).
  { intros v a Hv Ha. apply Hm. intros Hb. assert (page_ok v) by (destruct Hv; [by apply (owns_page _ _ _ Hd)|by eapply (chain_pages kend) in Hc]).
    assert (w = v) as <- by (by apply (pages_apart kend w v a)). destruct Hv; done. }
  pose proof (λ w, owns_ext (k_mem s) m' d w Hpde) as Ho.
  assert (Hfr : ∀ v, frames m' d 0 USERTOP v ↔ frames (k_mem s) d 0 USERTOP v).
  { intros v. unfold frames, frame. split; intros (k & Hk & Hp & ->); exists k; rewrite Hpte in * by lia; done. }
  split; [split; [done|..]|split; [|done]]; cbn [k_mem set_mem].
  - intros v. by rewrite Hpart, Ho, Hfr.
  - intros a Ha. rewrite Hm; [by apply Hmem|]. apply Ha. apply Hpart. set_solver.
  - split; [done|]. split; [done|]. split; [by rewrite Ho|]. intros n Hn. cbn [k_mem set_mem]. unfold frame.
    rewrite Hpte by (unfold upage in Hn; lia). by apply Hwf.
Qed.

(** A growing directory whose user pages gain the page in hand, or nothing. *)
Lemma fresh_grow s0 l0 s d l x s' l' x' :
  fresh s0 l0 s d l x → as_ok s' d l' → grow (k_mem s) d l (k_mem s') l' →
  (∀ v, frames (k_mem s') d 0 USERTOP v ∨ v ∈ x' ↔ frames (k_mem s) d 0 USERTOP v ∨ v ∈ x) →
  fresh s0 l0 s' d l' x'.
Proof.
  intros [Hok Hpart Hmem] Hok' [Hsub Hmono Hnew Hall Hm] Hfr. split; [done|..].
  - intros v. specialize (Hfr v). rewrite Hpart. specialize (Hmono v). specialize (Hnew v). specialize (Hall v). specialize (Hsub v). tauto.
  - intros a Ha. rewrite Hm; [by apply Hmem|]. intros v Hv. apply Ha, Hpart. specialize (Hnew v Hv). tauto.
Qed.

(** A construction that has used up the free list. *)
Lemma fresh_short s0 l0 s d c x k :
  NoDup l0 → fresh s0 l0 s d [] x → 0 ≤ c → (∀ k, c ≤ k < USERTOP → present (pte (k_mem s) d k) = false) →
  c + Z.of_nat (length x) ≤ k → short l0 k.
Proof.
  intros Hnd [_ Hpart _] H0 Hno Hk. assert (short l0 (c - 0 + Z.of_nat (length x))); [|unfold short in *; lia].
  apply (used_up (k_mem s) d 0 c x l0); [done|done|]. intros v [[]%not_elem_of_nil|[?|[(j & Hj & Hp & ->)|?]]]%Hpart; [tauto| |tauto].
  right. left. exists j. split; [|done]. destruct (decide (j < c)); [lia|]. rewrite Hno in Hp by lia. done.
Qed.

(** ** The kernel part of an address space *)

(** The pages of a mapping, and the entries with it. *)
Definition krange (k : kmap) (j : Z) : Prop := virt k / PGSIZE ≤ j < (virt k + u32 (phys_end k - phys_start k) - 1) / PGSIZE + 1.
#[local] Instance krange_dec k j : Decision (krange k j) := _.
Definition kadd (k : kmap) (f : Z → Z) (j : Z) : Z :=
  if decide (krange k j) then entry (u32 (phys_start k + PGSIZE * (j - virt k / PGSIZE))) (km_perm k) else f j.
Definition kadds (ks : list kmap) (f : Z → Z) : Z → Z := foldl (λ f k, kadd k f) f ks.

(** A mapping of the kernel's addresses that is free for it. *)
Definition kfit (k : kmap) (f : Z → Z) : Prop :=
  KERNBASE ≤ virt k ∧ 1 ≤ u32 (phys_end k - phys_start k) ∧ virt k + u32 (phys_end k - phys_start k) ≤ 2 ^ 32 ∧
  phys_start k mod PGSIZE = 0 ∧ 0 ≤ phys_start k < 2 ^ 32 ∧ 0 ≤ km_perm k < PGSIZE ∧ ∀ j, krange k j → present (f j) = false.
Fixpoint kfits (ks : list kmap) (f : Z → Z) : Prop :=
  match ks with [] => True | k :: ks => kfit k f ∧ kfits ks (kadd k f) end.

Lemma no_user s d l :
  vm_inv kend s d l → (∀ k, upage k → present (pte (k_mem s) d k) = false) → as_ok s d l.
Proof. intros Hv Hno. split; [done|..]; intros n; intros; by rewrite Hno in *. Qed.

Lemma setupkvm_loop_spec s0 l0 s d l ks f :
  NoDup l0 → fresh s0 l0 s d l [] → (∀ j, 0 ≤ j < 2 ^ 20 → pte (k_mem s) d j = f j) → (∀ j, upage j → present (f j) = false) → kfits ks f →
  wp (setupkvm_loop kend d ks) (λ r s',
    (r = d ∧ ∃ l', fresh s0 l0 s' d l' [] ∧ ∀ j, 0 ≤ j < 2 ^ 20 → pte (k_mem s') d j = kadds ks f j) ∨
    (r = 0 ∧ short l0 0 ∧ ∃ l', released s0 l0 s' l')) s.
Proof.
  intros Hnd. revert s l f. induction ks as [|k ks IH]; intros s l f Hfr Hpte Hno Hfit; cbn [setupkvm_loop].
  { apply wp_ret. left. split; [done|]. exists l. done. }
  destruct Hfit as [(Hv & Hsz & Htop & Hal & Hpa & Hperm & Hfree) Hfits].
  assert (Hv19 : USERTOP ≤ virt k / PGSIZE) by (apply Z.div_le_lower_bound; unfold KERNBASE, PGSIZE in *; lia).
  apply wp_bind. eapply wp_mono; [apply (mappages_ok Hkend s d l); try done; [apply Hfr|unfold KERNBASE in *; lia|]|].
  { intros j Hj. rewrite Hpte; [by apply Hfree|]. split; [lia|].
    enough ((virt k + u32 (phys_end k - phys_start k) - 1) / PGSIZE < 2 ^ 20) by lia. apply Z.div_lt_upper_bound; unfold PGSIZE; lia. }
  intros r s1 (l1 & c & Hvm & Hg & Hp1 & Hr).
  assert (Hno1 : ∀ j, upage j → present (pte (k_mem s1) d j) = false).
  { intros j Hj. unfold upage in Hj. rewrite Hp1 by lia. rewrite decide_False by lia. rewrite Hpte by lia. by apply Hno. }
  assert (Hfr1 : fresh s0 l0 s1 d l1 []).
  { eapply fresh_grow; [done|by apply no_user|done|]. intros v. rewrite !elem_of_nil.
    assert (Hno0 : ∀ j, upage j → present (pte (k_mem s) d j) = false) by (intros j Hj; rewrite Hpte by (unfold upage in Hj; lia); by apply Hno).
    pose proof (frames_none _ d Hno0 v). pose proof (frames_none _ d Hno1 v). tauto. }
  destruct Hr as [[-> ->]|(-> & _ & ->)].
  - cbn [Z.ltb Z.compare]. apply (IH s1 l1 (kadd k f)); [done| | |done].
    + intros j Hj. rewrite Hp1 by done. unfold kadd, krange. repeat case_decide; (done || lia || by apply Hpte).
    + intros j Hj. unfold kadd. rewrite decide_False; [by apply Hno|]. unfold krange, upage in *. lia.
  - cbn [Z.ltb Z.compare]. apply wp_bind. eapply wp_mono; [by eapply freevm_ok|]. intros [] s2 Hrel. apply wp_ret. right. split_and!; [done| |done].
    apply (fresh_short s0 l0 s1 d 0 []); done.
Qed.

(** A new directory. *)
Lemma new_dir s0 l0 d l s :
  chain (k_mem s0) (k_freelist s0) l0 → NoDup l0 → l0 = d :: l → page_ok d → k_mem s = k_mem s0 → chain (k_mem s) (k_freelist s) l →
  let s' := set_mem (Kstring.memset d 0 PGSIZE (k_mem s)) s in
  fresh s0 l0 s' d l [] ∧ ∀ j, 0 ≤ j < 2 ^ 20 → pte (k_mem s') d j = 0.
Proof.
  intros Hc0 Hnd -> Hd Em Hc. apply NoDup_cons in Hnd as [Hdl Hnd]. cbn [k_mem set_mem].
  set (m' := Kstring.memset d 0 PGSIZE (k_mem s)).
  assert (Hm : ∀ a, m' a = if decide (in_page d a) then Byte.x00 else k_mem s a) by (intros a; apply memset_spec; done).
  assert (Hpde : ∀ i, 0 ≤ i < 1024 → pde m' d i = 0).
  { intros i Hi. unfold pde. rewrite ldw_zero; [done|]. intros b Hb. rewrite Hm, decide_True; [done|]. unfold in_page, PGSIZE. lia. }
  assert (Hpres : ∀ i, 0 ≤ i < 1024 → present (pde m' d i) = true → False) by (intros i Hi; by rewrite Hpde).
  assert (Hpte : ∀ j, 0 ≤ j < 2 ^ 20 → pte m' d j = 0) by (intros j Hj; unfold pte; rewrite Hpde by (by apply vpn_dir); done).
  assert (Hown : ∀ v, owns m' d v ↔ v = d).
  { intros v. split; [|by left]. intros [?|(i & Hi & Hp & _)]; [done|]. by apply Hpres in Hp. }
  split; [|done]. split; cbn [k_mem set_mem].
  - apply no_user; [|intros k Hk; cbn [k_mem set_mem]; rewrite Hpte by (unfold upage in Hk; lia); done].
    split; cbn [k_mem set_mem k_freelist]; try done.
    + eapply (chain_ext kend); [done..|]. intros v a Hv Ha. rewrite Hm. rewrite decide_False; [done|]. intros Hb. apply Hdl.
      rewrite (pages_apart kend d v a); [done|done|by eapply (chain_pages kend)|done|done].
    + split; [done|..]; intros i; intros; exfalso; eapply (Hpres i); eauto.
    + intros v Hv. rewrite Hown. by intros ->.
  - intros v. rewrite Hown, elem_of_cons. pose proof (frames_none m' d) as Hf. rewrite elem_of_nil. split; [tauto|].
    intros [?|[?|[?|[]]]]; [tauto..|]. exfalso. apply (Hf ltac:(intros k Hk; rewrite Hpte by (unfold upage in Hk; lia); done) v). done.
  - intros a Ha. rewrite Hm, decide_False; [by rewrite Em|]. apply Ha. by left.
Qed.

(** What every address space maps above the user: physical memory at [KERNBASE],
    the kernel's text and read-only data not writable, and the devices. *)
Definition kernel_pte (data j : Z) : Z :=
  if decide (KERNBASE / PGSIZE ≤ j < (KERNBASE + PHYSTOP) / PGSIZE)
  then entry (PGSIZE * (j - KERNBASE / PGSIZE)) (if decide (KERNLINK / PGSIZE ≤ j < data / PGSIZE) then 0 else PTE_W)
  else if decide (DEVSPACE / PGSIZE ≤ j < 2 ^ 20) then entry (PGSIZE * j) PTE_W else 0.

Variable data : Z.
Hypothesis Hdata : data mod PGSIZE = 0 ∧ KERNLINK < data < KERNBASE + PHYSTOP.

Lemma data_facts :
  V2P data = data - KERNBASE ∧ u32 (V2P data - V2P KERNLINK) = data - KERNLINK ∧ u32 (PHYSTOP - V2P data) = KERNBASE + PHYSTOP - data ∧
  524544 < data / PGSIZE < 581632 ∧ data = PGSIZE * (data / PGSIZE) ∧ V2P data mod PGSIZE = 0.
Proof.
  destruct Hdata as [Hal Hr].
  assert (Hv : V2P data = data - KERNBASE) by (apply u32_small; unfold KERNLINK, KERNBASE, PHYSTOP, EXTMEM in *; lia).
  rewrite Hv. change (V2P KERNLINK) with EXTMEM. unfold KERNLINK, KERNBASE, EXTMEM, PHYSTOP, PGSIZE in *. rewrite !u32_small by lia.
  Z.to_euclidean_division_equations. lia.
Qed.

(** The page ranges of the four mappings. *)
Lemma kranges j :
  (krange (mkKmap KERNBASE 0 EXTMEM PTE_W) j ↔ 524288 ≤ j < 524544) ∧
  (krange (mkKmap KERNLINK (V2P KERNLINK) (V2P data) 0) j ↔ 524544 ≤ j < data / PGSIZE) ∧
  (krange (mkKmap data (V2P data) PHYSTOP PTE_W) j ↔ data / PGSIZE ≤ j < 581632) ∧
  (krange (mkKmap DEVSPACE DEVSPACE 0 PTE_W) j ↔ 1040384 ≤ j < 1048576).
Proof.
  destruct Hdata as [Hal Hr]. unfold krange. cbn [virt phys_start phys_end].
  destruct data_facts as (_ & -> & -> & _). unfold KERNLINK, KERNBASE, EXTMEM, PHYSTOP, DEVSPACE, PGSIZE in *. rewrite !u32_small by lia.
  change (u32 (0 - 4261412864)) with 33554432. Z.to_euclidean_division_equations. lia.
Qed.

Ltac to_ranges H1 H2 H3 H4 :=
  repeat case_decide;
  repeat match goal with
    | H : krange _ _ |- _ => first [rewrite H1 in H|rewrite H2 in H|rewrite H3 in H|rewrite H4 in H]
    | H : ¬ krange _ _ |- _ => first [rewrite H1 in H|rewrite H2 in H|rewrite H3 in H|rewrite H4 in H]
    end.

Lemma kmaps_fit : kfits (kmaps data) (λ _, 0).
Proof.
  pose proof Hdata as [Hal Hr]. pose proof data_facts as (Hv & E1 & E2 & Hq & _ & Hvm).
  unfold kmaps. cbn [kfits]. unfold kfit. cbn [virt phys_start phys_end km_perm].
  repeat match goal with |- _ ∧ _ => split end; try done;
    try (rewrite ?E1, ?E2, ?Hv; unfold KERNLINK, KERNBASE, EXTMEM, PHYSTOP, DEVSPACE, PGSIZE, PTE_W in *; lia).
  all: intros j Hj; pose proof (kranges j) as (H1 & H2 & H3 & H4); unfold kadd; to_ranges H1 H2 H3 H4; (done || lia).
Qed.

Lemma kmaps_entries j : 0 ≤ j < 2 ^ 20 → kadds (kmaps data) (λ _, 0) j = kernel_pte data j.
Proof.
  intros Hj. pose proof data_facts as (Hv & _ & _ & Hq & Hd & _).
  pose proof (kranges j) as (H1 & H2 & H3 & H4). unfold kadds, kmaps, kernel_pte, kadd. cbn [foldl virt phys_start phys_end km_perm].
  change (KERNBASE / PGSIZE) with 524288. change (KERNLINK / PGSIZE) with 524544. change ((KERNBASE + PHYSTOP) / PGSIZE) with 581632. change (DEVSPACE / PGSIZE) with 1040384.
  to_ranges H1 H2 H3 H4; try lia.
  all: f_equal; rewrite ?Hv; change (V2P KERNLINK) with EXTMEM; unfold KERNLINK, KERNBASE, EXTMEM, PHYSTOP, DEVSPACE, PGSIZE in *; rewrite u32_small; lia.
Qed.

(** [setupkvm] returns a directory with the kernel's mappings only, or gives everything back. *)
Lemma setupkvm_ok s l :
  chain (k_mem s) (k_freelist s) l → NoDup l →
  wp (setupkvm kend data) (λ r s',
    (r ≠ 0 ∧ ∃ l', fresh s l s' r l' [] ∧ ∀ j, 0 ≤ j < 2 ^ 20 → pte (k_mem s') r j = kernel_pte data j) ∨
    (r = 0 ∧ short l 0 ∧ ∃ l', released s l s' l')) s.
Proof.
  intros Hc Hnd. unfold setupkvm. apply wp_bind. eapply wp_mono; [by apply kalloc_spec|]. intros d s1 (Em & _ & Hl).
  destruct l as [|w l1].
  { destruct Hl as [-> ->]. cbn [Z.eqb]. apply wp_ret. right. split_and!; [done|done|]. exists []. by split. }
  destruct Hl as (-> & Hw & Hc1). destruct (page_ok_nz kend Hkend w Hw) as [Hnz _]. rewrite (proj2 (Z.eqb_neq _ _) Hnz).
  unfold memset. apply wp_modify. destruct (new_dir s (w :: l1) w l1 s1) as [Hfr Hpte]; [done..|].
  change (DEVSPACE <? P2V PHYSTOP) with false. cbv iota.
  eapply wp_mono; [apply (setupkvm_loop_spec s (w :: l1) _ w l1 _ (λ _, 0)); [done|done|done|done|apply kmaps_fit]|].
  intros r s2 [(-> & l2 & Hfr2 & Hp2)|(-> & Hrel)]; [left|by right]. split; [done|]. exists l2. split; [done|].
  intros j Hj. rewrite Hp2 by done. by apply kmaps_entries.
Qed.

(** ** Copying *)

(** An address space whose pages are not on the free list is not affected. *)
Lemma parent_kept s0 l0 p s l :
  as_ok s0 p l0 → chain (k_mem s) (k_freelist s) l → NoDup l → l ⊆ l0 →
  (∀ a, (∀ v, v ∈ l0 → ¬ in_page v a) → k_mem s a = k_mem s0 a) →
  as_ok s p l ∧ (∀ i, 0 ≤ i < 1024 → pde (k_mem s) p i = pde (k_mem s0) p i) ∧
  (∀ n, 0 ≤ n < 2 ^ 20 → pte (k_mem s) p n = pte (k_mem s0) p n) ∧
  (∀ n a, upage n → present (pte (k_mem s0) p n) = true → in_page (frame (k_mem s0) p n) a → k_mem s a = k_mem s0 a).
Proof.
  intros [[Hc0 Hnd0 Hd0 Hap0] Hfr0 Hinj0] Hc Hnd Hsub Hm.
  assert (Hout : ∀ w a, page_ok w → (w ∉ l0) → in_page w a → k_mem s a = k_mem s0 a).
  { intros w a Hw Hwl Ha. apply Hm. intros v Hv Hb. apply Hwl. rewrite (pages_apart kend w v a); [done|done|by eapply (chain_pages kend) in Hc0|done|done]. }
  destruct (dir_frame (k_mem s0) (k_mem s) p Hd0) as [Hpde Hpte].
  { intros v a Hv. apply Hout; [by eapply owns_page|]. intros Hin. by apply (Hap0 v). }
  pose proof (λ w, owns_ext (k_mem s0) (k_mem s) p w Hpde) as Ho.
  assert (H20 : ∀ n, upage n → pte (k_mem s) p n = pte (k_mem s0) p n) by (intros n Hn; apply Hpte; unfold upage in Hn; lia).
  split_and!; [split; [split|..]|done|done|].
  - done.
  - done.
  - by eapply dir_ok_ext.
  - intros v Hv. rewrite Ho. apply Hap0, Hsub, Hv.
  - intros n Hn. unfold frame. rewrite Ho, H20 by done. intros Hp. destruct (Hfr0 n Hn Hp) as (? & ? & Hl). split_and!; [done|done|]. intros Hin. by apply Hl, Hsub.
  - intros n k Hn Hk. unfold frame. rewrite !H20 by done. by apply Hinj0.
  - intros n a Hn Hp. destruct (Hfr0 n Hn Hp) as (? & ? & Hl). by apply Hout.
Qed.

(** The user pages below [c] are copies of those of [p]. *)
Record copied s0 l0 p c s d l : Prop := mkCopied {
  cp_fresh : fresh s0 l0 s d l [];
  cp_done k : 0 ≤ k < c →
    present (pte (k_mem s) d k) = true ∧ PTE_FLAGS (pte (k_mem s) d k) = PTE_FLAGS (pte (k_mem s0) p k) ∧
    ∀ o, 0 ≤ o < PGSIZE → k_mem s (frame (k_mem s) d k + o) = k_mem s0 (frame (k_mem s0) p k + o);
  cp_rest k : c ≤ k < USERTOP → present (pte (k_mem s) d k) = false;
  cp_kern k : USERTOP ≤ k < 2 ^ 20 → pte (k_mem s) d k = kernel_pte data k;
}.

Lemma flags_present e : present e = true → Z.lor (PTE_FLAGS e) PTE_P = PTE_FLAGS e.
Proof.
  intros Hp. unfold PTE_FLAGS, PTE_P. apply Z.bits_inj'. intros i Hi. rewrite Z.lor_spec, Z.land_spec.
  destruct (decide (i = 0)) as [->|]; [|by rewrite (Z.bits_above_log2 1 i), orb_false_r by (cbn; lia)].
  rewrite !Z.bit0_odd. rewrite present_odd in Hp. by rewrite Hp.
Qed.

(** A page in hand that holds the contents of page [c] of [p] becomes page [c]. *)
Lemma copied_map s0 l0 p c s d l w s1 l1 s2 l2 :
  0 ≤ c < USERTOP → copied s0 l0 p c s d l →
  present (pte (k_mem s0) p c) = true →
  fresh s0 l0 s1 d l1 [w] → unused s1 d l1 w → (∀ n, 0 ≤ n < 2 ^ 20 → pte (k_mem s1) d n = pte (k_mem s) d n) →
  (∀ a, ¬ in_page w a → k_mem s1 a = k_mem s a) →
  (∀ o, 0 ≤ o < PGSIZE → k_mem s1 (w + o) = k_mem s0 (frame (k_mem s0) p c + o)) →
  as_ok s2 d l2 → grow (k_mem s1) d l1 (k_mem s2) l2 →
  (∀ k, 0 ≤ k < 2 ^ 20 → pte (k_mem s2) d k = if decide (k = c) then entry (V2P w) (PTE_FLAGS (pte (k_mem s0) p c)) else pte (k_mem s1) d k) →
  copied s0 l0 p (c + 1) s2 d l2.
Proof.
  intros Hc [Hfr Hdone Hrest Hkern] Hpc Hfr1 Hun1 Hp1 Hm1 Hw Hok2 Hg Hp2. pose proof Hun1 as (Hwp & Hwl & Hwo & Hwf).
  assert (Hflag : 0 ≤ PTE_FLAGS (pte (k_mem s0) p c) < PGSIZE) by (rewrite PTE_FLAGS_eq; by apply Z.mod_pos_bound).
  destruct (entry_page Hkend w _ Hwp Hflag) as (Hpe & Hte & Hfe & _).
  assert (Hpk : ∀ k, 0 ≤ k < 2 ^ 20 → k ≠ c → pte (k_mem s2) d k = pte (k_mem s) d k).
  { intros k Hk Hkc. rewrite Hp2, decide_False, Hp1 by done. done. }
  assert (Hnew : pte (k_mem s2) d c = entry (V2P w) (PTE_FLAGS (pte (k_mem s0) p c))) by (rewrite Hp2 by lia; by rewrite decide_True).
  assert (Hkeep : ∀ k a, upage k → present (pte (k_mem s2) d k) = true → in_page (frame (k_mem s2) d k) a → k_mem s2 a = k_mem s1 a).
  { intros k a Hk Hp Ha. apply (gr_mem _ _ _ _ _ Hg). intros v Hv Hb. destruct (ao_frame _ _ _ _ Hok2 k Hk Hp) as (Hpg & Hno & _).
    apply Hno. rewrite (pages_apart kend _ v a Hpg); [done| |done|done]. eapply owns_page; [|done]. apply Hok2. }
  split.
  - eapply fresh_grow; [done|done|done|]. intros v. rewrite list_elem_of_singleton, elem_of_nil. split.
    + intros [(k & Hk & Hp & ->)|[]]. destruct (decide (k = c)) as [->|Hkc]; [right; unfold frame; by rewrite Hnew|].
      left. exists k. unfold frame. rewrite Hp2, decide_False in * by (done || lia). done.
    + intros [(k & Hk & Hp & ->)| ->]; left.
      * exists k. unfold frame. destruct (decide (k = c)) as [->|Hkc]; [|by rewrite Hp2, decide_False by (done || lia)].
        rewrite Hp1, Hrest in Hp; [done|lia|lia].
      * exists c. unfold frame. rewrite Hnew. done.
  - intros k Hk. destruct (decide (k = c)) as [->|Hkc].
    + unfold frame. rewrite Hnew, Hte, Hfe. split_and!; [done| |].
      * by apply flags_present.
      * intros o Ho. rewrite <-Hw by done. apply (Hkeep c); [unfold upage; lia|by rewrite Hnew|]. unfold frame. rewrite Hnew, Hte. unfold in_page. lia.
    + destruct (Hdone k ltac:(lia)) as (Hp & Hf & Hcont). unfold frame in *. rewrite Hpk by lia. split_and!; [done|done|].
      intros o Ho. rewrite <-Hcont by done. rewrite <-(Hm1 (table (pte (k_mem s) d k) + o)).
      * apply (Hkeep k); [unfold upage; lia|by rewrite Hpk by lia|]. unfold frame. rewrite Hpk by lia. unfold in_page. lia.
      * intros Hb. apply (Hwf k); [unfold upage; lia|by rewrite Hp1 by lia|]. unfold frame. rewrite Hp1 by lia.
        apply (pages_apart kend _ w (table (pte (k_mem s) d k) + o)); [|done|unfold in_page; lia|done].
        apply (ao_frame _ _ _ _ (fr_ok _ _ _ _ _ _ Hfr) k); [unfold upage; lia|done].
  - intros k Hk. rewrite Hpk by lia. apply Hrest. lia.
  - intros k Hk. rewrite Hpk by lia. apply Hkern. lia.
Qed.

(** The entry of a mapped user page, as [copyuvm] looks it up. *)
Lemma look_entry s d l n :
  as_ok s d l → upage n → present (pte (k_mem s) d n) = true →
  wp (walkpgdir d (PGSIZE * n) false) (λ p s', s' = s ∧ p ≠ 0 ∧ ldw (k_mem s) p = pte (k_mem s) d n) s.
Proof.
  intros Hok Hn Hp. assert (E : PGSIZE * n / PGSIZE = n) by (rewrite Z.mul_comm; by apply Z.div_mul).
  eapply wp_mono; [apply walkpgdir_look; unfold upage, PGSIZE in *; lia|]. rewrite E. intros q s' [-> ->]. split; [done|].
  unfold pte in *. destruct (present (pde (k_mem s) d (n / 1024))) eqn:Hpd; [|done]. split; [|done].
  apply (slot_nz Hkend); [apply Hok|unfold upage in Hn; lia|done].
Qed.

Lemma fresh_kfree s0 l0 s d l w :
  fresh s0 l0 s d l [w] → unused s d l w → wp (kfree kend w) (λ _ s', fresh s0 l0 s' d (w :: l) []) s.
Proof.
  intros [Hok Hpart Hmem] Hun. eapply wp_mono; [by apply (as_ok_kfree kend Hkend s d l w)|]. intros [] s' (Hok' & Hpde & Hpte & Hm).
  pose proof (λ w, owns_ext (k_mem s) (k_mem s') d w Hpde) as Ho.
  assert (Hfr : ∀ v, frames (k_mem s') d 0 USERTOP v ↔ frames (k_mem s) d 0 USERTOP v).
  { intros v. unfold frames, frame. split; intros (k & Hk & Hp & ->); exists k; rewrite Hpte in * by lia; done. }
  split; [done|..].
  - intros v. rewrite Hpart, Ho, Hfr. set_solver.
  - intros a Ha. rewrite Hm; [by apply Hmem|]. apply Ha, Hpart. set_solver.
Qed.

Lemma copyuvm_loop_spec s0 l0 p sz c s d l fuel :
  as_ok s0 p l0 → 0 ≤ sz ≤ KERNBASE → (∀ k, 0 ≤ k < npages sz → present (pte (k_mem s0) p k) = true) →
  copied s0 l0 p c s d l → 0 ≤ c ≤ npages sz → npages sz - c < Z.of_nat fuel →
  wp (copyuvm_loop kend p d (PGSIZE * c) sz fuel) (λ r s',
    (r = d ∧ ∃ l', copied s0 l0 p (npages sz) s' d l') ∨ (r = 0 ∧ short l0 (npages sz) ∧ ∃ l', released s0 l0 s' l')) s.
Proof.
  intros Hp0 Hsz Hpres. pose proof (vi_nodup _ _ _ (ao_vm _ _ _ _ Hp0)) as Hnd0. pose proof (npages_spec sz) as Htop. assert (Ht19 : npages sz ≤ USERTOP) by (unfold KERNBASE, PGSIZE in *; lia).
  revert c s l. induction fuel as [|fuel IH]; intros c s l Hcp Hc Hf; [lia|]. cbn [copyuvm_loop].
  destruct (Z.ltb_spec (PGSIZE * c) sz) as [Hlt|Hge].
  2: { apply wp_ret. left. split; [done|]. exists l. assert (c = npages sz) as <- by (unfold PGSIZE in *; lia). done. }
  assert (Hct : 0 ≤ c < npages sz) by (unfold PGSIZE in *; lia). assert (Hcu : upage c) by (unfold upage; lia).
  pose proof (cp_fresh _ _ _ _ _ _ _ Hcp) as Hfr. pose proof Hfr as [[[Hch Hnd _ _] _ _] Hpart Hmem].
  destruct (parent_kept s0 l0 p s l) as (Hps & _ & Hppte & Hpmem); [done|done|done|intros v Hv; apply Hpart; by left|done|].
  assert (Epc : pte (k_mem s) p c = pte (k_mem s0) p c) by (apply Hppte; lia). pose proof (Hpres c Hct) as Hpc.
  apply wp_bind. eapply wp_mono; [apply (look_entry s p l c); [done|done|by rewrite Epc]|]. intros q s' (-> & Hq & Eq).
  rewrite (proj2 (Z.eqb_neq _ _) Hq). unfold load. apply wp_gets. rewrite Eq, Epc, Hpc. cbn [negb].
  apply wp_bind. eapply wp_mono; [by apply fresh_kalloc|]. intros w s1 (Em & Hl). destruct l as [|w' l1].
  { destruct Hl as [-> ->]. cbn [Z.eqb]. apply wp_bind. eapply wp_mono; [by eapply freevm_ok|]. intros [] s3 Hrel. apply wp_ret. right. split_and!; [done| |done].
    apply (fresh_short s0 l0 s d c []); [done|done|lia|apply Hcp|cbn; lia]. }
  destruct Hl as (<- & Hnz & Hfr1 & Hun1). rewrite (proj2 (Z.eqb_neq _ _) Hnz). unfold memmove. apply wp_modify.
  fold (table (pte (k_mem s0) p c)). fold (frame (k_mem s0) p c).
  set (m2 := Kstring.memmove w (frame (k_mem s0) p c) PGSIZE (k_mem s1)).
  assert (Hm2 : ∀ a, m2 a = if decide (in_page w a) then k_mem s1 (frame (k_mem s0) p c + (a - w)) else k_mem s1 a) by (intros a; by apply memmove_spec).
  destruct (fresh_fill s0 l0 s1 d l1 w m2) as (Hfr2 & Hun2 & Hpte2); [done|done|intros a Ha; by rewrite Hm2, decide_False|].
  apply wp_bind. eapply wp_mono; [apply (map_fresh kend Hkend _ d l1 w c); [apply Hfr2|done|done| |]|].
  { cbn [k_mem set_mem]. rewrite Hpte2, Em by lia. apply (cp_rest _ _ _ _ _ _ _ Hcp). lia. }
  { rewrite PTE_FLAGS_eq. by apply Z.mod_pos_bound. }
  intros r s3 (l3 & Hok3 & Hg3 & [(-> & Hpte3)|(-> & -> & Hun3 & Hpte3)]); cbn [Z.ltb Z.compare]; cbn [k_mem set_mem] in *.
  - rewrite u32_small by (unfold PGSIZE in *; lia). replace (PGSIZE * c + PGSIZE) with (PGSIZE * (c + 1)) by lia.
    apply (IH (c + 1) s3 l3); [|lia|lia]. eapply (copied_map s0 l0 p c s d (w :: l1) w (set_mem m2 s1) l1); try done; cbn [k_mem set_mem].
    + intros n Hn. by rewrite Hpte2, Em.
    + intros a Ha. by rewrite Hm2, decide_False, Em.
    + intros o Ho. rewrite Hm2, decide_True by (unfold in_page; lia). rewrite Em. replace (w + o - w) with o by lia.
      apply (Hpmem c); [done|done|]. unfold in_page. lia.
  - assert (Hfr3 : fresh s0 l0 s3 d [] [w]).
    { eapply fresh_grow; [exact Hfr2|done|done|]. intros v. cbn [k_mem set_mem]. unfold frames, frame.
      split; (intros [(k & Hk & Hp & ->)|?]; [left; exists k|by right]); rewrite Hpte3 in * by lia; done. }
    apply wp_bind. eapply wp_mono; [by apply (fresh_kfree s0 l0 s3 d [] w)|].
    intros [] s4 Hfr4. apply wp_bind. eapply wp_mono; [by eapply freevm_ok|]. intros [] s5 Hrel. apply wp_ret. right. split_and!; [done| |done].
    apply (fresh_short s0 l0 s3 d c [w]); [done|done|lia| |cbn; lia]. intros k Hk. rewrite Hpte3, Hpte2, Em by lia. by apply Hcp.
Qed.

(** The child's address space: the bytes and the rights of the parent below [sz],
    no other user memory, the kernel's mappings, and pages of its own. *)
Record forked s0 p sz s d l : Prop := mkForked {
  fk_child : as_ok s d l;
  fk_parent : as_ok s p l;
  fk_bytes a : 0 ≤ a < KERNBASE → ubyte (k_mem s) d a = if decide (a < PGSIZE * npages sz) then ubyte (k_mem s0) p a else None;
  fk_flags n : 0 ≤ n < npages sz → PTE_FLAGS (pte (k_mem s) d n) = PTE_FLAGS (pte (k_mem s0) p n);
  fk_kernel n : USERTOP ≤ n < 2 ^ 20 → pte (k_mem s) d n = kernel_pte data n;
  fk_same a : 0 ≤ a < KERNBASE → ubyte (k_mem s) p a = ubyte (k_mem s0) p a;
  fk_apart n k : upage n → upage k → present (pte (k_mem s) d n) = true → present (pte (k_mem s) p k) = true →
    frame (k_mem s) d n ≠ frame (k_mem s) p k;
}.

Lemma page_bounds a : 0 ≤ a < KERNBASE → upage (a / PGSIZE).
Proof. intros Ha. unfold upage, KERNBASE, PGSIZE in *. split; [apply Z.div_pos; lia|apply Z.div_lt_upper_bound; lia]. Qed.

(** User access depends on the flags of the entry only. *)
Lemma user_bit e : Z.land e PTE_U = Z.land (PTE_FLAGS e) PTE_U.
Proof. unfold PTE_FLAGS. rewrite <-Z.land_assoc. done. Qed.

Lemma parent_bytes s0 l0 p s a :
  as_ok s0 p l0 → (∀ n, 0 ≤ n < 2 ^ 20 → pte (k_mem s) p n = pte (k_mem s0) p n) →
  (∀ n a, upage n → present (pte (k_mem s0) p n) = true → in_page (frame (k_mem s0) p n) a → k_mem s a = k_mem s0 a) →
  0 ≤ a < KERNBASE → ubyte (k_mem s) p a = ubyte (k_mem s0) p a.
Proof.
  intros Hok Hpte Hm Ha. pose proof (page_bounds a Ha) as Hn. unfold ubyte. rewrite Hpte by (unfold upage in Hn; lia).
  destruct (present (pte (k_mem s0) p (a / PGSIZE))) eqn:Hp; [|done]. cbn [andb]. case_match; [|done]. f_equal.
  apply (Hm (a / PGSIZE)); [done|done|]. pose proof (Z.mod_pos_bound a PGSIZE ltac:(done)). unfold in_page, frame. lia.
Qed.

Lemma copied_forked s0 l0 p sz s d l :
  as_ok s0 p l0 → 0 ≤ sz ≤ KERNBASE → (∀ k, 0 ≤ k < npages sz → present (pte (k_mem s0) p k) = true) →
  copied s0 l0 p (npages sz) s d l → forked s0 p sz s d l.
Proof.
  intros Hp0 Hsz Hpres [[Hok Hpart Hmem] Hdone Hrest Hkern]. pose proof Hok as [[Hch Hnd _ _] Hfrok _].
  destruct (parent_kept s0 l0 p s l) as (Hps & _ & Hppte & Hpmem); [done|done|done|intros v Hv; apply Hpart; by left|done|].
  split; [done|done| |intros n Hn; by apply Hdone|done| |].
  - intros a Ha. pose proof (page_bounds a Ha) as Hn. pose proof (page_offset a) as Hpo. unfold ubyte. case_decide as Hlt.
    + assert (Hk : 0 ≤ a / PGSIZE < npages sz) by (unfold upage, PGSIZE in *; lia). destruct (Hdone _ Hk) as (Hp & Hf & Hc).
      rewrite Hp, (Hpres _ Hk), user_bit, Hf, <-user_bit. cbn [andb]. case_match; [|done]. f_equal. apply Hc. by apply Z.mod_pos_bound.
    + rewrite Hrest; [done|]. unfold upage, PGSIZE in *. lia.
  - intros a. by eapply parent_bytes.
  - intros n k Hn Hk Hpn Hpk E. unfold frame at 2 in E. rewrite Hppte in E, Hpk by (unfold upage in Hk; lia).
    apply (ao_frame _ _ _ _ Hp0 k Hk Hpk). unfold frame at 1. rewrite <-E. apply Hpart. right. right. left. exists n. unfold upage in Hn. done.
Qed.

(** After a failure the parent is as before and every page is free that was. *)
Record fork_failed s0 l0 p s l : Prop := mkForkFailed {
  ff_parent : as_ok s p l;
  ff_free v : v ∈ l ↔ v ∈ l0;
  ff_same a : 0 ≤ a < KERNBASE → ubyte (k_mem s) p a = ubyte (k_mem s0) p a;
}.

Lemma released_failed s0 l0 p s l : as_ok s0 p l0 → released s0 l0 s l → fork_failed s0 l0 p s l.
Proof.
  intros Hp0 [Hc Hnd Hl Hm]. destruct (parent_kept s0 l0 p s l) as (Hps & _ & Hppte & Hpmem); [done|done|done|intros v; by rewrite Hl|done|].
  split; [done|done|]. intros a. by eapply parent_bytes.
Qed.

(** C9. fork copies an address space: the child sees the bytes of the parent with the same access
    rights in frames of its own, no other user memory, and the mappings of the kernel; the
    parent is unchanged. Without enough free pages for that nothing panics, every page that was
    free is free again and the parent is unchanged. It fails only then. *)
Theorem copyuvm_correct s p l sz :
  as_ok s p l → 0 ≤ sz ≤ KERNBASE → (∀ k, 0 ≤ k < npages sz → present (pte (k_mem s) p k) = true) →
  wp (copyuvm kend data p sz) (λ r s', ∃ l', (r ≠ 0 ∧ forked s p sz s' r l') ∨ (r = 0 ∧ short l (npages sz) ∧ fork_failed s l p s' l')) s.
Proof.
  intros Hok Hsz Hpres. pose proof Hok as [[Hc Hnd _ _] _ _]. unfold copyuvm. apply wp_bind.
  eapply wp_mono; [by apply (setupkvm_ok s l)|]. intros d s1 [(Hnz & l1 & Hfr & Hpte)|(-> & Hsh & l1 & Hrel)].
  2: { cbn [Z.eqb]. apply wp_ret. exists l1. right. split; [done|]. pose proof (npages_nonneg sz ltac:(lia)). split; [unfold short in *; lia|]. by apply released_failed. }
  rewrite (proj2 (Z.eqb_neq _ _) Hnz). pose proof (npages_spec sz). pose proof (npages_nonneg sz ltac:(lia)).
  eapply wp_mono; [apply (copyuvm_loop_spec s l p sz 0 s1 d l1); [done|done|done| |lia|unfold PGSIZE in *; Z.to_euclidean_division_equations; lia]|].
  - split; [done|lia| |intros k Hk; apply Hpte; lia]. intros k Hk. rewrite Hpte by lia. unfold kernel_pte. rewrite !decide_False; [done|..].
    + change (DEVSPACE / PGSIZE) with 1040384. lia.
    + change (KERNBASE / PGSIZE) with 524288. lia.
  - intros r s2 [(-> & l2 & Hcp)|(-> & Hsh & l2 & Hrel)]; exists l2; [left|right]; (split; [done|]); [by eapply copied_forked|]. split; [done|by apply released_failed].
Qed.
End copy.
