(* ===== verification/VmExample.v ===== *)
(** * An address space

    An empty directory beside three free pages, grown to two user pages.  The
    theorems about vm.c at these states. *)

From S2P Require Import Prelude CString Kalloc Vm PageTable AddrSpace CopyVm.

Definition vx_dir : Z := KERNBASE + 8192.
Definition vx_free : list Z := [KERNBASE + 12288; KERNBASE + 16384; KERNBASE + 20480].
Definition vx_mem : mem :=
  stw (KERNBASE + 12288) (KERNBASE + 16384) (stw (KERNBASE + 16384) (KERNBASE + 20480) (λ _, Byte.x00)).
Definition vx : kst := mkKst vx_mem 0 (KERNBASE + 12288).

Lemma vx_pde i : 0 ≤ i < 1024 → pde vx_mem vx_dir i = 0.
Proof.
  intros Hi. unfold pde, vx_mem, vx_dir. rewrite !ldw_stw_ne by lia. unfold ldw. reflexivity.
Qed.

Lemma vx_pte n : 0 ≤ n < 2 ^ 20 → pte vx_mem vx_dir n = 0.
Proof.
  intros Hn. unfold pte. rewrite vx_pde; [done|]. split; [apply Z.div_pos; lia|]. apply Z.div_lt_upper_bound; lia.
Qed.

Lemma vx_owns v : owns vx_mem vx_dir v → v = vx_dir.
Proof. intros [->|(i & Hi & Hp & _)]; [done|]. by rewrite vx_pde in Hp. Qed.

Lemma vx_chain : chain ex_kend vx_mem (KERNBASE + 12288) vx_free.
Proof. repeat split; vm_compute; congruence. Qed.

Lemma vx_inv : vm_inv ex_kend vx vx_dir vx_free.
Proof.
  split.
  - exact vx_chain.
  - refine (bool_decide_unpack _ _). vm_compute. exact I.
  - split; [repeat split; vm_compute; congruence|..]; intros i; [intros Hi Hp|intros j Hi Hj Hp]; change (k_mem vx) with vx_mem in Hp; by rewrite (vx_pde i) in Hp.
  - intros v Hv Ho%vx_owns. subst v. unfold vx_free in Hv. rewrite !elem_of_cons, elem_of_nil in Hv. unfold vx_dir in Hv. lia.
Qed.

Lemma vx_ok : as_ok ex_kend vx vx_dir vx_free.
Proof.
  split; [exact vx_inv|..]; unfold upage.
  - intros n Hn Hp. change (k_mem vx) with vx_mem in Hp. by rewrite vx_pte in Hp by lia.
  - intros n k Hn Hk Hp. change (k_mem vx) with vx_mem in Hp. by rewrite vx_pte in Hp by lia.
Qed.

(** Two pages, mapped at the bottom. *)
Definition ret_of {S A} (r : res S A) : option A := match r with Ok a _ => Some a | _ => None end.

Lemma run_ok {A} (m : M kst A) (Q : A → kst → Prop) s r : wp m Q s → ret_of (m s) = Some r → Q r (st_of (m s)).
Proof. unfold wp. destruct (m s); cbn; naive_solver. Qed.

Definition vx2 : kst := st_of (allocuvm ex_kend vx_dir 0 8192 vx).

Lemma vx2_grown : ∃ l, grown ex_kend vx vx_dir vx_free 0 2 [] vx2 l.
Proof.
  assert (Hno : ∀ k, npages 0 ≤ k < npages 8192 → present (pte (k_mem vx) vx_dir k) = false).
  { intros k Hk. change (k_mem vx) with vx_mem. change (npages 8192) with 2 in Hk. change (npages 0) with 0 in Hk. by rewrite vx_pte by lia. }
  pose proof (allocuvm_ok ex_kend eq_refl vx vx_dir vx_free 0 8192 vx_ok ltac:(lia) Hno) as H.
  assert (Hr : ret_of (allocuvm ex_kend vx_dir 0 8192 vx) = Some 8192) by (vm_compute; reflexivity).
  apply (run_ok _ _ _ _ H) in Hr. destruct Hr as [(_ & _ & l & Hl)|[(_ & Hr & _)|(_ & Hr & _)]]; [|discriminate Hr..]. exists l. exact Hl.
Qed.

Lemma user_byte m d a :
  present (pte m d (a / PGSIZE)) = true → PTE_FLAGS (pte m d (a / PGSIZE)) = Z.lor (Z.lor PTE_P PTE_W) PTE_U → is_Some (ubyte m d a).
Proof.
  intros Hp Hf. unfold ubyte. rewrite Hp. cbn [andb]. change PTE_U with (Z.land 4095 PTE_U) at 1. rewrite Z.land_assoc.
  unfold PTE_FLAGS in Hf. rewrite Hf. by eexists.
Qed.

Lemma vx2_user a : 0 ≤ a < 8192 → is_Some (ubyte (k_mem vx2) vx_dir a).
Proof.
  intros Ha. destruct vx2_grown as [l Hl].
  destruct (gn_new _ _ _ _ _ _ _ _ _ Hl (a / PGSIZE)) as (Hp & Hf & _).
  { split; [apply Z.div_pos; [lia|done]|]. apply Z.div_lt_upper_bound; [done|]. unfold PGSIZE. lia. }
  exact (user_byte _ _ _ Hp Hf).
Qed.

(** ** The theorems at these states *)

Lemma mappages_correct_witness :
  wp (mappages vx_dir 4096 5000 65536 6) (λ r s', ∃ l' c,
    vm_inv ex_kend s' vx_dir l' ∧ grow vx_mem vx_dir vx_free (k_mem s') l' ∧
    (∀ j, 0 ≤ j < 2 ^ 20 → pte (k_mem s') vx_dir j =
       if decide (1 ≤ j < c) then entry (u32 (65536 + PGSIZE * (j - 1))) 6 else pte vx_mem vx_dir j) ∧
    ((r = 0 ∧ c = 3) ∨ (r = -1 ∧ 1 ≤ c < 3 ∧ l' = []))) vx.
Proof.
  refine (mappages_correct ex_kend eq_refl vx vx_dir vx_free 4096 5000 65536 6 vx_inv _ _ _ _ _ _ _); [lia|lia|lia|reflexivity|lia|unfold PGSIZE; lia|].
  intros j Hj. change (k_mem vx) with vx_mem. change (4096 / PGSIZE) with 1 in Hj. change ((4096 + 5000 - 1) / PGSIZE + 1) with 3 in Hj. by rewrite vx_pte by lia.
Defined.

Lemma allocuvm_correct_witness :
  wp (allocuvm ex_kend vx_dir 0 5000) (λ r s',
    (5000 < KERNBASE ∧ r = 5000 ∧ ∃ l', grown ex_kend vx vx_dir vx_free 0 2 [] s' l') ∨
    (5000 < KERNBASE ∧ r = 0 ∧ short vx_free (2 - 0) ∧ ∃ l', shrunk ex_kend vx vx_dir vx_free 0 2 [] s' l') ∨ (KERNBASE ≤ 5000 ∧ r = 0 ∧ s' = vx)) vx.
Proof.
  refine (allocuvm_correct ex_kend eq_refl vx vx_dir vx_free 0 5000 vx_ok _ _); [lia|].
  intros k Hk. change (k_mem vx) with vx_mem. change (npages 5000) with 2 in Hk. change (npages 0) with 0 in Hk. by rewrite vx_pte by lia.
Defined.

Lemma deallocuvm_correct_witness :
  ∃ l, wp (deallocuvm ex_kend vx_dir 8192 100) (λ r s', r = 100 ∧ ∃ l', unmapped ex_kend vx2 vx_dir l 1 2 s' l') vx2.
Proof.
  destruct vx2_grown as [l Hl]. exists l. refine (deallocuvm_correct ex_kend eq_refl vx2 vx_dir l 8192 100 (gn_ok _ _ _ _ _ _ _ _ _ Hl) _ _); vm_compute; congruence.
Defined.

Lemma copyout_correct_witness :
  ∃ l, wp (copyout vx_dir 4094 [Byte.x61; Byte.x62; Byte.x63] 3) (λ r s', r = 0 ∧ as_ok ex_kend s' vx_dir l ∧
    (∀ k, 0 ≤ k < 2 ^ 20 → pte (k_mem s') vx_dir k = pte (k_mem vx2) vx_dir k) ∧
    ∀ a, 0 ≤ a < KERNBASE → ubyte (k_mem s') vx_dir a =
      if decide (4094 ≤ a < 4094 + 3) then Some ([Byte.x61; Byte.x62; Byte.x63] !!! Z.to_nat (a - 4094)) else ubyte (k_mem vx2) vx_dir a) vx2.
Proof.
  destruct vx2_grown as [l Hl]. exists l.
  refine (copyout_correct ex_kend eq_refl vx2 vx_dir l 4094 [Byte.x61; Byte.x62; Byte.x63] (gn_ok _ _ _ _ _ _ _ _ _ Hl) _ _ _); [lia|vm_compute; congruence|].
  intros a Ha. cbn in Ha. apply vx2_user. lia.
Defined.

Lemma copyuvm_correct_witness :
  ∃ l, wp (copyuvm ex_kend (KERNLINK + 32768) vx_dir 5000) (λ r s', ∃ l',
    (r ≠ 0 ∧ forked ex_kend (KERNLINK + 32768) vx2 vx_dir 5000 s' r l') ∨ (r = 0 ∧ short l 2 ∧ fork_failed ex_kend vx2 l vx_dir s' l')) vx2.
Proof.
  destruct vx2_grown as [l Hl]. exists l. refine (copyuvm_correct ex_kend eq_refl (KERNLINK + 32768) _ vx2 vx_dir l 5000 (gn_ok _ _ _ _ _ _ _ _ _ Hl) _ _).
  - vm_compute. split; [reflexivity|split; reflexivity].
  - unfold KERNBASE. lia.
  - intros k Hk. apply (gn_new _ _ _ _ _ _ _ _ _ Hl). exact Hk.
Defined.
