(* ===== verification/Fcntl.v ===== *)
(** * Open modes and descriptors (src/fcntl.h, src/sysfile.c)

    What the system calls and the shell share. *)

From S2P Require Import Prelude.

Definition O_RDONLY : Z := 0.
Definition O_WRONLY : Z := 1.
Definition O_RDWR : Z := 2.
Definition O_CREATE : Z := 512.

Definition NOFILE : nat := 16.

(** The first free descriptor of a process. *)
Fixpoint find_fd {A} (l : list (option A)) (fd : nat) : option nat :=
  match l with
  | [] => None
  | None :: _ => Some fd
  | Some _ :: l => find_fd l (S fd)
  end.

(** [find_fd] finds a free slot. *)
Lemma find_fd_spec {A} (l : list (option A)) i n : find_fd l i = Some n → (i ≤ n)%nat ∧ l !! (n - i)%nat = Some None.
Proof.
  revert i. induction l as [|[a|] l IH]; intros i H; cbn in H; [done| |].
  - apply IH in H as [H1 H2]. split; [lia|]. replace (n - i)%nat with (S (n - S i)) by lia. done.
  - simplify_eq. split; [lia|]. by rewrite Nat.sub_diag.
Qed.
