(* ===== verification/Spinlock.v ===== *)
(** * Spin locks and interrupt nesting (src/spinlock.c, src/proc.c)

    A machine is its CPUs and its locks.  A CPU executes [acquire] and [release]
    in several steps, one per access to the lock, and the steps of the CPUs
    interleave: the [xchg] is atomic, the rest is not. *)

From S2P Require Import Prelude.

(** [apicid], the interrupt flag of [eflags], [ncli], [intena]. *)
Record cpu : Type := mkCpu {
  c_apicid : Z;
  c_if : bool;
  c_ncli : Z;
  c_intena : bool;
}.

Record spinlock : Type := mkSpinlock {
  lk_locked : Z;
  lk_cpu : option nat;
}.

Record mach : Type := mkMach {
  m_cpus : list cpu;
  m_locks : nat → spinlock;
}.

#[global] Instance cpu_inhabited : Inhabited cpu := populate (mkCpu 0 false 0 false).
#[global] Instance spinlock_eq_dec : EqDecision spinlock.
Proof. solve_decision. Defined.

Definition initlock : spinlock := mkSpinlock 0 None.

Definition upd_cpu (c : nat) (f : cpu → cpu) : M mach unit := modify (λ s, mkMach (alter f c (m_cpus s)) (m_locks s)).
Definition upd_lock (l : nat) (f : spinlock → spinlock) : M mach unit :=
  modify (λ s, mkMach (m_cpus s) (<[l := f (m_locks s l)]> (m_locks s))).

Definition set_if (b : bool) (x : cpu) : cpu := mkCpu (c_apicid x) b (c_ncli x) (c_intena x).
Definition set_ncli (n : Z) (x : cpu) : cpu := mkCpu (c_apicid x) (c_if x) n (c_intena x).
Definition set_intena (b : bool) (x : cpu) : cpu := mkCpu (c_apicid x) (c_if x) (c_ncli x) b.

(** [readeflags() & FL_IF], executed on CPU [c]. *)
Definition readeflags (c : nat) : M mach bool := gets (λ s, c_if (m_cpus s !!! c)).

(** The index in [cpus] of the CPU with the APIC id. *)
Fixpoint find_apicid (id : Z) (cs : list cpu) (i : nat) : option nat :=
  match cs with
  | [] => None
  | x :: cs => if c_apicid x =? id then Some i else find_apicid id cs (S i)
  end.

Definition mycpu (c : nat) : M mach nat :=
  fl ← readeflags c;
  if (fl : bool) then panic "mycpu called with interrupts enabled"
  else
    s ← getS;
    match find_apicid (c_apicid (m_cpus s !!! c)) (m_cpus s) 0 with
    | Some i => mret i
    | None => panic "unknown apicid"
    end.

Definition pushcli (c : nat) : M mach unit :=
  eflags ← readeflags c;
  upd_cpu c (set_if false);;
  i ← mycpu c;
  s ← getS;
  (if c_ncli (m_cpus s !!! i) =? 0 then upd_cpu i (set_intena eflags) else mret tt);;
  upd_cpu i (λ x, set_ncli (c_ncli x + 1) x).

Definition popcli (c : nat) : M mach unit :=
  eflags ← readeflags c;
  if (eflags : bool) then panic "popcli - interruptible"
  else
    i ← mycpu c;
    upd_cpu i (λ x, set_ncli (c_ncli x - 1) x);;
    s ← getS;
    if c_ncli (m_cpus s !!! i) <? 0 then panic "popcli"
    else if (c_ncli (m_cpus s !!! i) =? 0) && c_intena (m_cpus s !!! i) then upd_cpu c (set_if true)
    else mret tt.

Definition holding (c l : nat) : M mach bool :=
  pushcli c;;
  i ← mycpu c;
  s ← getS;
  let r := negb (lk_locked (m_locks s l) =? 0) && bool_decide (lk_cpu (m_locks s l) = Some i) in
  popcli c;;
  mret r.

(** The steps of [acquire]: up to the loop, one [xchg], and the note of the owner. *)
Definition acquire_enter (c l : nat) : M mach unit :=
  pushcli c;;
  h ← holding c l;
  if (h : bool) then panic "acquire" else mret tt.

Definition xchg (l : nat) (v : Z) : M mach Z :=
  s ← getS;
  upd_lock l (λ x, mkSpinlock v (lk_cpu x));;
  mret (lk_locked (m_locks s l)).

Definition acquire_own (c l : nat) : M mach unit :=
  i ← mycpu c;
  upd_lock l (λ x, mkSpinlock (lk_locked x) (Some i)).

(** [acquire] run without interruption: it waits while the lock is taken. *)
Definition acquire (c l : nat) : M mach unit :=
  acquire_enter c l;;
  old ← xchg l 1;
  if negb (old =? 0) then sleeps else acquire_own c l.

(** The steps of [release]. *)
Definition release_check (c l : nat) : M mach unit :=
  h ← holding c l;
  if negb h then panic "release" else mret tt.
Definition release_disown (l : nat) : M mach unit := upd_lock l (λ x, mkSpinlock (lk_locked x) None).
Definition release_store (l : nat) : M mach unit := upd_lock l (λ x, mkSpinlock 0 (lk_cpu x)).

Definition release (c l : nat) : M mach unit :=
  release_check c l;; release_disown l;; release_store l;; popcli c.

(** ** CPUs running concurrently *)

(** Where a CPU stands: outside the lock code, or inside for lock [l]. *)
Inductive phase : Type :=
  | Run
  | Spin (l : nat)   (* in the xchg loop *)
  | Got (l : nat)    (* the xchg returned 0 *)
  | Rel1 (l : nat)   (* about to clear the owner *)
  | Rel2 (l : nat)   (* about to clear the lock word *)
  | Rel3.            (* about to call popcli *)

(** The locks a CPU holds and its phase. *)
Record thread : Type := mkThread { t_held : list nat; t_phase : phase }.
#[global] Instance thread_inhabited : Inhabited thread := populate (mkThread [] Run).

Record smp : Type := mkSmp { sm_mach : mach; sm_thr : list thread }.

(** The state that CPU [c] leaves after an action, with its next thread state. *)
Definition goes (c : nat) (s : smp) (m : M mach unit) (t : thread) (s' : smp) : Prop :=
  ∃ x, m (sm_mach s) = Ok tt x ∧ s' = mkSmp x (<[c := t]> (sm_thr s)).

Inductive sstep (c : nat) (s : smp) : smp → Prop :=
| ss_enter l held s' : sm_thr s !! c = Some (mkThread held Run) → goes c s (acquire_enter c l) (mkThread held (Spin l)) s' → sstep c s s'
| ss_xchg l held old x : sm_thr s !! c = Some (mkThread held (Spin l)) → xchg l 1 (sm_mach s) = Ok old x →
    sstep c s (mkSmp x (<[c := mkThread held (if old =? 0 then Got l else Spin l)]> (sm_thr s)))
| ss_own l held s' : sm_thr s !! c = Some (mkThread held (Got l)) → goes c s (acquire_own c l) (mkThread (l :: held) Run) s' → sstep c s s'
| ss_check l held s' : sm_thr s !! c = Some (mkThread held Run) → goes c s (release_check c l) (mkThread (filter (λ k, k ≠ l) held) (Rel1 l)) s' → sstep c s s'
| ss_disown l held s' : sm_thr s !! c = Some (mkThread held (Rel1 l)) → goes c s (release_disown l) (mkThread held (Rel2 l)) s' → sstep c s s'
| ss_store l held s' : sm_thr s !! c = Some (mkThread held (Rel2 l)) → goes c s (release_store l) (mkThread held Rel3) s' → sstep c s s'
| ss_pop held s' : sm_thr s !! c = Some (mkThread held Rel3) → goes c s (popcli c) (mkThread held Run) s' → sstep c s s'.

(** ** Interrupt nesting *)

Section cli.
Implicit Types (s : mach) (c l : nat) (x : cpu).

Definition cpu_ok s c : Prop := (c < length (m_cpus s))%nat ∧ NoDup (c_apicid <$> m_cpus s).

Definition with_cpu s c x : mach := mkMach (<[c := x]> (m_cpus s)) (m_locks s).

(** What [pushcli] and [popcli] do to their CPU. *)
Definition pushed x : cpu := mkCpu (c_apicid x) false (c_ncli x + 1) (if c_ncli x =? 0 then c_if x else c_intena x).
Definition popped x : cpu := mkCpu (c_apicid x) ((c_ncli x =? 1) && c_intena x) (c_ncli x - 1) (c_intena x).

Lemma find_apicid_nodup cs c i x :
  NoDup (c_apicid <$> cs) → cs !! c = Some x → find_apicid (c_apicid x) cs i = Some (i + c)%nat.
Proof.
  revert c i. induction cs as [|y cs IH]; intros c i Hnd Hc; [done|]. cbn [find_apicid]. apply NoDup_cons in Hnd as [Hy Hnd].
  destruct c as [|c]; simpl in Hc.
  - simplify_eq. rewrite Z.eqb_refl. f_equal. lia.
  - assert (c_apicid x ≠ c_apicid y).
    { intros E. apply Hy. rewrite <-E. apply list_elem_of_fmap. exists x. split; [done|]. by eapply list_elem_of_lookup_2. }
    rewrite (proj2 (Z.eqb_neq _ _)) by done. rewrite (IH c (S i)) by done. f_equal. lia.
Qed.

Lemma upd_cpu_eq c f s : upd_cpu c f s = Ok tt (with_cpu s c (f (m_cpus s !!! c))).
Proof. unfold upd_cpu, modify, with_cpu. by rewrite alter_insert. Qed.

Lemma mycpu_eq s c : cpu_ok s c → c_if (m_cpus s !!! c) = false → mycpu c s = Ok c s.
Proof.
  intros [Hc Hnd] Hif. unfold mycpu, readeflags, gets, mbind, M_bind. rewrite Hif. cbn. unfold getS.
  destruct (lookup_lt_is_Some_2 (m_cpus s) c Hc) as [x Hx]. rewrite (list_lookup_total_correct _ _ _ Hx).
  by rewrite (find_apicid_nodup _ c 0 x Hnd Hx).
Qed.

Lemma apicids_insert (cs : list cpu) i x : c_apicid x = c_apicid (cs !!! i) → c_apicid <$> <[i := x]> cs = c_apicid <$> cs.
Proof.
  intros Hx. destruct (decide (i < length cs)%nat) as [Hi|Hi]; [|by rewrite list_insert_ge by lia].
  rewrite list_fmap_insert. apply list_insert_id. rewrite list_lookup_fmap, (list_lookup_lookup_total_lt cs i Hi). cbn. by rewrite Hx.
Qed.

Lemma cpu_ok_with s c i x : c_apicid x = c_apicid (m_cpus s !!! i) → cpu_ok s c → cpu_ok (with_cpu s i x) c.
Proof. intros Hx [Hc Hnd]. unfold cpu_ok, with_cpu. cbn. rewrite length_insert, apicids_insert by done. done. Qed.

Lemma with_cpu_same s c x y : with_cpu (with_cpu s c x) c y = with_cpu s c y.
Proof. unfold with_cpu. cbn. by rewrite list_insert_insert_eq. Qed.

Lemma with_cpu_at s c x : (c < length (m_cpus s))%nat → m_cpus (with_cpu s c x) !!! c = x.
Proof. intros. unfold with_cpu. cbn. by apply list_lookup_total_insert_eq. Qed.

Lemma pushcli_eq s c : cpu_ok s c → pushcli c s = Ok tt (with_cpu s c (pushed (m_cpus s !!! c))).
Proof.
  intros Hok. pose proof (proj1 Hok) as Hc. set (x := m_cpus s !!! c). unfold pushcli, readeflags, gets.
  erewrite bind_Ok by done. erewrite bind_Ok by apply upd_cpu_eq. fold x. set (s1 := with_cpu s c (set_if false x)).
  assert (Hok1 : cpu_ok s1 c) by (by apply cpu_ok_with).
  assert (Hx1 : m_cpus s1 !!! c = set_if false x) by (by apply with_cpu_at).
  erewrite bind_Ok by (apply mycpu_eq; [done|by rewrite Hx1]). unfold getS. erewrite bind_Ok by done. rewrite Hx1. cbn [set_if c_ncli].
  unfold pushed. destruct (c_ncli x =? 0).
  - erewrite bind_Ok by apply upd_cpu_eq. rewrite upd_cpu_eq, Hx1. unfold s1. rewrite !with_cpu_same, with_cpu_at by done. done.
  - erewrite bind_Ok by done. rewrite upd_cpu_eq, Hx1. unfold s1. rewrite with_cpu_same. done.
Qed.

Lemma popcli_eq s c :
  let x := m_cpus s !!! c in
  cpu_ok s c → c_if x = false → 1 ≤ c_ncli x → popcli c s = Ok tt (with_cpu s c (popped x)).
Proof.
  intros x Hok Hif Hn. pose proof (proj1 Hok) as Hc. unfold popcli, readeflags, gets. erewrite bind_Ok by done. fold x. rewrite Hif.
  erewrite bind_Ok by (by apply mycpu_eq). erewrite bind_Ok by apply upd_cpu_eq. fold x. unfold getS. erewrite bind_Ok by done.
  rewrite with_cpu_at by done. cbn [set_ncli c_ncli c_intena]. rewrite (proj2 (Z.ltb_ge _ _)) by lia. unfold popped.
  replace (c_ncli x - 1 =? 0) with (c_ncli x =? 1) by (destruct (Z.eqb_spec (c_ncli x) 1), (Z.eqb_spec (c_ncli x - 1) 0); lia).
  destruct ((c_ncli x =? 1) && c_intena x).
  - rewrite upd_cpu_eq, with_cpu_at, with_cpu_same by done. done.
  - unfold mret, M_ret. f_equal. f_equal. unfold set_ncli. by rewrite Hif.
Qed.

(** [pushcli] and [popcli] around a body nest: the flag comes back as it was. *)
Definition probed x : cpu := mkCpu (c_apicid x) (c_if x) (c_ncli x) (if c_ncli x =? 0 then c_if x else c_intena x).

Lemma popped_pushed x : 0 ≤ c_ncli x → (0 < c_ncli x → c_if x = false) → popped (pushed x) = probed x.
Proof.
  intros Hn Hif. unfold popped, pushed, probed. cbn. replace (c_ncli x + 1 - 1) with (c_ncli x) by lia. f_equal.
  destruct (Z.eqb_spec (c_ncli x) 0) as [->|Hne]; [done|]. rewrite (proj2 (Z.eqb_neq _ _)) by lia. rewrite Hif by lia. done.
Qed.

Lemma holding_eq s c l :
  let x := m_cpus s !!! c in
  cpu_ok s c → 0 ≤ c_ncli x → (0 < c_ncli x → c_if x = false) →
  holding c l s = Ok (negb (lk_locked (m_locks s l) =? 0) && bool_decide (lk_cpu (m_locks s l) = Some c)) (with_cpu s c (probed x)).
Proof.
  intros x Hok Hn Hif. pose proof (proj1 Hok) as Hc. unfold holding. erewrite bind_Ok by (by apply pushcli_eq). fold x.
  set (s1 := with_cpu s c (pushed x)). assert (Hok1 : cpu_ok s1 c) by (by apply cpu_ok_with).
  assert (Hx1 : m_cpus s1 !!! c = pushed x) by (by apply with_cpu_at).
  erewrite bind_Ok by (apply mycpu_eq; [done|by rewrite Hx1]). unfold getS. erewrite bind_Ok by done. cbv zeta.
  erewrite bind_Ok by (apply popcli_eq; [done|by rewrite Hx1|rewrite Hx1; cbn; lia]). rewrite Hx1.
  unfold s1. rewrite with_cpu_same, popped_pushed by done. done.
Qed.
End cli.

(** ** Mutual exclusion *)

(** From the [xchg] to the store that frees it a CPU owns the lock; [lk_cpu] names
    it for a part of that time. *)
Definition owns_lock (t : thread) (l : nat) : Prop :=
  l ∈ t_held t ∨ t_phase t = Got l ∨ t_phase t = Rel1 l ∨ t_phase t = Rel2 l.
Definition recorded (t : thread) (l : nat) : Prop := l ∈ t_held t ∨ t_phase t = Rel1 l.
Definition busy (p : phase) : Z := match p with Run => 0 | _ => 1 end.
Definition phase_lock (p : phase) : option nat :=
  match p with Spin l | Got l | Rel1 l | Rel2 l => Some l | Run | Rel3 => None end.

(** One CPU: [ncli] counts its locks, and with [ncli] positive interrupts are off
    and [intena] remembers the flag [i] they had. *)
Record thr_ok (i : bool) (x : cpu) (t : thread) : Prop := mkThrOk {
  to_nodup : NoDup (t_held t);
  to_ncli : c_ncli x = Z.of_nat (length (t_held t)) + busy (t_phase t);
  to_if0 : c_ncli x = 0 → c_if x = i;
  to_if1 : 0 < c_ncli x → c_if x = false ∧ c_intena x = i;
  to_fresh l : phase_lock (t_phase t) = Some l → l ∉ t_held t;
}.

Record smp_inv (i0 : nat → bool) (s : smp) : Prop := mkSmpInv {
  si_len : length (sm_thr s) = length (m_cpus (sm_mach s));
  si_apic : NoDup (c_apicid <$> m_cpus (sm_mach s));
  si_thr c t : sm_thr s !! c = Some t → thr_ok (i0 c) (m_cpus (sm_mach s) !!! c) t;
  si_one l c c' t t' : sm_thr s !! c = Some t → sm_thr s !! c' = Some t' → owns_lock t l → owns_lock t' l → c = c';
  si_word l :
    (lk_locked (m_locks (sm_mach s) l) = 1 ∧ ∃ c t, sm_thr s !! c = Some t ∧ owns_lock t l) ∨
    (lk_locked (m_locks (sm_mach s) l) = 0 ∧ ∀ c t, sm_thr s !! c = Some t → ¬ owns_lock t l);
  si_cpu l c : lk_cpu (m_locks (sm_mach s) l) = Some c ↔ ∃ t, sm_thr s !! c = Some t ∧ recorded t l;
}.

Section mutex.
Variable i0 : nat → bool.
Implicit Types (s : smp) (c l : nat) (t : thread).

(** Nobody but [c] owns [l]. *)
Definition alone s c l : Prop := ∀ c' t, c' ≠ c → sm_thr s !! c' = Some t → ¬ owns_lock t l.

(** A step of CPU [c] that concerns lock [l] only. *)
Lemma inv_step s c t l x' t' ms' :
  smp_inv i0 s → sm_thr s !! c = Some t → thr_ok (i0 c) x' t' → c_apicid x' = c_apicid (m_cpus (sm_mach s) !!! c) →
  (∀ k, k ≠ l → ms' k = m_locks (sm_mach s) k ∧ (owns_lock t' k ↔ owns_lock t k) ∧ (recorded t' k ↔ recorded t k)) →
  (owns_lock t' l ∧ lk_locked (ms' l) = 1 ∧ alone s c l ∨
   ¬ owns_lock t' l ∧ lk_locked (ms' l) = 0 ∧ alone s c l ∨
   ¬ owns_lock t' l ∧ ¬ owns_lock t l ∧ lk_locked (ms' l) = lk_locked (m_locks (sm_mach s) l)) →
  (∀ c', lk_cpu (ms' l) = Some c' ↔ if decide (c' = c) then recorded t' l else lk_cpu (m_locks (sm_mach s) l) = Some c') →
  smp_inv i0 (mkSmp (mkMach (<[c := x']> (m_cpus (sm_mach s))) ms') (<[c := t']> (sm_thr s))).
Proof.
  intros [Hlen Hap Hthr Hone Hword Hcpu] Ht Hok Hid Hk Hl Hc. pose proof (lookup_lt_Some _ _ _ Ht) as Hlt.
  assert (Hget : ∀ c' t2, <[c := t']> (sm_thr s) !! c' = Some t2 ↔ (c' = c ∧ t2 = t') ∨ (c' ≠ c ∧ sm_thr s !! c' = Some t2)).
  { intros c' t2. rewrite list_lookup_insert_Some. naive_solver. }
  split; cbn.
  - by rewrite !length_insert.
  - by rewrite apicids_insert.
  - intros c' t2 [[-> ->]|[Hne H2]]%Hget.
    + rewrite list_lookup_total_insert_eq by lia. done.
    + rewrite list_lookup_total_insert_ne by done. by apply Hthr.
  - intros k c1 c2 t1 t2 [[-> ->]|[Hn1 H1]]%Hget [[-> ->]|[Hn2 H2]]%Hget Ho1 Ho2; [done|..].
    + destruct (decide (k = l)) as [->|Hne]; [|symmetry; apply (Hone k c2 c t2 t); try done; by apply Hk].
      destruct Hl as [(_ & _ & Ha)|[(? & _)|(? & _)]]; [|done..]. by destruct (Ha c2 t2 Hn2 H2).
    + destruct (decide (k = l)) as [->|Hne]; [|apply (Hone k c1 c t1 t); try done; by apply Hk].
      destruct Hl as [(_ & _ & Ha)|[(? & _)|(? & _)]]; [|done..]. by destruct (Ha c1 t1 Hn1 H1).
    + by eapply Hone.
  - intros k. destruct (decide (k = l)) as [->|Hne].
    + destruct Hl as [(Ho & Hw & Ha)|[(Ho & Hw & Ha)|(Ho & Ho' & Hw)]].
      * left. split; [done|]. exists c, t'. rewrite Hget. auto.
      * right. split; [done|]. intros c2 t2 [[-> ->]|[Hn2 H2]]%Hget; [done|]. by apply (Ha c2).
      * rewrite Hw. destruct (Hword l) as [(Hw1 & c2 & t2 & H2 & Ho2)|(Hw0 & Hno)].
        -- left. split; [done|]. exists c2, t2. rewrite Hget. split; [|done]. right. split; [|done]. intros ->. by simplify_eq.
        -- right. split; [done|]. intros c2 t2 [[-> ->]|[Hn2 H2]]%Hget; [done|]. by apply (Hno c2).
    + destruct (Hk k Hne) as (-> & Ho & _). destruct (Hword k) as [(Hw1 & c2 & t2 & H2 & Ho2)|(Hw0 & Hno)].
      * left. split; [done|]. destruct (decide (c2 = c)) as [->|].
        -- simplify_eq. exists c, t'. rewrite Hget, Ho. auto.
        -- exists c2, t2. rewrite Hget. auto.
      * right. split; [done|]. intros c2 t2 [[-> ->]|[Hn2 H2]]%Hget; [rewrite Ho; by apply (Hno c)|by apply (Hno c2)].
  - intros k c2. destruct (decide (k = l)) as [->|Hne].
    + rewrite Hc. case_decide as E.
      * subst c2. split; [intros Hr; exists t'; rewrite Hget; auto|]. intros (t2 & [[_ ->]|[? _]]%Hget & Hr); done.
      * rewrite Hcpu. split; [intros (t2 & ? & ?); exists t2; rewrite Hget; auto|].
        intros (t2 & [[? _]|[_ H2]]%Hget & Hr); [done|]. eauto.
    + destruct (Hk k Hne) as (-> & _ & Hr). rewrite Hcpu. split.
      * intros (t2 & H2 & Hr2). destruct (decide (c2 = c)) as [->|]; [|exists t2; rewrite Hget; auto].
        simplify_eq. exists t'. rewrite Hget, Hr. auto.
      * intros (t2 & [[-> ->]|[Hn2 H2]]%Hget & Hr2); [|eauto]. exists t. by rewrite <-Hr.
Qed.

Lemma inv_cpu_ok s c t : smp_inv i0 s → sm_thr s !! c = Some t → cpu_ok (sm_mach s) c.
Proof. intros [Hlen Hap _ _ _ _] Ht. split; [|done]. rewrite <-Hlen. by eapply lookup_lt_Some. Qed.

Lemma self_insert (m : mach) c : (c < length (m_cpus m))%nat → m_cpus m = <[c := m_cpus m !!! c]> (m_cpus m).
Proof. intros. symmetry. by apply list_insert_id, list_lookup_lookup_total_lt. Qed.

(** [holding] tells whether the CPU is the recorded owner. *)
Lemma inv_holding s c t l :
  smp_inv i0 s → sm_thr s !! c = Some t →
  negb (lk_locked (m_locks (sm_mach s) l) =? 0) && bool_decide (lk_cpu (m_locks (sm_mach s) l) = Some c) = true ↔ recorded t l.
Proof.
  intros Hi Ht. rewrite andb_true_iff, negb_true_iff, Z.eqb_neq, bool_decide_eq_true, (si_cpu _ _ Hi). split.
  - intros [_ (t2 & H2 & Hr)]. by simplify_eq.
  - intros Hr. split; [|by exists t]. destruct (si_word _ _ Hi l) as [[-> _]|[_ Hno]]; [done|]. destruct (Hno c t Ht).
    destruct Hr; [by left|]. right. tauto.
Qed.

Lemma thr_ok_ncli i x t : thr_ok i x t → 0 ≤ c_ncli x ∧ (0 < c_ncli x → c_if x = false).
Proof. intros [_ Hn _ H1 _]. split; [rewrite Hn; destruct (t_phase t); cbn; lia|]. intros H. by apply H1. Qed.

Lemma probed_busy x : 0 < c_ncli x → probed x = x.
Proof. intros. unfold probed. rewrite (proj2 (Z.eqb_neq _ _)) by lia. by destruct x. Qed.

Lemma acquire_enter_eq s c held l :
  smp_inv i0 s → sm_thr s !! c = Some (mkThread held Run) →
  acquire_enter c l (sm_mach s) =
    if decide (l ∈ held) then Panic "acquire" else Ok tt (with_cpu (sm_mach s) c (pushed (m_cpus (sm_mach s) !!! c))).
Proof.
  intros Hi Ht. pose proof (inv_cpu_ok _ _ _ Hi Ht) as Hok. destruct (thr_ok_ncli _ _ _ (si_thr _ _ Hi _ _ Ht)) as [Hn Hif].
  set (x := m_cpus (sm_mach s) !!! c) in *. unfold acquire_enter. erewrite bind_Ok by (by apply pushcli_eq). fold x.
  set (s1 := with_cpu (sm_mach s) c (pushed x)). assert (Hx1 : m_cpus s1 !!! c = pushed x) by (apply with_cpu_at, Hok).
  erewrite bind_Ok by (apply holding_eq; rewrite ?Hx1; cbn; [by apply cpu_ok_with|lia|done]). rewrite Hx1, probed_busy by (cbn; lia).
  change (m_locks s1) with (m_locks (sm_mach s)). unfold s1. rewrite with_cpu_same.
  pose proof (inv_holding s c _ l Hi Ht) as Hh. unfold recorded in Hh. cbn in Hh. destruct (decide (l ∈ held)) as [Hin|Hin].
  - rewrite (proj2 Hh) by (by left). done.
  - destruct (_ && _); [destruct (proj1 Hh eq_refl); done|done].
Qed.

Lemma release_check_eq s c held l :
  smp_inv i0 s → sm_thr s !! c = Some (mkThread held Run) →
  release_check c l (sm_mach s) = if decide (l ∈ held) then Ok tt (sm_mach s) else Panic "release".
Proof.
  intros Hi Ht. pose proof (inv_cpu_ok _ _ _ Hi Ht) as Hok. pose proof (si_thr _ _ Hi _ _ Ht) as Hto.
  destruct (thr_ok_ncli _ _ _ Hto) as [Hn Hif]. unfold release_check. erewrite bind_Ok by (by apply holding_eq).
  pose proof (inv_holding s c _ l Hi Ht) as Hh. unfold recorded in Hh. cbn in Hh. destruct (decide (l ∈ held)) as [Hin|Hin].
  - rewrite (proj2 Hh) by (by left). cbn. unfold mret, M_ret. f_equal. rewrite probed_busy.
    + unfold with_cpu. rewrite list_insert_id; [by destruct (sm_mach s)|]. apply list_lookup_lookup_total_lt, Hok.
    + rewrite (to_ncli _ _ _ Hto). cbn. destruct held; [by apply not_elem_of_nil in Hin|cbn; lia].
  - destruct (_ && _); [destruct (proj1 Hh eq_refl); done|done].
Qed.

Lemma inv_alone s c t l :
  smp_inv i0 s → sm_thr s !! c = Some t → owns_lock t l → lk_locked (m_locks (sm_mach s) l) = 1 ∧ alone s c l.
Proof.
  intros Hi Ht Ho. split.
  - destruct (si_word _ _ Hi l) as [[? _]|[_ Hno]]; [done|]. by destruct (Hno c t Ht).
  - intros c' t' Hne Ht' Ho'. apply Hne. by eapply (si_one _ _ Hi).
Qed.

Lemma filter_ne_id (l : nat) (held : list nat) : l ∉ held → filter (λ k, k ≠ l) held = held.
Proof.
  induction held as [|a held IH]; intros Hn; [done|]. apply not_elem_of_cons in Hn as [Ha Hn]. rewrite filter_cons, decide_True by done. by rewrite IH.
Qed.

Lemma length_filter_ne (l : nat) (held : list nat) : NoDup held → l ∈ held → length held = S (length (filter (λ k, k ≠ l) held)).
Proof.
  induction held as [|a held IH]; intros Hnd Hin; [by apply not_elem_of_nil in Hin|]. apply NoDup_cons in Hnd as [Ha Hnd].
  rewrite filter_cons. destruct (decide (a = l)) as [->|Hne].
  - rewrite decide_False by auto. cbn. by rewrite filter_ne_id.
  - rewrite decide_True by done. cbn. f_equal. apply IH; [done|]. by apply elem_of_cons in Hin as [->|?].
Qed.

(** One lemma per step; the facts about the CPU that takes it. *)
#[local] Ltac smp_step s c Hi Ht :=
  pose proof (inv_cpu_ok _ _ _ Hi Ht) as Hok; pose proof (si_thr _ _ Hi _ _ Ht) as Hto;
  pose proof Hto as [Hnd Hn Hf0 Hf1 Hfr]; cbn in *; set (y := m_cpus (sm_mach s) !!! c) in *.

Lemma smp_enter_inv s c l held s' : smp_inv i0 s → sm_thr s !! c = Some (mkThread held Run) → goes c s (acquire_enter c l) (mkThread held (Spin l)) s' → smp_inv i0 s'.
Proof.
  intros Hi Ht (x & E & ->). smp_step s c Hi Ht.
  rewrite (acquire_enter_eq s c held l Hi Ht) in E. case_decide as Hin; [done|]. simplify_eq. unfold with_cpu. fold y.
  apply (inv_step s c _ l _ _ _ Hi Ht); cbn; try done.
  - split; cbn; [done|lia|lia| |intros k Hk; by simplify_eq]. intros _. split; [done|]. destruct (Z.eqb_spec (c_ncli y) 0); [auto|]. apply Hf1. lia.
  - intros k Hk. unfold owns_lock, recorded. cbn. naive_solver.
  - right. right. unfold owns_lock. cbn. naive_solver.
  - intros c'. case_decide; [subst c'|done]. rewrite (si_cpu _ _ Hi). unfold recorded. cbn. split; [intros (t2 & ? & ?); simplify_eq; cbn in *; naive_solver|naive_solver].
Qed.

Lemma smp_xchg_inv s c l held old x : smp_inv i0 s → sm_thr s !! c = Some (mkThread held (Spin l)) → xchg l 1 (sm_mach s) = Ok old x →
  smp_inv i0 (mkSmp x (<[c := mkThread held (if old =? 0 then Got l else Spin l)]> (sm_thr s))).
Proof.
  intros Hi Ht E. smp_step s c Hi Ht.
  unfold xchg, upd_lock, getS, modify, mbind, M_bind, mret, M_ret in E. simplify_eq.
  rewrite (self_insert (sm_mach s) c) by apply Hok. fold y.
  apply (inv_step s c _ l _ _ _ Hi Ht); cbn; try done.
  - destruct (_ =? 0); (split; cbn; [done|lia|done|done|done]).
  - intros k Hk. rewrite fn_lookup_insert_ne by done. destruct (_ =? 0); unfold owns_lock, recorded; cbn; naive_solver.
  - rewrite fn_lookup_insert. cbn. destruct (si_word _ _ Hi l) as [[Hw Hex]|[Hw Hno]]; rewrite Hw; cbn.
    + right. right. unfold owns_lock. cbn. pose proof (Hfr l eq_refl). naive_solver.
    + left. split; [right; by left|]. split; [done|]. intros c' t' _ Ht'. by apply (Hno c').
  - intros c'. rewrite fn_lookup_insert. cbn. case_decide; [subst c'|done]. rewrite (si_cpu _ _ Hi).
    destruct (_ =? 0); unfold recorded; cbn; naive_solver.
Qed.

Lemma smp_own_inv s c l held s' : smp_inv i0 s → sm_thr s !! c = Some (mkThread held (Got l)) → goes c s (acquire_own c l) (mkThread (l :: held) Run) s' → smp_inv i0 s'.
Proof.
  intros Hi Ht (x & E & ->). smp_step s c Hi Ht.
  unfold acquire_own in E. erewrite (bind_Ok (mycpu c)) in E by (apply mycpu_eq; [done|apply Hf1; lia]). unfold upd_lock, modify in E. simplify_eq.
  destruct (inv_alone s c _ l Hi Ht) as [Hw Ha]; [right; by left|]. rewrite (self_insert (sm_mach s) c) by apply Hok. fold y.
  apply (inv_step s c _ l _ _ _ Hi Ht); cbn; try done.
  - split; cbn; [constructor; [by apply Hfr|done]|lia|lia|auto|done].
  - intros k Hk. rewrite fn_lookup_insert_ne by done. unfold owns_lock, recorded. cbn. set_solver.
  - left. rewrite fn_lookup_insert. split; [left; by left|done].
  - intros c'. rewrite fn_lookup_insert. cbn. unfold recorded. cbn. case_decide; [subst; split; [intros _; left; by left|done]|].
    rewrite (si_cpu _ _ Hi). split; [congruence|]. intros (t2 & H2 & Hr). exfalso. apply (Ha c' t2); [done|done|].
    destruct Hr; [by left|right; tauto].
Qed.

Lemma smp_check_inv s c l held s' : smp_inv i0 s → sm_thr s !! c = Some (mkThread held Run) → goes c s (release_check c l) (mkThread (filter (λ k, k ≠ l) held) (Rel1 l)) s' → smp_inv i0 s'.
Proof.
  intros Hi Ht (x & E & ->). smp_step s c Hi Ht.
  rewrite (release_check_eq s c held l Hi Ht) in E. destruct (decide (l ∈ held)) as [Hin|]; [|done]. simplify_eq.
  destruct (inv_alone s c _ l Hi Ht) as [Hw Ha]; [by left|].
  replace (sm_mach s) with (mkMach (<[c := y]> (m_cpus (sm_mach s))) (m_locks (sm_mach s))) by
    (unfold y; rewrite <-self_insert by apply Hok; by destruct (sm_mach s)).
  pose proof (length_filter_ne l held Hnd Hin) as Hlen.
  apply (inv_step s c _ l _ _ _ Hi Ht); cbn; try done.
  - split; cbn; [by apply NoDup_filter|lia|lia|auto|]. intros k Hk. simplify_eq. rewrite list_elem_of_filter. naive_solver.
  - intros k Hk. unfold owns_lock, recorded. cbn. rewrite list_elem_of_filter. naive_solver.
  - left. split; [right; right; by left|done].
  - intros c'. case_decide; [subst c'|done]. rewrite (si_cpu _ _ Hi). unfold recorded. cbn. split; [naive_solver|].
    intros _. eexists. split; [done|]. by left.
Qed.

Lemma smp_disown_inv s c l held s' : smp_inv i0 s → sm_thr s !! c = Some (mkThread held (Rel1 l)) → goes c s (release_disown l) (mkThread held (Rel2 l)) s' → smp_inv i0 s'.
Proof.
  intros Hi Ht (x & E & ->). smp_step s c Hi Ht.
  unfold release_disown, upd_lock, modify in E. simplify_eq.
  destruct (inv_alone s c _ l Hi Ht) as [Hw Ha]; [right; right; by left|]. rewrite (self_insert (sm_mach s) c) by apply Hok. fold y.
  pose proof (Hfr l eq_refl) as Hl.
  apply (inv_step s c _ l _ _ _ Hi Ht); cbn; try done.
  - intros k Hk. rewrite fn_lookup_insert_ne by done. unfold owns_lock, recorded. cbn. naive_solver.
  - left. rewrite fn_lookup_insert. cbn. split; [right; right; by right|done].
  - intros c'. rewrite fn_lookup_insert. cbn. unfold recorded. cbn. case_decide; [naive_solver|].
    rewrite (si_cpu _ _ Hi). split; [done|]. intros (t2 & H2 & Hr). exfalso. apply (Ha c' t2); [done|done|]. destruct Hr; [by left|right; tauto].
Qed.

Lemma smp_store_inv s c l held s' : smp_inv i0 s → sm_thr s !! c = Some (mkThread held (Rel2 l)) → goes c s (release_store l) (mkThread held Rel3) s' → smp_inv i0 s'.
Proof.
  intros Hi Ht (x & E & ->). smp_step s c Hi Ht.
  unfold release_store, upd_lock, modify in E. simplify_eq.
  destruct (inv_alone s c _ l Hi Ht) as [Hw Ha]; [right; right; by right|]. rewrite (self_insert (sm_mach s) c) by apply Hok. fold y.
  pose proof (Hfr l eq_refl) as Hl.
  apply (inv_step s c _ l _ _ _ Hi Ht); cbn; try done.
  - intros k Hk. rewrite fn_lookup_insert_ne by done. unfold owns_lock, recorded. cbn. naive_solver.
  - right. left. rewrite fn_lookup_insert. unfold owns_lock. cbn. naive_solver.
  - intros c'. rewrite fn_lookup_insert. cbn. case_decide; [subst c'|done]. rewrite (si_cpu _ _ Hi). unfold recorded. cbn. naive_solver.
Qed.

Lemma smp_pop_inv s c held s' : smp_inv i0 s → sm_thr s !! c = Some (mkThread held Rel3) → goes c s (popcli c) (mkThread held Run) s' → smp_inv i0 s'.
Proof.
  intros Hi Ht (x & E & ->). smp_step s c Hi Ht.
  rewrite popcli_eq in E; [|done|apply Hf1; fold y; lia|fold y; lia]. simplify_eq. unfold with_cpu. fold y.
  apply (inv_step s c _ 0 _ _ _ Hi Ht); cbn; try done.
  - split; cbn; [done|lia| | |done].
    + intros E0. rewrite (proj2 (Z.eqb_eq _ _)) by lia. cbn. apply Hf1. lia.
    + intros E0. rewrite (proj2 (Z.eqb_neq _ _)) by lia. cbn. split; [done|]. apply Hf1. lia.
  - intros k Hk. unfold owns_lock, recorded. cbn. naive_solver.
  - destruct (si_word _ _ Hi 0%nat) as [[Hw (c2 & t2 & H2 & Ho)]|[Hw Hno]].
    + destruct (decide (0%nat ∈ held)) as [Hin|Hin].
      * left. destruct (inv_alone s c _ 0%nat Hi Ht) as [? Ha]; [by left|]. split; [by left|done].
      * right. right. unfold owns_lock. cbn. naive_solver.
    + right. right. pose proof (Hno c _ Ht) as Hno'. unfold owns_lock in *. cbn in *. naive_solver.
  - intros c'. case_decide; [subst c'|done]. rewrite (si_cpu _ _ Hi). unfold recorded. cbn. split; [naive_solver|]. intros [?|?]; [|done]. eexists. split; [done|]. by left.
Qed.

Lemma sstep_inv s c s' : smp_inv i0 s → sstep c s s' → smp_inv i0 s'.
Proof.
  intros Hi Hs. destruct Hs; [eapply smp_enter_inv|eapply smp_xchg_inv|eapply smp_own_inv|eapply smp_check_inv|eapply smp_disown_inv|eapply smp_store_inv|eapply smp_pop_inv]; done.
Qed.

(** All CPUs outside the lock code, holding nothing. *)
Record smp_start s : Prop := mkSmpStart {
  st_len : length (sm_thr s) = length (m_cpus (sm_mach s));
  st_apic : NoDup (c_apicid <$> m_cpus (sm_mach s));
  st_thr c : (c < length (sm_thr s))%nat → sm_thr s !!! c = mkThread [] Run ∧ c_ncli (m_cpus (sm_mach s) !!! c) = 0 ∧ c_if (m_cpus (sm_mach s) !!! c) = i0 c;
  st_lock l : m_locks (sm_mach s) l = initlock;
}.

Lemma smp_start_inv s : smp_start s → smp_inv i0 s.
Proof.
  intros [Hlen Hap Hthr Hlk].
  assert (Ht : ∀ c t, sm_thr s !! c = Some t → t = mkThread [] Run ∧ c_ncli (m_cpus (sm_mach s) !!! c) = 0 ∧ c_if (m_cpus (sm_mach s) !!! c) = i0 c).
  { intros c t Hc. destruct (Hthr c) as (E & ? & ?); [by eapply lookup_lt_Some|]. by rewrite (list_lookup_total_correct _ _ _ Hc) in E. }
  assert (Hno : ∀ l, ¬ owns_lock (mkThread [] Run) l ∧ ¬ recorded (mkThread [] Run) l).
  { intros l. unfold owns_lock, recorded. cbn. pose proof (not_elem_of_nil l). naive_solver. }
  split; [done|done| | | |].
  - intros c t (-> & Hn & Hf)%Ht. split; cbn; [constructor|lia|done|lia|done].
  - intros l c c' t t' (-> & _)%Ht _ Ho. by destruct (Hno l).
  - intros l. right. rewrite Hlk. split; [done|]. intros c t (-> & _)%Ht. apply Hno.
  - intros l c. rewrite Hlk. split; [done|]. intros (t & (-> & _)%Ht & Hr). by destruct (Hno l).
Qed.

(** C25. However the CPUs interleave, at most one CPU owns a lock at a time; acquire panics exactly
    when its own CPU already holds the lock, release exactly when it does not, popcli never
    panics inside release, and interrupts are off while a lock is held and back to their first
    state when none is. *)
Theorem spinlock_mutex s0 s :
  smp_start s0 → rtc (λ s s', ∃ c, sstep c s s') s0 s →
  (∀ l c c' t t', sm_thr s !! c = Some t → sm_thr s !! c' = Some t' → owns_lock t l → owns_lock t' l → c = c') ∧
  (∀ l c held, sm_thr s !! c = Some (mkThread held Run) →
     acquire_enter c l (sm_mach s) = (if decide (l ∈ held) then Panic "acquire" else Ok tt (with_cpu (sm_mach s) c (pushed (m_cpus (sm_mach s) !!! c)))) ∧
     release_check c l (sm_mach s) = (if decide (l ∈ held) then Ok tt (sm_mach s) else Panic "release")) ∧
  (∀ c held, sm_thr s !! c = Some (mkThread held Rel3) → ∃ m, popcli c (sm_mach s) = Ok tt m) ∧
  (∀ c held, sm_thr s !! c = Some (mkThread held Run) →
     c_if (m_cpus (sm_mach s) !!! c) = if decide (held = []) then i0 c else false).
Proof.
  intros Hs Hr. assert (Hi : smp_inv i0 s).
  { apply smp_start_inv in Hs. induction Hr as [|a b c [k Hk] _ IH]; [done|]. apply IH. by eapply sstep_inv. }
  split_and!.
  - intros. by eapply (si_one _ _ Hi).
  - intros l c held Ht. split; [by apply acquire_enter_eq|by apply release_check_eq].
  - intros c held Ht. pose proof (si_thr _ _ Hi _ _ Ht) as [_ Hn _ Hf _]. cbn in Hn. eexists. apply popcli_eq; [by eapply inv_cpu_ok|apply Hf; lia|lia].
  - intros c held Ht. pose proof (si_thr _ _ Hi _ _ Ht) as [_ Hn Hf0 Hf1 _]. cbn in Hn. case_decide as E; [subst; by apply Hf0|].
    apply Hf1. destruct held; [done|]. cbn in Hn. lia.
Qed.
End mutex.

(** ** Two CPUs on one lock *)

Definition ex_mach : mach := mkMach [mkCpu 0 true 0 false; mkCpu 4 true 0 false] (λ _, initlock).
Definition ex_start : smp := mkSmp ex_mach [mkThread [] Run; mkThread [] Run].
Definition ok_state (r : res mach unit) : mach := match r with Ok _ s => s | _ => ex_mach end.
Definition ex_m1 : mach := ok_state (acquire_enter 0 7 ex_mach).
Definition ex_m2 : mach := ok_state (acquire_enter 1 7 ex_m1).
Definition ex_locked : mach := match xchg 7 1 ex_m2 with Ok _ s => s | _ => ex_mach end.
Definition ex_spin : mach := match xchg 7 1 ex_locked with Ok _ s => s | _ => ex_mach end.
Definition ex_end : smp := mkSmp ex_spin [mkThread [] (Got 7); mkThread [] (Spin 7)].

Lemma ex_run : rtc (λ s s', ∃ c, sstep c s s') ex_start ex_end.
Proof.
  eapply rtc_l; [exists 0%nat; apply (ss_enter 0 ex_start 7 []); [done|]; eexists; split; [reflexivity|reflexivity]|].
  eapply rtc_l; [exists 1%nat; eapply (ss_enter 1 _ 7 []); [done|]; eexists; split; [reflexivity|reflexivity]|].
  eapply rtc_l; [exists 0%nat; eapply (ss_xchg 0 _ 7 []); [done|reflexivity]|].
  eapply rtc_l; [exists 1%nat; eapply (ss_xchg 1 _ 7 []); [done|reflexivity]|].
  apply rtc_refl.
Qed.

Lemma spinlock_mutex_witness :
  rtc (λ s s', ∃ c, sstep c s s') ex_start ex_end ∧
  ∀ l c c' t t', sm_thr ex_end !! c = Some t → sm_thr ex_end !! c' = Some t' → owns_lock t l → owns_lock t' l → c = c'.
Proof.
  split; [exact ex_run|]. apply (spinlock_mutex (λ _, true) ex_start ex_end).
  - split; [done| | |done].
    + refine (bool_decide_unpack _ _). vm_compute. exact I.
    + intros c Hc. cbn in Hc. destruct c as [|[|c]]; [done|done|lia].
  - exact ex_run.
Defined.
