(* ===== verification/Kernel.v ===== *)
(** * The kernel's state (src/proc.h, src/file.h) and access to user memory

    One record holds what the system calls share: physical memory with the page
    allocator, the file system, the tables of open files, pipes and processes.
    [kn_cur] is [myproc()], the process that runs the call.  A component's
    operation is lifted to the record; a [Blocked] result is the state in which
    the running process gave up the CPU. *)

From S2P Require Import Prelude Fcntl Dll Sleeplock Bio Memide FsLayout Log LogCrash LogProtocol Tx CString Fs Pipe Kalloc Vm PageTable.

Definition NPROC : nat := 64.
Definition NFILE : nat := 100.
Definition KSTACKSIZE : Z := 4096.
Definition MAXARG : nat := 32.

(** ** Processes *)

Inductive procstate : Type := UNUSED | EMBRYO | SLEEPING | RUNNABLE | RUNNING | ZOMBIE.
#[global] Instance procstate_eq_dec : EqDecision procstate.
Proof. solve_decision. Defined.

(** What a process can sleep on: a process (in [wait]), the two ends of a pipe, the clock. *)
Inductive chan : Type := NoChan | ProcChan (i : nat) | PipeRead (p : Z) | PipeWrite (p : Z) | TicksChan.
#[global] Instance chan_eq_dec : EqDecision chan.
Proof. solve_decision. Defined.

Record proc : Type := mkProc {
  p_sz : Z;                      (* size of process memory *)
  p_pgdir : Z;                   (* page table *)
  p_kstack : Z;                  (* bottom of kernel stack *)
  p_state : procstate;
  p_pid : Z;
  p_parent : option nat;
  p_tf : Z;                      (* trap frame, in memory *)
  p_context : Z;                 (* saved context, in memory *)
  p_chan : chan;
  p_killed : bool;
  p_ofile : list (option nat);   (* open files *)
  p_cwd : nat;                   (* current directory *)
  p_name : list byte;
}.

Definition zero_proc : proc :=
  mkProc 0 0 0 UNUSED 0 None 0 0 NoChan false (replicate NOFILE None) 0 (replicate 16 Byte.x00).
#[global] Instance proc_inhabited : Inhabited proc := populate zero_proc.

Definition set_state v p := mkProc (p_sz p) (p_pgdir p) (p_kstack p) v (p_pid p) (p_parent p) (p_tf p) (p_context p) (p_chan p) (p_killed p) (p_ofile p) (p_cwd p) (p_name p).
Definition set_parent v p := mkProc (p_sz p) (p_pgdir p) (p_kstack p) (p_state p) (p_pid p) v (p_tf p) (p_context p) (p_chan p) (p_killed p) (p_ofile p) (p_cwd p) (p_name p).
Definition set_pid v p := mkProc (p_sz p) (p_pgdir p) (p_kstack p) (p_state p) v (p_parent p) (p_tf p) (p_context p) (p_chan p) (p_killed p) (p_ofile p) (p_cwd p) (p_name p).
Definition set_chan v p := mkProc (p_sz p) (p_pgdir p) (p_kstack p) (p_state p) (p_pid p) (p_parent p) (p_tf p) (p_context p) v (p_killed p) (p_ofile p) (p_cwd p) (p_name p).
Definition set_killed v p := mkProc (p_sz p) (p_pgdir p) (p_kstack p) (p_state p) (p_pid p) (p_parent p) (p_tf p) (p_context p) (p_chan p) v (p_ofile p) (p_cwd p) (p_name p).
Definition set_ofile v p := mkProc (p_sz p) (p_pgdir p) (p_kstack p) (p_state p) (p_pid p) (p_parent p) (p_tf p) (p_context p) (p_chan p) (p_killed p) v (p_cwd p) (p_name p).
Definition set_cwd v p := mkProc (p_sz p) (p_pgdir p) (p_kstack p) (p_state p) (p_pid p) (p_parent p) (p_tf p) (p_context p) (p_chan p) (p_killed p) (p_ofile p) v (p_name p).
Definition set_name v p := mkProc (p_sz p) (p_pgdir p) (p_kstack p) (p_state p) (p_pid p) (p_parent p) (p_tf p) (p_context p) (p_chan p) (p_killed p) (p_ofile p) (p_cwd p) v.
Definition set_space sz pgdir p := mkProc sz pgdir (p_kstack p) (p_state p) (p_pid p) (p_parent p) (p_tf p) (p_context p) (p_chan p) (p_killed p) (p_ofile p) (p_cwd p) (p_name p).
Definition set_stack ks tf ctx p := mkProc (p_sz p) (p_pgdir p) ks (p_state p) (p_pid p) (p_parent p) tf ctx (p_chan p) (p_killed p) (p_ofile p) (p_cwd p) (p_name p).

(** ** Open files *)

Inductive ftype : Type := FD_NONE | FD_PIPE | FD_INODE.
#[global] Instance ftype_eq_dec : EqDecision ftype.
Proof. solve_decision. Defined.

Record file : Type := mkFile {
  f_type : ftype;
  f_ref : Z;           (* reference count *)
  f_readable : bool;
  f_writable : bool;
  f_pipe : Z;          (* address of the pipe *)
  f_ip : nat;
  f_off : Z;
}.

Definition zero_file : file := mkFile FD_NONE 0 false false 0 0 0.
#[global] Instance file_inhabited : Inhabited file := populate zero_file.
#[global] Instance pipe_inhabited : Inhabited pipe := populate (mkPipe [] 0 0 0 0).

Definition set_fref v f := mkFile (f_type f) v (f_readable f) (f_writable f) (f_pipe f) (f_ip f) (f_off f).
Definition set_ftype v f := mkFile v (f_ref f) (f_readable f) (f_writable f) (f_pipe f) (f_ip f) (f_off f).
Definition set_foff v f := mkFile (f_type f) (f_ref f) (f_readable f) (f_writable f) (f_pipe f) (f_ip f) v.

(** ** The state *)

Record kern (S : Type) : Type := mkKern {
  kn_k : kst;                 (* memory and kmem *)
  kn_fs : fsst S;
  kn_file : list file;        (* ftable.file *)
  kn_pipe : gmap Z pipe;      (* pipes, by the address of their page *)
  kn_proc : list proc;        (* ptable.proc *)
  kn_nextpid : Z;
  kn_initproc : nat;
  kn_ticks : Z;
  kn_cur : nat;               (* myproc() *)
}.
Arguments mkKern {S}. Arguments kn_k {S}. Arguments kn_fs {S}. Arguments kn_file {S}. Arguments kn_pipe {S}. Arguments kn_proc {S}.
Arguments kn_nextpid {S}. Arguments kn_initproc {S}. Arguments kn_ticks {S}. Arguments kn_cur {S}.

(** Transactions, beside the operations of [TxStore]. *)
Class TxOps (S : Type) := { tx_begin : M S unit; tx_end : M S unit }.
#[global] Instance log_tx_ops {D} `{DiskDriver D} : TxOps (logst D) := { tx_begin := begin_op; tx_end := end_op }.

Section state.
Context {S : Type}.
Implicit Types (s : kern S).
Abbreviation K := (M (kern S)).

Definition with_k x s : kern S := mkKern x (kn_fs s) (kn_file s) (kn_pipe s) (kn_proc s) (kn_nextpid s) (kn_initproc s) (kn_ticks s) (kn_cur s).
Definition with_fs x s : kern S := mkKern (kn_k s) x (kn_file s) (kn_pipe s) (kn_proc s) (kn_nextpid s) (kn_initproc s) (kn_ticks s) (kn_cur s).
Definition with_file x s : kern S := mkKern (kn_k s) (kn_fs s) x (kn_pipe s) (kn_proc s) (kn_nextpid s) (kn_initproc s) (kn_ticks s) (kn_cur s).
Definition with_pipe x s : kern S := mkKern (kn_k s) (kn_fs s) (kn_file s) x (kn_proc s) (kn_nextpid s) (kn_initproc s) (kn_ticks s) (kn_cur s).
Definition with_proc x s : kern S := mkKern (kn_k s) (kn_fs s) (kn_file s) (kn_pipe s) x (kn_nextpid s) (kn_initproc s) (kn_ticks s) (kn_cur s).
Definition with_nextpid x s : kern S := mkKern (kn_k s) (kn_fs s) (kn_file s) (kn_pipe s) (kn_proc s) x (kn_initproc s) (kn_ticks s) (kn_cur s).
Definition with_initproc x s : kern S := mkKern (kn_k s) (kn_fs s) (kn_file s) (kn_pipe s) (kn_proc s) (kn_nextpid s) x (kn_ticks s) (kn_cur s).
Definition with_ticks x s : kern S := mkKern (kn_k s) (kn_fs s) (kn_file s) (kn_pipe s) (kn_proc s) (kn_nextpid s) (kn_initproc s) x (kn_cur s).
Definition with_cur x s : kern S := mkKern (kn_k s) (kn_fs s) (kn_file s) (kn_pipe s) (kn_proc s) (kn_nextpid s) (kn_initproc s) (kn_ticks s) x.

Definition lift {T A} (get : kern S → T) (put : T → kern S → kern S) (m : M T A) : K A := λ s,
  match m (get s) with
  | Ok a x => Ok a (put x s)
  | Blocked x => Blocked (put x s)
  | Panic msg => Panic msg
  end.

Definition liftK {A} (m : M kst A) : K A := lift kn_k with_k m.

Definition cur_proc s : proc := kn_proc s !!! kn_cur s.

(** The file system sees the pid and the working directory of the running process. *)
Definition cur_fs s : fsst S :=
  mkFsst (fs_st (kn_fs s)) (fs_sb (kn_fs s)) (fs_inode (kn_fs s)) (p_pid (cur_proc s)) (p_cwd (cur_proc s)).
Definition liftF {A} (m : M (fsst S) A) : K A := lift cur_fs with_fs m.

Definition begin_fs `{TxOps S} : K unit := liftF (liftS tx_begin).
Definition end_fs `{TxOps S} : K unit := liftF (liftS tx_end).

Definition myproc : K proc := gets cur_proc.
Definition upd_proc (i : nat) (f : proc → proc) : K unit := modify (λ s, with_proc (alter f i (kn_proc s)) s).
Definition upd_cur (f : proc → proc) : K unit := modify (λ s, with_proc (alter f (kn_cur s) (kn_proc s)) s).
Definition get_file (f : nat) : K file := gets (λ s, kn_file s !!! f).
Definition upd_file (f : nat) (g : file → file) : K unit := modify (λ s, with_file (alter g f (kn_file s)) s).
Definition get_pipe (a : Z) : K pipe := gets (λ s, kn_pipe s !!! a).
Definition put_pipe (a : Z) (p : pipe) : K unit := modify (λ s, with_pipe (<[a := p]> (kn_pipe s)) s).

(** ** Sleep and wakeup (src/proc.c) *)

Definition wakeup1_proc (c : chan) (p : proc) : proc :=
  if bool_decide (p_state p = SLEEPING) && bool_decide (p_chan p = c) then set_state RUNNABLE p else p.
Definition wakeup1 (c : chan) : K unit := modify (λ s, with_proc (wakeup1_proc c <$> kn_proc s) s).
Definition wakeup (c : chan) : K unit := wakeup1 c.

(** Go to sleep on [c]: the caller stops here. *)
Definition sleep {A} (c : chan) : K A := upd_cur (λ p, set_state SLEEPING (set_chan c p));; sleeps.

(** ** User memory of the running process

    The kernel reads and writes user addresses through the page table of the
    process; an address without a page faults inside the kernel, which panics. *)

Definition user_addr s (va : Z) : option Z :=
  let e := pte (k_mem (kn_k s)) (p_pgdir (cur_proc s)) (va / PGSIZE) in
  if present e then Some (table e + va mod PGSIZE) else None.

Definition uload1 (va : Z) : K byte :=
  s ← getS;
  match user_addr s va with
  | Some a => mret (k_mem (kn_k s) a)
  | None => panic "trap"
  end.

Fixpoint uload (va : Z) (n : nat) : K (list byte) :=
  match n with
  | O => mret []
  | Datatypes.S n => b ← uload1 va; bs ← uload (va + 1) n; mret (b :: bs)
  end.

Fixpoint ustore (va : Z) (bs : list byte) : K unit :=
  match bs with
  | [] => mret tt
  | b :: bs =>
      s ← getS;
      match user_addr s va with
      | Some a => liftK (copy_in a [b]);; ustore (va + 1) bs
      | None => panic "trap"
      end
  end.

(** Words of the trap frame: [tf->eax], [tf->eip], [tf->esp]. *)
Definition TF_SIZE : Z := 76.
Definition TF_EAX : Z := 28.
Definition TF_EIP : Z := 56.
Definition TF_ESP : Z := 68.
Definition tf_get (o : Z) : K Z := p ← myproc; liftK (load (p_tf p + o)).
Definition tf_set (o v : Z) : K unit := p ← myproc; liftK (store (p_tf p + o) (u32 v)).
End state.
