(* ===== verification/File.v ===== *)
(** * Open files (src/file.c) and the creation of pipes (src/pipe.c) *)

From S2P Require Import Prelude Fcntl Dll Sleeplock Bio Memide FsLayout Log LogCrash LogProtocol Tx CString Fs Pipe Kalloc Vm PageTable Kernel.

(** The first slot of the table with no reference. *)
Fixpoint find_file (l : list file) (i : nat) : option nat :=
  match l with
  | [] => None
  | f :: l => if f_ref f =? 0 then Some i else find_file l (S i)
  end.

Section file.
Context {S : Type} {ops : TxStore S} {txo : TxOps S}.
Context (kend : Z).
Context (devread : Z → option (nat → Z → M (fsst S) (Z * list byte))).
Context (devwrite : Z → option (nat → list byte → Z → M (fsst S) Z)).
Abbreviation K := (M (kern S)).

(** Allocate a file structure. *)
Definition filealloc : K (option nat) :=
  s ← getS;
  match find_file (kn_file s) 0 with
  | Some f => upd_file f (set_fref 1);; mret (Some f)
  | None => mret None
  end.

(** Increment ref count for file f. *)
Definition filedup (f : nat) : K nat :=
  x ← get_file f;
  if f_ref x <? 1 then panic "filedup" else upd_file f (set_fref (f_ref x + 1));; mret f.

(** [pipeclose] (src/pipe.c): wake the other end, and free the page when both are closed. *)
Definition close_pipe (a : Z) (writable : bool) : K unit :=
  p ← get_pipe a;
  let '(p, free) := pipeclose p writable in
  put_pipe a p;;
  wakeup (if writable then PipeRead a else PipeWrite a);;
  if (free : bool) then liftK (kfree kend a) else mret tt.

(** Close file f.  (Decrement ref count, close when reaches 0.) *)
Definition fileclose (f : nat) : K unit :=
  x ← get_file f;
  if f_ref x <? 1 then panic "fileclose"
  else
    upd_file f (set_fref (f_ref x - 1));;
    if 0 <? f_ref x - 1 then mret tt
    else
      let ff := x in
      upd_file f (λ x, set_ftype FD_NONE (set_fref 0 x));;
      match f_type ff with
      | FD_PIPE => close_pipe (f_pipe ff) (f_writable ff)
      | FD_INODE => begin_fs;; liftF (iput (f_ip ff));; end_fs
      | FD_NONE => mret tt
      end.

(** Get metadata about file f. *)
Definition filestat (f : nat) : K (option stat) :=
  x ← get_file f;
  match f_type x with
  | FD_INODE =>
      liftF (ilock (f_ip x));;
      st ← liftF (stati (f_ip x));
      liftF (iunlock (f_ip x));;
      mret (Some st)
  | _ => mret None
  end.

(** [piperead] on the pipe at [a], into user memory at [addr]. *)
Definition read_pipe (a addr : Z) (n : Z) : K Z :=
  p ← get_pipe a;
  me ← myproc;
  let '(p', r) := piperead p (Z.to_nat n) (p_killed me) in
  match r with
  | RFail => mret (-1)
  | RSleep => sleep (PipeRead a)
  | RDone bs =>
      put_pipe a p';;
      ustore addr bs;;
      wakeup (PipeWrite a);;
      mret (Z.of_nat (length bs))
  end.

(** [pipewrite] of the bytes [bs] to the pipe at [a]. *)
Definition write_pipe (a : Z) (bs : list byte) : K Z :=
  p ← get_pipe a;
  me ← myproc;
  let '(p', r) := pipewrite p bs (p_killed me) in
  put_pipe a p';;
  match r with
  | WFail _ => mret (-1)
  | WSleep _ => wakeup (PipeRead a);; sleep (PipeWrite a)
  | WDone => wakeup (PipeRead a);; mret (Z.of_nat (length bs))
  end.

(** Read from file f. *)
Definition fileread (f : nat) (addr n : Z) : K Z :=
  x ← get_file f;
  if negb (f_readable x) then mret (-1)
  else match f_type x with
  | FD_PIPE => read_pipe (f_pipe x) addr n
  | FD_INODE =>
      liftF (ilock (f_ip x));;
      '(r, bs) ← liftF (readi devread (f_ip x) (f_off x) n);
      ustore addr bs;;
      (if 0 <? r then upd_file f (λ x, set_foff (u32 (f_off x + r)) x) else mret tt);;
      liftF (iunlock (f_ip x));;
      mret r
  | FD_NONE => panic "fileread"
  end.

(** Bytes written per transaction. *)
Definition write_max : Z := (MAXOPBLOCKS - 1 - 1 - 2) / 2 * 512.

(** The loop of [filewrite]: [i] bytes are written, [bs] are left. *)
Fixpoint filewrite_loop (f : nat) (bs : list byte) (i n : Z) (fuel : nat) : K Z :=
  match fuel with
  | O => sleeps
  | Datatypes.S fuel =>
      if i <? n then
        let n1 := if write_max <? n - i then write_max else n - i in
        x ← get_file f;
        begin_fs;;
        liftF (ilock (f_ip x));;
        r ← liftF (writei devwrite (f_ip x) (take (Z.to_nat n1) bs) (f_off x) n1);
        (if 0 <? r then upd_file f (λ x, set_foff (u32 (f_off x + r)) x) else mret tt);;
        liftF (iunlock (f_ip x));;
        end_fs;;
        if r <? 0 then mret (if i =? n then n else -1)
        else if negb (r =? n1) then panic "short filewrite"
        else filewrite_loop f (drop (Z.to_nat r) bs) (i + r) n fuel
      else mret (if i =? n then n else -1)
  end.

(** Write to file f the [n] bytes at user address [addr]. *)
Definition filewrite (f : nat) (addr n : Z) : K Z :=
  x ← get_file f;
  if negb (f_writable x) then mret (-1)
  else match f_type x with
  | FD_PIPE => bs ← uload addr (Z.to_nat n); write_pipe (f_pipe x) bs
  | FD_INODE => bs ← uload addr (Z.to_nat n); filewrite_loop f bs 0 n (Z.to_nat (n / write_max + 2))
  | FD_NONE => panic "filewrite"
  end.

(** The bad path of [pipealloc]: undo what was allocated. *)
Definition pipealloc_bad (f0 f1 : option nat) (p : Z) : K (option (nat * nat)) :=
  (if p =? 0 then mret tt else liftK (kfree kend p));;
  (match f0 with Some f => fileclose f | None => mret tt end);;
  (match f1 with Some f => fileclose f | None => mret tt end);;
  mret None.

(** The [data] array of the pipe in a page ([data] follows the lock), as it is. *)
Definition page_bytes (m : mem) (a : Z) : list byte := (λ i, m (a + 52 + i)) <$> seqZ 0 PIPESIZE.

Definition pipealloc : K (option (nat * nat)) :=
  f0 ← filealloc;
  match f0 with
  | None => pipealloc_bad None None 0
  | Some r =>
      f1 ← filealloc;
      match f1 with
      | None => pipealloc_bad f0 None 0
      | Some w =>
          p ← liftK kalloc;
          if p =? 0 then pipealloc_bad f0 f1 0
          else
            s ← getS;
            put_pipe p (pipe_init (page_bytes (k_mem (kn_k s)) p));;
            upd_file r (λ x, mkFile FD_PIPE (f_ref x) true false p (f_ip x) (f_off x));;
            upd_file w (λ x, mkFile FD_PIPE (f_ref x) false true p (f_ip x) (f_off x));;
            mret (Some (r, w))
      end
  end.
End file.
