(* ===== verification/Proc.v ===== *)
(** * Processes (src/proc.c)

    [swtch] transfers control between kernel stacks and is not a function of the
    state: an operation that calls [sched] stops there ([Blocked]), and
    [schedule] is the scheduler's choice of the next process. *)

From S2P Require Import Prelude Fcntl Dll Sleeplock Bio Memide FsLayout Log LogCrash LogProtocol Tx CString Fs Pipe Kalloc Vm PageTable Kernel File.

(** The first slot in the state, from index [i] on. *)
Fixpoint find_state (st : procstate) (l : list proc) (i : nat) : option nat :=
  match l with
  | [] => None
  | p :: l => if bool_decide (p_state p = st) then Some i else find_state st l (S i)
  end.

(** The scan of [wait]: the first exited child of [me], and whether there are children before it. *)
Fixpoint wait_scan (me : nat) (l : list proc) (i : nat) (havekids : bool) : option nat * bool :=
  match l with
  | [] => (None, havekids)
  | p :: l =>
      if bool_decide (p_parent p ≠ Some me) then wait_scan me l (S i) havekids
      else if bool_decide (p_state p = ZOMBIE) then (Some i, true)
      else wait_scan me l (S i) true
  end.

(** The first slot with the pid. *)
Fixpoint find_pid (pid : Z) (l : list proc) (i : nat) : option nat :=
  match l with
  | [] => None
  | p :: l => if p_pid p =? pid then Some i else find_pid pid l (S i)
  end.

Section proc.
Context {S : Type} {ops : TxStore S} {txo : TxOps S}.
Context (kend data : Z).
Context (forkret trapret : Z).  (* addresses of code *)
Context (devread : Z → option (nat → Z → M (fsst S) (Z * list byte))).
Abbreviation K := (M (kern S)).

(** Enter the scheduler.  The checks on [ptable.lock], [ncli] and the interrupt flag are about
    the CPU, which this state does not have: they are in [Sleep.do_sched]. *)
Definition sched {A} : K A :=
  p ← myproc;
  if bool_decide (p_state p = RUNNING) then panic "sched running" else sleeps.

(** Give up the CPU for one scheduling round. *)
Definition yield {A} : K A := upd_cur (set_state RUNNABLE);; sched.

(** Look in the process table for an UNUSED proc; set it up to run in the kernel. *)
Definition allocproc : K (option nat) :=
  s ← getS;
  match find_state UNUSED (kn_proc s) 0 with
  | None => mret None
  | Some i =>
      upd_proc i (λ p, set_pid (kn_nextpid s) (set_state EMBRYO p));;
      modify (with_nextpid (s32 (kn_nextpid s + 1)));;
      ks ← liftK kalloc;
      if ks =? 0 then
        upd_proc i (λ p, set_state UNUSED (set_stack 0 (p_tf p) (p_context p) p));;
        mret None
      else
        let tf := ks + KSTACKSIZE - TF_SIZE in
        let sp := tf - 4 in
        liftK (store sp trapret);;
        let ctx := sp - 20 in
        upd_proc i (set_stack ks tf ctx);;
        liftK (memset ctx 0 20);;
        liftK (store (ctx + 16) forkret);;
        mret (Some i)
  end.

(** The page table register is loaded; the checks before. *)
Definition switchuvm (i : nat) : K unit :=
  p ← gets (λ s, kn_proc s !!! i);
  if p_kstack p =? 0 then panic "switchuvm: no kstack"
  else if p_pgdir p =? 0 then panic "switchuvm: no pgdir"
  else mret tt.

(** A 16-bit field of a trap frame. *)
Definition store2 (a v : Z) : K unit := liftK (copy_in a (le_bytes 2 v)).

(** [safestrcpy(p->name, s, sizeof(p->name))], with [s] the buffer that holds the string *)
Definition name16 (s old : list byte) : list byte :=
  let n := take 15 (until_nul s) in n ++ Byte.x00 :: drop (Datatypes.S (length n)) old.

(** Set up first user process; [init] is the program image. *)
Definition userinit (init : list byte) : K unit :=
  r ← allocproc;
  match r with
  | None => panic "null pointer"
  | Some p =>
      modify (with_initproc p);;
      pgdir ← liftK (setupkvm kend data);
      if pgdir =? 0 then panic "userinit: out of memory?"
      else
        liftK (inituvm pgdir init (Z.of_nat (length init)));;
        upd_proc p (set_space PGSIZE pgdir);;
        x ← gets (λ s, kn_proc s !!! p);
        let tf := p_tf x in
        liftK (memset tf 0 TF_SIZE);;
        store2 (tf + 60) 27;;                         (* cs = SEG_UCODE << 3 | DPL_USER *)
        store2 (tf + 44) 35;;                         (* ds = SEG_UDATA << 3 | DPL_USER *)
        store2 (tf + 40) 35;;                         (* es *)
        store2 (tf + 72) 35;;                         (* ss *)
        liftK (store (tf + 64) 512);;                 (* eflags = FL_IF *)
        liftK (store (tf + TF_ESP) PGSIZE);;
        liftK (store (tf + TF_EIP) 0);;
        upd_proc p (λ x, set_name (name16 (bytes_of "initcode") (p_name x)) x);;
        cwd ← liftF (namei devread [slash]);
        upd_proc p (set_cwd (default 0%nat cwd));;
        upd_proc p (set_state RUNNABLE)
  end.

(** Grow current process's memory by n bytes: 0 on success, -1 on failure. *)
Definition growproc (n : Z) : K Z :=
  s ← getS;
  let p := cur_proc s in
  sz ← (if 0 <? n then liftK (allocuvm kend (p_pgdir p) (p_sz p) (u32 (p_sz p + n)))
        else if n <? 0 then liftK (deallocuvm kend (p_pgdir p) (p_sz p) (u32 (p_sz p + n)))
        else mret (p_sz p));
  if negb (n =? 0) && (sz =? 0) then mret (-1)
  else
    upd_cur (set_space sz (p_pgdir p));;
    switchuvm (kn_cur s);;
    mret 0.

(** Copy the open files: [for(i = 0; i < NOFILE; i++) if(curproc->ofile[i]) np->ofile[i] = filedup(...)] *)
Fixpoint dup_files (np : nat) (fs : list (option nat)) (i : nat) : K unit :=
  match fs with
  | [] => mret tt
  | None :: fs => dup_files np fs (Datatypes.S i)
  | Some f :: fs =>
      f ← filedup f;
      upd_proc np (λ p, set_ofile (<[i := Some f]> (p_ofile p)) p);;
      dup_files np fs (Datatypes.S i)
  end.

(** Create a new process copying the current one. *)
Definition fork : K Z :=
  cp ← myproc;
  r ← allocproc;
  match r with
  | None => mret (-1)
  | Some np =>
      pgdir ← liftK (copyuvm kend data (p_pgdir cp) (p_sz cp));
      x ← gets (λ s, kn_proc s !!! np);
      if pgdir =? 0 then
        upd_proc np (λ p, set_space (p_sz p) 0 p);;
        liftK (kfree kend (p_kstack x));;
        upd_proc np (λ p, set_state UNUSED (set_stack 0 (p_tf p) (p_context p) p));;
        mret (-1)
      else
        s ← getS;
        upd_proc np (λ p, set_parent (Some (kn_cur s)) (set_space (p_sz cp) pgdir p));;
        liftK (memmove (p_tf x) (p_tf cp) TF_SIZE);;
        liftK (store (p_tf x + TF_EAX) 0);;
        dup_files np (p_ofile cp) 0;;
        cwd ← liftF (idup (p_cwd cp));
        upd_proc np (λ p, set_name (name16 (p_name cp) (p_name p)) (set_cwd cwd p));;
        let pid := p_pid x in
        upd_proc np (set_state RUNNABLE);;
        mret pid
  end.

(** [for(fd = 0; fd < NOFILE; fd++)] of [exit] *)
Definition close_all : K unit :=
  mfor 0 NOFILE (λ fd,
    p ← myproc;
    match p_ofile p !!! fd with
    | Some f => fileclose kend f;; upd_cur (λ p, set_ofile (<[fd := None]> (p_ofile p)) p)
    | None => mret tt
    end).

Definition parent_chan (p : option nat) : chan := match p with Some i => ProcChan i | None => NoChan end.

(** Pass the children of the running process to init. *)
Definition reparent : K unit :=
  mfor 0 NPROC (λ i,
    s ← getS;
    let p := kn_proc s !!! i in
    if bool_decide (p_parent p = Some (kn_cur s)) then
      upd_proc i (set_parent (Some (kn_initproc s)));;
      if bool_decide (p_state p = ZOMBIE) then wakeup1 (ProcChan (kn_initproc s)) else mret tt
    else mret tt).

(** The part of [exit] under the process table lock, up to [sched]. *)
Definition exit_locked : K unit :=
  p ← myproc;
  wakeup1 (parent_chan (p_parent p));;
  reparent;;
  upd_cur (set_state ZOMBIE).

(** Exit the current process.  Does not return. *)
Definition exit {A} : K A :=
  s ← getS;
  if bool_decide (kn_cur s = kn_initproc s) then panic "init exiting"
  else
    close_all;;
    begin_fs;;
    liftF (iput (p_cwd (cur_proc s)));;
    end_fs;;
    upd_cur (set_cwd 0);;
    exit_locked;;
    sched.

(** What [wait] leaves of a child it has reaped. *)
Definition reaped (p : proc) : proc :=
  set_state UNUSED (set_killed false (set_name (<[0%nat := Byte.x00]> (p_name p)) (set_parent None (set_pid 0
    (set_stack 0 (p_tf p) (p_context p) p))))).

(** Wait for a child process to exit and return its pid; -1 without children. *)
Definition wait : K Z :=
  s ← getS;
  match wait_scan (kn_cur s) (kn_proc s) 0 false with
  | (Some i, _) =>
      let p := kn_proc s !!! i in
      liftK (kfree kend (p_kstack p));;
      liftK (freevm kend (p_pgdir p));;
      upd_proc i reaped;;
      mret (p_pid p)
  | (None, havekids) =>
      if negb havekids || p_killed (cur_proc s) then mret (-1) else sleep (ProcChan (kn_cur s))
  end.

(** Kill the process with the given pid. *)
Definition killed_proc (p : proc) : proc :=
  let p := set_killed true p in
  if bool_decide (p_state p = SLEEPING) then set_state RUNNABLE p else p.
Definition kill (pid : Z) : K Z :=
  s ← getS;
  match find_pid pid (kn_proc s) 0 with
  | Some i => upd_proc i killed_proc;; mret 0
  | None => mret (-1)
  end.

(** One step of the scheduler's loop from slot [i] on: switch to the next RUNNABLE process. *)
Definition schedule (i : nat) : K (option nat) :=
  s ← getS;
  match find_state RUNNABLE (drop i (kn_proc s)) i with
  | None => mret None
  | Some p =>
      modify (with_cur p);;
      switchuvm p;;
      upd_proc p (set_state RUNNING);;
      mret (Some p)
  end.
End proc.
