(* ===== verification/ProcInv.v ===== *)
(** * Invariants of the process table (src/proc.c)

    Steps are the operations of the running process, the scheduler and other
    CPUs.  Pids are unique, every process has a parent that can wait for it, and
    a process that sleeps in [wait] has no exited child: no wakeup is lost. *)

From S2P Require Import Prelude Fcntl Dll Sleeplock Bio Memide FsLayout Log LogCrash LogProtocol Tx CString Fs Pipe Kalloc Vm PageTable Kernel File Proc.

Section frames.
Context {S A B : Type}.
Implicit Types (s : kern S).
Abbreviation K := (M (kern S)).

Lemma bind_Blocked_inv (m : K A) (k : A → K B) s s' :
  (m ≫= k) s = Blocked s' → m s = Blocked s' ∨ ∃ a s1, m s = Ok a s1 ∧ k a s1 = Blocked s'.
Proof. unfold mbind, M_bind. destruct (m s); naive_solver. Qed.

(** The process table, the next pid, and which processes are init and running. *)
Record ptab : Type := mkPtab { t_proc : list proc; t_next : Z; t_init : nat; t_cur : nat }.
Definition ptab_of s : ptab := mkPtab (kn_proc s) (kn_nextpid s) (kn_initproc s) (kn_cur s).

(** An operation that leaves the process table alone when it returns. *)
Definition keeps_tab (m : K A) : Prop := ∀ s a s', m s = Ok a s' → ptab_of s' = ptab_of s.
End frames.

Section keeps.
Context {S : Type}.
Implicit Types (s : kern S).
Abbreviation K := (M (kern S)).

Lemma keeps_liftK {A} (m : M kst A) : keeps_tab (S := S) (liftK m).
Proof. intros s a s'. unfold liftK, lift. destruct (m (kn_k s)); naive_solver. Qed.

Lemma keeps_liftF {A} (m : M (fsst S) A) : keeps_tab (liftF m).
Proof. intros s a s'. unfold liftF, lift. destruct (m (cur_fs s)); naive_solver. Qed.

Lemma keeps_bind {A B} (m : K A) (k : A → K B) : keeps_tab m → (∀ a, keeps_tab (k a)) → keeps_tab (m ≫= k).
Proof. intros Hm Hk s b s' (a & s1 & H1 & H2)%bind_inv. rewrite (Hk a s1 b s' H2). by eapply Hm. Qed.

Lemma keeps_filedup f : keeps_tab (S := S) (filedup f).
Proof.
  intros s a s' (x & s1 & H1 & H2)%bind_inv. unfold get_file, gets in H1. simplify_eq. destruct (f_ref _ <? 1); [done|].
  apply bind_inv in H2 as ([] & s2 & H2 & H3). unfold upd_file, modify in H2. unfold mret, M_ret in H3. by simplify_eq.
Qed.

Lemma keeps_parts {A} (m : K A) s a s' :
  keeps_tab m → m s = Ok a s' →
  kn_proc s' = kn_proc s ∧ kn_nextpid s' = kn_nextpid s ∧ kn_initproc s' = kn_initproc s ∧ kn_cur s' = kn_cur s.
Proof. intros Hm H. specialize (Hm _ _ _ H). unfold ptab_of in Hm. by simplify_eq. Qed.
End keeps.

Create HintDb keeps.
#[global] Hint Resolve keeps_liftK keeps_liftF keeps_filedup : keeps.

Ltac tab_cbn :=
  cbn [kn_proc kn_nextpid kn_initproc kn_cur with_k with_fs with_file with_pipe with_proc with_nextpid with_initproc with_ticks with_cur] in *.

(** [inv_step H]: the first call of [H] returned; pure steps are computed away,
    and of a call that keeps the table only that is remembered. *)
Ltac inv_step H :=
  let E := fresh "E" in let a := fresh "r" in let t := fresh "s" in
  apply bind_inv in H as (a & t & E & H);
  first
    [ progress unfold getS, gets, myproc, upd_proc, upd_cur, modify, mret, M_ret in E; injection E; clear E; intros; try subst a; try subst t
    | apply keeps_parts in E as (? & ? & ? & ?); [|solve [auto with keeps]] ];
  tab_cbn.

(** Rewrite the table, the next pid and the rest back to the first state. *)
Ltac tab_back :=
  repeat match goal with
    | E : kn_proc ?a = _ |- context [kn_proc ?a] => rewrite !E
    | E : kn_nextpid ?a = _ |- context [kn_nextpid ?a] => rewrite !E
    | E : kn_initproc ?a = _ |- context [kn_initproc ?a] => rewrite !E
    | E : kn_cur ?a = _ |- context [kn_cur ?a] => rewrite !E
    end.

Lemma find_state_Some st l i j :
  find_state st l i = Some j → ∃ k p, j = (i + k)%nat ∧ l !! k = Some p ∧ p_state p = st.
Proof.
  revert i. induction l as [|p l IH]; intros i H; [done|]. cbn [find_state] in H. case_bool_decide as E.
  - simplify_eq. exists 0%nat, p. split; [lia|done].
  - apply IH in H as (k & q & -> & Hk & Hs). exists (Datatypes.S k), q. split; [lia|done].
Qed.

Lemma alter_at {A} (f : A → A) (i : nat) (l : list A) (x : A) : l !! i = Some x → alter f i l = <[i := f x]> l.
Proof. revert i. induction l as [|y l IH]; intros [|i] H; simplify_eq/=; [done|]. f_equal. by apply IH. Qed.

(** ** What the operations do to the table *)

Section effects.
Context {S : Type} {ops : TxStore S} {txo : TxOps S}.
Variables (kend data forkret trapret : Z).
Implicit Types (s : kern S).

(** Slot [i], with state [st], a new pid and otherwise the same role. *)
Definition took s (i : nat) (st : procstate) s' : Prop :=
  ∃ p p', kn_proc s !! i = Some p ∧ p_state p = UNUSED ∧ kn_nextpid s' = s32 (kn_nextpid s + 1) ∧
    kn_proc s' = <[i := p']> (kn_proc s) ∧ p_state p' = st ∧ p_pid p' = kn_nextpid s ∧ p_parent p' = p_parent p ∧ p_chan p' = p_chan p.

Lemma allocproc_effect s r s' :
  allocproc forkret trapret s = Ok r s' →
  kn_initproc s' = kn_initproc s ∧ kn_cur s' = kn_cur s ∧
  match r with
  | None => kn_proc s' = kn_proc s ∧ kn_nextpid s' = kn_nextpid s ∨ ∃ i, took s i UNUSED s'
  | Some i => took s i EMBRYO s'
  end.
Proof.
  intros H. unfold allocproc in H. inv_step H.
  destruct (find_state UNUSED (kn_proc _) 0) as [i|] eqn:Ef.
  2: { unfold mret, M_ret in H. simplify_eq. auto. }
  apply find_state_Some in Ef as (k & p & -> & Hk & Hs). cbn [Nat.add] in *.
  do 3 inv_step H. unfold took. pose proof (lookup_lt_Some _ _ _ Hk) as Hlt. rewrite (alter_at _ _ _ _ Hk) in *.
  destruct (_ =? 0).
  - inv_step H. unfold mret, M_ret in H. simplify_eq. cbn in *. split_and!; [done..|]. right. exists k, p. eexists. split_and!.
    4: { tab_back. erewrite alter_at by (by apply list_lookup_insert_eq). by rewrite list_insert_insert_eq. }
    all: done.
  - do 4 inv_step H. unfold mret, M_ret in H. simplify_eq. cbn in *. split_and!; [congruence..|]. exists p. eexists. split_and!.
    4: { tab_back. erewrite alter_at by (by apply list_lookup_insert_eq). by rewrite list_insert_insert_eq. }
    all: done || congruence.
Qed.

(** [p'] is [p] as far as the table's invariants go. *)
Definition same_role (p p' : proc) : Prop :=
  p_state p' = p_state p ∧ p_pid p' = p_pid p ∧ p_parent p' = p_parent p ∧ p_chan p' = p_chan p.

Lemma dup_files_effect np fs i s s' p :
  dup_files np fs i s = Ok tt s' → kn_proc s !! np = Some p →
  kn_nextpid s' = kn_nextpid s ∧ kn_initproc s' = kn_initproc s ∧ kn_cur s' = kn_cur s ∧
  ∃ p', kn_proc s' = <[np := p']> (kn_proc s) ∧ same_role p p'.
Proof.
  revert i s p. induction fs as [|[f|] fs IH]; intros i s p H Hp; cbn [dup_files] in H.
  - unfold mret, M_ret in H. simplify_eq. split_and!; [done..|]. exists p. by rewrite list_insert_id.
  - inv_step H. inv_step H. pose proof (lookup_lt_Some _ _ _ Hp) as Hlt.
    apply (IH _ _ (set_ofile (<[i := Some r]> (p_ofile p)) p)) in H as (Hn & Hi & Hc & p' & Hp' & Hr).
    2: { cbn. tab_back. by rewrite list_lookup_alter_eq, Hp. }
    tab_cbn. split_and!; [congruence..|]. exists p'. rewrite Hp'. tab_back. rewrite (alter_at _ _ _ _ Hp), list_insert_insert_eq. done.
  - by apply (IH _ _ p) in H.
Qed.

Lemma fork_effect s r s' :
  fork kend data forkret trapret s = Ok r s' →
  kn_initproc s' = kn_initproc s ∧ kn_cur s' = kn_cur s ∧
  (r = -1 ∧ (kn_proc s' = kn_proc s ∧ kn_nextpid s' = kn_nextpid s ∨ ∃ i, took s i UNUSED s') ∨
   ∃ i p p', kn_proc s !! i = Some p ∧ p_state p = UNUSED ∧ kn_nextpid s' = s32 (kn_nextpid s + 1) ∧ r = kn_nextpid s ∧
     kn_proc s' = <[i := p']> (kn_proc s) ∧ p_state p' = RUNNABLE ∧ p_pid p' = kn_nextpid s ∧ p_parent p' = Some (kn_cur s) ∧ p_chan p' = p_chan p).
Proof.
  intros H. unfold fork in H. inv_step H. apply bind_inv in H as (r1 & s1 & E & H). apply allocproc_effect in E as (Hi1 & Hc1 & E).
  destruct r1 as [np|]; [|unfold mret, M_ret in H; by simplify_eq; auto].
  destruct E as (p & p' & Hp & Hs & Hn1 & Ht1 & Hst & Hpid & Hpar & Hch). pose proof (lookup_lt_Some _ _ _ Hp) as Hlt.
  assert (Hl : ∀ x, <[np := x]> (kn_proc s) !! np = Some x) by (intros; by apply list_lookup_insert_eq).
  do 2 inv_step H. destruct (_ =? 0).
  - do 3 inv_step H. unfold mret, M_ret in H. simplify_eq. cbn. split_and!; [congruence..|]. left. split; [done|]. right. exists np, p. eexists. split_and!.
    4: { tab_back. rewrite (alter_at _ _ _ _ (Hl p')), list_insert_insert_eq. erewrite alter_at by apply Hl. by rewrite list_insert_insert_eq. }
    all: cbn; (done || congruence).
  - do 4 inv_step H. apply bind_inv in H as ([] & sd & E & H).
    apply (dup_files_effect _ _ _ _ _ (set_parent (Some (kn_cur s)) (set_space (p_sz (cur_proc s)) r0 p'))) in E as (Hn2 & Hi2 & Hc2 & p2 & Hp2 & Hr2).
    2: { tab_back. by rewrite (alter_at _ _ _ _ (Hl p')), list_insert_insert_eq. }
    destruct Hr2 as (Hr1 & Hr2 & Hr3 & Hr4). cbn in Hr1, Hr2, Hr3, Hr4.
    do 3 inv_step H. unfold mret, M_ret in H. simplify_eq. tab_cbn. split_and!; [congruence..|]. right. exists np, p. eexists. split_and!.
    5: { tab_back. rewrite (alter_at _ _ _ _ (Hl p')), !list_insert_insert_eq. erewrite (alter_at _ _ _ _ (Hl p2)), list_insert_insert_eq.
         erewrite alter_at by apply Hl. by rewrite list_insert_insert_eq. }
    all: cbn; try (done || congruence).
    tab_back. rewrite list_lookup_total_insert_eq by done. done.
Qed.
End effects.

(** ** The invariant *)

Definition alive (p : proc) : Prop := p_state p = SLEEPING ∨ p_state p = RUNNABLE ∨ p_state p = RUNNING.

Record ptab_inv (l : list proc) (next : Z) (init : nat) : Prop := mkPtabInv {
  pi_pid i p : l !! i = Some p → 0 ≤ p_pid p < next;
  pi_uniq i j p q : l !! i = Some p → l !! j = Some q → p_pid p = p_pid q → p_pid p ≠ 0 → i = j;
  pi_live i p : l !! i = Some p → p_state p ≠ UNUSED → 0 < p_pid p ∧ p_state p ≠ EMBRYO;
  pi_unused i p : l !! i = Some p → p_state p = UNUSED → p_parent p = None;
  pi_parent i p : l !! i = Some p → p_state p ≠ UNUSED → i ≠ init →
    ∃ j q, p_parent p = Some j ∧ j ≠ i ∧ l !! j = Some q ∧ alive q;
  pi_init : ∃ q, l !! init = Some q ∧ alive q ∧ p_parent q = None;
  pi_chan i p k : l !! i = Some p → p_state p = SLEEPING → p_chan p = ProcChan k → k = i;
  pi_wait i p j q : l !! i = Some p → p_state p = SLEEPING → p_chan p = ProcChan i →
    l !! j = Some q → p_parent q = Some i → p_state q ≠ ZOMBIE;
}.

Section inv.
Implicit Types (l : list proc) (p q : proc).

Lemma alive_not p : alive p → p_state p ≠ UNUSED ∧ p_state p ≠ ZOMBIE ∧ p_state p ≠ EMBRYO.
Proof. unfold alive. by intros [->|[->| ->]]. Qed.

Lemma insert_other {A} (l : list A) i x j y : j ≠ i → l !! j = Some y → <[i := x]> l !! j = Some y.
Proof. intros. by rewrite list_lookup_insert_ne. Qed.

(** An alive process stays alive, with the same pid and parent. *)
Lemma inv_set l next init i p p' :
  ptab_inv l next init → l !! i = Some p → alive p → alive p' → p_pid p' = p_pid p → p_parent p' = p_parent p →
  (p_state p' = SLEEPING → ∀ k, p_chan p' = ProcChan k → k = i ∧ ∀ j q, l !! j = Some q → p_parent q = Some i → p_state q ≠ ZOMBIE) →
  ptab_inv (<[i := p']> l) next init.
Proof.
  intros [Hpid Huniq Hlive Hun Hpar (q0 & Hq0 & Ha0 & Hn0) Hch Hw] Hi Ha Ha' Ep Epar Hsl. pose proof (lookup_lt_Some _ _ _ Hi) as Hlt.
  destruct (alive_not _ Ha) as (Hs1 & Hs2 & _). destruct (alive_not _ Ha') as (Hs1' & Hs2' & Hs3').
  assert (Hself : <[i := p']> l !! i = Some p') by (by apply list_lookup_insert_eq).
  split.
  - intros j q [[-> ->]|[Hne Hj]]%insert_cases; [rewrite Ep|]; eauto.
  - intros j k q r [[-> ->]|[Hn1 Hj]]%insert_cases [[-> ->]|[Hn2 Hk]]%insert_cases; rewrite ?Ep; eauto.
  - intros j q [[-> ->]|[Hne Hj]]%insert_cases Hs; [|eauto]. rewrite Ep. split; [|done]. by apply (Hlive i p).
  - intros j q [[-> ->]|[Hne Hj]]%insert_cases Hs; [done|eauto].
  - intros j q [[-> ->]|[Hne Hj]]%insert_cases Hs Hji.
    + rewrite Epar. destruct (Hpar i p Hi Hs1 Hji) as (k & r & ? & Hki & Hk & Hr). exists k, r. split_and!; [done|done| |done]. by apply insert_other.
    + destruct (Hpar j q Hj Hs Hji) as (k & r & ? & Hkj & Hk & Hr). destruct (decide (k = i)) as [->|Hki].
      * exists i, p'. done.
      * exists k, r. split_and!; [done|done| |done]. by apply insert_other.
  - destruct (decide (init = i)) as [->|Hne]; [|exists q0; split; [by apply insert_other|done]].
    simplify_eq. exists p'. by rewrite Epar.
  - intros j q k [[-> ->]|[Hne Hj]]%insert_cases Hs Hc; [by apply Hsl|eauto].
  - intros j q k r [[-> ->]|[Hne Hj]]%insert_cases Hs Hc [[-> ->]|[Hn2 Hk]]%insert_cases Hpr; [done| |done|by apply (Hw j q k r)].
    destruct (Hsl Hs i Hc) as [_ Hz]. by eapply Hz.
Qed.

(** A change that keeps the roles. *)
Lemma inv_same_role l next init i p p' :
  ptab_inv l next init → l !! i = Some p → same_role p p' → ptab_inv (<[i := p']> l) next init.
Proof.
  intros [Hpid Huniq Hlive Hun Hpar (q0 & Hq0 & Ha0 & Hn0) Hch Hw] Hi (Es & Ep & Epar & Ec).
  assert (Hback : ∀ j q', <[i := p']> l !! j = Some q' → ∃ q, l !! j = Some q ∧ same_role q q').
  { intros j q' [[-> ->]|[Hne Hj]]%insert_cases; [by exists p|]. by exists q'. }
  assert (Hfwd : ∀ j q, l !! j = Some q → ∃ q', <[i := p']> l !! j = Some q' ∧ same_role q q').
  { intros j q Hj. destruct (decide (j = i)) as [->|Hne].
    - simplify_eq. exists p'. split; [|done]. apply list_lookup_insert_eq. by eapply lookup_lt_Some.
    - exists q. split; [by apply insert_other|done]. }
  assert (Hal : ∀ q q', same_role q q' → alive q → alive q') by (unfold alive, same_role; intros ?? (-> & _); done).
  split.
  - intros j q' (q & Hj & _ & -> & _)%Hback. eauto.
  - intros j k q' r' (q & Hj & _ & -> & _)%Hback (r & Hk & _ & -> & _)%Hback. eauto.
  - intros j q' (q & Hj & -> & -> & _)%Hback. eauto.
  - intros j q' (q & Hj & -> & _ & -> & _)%Hback. eauto.
  - intros j q' (q & Hj & -> & _ & -> & _)%Hback Hs Hne. destruct (Hpar j q Hj Hs Hne) as (k & r & ? & ? & Hk & Hr).
    destruct (Hfwd k r Hk) as (r' & ? & ?). exists k, r'. eauto.
  - destruct (Hfwd init q0 Hq0) as (q' & ? & Hr). exists q'. split_and!; [done|eauto|]. destruct Hr as (_ & _ & -> & _). done.
  - intros j q' k (q & Hj & -> & _ & _ & ->)%Hback. eauto.
  - intros j q' k r' (q & Hj & -> & _ & _ & ->)%Hback Hs Hc (r & Hk & -> & _ & -> & _)%Hback. eauto.
Qed.

(** Waking processes up. *)
Lemma inv_wakeup l next init c : ptab_inv l next init → ptab_inv (wakeup1_proc c <$> l) next init.
Proof.
  intros [Hpid Huniq Hlive Hun Hpar (q0 & Hq0 & Ha0 & Hn0) Hch Hw].
  assert (Hrole : ∀ q, p_pid (wakeup1_proc c q) = p_pid q ∧ p_parent (wakeup1_proc c q) = p_parent q ∧ p_chan (wakeup1_proc c q) = p_chan q ∧
    (p_state (wakeup1_proc c q) = p_state q ∨ p_state q = SLEEPING ∧ p_state (wakeup1_proc c q) = RUNNABLE)).
  { intros q. unfold wakeup1_proc. repeat case_bool_decide; cbn; split_and!; auto. }
  assert (Hback : ∀ j q', (wakeup1_proc c <$> l) !! j = Some q' → ∃ q, l !! j = Some q ∧ q' = wakeup1_proc c q).
  { intros j q'. rewrite list_lookup_fmap, fmap_Some. naive_solver. }
  assert (Hfwd : ∀ j q, l !! j = Some q → (wakeup1_proc c <$> l) !! j = Some (wakeup1_proc c q)).
  { intros j q Hj. by rewrite list_lookup_fmap, Hj. }
  assert (Hal : ∀ q, alive q → alive (wakeup1_proc c q)).
  { intros q Ha. destruct (Hrole q) as (_ & _ & _ & [E|[_ E]]); unfold alive in *; rewrite E; auto. }
  assert (Hns : ∀ q, p_state (wakeup1_proc c q) = SLEEPING → p_state q = SLEEPING).
  { intros q. destruct (Hrole q) as (_ & _ & _ & [E|[_ E]]); rewrite E; [done|done]. }
  assert (Hnu : ∀ q st, st ≠ RUNNABLE → st ≠ SLEEPING → p_state (wakeup1_proc c q) = st ↔ p_state q = st).
  { intros q st ? ?. destruct (Hrole q) as (_ & _ & _ & [E|[E1 E2]]); [by rewrite E|]. rewrite E1, E2. split; intros; congruence. }
  split.
  - intros j q' (q & Hj & ->)%Hback. destruct (Hrole q) as (-> & _). eauto.
  - intros j k q' r' (q & Hj & ->)%Hback (r & Hk & ->)%Hback. destruct (Hrole q) as (-> & _), (Hrole r) as (-> & _). eauto.
  - intros j q' (q & Hj & ->)%Hback Hs. destruct (Hrole q) as (Ep & _). rewrite Ep. destruct (Hlive j q Hj) as [? Hne]; [by intros ?%(Hnu q UNUSED)|].
    split; [done|]. by intros ?%(Hnu q EMBRYO).
  - intros j q' (q & Hj & ->)%Hback Hs. rewrite (Hnu q UNUSED) in Hs by done. destruct (Hrole q) as (_ & Ep & _). rewrite Ep. by apply (Hun j q).
  - intros j q' (q & Hj & ->)%Hback Hs Hne. destruct (Hrole q) as (_ & Ep & _). rewrite Ep.
    destruct (Hpar j q Hj) as (k & r & ? & ? & Hk & Hr); [by intros ?%(Hnu q UNUSED)|done|]. exists k, (wakeup1_proc c r). split_and!; auto.
  - exists (wakeup1_proc c q0). destruct (Hrole q0) as (_ & -> & _). eauto.
  - intros j q' k (q & Hj & ->)%Hback Hs%Hns. destruct (Hrole q) as (_ & _ & -> & _). eauto.
  - intros j q' k r' (q & Hj & ->)%Hback Hs%Hns Hc (r & Hk & ->)%Hback Hpr Hz. rewrite (Hnu r ZOMBIE) in Hz by done.
    destruct (Hrole q) as (_ & _ & Ec & _), (Hrole r) as (_ & Er & _). rewrite Ec in Hc. rewrite Er in Hpr. by apply (Hw j q k r).
Qed.

(** A failed fork leaves its pid on an unused slot. *)
Lemma inv_took l next init i p p' :
  ptab_inv l next init → l !! i = Some p → p_state p = UNUSED → p_state p' = UNUSED → p_pid p' = next → p_parent p' = p_parent p →
  0 < next → ptab_inv (<[i := p']> l) (next + 1) init.
Proof.
  intros [Hpid Huniq Hlive Hun Hpar (q0 & Hq0 & Ha0 & Hn0) Hch Hw] Hi Hs Hs' Ep Epar Hnx.
  assert (Hi0 : init ≠ i) by (intros ->; simplify_eq; by destruct (alive_not _ Ha0)).
  split.
  - intros j q [[-> ->]|[Hne Hj]]%insert_cases; [lia|]. specialize (Hpid _ _ Hj). lia.
  - intros j k q r [[-> ->]|[Hn1 Hj]]%insert_cases [[-> ->]|[Hn2 Hk]]%insert_cases; [done|..|eauto]; rewrite ?Ep; intros E; exfalso.
    + specialize (Hpid _ _ Hk). lia.
    + specialize (Hpid _ _ Hj). lia.
  - intros j q [[-> ->]|[Hne Hj]]%insert_cases; [done|eauto].
  - intros j q [[-> ->]|[Hne Hj]]%insert_cases; [rewrite Epar|]; eauto.
  - intros j q [[-> ->]|[Hne Hj]]%insert_cases; [done|]. intros Hq Hji. destruct (Hpar j q Hj Hq Hji) as (k & r & ? & ? & Hk & Hr).
    exists k, r. split_and!; [done|done| |done]. apply insert_other; [|done]. intros ->. simplify_eq. by destruct (alive_not _ Hr).
  - exists q0. split; [by apply insert_other|done].
  - intros j q k [[-> ->]|[Hne Hj]]%insert_cases Hsl; [congruence|eauto].
  - intros j q k r [[-> ->]|[Hne Hj]]%insert_cases Hsl Hc [[-> ->]|[Hn2 Hk]]%insert_cases Hpr; [congruence..|by apply (Hw j q k r)].
Qed.

(** A fork adds a child of an alive process. *)
Lemma inv_fork l next init i p p' c pc :
  ptab_inv l next init → l !! i = Some p → p_state p = UNUSED → p_state p' = RUNNABLE → p_pid p' = next → p_parent p' = Some c →
  l !! c = Some pc → alive pc → 0 < next → ptab_inv (<[i := p']> l) (next + 1) init.
Proof.
  intros [Hpid Huniq Hlive Hun Hpar (q0 & Hq0 & Ha0 & Hn0) Hch Hw] Hi Hs Hs' Ep Epar Hc Hac Hnx.
  assert (Hal : ∀ j q, l !! j = Some q → alive q → j ≠ i) by (intros j q Hj Ha ->; simplify_eq; by destruct (alive_not _ Ha)).
  split.
  - intros j q [[-> ->]|[Hne Hj]]%insert_cases; [lia|]. specialize (Hpid _ _ Hj). lia.
  - intros j k q r [[-> ->]|[Hn1 Hj]]%insert_cases [[-> ->]|[Hn2 Hk]]%insert_cases; [done|..|eauto]; rewrite ?Ep; intros E; exfalso.
    + specialize (Hpid _ _ Hk). lia.
    + specialize (Hpid _ _ Hj). lia.
  - intros j q [[-> ->]|[Hne Hj]]%insert_cases; [rewrite Ep, Hs'; done|eauto].
  - intros j q [[-> ->]|[Hne Hj]]%insert_cases Hq; [congruence|eauto].
  - intros j q [[-> ->]|[Hne Hj]]%insert_cases Hq Hji.
    + exists c, pc. split_and!; [done|by eapply Hal| |done]. apply insert_other; [by eapply Hal|done].
    + destruct (Hpar j q Hj Hq Hji) as (k & r & ? & ? & Hk & Hr).
      exists k, r. split_and!; [done|done| |done]. apply insert_other; [by eapply Hal|done].
  - exists q0. split; [apply insert_other; [by eapply Hal|done]|done].
  - intros j q k [[-> ->]|[Hne Hj]]%insert_cases Hsl; [congruence|eauto].
  - intros j q k r [[-> ->]|[Hne Hj]]%insert_cases Hsl Hcj [[-> ->]|[Hn2 Hk]]%insert_cases Hpr; [congruence|congruence|congruence|by apply (Hw j q k r)].
Qed.

(** [wait] frees the slot of an exited child. *)
Lemma inv_reap l next init i p :
  ptab_inv l next init → l !! i = Some p → p_state p = ZOMBIE → ptab_inv (<[i := reaped p]> l) next init.
Proof.
  intros [Hpid Huniq Hlive Hun Hpar (q0 & Hq0 & Ha0 & Hn0) Hch Hw] Hi Hs. pose proof (Hpid _ _ Hi).
  assert (Hal : ∀ j q, l !! j = Some q → alive q → j ≠ i) by (intros j q Hj Ha ->; simplify_eq; by destruct (alive_not _ Ha) as (_ & ? & _)).
  split; cbn.
  - intros j q [[-> ->]|[Hne Hj]]%insert_cases; [cbn; lia|eauto].
  - intros j k q r [[-> ->]|[Hn1 Hj]]%insert_cases [[-> ->]|[Hn2 Hk]]%insert_cases; cbn; [done|done|congruence|eauto].
  - intros j q [[-> ->]|[Hne Hj]]%insert_cases; [done|eauto].
  - intros j q [[-> ->]|[Hne Hj]]%insert_cases Hq; [done|eauto].
  - intros j q [[-> ->]|[Hne Hj]]%insert_cases Hq Hji; [done|].
    destruct (Hpar j q Hj Hq Hji) as (k & r & ? & ? & Hk & Hr). exists k, r. split_and!; [done|done| |done]. apply insert_other; [by eapply Hal|done].
  - exists q0. split; [apply insert_other; [by eapply Hal|done]|done].
  - intros j q k [[-> ->]|[Hne Hj]]%insert_cases Hsl; [done|eauto].
  - intros j q k r [[-> ->]|[Hne Hj]]%insert_cases Hsl Hcj [[-> ->]|[Hn2 Hk]]%insert_cases Hpr; [done|done|done|by apply (Hw j q k r)].
Qed.

(** [i] does not sleep in [wait]. *)
Definition not_waiting l (i : nat) : Prop := ∀ q, l !! i = Some q → p_state q = SLEEPING → p_chan q ≠ ProcChan i.

(** Passing a child to init. *)
Lemma inv_reparent l next init i p c :
  ptab_inv l next init → l !! i = Some p → p_parent p = Some c → (p_state p = ZOMBIE → not_waiting l init) →
  ptab_inv (<[i := set_parent (Some init) p]> l) next init.
Proof.
  intros [Hpid Huniq Hlive Hun Hpar (q0 & Hq0 & Ha0 & Hn0) Hch Hw] Hi Hpc Hz. pose proof (lookup_lt_Some _ _ _ Hi) as Hlt.
  assert (Hii : init ≠ i) by (intros ->; simplify_eq).
  assert (Hs : p_state p ≠ UNUSED) by (intros E; rewrite (Hun i p Hi E) in Hpc; done).
  set (p' := set_parent (Some init) p).
  assert (Hself : <[i := p']> l !! i = Some p') by (by apply list_lookup_insert_eq).
  split.
  - intros j q [[-> ->]|[Hne Hj]]%insert_cases; [apply (Hpid i p Hi)|eauto].
  - intros j k q r [[-> ->]|[Hn1 Hj]]%insert_cases [[-> ->]|[Hn2 Hk]]%insert_cases E; [done|apply (Huniq i k p r Hi Hk E)|apply (Huniq j i q p Hj Hi E)|by apply (Huniq j k q r)].
  - intros j q [[-> ->]|[Hne Hj]]%insert_cases; [apply (Hlive i p Hi)|apply (Hlive j q Hj)].
  - intros j q [[-> ->]|[Hne Hj]]%insert_cases E; [done|by apply (Hun j q)].
  - intros j q [[-> ->]|[Hne Hj]]%insert_cases Hq Hji.
    + exists init, q0. split_and!; [done|done| |done]. by apply insert_other.
    + destruct (Hpar j q Hj Hq Hji) as (k & r & ? & ? & Hk & Hr). destruct (decide (k = i)) as [->|].
      * simplify_eq. exists i, p'. done.
      * exists k, r. split_and!; [done|done| |done]. by apply insert_other.
  - exists q0. split; [by apply insert_other|done].
  - intros j q k [[-> ->]|[Hne Hj]]%insert_cases; [apply (Hch i p k Hi)|by apply Hch].
  - intros j q k r [[-> ->]|[Hne Hj]]%insert_cases Hsl Hc [[-> ->]|[Hn2 Hk]]%insert_cases Hpr.
    + cbn in Hpr. by simplify_eq.
    + by apply (Hw i p k r).
    + injection Hpr as <-. intros E. by apply (Hz E q).
    + by apply (Hw j q k r).
Qed.

(** A running process with no children exits while its parent is not waiting. *)
Lemma inv_zombie l next init c p j :
  ptab_inv l next init → l !! c = Some p → p_state p = RUNNING → c ≠ init → p_parent p = Some j → not_waiting l j →
  (∀ k q, l !! k = Some q → p_parent q ≠ Some c) → ptab_inv (<[c := set_state ZOMBIE p]> l) next init.
Proof.
  intros [Hpid Huniq Hlive Hun Hpar (q0 & Hq0 & Ha0 & Hn0) Hch Hw] Hi Hs Hci Hpj Hnw Hno.
  split.
  - intros k q [[-> ->]|[Hne Hj]]%insert_cases; [apply (Hpid c p Hi)|eauto].
  - intros k m q r [[-> ->]|[Hn1 Hj]]%insert_cases [[-> ->]|[Hn2 Hk]]%insert_cases E; [done|apply (Huniq c m p r Hi Hk E)|apply (Huniq k c q p Hj Hi E)|by apply (Huniq k m q r)].
  - intros k q [[-> ->]|[Hne Hj]]%insert_cases Hq; [|by apply (Hlive k q)]. split; [|done]. cbn. apply (Hlive c p Hi). by rewrite Hs.
  - intros k q [[-> ->]|[Hne Hj]]%insert_cases E; [done|by apply (Hun k q)].
  - intros k q [[-> ->]|[Hne Hj]]%insert_cases Hq Hki.
    + destruct (Hpar c p Hi) as (m & r & ? & ? & Hm & Hr); [by rewrite Hs|done|]. exists m, r. split_and!; [done|done| |done]. by apply insert_other.
    + destruct (Hpar k q Hj Hq Hki) as (m & r & Em & ? & Hm & Hr). exists m, r. split_and!; [done|done| |done]. apply insert_other; [|done].
      intros ->. by destruct (Hno k q Hj).
  - exists q0. split; [by apply insert_other|done].
  - intros k q m [[-> ->]|[Hne Hj]]%insert_cases Hq; [done|by apply Hch].
  - intros k q m r [[-> ->]|[Hne Hj]]%insert_cases Hsl Hc [[-> ->]|[Hn2 Hk]]%insert_cases Hpr; [done|done| |by apply (Hw k q m r)].
    cbn in Hpr. simplify_eq. by destruct (Hnw q).
Qed.
End inv.

(** ** Exit *)

Section exit.
Context {S : Type}.
Implicit Types (s : kern S) (l : list proc).

(** Process [c] runs, is not init, and its parent [j] is not in [wait]. *)
Record exiting l (next : Z) (init c j : nat) : Prop := mkExiting {
  ex_inv : ptab_inv l next init;
  ex_len : length l = NPROC;
  ex_run : ∃ p, l !! c = Some p ∧ p_state p = RUNNING ∧ p_parent p = Some j;
  ex_init : c ≠ init;
  ex_par : not_waiting l j;
}.

Lemma wakeup1_proc_state c p st : st ≠ SLEEPING → p_state p = st → wakeup1_proc c p = p.
Proof. intros Hst Hp. unfold wakeup1_proc. rewrite bool_decide_eq_false_2; [done|]. congruence. Qed.

Lemma wakeup1_parent c p : p_parent (wakeup1_proc c p) = p_parent p.
Proof. unfold wakeup1_proc. by repeat case_bool_decide. Qed.

Lemma wakeup1_waiting c l i : not_waiting l i ∨ c = ProcChan i → not_waiting (wakeup1_proc c <$> l) i.
Proof.
  intros Hc q. rewrite list_lookup_fmap, fmap_Some. intros (p & Hp & ->) Hs Hch. unfold wakeup1_proc in Hs, Hch.
  destruct (decide (p_state p = SLEEPING)) as [Ep|Ep]; [rewrite (bool_decide_eq_true_2 _ Ep) in *|by rewrite (bool_decide_eq_false_2 _ Ep) in *].
  destruct (decide (p_chan p = c)) as [Ec|Ec]; [by rewrite (bool_decide_eq_true_2 _ Ec) in *|rewrite (bool_decide_eq_false_2 _ Ec) in *; cbn in *].
  destruct Hc as [Hn| ->]; [by apply (Hn p)|done].
Qed.

Lemma exiting_wakeup l next init c j ch : exiting l next init c j → exiting (wakeup1_proc ch <$> l) next init c j.
Proof.
  intros [Hinv Hlen (p & Hp & Hr & Hj) Hi Hw]. split; [by apply inv_wakeup|by rewrite length_fmap| |done|apply wakeup1_waiting; by left].
  exists p. rewrite list_lookup_fmap, Hp. split; [cbn; f_equal; by apply (wakeup1_proc_state _ _ RUNNING)|done].
Qed.

Lemma exiting_reparent l next init c j i p :
  exiting l next init c j → l !! i = Some p → p_parent p = Some c → (p_state p = ZOMBIE → not_waiting l init) →
  exiting (<[i := set_parent (Some init) p]> l) next init c j.
Proof.
  intros [Hinv Hlen (q & Hq & Hr & Hj) Hi Hw] Hp Hpc Hz. destruct (pi_init _ _ _ Hinv) as (q0 & Hq0 & _ & Hn0).
  assert (Hci : c ≠ i).
  { intros ->. assert (q = p) as -> by congruence. assert (j = i) as -> by congruence.
    destruct (pi_parent _ _ _ Hinv i p Hp) as (k & r & ? & ? & _); [by rewrite Hr|done|congruence]. }
  split; [by eapply inv_reparent|by rewrite length_insert| |done|].
  - exists q. split; [by apply insert_other|done].
  - intros r [[-> ->]|[Hne Hr']]%insert_cases; [by apply (Hw p)|by apply Hw].
Qed.

Definition no_child l (c n : nat) : Prop := ∀ k q, (k < n)%nat → l !! k = Some q → p_parent q ≠ Some c.

Lemma no_child_wakeup l c n ch : no_child l c n → no_child (wakeup1_proc ch <$> l) c n.
Proof. intros H k q Hk. rewrite list_lookup_fmap, fmap_Some. intros (p & Hp & ->). rewrite wakeup1_parent. by eapply H. Qed.

Lemma no_child_step l c n p : no_child l c n → l !! n = Some p → p_parent p ≠ Some c → no_child l c (Datatypes.S n).
Proof. intros H Hp Hc k q Hk Hq. destruct (decide (k = n)) as [->|]; [congruence|]. apply (H k q); [lia|done]. Qed.

(** The loop's invariant: the children in the slots below [n] are passed on. *)
Definition reparenting next init (c j n : nat) s : Prop :=
  exiting (kn_proc s) next init c j ∧ no_child (kn_proc s) c n ∧ kn_cur s = c ∧ kn_initproc s = init ∧ kn_nextpid s = next.

Lemma reparent_spec next init c j s :
  reparenting next init c j 0 s → wp (reparent (S := S)) (λ _, reparenting next init c j NPROC) s.
Proof.
  intros Hs. apply (wp_mfor (reparenting next init c j)); [done| |done]. clear s Hs.
  intros n s Hn (He & Hno & Hc & Hi & Hx). apply wp_getS. cbv beta zeta.
  destruct (lookup_lt_is_Some_2 (kn_proc s) n) as [p Hp]; [rewrite (ex_len _ _ _ _ _ He); lia|].
  rewrite (list_lookup_total_correct _ _ _ Hp), Hc, Hi. destruct (decide (p_parent p = Some c)) as [Hpc|Hpc].
  2: { rewrite bool_decide_eq_false_2 by done. apply wp_ret. split; [done|]. split; [by eapply no_child_step|done]. }
  rewrite bool_decide_eq_true_2 by done. apply wp_modify. cbn beta. rewrite (alter_at _ _ _ _ Hp).
  set (p' := set_parent (Some init) p).
  assert (Hlen := lookup_lt_Some _ _ _ Hp).
  assert (Hp' : p_parent p' ≠ Some c) by (cbn; intros [= ?]; by apply (ex_init _ _ _ _ _ He)).
  assert (Hno' : no_child (<[n := p']> (kn_proc s)) c (Datatypes.S n)).
  { apply (no_child_step _ _ _ p'); [|by apply list_lookup_insert_eq|done]. intros k q Hk [[-> ->]|[_ Hq]]%insert_cases; [lia|by eapply Hno]. }
  destruct (decide (p_state p = ZOMBIE)) as [Hz|Hz].
  - rewrite bool_decide_eq_true_2 by done. apply wp_modify_end. split; [|split; [by apply no_child_wakeup|done]]. cbn.
    rewrite list_fmap_insert. rewrite (wakeup1_proc_state (ProcChan init) p' ZOMBIE) by done.
    apply exiting_reparent; [by apply exiting_wakeup| |done|intros _; apply wakeup1_waiting; by right].
    rewrite list_lookup_fmap, Hp. cbn. f_equal. by apply (wakeup1_proc_state _ _ ZOMBIE).
  - rewrite bool_decide_eq_false_2 by done. apply wp_ret. split; [|done]. by apply exiting_reparent.
Qed.

Lemma exit_locked_ok s p :
  ptab_inv (kn_proc s) (kn_nextpid s) (kn_initproc s) → length (kn_proc s) = NPROC →
  kn_proc s !! kn_cur s = Some p → p_state p = RUNNING → kn_cur s ≠ kn_initproc s →
  wp (exit_locked (S := S)) (λ _ s',
    ptab_inv (kn_proc s') (kn_nextpid s') (kn_initproc s') ∧ length (kn_proc s') = NPROC ∧
    kn_cur s' = kn_cur s ∧ kn_initproc s' = kn_initproc s ∧ kn_nextpid s' = kn_nextpid s ∧
    (∃ p', kn_proc s' !! kn_cur s = Some p' ∧ p_state p' = ZOMBIE ∧ p_parent p' = p_parent p) ∧
    no_child (kn_proc s') (kn_cur s) NPROC) s.
Proof.
  intros Hinv Hlen Hp Hr Hci. destruct (pi_parent _ _ _ Hinv _ _ Hp) as (j & q & Hpj & Hjc & Hq & Ha); [by rewrite Hr|done|].
  apply wp_gets. unfold cur_proc. cbv beta. rewrite (list_lookup_total_correct _ _ _ Hp), Hpj. cbn [parent_chan].
  apply wp_modify, wp_bind.
  eapply wp_mono; [apply (reparent_spec (kn_nextpid s) (kn_initproc s) (kn_cur s) j)|].
  { split; [|split; [intros ???; lia|done]]. cbn. split; [by apply inv_wakeup|by rewrite length_fmap| |done|apply wakeup1_waiting; by right].
    exists p. rewrite list_lookup_fmap, Hp. split; [cbn; f_equal; by apply (wakeup1_proc_state _ _ RUNNING)|done]. }
  intros [] s1 ([Hinv1 Hlen1 (p1 & Hp1 & Hr1 & Hj1) _ Hw1] & Hno & Hc & Hi & Hx). apply wp_modify_end. cbn.
  rewrite Hc, (alter_at _ _ _ _ Hp1), Hi, Hx, length_insert. pose proof (lookup_lt_Some _ _ _ Hp1) as Hlt. split_and!; [|done..| |].
  - eapply inv_zombie; [done|done|done|done|done|done|]. intros k r Hk. apply (Hno k r); [|done]. rewrite <-Hlen1. by eapply lookup_lt_Some.
  - eexists. split; [by apply list_lookup_insert_eq|]. cbn. split; [done|congruence].
  - intros k r Hk [[-> ->]|[_ Hk']]%insert_cases; [cbn; congruence|by eapply Hno].
Qed.
End exit.

(** ** Wait, kill and the scheduler *)

Section scan.
Implicit Types (l : list proc).

Lemma wait_scan_Some me l i hk j b :
  wait_scan me l i hk = (Some j, b) → ∃ k p, j = (i + k)%nat ∧ l !! k = Some p ∧ p_state p = ZOMBIE ∧ p_parent p = Some me.
Proof.
  revert i hk. induction l as [|p l IH]; intros i hk H; cbn in H; [done|].
  destruct (decide (p_parent p = Some me)) as [Ep|Ep].
  - rewrite bool_decide_eq_false_2 in H by (intros Hn; by apply Hn). case_bool_decide as Ez.
    + simplify_eq. exists 0%nat, p. split; [lia|done].
    + apply IH in H as (k & q & -> & ?). exists (S k), q. split; [lia|done].
  - rewrite bool_decide_eq_true_2 in H by done. apply IH in H as (k & q & -> & ?). exists (S k), q. split; [lia|done].
Qed.

Lemma wait_scan_None me l i hk b :
  wait_scan me l i hk = (None, b) →
  (∀ j p, l !! j = Some p → p_parent p = Some me → p_state p ≠ ZOMBIE) ∧
  (b = false ↔ hk = false ∧ ∀ j p, l !! j = Some p → p_parent p ≠ Some me).
Proof.
  revert i hk. induction l as [|p l IH]; intros i hk H; cbn in H; [simplify_eq; naive_solver|].
  destruct (decide (p_parent p = Some me)) as [Ep|Ep].
  - rewrite bool_decide_eq_false_2 in H by (intros Hn; by apply Hn). case_bool_decide as Ez; [done|]. apply IH in H as [H1 H2]. split.
    + intros [|j] q Hq; [by simplify_eq/=|by apply (H1 j)].
    + split; [intros [??]%H2; done|]. intros [_ H]. by destruct (H 0%nat p).
  - rewrite bool_decide_eq_true_2 in H by done. apply IH in H as [H1 H2]. split.
    + intros [|j] q Hq; [by simplify_eq/=|by apply (H1 j)].
    + rewrite H2. split; intros [? H]; (split; [done|]).
      * intros [|j] q Hq; [by simplify_eq/=|by apply (H j)].
      * intros j q Hq. by apply (H (S j)).
Qed.

Lemma find_pid_Some pid l i j : find_pid pid l i = Some j → ∃ k p, j = (i + k)%nat ∧ l !! k = Some p ∧ p_pid p = pid.
Proof.
  revert i. induction l as [|p l IH]; intros i H; cbn in H; [done|]. destruct (Z.eqb_spec (p_pid p) pid).
  - simplify_eq. exists 0%nat, p. split; [lia|done].
  - apply IH in H as (k & q & -> & ?). exists (S k), q. split; [lia|done].
Qed.
End scan.

Section ops.
Context {S : Type}.
Context (kend : Z).
Implicit Types (s : kern S).

Lemma Blocked_liftK {A} (m : M kst A) s s' : liftK m s = Blocked s' → ptab_of s' = ptab_of (S := S) s.
Proof. unfold liftK, lift. destruct (m (kn_k s)); naive_solver. Qed.

(** [wait] reaps an exited child, finds no child, or sleeps on its own channel
    when no child has exited. *)
Lemma wait_Ok s r s' :
  wait kend s = Ok r s' →
  kn_nextpid s' = kn_nextpid s ∧ kn_initproc s' = kn_initproc s ∧ kn_cur s' = kn_cur s ∧
  (r = -1 ∧ kn_proc s' = kn_proc s ∨
   ∃ i p, kn_proc s !! i = Some p ∧ p_state p = ZOMBIE ∧ p_parent p = Some (kn_cur s) ∧ r = p_pid p ∧ kn_proc s' = <[i := reaped p]> (kn_proc s)).
Proof.
  intros H. unfold wait in H. inv_step H. destruct (wait_scan _ _ _ _) as [[i|] hk] eqn:E.
  - apply wait_scan_Some in E as (k & p & -> & Hk & Hz & Hp). cbn [Nat.add] in *. rewrite (list_lookup_total_correct _ _ _ Hk) in H.
    do 3 inv_step H. unfold mret, M_ret in H. simplify_eq. tab_cbn. split_and!; [congruence..|]. right. exists k, p. split_and!; [done..|].
    tab_back. by rewrite (alter_at _ _ _ _ Hk).
  - destruct (_ || _); [unfold mret, M_ret in H; simplify_eq; split_and!; [done..|by left]|]. apply bind_inv in H as ([] & s1 & _ & H). done.
Qed.

Lemma wait_Blocked s s' :
  wait kend s = Blocked s' →
  kn_nextpid s' = kn_nextpid s ∧ kn_initproc s' = kn_initproc s ∧ kn_cur s' = kn_cur s ∧
  (kn_proc s' = kn_proc s ∨
   kn_proc s' = alter (λ p, set_state SLEEPING (set_chan (ProcChan (kn_cur s)) p)) (kn_cur s) (kn_proc s) ∧
   ∀ j p, kn_proc s !! j = Some p → p_parent p = Some (kn_cur s) → p_state p ≠ ZOMBIE).
Proof.
  intros H. unfold wait in H. apply bind_Blocked_inv in H as [H|(a & s1 & H1 & H)]; [done|]. unfold getS in H1. simplify_eq.
  destruct (wait_scan _ _ _ _) as [[i|] hk] eqn:E.
  - assert (Ht : ptab_of s' = ptab_of s1); [|unfold ptab_of in Ht; simplify_eq; auto].
    apply bind_Blocked_inv in H as [H|([] & s2 & H1 & H)]; [by apply Blocked_liftK in H|]. apply keeps_liftK in H1. rewrite <-H1.
    apply bind_Blocked_inv in H as [H|([] & s3 & H2 & H)]; [by apply Blocked_liftK in H|]. done.
  - destruct (_ || _); [done|]. apply bind_Blocked_inv in H as [H|([] & s2 & H2 & H)]; [done|].
    unfold upd_cur, modify, sleeps in *. simplify_eq. cbn. split_and!; [done..|]. right. split; [done|]. by apply wait_scan_None in E as [? _].
Qed.

Lemma kill_Ok pid s r s' :
  kill pid s = Ok r s' →
  kn_nextpid s' = kn_nextpid s ∧ kn_initproc s' = kn_initproc s ∧ kn_cur s' = kn_cur s ∧
  (r = -1 ∧ kn_proc s' = kn_proc s ∨ ∃ i p, kn_proc s !! i = Some p ∧ p_pid p = pid ∧ r = 0 ∧ kn_proc s' = <[i := killed_proc p]> (kn_proc s)).
Proof.
  intros H. unfold kill in H. inv_step H. destruct (find_pid _ _ _) as [i|] eqn:E.
  - apply find_pid_Some in E as (k & p & -> & Hk & Hp). cbn [Nat.add] in *. inv_step H. unfold mret, M_ret in H. simplify_eq. cbn.
    split_and!; [done..|]. right. exists k, p. by rewrite (alter_at _ _ _ _ Hk).
  - unfold mret, M_ret in H. simplify_eq. split_and!; [done..|by left].
Qed.

Lemma inv_kill l next init i p : ptab_inv l next init → l !! i = Some p → ptab_inv (<[i := killed_proc p]> l) next init.
Proof.
  intros Hinv Hi. unfold killed_proc. destruct (decide (p_state p = SLEEPING)) as [Es|Es].
  - rewrite bool_decide_eq_true_2 by done. apply (inv_set _ _ _ _ p); [done|done|by left|right; by left|done|done|done].
  - rewrite bool_decide_eq_false_2 by done. by apply (inv_same_role _ _ _ _ p).
Qed.

Lemma schedule_Ok i s j s' :
  schedule i s = Ok (Some j) s' →
  kn_nextpid s' = kn_nextpid s ∧ kn_initproc s' = kn_initproc s ∧ kn_cur s' = j ∧
  ∃ p, kn_proc s !! j = Some p ∧ p_state p = RUNNABLE ∧ kn_proc s' = <[j := set_state RUNNING p]> (kn_proc s).
Proof.
  intros H. unfold schedule in H. inv_step H. destruct (find_state _ _ _) as [k|] eqn:E; [|done].
  apply find_state_Some in E as (m & p & -> & Hk & Hs). rewrite lookup_drop in Hk. inv_step H.
  apply bind_inv in H as ([] & s2 & H1 & H).
  assert (s2 = with_cur (i + m)%nat s) as ->.
  { unfold switchuvm in H1. apply bind_inv in H1 as (? & ? & H0 & H1). unfold gets in H0. simplify_eq.
    repeat (case_match; try done); unfold mret, M_ret in H1; by simplify_eq. }
  inv_step H. unfold mret, M_ret in H. simplify_eq. cbn. split_and!; [done..|]. exists p. by rewrite (alter_at _ _ _ _ Hk).
Qed.
End ops.

(** ** The processes as a transition system

    [kn_cur] is the process of the CPU that moves; [k_cpu] moves to another CPU. *)

Section system.
Context {S : Type} {ops : TxStore S} {txo : TxOps S}.
Context (kend data forkret trapret : Z).
Implicit Types (s : kern S).

Definition running s : Prop := ∃ p, kn_proc s !! kn_cur s = Some p ∧ p_state p = RUNNING.

Inductive kstep : kern S → kern S → Prop :=
| k_fork s r s' : running s → kn_nextpid s < 2 ^ 31 - 1 → fork kend data forkret trapret s = Ok r s' → kstep s s'
| k_exit s s' : running s → kn_cur s ≠ kn_initproc s → exit_locked s = Ok tt s' → kstep s s'
| k_wait s r s' : running s → wait kend s = Ok r s' → kstep s s'
| k_wait_sleep s s' : running s → wait kend s = Blocked s' → kstep s s'
| k_sleep s c s' : running s → (∀ i, c ≠ ProcChan i) → sleep (A := unit) c s = Blocked s' → kstep s s'
| k_wakeup s c s' : wakeup c s = Ok tt s' → kstep s s'
| k_yield s s' : running s → yield (A := unit) s = Blocked s' → kstep s s'
| k_kill s pid r s' : kill pid s = Ok r s' → kstep s s'
| k_schedule s i j s' : schedule i s = Ok (Some j) s' → kstep s s'
| k_own s f : (∀ p, same_role p (f p)) → kstep s (with_proc (alter f (kn_cur s) (kn_proc s)) s)
| k_cpu s j p : kn_proc s !! j = Some p → p_state p = RUNNING → kstep s (with_cur j s)
| k_other s s' : ptab_of s' = ptab_of s → kstep s s'.

Definition kinv s : Prop :=
  ptab_inv (kn_proc s) (kn_nextpid s) (kn_initproc s) ∧ length (kn_proc s) = NPROC ∧ 0 < kn_nextpid s < 2 ^ 31.

Lemma kinv_ptab s s' : ptab_of s' = ptab_of s → kinv s → kinv s'.
Proof. unfold ptab_of, kinv. intros [= -> -> -> _]. done. Qed.

Lemma kinv_tab s s' l :
  kinv s → kn_nextpid s' = kn_nextpid s → kn_initproc s' = kn_initproc s → kn_proc s' = l → length l = length (kn_proc s) →
  ptab_inv l (kn_nextpid s) (kn_initproc s) → kinv s'.
Proof. intros (_ & Hl & Hn) Hn' Hi' <- Hlen Hinv. unfold kinv. by rewrite Hn', Hi', Hlen. Qed.

Lemma kinv_fork s r s' :
  kinv s → running s → kn_nextpid s < 2 ^ 31 - 1 → fork kend data forkret trapret s = Ok r s' → kinv s'.
Proof.
  intros Hk (pc & Hpc & Hr) Hn H. pose proof Hk as (Hinv & Hl & Hx). apply fork_effect in H as (Hi & Hc & H).
  assert (Hs : s32 (kn_nextpid s + 1) = kn_nextpid s + 1) by (apply s32_small; lia).
  destruct H as [[_ [[H1 H2]|(i & p & p' & H1 & H2 & H3 & H4 & H5 & H6 & H7 & H8)]]|(i & p & p' & H1 & H2 & H3 & H4 & H5 & H6 & H7 & H8 & H9)].
  - apply (kinv_tab _ _ (kn_proc s) Hk); auto.
  - split_and!; rewrite ?H4, ?length_insert, ?H3, ?Hs; [|done|lia..]. rewrite Hi. eapply inv_took; [done|done|done|done|done|done|lia].
  - split_and!; rewrite ?H5, ?length_insert, ?H3, ?Hs; [|done|lia..]. rewrite Hi.
    eapply inv_fork; [done|done|done|done|done|done|done|right; by right|lia].
Qed.

Lemma kinv_sleep s c : kinv s → running s →
  (∀ k, c = ProcChan k → k = kn_cur s ∧ ∀ j q, kn_proc s !! j = Some q → p_parent q = Some (kn_cur s) → p_state q ≠ ZOMBIE) →
  ptab_inv (alter (λ p, set_state SLEEPING (set_chan c p)) (kn_cur s) (kn_proc s)) (kn_nextpid s) (kn_initproc s).
Proof.
  intros (Hinv & _) (p & Hp & Hr) Hc. rewrite (alter_at _ _ _ _ Hp).
  apply (inv_set _ _ _ _ p); [done|done|right; by right|by left|done|done|]. intros _ k Hk. by apply Hc.
Qed.

Lemma kinv_wait s r s' : kinv s → wait kend s = Ok r s' → kinv s'.
Proof.
  intros Hk H. pose proof Hk as (Hinv & _). apply wait_Ok in H as (Hn & Hi & _ & [[_ H]|(i & p & Hp & Hz & _ & _ & H)]).
  - by apply (kinv_tab _ _ _ Hk Hn Hi H).
  - apply (kinv_tab _ _ _ Hk Hn Hi H); [by rewrite length_insert|]. by apply inv_reap.
Qed.

Lemma kinv_wait_sleep s s' : kinv s → running s → wait kend s = Blocked s' → kinv s'.
Proof.
  intros Hk Hr H. pose proof Hk as (Hinv & _). apply wait_Blocked in H as (Hn & Hi & _ & [H|[H Hz]]).
  - by apply (kinv_tab _ _ _ Hk Hn Hi H).
  - apply (kinv_tab _ _ _ Hk Hn Hi H); [by rewrite length_alter|]. apply kinv_sleep; [done|done|]. by intros k [= <-].
Qed.

Lemma kinv_sched s i j s' : kinv s → schedule i s = Ok (Some j) s' → kinv s'.
Proof.
  intros Hk H. pose proof Hk as (Hinv & _). apply schedule_Ok in H as (Hn & Hi & _ & p & Hp & Hr & H).
  apply (kinv_tab _ _ _ Hk Hn Hi H); [by rewrite length_insert|]. apply (inv_set _ _ _ _ p); [done|done|right; by left|right; by right|done..].
Qed.

Lemma yield_Blocked s s' : yield (A := unit) s = Blocked s' → s' = with_proc (alter (set_state RUNNABLE) (kn_cur s) (kn_proc s)) s.
Proof.
  intros H. apply bind_Blocked_inv in H as [H|([] & s1 & H1 & H)]; [done|]. unfold upd_cur, modify in H1. simplify_eq.
  unfold sched in H. apply bind_Blocked_inv in H as [H|(p & s2 & H1 & H)]; [done|]. unfold myproc, gets in H1. simplify_eq.
  case_bool_decide; [done|]. unfold sleeps in H. by simplify_eq.
Qed.

Lemma kstep_inv s s' : kinv s → kstep s s' → kinv s'.
Proof.
  intros Hk H. pose proof Hk as (Hinv & Hl & Hx).
  destruct H as [s r s' Hr Hn H|s s' (p & Hp & Hr) Hc H|s r s' Hr H|s s' Hr H|s c s' Hr Hc H|s c s' H|s s' (p & Hp & Hr) H|s pid r s' H|s i j s' H|s f Hf|s j p Hp Hr|s s' H].
  - by eapply kinv_fork.
  - pose proof (exit_locked_ok s p Hinv Hl Hp Hr Hc) as Hw. unfold wp in Hw. rewrite H in Hw. destruct Hw as (? & ? & _ & _ & E & _).
    split_and!; [done|done|lia..].
  - by eapply kinv_wait.
  - by eapply kinv_wait_sleep.
  - unfold sleep in H. apply bind_Blocked_inv in H as [H|([] & s1 & H1 & H)]; [done|]. unfold upd_cur, modify, sleeps in *. simplify_eq.
    eapply (kinv_tab s); [done|done|done|done|cbn; by rewrite length_alter|]. apply kinv_sleep; [done|done|]. intros k ->. by destruct (Hc k).
  - unfold wakeup, wakeup1, modify in H. simplify_eq. eapply (kinv_tab s); [done|done|done|done|cbn; by rewrite length_fmap|]. by apply inv_wakeup.
  - apply yield_Blocked in H as ->. eapply (kinv_tab s); [done|done|done|done|cbn; by rewrite length_alter|].
    rewrite (alter_at _ _ _ _ Hp). apply (inv_set _ _ _ _ p); [done|done|right; by right|right; by left|done..].
  - apply kill_Ok in H as (Hn & Hi & _ & [[_ H]|(i & p & Hp & _ & _ & H)]); [by apply (kinv_tab _ _ _ Hk Hn Hi H)|].
    apply (kinv_tab _ _ _ Hk Hn Hi H); [by rewrite length_insert|]. by apply inv_kill.
  - by eapply kinv_sched.
  - eapply (kinv_tab s); [done|done|done|done|cbn; by rewrite length_alter|]. destruct (kn_proc s !! kn_cur s) as [p|] eqn:Hp.
    + rewrite (alter_at _ _ _ _ Hp). by eapply inv_same_role.
    + rewrite alter_oob; [done|]. by apply lookup_ge_None.
  - done.
  - by eapply kinv_ptab.
Qed.

Lemma ksteps_inv s s' : kinv s → rtc kstep s s' → kinv s'.
Proof. intros H Hr. induction Hr; [done|]. eauto using kstep_inv. Qed.

(** [userinit] establishes the invariant on a table of zeros. *)
Lemma keeps_store2 a v : keeps_tab (S := S) (store2 a v).
Proof. apply keeps_liftK. Qed.
#[local] Hint Resolve keeps_store2 : keeps.

Lemma inv_boot n p :
  p_state p = RUNNABLE → p_pid p = 1 → p_parent p = None → ptab_inv (p :: replicate n zero_proc) 2 0.
Proof.
  intros Hs Hp Hpar.
  assert (Hl : ∀ i q, (p :: replicate n zero_proc) !! i = Some q → i = 0%nat ∧ q = p ∨ i ≠ 0%nat ∧ q = zero_proc).
  { intros [|i] q H; [left; by simplify_eq/=|right]. cbn in H. by apply lookup_replicate in H as [-> _]. }
  split.
  - intros i q [[-> ->]|[_ ->]]%Hl; [rewrite Hp|cbn]; lia.
  - intros i j q r [[-> ->]|[_ ->]]%Hl [[-> ->]|[_ ->]]%Hl; rewrite ?Hp; cbn; done.
  - intros i q [[-> ->]|[_ ->]]%Hl; [rewrite Hs, Hp; done|done].
  - intros i q [[-> ->]|[_ ->]]%Hl; [done|done].
  - intros i q [[-> ->]|[_ ->]]%Hl; done.
  - exists p. split; [done|]. split; [right; by left|done].
  - intros i q k [[-> ->]|[_ ->]]%Hl; [congruence|done].
  - intros i q k r [[-> ->]|[_ ->]]%Hl; [congruence|done].
Qed.

Lemma userinit_kinv devread init s s' :
  kn_proc s = replicate NPROC zero_proc → kn_nextpid s = 1 → userinit kend data forkret trapret devread init s = Ok tt s' → kinv s'.
Proof.
  intros Hz Hn H. unfold userinit in H. apply bind_inv in H as (r & s1 & E & H). destruct r as [i|]; [|done].
  assert (i = 0%nat) as ->.
  { unfold allocproc in E. inv_step E. rewrite Hz in E. cbn [find_state replicate NPROC] in E. cbn [zero_proc p_state] in E.
    rewrite bool_decide_eq_true_2 in E by done. do 3 inv_step E. destruct (_ =? 0); [inv_step E; done|]. do 4 inv_step E. unfold mret, M_ret in E. by simplify_eq. }
  apply allocproc_effect in E as (Hi1 & Hc1 & p & p' & Hp & Hs & Hn1 & Ht1 & Hst & Hpid & Hpar & Hch).
  rewrite Hz in Hp, Ht1. cbn in Hp. injection Hp as <-. change NPROC with (1 + 63)%nat in Ht1. cbn in Ht1.
  do 2 inv_step H. destruct (_ =? 0); [done|]. do 14 inv_step H. unfold upd_proc, modify in H. simplify_eq. unfold kinv. tab_cbn.
  rewrite Hn, s32_small in Hn1 by lia.
  tab_back. rewrite ?Ht1, ?Hn1. cbn [alter list_alter replicate]. split_and!; [|done|lia..].
    apply (inv_boot 63); cbn; [done|congruence|by rewrite Hpar].
Qed.

Lemma processes_safe_ok s s' :
  kinv s → rtc kstep s s' →
  (∀ i j p q, kn_proc s' !! i = Some p → kn_proc s' !! j = Some q → p_state p ≠ UNUSED → p_pid p = p_pid q → i = j) ∧
  (∀ i p, kn_proc s' !! i = Some p → p_state p ≠ UNUSED → i ≠ kn_initproc s' →
     ∃ j q, p_parent p = Some j ∧ j ≠ i ∧ kn_proc s' !! j = Some q ∧ alive q) ∧
  (∀ i p j q, kn_proc s' !! i = Some p → p_state p = SLEEPING → p_chan p = ProcChan i →
     kn_proc s' !! j = Some q → p_parent q = Some i → p_state q ≠ ZOMBIE).
Proof.
  intros Hk Hr. destruct (ksteps_inv _ _ Hk Hr) as ([Hpid Huniq Hlive Hun Hpar Hinit Hch Hw] & _ & _). split_and!; [|done|done].
  intros i j p q Hi Hj Hs E. apply (Huniq i j p q Hi Hj E). destruct (Hlive i p Hi Hs). lia.
Qed.
End system.

Section theorems.
Context {S : Type} {ops : TxStore S} {txo : TxOps S}.
Context (kend data forkret trapret : Z).
Implicit Types (s : kern S).

(** C8. Over every sequence of fork, exit, wait, sleep, wakeup, kill, yield and scheduling in which
    fork is called only while the pid counter is below 2^31 - 1, so that it does not wrap
    around, pids of processes in use are distinct, every process but init has a parent that is
    alive, and a process that sleeps in wait has no exited child, so its wakeup was not lost. *)
Theorem processes_safe s s' :
  kinv s → rtc (kstep kend data forkret trapret) s s' →
  (∀ i j p q, kn_proc s' !! i = Some p → kn_proc s' !! j = Some q → p_state p ≠ UNUSED → p_pid p = p_pid q → i = j) ∧
  (∀ i p, kn_proc s' !! i = Some p → p_state p ≠ UNUSED → i ≠ kn_initproc s' →
     ∃ j q, p_parent p = Some j ∧ j ≠ i ∧ kn_proc s' !! j = Some q ∧ alive q) ∧
  (∀ i p j q, kn_proc s' !! i = Some p → p_state p = SLEEPING → p_chan p = ProcChan i →
     kn_proc s' !! j = Some q → p_parent q = Some i → p_state q ≠ ZOMBIE).
Proof. apply processes_safe_ok. Qed.

(** The locked part of [exit] completes and leaves a zombie without children, its parent awake. *)
Theorem exit_hands_over s p :
  kinv s → kn_proc s !! kn_cur s = Some p → p_state p = RUNNING → kn_cur s ≠ kn_initproc s →
  wp exit_locked (λ _ s',
    kinv s' ∧ kn_cur s' = kn_cur s ∧
    (∃ p', kn_proc s' !! kn_cur s = Some p' ∧ p_state p' = ZOMBIE ∧ p_parent p' = p_parent p) ∧
    (∀ i q, kn_proc s' !! i = Some q → p_parent q ≠ Some (kn_cur s)) ∧
    (∀ j q, p_parent p = Some j → kn_proc s' !! j = Some q → p_state q = SLEEPING → p_chan q ≠ ProcChan j)) s.
Proof.
  intros (Hinv & Hl & Hx) Hp Hr Hc. eapply wp_mono; [by apply exit_locked_ok|].
  intros [] s' (Hinv' & Hl' & Hcur & Hi & Hn & (p' & Hp' & Hz & Hpar) & Hno). split; [by rewrite <-Hn in Hx|]. split_and!; [done|eauto| |].
  - intros i q Hq. apply (Hno i q); [|done]. rewrite <-Hl'. by eapply lookup_lt_Some.
  - intros j q Hj Hq Hs Hch. apply (pi_wait _ _ _ Hinv' j q (kn_cur s) p'); [done|done|done|done|congruence|done].
Qed.
End theorems.
