(* ===== verification/Sysfile.v ===== *)
(** * System call arguments and the file system calls (src/syscall.c, src/sysfile.c) *)

From S2P Require Import Prelude Fcntl Dll Sleeplock Bio Memide FsLayout Log LogCrash LogProtocol Tx CString Fs Pipe Kalloc Vm PageTable Kernel File.

Section sysfile.
Context {S : Type} {ops : TxStore S} {txo : TxOps S}.
Context (kend : Z).
Context (devread : Z → option (nat → Z → M (fsst S) (Z * list byte))).
Context (devwrite : Z → option (nat → list byte → Z → M (fsst S) Z)).
Abbreviation K := (M (kern S)).
Abbreviation F := (M (fsst S)).

(** ** Arguments: [None] is the error return -1 *)

(** Fetch the int at addr from the current process. *)
Definition fetchint (addr : Z) : K (option Z) :=
  p ← myproc;
  if (p_sz p <=? addr) || (p_sz p <? u32 (addr + 4)) then mret None
  else bs ← uload addr 4; mret (Some (s32 (le_val bs))).

(** [for(s = *pp; s < ep; s++) if( *s == 0) return s - *pp], from [s] on *)
Fixpoint fetchstr_loop (s : Z) (acc : list byte) (n : nat) : K (option (list byte)) :=
  match n with
  | O => mret None
  | Datatypes.S n =>
      b ← uload1 s;
      if bool_decide (b = Byte.x00) then mret (Some acc) else fetchstr_loop (s + 1) (acc ++ [b]) n
  end.

(** Fetch the nul-terminated string at addr from the current process. *)
Definition fetchstr (addr : Z) : K (option (list byte)) :=
  p ← myproc;
  if p_sz p <=? addr then mret None
  else fetchstr_loop addr [] (Z.to_nat (p_sz p - addr)).

(** Fetch the nth 32-bit system call argument. *)
Definition argint (n : Z) : K (option Z) :=
  esp ← tf_get TF_ESP;
  fetchint (u32 (esp + 4 + 4 * n)).

(** Fetch the nth argument as a pointer to a block of memory of size bytes. *)
Definition argptr (n size : Z) : K (option Z) :=
  r ← argint n;
  match r with
  | None => mret None
  | Some i =>
      p ← myproc;
      if (size <? 0) || (p_sz p <=? u32 i) || (p_sz p <? u32 (u32 i + size)) then mret None else mret (Some (u32 i))
  end.

(** Fetch the nth argument as a string. *)
Definition argstr (n : Z) : K (option (list byte)) :=
  r ← argint n;
  match r with None => mret None | Some addr => fetchstr (u32 addr) end.

(** Fetch the nth argument as a file descriptor, with its file. *)
Definition argfd (n : Z) : K (option (nat * nat)) :=
  r ← argint n;
  match r with
  | None => mret None
  | Some fd =>
      p ← myproc;
      if (fd <? 0) || (Z.of_nat NOFILE <=? fd) then mret None
      else match p_ofile p !!! Z.to_nat fd with
           | None => mret None
           | Some f => mret (Some (Z.to_nat fd, f))
           end
  end.

(** Allocate a file descriptor for the given file. *)
Definition fdalloc (f : nat) : K (option nat) :=
  p ← myproc;
  match find_fd (p_ofile p) 0 with
  | None => mret None
  | Some fd => upd_cur (λ p, set_ofile (<[fd := Some f]> (p_ofile p)) p);; mret (Some fd)
  end.

(** The fields of [struct stat] at user address [p]. *)
Definition put_stat (p : Z) (st : stat) : K unit :=
  ustore p (le_bytes 2 (st_type st));;
  ustore (p + 4) (le_bytes 4 (st_dev st));;
  ustore (p + 8) (le_bytes 4 (st_ino st));;
  ustore (p + 12) (le_bytes 2 (st_nlink st));;
  ustore (p + 16) (le_bytes 4 (st_size st)).

(** ** Calls on open files *)

Definition sys_dup : K Z :=
  r ← argfd 0;
  match r with
  | None => mret (-1)
  | Some (_, f) =>
      fd ← fdalloc f;
      match fd with
      | None => mret (-1)
      | Some fd => filedup f;; mret (Z.of_nat fd)
      end
  end.

(** The arguments of [read] and [write]: file, pointer, count. *)
Definition rw_args : K (option (nat * Z * Z)) :=
  r ← argfd 0;
  match r with
  | None => mret None
  | Some (_, f) =>
      n ← argint 2;
      match n with
      | None => mret None
      | Some n =>
          p ← argptr 1 n;
          match p with None => mret None | Some p => mret (Some (f, p, n)) end
      end
  end.

Definition sys_read : K Z :=
  r ← rw_args;
  match r with None => mret (-1) | Some (f, p, n) => fileread devread f p n end.

Definition sys_write : K Z :=
  r ← rw_args;
  match r with None => mret (-1) | Some (f, p, n) => filewrite devwrite f p n end.

Definition sys_close : K Z :=
  r ← argfd 0;
  match r with
  | None => mret (-1)
  | Some (fd, f) =>
      upd_cur (λ p, set_ofile (<[fd := None]> (p_ofile p)) p);;
      fileclose kend f;;
      mret 0
  end.

Definition sys_fstat : K Z :=
  r ← argfd 0;
  match r with
  | None => mret (-1)
  | Some (_, f) =>
      p ← argptr 1 20;
      match p with
      | None => mret (-1)
      | Some p =>
          st ← filestat f;
          match st with None => mret (-1) | Some st => put_stat p st;; mret 0 end
      end
  end.

(** ** Links *)

Definition dot : list byte := bytes_of ".".
Definition dotdot : list byte := bytes_of "..".
Definition name_buf : list byte := replicate DIRSIZ Byte.x00.

(** [ip->nlink += d; iupdate(ip)] *)
Definition add_nlink (ip : nat) (d : Z) : F unit :=
  upd_inode ip (λ x, set_imeta (i_major x) (i_minor x) (s16 (i_nlink x + d)) x);; iupdate ip.

(** The bad path of [sys_link]. *)
Definition link_bad (ip : nat) : K Z :=
  liftF (ilock ip);;
  liftF (add_nlink ip (-1));;
  liftF (iunlockput ip);;
  end_fs;;
  mret (-1).

(** Create the path new as a link to the same inode as old. *)
Definition sys_link : K Z :=
  old ← argstr 0;
  match old with
  | None => mret (-1)
  | Some old =>
  new ← argstr 1;
  match new with
  | None => mret (-1)
  | Some new =>
      begin_fs;;
      r ← liftF (namei devread old);
      match r with
      | None => end_fs;; mret (-1)
      | Some ip =>
          liftF (ilock ip);;
          x ← liftF (get_inode ip);
          if i_type x =? T_DIR then liftF (iunlockput ip);; end_fs;; mret (-1)
          else
            liftF (add_nlink ip 1);;
            liftF (iunlock ip);;
            '(dp, name) ← liftF (nameiparent devread new name_buf);
            match dp with
            | None => link_bad ip
            | Some dp =>
                liftF (ilock dp);;
                d ← liftF (get_inode dp);
                x ← liftF (get_inode ip);
                if negb (i_dev d =? i_dev x) then liftF (iunlockput dp);; link_bad ip
                else
                  r ← liftF (dirlink devread devwrite dp (chars name) (i_inum x));
                  if r <? 0 then liftF (iunlockput dp);; link_bad ip
                  else
                    liftF (iunlockput dp);;
                    liftF (iput ip);;
                    end_fs;;
                    mret 0
            end
      end
  end
  end.

(** Is the directory dp empty except for "." and ".." ? *)
Fixpoint isdirempty_loop (dp : nat) (off : Z) (fuel : nat) : F bool :=
  match fuel with
  | O => mret true
  | Datatypes.S fuel =>
      x ← get_inode dp;
      if off <? i_size x then
        '(r, de) ← readi devread dp off DIRENT_SIZE;
        if negb (r =? DIRENT_SIZE) then panic "isdirempty: readi"
        else if negb (de_inum de =? 0) then mret false
        else isdirempty_loop dp (off + DIRENT_SIZE) fuel
      else mret true
  end.
Definition isdirempty (dp : nat) : F bool :=
  x ← get_inode dp;
  isdirempty_loop dp (2 * DIRENT_SIZE) (dir_fuel (i_size x)).

(** The bad path of [sys_unlink]. *)
Definition unlink_bad (dp : nat) : K Z := liftF (iunlockput dp);; end_fs;; mret (-1).

Definition sys_unlink : K Z :=
  path ← argstr 0;
  match path with
  | None => mret (-1)
  | Some path =>
      begin_fs;;
      '(dp, name) ← liftF (nameiparent devread path name_buf);
      match dp with
      | None => end_fs;; mret (-1)
      | Some dp =>
          liftF (ilock dp);;
          if (namecmp (chars name) (chars dot) =? 0) || (namecmp (chars name) (chars dotdot) =? 0) then unlink_bad dp
          else
            r ← liftF (dirlookup devread dp (chars name));
            match r with
            | None => unlink_bad dp
            | Some (ip, off) =>
                liftF (ilock ip);;
                x ← liftF (get_inode ip);
                if i_nlink x <? 1 then panic "unlink: nlink < 1"
                else
                  empty ← (if i_type x =? T_DIR then liftF (isdirempty ip) else mret true);
                  if negb empty then liftF (iunlockput ip);; unlink_bad dp
                  else
                    r ← liftF (writei devwrite dp (replicate 16 Byte.x00) off DIRENT_SIZE);
                    if negb (r =? DIRENT_SIZE) then panic "unlink: writei"
                    else
                      (if i_type x =? T_DIR then liftF (add_nlink dp (-1)) else mret tt);;
                      liftF (iunlockput dp);;
                      liftF (add_nlink ip (-1));;
                      liftF (iunlockput ip);;
                      end_fs;;
                      mret 0
            end
      end
  end.

(** ** Creating and opening *)

Definition create (path : list byte) (type major minor : Z) : F (option nat) :=
  '(dp, name) ← nameiparent devread path name_buf;
  match dp with
  | None => mret None
  | Some dp =>
      ilock dp;;
      r ← dirlookup devread dp (chars name);
      match r with
      | Some (ip, _) =>
          iunlockput dp;;
          ilock ip;;
          x ← get_inode ip;
          if (type =? T_FILE) && (i_type x =? T_FILE) then mret (Some ip)
          else iunlockput ip;; mret None
      | None =>
          d ← get_inode dp;
          ip ← ialloc (i_dev d) type;
          ilock ip;;
          upd_inode ip (set_imeta (s16 major) (s16 minor) 1);;
          iupdate ip;;
          (if type =? T_DIR then
             add_nlink dp 1;;
             x ← get_inode ip;
             r ← dirlink devread devwrite ip (chars dot) (i_inum x);
             if r <? 0 then panic "create dots"
             else
               d ← get_inode dp;
               r ← dirlink devread devwrite ip (chars dotdot) (i_inum d);
               if r <? 0 then panic "create dots" else mret tt
           else mret tt);;
          x ← get_inode ip;
          r ← dirlink devread devwrite dp (chars name) (i_inum x);
          if r <? 0 then panic "create: dirlink"
          else iunlockput dp;; mret (Some ip)
      end
  end.

(** The inode to open, locked, inside the transaction. *)
Definition open_inode (path : list byte) (omode : Z) : F (option nat) :=
  if negb (Z.land omode O_CREATE =? 0) then create path T_FILE 0 0
  else
    r ← namei devread path;
    match r with
    | None => mret None
    | Some ip =>
        ilock ip;;
        x ← get_inode ip;
        if (i_type x =? T_DIR) && negb (omode =? O_RDONLY) then iunlockput ip;; mret None
        else mret (Some ip)
    end.

Definition sys_open : K Z :=
  path ← argstr 0;
  match path with
  | None => mret (-1)
  | Some path =>
  omode ← argint 1;
  match omode with
  | None => mret (-1)
  | Some omode =>
      begin_fs;;
      r ← liftF (open_inode path omode);
      match r with
      | None => end_fs;; mret (-1)
      | Some ip =>
          f ← filealloc;
          match f with
          | None => liftF (iunlockput ip);; end_fs;; mret (-1)
          | Some f =>
              fd ← fdalloc f;
              match fd with
              | None => fileclose kend f;; liftF (iunlockput ip);; end_fs;; mret (-1)
              | Some fd =>
                  liftF (iunlock ip);;
                  end_fs;;
                  upd_file f (λ x, mkFile FD_INODE (f_ref x) (Z.land omode O_WRONLY =? 0)
                    (negb (Z.land omode O_WRONLY =? 0) || negb (Z.land omode O_RDWR =? 0)) (f_pipe x) ip 0);;
                  mret (Z.of_nat fd)
              end
          end
      end
  end
  end.

(** Create inside a transaction, and release the inode. *)
Definition create_and_put (path : list byte) (type major minor : Z) : K Z :=
  r ← liftF (create path type major minor);
  match r with
  | None => end_fs;; mret (-1)
  | Some ip => liftF (iunlockput ip);; end_fs;; mret 0
  end.

Definition sys_mkdir : K Z :=
  begin_fs;;
  path ← argstr 0;
  match path with
  | None => end_fs;; mret (-1)
  | Some path => create_and_put path T_DIR 0 0
  end.

Definition sys_mknod : K Z :=
  begin_fs;;
  path ← argstr 0;
  match path with
  | None => end_fs;; mret (-1)
  | Some path =>
      major ← argint 1;
      match major with
      | None => end_fs;; mret (-1)
      | Some major =>
          minor ← argint 2;
          match minor with
          | None => end_fs;; mret (-1)
          | Some minor => create_and_put path T_DEV major minor
          end
      end
  end.

Definition sys_chdir : K Z :=
  begin_fs;;
  path ← argstr 0;
  match path with
  | None => end_fs;; mret (-1)
  | Some path =>
      r ← liftF (namei devread path);
      match r with
      | None => end_fs;; mret (-1)
      | Some ip =>
          liftF (ilock ip);;
          x ← liftF (get_inode ip);
          if negb (i_type x =? T_DIR) then liftF (iunlockput ip);; end_fs;; mret (-1)
          else
            liftF (iunlock ip);;
            p ← myproc;
            liftF (iput (p_cwd p));;
            end_fs;;
            upd_cur (set_cwd ip);;
            mret 0
      end
  end.

Definition sys_pipe : K Z :=
  fdp ← argptr 0 8;
  match fdp with
  | None => mret (-1)
  | Some fdp =>
      r ← pipealloc kend;
      match r with
      | None => mret (-1)
      | Some (rf, wf) =>
          fd0 ← fdalloc rf;
          match fd0 with
          | None => fileclose kend rf;; fileclose kend wf;; mret (-1)
          | Some fd0 =>
              fd1 ← fdalloc wf;
              match fd1 with
              | None =>
                  upd_cur (λ p, set_ofile (<[fd0 := None]> (p_ofile p)) p);;
                  fileclose kend rf;;
                  fileclose kend wf;;
                  mret (-1)
              | Some fd1 =>
                  ustore fdp (le_bytes 4 (Z.of_nat fd0));;
                  ustore (fdp + 4) (le_bytes 4 (Z.of_nat fd1));;
                  mret 0
              end
          end
      end
  end.
End sysfile.
