(* ===== verification/Syscall.v ===== *)
(** * exec and the system call table (src/exec.c, src/sysproc.c, src/syscall.c) *)

From S2P Require Import Prelude Fcntl Dll Sleeplock Bio Memide FsLayout Log LogCrash LogProtocol Tx CString Fs Pipe Kalloc Vm PageTable Kernel File Proc Sysfile.

Definition ELF_MAGIC : Z := 1179403647.  (* 0x464C457F *)
Definition ELF_PROG_LOAD : Z := 1.

(** [struct elfhdr] and [struct proghdr], at their offsets *)
Record elfhdr : Type := mkElfhdr { elf_magic : Z; elf_entry : Z; elf_phoff : Z; elf_phnum : Z }.
Definition ELF_SIZE : Z := 52.
Definition elf_of (b : list byte) : elfhdr := mkElfhdr (ld 4 0 b) (ld 4 24 b) (ld 4 28 b) (ld 2 44 b).

Record proghdr : Type := mkProghdr { ph_type : Z; ph_off : Z; ph_vaddr : Z; ph_filesz : Z; ph_memsz : Z }.
Definition PH_SIZE : Z := 32.
Definition ph_of (b : list byte) : proghdr := mkProghdr (ld 4 0 b) (ld 4 4 b) (ld 4 8 b) (ld 4 16 b) (ld 4 20 b).

(** [for(last=s=path; *s; s++) if( *s == '/') last = s+1] *)
Fixpoint last_elem (s last : list byte) : list byte :=
  match s with
  | [] => last
  | c :: s => last_elem s (if decide (c = slash) then s else last)
  end.

Section exec.
Context {S : Type} {ops : TxStore S} {txo : TxOps S}.
Context (kend data forkret trapret : Z).
Context (devread : Z → option (nat → Z → M (fsst S) (Z * list byte))).
Context (devwrite : Z → option (nat → list byte → Z → M (fsst S) Z)).
Abbreviation K := (M (kern S)).

(** Load a program segment into pgdir ([loaduvm] of src/vm.c). *)
Fixpoint loaduvm_loop (pgdir addr : Z) (ip : nat) (offset sz i : Z) (fuel : nat) : K Z :=
  match fuel with
  | O => sleeps
  | Datatypes.S fuel =>
      if i <? sz then
        pte ← liftK (walkpgdir pgdir (u32 (addr + i)) false);
        if pte =? 0 then panic "loaduvm: address should exist"
        else
          e ← liftK (load pte);
          let n := if sz - i <? PGSIZE then sz - i else PGSIZE in
          '(r, bs) ← liftF (readi devread ip (u32 (offset + i)) n);
          liftK (copy_in (P2V (PTE_ADDR e)) bs);;
          if negb (r =? n) then mret (-1)
          else loaduvm_loop pgdir addr ip offset sz (u32 (i + PGSIZE)) fuel
      else mret 0
  end.

Definition loaduvm (pgdir addr : Z) (ip : nat) (offset sz : Z) : K Z :=
  if negb (addr mod PGSIZE =? 0) then panic "loaduvm: addr must be page aligned"
  else loaduvm_loop pgdir addr ip offset sz 0 (Z.to_nat (sz / PGSIZE + 2)).

(** The bad path of [exec]. *)
Definition exec_bad (pgdir : Z) (ip : option nat) : K Z :=
  (if pgdir =? 0 then mret tt else liftK (freevm kend pgdir));;
  match ip with
  | Some ip => liftF (iunlockput ip);; end_fs;; mret (-1)
  | None => mret (-1)
  end.

(** Load the segments from header [i] on: the size of the image, [None] on failure. *)
Fixpoint exec_load (pgdir : Z) (ip : nat) (off sz : Z) (n : nat) : K (option Z) :=
  match n with
  | O => mret (Some sz)
  | Datatypes.S n =>
      '(r, b) ← liftF (readi devread ip (u32 off) PH_SIZE);
      if negb (r =? PH_SIZE) then mret None
      else
        let ph := ph_of b in
        let off := off + PH_SIZE in
        if negb (ph_type ph =? ELF_PROG_LOAD) then exec_load pgdir ip off sz n
        else if ph_memsz ph <? ph_filesz ph then mret None
        else if u32 (ph_vaddr ph + ph_memsz ph) <? ph_vaddr ph then mret None
        else
          sz ← liftK (allocuvm kend pgdir sz (u32 (ph_vaddr ph + ph_memsz ph)));
          if sz =? 0 then mret None
          else if negb (ph_vaddr ph mod PGSIZE =? 0) then mret None
          else
            r ← loaduvm pgdir (ph_vaddr ph) ip (ph_off ph) (ph_filesz ph);
            if r <? 0 then mret None else exec_load pgdir ip off sz n
  end.

(** Push argument strings: the stack pointer and the addresses of the strings. *)
Fixpoint exec_args (pgdir : Z) (argv : list (list byte)) (sp : Z) (ptrs : list Z) : K (option (Z * list Z)) :=
  match argv with
  | [] => mret (Some (sp, ptrs))
  | a :: argv =>
      if (MAXARG <=? length ptrs)%nat then mret None
      else
        let len := Z.of_nat (length a) + 1 in
        let sp := Z.land (u32 (sp - len)) (Z.lnot 3) in
        r ← liftK (copyout pgdir sp (a ++ [Byte.x00]) len);
        if r <? 0 then mret None else exec_args pgdir argv sp (ptrs ++ [sp])
  end.

(** The words below the strings: fake return PC, argc, argv pointer, argv, 0. *)
Definition ustack (sp : Z) (ptrs : list Z) : list Z :=
  let argc := Z.of_nat (length ptrs) in
  [4294967295; argc; u32 (sp - (argc + 1) * 4)] ++ ptrs ++ [0].

(** Build the user stack: the final stack pointer. *)
Definition exec_stack (pgdir : Z) (argv : list (list byte)) (sz : Z) : K (option Z) :=
  liftK (clearpteu pgdir (u32 (sz - 2 * PGSIZE)));;
  r ← exec_args pgdir argv sz [];
  match r with
  | None => mret None
  | Some (sp, ptrs) =>
      let n := (3 + Z.of_nat (length ptrs) + 1) * 4 in
      let sp' := u32 (sp - n) in
      r ← liftK (copyout pgdir sp' (ustack sp ptrs ≫= le_bytes 4) n);
      if r <? 0 then mret None else mret (Some sp')
  end.

Definition exec (path : list byte) (argv : list (list byte)) : K Z :=
  begin_fs;;
  r ← liftF (namei devread path);
  match r with
  | None => end_fs;; mret (-1)
  | Some ip =>
      liftF (ilock ip);;
      '(r, b) ← liftF (readi devread ip 0 ELF_SIZE);
      if negb (r =? ELF_SIZE) then exec_bad 0 (Some ip)
      else
        let elf := elf_of b in
        if negb (elf_magic elf =? ELF_MAGIC) then exec_bad 0 (Some ip)
        else
          pgdir ← liftK (setupkvm kend data);
          if pgdir =? 0 then exec_bad 0 (Some ip)
          else
            r ← exec_load pgdir ip (elf_phoff elf) 0 (Z.to_nat (elf_phnum elf));
            match r with
            | None => exec_bad pgdir (Some ip)
            | Some sz =>
                liftF (iunlockput ip);;
                end_fs;;
                let sz := PGROUNDUP sz in
                sz ← liftK (allocuvm kend pgdir sz (u32 (sz + 2 * PGSIZE)));
                if sz =? 0 then exec_bad pgdir None
                else
                  r ← exec_stack pgdir argv sz;
                  match r with
                  | None => exec_bad pgdir None
                  | Some sp =>
                      upd_cur (λ p, set_name (name16 (last_elem path path) (p_name p)) p);;
                      s ← getS;
                      let oldpgdir := p_pgdir (cur_proc s) in
                      upd_cur (set_space sz pgdir);;
                      tf_set TF_EIP (elf_entry elf);;
                      tf_set TF_ESP sp;;
                      switchuvm (kn_cur s);;
                      liftK (freevm kend oldpgdir);;
                      mret 0
                  end
            end
  end.

(** ** Process calls *)

(** The argument vector of [exec]: up to a null pointer, [MAXARG] words at most. *)
Fixpoint fetch_argv (uargv i : Z) (acc : list (list byte)) (n : nat) : K (option (list (list byte))) :=
  match n with
  | O => mret None
  | Datatypes.S n =>
      uarg ← fetchint (u32 (uargv + 4 * i));
      match uarg with
      | None => mret None
      | Some uarg =>
          if uarg =? 0 then mret (Some acc)
          else
            a ← fetchstr (u32 uarg);
            match a with
            | None => mret None
            | Some a => fetch_argv uargv (i + 1) (acc ++ [a]) n
            end
      end
  end.

Definition sys_exec : K Z :=
  path ← argstr 0;
  match path with
  | None => mret (-1)
  | Some path =>
      uargv ← argint 1;
      match uargv with
      | None => mret (-1)
      | Some uargv =>
          argv ← fetch_argv (u32 uargv) 0 [] MAXARG;
          match argv with None => mret (-1) | Some argv => exec path argv end
      end
  end.

Definition sys_fork : K Z := fork kend data forkret trapret.
Definition sys_exit : K Z := exit kend.
Definition sys_wait : K Z := wait kend.

Definition sys_kill : K Z :=
  pid ← argint 0;
  match pid with None => mret (-1) | Some pid => kill pid end.

Definition sys_getpid : K Z := p ← myproc; mret (p_pid p).

Definition sys_sbrk : K Z :=
  n ← argint 0;
  match n with
  | None => mret (-1)
  | Some n =>
      p ← myproc;
      r ← growproc kend n;
      if r <? 0 then mret (-1) else mret (s32 (p_sz p))
  end.

(** The loop of [sys_sleep]: the comparison is unsigned. *)
Definition sleep_until (ticks0 n : Z) : K Z :=
  s ← getS;
  if u32 (kn_ticks s - ticks0) <? u32 n then
    if p_killed (cur_proc s) then mret (-1) else sleep TicksChan
  else mret 0.

Definition sys_sleep : K Z :=
  n ← argint 0;
  match n with
  | None => mret (-1)
  | Some n => s ← getS; sleep_until (kn_ticks s) n
  end.

Definition sys_uptime : K Z := s ← getS; mret (s32 (kn_ticks s)).

(** ** The table *)

Definition syscalls (num : Z) : option (K Z) :=
  match num with
  | 1 => Some sys_fork
  | 2 => Some sys_exit
  | 3 => Some sys_wait
  | 4 => Some (sys_pipe kend)
  | 5 => Some (sys_read devread)
  | 6 => Some sys_kill
  | 7 => Some sys_exec
  | 8 => Some sys_fstat
  | 9 => Some (sys_chdir devread)
  | 10 => Some sys_dup
  | 11 => Some sys_getpid
  | 12 => Some sys_sbrk
  | 13 => Some sys_sleep
  | 14 => Some sys_uptime
  | 15 => Some (sys_open kend devread devwrite)
  | 16 => Some (sys_write devwrite)
  | 17 => Some (sys_mknod devread devwrite)
  | 18 => Some (sys_unlink devread devwrite)
  | 19 => Some (sys_link devread devwrite)
  | 20 => Some (sys_mkdir devread devwrite)
  | 21 => Some (sys_close kend)
  | _ => None
  end.

Definition syscall : K unit :=
  num ← tf_get TF_EAX;
  match syscalls (s32 num) with
  | Some f => r ← f; tf_set TF_EAX r
  | None => tf_set TF_EAX (-1)
  end.

(** One tick of the clock: the timer interrupt on CPU 0 (src/trap.c). *)
Definition timer_tick : K unit :=
  modify (λ s, with_ticks (u32 (kn_ticks s + 1)) s);; wakeup TicksChan.

(** The system call branch of [trap] (src/trap.c). *)
Definition trap_syscall (tf : Z) : K unit :=
  p ← myproc;
  if p_killed p then exit kend
  else
    upd_cur (λ p, set_stack (p_kstack p) tf (p_context p) p);;
    syscall;;
    p ← myproc;
    if p_killed p then exit kend else mret tt.
End exec.
