(* ===== verification/Panics.v ===== *)
(** * The panics of the layers below the file table

    [filedup], [fileclose], [fileread] and [filewrite] panic on a file structure
    that is not in use.  No operation of the file system, the log, the buffer
    cache, the page tables or the page allocator has one of these messages, so a
    panic with such a message comes from the file table itself. *)

From S2P Require Import Prelude Fcntl Dll Sleeplock Bio Memide FsLayout Log LogCrash LogProtocol Tx CString Fs Pipe Kalloc Vm PageTable Kernel File Sysfile.

Definition file_panic (msg : string) : bool :=
  existsb (String.eqb msg) ["filedup"; "fileclose"; "fileread"; "filewrite"].

(** [m] has no panic of the file table. *)
Definition quiet {T A} (m : M T A) : Prop := ∀ s, match m s with Panic msg => file_panic msg = false | _ => True end.

Section quiet.
Context {T : Type}.

Lemma quiet_bind {A B} (m : M T A) (k : A → M T B) : quiet m → (∀ a, quiet (k a)) → quiet (m ≫= k).
Proof. intros Hm Hk s. unfold mbind, M_bind. specialize (Hm s). destruct (m s) as [a s'| |msg]; [apply Hk|done..]. Qed.

Lemma quiet_panic {A} msg : file_panic msg = false → quiet (panic (S := T) (A := A) msg).
Proof. by intros H s. Qed.

Lemma quiet_mfor from n (f : nat → M T unit) : (∀ i, quiet (f i)) → quiet (mfor from n f).
Proof. revert from. induction n as [|n IH]; intros from Hf; cbn; [done|]. apply quiet_bind; [done|]. intros. by apply IH. Qed.

Lemma quiet_liftB {A} (m : M (bio T) A) : quiet m → quiet (liftB m).
Proof. intros Hm s. unfold liftB. specialize (Hm (ls_bio s)). by destruct (m (ls_bio s)). Qed.

Lemma quiet_liftS {A} (m : M T A) : quiet m → quiet (liftS m).
Proof. intros Hm s. unfold liftS. specialize (Hm (fs_st s)). by destruct (m (fs_st s)). Qed.

Lemma quiet_liftF {A} (m : M (fsst T) A) : quiet m → quiet (liftF m).
Proof. intros Hm s. unfold liftF, lift. specialize (Hm (cur_fs s)). by destruct (m (cur_fs s)). Qed.

Lemma quiet_liftK {A} (m : M kst A) : quiet m → quiet (liftK (S := T) m).
Proof. intros Hm s. unfold liftK, lift. specialize (Hm (kn_k s)). by destruct (m (kn_k s)). Qed.
End quiet.

Create HintDb quiet.

Ltac head_of t := match t with ?f _ => head_of f | _ => t end.

(** Walk through the body of an operation, unfolding the calls in it. *)
Ltac quiet_step :=
  match goal with
  | |- quiet (mbind _ _) => apply quiet_bind
  | |- quiet (mret _) => intros ?; exact I
  | |- quiet (panic _) => apply quiet_panic; reflexivity
  | |- quiet (match ?x with _ => _ end) => destruct x eqn:?
  | |- ∀ _, _ => intros ?
  | _ => progress cbv beta zeta
  | _ => solve [eauto with quiet]
  | |- quiet (getS) => intros ?; exact I
  | |- quiet (gets _) => intros ?; exact I
  | |- quiet (modify _) => intros ?; exact I
  | |- quiet (putS _) => intros ?; exact I
  | |- quiet sleeps => intros ?; exact I
  | |- quiet (mfor _ _ _) => apply quiet_mfor
  | |- quiet (liftB _) => apply quiet_liftB
  | |- quiet (liftS _) => apply quiet_liftS
  | |- quiet (liftF _) => apply quiet_liftF
  | |- quiet (liftK _) => apply quiet_liftK
  | |- quiet ?m => let h := head_of m in unfold h
  end.
Ltac quiet := repeat quiet_step.

(** ** The log and the buffer cache *)

(** What the file system calls, without a panic of the file table. *)
Class TxQuiet (S : Type) {ops : TxStore S} {txo : TxOps S} := {
  q_bread dev b : quiet (tx_bread dev b);
  q_put b d : quiet (tx_put b d);
  q_log_write b : quiet (tx_log_write b);
  q_brelse b : quiet (tx_brelse b);
  q_begin : quiet tx_begin;
  q_end : quiet tx_end;
}.
#[export] Hint Resolve q_bread q_put q_log_write q_brelse q_begin q_end : quiet.

Section log.
Context {D : Type} `{DiskDriver D}.
Context (Hdisk : ∀ pid b, quiet (iderw pid b)).

Lemma quiet_sync b : quiet (sync_buf (D := D) b).
Proof. intros s. unfold sync_buf. specialize (Hdisk (bc_pid s) (bc_buf s !!! b) (bc_disk s)). by destruct (iderw _ _ _). Qed.

#[local] Hint Resolve quiet_sync : quiet.

Lemma log_quiet : TxQuiet (logst D).
Proof. split; cbn [tx_bread tx_put tx_log_write tx_brelse log_tx_store tx_begin tx_end log_tx_ops]; quiet. Qed.
End log.

(** ** The memory disk *)

Lemma memide_quiet pid b : quiet (iderw (D := memdisk) pid b).
Proof. quiet. Qed.

(** ** The file system *)

Section fs.
Context {S : Type} {ops : TxStore S} {txo : TxOps S} {q : TxQuiet S}.
Context (devread : Z → option (nat → Z → M (fsst S) (Z * list byte))).
Context (devwrite : Z → option (nat → list byte → Z → M (fsst S) Z)).
Context (Hread : ∀ i f, devread i = Some f → ∀ ip n, quiet (f ip n)).
Context (Hwrite : ∀ i f, devwrite i = Some f → ∀ ip bs n, quiet (f ip bs n)).

Lemma quiet_balloc dev b fuel : quiet (balloc_from dev b fuel).
Proof. revert b. induction fuel; intros b; cbn [balloc_from]; quiet. Qed.
#[local] Hint Resolve quiet_balloc : quiet.

Lemma quiet_ialloc dev type inum fuel : quiet (ialloc_from dev type inum fuel).
Proof. revert inum. induction fuel; intros inum; cbn [ialloc_from]; quiet. Qed.
#[local] Hint Resolve quiet_ialloc : quiet.

Lemma quiet_readi_loop ip off tot n acc fuel : quiet (readi_loop ip off tot n acc fuel).
Proof. revert off tot acc. induction fuel; intros; cbn [readi_loop]; quiet. Qed.
#[local] Hint Resolve quiet_readi_loop : quiet.

Lemma quiet_writei_loop ip src off tot n fuel : quiet (writei_loop ip src off tot n fuel).
Proof. revert src off tot. induction fuel; intros; cbn [writei_loop]; quiet. Qed.
#[local] Hint Resolve quiet_writei_loop : quiet.

Lemma quiet_readi ip off n : quiet (readi devread ip off n).
Proof. unfold readi. quiet. Qed.
Lemma quiet_writei ip src off n : quiet (writei devwrite ip src off n).
Proof. unfold writei. quiet. Qed.
#[local] Hint Resolve quiet_readi quiet_writei : quiet.

Lemma quiet_iput ip : quiet (iput ip).
Proof. unfold iput. quiet. Qed.
#[local] Hint Resolve quiet_iput : quiet.

Lemma quiet_dirlookup_from dp name off fuel : quiet (dirlookup_from devread dp name off fuel).
Proof. revert off. induction fuel; intros; cbn [dirlookup_from]; quiet. Qed.
#[local] Hint Resolve quiet_dirlookup_from : quiet.

Lemma quiet_dirlink_slot dp off fuel : quiet (dirlink_slot devread dp off fuel).
Proof. revert off. induction fuel; intros; cbn [dirlink_slot]; quiet. Qed.
#[local] Hint Resolve quiet_dirlink_slot : quiet.

Lemma quiet_dirlink dp name inum : quiet (dirlink devread devwrite dp name inum).
Proof. unfold dirlink. quiet. Qed.
#[local] Hint Resolve quiet_dirlink : quiet.

Lemma quiet_namex_loop ip path parent name fuel : quiet (namex_loop devread ip path parent name fuel).
Proof. revert ip path name. induction fuel; intros; cbn [namex_loop]; quiet. Qed.
#[local] Hint Resolve quiet_namex_loop : quiet.

Lemma quiet_namei path : quiet (namei devread path).
Proof. unfold namei. quiet. Qed.

Lemma quiet_isdirempty_loop dp off fuel : quiet (isdirempty_loop devread dp off fuel).
Proof. revert off. induction fuel; intros; cbn [isdirempty_loop]; quiet. Qed.
#[local] Hint Resolve quiet_isdirempty_loop : quiet.

Lemma quiet_isdirempty dp : quiet (isdirempty devread dp).
Proof. unfold isdirempty. quiet. Qed.

Lemma quiet_create path type major minor : quiet (create devread devwrite path type major minor).
Proof. unfold create. quiet. Qed.
#[local] Hint Resolve quiet_create quiet_namei : quiet.

Lemma quiet_open_inode path omode : quiet (open_inode devread devwrite path omode).
Proof. unfold open_inode. quiet. Qed.
End fs.
#[export] Hint Resolve quiet_readi quiet_writei quiet_iput quiet_dirlink quiet_namex_loop quiet_namei quiet_isdirempty quiet_dirlookup_from
  quiet_create quiet_open_inode : quiet.

(** ** Memory *)

Section memory.
Context (kend data : Z).

Lemma quiet_mappages pgdir a last pa perm fuel : quiet (mappages_loop pgdir a last pa perm fuel).
Proof. revert a pa. induction fuel; intros; cbn [mappages_loop]; quiet. Qed.
#[local] Hint Resolve quiet_mappages : quiet.

Lemma quiet_deallocuvm_loop pgdir a oldsz fuel : quiet (deallocuvm_loop kend pgdir a oldsz fuel).
Proof. revert a. induction fuel; intros; cbn [deallocuvm_loop]; quiet. Qed.
#[local] Hint Resolve quiet_deallocuvm_loop : quiet.

Lemma quiet_freevm_tables pgdir i n : quiet (freevm_tables kend pgdir i n).
Proof. revert i. induction n; intros; cbn [freevm_tables]; quiet. Qed.
#[local] Hint Resolve quiet_freevm_tables : quiet.

Lemma quiet_freevm pgdir : quiet (freevm kend pgdir).
Proof. unfold freevm. quiet. Qed.
#[local] Hint Resolve quiet_freevm : quiet.

Lemma quiet_setupkvm_loop pgdir ks : quiet (setupkvm_loop kend pgdir ks).
Proof. induction ks; intros; cbn [setupkvm_loop]; quiet. Qed.
#[local] Hint Resolve quiet_setupkvm_loop : quiet.

Lemma quiet_setupkvm : quiet (setupkvm kend data).
Proof. unfold setupkvm. quiet. Qed.
#[local] Hint Resolve quiet_setupkvm : quiet.

Lemma quiet_allocuvm_loop pgdir a oldsz newsz fuel : quiet (allocuvm_loop kend pgdir a oldsz newsz fuel).
Proof. revert a. induction fuel; intros; cbn [allocuvm_loop]; quiet. Qed.
#[local] Hint Resolve quiet_allocuvm_loop : quiet.

Lemma quiet_copyuvm_loop pgdir d i sz fuel : quiet (copyuvm_loop kend pgdir d i sz fuel).
Proof. revert i. induction fuel; intros; cbn [copyuvm_loop]; quiet. Qed.
#[local] Hint Resolve quiet_copyuvm_loop : quiet.

Lemma quiet_copyout_loop pgdir va buf len fuel : quiet (copyout_loop pgdir va buf len fuel).
Proof. revert va buf len. induction fuel; intros; cbn [copyout_loop]; quiet. Qed.
#[local] Hint Resolve quiet_copyout_loop : quiet.
End memory.
#[export] Hint Resolve quiet_deallocuvm_loop quiet_freevm quiet_setupkvm quiet_allocuvm_loop quiet_copyuvm_loop quiet_copyout_loop quiet_mappages : quiet.
