(* ===== verification/FileRefs.v ===== *)
(** * Reference counts of open files (src/file.c, src/sysfile.c, src/proc.c)

    The count of a file structure is the number of descriptors that name it,
    summed over the processes.  A call that sleeps in the middle holds references
    that are in no table, or has given up references that are still in its own:
    its process is set apart, and what it holds is counted in [h]. *)

From S2P Require Import Prelude Fcntl Dll Sleeplock Bio Memide FsLayout Log LogCrash LogProtocol Tx CString Fs Pipe Kalloc Vm PageTable Kernel File Proc ProcInv Sysfile Syscall Panics.

(** ** Counting descriptors *)

(** How often a table names file [f]. *)
Definition opens (f : nat) (t : list (option nat)) : nat := sum_list_with (λ o, if decide (o = Some f) then 1%nat else 0%nat) t.

(** The descriptors of [f] in the processes outside [X]. *)
Definition descs (X : gset nat) (f : nat) (l : list proc) : nat :=
  sum_list_with (λ i, if decide (i ∈ X) then 0%nat else opens f (p_ofile (l !!! i))) (seq 0 (length l)).

Section count.
Local Open Scope nat_scope.

Lemma opens_insert f t i x y :
  t !! i = Some y → opens f (<[i := x]> t) + (if decide (y = Some f) then 1 else 0) = opens f t + (if decide (x = Some f) then 1 else 0).
Proof.
  unfold opens. revert i. induction t as [|z t IH]; intros [|i] Hi; simplify_eq/=.
  - lia.
  - specialize (IH i Hi). lia.
Qed.

Lemma opens_pos f t i : t !! i = Some (Some f) → 1 ≤ opens f t.
Proof.
  unfold opens. revert i. induction t as [|z t IH]; intros [|i] Hi; simplify_eq/=.
  - rewrite decide_True by done. lia.
  - specialize (IH i Hi). lia.
Qed.

Lemma opens_empty f t : Forall (λ o, o = None) t → opens f t = 0.
Proof. unfold opens. induction 1 as [|o t -> _ IH]; [done|]. cbn. by rewrite IH. Qed.

Lemma sum_update (g g' : nat → nat) i l :
  NoDup l → i ∈ l → (∀ j, j ≠ i → g j = g' j) → sum_list_with g' l + g i = sum_list_with g l + g' i.
Proof.
  induction 1 as [|j l Hj Hl IH]; [by intros ?%elem_of_nil|]. intros Hi Hg. cbn.
  destruct (decide (j = i)) as [->|Hne].
  - enough (sum_list_with g l = sum_list_with g' l) by lia. clear -Hj Hg. induction l as [|k l IH]; cbn; [done|].
    apply not_elem_of_cons in Hj as [Hk Hj]. rewrite (Hg k) by done. by rewrite IH.
  - apply elem_of_cons in Hi as [->|Hi]; [done|]. specialize (IH Hi Hg). rewrite (Hg j) by done. lia.
Qed.

(** A change of one process's table. *)
Lemma descs_alter X f g i (p : proc) l :
  l !! i = Some p →
  descs X f (alter g i l) + (if decide (i ∈ X) then 0 else opens f (p_ofile p)) =
  descs X f l + (if decide (i ∈ X) then 0 else opens f (p_ofile (g p))).
Proof.
  intros Hp. pose proof (lookup_lt_Some _ _ _ Hp) as Hi. unfold descs. rewrite length_alter.
  pose proof (sum_update (λ j, if decide (j ∈ X) then 0 else opens f (p_ofile (l !!! j)))
    (λ j, if decide (j ∈ X) then 0 else opens f (p_ofile (alter g i l !!! j))) i (seq 0 (length l))) as H.
  cbv beta in H. rewrite list_lookup_total_alter_eq in H by done. rewrite (list_lookup_total_correct _ _ _ Hp) in H.
  apply H; [apply NoDup_seq|apply elem_of_seq; lia|]. intros j Hj. by rewrite list_lookup_total_alter_ne.
Qed.

(** A process moves out of the count. *)
Lemma descs_apart X f i (p : proc) l :
  l !! i = Some p → i ∉ X → descs ({[i]} ∪ X) f l + opens f (p_ofile p) = descs X f l.
Proof.
  intros Hp HX. pose proof (lookup_lt_Some _ _ _ Hp) as Hi. unfold descs.
  pose proof (sum_update (λ j, if decide (j ∈ X) then 0 else opens f (p_ofile (l !!! j)))
    (λ j, if decide (j ∈ {[i]} ∪ X) then 0 else opens f (p_ofile (l !!! j))) i (seq 0 (length l))) as H.
  cbv beta in H. rewrite (decide_False (P := i ∈ X)), (decide_True (P := i ∈ {[i]} ∪ X)) in H by set_solver.
  rewrite (list_lookup_total_correct _ _ _ Hp) in H. rewrite H; [lia|apply NoDup_seq|apply elem_of_seq; lia|].
  intros j Hj. destruct (decide (j ∈ X)), (decide (j ∈ {[i]} ∪ X)); set_solver.
Qed.

Lemma descs_pos X f i (p : proc) fd l : l !! i = Some p → i ∉ X → p_ofile p !! fd = Some (Some f) → 1 ≤ descs X f l.
Proof. intros Hp HX Hfd. pose proof (descs_apart X f i p l Hp HX). pose proof (opens_pos f _ _ Hfd). lia. Qed.

(** Only the tables count. *)
Lemma descs_ext X f l l' :
  length l' = length l → (∀ i, p_ofile (l' !!! i) = p_ofile (l !!! i)) → descs X f l' = descs X f l.
Proof. intros Hl Ht. unfold descs. rewrite Hl. generalize (seq 0 (length l)). induction l0 as [|j l0 IH]; cbn; [done|]. by rewrite Ht, IH. Qed.
End count.

(** ** The invariant *)

Definition idle (p : proc) : Prop := p_state p = UNUSED ∨ p_state p = ZOMBIE.

(** [X]: processes in the middle of a call; [Y]: files that are not typed yet;
    [h]: references that are in no counted table. *)
Record files_ok (X Y : gset nat) (h : nat → Z) (files : list file) (procs : list proc) : Prop := mkFilesOk {
  fo_tables i p : procs !! i = Some p → length (p_ofile p) = NOFILE;
  fo_refs f : f_ref (files !!! f) = Z.of_nat (descs X f procs) + h f;
  fo_idle i p : procs !! i = Some p → idle p → (i ∉ X) ∧ Forall (λ o, o = None) (p_ofile p);
  fo_free f : f_ref (files !!! f) = 0 → f_type (files !!! f) = FD_NONE;
  fo_typed i p fd f : procs !! i = Some p → i ∉ X → p_ofile p !! fd = Some (Some f) → f ∉ Y → f_type (files !!! f) ≠ FD_NONE;
}.

(** One reference more, or less. *)
Definition plus (h : nat → Z) (f : nat) (d : Z) : nat → Z := λ g, if decide (g = f) then h g + d else h g.

Lemma plus_eq h f d : plus h f d f = h f + d.
Proof. unfold plus. by rewrite decide_True. Qed.
Lemma plus_ne h f d g : g ≠ f → plus h f d g = h g.
Proof. intros. unfold plus. by rewrite decide_False. Qed.

Section inv.
Context {S : Type}.
Implicit Types (s : kern S).
Abbreviation K := (M (kern S)).

Definition base (X Y : gset nat) (h : nat → Z) s : Prop :=
  files_ok X Y h (kn_file s) (kn_proc s) ∧ (kn_cur s ∉ X) ∧ (kn_cur s < length (kn_proc s))%nat.
Definition running s : Prop := p_state (cur_proc s) = RUNNING.
Definition mid X Y h s : Prop := base X Y h s ∧ running s.

(** Before and after a call. *)
Definition ready X h s : Prop := mid X ∅ h s ∧ ∀ f, 0 ≤ h f.

(** Asleep in a call: the references of the other processes are counted as before. *)
Definition parked X h s : Prop :=
  ∃ X' h', X' ⊆ {[kn_cur s]} ∪ X ∧ files_ok X' ∅ h' (kn_file s) (kn_proc s) ∧ ∀ f, h f ≤ h' f.

(** ** Frames *)

(** What a call may do elsewhere: counts, types and tables stay, no process
    becomes idle, and (for [frame]) the running process keeps running. *)
Record frameB s s' : Prop := mkFrame {
  fr_cur : kn_cur s' = kn_cur s;
  fr_init : kn_initproc s' = kn_initproc s;
  fr_ref f : f_ref (kn_file s' !!! f) = f_ref (kn_file s !!! f);
  fr_type f : f_type (kn_file s' !!! f) = f_type (kn_file s !!! f);
  fr_nfile : length (kn_file s') = length (kn_file s);
  fr_len : length (kn_proc s') = length (kn_proc s);
  fr_table i : p_ofile (kn_proc s' !!! i) = p_ofile (kn_proc s !!! i);
  fr_idle i : idle (kn_proc s' !!! i) → idle (kn_proc s !!! i);
}.
Definition frame s s' : Prop := frameB s s' ∧ (running s → running s').

Lemma frameB_refl s : frameB s s.
Proof. by split. Qed.
Lemma frameB_trans s1 s2 s3 : frameB s1 s2 → frameB s2 s3 → frameB s1 s3.
Proof. intros [] []. split; [congruence..| |congruence| |]; intros; eauto; congruence. Qed.
Lemma frame_refl s : frame s s.
Proof. split; [apply frameB_refl|done]. Qed.
Lemma frame_trans s1 s2 s3 : frame s1 s2 → frame s2 s3 → frame s1 s3.
Proof. intros [H1 ?] [H2 ?]. split; [by eapply frameB_trans|auto]. Qed.

Lemma frameB_base X Y h s s' : base X Y h s → frameB s s' → base X Y h s'.
Proof.
  intros ([Ht Hr Hi Hf Hty] & HX & Hc) [Fc Fi Fr Fty Fn Fl Ft Fid].
  assert (Hlk : ∀ i p, kn_proc s' !! i = Some p → ∃ q, kn_proc s !! i = Some q ∧ p_ofile p = p_ofile q ∧ (idle p → idle q)).
  { intros i p Hp. destruct (kn_proc s !! i) as [q|] eqn:Hq.
    - exists q. specialize (Ft i). specialize (Fid i). rewrite (list_lookup_total_correct _ _ _ Hp), (list_lookup_total_correct _ _ _ Hq) in Ft, Fid. done.
    - apply lookup_ge_None in Hq. apply lookup_lt_Some in Hp. lia. }
  split; [|by rewrite Fc, Fl]. split.
  - intros i p (q & Hq & -> & _)%Hlk. eauto.
  - intros f. by rewrite Fr, Hr, (descs_ext X f (kn_proc s) (kn_proc s')).
  - intros i p (q & Hq & -> & Hid)%Hlk Hp. eauto.
  - intros f. rewrite Fr, Fty. auto.
  - intros i p fd f (q & Hq & -> & _)%Hlk. rewrite Fty. eauto.
Qed.

Lemma frame_mid X Y h s s' : mid X Y h s → frame s s' → mid X Y h s'.
Proof. intros [Hb Hr] [Hf Hr']. split; [by eapply frameB_base|auto]. Qed.

Lemma frame_ready X h s s' : ready X h s → frame s s' → ready X h s'.
Proof. intros [Hm Hh] Hf. split; [by eapply frame_mid|done]. Qed.

(** Setting the running process apart. *)
Lemma base_parked X Y h0 h s :
  base X Y h s → ¬ idle (cur_proc s) → (∀ f, h0 f ≤ h f + Z.of_nat (opens f (p_ofile (cur_proc s)))) →
  (∀ f, f ∈ Y → descs ({[kn_cur s]} ∪ X) f (kn_proc s) = 0%nat) → parked X h0 s.
Proof.
  intros ([Ht Hr Hi Hf Hty] & HX & Hc) Hid Hh HY.
  destruct (lookup_lt_is_Some_2 _ _ Hc) as [p Hp].
  assert (Hcp : cur_proc s = p) by (unfold cur_proc; by apply list_lookup_total_correct). rewrite Hcp in *.
  exists ({[kn_cur s]} ∪ X), (λ f, h f + Z.of_nat (opens f (p_ofile p))). split; [done|]. split; [|done]. split.
  - done.
  - intros f. rewrite Hr. pose proof (descs_apart X f (kn_cur s) p _ Hp HX). lia.
  - intros i q Hq Hqi. destruct (Hi i q Hq Hqi) as [? ?]. split; [|done].
    intros [->%elem_of_singleton|?]%elem_of_union; [|done]. by simplify_eq.
  - done.
  - intros i q fd f Hq Hix Hfd _ Hn. destruct (decide (f ∈ Y)) as [Hf'|Hf'].
    + pose proof (descs_pos _ f i q fd _ Hq Hix Hfd). specialize (HY f Hf'). lia.
    + eapply Hty; [exact Hq| |exact Hfd|exact Hf'|exact Hn]. set_solver.
Qed.

Lemma running_busy s : running s → ¬ idle (cur_proc s).
Proof. unfold running. intros H [Hi|Hi]; rewrite H in Hi; done. Qed.

Lemma frameB_parked X h s s' : ready X h s → frameB s s' → parked X h s'.
Proof.
  intros [[Hb Hr] Hh] Hf. pose proof (frameB_base _ _ _ _ _ Hb Hf) as Hb'. apply (base_parked X ∅ h h s' Hb').
  - intros Hid. apply (running_busy s Hr). unfold cur_proc in *. rewrite (fr_cur _ _ Hf) in Hid. by apply (fr_idle _ _ Hf) in Hid.
  - intros f. lia.
  - intros f []%elem_of_empty.
Qed.
End inv.

(** ** Calls that leave the file table alone *)

Section framed.
Context {S : Type}.
Implicit Types (s : kern S).
Abbreviation K := (M (kern S)).

Definition run {A} (m : K A) (Q : A → kern S → Prop) (B : kern S → Prop) s : Prop :=
  match m s with Ok a s' => Q a s' | Blocked s' => B s' | Panic msg => file_panic msg = false end.

Definition framed {A} (m : K A) : Prop := ∀ s, run m (λ _, frame s) (frameB s) s.

Lemma run_bind {A C} (m : K A) (k : A → K C) Q B s : run m (λ a, run (k a) Q B) B s → run (m ≫= k) Q B s.
Proof. unfold run, mbind, M_bind. by destruct (m s). Qed.

Lemma run_mono {A} (m : K A) (Q Q' : A → kern S → Prop) (B B' : kern S → Prop) s :
  run m Q B s → (∀ a s', Q a s' → Q' a s') → (∀ s', B s' → B' s') → run m Q' B' s.
Proof. unfold run. destruct (m s); auto. Qed.

Lemma run_framed {A C} (m : K A) (k : A → K C) Q B s :
  framed m → (∀ s', frameB s s' → B s') → (∀ a s', frame s s' → run (k a) Q B s') → run (m ≫= k) Q B s.
Proof. intros Hm HB Hk. apply run_bind. eapply run_mono; [apply Hm|auto|auto]. Qed.

Lemma framed_bind {A C} (m : K A) (k : A → K C) : framed m → (∀ a, framed (k a)) → framed (m ≫= k).
Proof.
  intros Hm Hk s. apply run_framed; [done|done|]. intros a s' Hf. eapply run_mono; [apply Hk|..].
  - intros ? s'' Hf'. by eapply frame_trans.
  - intros s'' Hf'. eapply frameB_trans; [apply Hf|done].
Qed.

Lemma framed_ret {A} (a : A) : framed (mret a).
Proof. intros s. apply frame_refl. Qed.

Lemma framed_gets {A} (g : kern S → A) : framed (gets g).
Proof. intros s. apply frame_refl. Qed.

Lemma framed_panic {A} msg : file_panic msg = false → framed (panic (A := A) msg).
Proof. by intros H s. Qed.

Lemma framed_sleeps {A} : framed (sleeps (A := A)).
Proof. intros s. apply frameB_refl. Qed.

Lemma framed_liftK {A} (m : M kst A) : quiet m → framed (liftK m).
Proof. intros Hm s. unfold run, liftK, lift. specialize (Hm (kn_k s)). destruct (m (kn_k s)); [split; [by split|done]|by split|done]. Qed.

Lemma framed_liftF {A} (m : M (fsst S) A) : quiet m → framed (liftF m).
Proof. intros Hm s. unfold run, liftF, lift. specialize (Hm (cur_fs s)). destruct (m (cur_fs s)); [split; [by split|done]|by split|done]. Qed.

Lemma framed_mfor from n (f : nat → K unit) : (∀ i, framed (f i)) → framed (mfor from n f).
Proof. revert from. induction n as [|n IH]; intros from Hf; [apply framed_ret|]. cbn [mfor]. apply framed_bind; [done|]. intros. by apply IH. Qed.

(** An update of the processes that keeps the tables. *)
Lemma frame_procs s (l : list proc) :
  length l = length (kn_proc s) →
  (∀ i, p_ofile (l !!! i) = p_ofile (kn_proc s !!! i) ∧ (idle (l !!! i) → idle (kn_proc s !!! i))) →
  frameB s (with_proc l s).
Proof. intros Hl Hi. split; try done; intros i; by apply Hi. Qed.

Definition tame (g : proc → proc) (p : proc) : Prop :=
  p_ofile (g p) = p_ofile p ∧ (idle (g p) → idle p) ∧ (p_state p = RUNNING → p_state (g p) = RUNNING).

Lemma frame_alter s i g : tame g (kn_proc s !!! i) → frame s (with_proc (alter g i (kn_proc s)) s).
Proof.
  intros (Ht & Hi & Hr).
  assert (H : ∀ j, p_ofile (alter g i (kn_proc s) !!! j) = p_ofile (kn_proc s !!! j) ∧
    (idle (alter g i (kn_proc s) !!! j) → idle (kn_proc s !!! j)) ∧
    (p_state (kn_proc s !!! j) = RUNNING → p_state (alter g i (kn_proc s) !!! j) = RUNNING)).
  { intros j. destruct (decide (i = j)) as [<-|]; [|by rewrite list_lookup_total_alter_ne].
    destruct (decide (i < length (kn_proc s))%nat); [by rewrite list_lookup_total_alter_eq|by rewrite alter_oob by lia]. }
  split; [apply frame_procs; [apply length_alter|]; intros j; split; apply H|apply H].
Qed.

Lemma framed_upd_proc i g : (∀ p, tame g p) → framed (upd_proc i g).
Proof. intros Hg s. by apply frame_alter. Qed.

Lemma framed_upd_cur g : (∀ p, tame g p) → framed (upd_cur g).
Proof. intros Hg s. by apply frame_alter. Qed.

Lemma tame_killed p : tame killed_proc p.
Proof. unfold tame, killed_proc. cbn. destruct (bool_decide (p_state p = SLEEPING)) eqn:E; cbn; [|done].
  apply bool_decide_eq_true in E. split_and!; [done|by intros [|]|congruence]. Qed.

Lemma framed_wakeup c : framed (wakeup1 c).
Proof.
  intros s. assert (H : ∀ i, p_ofile ((wakeup1_proc c <$> kn_proc s) !!! i) = p_ofile (kn_proc s !!! i) ∧
    (idle ((wakeup1_proc c <$> kn_proc s) !!! i) → idle (kn_proc s !!! i)) ∧
    (p_state (kn_proc s !!! i) = RUNNING → p_state ((wakeup1_proc c <$> kn_proc s) !!! i) = RUNNING)).
  { intros i. rewrite !list_lookup_total_alt, list_lookup_fmap. destruct (kn_proc s !! i) as [p|]; [|done]. cbn.
    unfold wakeup1_proc. destruct (bool_decide (p_state p = SLEEPING)) eqn:E; cbn; [|done].
    apply bool_decide_eq_true in E. destruct (bool_decide _); [|done]. split_and!; [done|by intros [|]|congruence]. }
  split; [apply frame_procs; [apply length_fmap|]; intros i; split; apply H|]. apply H.
Qed.

Lemma framed_upd_file f g :
  (∀ x, f_ref (g x) = f_ref x) → (∀ x, f_type (g x) = f_type x) → framed (upd_file f g).
Proof.
  intros Hr Ht s. split; [|done]. split; try done; cbn; intros; [by apply alter_field..|apply length_alter].
Qed.

(** Going to sleep. *)
Lemma framed_sleep {A} c : framed (sleep (A := A) c).
Proof.
  intros s. unfold run, sleep. cbn. apply frame_procs; [apply length_alter|]. intros j. split; [by apply alter_field|].
  destruct (decide (kn_cur s = j)) as [<-|]; [|by rewrite list_lookup_total_alter_ne].
  destruct (decide (kn_cur s < length (kn_proc s))%nat); [|by rewrite alter_oob by lia].
  rewrite list_lookup_total_alter_eq by done. by intros [|].
Qed.

Lemma framed_call {A} (m : K A) X h s : framed m → ready X h s → run m (λ _, ready X h) (parked X h) s.
Proof.
  intros Hm Hr. eapply run_mono; [apply Hm|..].
  - intros ? s' Hf. by eapply frame_ready.
  - intros s' Hf. by eapply frameB_parked.
Qed.
End framed.

Create HintDb framed.
Create HintDb calls.

Ltac framed_step :=
  match goal with
  | |- framed (mbind _ _) => apply framed_bind
  | |- framed (mret _) => apply framed_ret
  | |- framed (panic _) => apply framed_panic; reflexivity
  | |- framed (match ?x with _ => _ end) => destruct x eqn:?
  | |- ∀ _, _ => intros ?
  | _ => progress cbv beta zeta
  | _ => solve [eauto with framed]
  | |- framed getS => apply (framed_gets id)
  | |- framed (gets _) => apply framed_gets
  | |- framed (modify _) => intros ?; split; [by split|done]
  | |- framed sleeps => apply framed_sleeps
  | |- framed (sleep _) => apply framed_sleep
  | |- framed (wakeup1 _) => apply framed_wakeup
  | |- framed (mfor _ _ _) => apply framed_mfor
  | |- framed (liftF _) => apply framed_liftF; quiet
  | |- framed (liftK _) => apply framed_liftK; quiet
  | |- framed (upd_proc _ _) => apply framed_upd_proc; first [exact tame_killed|by repeat split]
  | |- framed (upd_cur _) => apply framed_upd_cur; by repeat split
  | |- framed (upd_file _ _) => apply framed_upd_file; done
  | |- framed ?m => let h := head_of m in unfold h
  end.
Ltac framed := repeat framed_step.

(** ** Changes of the file table and of descriptor tables *)

Section changes.
Context {S : Type}.
Implicit Types (s : kern S).

(** A file the running process has open. *)
Lemma open_file X Y h s fd f :
  mid X Y h s → 0 ≤ h f → p_ofile (cur_proc s) !! fd = Some (Some f) →
  1 ≤ f_ref (kn_file s !!! f) ∧ (f ∉ Y → f_type (kn_file s !!! f) ≠ FD_NONE).
Proof.
  intros [([Ht Hr Hi Hf Hty] & HX & Hc) _] Hh Hfd. destruct (lookup_lt_is_Some_2 _ _ Hc) as [p Hp].
  assert (Hcp : cur_proc s = p) by (unfold cur_proc; by apply list_lookup_total_correct). rewrite Hcp in Hfd.
  split; [|by eapply Hty]. rewrite Hr. pose proof (descs_pos X f _ p fd _ Hp HX Hfd). lia.
Qed.

Lemma ref_lt s f : f_ref (kn_file s !!! f) ≠ 0 → (f < length (kn_file s))%nat.
Proof.
  intros Hf. destruct (decide (f < length (kn_file s))%nat); [done|]. destruct Hf.
  rewrite list_lookup_total_alt, lookup_ge_None_2 by lia. done.
Qed.

Lemma base_file X Y Y' h s f g d :
  base X Y h s → (f < length (kn_file s))%nat →
  let x := kn_file s !!! f in
  f_ref (g x) = f_ref x + d → (f_ref (g x) = 0 → f_type (g x) = FD_NONE) →
  (f ∉ Y' → f_type (g x) = FD_NONE → descs X f (kn_proc s) = 0%nat ∨ (f ∉ Y) ∧ f_type x = FD_NONE) → Y ⊆ {[f]} ∪ Y' →
  base X Y' (plus h f d) (with_file (alter g f (kn_file s)) s).
Proof.
  intros ([Ht Hr Hi Hf Hty] & HX & Hc) Hlt x Hd Hn Hy HY. split; [|done]. split; cbn [kn_file kn_proc with_file].
  - done.
  - intros f'. destruct (decide (f' = f)) as [->|Hne].
    + rewrite list_lookup_total_alter_eq, plus_eq by done. unfold x in Hd. rewrite Hd, Hr. lia.
    + rewrite list_lookup_total_alter_ne, plus_ne by done. apply Hr.
  - done.
  - intros f'. destruct (decide (f' = f)) as [->|Hne].
    + by rewrite list_lookup_total_alter_eq.
    + rewrite list_lookup_total_alter_ne by done. apply Hf.
  - intros i p fd f' Hp Hix Hfd Hf'. destruct (decide (f' = f)) as [->|Hne].
    + rewrite list_lookup_total_alter_eq by done. intros Hnone. pose proof (descs_pos X f i p fd _ Hp Hix Hfd).
      destruct (Hy Hf' Hnone) as [?|[HnY Hx]]; [lia|]. by destruct (Hty i p fd f Hp Hix Hfd HnY).
    + rewrite list_lookup_total_alter_ne by done. eapply Hty; [done..|]. set_solver.
Qed.

Lemma base_table X Y Y' h h' s i (p : proc) fd (y o : option nat) :
  base X Y h s → kn_proc s !! i = Some p → i ∉ X → ¬ idle p → p_ofile p !! fd = Some y →
  (∀ f, h' f + (if decide (o = Some f) then 1 else 0) = h f + (if decide (y = Some f) then 1 else 0)) →
  Y ⊆ Y' → (∀ f, o = Some f → f ∉ Y' → f_type (kn_file s !!! f) ≠ FD_NONE) →
  base X Y' h' (with_proc (alter (λ p, set_ofile (<[fd := o]> (p_ofile p)) p) i (kn_proc s)) s).
Proof.
  intros ([Ht Hr Hi Hf Hty] & HX & Hc) Hp Hix Hid Hfd Hh HY Ho. split; [|by cbn; rewrite length_alter]. cbn [kn_file kn_proc with_proc].
  set (g := λ p, set_ofile (<[fd := o]> (p_ofile p)) p).
  assert (Hlk : ∀ j q, alter g i (kn_proc s) !! j = Some q → j = i ∧ q = g p ∨ j ≠ i ∧ kn_proc s !! j = Some q).
  { intros j q Hq. destruct (decide (i = j)) as [<-|]; [|by rewrite list_lookup_alter_ne in Hq; auto].
    rewrite list_lookup_alter_eq, Hp in Hq. by simplify_eq/=; auto. }
  split.
  - intros j q [[-> ->]|[_ Hq]]%Hlk; [|by eapply Ht]. cbn. rewrite length_insert. by eapply Ht.
  - intros f. rewrite Hr. pose proof (descs_alter X f g i p _ Hp) as Hd. rewrite !decide_False in Hd by done. unfold g in Hd at 2. cbn [p_ofile set_ofile] in Hd.
    pose proof (opens_insert f (p_ofile p) fd o y Hfd) as Hop. specialize (Hh f).
    destruct (decide (o = Some f)), (decide (y = Some f)); lia.
  - intros j q [[-> ->]|[_ Hq]]%Hlk Hq'; [|by eapply Hi]. by destruct Hid.
  - done.
  - intros j q fd' f [[-> ->]|[_ Hq]]%Hlk Hjx Hfd' Hf'; [|eapply Hty; [done..|]; set_solver]. cbn in Hfd'.
    destruct (decide (fd' = fd)) as [->|Hne].
    + rewrite list_lookup_insert_eq in Hfd' by (by eapply lookup_lt_Some). simplify_eq. by apply Ho.
    + rewrite list_lookup_insert_ne in Hfd' by done. eapply Hty; [done..|]. set_solver.
Qed.

(** A file without descriptors needs no type. *)
Lemma base_untype X Y h s f :
  base X ({[f]} ∪ Y) h s → f_type (kn_file s !!! f) ≠ FD_NONE ∨ descs X f (kn_proc s) = 0%nat → base X Y h s.
Proof.
  intros ([Ht Hr Hi Hf Hty] & HX) Hor. split; [|done]. split; try done.
  intros i p fd f' Hp Hix Hfd Hf'. destruct (decide (f' = f)) as [->|Hne]; [|eapply Hty; [done..|]; set_solver].
  destruct Hor as [|Hd]; [done|]. pose proof (descs_pos X f i p fd _ Hp Hix Hfd). lia.
Qed.

Lemma mid_ext X Y h h' s : mid X Y h s → (∀ f, h f = h' f) → mid X Y h' s.
Proof. intros [([Ht Hr Hi Hf Hty] & HX) Hrun] Hh. split; [|done]. split; [|done]. split; try done. intros f. by rewrite Hr, Hh. Qed.

Lemma parked_mono X h h' s : parked X h' s → (∀ f, h f ≤ h' f) → parked X h s.
Proof. intros (X' & k & ? & ? & Hk) Hh. exists X', k. split_and!; [done..|]. intros f. specialize (Hk f). specialize (Hh f). lia. Qed.

Lemma ready_parked X h s : ready X h s → parked X h s.
Proof. intros H. eapply frameB_parked; [done|apply frameB_refl]. Qed.

Lemma cur_lookup X Y h s : base X Y h s → kn_proc s !! kn_cur s = Some (cur_proc s).
Proof. intros (_ & _ & Hc). by apply list_lookup_lookup_total_lt. Qed.

(** [curproc->ofile[fd] = o] *)
Definition set_desc (fd : nat) (o : option nat) s : kern S :=
  with_proc (alter (λ p, set_ofile (<[fd := o]> (p_ofile p)) p) (kn_cur s) (kn_proc s)) s.

Lemma mid_set_desc X Y Y' h h' s fd y o :
  mid X Y h s → p_ofile (cur_proc s) !! fd = Some y →
  (∀ f, h' f + (if decide (o = Some f) then 1 else 0) = h f + (if decide (y = Some f) then 1 else 0)) →
  Y ⊆ Y' → (∀ f, o = Some f → f ∉ Y' → f_type (kn_file s !!! f) ≠ FD_NONE) →
  mid X Y' h' (set_desc fd o s).
Proof.
  intros [Hb Hr] Hfd Hh HY Ho. split.
  - eapply base_table; [done|by eapply cur_lookup|apply Hb|by apply running_busy|done..].
  - unfold running, cur_proc. cbn. by rewrite (alter_field p_state).
Qed.

Lemma cur_set_desc X Y h s fd o : base X Y h s → p_ofile (cur_proc (set_desc fd o s)) = <[fd := o]> (p_ofile (cur_proc s)).
Proof. intros (_ & _ & Hc). unfold cur_proc, set_desc. cbn. by rewrite list_lookup_total_alter_eq. Qed.

(** The file after [fileclose]. *)
Definition closed (f : nat) s : kern S :=
  with_file (alter (λ x, if 1 <? f_ref x then set_fref (f_ref x - 1) x else set_ftype FD_NONE (set_fref 0 x)) f (kn_file s)) s.

Lemma mid_closed X Y h s f :
  mid X Y h s → 1 ≤ f_ref (kn_file s !!! f) →
  mid X (if f_ref (kn_file s !!! f) =? 1 then {[f]} ∪ Y else Y) (plus h f (-1)) (closed f s) ∧
  f_ref (kn_file (closed f s) !!! f) = f_ref (kn_file s !!! f) - 1.
Proof.
  intros [Hb Hr] Hf. assert (Hlt : (f < length (kn_file s))%nat) by (apply ref_lt; lia).
  split; [|cbn; rewrite list_lookup_total_alter_eq by done; destruct (Z.ltb_spec 1 (f_ref (kn_file s !!! f))); cbn; lia].
  split; [|done]. eapply base_file; [done..| | | |].
  - destruct (Z.ltb_spec 1 (f_ref (kn_file s !!! f))); cbn; lia.
  - destruct (Z.ltb_spec 1 (f_ref (kn_file s !!! f))); cbn; [lia|done].
  - destruct (Z.eqb_spec (f_ref (kn_file s !!! f)) 1) as [_|Hne]; [set_solver|].
    destruct (Z.ltb_spec 1 (f_ref (kn_file s !!! f))); [|lia]. cbn. intros HY Hn.
    by right.
  - destruct (f_ref (kn_file s !!! f) =? 1); set_solver.
Qed.
End changes.

Section calls.
Context {S : Type} {ops : TxStore S} {txo : TxOps S} {q : TxQuiet S}.
Context (kend data forkret trapret : Z).
Context (devread : Z → option (nat → Z → M (fsst S) (Z * list byte))).
Context (devwrite : Z → option (nat → list byte → Z → M (fsst S) Z)).
Context (Hread : ∀ i f, devread i = Some f → ∀ ip n, quiet (f ip n)).
Context (Hwrite : ∀ i f, devwrite i = Some f → ∀ ip bs n, quiet (f ip bs n)).
Implicit Types (s : kern S).
Abbreviation K := (M (kern S)).

Lemma framed_uload va n : framed (S := S) (uload va n).
Proof. revert va. induction n; intros; cbn [uload]; framed. Qed.
#[local] Hint Resolve framed_uload : framed.

Lemma framed_ustore va bs : framed (S := S) (ustore va bs).
Proof. revert va. induction bs; intros; cbn [ustore]; framed. Qed.
#[local] Hint Resolve framed_ustore : framed.

Lemma framed_fetchstr_loop a acc n : framed (S := S) (fetchstr_loop a acc n).
Proof. revert a acc. induction n; intros; cbn [fetchstr_loop]; framed. Qed.
#[local] Hint Resolve framed_fetchstr_loop : framed.

Lemma framed_argstr n : framed (S := S) (argstr n).
Proof. unfold argstr. framed. Qed.
Lemma framed_argptr n size : framed (S := S) (argptr n size).
Proof. unfold argptr. framed. Qed.
Lemma framed_argint n : framed (S := S) (argint n).
Proof. unfold argint. framed. Qed.
Lemma framed_argfd n : framed (S := S) (argfd n).
Proof. unfold argfd. framed. Qed.
#[local] Hint Resolve framed_argstr framed_argptr framed_argint framed_argfd : framed.

Lemma framed_begin : framed (begin_fs (S := S)).
Proof. unfold begin_fs. framed. Qed.
Lemma framed_end : framed (end_fs (S := S)).
Proof. unfold end_fs. framed. Qed.
#[local] Hint Resolve framed_begin framed_end : framed.

Lemma framed_loaduvm_loop pgdir addr ip offset sz i fuel : framed (loaduvm_loop devread pgdir addr ip offset sz i fuel).
Proof. revert i. induction fuel; intros; cbn [loaduvm_loop]; framed. Qed.
#[local] Hint Resolve framed_loaduvm_loop : framed.

Lemma framed_exec_load pgdir ip off sz n : framed (exec_load kend devread pgdir ip off sz n).
Proof. revert off sz. induction n; intros; cbn [exec_load]; framed. Qed.
#[local] Hint Resolve framed_exec_load : framed.

Lemma framed_exec_args pgdir argv sp ptrs : framed (S := S) (exec_args pgdir argv sp ptrs).
Proof. revert sp ptrs. induction argv; intros; cbn [exec_args]; framed. Qed.
#[local] Hint Resolve framed_exec_args : framed.

Lemma framed_exec path argv : framed (exec kend data devread path argv).
Proof. unfold exec. framed. Qed.
#[local] Hint Resolve framed_exec : framed.

Lemma framed_fetch_argv uargv i acc n : framed (S := S) (fetch_argv uargv i acc n).
Proof. revert i acc. induction n; intros; cbn [fetch_argv]; framed. Qed.
#[local] Hint Resolve framed_fetch_argv : framed.

Lemma framed_sys_exec : framed (sys_exec kend data devread).
Proof. unfold sys_exec. framed. Qed.
Lemma framed_sys_kill : framed (sys_kill (S := S)).
Proof. unfold sys_kill, kill. framed. Qed.
Lemma framed_sys_chdir : framed (sys_chdir devread).
Proof. unfold sys_chdir. framed. Qed.
Lemma framed_sys_sbrk : framed (S := S) (sys_sbrk kend).
Proof. unfold sys_sbrk. framed. Qed.
Lemma framed_sys_sleep : framed (sys_sleep (S := S)).
Proof. unfold sys_sleep. framed. Qed.
Lemma framed_sys_mknod : framed (sys_mknod devread devwrite).
Proof. unfold sys_mknod. framed. Qed.
Lemma framed_sys_mkdir : framed (sys_mkdir devread devwrite).
Proof. unfold sys_mkdir. framed. Qed.
Lemma framed_sys_unlink : framed (sys_unlink devread devwrite).
Proof. unfold sys_unlink. framed. Qed.
Lemma framed_sys_link : framed (sys_link devread devwrite).
Proof. unfold sys_link. framed. Qed.
Lemma framed_sys_fstat : framed (sys_fstat (S := S)).
Proof. unfold sys_fstat. framed. Qed.

(** ** The operations of the file table *)

Lemma run_gets {A C} (g : kern S → A) (k : A → K C) Q B s : run (k (g s)) Q B s → run (gets g ≫= k) Q B s.
Proof. done. Qed.

Lemma fileclose_run s f :
  1 ≤ f_ref (kn_file s !!! f) → run (fileclose kend f) (λ _, frame (closed f s)) (frameB (closed f s)) s.
Proof.
  intros Hf. unfold fileclose, get_file. apply run_gets. cbv beta. destruct (Z.ltb_spec (f_ref (kn_file s !!! f)) 1); [lia|].
  apply run_bind. unfold run at 1, upd_file at 1, modify at 1. destruct (Z.ltb_spec 0 (f_ref (kn_file s !!! f) - 1)) as [H1|H1].
  - replace (with_file _ s) with (closed f s); [apply framed_ret|]. unfold closed. f_equal. rewrite !alter_insert.
    destruct (Z.ltb_spec 1 (f_ref (kn_file s !!! f))); [done|lia].
  - apply run_bind. unfold run at 1, upd_file at 1, modify at 1.
    match goal with |- run _ _ _ ?t => replace t with (closed f s) end; [|].
    + match goal with |- run ?m _ _ _ => enough (framed m) as Hm by apply Hm end. framed.
    + unfold closed, with_file. cbn. f_equal. rewrite !alter_insert.
      assert (Hlt : (f < length (kn_file s))%nat) by (apply ref_lt; lia).
      rewrite list_lookup_total_insert_eq, list_insert_insert_eq by done. destruct (Z.ltb_spec 1 (f_ref (kn_file s !!! f))); [lia|done].
Qed.

(** Closing a file that the call holds. *)
Lemma fileclose_held X h h1 s f :
  mid X ∅ h1 s → (∀ g, h1 g = plus h f 1 g) → (∀ g, 0 ≤ h g) → run (fileclose kend f) (λ _, ready X h) (parked X h) s.
Proof.
  intros Hm Hh1 Hh. assert (Hf : 1 ≤ f_ref (kn_file s !!! f)).
  { destruct Hm as [([Ht Hr _ _ _] & _) _]. rewrite Hr, Hh1, plus_eq. specialize (Hh f). lia. }
  destruct (mid_closed _ _ _ _ _ Hm Hf) as [Hm' Hr'].
  assert (Hrd : ready X h (closed f s)).
  { split; [|done]. apply (mid_ext _ _ _ h) in Hm'.
    2: { intros g. unfold plus in *. rewrite Hh1. destruct (decide (g = f)); lia. }
    destruct (Z.eqb_spec (f_ref (kn_file s !!! f)) 1) as [He|]; [|done]. destruct Hm' as [Hb Hrn]. split; [|done].
    eapply base_untype; [done|]. right. destruct Hb as ([_ Hr _ _ _] & _). specialize (Hr f). specialize (Hh f). lia. }
  eapply run_mono; [by apply fileclose_run|..].
  - intros ? s' Hfr. by eapply frame_ready.
  - intros s' Hfr. by eapply frameB_parked.
Qed.

Lemma find_file_spec l i f : find_file l i = Some f → (i ≤ f)%nat ∧ (f - i < length l)%nat ∧ f_ref (l !!! (f - i)%nat) = 0.
Proof.
  revert i. induction l as [|x l IH]; intros i; cbn [find_file]; [done|]. destruct (Z.eqb_spec (f_ref x) 0) as [Hx|].
  - intros [= <-]. rewrite Nat.sub_diag. cbn. split_and!; [done|lia|done].
  - intros (H1 & H2 & H3)%IH. replace (f - i)%nat with (Datatypes.S (f - Datatypes.S i)) by lia. cbn. split_and!; [lia..|done].
Qed.

(** A new file: held by the call, without a type. *)
Lemma filealloc_run X Y h s :
  mid X Y h s → (∀ f, 0 ≤ h f) →
  run filealloc (λ r s', match r with
    | None => s' = s
    | Some f => mid X Y (plus h f 1) s' ∧ (f < length (kn_file s'))%nat ∧ f_ref (kn_file s !!! f) = 0 ∧ f_ref (kn_file s' !!! f) = 1 ∧
                (∀ g, g ≠ f → kn_file s' !!! g = kn_file s !!! g)
    end) (λ _, False) s.
Proof.
  intros [Hb Hr] Hh. unfold filealloc, run, mbind, M_bind, getS. destruct (find_file (kn_file s) 0) as [f|] eqn:E; [|done].
  apply find_file_spec in E as (_ & Hlt & H0). rewrite Nat.sub_0_r in Hlt, H0. cbn.
  assert (Hd : descs X f (kn_proc s) = 0%nat).
  { destruct Hb as ([_ Hrf _ _ _] & _). specialize (Hrf f). specialize (Hh f). lia. }
  split_and!.
  - split; [|done]. eapply base_file; [done..| |done| |set_solver]; cbn; [lia|by left].
  - by rewrite length_alter.
  - done.
  - by rewrite list_lookup_total_alter_eq.
  - intros g Hg. by rewrite list_lookup_total_alter_ne.
Qed.

Lemma fdalloc_run s f :
  run (fdalloc f) (λ r s', match r with
    | None => s' = s
    | Some fd => p_ofile (cur_proc s) !! fd = Some None ∧ s' = set_desc fd (Some f) s
    end) (λ _, False) s.
Proof.
  unfold fdalloc, run, myproc, gets, mbind, M_bind. destruct (find_fd (p_ofile (cur_proc s)) 0) as [fd|] eqn:E; cbn; [|done].
  apply find_fd_spec in E as [_ E]. by rewrite Nat.sub_0_r in E.
Qed.

Lemma filedup_run X Y h s f :
  mid X Y h s → 1 ≤ f_ref (kn_file s !!! f) →
  run (filedup f) (λ r s', r = f ∧ mid X Y (plus h f 1) s' ∧ kn_proc s' = kn_proc s ∧ kn_cur s' = kn_cur s ∧
    ∀ g, f_type (kn_file s' !!! g) = f_type (kn_file s !!! g)) (λ _, False) s.
Proof.
  intros [Hb Hr] Hf. unfold filedup, run, get_file, gets, mbind, M_bind. destruct (Z.ltb_spec (f_ref (kn_file s !!! f)) 1); [lia|]. cbn.
  assert (Hlt : (f < length (kn_file s))%nat) by (apply ref_lt; lia).
  split_and!; [done| |done..|].
  - split; [|done]. eapply base_file; [done..|by cbn| | |set_solver]; cbn; [lia|by right].
  - intros g. by apply (alter_field f_type).
Qed.

(** The argument descriptor is one of the process's. *)
Lemma argfd_run X Y h s n :
  mid X Y h s →
  run (argfd n) (λ r s', frame s s' ∧ match r with Some (fd, f) => p_ofile (cur_proc s') !! fd = Some (Some f) | None => True end) (frameB s) s.
Proof.
  intros Hm. unfold argfd. apply run_framed; [apply framed_argint|done|]. intros [fd|] s' Hfr; [|by split].
  apply run_gets. cbv beta. destruct (Z.ltb_spec fd 0); [by split|]. destruct (Z.leb_spec (Z.of_nat NOFILE) fd); [by split|]. cbn [orb].
  destruct (p_ofile (cur_proc s') !!! Z.to_nat fd) as [f|] eqn:E; [|by split]. split; [done|].
  pose proof (frame_mid _ _ _ _ _ Hm Hfr) as [Hb _]. pose proof (cur_lookup _ _ _ _ Hb) as Hc. destruct Hb as ([Ht _ _ _ _] & _).
  specialize (Ht _ _ Hc). rewrite <-E. apply list_lookup_lookup_total_lt. lia.
Qed.

(** ** The calls *)

Definition call_ok {A} (m : K A) : Prop := ∀ X h s, ready X h s → run m (λ _, ready X h) (parked X h) s.

Lemma framed_ok {A} (m : K A) : framed m → call_ok m.
Proof. intros Hm X h s. by apply framed_call. Qed.

Lemma run_ready {A C} (m : K A) (k : A → K C) Q X h s :
  framed m → ready X h s → (∀ a s', ready X h s' → run (k a) Q (parked X h) s') → run (m ≫= k) Q (parked X h) s.
Proof. intros Hm Hr Hk. apply run_framed; [done|intros s' Hf; by eapply frameB_parked|]. intros a s' Hf. apply Hk. by eapply frame_ready. Qed.

Lemma ready_ret {A} (a : A) X h s : ready X h s → run (mret a) (λ _, ready X h) (parked X h) s.
Proof. done. Qed.

Lemma frame_table s s' : frame s s' → p_ofile (cur_proc s') = p_ofile (cur_proc s).
Proof. intros [[Hc _ _ _ _ _ Ht _] _]. unfold cur_proc. by rewrite Hc. Qed.

Lemma rw_args_run X h s :
  ready X h s →
  run rw_args (λ r s', frame s s' ∧ match r with Some (f, _, _) => ∃ fd, p_ofile (cur_proc s') !! fd = Some (Some f) | None => True end) (frameB s) s.
Proof.
  intros [Hm _]. unfold rw_args. apply run_bind. eapply run_mono; [by eapply argfd_run|..]; [|done].
  intros [[fd f]|] s1 [Hf1 Hfd]; [|by split].
  apply run_framed; [apply framed_argint|intros s2 H2; eapply frameB_trans; [apply Hf1|done]|]. intros [n|] s2 H2; [|split; [by eapply frame_trans|done]].
  pose proof (frame_trans _ _ _ Hf1 H2) as H12.
  apply run_framed; [apply framed_argptr|intros s3 H3; eapply frameB_trans; [apply H12|done]|]. intros [a|] s3 H3; [|split; [by eapply frame_trans|done]].
  split; [by eapply frame_trans|]. exists fd. by rewrite (frame_table _ _ H3), (frame_table _ _ H2).
Qed.

Lemma framed_filewrite_loop f bs i n fuel : framed (filewrite_loop devwrite f bs i n fuel).
Proof. revert bs i. induction fuel; intros; cbn [filewrite_loop]; framed. Qed.
#[local] Hint Resolve framed_filewrite_loop : framed.

Lemma fileread_run s f addr n :
  f_type (kn_file s !!! f) ≠ FD_NONE → run (fileread devread f addr n) (λ _, frame s) (frameB s) s.
Proof.
  intros Ht. unfold fileread, get_file. apply run_gets. cbv beta. generalize (kn_file s !!! f) as x, Ht. clear Ht. intros x Ht.
  match goal with |- run ?m _ _ _ => enough (framed m) as Hm by apply Hm end. destruct (f_type x); [done|framed..].
Qed.

Lemma filewrite_run s f addr n :
  f_type (kn_file s !!! f) ≠ FD_NONE → run (filewrite devwrite f addr n) (λ _, frame s) (frameB s) s.
Proof.
  intros Ht. unfold filewrite, get_file. apply run_gets. cbv beta. generalize (kn_file s !!! f) as x, Ht. clear Ht. intros x Ht.
  match goal with |- run ?m _ _ _ => enough (framed m) as Hm by apply Hm end. destruct (f_type x); [done|framed..].
Qed.

(** A call on an open file, after its arguments are fetched. *)
Lemma rw_ok (m : nat → Z → Z → K Z) :
  (∀ s f a n, f_type (kn_file s !!! f) ≠ FD_NONE → run (m f a n) (λ _, frame s) (frameB s) s) →
  call_ok (r ← rw_args; match r with None => mret (-1) | Some (f, p, n) => m f p n end).
Proof.
  intros Hm X h s Hr. apply run_bind. eapply run_mono; [by eapply rw_args_run|..].
  - intros [[[f a] n]|] s1 [Hf H1]; [|by eapply frame_ready]. destruct H1 as [fd Hfd].
    pose proof (frame_ready _ _ _ _ Hr Hf) as Hr1. destruct (open_file _ _ _ _ _ _ (proj1 Hr1) (proj2 Hr1 f) Hfd) as [_ Ht].
    eapply run_mono; [apply Hm, Ht; set_solver|..]; [intros ? s2 H2; by eapply frame_ready|intros s2 H2; by eapply frameB_parked].
  - intros s1 H1. by eapply frameB_parked.
Qed.

Lemma sys_read_ok : call_ok (sys_read devread).
Proof. apply rw_ok. intros. by apply fileread_run. Qed.

Lemma sys_write_ok : call_ok (sys_write devwrite).
Proof. apply rw_ok. intros. by apply filewrite_run. Qed.

(** After [argfd]: the descriptor's file, or the end. *)
Lemma argfd_ok {A} (k : option (nat * nat) → K A) n X h s :
  ready X h s →
  (∀ s', ready X h s' → run (k None) (λ _, ready X h) (parked X h) s') →
  (∀ fd f s', ready X h s' → p_ofile (cur_proc s') !! fd = Some (Some f) → run (k (Some (fd, f))) (λ _, ready X h) (parked X h) s') →
  run (argfd n ≫= k) (λ _, ready X h) (parked X h) s.
Proof.
  intros Hr HN HS. apply run_bind. eapply run_mono; [eapply argfd_run, Hr|..].
  - intros [[fd f]|] s1 [Hf Hfd]; [apply HS|apply HN]; try done; by eapply frame_ready.
  - intros s1 H1. by eapply frameB_parked.
Qed.

Lemma sys_close_ok : call_ok (sys_close (S := S) kend).
Proof.
  intros X h s Hr. apply argfd_ok; [done|done|]. intros fd f s1 Hr1 Hfd. apply run_bind. change (run _ _ _ s1) with
    (run (fileclose kend f;; mret 0) (λ _, ready X h) (parked X h) (set_desc fd None s1)).
  apply run_bind. eapply run_mono; [eapply (fileclose_held X h (plus h f 1))|..]; [| |apply Hr1|done..].
  - eapply mid_set_desc; [apply Hr1|exact Hfd| |done|done]. intros g. unfold plus.
    destruct (decide (Some f = Some g)), (decide (g = f)); try congruence; rewrite decide_False by done; lia.
  - done.
Qed.

Lemma sys_dup_ok : call_ok (sys_dup (S := S)).
Proof.
  intros X h s Hr. apply argfd_ok; [done|done|]. intros fd f s1 Hr1 Hfd.
  destruct (open_file _ _ _ _ _ _ (proj1 Hr1) (proj2 Hr1 f) Hfd) as [Hpos Ht].
  apply run_bind. eapply run_mono; [apply fdalloc_run|..]; [|done]. intros [fd'|] s2; [|by intros ->]. intros [Hn ->].
  assert (Hm : mid X ∅ (plus h f (-1)) (set_desc fd' (Some f) s1)).
  { eapply mid_set_desc; [apply Hr1|exact Hn| |done|].
    - intros g. unfold plus. rewrite (decide_False (P := None = _)) by done.
      destruct (decide (Some f = Some g)), (decide (g = f)); try congruence; lia.
    - intros g [= <-] _. apply Ht. set_solver. }
  apply run_bind. eapply run_mono; [eapply (filedup_run _ _ _ _ f Hm); done|..]; [|done].
  intros r s2 (_ & Hm2 & _). split; [|apply Hr1]. eapply mid_ext; [exact Hm2|]. intros g. unfold plus. destruct (decide (g = f)); lia.
Qed.

(** Asleep while the call holds references, some of them to files [Y] that only it has open. *)
Lemma held_parked X Y h h1 s s' :
  mid X Y h1 s → (∀ f, h f ≤ h1 f) → (∀ f, f ∈ Y → descs ({[kn_cur s]} ∪ X) f (kn_proc s) = 0%nat) → frameB s s' → parked X h s'.
Proof.
  intros [Hb Hr] Hh HY Hf. pose proof (frameB_base _ _ _ _ _ Hb Hf) as Hb'. apply (base_parked X Y h h1 s' Hb').
  - intros Hid. apply (running_busy s Hr). unfold cur_proc in *. rewrite (fr_cur _ _ Hf) in Hid. by apply (fr_idle _ _ Hf) in Hid.
  - intros f. specialize (Hh f). lia.
  - intros f Hf'. rewrite (fr_cur _ _ Hf), (descs_ext _ _ (kn_proc s)); [by apply HY|apply Hf..].
Qed.

(** A file that is new and in one descriptor of the running process. *)
Lemma new_file_private X Y h s fd f :
  base X Y h s → 0 ≤ h f → f_ref (kn_file s !!! f) = 1 → p_ofile (cur_proc s) !! fd = Some (Some f) →
  descs ({[kn_cur s]} ∪ X) f (kn_proc s) = 0%nat.
Proof.
  intros Hb Hh H1 Hfd. pose proof (cur_lookup _ _ _ _ Hb) as Hc. destruct Hb as ([_ Hr _ _ _] & HX & _). specialize (Hr f).
  pose proof (descs_apart X f _ _ _ Hc HX). pose proof (opens_pos _ _ _ Hfd). lia.
Qed.

Lemma plus_ge h f g : 0 ≤ h g → 0 ≤ plus h f 1 g.
Proof. unfold plus. destruct (decide (g = f)); lia. Qed.

Lemma le_plus h f g : h g ≤ plus h f 1 g.
Proof. unfold plus. destruct (decide (g = f)); lia. Qed.

(** [fdalloc] of a file that the call holds. *)
Lemma fdalloc_held X Y h h1 s f fd :
  mid X Y h1 s → (∀ g, h1 g = plus h f 1 g) → p_ofile (cur_proc s) !! fd = Some None →
  mid X ({[f]} ∪ Y) h (set_desc fd (Some f) s).
Proof.
  intros Hm Hh Hfd. eapply mid_set_desc; [done|done| |set_solver|].
  - intros g. rewrite Hh. unfold plus. rewrite (decide_False (P := None = _)) by done.
    destruct (decide (Some f = Some g)), (decide (g = f)); try congruence; lia.
  - intros g [= <-]. set_solver.
Qed.

Lemma sys_open_ok : call_ok (sys_open kend devread devwrite).
Proof.
  intros X h s Hr. unfold sys_open. apply run_ready; [apply framed_argstr|done|]. intros [path|] s1 Hr1; [|done].
  apply run_ready; [apply framed_argint|done|]. intros [omode|] s2 Hr2; [|done].
  apply run_ready; [apply framed_begin|done|]. intros _ s3 Hr3.
  apply run_ready; [apply framed_liftF; quiet|done|]. intros [ip|] s4 Hr4; [|apply framed_call; [framed|done]].
  apply run_bind. eapply run_mono; [apply (filealloc_run X ∅ h); apply Hr4|..]; [|done].
  intros [f|] s5 H5; [|subst s5; apply framed_call; [framed|done]]. destruct H5 as (Hm5 & _ & _ & H1 & _).
  apply run_bind. eapply run_mono; [apply fdalloc_run|..]; [|done].
  intros [fd|] s6 H6.
  - destruct H6 as [Hfd ->]. pose proof (fdalloc_held X ∅ h _ _ f fd Hm5 (λ g, eq_refl) Hfd) as Hm6.
    set (s6 := set_desc fd (Some f) s5) in *.
    assert (Hd : descs ({[kn_cur s6]} ∪ X) f (kn_proc s6) = 0%nat).
    { apply (new_file_private X ({[f]} ∪ ∅) h s6 fd); [apply Hm6|apply Hr| |].
      - exact H1.
      - unfold s6. rewrite (cur_set_desc X ∅ (plus h f 1)) by apply Hm5. rewrite list_lookup_insert_eq; [done|by eapply lookup_lt_Some]. }
    assert (Hp : ∀ s', frameB s6 s' → parked X h s').
    { intros s' Hf. eapply (held_parked X ({[f]} ∪ ∅) h h s6); [done|done| |done]. intros g Hg. by replace g with f by set_solver. }
    apply run_framed; [apply framed_liftF; quiet|done|]. intros _ s7 H7.
    apply run_framed; [apply framed_end|intros s8 H8; apply Hp; eapply frameB_trans; [apply H7|done]|]. intros _ s8 H8.
    pose proof (frame_mid _ _ _ _ _ Hm6 (frame_trans _ _ _ H7 H8)) as [Hb8 Hr8]. split; [|apply Hr].
    eapply mid_ext; [split; [eapply (base_file X _ ∅ h s8 f _ 0 Hb8)|exact Hr8]|]; cbn.
    + apply ref_lt. rewrite (fr_ref _ _ (proj1 (frame_trans _ _ _ H7 H8))). change (f_ref (kn_file s5 !!! f) ≠ 0). lia.
    + lia.
    + rewrite (fr_ref _ _ (proj1 (frame_trans _ _ _ H7 H8))). change (f_ref (kn_file s5 !!! f) = 0 → FD_INODE = FD_NONE). lia.
    + done.
    + set_solver.
    + intros g. unfold plus. destruct (decide (g = f)); lia.
  - subst s6. apply run_bind. eapply run_mono; [by eapply (fileclose_held X h (plus h f 1)); [|done|apply Hr]|..]; [|done].
    intros [] s6 Hr6. apply framed_call; [framed|done].
Qed.

(** Closing two files that the call holds. *)
Lemma close_two {A} (a : A) X h h1 s r w :
  mid X ∅ h1 s → (∀ g, h1 g = plus (plus h w 1) r 1 g) → (∀ g, 0 ≤ h g) →
  run (fileclose kend r;; fileclose kend w;; mret a) (λ x s', x = a ∧ ready X h s') (parked X h) s.
Proof.
  intros Hm Hh1 Hh. apply run_bind. eapply run_mono; [eapply (fileclose_held X (plus h w 1) h1); [done|done|]|..].
  - intros g. by apply plus_ge.
  - intros [] s1 [Hm1 _]. apply run_bind. eapply run_mono; [by eapply (fileclose_held X h (plus h w 1))|..]; [by intros [] s2|done].
  - intros s1 H1. eapply parked_mono; [exact H1|]. intros g. apply le_plus.
Qed.

(** Giving a type to a held file. *)
Lemma mid_type X h s f (g : file → file) :
  mid X ∅ h s → 1 ≤ f_ref (kn_file s !!! f) → (∀ x, f_ref (g x) = f_ref x) → (∀ x, f_type (g x) ≠ FD_NONE) →
  mid X ∅ h (with_file (alter g f (kn_file s)) s).
Proof.
  intros [Hb Hr] Hf Hg Ht. eapply mid_ext; [split; [eapply (base_file X ∅ ∅ h s f g 0 Hb)|exact Hr]|].
  - apply ref_lt. lia.
  - rewrite Hg. lia.
  - rewrite Hg. lia.
  - by intros _ ?%Ht.
  - set_solver.
  - intros f'. unfold plus. destruct (decide (f' = f)); lia.
Qed.

(** The error path of [pipealloc] closes what was allocated. *)
Lemma pipealloc_bad_run X h h1 s r (w : option nat) :
  mid X ∅ h1 s → (∀ g, h1 g = plus (match w with Some w => plus h w 1 | None => h end) r 1 g) → (∀ g, 0 ≤ h g) →
  run (pipealloc_bad kend (Some r) w 0) (λ x s', x = None ∧ ready X h s') (parked X h) s.
Proof.
  intros Hm Hh1 Hh. destruct w as [w|].
  - exact (close_two None X h h1 s r w Hm Hh1 Hh).
  - change (run (fileclose kend r;; mret None) (λ x s', x = None (A := nat * nat) ∧ ready X h s') (parked X h) s).
    apply run_bind. eapply run_mono; [by eapply (fileclose_held X h h1)|..]; [by intros [] s2|done].
Qed.

Lemma pipealloc_run X h s :
  ready X h s →
  run (pipealloc kend) (λ x s', match x with
    | None => ready X h s'
    | Some (r, w) => mid X ∅ (plus (plus h w 1) r 1) s' ∧ f_type (kn_file s' !!! r) ≠ FD_NONE ∧ f_type (kn_file s' !!! w) ≠ FD_NONE
    end) (parked X h) s.
Proof.
  intros [Hm Hh]. unfold pipealloc. apply run_bind. eapply run_mono; [by apply (filealloc_run X ∅ h)|..]; [|done].
  intros [r|] s1 H1; [|by subst]. destruct H1 as (Hm1 & _ & _ & H1 & _).
  apply run_bind. eapply run_mono; [apply (filealloc_run X ∅ (plus h r 1)); [done|intros; by apply plus_ge]|..]; [|done].
  intros [w|] s2 H2.
  2: { subst s2. eapply run_mono; [by apply (pipealloc_bad_run X h _ s1 r None Hm1)|..]; [|done]. by intros x s' [-> ?]. }
  destruct H2 as (Hm2 & _ & H20 & H21 & H2o). assert (Hne : r ≠ w) by (intros ->; lia).
  assert (Hext : ∀ g, plus (plus h r 1) w 1 g = plus (plus h w 1) r 1 g).
  { intros g. unfold plus. destruct (decide (g = w)), (decide (g = r)); lia. }
  apply (mid_ext _ _ _ _ _ Hm2) in Hext as Hm2'.
  apply run_framed; [apply framed_liftK; quiet| |].
  { intros s' Hf. eapply (held_parked X ∅); [exact Hm2'| |set_solver|done]. intros g. unfold plus. destruct (decide (g = w)), (decide (g = r)); lia. }
  intros p s3 H3. pose proof (frame_mid _ _ _ _ _ Hm2' H3) as Hm3. destruct (p =? 0).
  { eapply run_mono; [by apply (pipealloc_bad_run X h _ s3 r (Some w) Hm3)|..]; [|done]. by intros x s' [-> ?]. }
  apply run_bind. unfold run at 1, getS. apply run_framed; [unfold put_pipe; framed| |].
  { intros s' Hf. eapply (held_parked X ∅); [exact Hm3| |set_solver|done]. intros g. unfold plus. destruct (decide (g = w)), (decide (g = r)); lia. }
  intros _ s4 H4. pose proof (frame_mid _ _ _ _ _ Hm3 H4) as Hm4.
  assert (Hrefs : f_ref (kn_file s4 !!! r) = 1 ∧ f_ref (kn_file s4 !!! w) = 1).
  { rewrite !(fr_ref _ _ (proj1 H4)), !(fr_ref _ _ (proj1 H3)). by rewrite H2o. }
  destruct Hrefs as [Hr4 Hw4]. unfold run. cbn. split_and!.
  - apply mid_type; [apply mid_type; [done|lia|done|done]| |done|done]. cbn. rewrite list_lookup_total_alter_ne by done. lia.
  - cbn. rewrite list_lookup_total_alter_ne, list_lookup_total_alter_eq; [done|apply ref_lt; lia|done].
  - cbn. rewrite list_lookup_total_alter_eq; [done|]. rewrite length_alter. apply ref_lt. lia.
Qed.

Lemma sys_pipe_ok : call_ok (sys_pipe (S := S) kend).
Proof.
  intros X h s Hr. unfold sys_pipe. apply run_ready; [apply framed_argptr|done|]. intros [fdp|] s1 Hr1; [|done].
  apply run_bind. eapply run_mono; [by apply (pipealloc_run X h)|..]; [|done]. intros [[rf wf]|] s2 H2; [|done]. destruct H2 as (Hm2 & Htr & Htw).
  destruct Hr as [_ Hh]. apply run_bind. eapply run_mono; [apply fdalloc_run|..]; [|done]. intros [fd0|] s3 H3.
  2: { subst s3. eapply run_mono; [by apply (close_two (-1) X h _ s2 rf wf Hm2)|..]; [|done]. by intros x s' [_ ?]. }
  destruct H3 as [Hfd0 ->]. set (s3 := set_desc fd0 (Some rf) s2) in *.
  assert (Hm3 : mid X ∅ (plus h wf 1) s3).
  { pose proof (fdalloc_held X ∅ _ _ s2 rf fd0 Hm2 (λ g, eq_refl) Hfd0) as [Hb Hrn]. split; [|done]. eapply base_untype; [exact Hb|by left]. }
  apply run_bind. eapply run_mono; [apply fdalloc_run|..]; [|done]. intros [fd1|] s4 H4.
  - destruct H4 as [Hfd1 ->]. apply framed_call; [framed|]. split; [|done].
    pose proof (fdalloc_held X ∅ _ _ s3 wf fd1 Hm3 (λ g, eq_refl) Hfd1) as [Hb Hrn]. split; [|done]. eapply base_untype; [exact Hb|by left].
  - subst s4. apply run_bind. unfold run at 1, upd_cur, modify.
    eapply run_mono; [apply (close_two (-1) X h (plus (plus h wf 1) rf 1) (set_desc fd0 None s3) rf wf)|..]; [|done|done| |done]; [|by intros x s' [_ ?]].
    eapply mid_set_desc; [exact Hm3| | |done|done].
    + unfold s3. rewrite (cur_set_desc X ∅ (plus (plus h wf 1) rf 1)) by apply Hm2. rewrite list_lookup_insert_eq; [done|by eapply lookup_lt_Some].
    + intros g. rewrite (decide_False (P := None = _)) by done. unfold plus at 1.
      destruct (decide (Some rf = Some g)), (decide (g = rf)); try congruence; lia.
Qed.

(** ** Processes *)

Lemma run_liftK {A C} (m : M kst A) (k : A → K C) Q B s :
  quiet m → (∀ x, B (with_k x s)) → (∀ a x, run (k a) Q B (with_k x s)) → run (liftK m ≫= k) Q B s.
Proof. intros Hm HB Hk. apply run_bind. unfold run at 1, liftK, lift. specialize (Hm (kn_k s)). by destruct (m (kn_k s)). Qed.

Lemma framed_wait : framed (S := S) (wait kend).
Proof.
  intros s. unfold wait. apply run_bind. unfold run at 1, getS. destruct (wait_scan _ _ _ _) as [[i|] hk] eqn:E.
  - apply wait_scan_Some in E as (j & p & -> & Hp & Hz & _). cbn [Nat.add].
    apply run_liftK; [quiet|by split|]. intros _ x. apply run_liftK; [quiet|by split|]. intros _ y.
    apply (frame_trans _ (with_k y (with_k x s))); [split; [by split|done]|]. apply frame_alter. cbn.
    rewrite (list_lookup_total_correct _ _ _ Hp). split_and!; [done|by right|by rewrite Hz].
  - match goal with |- run ?m _ _ _ => enough (framed m) as Hm by apply Hm end. framed.
Qed.

(** [allocproc] takes an unused slot. *)
Lemma allocproc_run s :
  run (allocproc forkret trapret) (λ r s', frame s s' ∧ match r with
    | None => True
    | Some np => (np < length (kn_proc s))%nat ∧ p_state (kn_proc s !!! np) = UNUSED ∧ p_state (kn_proc s' !!! np) = EMBRYO
    end) (frameB s) s.
Proof.
  unfold allocproc. apply run_bind. unfold run at 1, getS. destruct (find_state _ _ _) as [i|] eqn:E; [|split; [apply frame_refl|done]].
  apply find_state_Some in E as (k & p & -> & Hp & Hst). cbn [Nat.add]. pose proof (list_lookup_total_correct _ _ _ Hp) as Hp'.
  apply run_bind. unfold run at 1, upd_proc, modify. apply run_bind. unfold run at 1.
  set (g := λ p, set_pid (kn_nextpid s) (set_state EMBRYO p)).
  assert (H1 : frame s (with_proc (alter g k (kn_proc s)) s)).
  { apply frame_alter. rewrite Hp'. split_and!; [done|by intros [|]|by rewrite Hst]. }
  set (s1 := with_nextpid _ _). assert (Hs1 : frame s s1) by (apply (frame_trans _ _ _ H1); split; [by split|done]).
  apply run_liftK; [quiet|intros x; apply (frameB_trans _ s1); [apply Hs1|by split]|]. intros ks x. destruct (ks =? 0).
  - split; [|done]. apply (frame_trans _ (with_proc (alter (λ p, set_state UNUSED (set_stack 0 (p_tf p) (p_context p) p)) k (alter g k (kn_proc s))) s)); [|split; [by split|done]].
    rewrite list_alter_alter_eq. apply frame_alter. rewrite Hp'. split_and!; [done|by left|cbn; by rewrite Hst].
  - assert (Hlt : (k < length (kn_proc s))%nat) by (by eapply lookup_lt_Some).
    apply run_liftK; [quiet|intros y; apply (frameB_trans _ s1); [apply Hs1|by split]|]. intros _ y.
    apply run_bind. unfold run at 1, upd_proc, modify. set (s2 := with_proc _ _).
    assert (Hs2 : frame s s2).
    { apply (frame_trans _ (with_k y (with_k x s1))); [apply (frame_trans _ _ _ Hs1); split; [by split|done]|]. apply frame_alter. by repeat split. }
    apply run_liftK; [quiet|intros z; apply (frameB_trans _ s2); [apply Hs2|by split]|]. intros _ z.
    apply run_liftK; [quiet|intros v; apply (frameB_trans _ s2); [apply Hs2|by split]|]. intros _ v.
    split; [apply (frame_trans _ _ _ Hs2); split; [by split|done]|]. split_and!; [done|by rewrite Hp'|]. unfold s2. cbn.
    rewrite (alter_field p_state) by done. by rewrite list_lookup_total_alter_eq.
Qed.

(** The child of a fork in progress. *)
Definition child (X : gset nat) (np : nat) s : Prop :=
  (np < length (kn_proc s))%nat ∧ (np ∉ X) ∧ np ≠ kn_cur s ∧ ¬ idle (kn_proc s !!! np).

Lemma frame_child X np s s' : child X np s → frame s s' → child X np s'.
Proof.
  intros (Hl & HX & Hc & Hi) [[Fc _ _ _ _ Fl _ Fi] _]. split_and!; [by rewrite Fl|done|by rewrite Fc|]. intros ?%Fi. done.
Qed.

(** An update of a process that keeps its table. *)
Lemma base_upd X Y h s np g :
  base X Y h s → (∀ p, p_ofile (g p) = p_ofile p) →
  (idle (g (kn_proc s !!! np)) → (np ∉ X) ∧ Forall (λ o, o = None) (p_ofile (kn_proc s !!! np))) →
  base X Y h (with_proc (alter g np (kn_proc s)) s).
Proof.
  intros ([Ht Hr Hi Hf Hty] & HX & Hc) Hg Hid.
  assert (Hlk : ∀ j q, alter g np (kn_proc s) !! j = Some q → ∃ p, kn_proc s !! j = Some p ∧ p_ofile q = p_ofile p ∧
    (idle q → (j ∉ X) ∧ Forall (λ o, o = None) (p_ofile p))).
  { intros j q' Hq. destruct (decide (np = j)) as [<-|Hnj].
    - rewrite list_lookup_alter_eq in Hq. destruct (kn_proc s !! np) as [p|] eqn:Hp; [|done]. simplify_eq/=. exists p.
      rewrite (list_lookup_total_correct _ _ _ Hp) in Hid. done.
    - rewrite list_lookup_alter_ne in Hq by done. exists q'. split_and!; [done..|]. by apply Hi. }
  split; [|by cbn; rewrite length_alter]. split; cbn [kn_file kn_proc with_proc].
  - intros i q' (p & Hp & -> & _)%Hlk. by eapply Ht.
  - intros f. rewrite Hr, (descs_ext X f (kn_proc s) (alter g np (kn_proc s))); [done|apply length_alter|]. intros i. by apply alter_field.
  - intros i q' (p & Hp & -> & Hq)%Hlk. done.
  - done.
  - intros i q' fd f (p & Hp & -> & _)%Hlk. by eapply Hty.
Qed.

Lemma ready_upd X h s np g :
  ready X h s → np ≠ kn_cur s → (∀ p, p_ofile (g p) = p_ofile p) →
  (idle (g (kn_proc s !!! np)) → (np ∉ X) ∧ Forall (λ o, o = None) (p_ofile (kn_proc s !!! np))) →
  ready X h (with_proc (alter g np (kn_proc s)) s).
Proof.
  intros [[Hb Hrn] Hh] Hne Hg Hid. split; [|done]. split; [by apply base_upd|].
  unfold running, cur_proc. cbn. by rewrite list_lookup_total_alter_ne.
Qed.

(** The loop of [fork] over the parent's table. *)
Lemma dup_files_run X h np fs i s :
  ready X h s → child X np s →
  (∀ j f, fs !! j = Some (Some f) → p_ofile (cur_proc s) !! (i + j)%nat = Some (Some f)) →
  (∀ j, (j < length fs)%nat → p_ofile (kn_proc s !!! np) !! (i + j)%nat = Some None) →
  run (dup_files np fs i) (λ _ s', ready X h s' ∧ child X np s') (λ _, False) s.
Proof.
  revert i s. induction fs as [|[f|] fs IH]; intros i s Hr Hc Hcur Hnp; cbn [dup_files].
  - done.
  - destruct (open_file _ _ _ _ _ _ (proj1 Hr) (proj2 Hr f) (Hcur 0%nat f eq_refl)) as [Hpos Ht].
    apply run_bind. eapply run_mono; [eapply (filedup_run X ∅ h s f); [apply Hr|done]|..]; [|done].
    intros r s1 (-> & [Hb1 Hr1] & Hp1 & Hc1 & Ht1). apply run_bind. unfold run at 1, upd_proc, modify.
    destruct Hc as (Hl & HX & Hne & Hid).
    assert (Hb2 : base X ∅ h (with_proc (alter (λ p, set_ofile (<[i := Some f]> (p_ofile p)) p) np (kn_proc s1)) s1)).
    { eapply (base_table X ∅ ∅ (plus h f 1) h s1 np (kn_proc s !!! np) i None (Some f) Hb1).
      - rewrite Hp1. by apply list_lookup_lookup_total_lt.
      - done.
      - done.
      - specialize (Hnp 0%nat). rewrite Nat.add_0_r in Hnp. apply Hnp. cbn. lia.
      - intros g. unfold plus. rewrite (decide_False (P := None = _)) by done.
        destruct (decide (Some f = Some g)), (decide (g = f)); try congruence; lia.
      - done.
      - intros g [= <-] _. rewrite Ht1. apply Ht. set_solver. }
    set (s2 := with_proc _ _) in *. apply IH.
    + split; [|apply Hr]. split; [exact Hb2|]. unfold running, cur_proc in *. unfold s2. cbn. by rewrite (alter_field p_state).
    + unfold s2. split_and!; [cbn; by rewrite length_alter, Hp1|done|cbn; by rewrite Hc1|]. cbn. unfold idle. rewrite (alter_field p_state), Hp1 by done. done.
    + intros j g Hg. unfold s2, cur_proc. cbn. rewrite Hc1, Hp1. rewrite list_lookup_total_alter_ne by done.
      specialize (Hcur (Datatypes.S j) g Hg). by rewrite Nat.add_succ_r in Hcur.
    + intros j Hj. unfold s2. cbn. rewrite Hp1, list_lookup_total_alter_eq by done. cbn. rewrite list_lookup_insert_ne by lia.
      specialize (Hnp (Datatypes.S j)). rewrite Nat.add_succ_r in Hnp. apply Hnp. cbn. lia.
  - apply IH; [done..| |].
    + intros j f Hj. specialize (Hcur (Datatypes.S j) f Hj). by rewrite Nat.add_succ_r in Hcur.
    + intros j Hj. specialize (Hnp (Datatypes.S j)). rewrite Nat.add_succ_r in Hnp. apply Hnp. cbn. lia.
Qed.

(** The slot that [allocproc] returns to [fork]. *)
Lemma new_child X h s s1 np :
  ready X h s → frame s s1 → (np < length (kn_proc s))%nat → p_state (kn_proc s !!! np) = UNUSED → p_state (kn_proc s1 !!! np) = EMBRYO →
  child X np s1 ∧ Forall (λ o, o = None) (p_ofile (kn_proc s1 !!! np)) ∧ length (p_ofile (kn_proc s1 !!! np)) = NOFILE.
Proof.
  intros [[([Ht _ Hi _ _] & _) Hrn] _] [[Fc _ _ _ _ Fl Ft _] _] Hlt Hu He. pose proof (list_lookup_lookup_total_lt _ _ Hlt) as Hp.
  destruct (Hi np _ Hp (or_introl Hu)) as [HX Hn]. rewrite Ft. split_and!; [|done|by eapply Ht].
  split_and!; [by rewrite Fl|done| |].
  - rewrite Fc. intros ->. unfold running, cur_proc in Hrn. congruence.
  - unfold idle. rewrite He. by intros [|].
Qed.

Lemma empty_table (l : list (option nat)) i : Forall (λ o, o = None) l → (i < length l)%nat → l !! i = Some None.
Proof. intros Hl [o Ho]%lookup_lt_is_Some_2. rewrite Ho. f_equal. by eapply (Forall_lookup_1 _ _ _ _ Hl). Qed.

Lemma sys_fork_ok : call_ok (sys_fork (S := S) kend data forkret trapret).
Proof.
  intros X h s Hr. unfold sys_fork, fork. apply run_gets. apply run_bind. eapply run_mono; [apply allocproc_run|..]; [|intros s' Hf; by eapply frameB_parked].
  intros [np|] s1 [H1 Hnp]; [|by eapply frame_ready]. destruct Hnp as (Hlt & Hu & He).
  destruct (new_child X h s s1 np Hr H1 Hlt Hu He) as (Hch & Hnone & Hlen). pose proof (frame_ready _ _ _ _ Hr H1) as Hr1.
  pose proof (frame_table _ _ H1) as Htab.
  apply run_framed; [apply framed_liftK; quiet|intros s' Hf; by eapply frameB_parked|]. intros pgdir s2 H2. apply run_gets. cbv beta.
  destruct (pgdir =? 0).
  - apply run_framed; [framed|intros s' Hf; eapply frameB_parked; [eapply frame_ready|]; done|]. intros _ s3 H3.
    pose proof (frame_trans _ _ _ H2 H3) as H13.
    apply run_framed; [framed|intros s' Hf; eapply frameB_parked; [eapply frame_ready; [exact Hr1|exact H13]|done]|]. intros _ s4 H4.
    pose proof (frame_trans _ _ _ H13 H4) as H14. destruct (frame_child _ _ _ _ Hch H14) as (_ & HX & Hne & _).
    apply ready_upd; [by eapply frame_ready|done|done|]. intros _. split; [done|]. by rewrite (fr_table _ _ (proj1 H14)).
  - apply run_bind. unfold run at 1, getS.
    pose proof (frame_ready _ _ _ _ Hr1 H2) as Hr2.
    apply run_framed; [framed|intros s' Hf; by eapply frameB_parked|]. intros _ s3 H3. pose proof (frame_ready _ _ _ _ Hr2 H3) as Hr3.
    apply run_framed; [framed|intros s' Hf; by eapply frameB_parked|]. intros _ s4 H4. pose proof (frame_ready _ _ _ _ Hr3 H4) as Hr4.
    apply run_framed; [framed|intros s' Hf; by eapply frameB_parked|]. intros _ s5 H5. pose proof (frame_ready _ _ _ _ Hr4 H5) as Hr5.
    pose proof (frame_trans _ _ _ H2 (frame_trans _ _ _ H3 (frame_trans _ _ _ H4 H5))) as H15.
    apply run_bind. eapply run_mono; [apply (dup_files_run X h np (p_ofile (cur_proc s)) 0 s5 Hr5)|..]; [by eapply frame_child|..].
    + intros j f Hj. by rewrite (frame_table _ _ H15), Htab.
    + intros j Hj. rewrite (fr_table _ _ (proj1 H15)). cbn [Nat.add]. apply (empty_table _ j) in Hnone as ->; [done|]. rewrite Hlen. destruct Hr as [[Hb _] _]. pose proof (cur_lookup _ _ _ _ Hb) as Hcl. destruct Hb as ([Ht _ _ _ _] & _). by rewrite <-(Ht _ _ Hcl).
    + intros _ s6 [Hr6 Hc6]. apply run_framed; [framed|intros s' Hf; by eapply frameB_parked|]. intros cwd s7 H7.
      apply run_framed; [framed|intros s' Hf; eapply frameB_parked; [by eapply frame_ready|done]|]. intros _ s8 H8.
      pose proof (frame_trans _ _ _ H7 H8) as H68. destruct (frame_child _ _ _ _ Hc6 H68) as (_ & _ & Hne & _).
      apply ready_upd; [by eapply frame_ready|done|done|]. by intros [|].
    + done.
Qed.

Lemma run_mfor (Inv : nat → kern S → Prop) B n f from s :
  Inv from s → (∀ j s, (from ≤ j < from + n)%nat → Inv j s → run (f j) (λ _, Inv (Datatypes.S j)) B s) →
  run (mfor from n f) (λ _, Inv (from + n)%nat) B s.
Proof.
  revert from s. induction n as [|n IH]; intros from s Hi Hf; cbn [mfor]; [by rewrite Nat.add_0_r|].
  apply run_bind. eapply run_mono; [apply Hf; [lia|done]|..]; [|done]. intros [] s' Hi'. rewrite Nat.add_succ_r.
  apply (IH (Datatypes.S from)); [done|]. intros. apply Hf; [lia|done].
Qed.

(** [exit] closes a descriptor: the file first, then the table. *)
Lemma close_desc X h s fd f :
  ready X h s → p_ofile (cur_proc s) !! fd = Some (Some f) →
  run (fileclose kend f;; upd_cur (λ p, set_ofile (<[fd := None]> (p_ofile p)) p))
    (λ _ s', ready X h s' ∧ p_ofile (cur_proc s') = <[fd := None]> (p_ofile (cur_proc s))) (parked X h) s.
Proof.
  intros [Hm Hh] Hfd. destruct (open_file _ _ _ _ _ _ Hm (Hh f) Hfd) as [Hpos _].
  destruct (mid_closed _ _ _ _ _ Hm Hpos) as [Hm' Hr']. set (Z := if f_ref (kn_file s !!! f) =? 1 then {[f]} ∪ ∅ else ∅ : gset nat) in *.
  assert (Hfd' : p_ofile (cur_proc (closed f s)) !! fd = Some (Some f)) by exact Hfd.
  apply run_bind. eapply run_mono; [by apply fileclose_run|..].
  - intros [] s1 H1. pose proof (frame_mid _ _ _ _ _ Hm' H1) as Hm1.
    assert (Hfd1 : p_ofile (cur_proc s1) !! fd = Some (Some f)) by (by rewrite (frame_table _ _ H1)).
    assert (Hm2 : mid X Z h (set_desc fd None s1)).
    { eapply mid_set_desc; [exact Hm1|exact Hfd1| |done|done]. intros g. rewrite (decide_False (P := None = _)) by done. unfold plus.
      destruct (decide (Some f = Some g)), (decide (g = f)); try congruence; lia. }
    change (ready X h (set_desc fd None s1) ∧ p_ofile (cur_proc (set_desc fd None s1)) = <[fd := None]> (p_ofile (cur_proc s))).
    split; [|rewrite (cur_set_desc X Z (plus h f (-1))) by apply Hm1; by rewrite (frame_table _ _ H1)].
    split; [|done]. destruct (Z.eqb_spec (f_ref (kn_file s !!! f)) 1) as [He|]; [|done]. destruct Hm2 as [Hb2 Hr2]. split; [|done].
    eapply base_untype; [exact Hb2|]. right. destruct Hb2 as ([_ Hrf _ _ _] & _). specialize (Hrf f). specialize (Hh f).
    change (kn_file (set_desc fd None s1)) with (kn_file s1) in Hrf. rewrite (fr_ref _ _ (proj1 H1)) in Hrf. lia.
  - intros s1 H1. destruct Hm' as [Hb' Hr1]. pose proof (frameB_base _ _ _ _ _ Hb' H1) as Hb1.
    assert (Htab : p_ofile (cur_proc s1) = p_ofile (cur_proc s)) by (unfold cur_proc; by rewrite (fr_table _ _ H1), (fr_cur _ _ H1)).
    apply (base_parked X Z h (plus h f (-1)) s1 Hb1).
    + intros Hid. apply (running_busy _ Hr1). unfold cur_proc in *. rewrite (fr_cur _ _ H1) in Hid. by apply (fr_idle _ _ H1) in Hid.
    + intros g. rewrite Htab. unfold plus. destruct (decide (g = f)) as [->|]; [|lia]. pose proof (opens_pos _ _ _ Hfd). lia.
    + intros g Hg. unfold Z in Hg. destruct (Z.eqb_spec (f_ref (kn_file s !!! f)) 1) as [He|]; [|set_solver]. replace g with f by set_solver.
      pose proof (cur_lookup _ _ _ _ Hb1) as Hcl. destruct Hb1 as ([_ Hrf _ _ _] & HX & _). specialize (Hrf f).
      rewrite (fr_ref _ _ H1), plus_eq in Hrf. pose proof (descs_apart X f _ _ _ Hcl HX) as Hd. rewrite Htab in Hd. pose proof (opens_pos _ _ _ Hfd).
      specialize (Hh f). lia.
Qed.

Lemma close_all_run X h s :
  ready X h s →
  run (close_all kend) (λ _ s', ready X h s' ∧ Forall (λ o, o = None) (p_ofile (cur_proc s'))) (parked X h) s.
Proof.
  intros Hr. set (Inv j s := ready X h s ∧ length (p_ofile (cur_proc s)) = NOFILE ∧ ∀ i, (i < j)%nat → p_ofile (cur_proc s) !! i = Some None).
  eapply run_mono; [apply (run_mfor Inv (parked X h) NOFILE _ 0 s)|..]; [| | |done].
  - split_and!; [done| |lia]. destruct Hr as [[Hb _] _]. pose proof (cur_lookup _ _ _ _ Hb) as Hcl. destruct Hb as ([Ht _ _ _ _] & _). by eapply Ht.
  - intros j s1 Hj (Hr1 & Hl & Hi). apply run_gets. cbv beta.
    assert (Hjl : (j < length (p_ofile (cur_proc s1)))%nat) by lia. pose proof (list_lookup_lookup_total_lt _ _ Hjl) as Hlk.
    destruct (p_ofile (cur_proc s1) !!! j) as [f|].
    + eapply run_mono; [by apply close_desc|..]; [|done]. intros ? s2 [Hr2 Ht2]. split_and!; [done|by rewrite Ht2, length_insert|].
      intros i Hi2. rewrite Ht2. destruct (decide (i = j)) as [->|]; [by rewrite list_lookup_insert_eq|]. rewrite list_lookup_insert_ne by done. apply Hi. lia.
    + split_and!; [done|done|]. intros i Hi2. destruct (decide (i = j)) as [->|]; [done|]. apply Hi. lia.
  - intros ? s1 (Hr1 & Hl & Hi). split; [done|]. apply Forall_lookup_2. intros i o Ho. rewrite Hi in Ho; [by simplify_eq|].
    apply lookup_lt_Some in Ho. cbn. lia.
Qed.

(** The end of [exit]: a zombie without descriptors. *)
Lemma zombie_parked X h s :
  ready X h s → Forall (λ o, o = None) (p_ofile (cur_proc s)) →
  run (upd_cur (set_state ZOMBIE)) (λ _, run (A := Z) sched (λ _, ready X h) (parked X h)) (parked X h) s.
Proof.
  intros [[Hb Hr] Hh] Hn. pose proof Hb as (_ & HX & Hc).
  assert (Hz : p_state (cur_proc (with_proc (alter (set_state ZOMBIE) (kn_cur s) (kn_proc s)) s)) = ZOMBIE).
  { unfold cur_proc. cbn. by rewrite list_lookup_total_alter_eq. }
  unfold run at 1, upd_cur, modify. unfold sched. apply run_gets. cbv beta. rewrite bool_decide_eq_false_2 by (by rewrite Hz).
  exists X, h. split; [set_solver|]. split; [|done].
  apply (base_upd X ∅ h s (kn_cur s) (set_state ZOMBIE)); [done|done|]. by intros _.
Qed.

Lemma run_closed {A C} (m : K A) (k : A → K C) Q X h s :
  framed m → ready X h s ∧ Forall (λ o, o = None) (p_ofile (cur_proc s)) →
  (∀ a s', ready X h s' ∧ Forall (λ o, o = None) (p_ofile (cur_proc s')) → run (k a) Q (parked X h) s') → run (m ≫= k) Q (parked X h) s.
Proof.
  intros Hm [Hr Hn] Hk. apply run_framed; [done|intros s' Hf; by eapply frameB_parked|]. intros a s' Hf. apply Hk.
  split; [by eapply frame_ready|by rewrite (frame_table _ _ Hf)].
Qed.

Lemma sys_exit_ok : call_ok (sys_exit (S := S) kend).
Proof.
  intros X h s Hr. unfold sys_exit, exit. apply run_bind. unfold run at 1, getS. destruct (bool_decide _); [done|].
  apply run_bind. eapply run_mono; [by apply close_all_run|..]; [|done]. intros [] s1 H1.
  apply run_closed; [framed|done|]. intros _ s2 H2. apply run_closed; [framed|done|]. intros _ s3 H3.
  apply run_closed; [framed|done|]. intros _ s4 H4. apply run_closed; [framed|done|]. intros _ s5 H5.
  apply run_bind. unfold exit_locked. apply run_gets. apply run_closed; [framed|done|]. intros _ s6 H6.
  apply run_closed; [framed|done|]. intros _ s7 [H7 Hn]. by apply zombie_parked.
Qed.

#[local] Hint Resolve framed_sys_exec framed_sys_kill framed_sys_chdir framed_sys_sbrk framed_sys_sleep framed_sys_mknod framed_sys_mkdir
  framed_sys_unlink framed_sys_link framed_sys_fstat framed_wait : framed.
#[local] Hint Resolve sys_read_ok sys_write_ok sys_close_ok sys_dup_ok sys_open_ok sys_pipe_ok sys_fork_ok sys_exit_ok : calls.

(** C7. Every system call keeps the reference counts of open files: the count of a file is the
    number of descriptors that name it over all processes plus the references that calls asleep
    in the middle hold; a call that returns leaves no reference behind, one that goes to sleep
    leaves the other processes counted as before, every open descriptor names a file in use, and
    no panic of the file table is reached. *)
Theorem file_references num call X h s :
  syscalls kend data forkret trapret devread devwrite num = Some call → ready X h s →
  match call s with
  | Ok _ s' => ready X h s'
  | Blocked s' => parked X h s'
  | Panic msg => msg ∉ ["filedup"; "fileclose"; "fileread"; "filewrite"]
  end.
Proof.
  intros Hcall Hr. assert (Hok : call_ok call).
  { unfold syscalls in Hcall. repeat match type of Hcall with context [match ?x with _ => _ end] => destruct x end; simplify_eq;
      first [solve [auto with calls]|apply framed_ok; framed]. }
  specialize (Hok X h s Hr). unfold run in Hok. destruct (call s) as [| |msg]; [done..|]. intros Hin.
  repeat (apply elem_of_cons in Hin as [->|Hin]; [done|]). by apply elem_of_nil in Hin.
Qed.
End calls.
