(* ===== verification/ExecStack.v ===== *)
(** * The stack that exec builds (src/exec.c)

    The argument strings, their addresses, argc and argv, in the top page of the
    new address space, above a page that the user cannot touch. *)

From S2P Require Import Prelude Fcntl Dll Sleeplock Bio Memide FsLayout Log LogCrash LogProtocol Tx CString Fs Pipe Kalloc Vm PageTable AddrSpace Kernel File Proc Sysfile Syscall.

(** ** The guard page *)

Section guard.
Variable kend : Z.
Hypothesis Hkend : KERNBASE < kend.

Lemma clear_u e : let e' := Z.land e (Z.lnot PTE_U) in present e' = present e ∧ table e' = table e ∧ Z.land e' PTE_U = 0.
Proof.
  cbv zeta. unfold present, table, PTE_ADDR. rewrite <-!Z.land_assoc.
  change (Z.land (Z.lnot PTE_U) PTE_P) with PTE_P. change (Z.land (Z.lnot PTE_U) (Z.lnot 4095)) with (Z.lnot 4095).
  change (Z.land (Z.lnot PTE_U) PTE_U) with 0. by rewrite Z.land_0_r.
Qed.

Lemma upage_of a : 0 ≤ a < KERNBASE → upage (a / PGSIZE).
Proof. intros. unfold upage, KERNBASE, PGSIZE in *. split; [apply Z.div_pos; lia|apply Z.div_lt_upper_bound; lia]. Qed.

(** [clearpteu] takes one page away from the user, and keeps the rest. *)
Lemma clearpteu_ok s d l n :
  as_ok kend s d l → upage n → present (pte (k_mem s) d n) = true →
  wp (clearpteu d (PGSIZE * n)) (λ _ s', as_ok kend s' d l ∧
    ∀ a, 0 ≤ a < KERNBASE → ubyte (k_mem s') d a = if decide (a / PGSIZE = n) then None else ubyte (k_mem s) d a) s.
Proof.
  intros Hok Hn Hp. pose proof Hok as [Hvm Hfr Hinj]. pose proof (vi_dir _ _ _ Hvm) as Hd.
  assert (Hn' : 0 ≤ n < 2 ^ 20) by (unfold upage in Hn; lia).
  assert (Hpd : present (pde (k_mem s) d (n / 1024)) = true) by (unfold pte in Hp; by destruct (present (pde _ _ _))).
  assert (En : PGSIZE * n / PGSIZE = n) by (rewrite Z.mul_comm; by apply Z.div_mul).
  unfold clearpteu. apply wp_bind. eapply wp_mono; [apply walkpgdir_look; unfold PGSIZE, upage in *; lia|]. rewrite En, Hpd. intros p s' [-> ->].
  rewrite (proj2 (Z.eqb_neq _ _)) by (by apply (slot_nz Hkend)).
  apply wp_bind. unfold load, gets, wp at 1.
  assert (Ep : ldw (k_mem s) (slot (k_mem s) d n) = pte (k_mem s) d n) by (unfold pte; by rewrite Hpd). rewrite Ep.
  set (e' := Z.land (pte (k_mem s) d n) (Z.lnot PTE_U)). destruct (clear_u (pte (k_mem s) d n)) as (E1 & E2 & E3). fold e' in E1, E2, E3.
  assert (He : 0 ≤ e' < 2 ^ 32).
  { pose proof (ldw_range (k_mem s) (slot (k_mem s) d n)) as Hr. rewrite Ep in Hr. enough (0 ≤ e' ≤ pte (k_mem s) d n) by lia. apply Z.ldiff_le; [lia|].
    unfold e'. apply Z.bits_inj'. intros i Hi. rewrite Z.ldiff_spec, Z.land_spec, Z.bits_0. by destruct (Z.testbit _ i), (Z.testbit _ i). }
  destruct (store_inv Hkend s d l n e' Hvm Hn' Hpd He) as (Hvm' & Hg & Hpte). apply wp_modify_end. cbn [k_mem set_mem] in *. set (m' := stw _ _ _) in *.
  assert (Hk : ∀ k, upage k → present (pte m' d k) = present (pte (k_mem s) d k) ∧ frame m' d k = frame (k_mem s) d k).
  { intros k Hk. unfold frame. rewrite Hpte by (unfold upage in Hk; lia). by destruct (decide (k = n)) as [->|]. }
  split.
  - split; [done|..]; cbn [k_mem set_mem].
    + intros k Hk1. destruct (Hk k Hk1) as [-> ->]. intros Hpk. destruct (Hfr k Hk1 Hpk) as (? & Ho & ?). split_and!; [done| |done].
      intros Hv. destruct (gr_new _ _ _ _ _ Hg _ Hv); tauto.
    + intros j k Hj Hk1. destruct (Hk j Hj) as [-> ->], (Hk k Hk1) as [-> ->]. by apply Hinj.
  - intros a Ha. unfold ubyte. assert (Hna : upage (a / PGSIZE)) by (by apply upage_of). rewrite Hpte by (unfold upage in Hna; lia).
    destruct (decide (a / PGSIZE = n)) as [E|E].
    + rewrite E3. by destruct (present e').
    + destruct (present _ && _) eqn:Hb; [|done]. apply andb_true_iff in Hb as [Hpa _]. f_equal. apply (gr_mem _ _ _ _ _ Hg).
      destruct (Hfr _ Hna Hpa) as (Hpf & Ho & _). intros v Hv Hav. destruct (gr_new _ _ _ _ _ Hg v Hv) as [Hov|[? ?]]; [|done]. apply Ho.
      assert (v = frame (k_mem s) d (a / PGSIZE)) as <-; [|done].
      apply (pages_apart kend v (frame (k_mem s) d (a / PGSIZE)) (frame (k_mem s) d (a / PGSIZE) + a mod PGSIZE)); [by eapply owns_page|done|done|]. unfold in_page, frame. pose proof (Z.mod_pos_bound a PGSIZE ltac:(done)). lia.
Qed.
End guard.

(** ** Where the strings go *)

(** [sp = (sp - (strlen(argv[argc]) + 1)) & ~3] *)
Definition push (sp : Z) (a : list byte) : Z := 4 * ((sp - (Z.of_nat (length a) + 1)) / 4).
Fixpoint arg_addrs (sp : Z) (argv : list (list byte)) : list Z :=
  match argv with
  | [] => []
  | a :: argv => push sp a :: arg_addrs (push sp a) argv
  end.
Abbreviation bottom := (foldl push).

(** The bytes [bs] in user memory, from [va] on. *)
Definition ureads (m : mem) (d va : Z) (bs : list byte) : Prop := ∀ i b, bs !! i = Some b → ubyte m d (va + Z.of_nat i) = Some b.

Lemma push_range sp a : sp - (Z.of_nat (length a) + 1) - 3 ≤ push sp a ≤ sp - (Z.of_nat (length a) + 1).
Proof. unfold push. set (x := sp - _). pose proof (Z_div_mod_eq_full x 4). pose proof (Z.mod_pos_bound x 4 ltac:(lia)). lia. Qed.

Lemma push_land sp a : 0 ≤ push sp a → sp ≤ KERNBASE → Z.land (u32 (sp - (Z.of_nat (length a) + 1))) (Z.lnot 3) = push sp a.
Proof.
  intros H0 Hsp. pose proof (push_range sp a). rewrite u32_small by (unfold KERNBASE in *; lia). rewrite <-Z.ldiff_land.
  change 3 with (Z.ones 2). rewrite Z.ldiff_ones_r, Z.shiftl_mul_pow2, Z.shiftr_div_pow2 by lia. apply Z.mul_comm.
Qed.

Lemma bottom_le sp argv : bottom sp argv ≤ sp.
Proof. revert sp. induction argv as [|a argv IH]; intros sp; cbn [foldl]; [lia|]. specialize (IH (push sp a)). pose proof (push_range sp a). lia. Qed.

Lemma arg_addrs_length sp argv : length (arg_addrs sp argv) = length argv.
Proof. revert sp. induction argv; intros; cbn; auto. Qed.

Section stack.
Context {S : Type}.
Variable kend : Z.
Hypothesis Hkend : KERNBASE < kend.
Implicit Types (s : kern S) (d sp : Z) (l : list Z).

Lemma wp_liftK {A B} (m : M kst A) (k : A → M (kern S) B) Q s :
  wp m (λ a x, wp (k a) Q (with_k x s)) (kn_k s) → wp (liftK m ≫= k) Q s.
Proof. unfold wp, liftK, lift, mbind, M_bind. by destruct (m (kn_k s)). Qed.

Lemma exec_args_ok d l argv sp ptrs lo s :
  as_ok kend (kn_k s) d l → 0 ≤ lo ≤ bottom sp argv → sp ≤ KERNBASE → (length ptrs + length argv ≤ MAXARG)%nat →
  (∀ a, lo ≤ a < sp → is_Some (ubyte (k_mem (kn_k s)) d a)) →
  wp (exec_args d argv sp ptrs) (λ r s', r = Some (bottom sp argv, ptrs ++ arg_addrs sp argv) ∧ ∃ k, s' = with_k k s ∧ as_ok kend k d l ∧
    Forall2 (λ a str, ureads (k_mem k) d a (str ++ [Byte.x00])) (arg_addrs sp argv) argv ∧
    ∀ a, 0 ≤ a < KERNBASE → ¬ (bottom sp argv ≤ a < sp) → ubyte (k_mem k) d a = ubyte (k_mem (kn_k s)) d a) s.
Proof.
  revert sp ptrs s. induction argv as [|a argv IH]; intros sp ptrs s Hok Hlo Hsp Hlen Hacc; cbn [exec_args].
  - apply wp_ret. split; [cbn; by rewrite app_nil_r|]. exists (kn_k s). split; [by destruct s|]. split_and!; [done|constructor|done].
  - destruct (Nat.leb_spec MAXARG (length ptrs)); [cbn in Hlen; lia|]. cbn [foldl] in Hlo. pose proof (bottom_le (push sp a) argv) as Hb.
    pose proof (push_range sp a) as Hp. rewrite push_land by lia. set (sp1 := push sp a) in *.
    assert (El : Z.of_nat (length a) + 1 = Z.of_nat (length (a ++ [Byte.x00]))) by (rewrite length_app; cbn; lia).
    apply wp_liftK. rewrite El. eapply wp_mono; [apply (copyout_ok kend Hkend (kn_k s) d l sp1 (a ++ [Byte.x00])); [done|lia|lia|]|].
    { intros b Hbr. apply Hacc. lia. }
    intros r k1 (-> & Hok1 & _ & Hu1). cbn [Z.ltb Z.compare].
    eapply wp_mono; [apply (IH sp1 (ptrs ++ [sp1]) (with_k k1 s)); [done|lia|lia|rewrite length_app; cbn in *; lia|]|].
    { intros b Hbr. cbn [kn_k with_k]. rewrite Hu1 by lia. destruct (decide _); [lia|]. apply Hacc. lia. }
    cbn [kn_k with_k]. intros r s2 (-> & k2 & -> & Hok2 & Hstr & Hu2). split; [cbn; by rewrite <-app_assoc|]. exists k2.
    split; [done|]. split_and!; [done| |].
    + cbn [arg_addrs]. fold sp1. constructor; [|done]. intros i b Hi. pose proof (lookup_lt_Some _ _ _ Hi) as Hil.
      rewrite Hu2, Hu1 by lia. rewrite decide_True by lia. replace (sp1 + Z.of_nat i - sp1) with (Z.of_nat i) by lia.
      rewrite Nat2Z.id. f_equal. by apply list_lookup_total_correct.
    + cbn [foldl]. fold sp1. intros b Hbr Hnb. rewrite Hu2 by lia. rewrite Hu1 by lia. by rewrite decide_False by lia.
Qed.

(** Room for the strings, each rounded up, and for the words below them. *)
Definition stack_room (argv : list (list byte)) : Z :=
  foldr (λ a n, Z.of_nat (length a) + 4 + n) 0 argv + 4 * (Z.of_nat (length argv) + 4).

Lemma bottom_ge sp argv : sp - foldr (λ a n, Z.of_nat (length a) + 4 + n) 0 argv ≤ bottom sp argv.
Proof. revert sp. induction argv as [|a argv IH]; intros sp; cbn [foldr foldl]; [lia|]. specialize (IH (push sp a)). pose proof (push_range sp a). lia. Qed.

Lemma bottom_aligned sp argv : sp mod 4 = 0 → bottom sp argv mod 4 = 0.
Proof. revert sp. induction argv as [|a argv IH]; intros sp H; cbn [foldl]; [done|]. apply IH. unfold push. rewrite Z.mul_comm. by apply Z.mod_mul. Qed.

Lemma words_length ws : length (ws ≫= le_bytes 4) = (4 * length ws)%nat.
Proof. induction ws as [|w ws IH]; [done|]. rewrite bind_cons, length_app, length_le_bytes, IH. cbn [length]. lia. Qed.

Lemma addrs_above sp argv : Forall (λ a, bottom sp argv ≤ a) (arg_addrs sp argv).
Proof.
  revert sp. induction argv as [|a argv IH]; intros sp; cbn [arg_addrs foldl]; constructor; [apply bottom_le|apply IH].
Qed.

(** A second write below the strings keeps them. *)
Lemma ureads_ext m m' d va bs :
  ureads m d va bs → (∀ a, va ≤ a < va + Z.of_nat (length bs) → ubyte m' d a = ubyte m d a) → ureads m' d va bs.
Proof. intros H E i b Hi. pose proof (lookup_lt_Some _ _ _ Hi). rewrite E by lia. by apply H. Qed.

Lemma strings_ext m m' d sp argv :
  sp ≤ KERNBASE → Forall2 (λ a str, ureads m d a (str ++ [Byte.x00])) (arg_addrs sp argv) argv →
  (∀ a, bottom sp argv ≤ a < sp → ubyte m' d a = ubyte m d a) →
  Forall2 (λ a str, ureads m' d a (str ++ [Byte.x00])) (arg_addrs sp argv) argv.
Proof.
  revert sp. induction argv as [|a argv IH]; intros sp Hsp; cbn [arg_addrs foldl]; [constructor|].
  pose proof (push_range sp a). pose proof (bottom_le (push sp a) argv). intros [H1 H2]%Forall2_cons E. constructor.
  - apply (ureads_ext m); [done|]. intros b Hb. apply E. rewrite length_app in Hb. cbn [length] in Hb. lia.
  - apply IH; [lia|done|]. intros b Hb. apply E. lia.
Qed.

(** The words below the strings, and the final stack pointer. *)
Definition stack_words (argv : list (list byte)) (args : list Z) (sp : Z) : list Z :=
  [4294967295; Z.of_nat (length argv); sp + 12] ++ args ++ [0].

Lemma exec_words_ok d l argv sz lo (s : kern S) :
  let sp0 := bottom sz argv in let args := arg_addrs sz argv in
  let nb := (3 + Z.of_nat (length argv) + 1) * 4 in let sp := sp0 - nb in
  as_ok kend (kn_k s) d l → 0 ≤ lo ≤ sp → sz ≤ KERNBASE → (∀ a, lo ≤ a < sp0 → is_Some (ubyte (k_mem (kn_k s)) d a)) →
  u32 (sp0 - nb) = sp ∧
  wp (copyout d sp (ustack sp0 args ≫= le_bytes 4) nb) (λ r k, r = 0 ∧ as_ok kend k d l ∧
    ureads (k_mem k) d sp (stack_words argv args sp ≫= le_bytes 4) ∧
    ∀ a, 0 ≤ a < KERNBASE → ¬ (sp ≤ a < sp0) → ubyte (k_mem k) d a = ubyte (k_mem (kn_k s)) d a) (kn_k s).
Proof.
  intros sp0 args nb sp Hok Hlo Hsz Hacc. pose proof (bottom_le sz argv) as Hb. fold sp0 in Hb. assert (Hnb : 16 ≤ nb) by (unfold nb; lia).
  split; [apply u32_small; unfold sp, KERNBASE in *; lia|].
  assert (Hws : ustack sp0 args = stack_words argv args sp).
  { unfold ustack, stack_words, args. rewrite arg_addrs_length. rewrite u32_small by (unfold nb, sp, KERNBASE in *; lia).
    by replace (sp0 - (Z.of_nat (length argv) + 1) * 4) with (sp + 12) by (unfold sp, nb; lia). }
  assert (Hwl : nb = Z.of_nat (length (stack_words argv args sp ≫= le_bytes 4))).
  { rewrite words_length. unfold stack_words, args, nb. rewrite !length_app, arg_addrs_length. cbn [length]. lia. }
  rewrite Hws, Hwl. eapply wp_mono; [apply (copyout_ok kend Hkend (kn_k s) d l sp); [done|lia|unfold sp in *; lia|]|].
  { intros a Ha. apply Hacc. unfold sp in *. lia. }
  rewrite <-Hwl. intros r k (-> & Hok' & _ & Hu). split_and!; [done|done| |].
  - intros i b Hi. pose proof (lookup_lt_Some _ _ _ Hi) as Hil. rewrite Hu by (unfold sp in *; lia). rewrite decide_True by lia.
    replace (sp + Z.of_nat i - sp) with (Z.of_nat i) by lia. rewrite Nat2Z.id. f_equal. by apply list_lookup_total_correct.
  - intros a Ha Hna. rewrite Hu by done. by rewrite decide_False by (unfold sp in *; lia).
Qed.

Lemma exec_stack_ok d l argv sz s :
  as_ok kend (kn_k s) d l → sz mod PGSIZE = 0 → 2 * PGSIZE ≤ sz ≤ KERNBASE →
  (∀ a, sz - PGSIZE ≤ a < sz → is_Some (ubyte (k_mem (kn_k s)) d a)) → present (pte (k_mem (kn_k s)) d (sz / PGSIZE - 2)) = true →
  (length argv ≤ MAXARG)%nat → stack_room argv ≤ PGSIZE →
  wp (exec_stack d argv sz) (λ r s', ∃ sp args k, r = Some sp ∧ s' = with_k k s ∧ as_ok kend k d l ∧ sz - PGSIZE ≤ sp ∧ sp mod 4 = 0 ∧
    ureads (k_mem k) d sp (stack_words argv args sp ≫= le_bytes 4) ∧
    Forall2 (λ a str, sp ≤ a ∧ ureads (k_mem k) d a (str ++ [Byte.x00])) args argv ∧
    ∀ a, 0 ≤ a < KERNBASE → ¬ (sp ≤ a < sz) →
      ubyte (k_mem k) d a = if decide (a / PGSIZE = sz / PGSIZE - 2) then None else ubyte (k_mem (kn_k s)) d a) s.
Proof.
  intros Hok Hal Hsz Hacc Hg Hlen Hroom. unfold exec_stack. set (n := sz / PGSIZE - 2) in *.
  assert (Hn : sz = PGSIZE * (n + 2)) by (pose proof (Z_div_mod_eq_full sz PGSIZE); lia).
  assert (Hup : upage n) by (unfold upage, KERNBASE, PGSIZE in *; lia).
  rewrite u32_small by (unfold KERNBASE, PGSIZE in *; lia). replace (sz - 2 * PGSIZE) with (PGSIZE * n) by lia.
  apply wp_liftK. eapply wp_mono; [by apply (clearpteu_ok kend Hkend (kn_k s) d l n)|]. intros [] k1 [Hok1 Hu1].
  assert (Hacc1 : ∀ a, sz - PGSIZE ≤ a < sz → is_Some (ubyte (k_mem k1) d a)).
  { intros a Ha. rewrite Hu1 by (unfold PGSIZE in *; lia). rewrite decide_False; [by apply Hacc|]. intros E.
    pose proof (Z_div_mod_eq_full a PGSIZE). pose proof (Z.mod_pos_bound a PGSIZE ltac:(done)). lia. }
  unfold stack_room in Hroom. pose proof (bottom_ge sz argv) as Hbg. pose proof (bottom_le sz argv) as Hbl.
  apply wp_bind. eapply wp_mono; [apply (exec_args_ok d l argv sz [] (sz - PGSIZE) (with_k k1 s)); cbn [kn_k with_k]; [done|unfold PGSIZE in *; lia|lia|cbn; lia|done]|].
  cbn [kn_k with_k]. intros r s2 (-> & k2 & -> & Hok2 & Hstr & Hu2). rewrite app_nil_l, arg_addrs_length.
  destruct (exec_words_ok d l argv sz (sz - PGSIZE) (with_k k2 s)) as [-> Hw]; cbn [kn_k with_k] in *; [done|unfold PGSIZE in *; lia|lia| |].
  { intros a Ha. rewrite Hu2 by (unfold PGSIZE in *; lia). apply Hacc1. lia. }
  apply wp_liftK. eapply wp_mono; [apply Hw|]. cbv zeta. set (sp := bottom sz argv - _) in *.
  intros r k3 (-> & Hok3 & Hrd & Hu3). cbn [Z.ltb Z.compare]. apply wp_ret. exists sp, (arg_addrs sz argv), k3.
  split_and!; [done|done|done|unfold sp; lia| |done| |].
  - assert (Ha : bottom sz argv mod 4 = 0).
    { apply bottom_aligned. rewrite Hn. replace (PGSIZE * (n + 2)) with ((n + 2) * 1024 * 4) by (unfold PGSIZE; lia). by apply Z.mod_mul. }
    unfold sp. rewrite Zminus_mod, Ha, Z.mod_mul; done.
  - assert (Hs3 : Forall2 (λ a str, ureads (k_mem k3) d a (str ++ [Byte.x00])) (arg_addrs sz argv) argv).
    { apply (strings_ext (k_mem k2)); [lia|done|]. intros a Ha. apply Hu3; [unfold PGSIZE in *; lia|lia]. }
    assert (Hab : Forall (λ a, sp ≤ a) (arg_addrs sz argv)).
    { eapply Forall_impl; [apply addrs_above|]. cbn. unfold sp. lia. }
    clearbody sp. clear -Hs3 Hab. induction Hs3; [constructor|]. apply Forall_cons in Hab as [? ?]. constructor; auto.
  - intros a Ha Hna. rewrite Hu3 by lia. rewrite Hu2 by lia. by apply Hu1.
Qed.

(** C18. exec builds the stack that main expects: when the arguments fit in a page, the words at the
    final stack pointer are a fake return address, argc and the address of argv, then the
    addresses of the argument strings and a null pointer; every argument is there as a
    terminated string, the page below is out of reach of the user, and no other user byte
    changes. *)
Theorem exec_stack_correct d l argv sz s :
  as_ok kend (kn_k s) d l → sz mod PGSIZE = 0 → 2 * PGSIZE ≤ sz ≤ KERNBASE →
  (∀ a, sz - PGSIZE ≤ a < sz → is_Some (ubyte (k_mem (kn_k s)) d a)) → present (pte (k_mem (kn_k s)) d (sz / PGSIZE - 2)) = true →
  (length argv ≤ MAXARG)%nat → stack_room argv ≤ PGSIZE →
  wp (exec_stack d argv sz) (λ r s', ∃ sp args k, r = Some sp ∧ s' = with_k k s ∧ as_ok kend k d l ∧ sz - PGSIZE ≤ sp ∧ sp mod 4 = 0 ∧
    ureads (k_mem k) d sp (stack_words argv args sp ≫= le_bytes 4) ∧
    Forall2 (λ a str, sp ≤ a ∧ ureads (k_mem k) d a (str ++ [Byte.x00])) args argv ∧
    ∀ a, 0 ≤ a < KERNBASE → ¬ (sp ≤ a < sz) →
      ubyte (k_mem k) d a = if decide (a / PGSIZE = sz / PGSIZE - 2) then None else ubyte (k_mem (kn_k s)) d a) s.
Proof. apply exec_stack_ok. Qed.
End stack.
