(* ===== verification/KernelExample.v ===== *)
(** * A kernel state

    Init and a child on a kernel with the file system of [FsExample]: the child
    runs, and init sleeps in [wait].  The theorems about processes at this state. *)

From S2P Require Import Prelude Fcntl Dll Sleeplock Bio Memide FsLayout Log LogCrash LogProtocol Tx CString Fs FsExample Pipe Kalloc Vm PageTable AddrSpace VmExample Kernel File Proc ProcInv Sysfile Syscall Panics FileRefs ExecStack.

Definition kx_init : proc :=
  mkProc PGSIZE 0 0 SLEEPING 1 None 0 0 (ProcChan 0) false (replicate NOFILE None) 1 (replicate 16 Byte.x00).
Definition kx_child : proc :=
  mkProc PGSIZE 0 0 RUNNING 2 (Some 0%nat) 0 0 NoChan false (replicate NOFILE None) 1 (replicate 16 Byte.x00).
Definition kx_procs : list proc := kx_init :: kx_child :: replicate 62 zero_proc.
Definition kx : kern (logst memdisk) :=
  mkKern ex_kst fx_state (replicate NFILE zero_file) ∅ kx_procs 3 0 0 1.

Lemma kx_lookup i p :
  kx_procs !! i = Some p → i = 0%nat ∧ p = kx_init ∨ i = 1%nat ∧ p = kx_child ∨ p = zero_proc.
Proof.
  intros H. destruct i as [|[|i]]; [cbn in H; simplify_eq; auto..|]. right. right. cbn [kx_procs lookup list_lookup] in H.
  by apply lookup_replicate in H as [-> _].
Qed.

Lemma kx_inv : kinv kx.
Proof.
  split; [|split; [reflexivity|cbn; lia]]. cbn [kn_proc kn_nextpid kn_initproc kx]. split.
  - intros i p [[_ ->]|[[_ ->]| ->]]%kx_lookup; cbn; lia.
  - intros i j p q [[-> ->]|[[-> ->]| ->]]%kx_lookup [[-> ->]|[[-> ->]| ->]]%kx_lookup; cbn; done.
  - intros i p [[_ ->]|[[_ ->]| ->]]%kx_lookup; cbn; done.
  - intros i p [[_ ->]|[[_ ->]| ->]]%kx_lookup; cbn; done.
  - intros i p [[-> ->]|[[-> ->]| ->]]%kx_lookup; [done| |done]. intros _ _. exists 0%nat, kx_init. split_and!; [done..|by left].
  - exists kx_init. split_and!; [done|by left|done].
  - intros i p k [[-> ->]|[[-> ->]| ->]]%kx_lookup; cbn; congruence.
  - intros i p j q [[-> ->]|[[-> ->]| ->]]%kx_lookup; [|done..]. intros _ _ [[_ ->]|[[_ ->]| ->]]%kx_lookup; done.
Qed.

Lemma exit_hands_over_witness :
  wp exit_locked (λ _ s',
    kinv s' ∧ kn_cur s' = 1%nat ∧
    (∃ p', kn_proc s' !! 1%nat = Some p' ∧ p_state p' = ZOMBIE ∧ p_parent p' = Some 0%nat) ∧
    (∀ i q, kn_proc s' !! i = Some q → p_parent q ≠ Some 1%nat) ∧
    (∀ j q, Some 0%nat = Some j → kn_proc s' !! j = Some q → p_state q = SLEEPING → p_chan q ≠ ProcChan j)) kx.
Proof. apply (exit_hands_over kx kx_child kx_inv); done. Defined.

(** The child exits, and the scheduler finds init runnable. *)
Lemma kx_run : ∃ s, exit_locked kx = Ok tt s.
Proof.
  destruct kx_inv as (Hinv & Hl & _).
  pose proof (exit_locked_ok kx kx_child Hinv Hl) as H. unfold wp in H.
  destruct (exit_locked kx) as [[] s| |]; [by exists s|destruct H; done..].
Qed.

Lemma processes_safe_witness :
  ∃ s', rtc (kstep ex_kend 0 0 0) kx s' ∧ s' ≠ kx ∧
  (∀ i j p q, kn_proc s' !! i = Some p → kn_proc s' !! j = Some q → p_state p ≠ UNUSED → p_pid p = p_pid q → i = j) ∧
  (∀ i p, kn_proc s' !! i = Some p → p_state p ≠ UNUSED → i ≠ kn_initproc s' →
     ∃ j q, p_parent p = Some j ∧ j ≠ i ∧ kn_proc s' !! j = Some q ∧ alive q) ∧
  (∀ i p j q, kn_proc s' !! i = Some p → p_state p = SLEEPING → p_chan p = ProcChan i →
     kn_proc s' !! j = Some q → p_parent q = Some i → p_state q ≠ ZOMBIE).
Proof.
  destruct kx_run as [s Hs]. exists s.
  assert (Hr : rtc (kstep ex_kend 0 0 0) kx s) by (apply rtc_once, k_exit; [by exists kx_child|done|done]).
  split; [exact Hr|]. split; [|exact (processes_safe ex_kend 0 0 0 kx s kx_inv Hr)].
  intros ->. destruct kx_inv as (Hinv & Hl & _). pose proof (exit_locked_ok kx kx_child Hinv Hl eq_refl eq_refl ltac:(done)) as H.
  unfold wp in H. rewrite Hs in H. destruct H as (_ & _ & _ & _ & _ & (p' & Hp & Hz & _) & _). change (Some kx_child = Some p') in Hp. injection Hp as <-. discriminate Hz.
Defined.

(** ** Open files

    A file that init has open once and the child twice. *)
Definition ky_init : proc := set_ofile (Some 0%nat :: replicate 15 None) kx_init.
Definition ky_child : proc := set_ofile (Some 0%nat :: Some 0%nat :: replicate 14 None) kx_child.
Definition ky_procs : list proc := ky_init :: ky_child :: replicate 62 zero_proc.
Definition ky : kern (logst memdisk) :=
  mkKern ex_kst fx_state (mkFile FD_INODE 3 true true 0 1 0 :: replicate 99 zero_file) ∅ ky_procs 3 0 0 1.

Lemma ky_lookup i p :
  ky_procs !! i = Some p → i = 0%nat ∧ p = ky_init ∨ i = 1%nat ∧ p = ky_child ∨ p = zero_proc.
Proof.
  intros H. destruct i as [|[|i]]; [cbn in H; simplify_eq; auto..|]. right. right. cbn [ky_procs lookup list_lookup] in H.
  by apply lookup_replicate in H as [-> _].
Qed.

Lemma ky_file f : kn_file ky !!! f = if decide (f = 0%nat) then mkFile FD_INODE 3 true true 0 1 0 else zero_file.
Proof.
  destruct f as [|f]; [done|]. cbn [decide]. change (replicate 99 zero_file !!! f = zero_file).
  rewrite list_lookup_total_alt. destruct (replicate 99 zero_file !! f) as [x|] eqn:E; [|done]. by apply lookup_replicate in E as [-> _].
Qed.

Lemma ky_ready : ready ∅ (λ _, 0) ky.
Proof.
  split; [|done]. split; [|done]. split; [|split; [set_solver|cbn; lia]]. split; cbn [kn_proc ky].
  - intros i p [[_ ->]|[[_ ->]| ->]]%ky_lookup; done.
  - intros f. rewrite ky_file. destruct f as [|f]; [vm_compute; reflexivity|]. cbn [decide]. vm_compute. reflexivity.
  - intros i p [[_ ->]|[[_ ->]| ->]]%ky_lookup; [by intros [|]..|]. intros _. split; [set_solver|]. by repeat constructor.
  - intros f. rewrite ky_file. by destruct (decide (f = 0%nat)).
  - intros i p fd f [[_ ->]|[[_ ->]| ->]]%ky_lookup _ Hfd _; rewrite ky_file.
    + destruct fd as [|fd]; [cbn in Hfd; by simplify_eq|]. change (replicate 15 (None (A := nat)) !! fd = Some (Some f)) in Hfd. by apply lookup_replicate in Hfd as [? _].
    + destruct fd as [|[|fd]]; [cbn in Hfd; by simplify_eq..|]. change (replicate 14 (None (A := nat)) !! fd = Some (Some f)) in Hfd. by apply lookup_replicate in Hfd as [? _].
    + by apply lookup_replicate in Hfd as [? _].
Qed.

(** A fork of the child: the new process shares the file. *)
Lemma file_references_witness :
  match sys_fork ex_kend 0 0 0 ky with
  | Ok _ s' => ready ∅ (λ _, 0) s'
  | Blocked s' => parked ∅ (λ _, 0) s'
  | Panic msg => msg ∉ ["filedup"; "fileclose"; "fileread"; "filewrite"]
  end.
Proof.
  apply (@file_references (logst memdisk) _ _ (log_quiet memide_quiet) ex_kend 0 0 0 (λ _, None) (λ _, None)
    ltac:(discriminate) ltac:(discriminate) 1 (sys_fork ex_kend 0 0 0) ∅ (λ _, 0) ky eq_refl ky_ready).
Defined.

(** ** exec

    The stack of [echo hi] in an address space of two pages. *)
Definition echo_hi : list (list byte) := [bytes_of "echo"; bytes_of "hi"].

Lemma kn_k_with {S} x (s : kern S) : kn_k (with_k x s) = x.
Proof. done. Qed.

Lemma exec_stack_correct_witness :
  ∃ l, wp (exec_stack vx_dir echo_hi 8192) (λ r s', ∃ sp args k, r = Some sp ∧ s' = with_k k (with_k vx2 kx) ∧ as_ok ex_kend k vx_dir l ∧ 8192 - PGSIZE ≤ sp ∧ sp mod 4 = 0 ∧
    ureads (k_mem k) vx_dir sp (stack_words echo_hi args sp ≫= le_bytes 4) ∧
    Forall2 (λ a str, sp ≤ a ∧ ureads (k_mem k) vx_dir a (str ++ [Byte.x00])) args echo_hi ∧
    ∀ a, 0 ≤ a < KERNBASE → ¬ (sp ≤ a < 8192) →
      ubyte (k_mem k) vx_dir a = if decide (a / PGSIZE = 8192 / PGSIZE - 2) then None else ubyte (k_mem (kn_k (with_k vx2 kx))) vx_dir a) (with_k vx2 kx).
Proof.
  destruct vx2_grown as [l Hl]. exists l.
  apply (exec_stack_correct ex_kend eq_refl vx_dir l echo_hi 8192 (with_k vx2 kx)); rewrite ?kn_k_with.
  - exact (gn_ok _ _ _ _ _ _ _ _ _ Hl).
  - reflexivity.
  - unfold PGSIZE, KERNBASE. lia.
  - intros a Ha. apply vx2_user. unfold PGSIZE in Ha. lia.
  - destruct (gn_new _ _ _ _ _ _ _ _ _ Hl 0) as (Hp & _); [lia|exact Hp].
  - vm_compute. lia.
  - vm_compute. discriminate.
Defined.
