(* ===== verification/Shell.v ===== *)
(** * The shell's parser (src/sh.c)

    The parser is written over a scanner interface, with two instances: the
    characters of the buffer, as in the source, and a list of tokens.  A command
    holds positions in the buffer; [nulterminate] makes them strings.  The main
    theorem: [parsecmd] returns the tree of the derivation of its line in the
    grammar, and gives up exactly when there is none. *)

From S2P Require Import Prelude Fcntl CString.
Import (notations) Corelib.Init.Byte.

Definition MAXARGS : nat := 10.

(** Commands, with strings of type [A]. *)
Inductive cmd (A : Type) : Type :=
| EXEC (argv : list A)
| REDIR (c : cmd A) (file : A) (mode fd : Z)
| PIPE (left right : cmd A)
| LIST (left right : cmd A)
| BACK (c : cmd A).
Arguments EXEC {A}. Arguments REDIR {A}. Arguments PIPE {A}. Arguments LIST {A}. Arguments BACK {A}.

Definition whitespace : list byte := [" "%byte; Byte.x09; Byte.x0d; Byte.x0a; Byte.x0b].
Definition symbols : list byte := ["<"; "|"; ">"; "&"; ";"; "("; ")"]%byte.

Definition NUL : byte := Byte.x00.

(** [strchr(s, c)] as a condition, on a string literal *)
Definition strchr (s : list byte) (c : byte) : bool := bool_decide (c ∈ s).

(** ** The parser over a scanner *)

(** What the parser asks of its input: is the next character one of these, and
    the next token, with its kind and place. *)
Class Scanner (S A : Type) : Type := { peek : list byte → M S bool; gettoken : M S (byte * A) }.

Section parser.
Context {S A : Type} `{Scanner S A}.
Context (fuel : nat).   (* of the loops *)

Definition redircmd (c : cmd A) (tok : byte) (file : A) : cmd A :=
  if bool_decide (tok = "<"%byte) then REDIR c file O_RDONLY 0
  else if bool_decide (tok = ">"%byte) then REDIR c file (Z.lor O_WRONLY O_CREATE) 1
  else if bool_decide (tok = "+"%byte) then REDIR c file (Z.lor O_WRONLY O_CREATE) 1
  else c.

Fixpoint parseredirs (n : nat) (c : cmd A) : M S (cmd A) :=
  match n with
  | O => sleeps
  | Datatypes.S n =>
      b ← peek ["<"; ">"]%byte;
      if b : bool then
        '(tok, _) ← gettoken;
        '(t, file) ← gettoken;
        if bool_decide (t ≠ "a"%byte) then panic "missing file for redirection"
        else parseredirs n (redircmd c tok file)
      else mret c
  end.

(** [cmd->argv[argc] = q]: [cmd] is the [EXEC] below the redirections of [ret]. *)
Fixpoint add_arg (q : A) (ret : cmd A) : cmd A :=
  match ret with
  | EXEC argv => EXEC (argv ++ [q])
  | REDIR c file mode fd => REDIR (add_arg q c) file mode fd
  | c => c
  end.

(** [while(!peek(ps, es, "|)&;"))] of [parseexec] *)
Fixpoint parseargs (n argc : nat) (ret : cmd A) : M S (cmd A) :=
  match n with
  | O => sleeps
  | Datatypes.S n =>
      b ← peek ["|"; ")"; "&"; ";"]%byte;
      if b : bool then mret ret
      else
        '(tok, q) ← gettoken;
        if bool_decide (tok = NUL) then mret ret
        else if bool_decide (tok ≠ "a"%byte) then panic "syntax"
        else
          let ret := add_arg q ret in
          let argc := Datatypes.S argc in
          if (MAXARGS <=? argc)%nat then panic "too many args"
          else
            ret ← parseredirs fuel ret;
            parseargs n argc ret
  end.

(** [while(peek(ps, es, "&"))] of [parseline] *)
Fixpoint parsebacks (n : nat) (c : cmd A) : M S (cmd A) :=
  match n with
  | O => sleeps
  | Datatypes.S n =>
      b ← peek ["&"]%byte;
      if b : bool then gettoken;; parsebacks n (BACK c) else mret c
  end.

Fixpoint parseline (n : nat) : M S (cmd A) :=
  match n with
  | O => sleeps
  | Datatypes.S n =>
      c ← parsepipe n;
      c ← parsebacks fuel c;
      b ← peek [";"]%byte;
      if b : bool then gettoken;; r ← parseline n; mret (LIST c r) else mret c
  end
with parsepipe (n : nat) : M S (cmd A) :=
  match n with
  | O => sleeps
  | Datatypes.S n =>
      c ← parseexec n;
      b ← peek ["|"]%byte;
      if b : bool then gettoken;; r ← parsepipe n; mret (PIPE c r) else mret c
  end
with parseexec (n : nat) : M S (cmd A) :=
  match n with
  | O => sleeps
  | Datatypes.S n =>
      b ← peek ["("]%byte;
      if b : bool then parseblock n
      else
        ret ← parseredirs fuel (EXEC []);
        parseargs fuel 0 ret
  end
with parseblock (n : nat) : M S (cmd A) :=
  match n with
  | O => sleeps
  | Datatypes.S n =>
      b ← peek ["("]%byte;
      if negb b then panic "parseblock"
      else
        gettoken;;
        c ← parseline n;
        b ← peek [")"]%byte;
        if negb b then panic "syntax - missing )"
        else gettoken;; parseredirs fuel c
  end.
End parser.

(** ** Characters *)

(** A counted string, from its start to its end. *)
Abbreviation span := (nat * nat)%type.

Section chars.
Context (buf : list byte) (es : nat).

(** [while(s < es && strchr(whitespace, *s)) s++], for [n = es - s] *)
Fixpoint skip_ws (n s : nat) : nat :=
  match n with
  | O => s
  | S n => if strchr whitespace (buf !!! s) then skip_ws n (S s) else s
  end.

(** [while(s < es && !strchr(whitespace, *s) && !strchr(symbols, *s)) s++] *)
Fixpoint skip_word (n s : nat) : nat :=
  match n with
  | O => s
  | S n => if negb (strchr whitespace (buf !!! s)) && negb (strchr symbols (buf !!! s)) then skip_word n (S s) else s
  end.

(** The switch of [gettoken] at [s]: the token's kind and its end. *)
Definition token_at (s : nat) : byte * nat :=
  let c := buf !!! s in
  if bool_decide (c = NUL) then (c, s)
  else if strchr ["|"; "("; ")"; ";"; "&"; "<"]%byte c then (c, S s)
  else if bool_decide (c = ">"%byte) then
    if bool_decide (buf !!! S s = ">"%byte) then ("+"%byte, S (S s)) else (c, S s)
  else ("a"%byte, skip_word (es - s) s).

Definition char_gettoken : M nat (byte * span) :=
  p ← getS;
  let q := skip_ws (es - p) p in
  let '(ret, eq) := token_at q in
  putS (skip_ws (es - eq) eq);;
  mret (ret, (q, eq)).

Definition char_peek (toks : list byte) : M nat bool :=
  p ← getS;
  let s := skip_ws (es - p) p in
  putS s;;
  mret (negb (bool_decide (buf !!! s = NUL)) && strchr toks (buf !!! s)).

#[local] Instance char_scanner : Scanner nat span := { peek := char_peek; gettoken := char_gettoken }.

Definition char_parseline (fuel n : nat) : M nat (cmd span) := parseline fuel n.
End chars.

(** NUL-terminate all the counted strings. *)
Fixpoint nulterminate (c : cmd span) (buf : list byte) : list byte :=
  match c with
  | EXEC argv => foldl (λ buf '(_, eq), <[eq := NUL]> buf) buf argv
  | REDIR c (_, efile) _ _ => <[efile := NUL]> (nulterminate c buf)
  | PIPE l r | LIST l r => nulterminate r (nulterminate l buf)
  | BACK c => nulterminate c buf
  end.

(** [strlen], of the string in the buffer *)
Definition buf_len (buf : list byte) : nat := length (until_nul buf).

(** The fuel is more than the calls can nest, four for each token. *)
Definition parsecmd : M (list byte) (cmd span) := λ buf,
  let es := buf_len buf in
  match char_parseline buf es (S es) (4 * es + 4) 0%nat with
  | Ok c p =>
      if bool_decide (skip_ws buf (es - p) p ≠ es) then Panic "syntax"
      else Ok c (nulterminate c buf)
  | Blocked _ => Blocked buf
  | Panic msg => Panic msg
  end.

Fixpoint cmd_map {A B} (f : A → B) (c : cmd A) : cmd B :=
  match c with
  | EXEC argv => EXEC (f <$> argv)
  | REDIR c file mode fd => REDIR (cmd_map f c) (f file) mode fd
  | PIPE l r => PIPE (cmd_map f l) (cmd_map f r)
  | LIST l r => LIST (cmd_map f l) (cmd_map f r)
  | BACK c => BACK (cmd_map f c)
  end.

(** The strings of a command, read from the buffer. *)
Definition cmd_strings (buf : list byte) (c : cmd span) : cmd (list byte) :=
  cmd_map (λ '(q, _), until_nul (drop q buf)) c.

(** ** Tokens *)

Inductive tok : Type := TSym (c : byte) | TApp | TWord (w : list byte).

Fixpoint drop_while (P : byte → bool) (l : list byte) : list byte :=
  match l with [] => [] | c :: r => if P c then drop_while P r else l end.
Fixpoint take_while (P : byte → bool) (l : list byte) : list byte :=
  match l with [] => [] | c :: r => if P c then c :: take_while P r else [] end.

Definition word_char (c : byte) : bool := negb (strchr whitespace c) && negb (strchr symbols c).

Fixpoint lexn (n : nat) (l : list byte) : list tok :=
  match n with
  | O => []
  | S n =>
      match drop_while (strchr whitespace) l with
      | [] => []
      | c :: r =>
          if bool_decide (c = ">"%byte) then
            match r with
            | c' :: r' => if bool_decide (c' = ">"%byte) then TApp :: lexn n r' else TSym c :: lexn n r
            | [] => [TSym c]
            end
          else if strchr symbols c then TSym c :: lexn n r
          else TWord (c :: take_while word_char r) :: lexn n (drop_while word_char r)
      end
  end.

(** The tokens of a line. *)
Definition lex (l : list byte) : list tok := lexn (length l) l.

Definition tok_first (t : tok) : byte :=
  match t with TSym c => c | TApp => ">"%byte | TWord w => w !!! 0%nat end.
Definition tok_kind (t : tok) : byte * list byte :=
  match t with TSym c => (c, []) | TApp => ("+"%byte, []) | TWord w => ("a"%byte, w) end.

Definition tok_peek (toks : list byte) : M (list tok) bool :=
  gets (λ ts, match ts with [] => false | t :: _ => strchr toks (tok_first t) end).
Definition tok_gettoken : M (list tok) (byte * list byte) := λ ts,
  match ts with [] => Ok (NUL, []) [] | t :: ts => Ok (tok_kind t) ts end.
#[global] Instance tok_scanner : Scanner (list tok) (list byte) := { peek := tok_peek; gettoken := tok_gettoken }.

(** ** Related scanners give related parsers *)

Section sim.
Context {S1 A1 S2 A2 : Type} `{Scanner S1 A1} `{Scanner S2 A2}.
Context (RS : S1 → S2 → Prop) (RA : A1 → A2 → Prop).

Definition sim {B1 B2} (RB : B1 → B2 → Prop) (m1 : M S1 B1) (m2 : M S2 B2) : Prop :=
  ∀ s1 s2, RS s1 s2 →
  match m1 s1, m2 s2 with
  | Ok b1 t1, Ok b2 t2 => RB b1 b2 ∧ RS t1 t2
  | Blocked _, Blocked _ => True
  | Panic a, Panic b => a = b
  | _, _ => False
  end.

Lemma sim_bind {B1 B2 C1 C2} (RB : B1 → B2 → Prop) (RC : C1 → C2 → Prop) m1 m2 (k1 : B1 → M S1 C1) (k2 : B2 → M S2 C2) :
  sim RB m1 m2 → (∀ b1 b2, RB b1 b2 → sim RC (k1 b1) (k2 b2)) → sim RC (m1 ≫= k1) (m2 ≫= k2).
Proof.
  intros Hm Hk s1 s2 Hs. specialize (Hm s1 s2 Hs). unfold mbind, M_bind.
  destruct (m1 s1), (m2 s2); try done. destruct Hm as [Hb Ht]. by apply Hk.
Qed.

Lemma sim_ret {B1 B2} (RB : B1 → B2 → Prop) b1 b2 : RB b1 b2 → sim RB (mret b1) (mret b2).
Proof. intros Hb s1 s2 Hs. done. Qed.

Lemma sim_panic {B1 B2} (RB : B1 → B2 → Prop) msg : sim RB (panic msg) (panic msg).
Proof. intros s1 s2 Hs. done. Qed.

Lemma sim_sleeps {B1 B2} (RB : B1 → B2 → Prop) : sim RB sleeps sleeps.
Proof. intros s1 s2 Hs. done. Qed.

Inductive cmd_rel : cmd A1 → cmd A2 → Prop :=
| rel_exec a b : Forall2 RA a b → cmd_rel (EXEC a) (EXEC b)
| rel_redir c d f g mode fd : cmd_rel c d → RA f g → cmd_rel (REDIR c f mode fd) (REDIR d g mode fd)
| rel_pipe a b c d : cmd_rel a b → cmd_rel c d → cmd_rel (PIPE a c) (PIPE b d)
| rel_list a b c d : cmd_rel a b → cmd_rel c d → cmd_rel (LIST a c) (LIST b d)
| rel_back a b : cmd_rel a b → cmd_rel (BACK a) (BACK b).

(** The token's kind is the same, and its place when it is a word. *)
Definition tok_rel (x : byte * A1) (y : byte * A2) : Prop := x.1 = y.1 ∧ (x.1 = "a"%byte → RA x.2 y.2).

Hypothesis peek_sim : ∀ toks, toks ⊆ symbols → sim eq (peek toks) (peek toks).
Hypothesis gettoken_sim : sim tok_rel gettoken gettoken.

Lemma rel_redircmd c d t f g : cmd_rel c d → RA f g → cmd_rel (redircmd c t f) (redircmd d t g).
Proof. intros Hc Hf. unfold redircmd. repeat case_bool_decide; try done; by constructor. Qed.

Lemma rel_add_arg c d f g : cmd_rel c d → RA f g → cmd_rel (add_arg f c) (add_arg g d).
Proof.
  intros Hc Hf. induction Hc; cbn [add_arg]; constructor; try done. apply Forall2_app; [done|]. by constructor.
Qed.

(** A peek for symbols, then the branches. *)
Lemma sim_peek {C1 C2} (RC : C1 → C2 → Prop) toks (k1 : bool → M S1 C1) (k2 : bool → M S2 C2) :
  bool_decide (toks ⊆ symbols) = true → (∀ b, sim RC (k1 b) (k2 b)) → sim RC (peek toks ≫= k1) (peek toks ≫= k2).
Proof. intros Hs%bool_decide_eq_true_1 Hk. eapply sim_bind; [by apply peek_sim|]. intros b ? <-. apply Hk. Qed.

Lemma sim_skip {C1 C2} (RC : C1 → C2 → Prop) (k1 : M S1 C1) (k2 : M S2 C2) :
  sim RC k1 k2 → sim RC (gettoken;; k1) (gettoken;; k2).
Proof. intros Hk. eapply sim_bind; [apply gettoken_sim|]. by intros. Qed.

Lemma sim_redirs n c d : cmd_rel c d → sim cmd_rel (parseredirs n c) (parseredirs n d).
Proof.
  revert c d. induction n as [|n IH]; intros c d Hc; cbn [parseredirs]; [apply sim_sleeps|].
  apply sim_peek; [reflexivity|]. intros [|]; [|by apply sim_ret].
  eapply sim_bind; [apply gettoken_sim|]. intros [t f] [t' g] [E _]. cbn in E. subst t'.
  eapply sim_bind; [apply gettoken_sim|]. intros [u f'] [u' g'] [E Hf]. cbn in E, Hf. subst u'.
  case_bool_decide as E; [apply sim_panic|]. apply IH, rel_redircmd; [done|]. apply Hf. destruct (decide (u = "a"%byte)); done.
Qed.

Lemma sim_args fuel n argc c d : cmd_rel c d → sim cmd_rel (parseargs fuel n argc c) (parseargs fuel n argc d).
Proof.
  revert argc c d. induction n as [|n IH]; intros argc c d Hc; cbn [parseargs]; [apply sim_sleeps|].
  apply sim_peek; [reflexivity|]. intros [|]; [by apply sim_ret|].
  eapply sim_bind; [apply gettoken_sim|]. intros [t f] [t' g] [E Hf]. cbn in E, Hf. subst t'.
  case_bool_decide; [by apply sim_ret|]. case_bool_decide as E; [apply sim_panic|].
  destruct (_ <=? _)%nat; [apply sim_panic|]. eapply sim_bind; [|intros; by apply IH].
  apply sim_redirs, rel_add_arg; [done|]. apply Hf. destruct (decide (t = "a"%byte)); done.
Qed.

Lemma sim_backs n c d : cmd_rel c d → sim cmd_rel (parsebacks n c) (parsebacks n d).
Proof.
  revert c d. induction n as [|n IH]; intros c d Hc; cbn [parsebacks]; [apply sim_sleeps|].
  apply sim_peek; [reflexivity|]. intros [|]; [|by apply sim_ret]. apply sim_skip, IH. by constructor.
Qed.

Lemma sim_parse fuel n :
  sim cmd_rel (parseline fuel n) (parseline fuel n) ∧ sim cmd_rel (parsepipe fuel n) (parsepipe fuel n) ∧
  sim cmd_rel (parseexec fuel n) (parseexec fuel n) ∧ sim cmd_rel (parseblock fuel n) (parseblock fuel n).
Proof.
  induction n as [|n (IHl & IHp & IHe & IHb)]; [split_and!; apply sim_sleeps|].
  cbn [parseline parsepipe parseexec parseblock]. split_and!.
  - eapply sim_bind; [done|]. intros c d Hc. eapply sim_bind; [by apply sim_backs|]. intros c' d' Hc'.
    apply sim_peek; [reflexivity|]. intros [|]; [|by apply sim_ret]. apply sim_skip. eapply sim_bind; [done|]. intros. apply sim_ret. by constructor.
  - eapply sim_bind; [done|]. intros c d Hc.
    apply sim_peek; [reflexivity|]. intros [|]; [|by apply sim_ret]. apply sim_skip. eapply sim_bind; [done|]. intros. apply sim_ret. by constructor.
  - apply sim_peek; [reflexivity|]. intros [|]; [done|]. eapply sim_bind; [apply sim_redirs; by repeat constructor|]. intros. by apply sim_args.
  - apply sim_peek; [reflexivity|]. intros [|]; cbn [negb]; [|apply sim_panic]. apply sim_skip. eapply sim_bind; [done|]. intros c d Hc.
    apply sim_peek; [reflexivity|]. intros [|]; cbn [negb]; [|apply sim_panic]. apply sim_skip. by apply sim_redirs.
Qed.
End sim.

(** ** The tokens of a text *)

Section lexing.
Implicit Types (l r : list byte).

Lemma drop_while_length P l : (length (drop_while P l) ≤ length l)%nat.
Proof. induction l as [|c l IH]; cbn; [lia|]. destruct (P c); cbn; lia. Qed.

Lemma drop_while_idem P l : drop_while P (drop_while P l) = drop_while P l.
Proof. induction l as [|c l IH]; cbn; [done|]. destruct (P c) eqn:E; [done|]. cbn. by rewrite E. Qed.

Lemma drop_while_head P l c r : drop_while P l = c :: r → P c = false.
Proof. induction l as [|d l IH]; cbn; [done|]. destruct (P d) eqn:E; [done|]. by intros [= -> ->]. Qed.

Lemma take_drop_while P l : take_while P l ++ drop_while P l = l.
Proof. induction l as [|c l IH]; cbn; [done|]. destruct (P c); cbn; [by f_equal|done]. Qed.

Lemma take_while_all P l : Forall (λ c, P c = true) (take_while P l).
Proof. induction l as [|c l IH]; cbn; [by constructor|]. destruct (P c) eqn:E; by constructor. Qed.

(** One more unit of fuel than needed changes nothing. *)
Lemma lexn_S n l : (length l ≤ n)%nat → lexn (S n) l = lexn n l.
Proof.
  revert l. induction n as [|n IH]; intros l Hn; [by destruct l; [|cbn in Hn; lia]|].
  cbn [lexn]. fold (lexn n). pose proof (drop_while_length (strchr whitespace) l) as Hd.
  destruct (drop_while _ l) as [|c r]; [done|]. cbn in Hd. pose proof (drop_while_length word_char r) as Hw.
  case_bool_decide.
  - destruct r as [|c' r']; [done|]. cbn in Hd. case_bool_decide; f_equal; apply (IH _); cbn; lia.
  - destruct (strchr symbols c); f_equal; apply (IH _); lia.
Qed.

Lemma lexn_enough n l : (length l ≤ n)%nat → lexn n l = lex l.
Proof. unfold lex. induction 1 as [|n Hn IH]; [done|]. by rewrite lexn_S. Qed.

Lemma lex_eq l :
  lex l = match drop_while (strchr whitespace) l with
          | [] => []
          | c :: r =>
              if bool_decide (c = ">"%byte) then
                match r with
                | c' :: r' => if bool_decide (c' = ">"%byte) then TApp :: lex r' else TSym c :: lex r
                | [] => [TSym c]
                end
              else if strchr symbols c then TSym c :: lex r
              else TWord (c :: take_while word_char r) :: lex (drop_while word_char r)
          end.
Proof.
  rewrite <-(lexn_enough (S (length l))) by lia. cbn [lexn]. fold (lexn (length l)).
  pose proof (drop_while_length (strchr whitespace) l) as Hd. destruct (drop_while _ l) as [|c r]; [done|]. cbn in Hd.
  pose proof (drop_while_length word_char r) as Hw.
  case_bool_decide.
  - destruct r as [|c' r']; [done|]. cbn in Hd. case_bool_decide; f_equal; apply lexn_enough; cbn; lia.
  - destruct (strchr symbols c); f_equal; apply lexn_enough; lia.
Qed.

Lemma lex_skip l : lex (drop_while (strchr whitespace) l) = lex l.
Proof. rewrite (lex_eq l), (lex_eq (drop_while _ l)). by rewrite drop_while_idem. Qed.

Lemma lex_length l : (length (lex l) ≤ length l)%nat.
Proof.
  remember (length l) as n eqn:Hn. revert l Hn. induction (lt_wf n) as [n _ IH]. intros l ->. rewrite lex_eq.
  pose proof (drop_while_length (strchr whitespace) l) as Hd. destruct (drop_while _ l) as [|c r]; [cbn; lia|]. cbn in Hd.
  pose proof (drop_while_length word_char r) as Hw.
  case_bool_decide.
  - destruct r as [|c' r']; [cbn; lia|]. cbn in Hd. case_bool_decide; cbn.
    + specialize (IH (length r') ltac:(lia) r' eq_refl). lia.
    + specialize (IH (length (c' :: r')) ltac:(cbn; lia) (c' :: r') eq_refl). cbn in IH. lia.
  - destruct (strchr symbols c); cbn.
    + specialize (IH (length r) ltac:(lia) r eq_refl). lia.
    + specialize (IH (length (drop_while word_char r)) ltac:(lia) _ eq_refl). lia.
Qed.
End lexing.

(** ** The characters as tokens *)

Section scanner.
Context (buf : list byte) (es : nat).
Hypothesis Hes : (es < length buf)%nat.
Hypothesis Hend : buf !!! es = NUL.
Hypothesis Hnul : ∀ i, (i < es)%nat → buf !!! i ≠ NUL.

Definition rest (p : nat) : list byte := drop p (take es buf).

Lemma rest_cons p : (p < es)%nat → rest p = (buf !!! p) :: rest (S p).
Proof.
  intros Hp. unfold rest. apply drop_S. rewrite lookup_take_lt by done. apply list_lookup_lookup_total_lt. lia.
Qed.

Lemma rest_end : rest es = [].
Proof. unfold rest. apply drop_ge. rewrite length_take. lia. Qed.

Lemma rest_length p : length (rest p) = (es - p)%nat.
Proof. unfold rest. rewrite length_drop, length_take. lia. Qed.

Lemma skip_ws_spec n p :
  (p + n = es)%nat → (p ≤ skip_ws buf n p ≤ es)%nat ∧ rest (skip_ws buf n p) = drop_while (strchr whitespace) (rest p).
Proof.
  revert p. induction n as [|n IH]; intros p Hp; cbn [skip_ws].
  - split; [lia|]. assert (p = es) as -> by lia. by rewrite rest_end.
  - rewrite (rest_cons p) by lia. cbn [drop_while]. destruct (strchr whitespace (buf !!! p)).
    + destruct (IH (S p)) as [H1 H2]; [lia|]. split; [lia|done].
    + split; [lia|]. by rewrite rest_cons by lia.
Qed.

Lemma skip_word_spec n p :
  (p + n = es)%nat →
  let e := skip_word buf n p in
  (p ≤ e ≤ es)%nat ∧ rest e = drop_while word_char (rest p) ∧ e = (p + length (take_while word_char (rest p)))%nat ∧
  (e = es ∨ word_char (buf !!! e) = false).
Proof.
  revert p. induction n as [|n IH]; intros p Hp; cbn [skip_word].
  - split; [lia|]. assert (p = es) as -> by lia. rewrite rest_end. cbn. split_and!; [done|lia|auto].
  - rewrite (rest_cons p) by lia. cbn [drop_while take_while]. fold (word_char (buf !!! p)). destruct (word_char (buf !!! p)) eqn:Ew.
    + destruct (IH (S p)) as (H1 & H2 & H3 & H4); [lia|]. cbn. split_and!; [lia|lia|done|lia|done].
    + cbn. split_and!; [lia|lia|by rewrite rest_cons by lia|lia|auto].
Qed.

(** A word of the text: a counted string that ends before a character outside words. *)
Definition word_span (a : span) (w : list byte) : Prop :=
  (a.2 ≤ es)%nat ∧ a.2 = (a.1 + length w)%nat ∧ take (length w) (rest a.1) = w ∧
  Forall (λ c, word_char c = true) w ∧ (a.2 = es ∨ word_char (buf !!! a.2) = false).

Definition at_toks (p : nat) (ts : list tok) : Prop := (p ≤ es)%nat ∧ ts = lex (rest p).

Lemma token_at_spec q :
  (q ≤ es)%nat → strchr whitespace (buf !!! q) = false →
  let '(ret, e) := token_at buf es q in
  (q ≤ e ≤ es)%nat ∧
  match lex (rest q) with
  | [] => ret = NUL ∧ q = es ∧ e = es
  | t :: ts => ts = lex (rest e) ∧ ret = (tok_kind t).1 ∧ (ret = "a"%byte → word_span (q, e) (tok_kind t).2) ∧ (q < e)%nat
  end.
Proof.
  intros Hq Hws. unfold token_at. case_bool_decide as E0.
  { assert (q = es) as ->; [|by rewrite rest_end; cbn]. destruct (decide (q = es)); [done|]. destruct (Hnul q); [lia|done]. }
  assert (Hlt : (q < es)%nat) by (destruct (decide (q = es)) as [->|]; [done|lia]).
  pose proof (rest_cons q Hlt) as Hr. rewrite lex_eq, Hr. cbn [drop_while]. rewrite Hws.
  destruct (strchr ["|"; "("; ")"; ";"; "&"; "<"]%byte (buf !!! q)) eqn:Es.
  { apply bool_decide_eq_true_1 in Es. rewrite bool_decide_eq_false_2 by (intros E; rewrite E in Es; set_solver).
    unfold strchr at 1. rewrite bool_decide_eq_true_2 by (unfold symbols; set_solver). cbn. split_and!; [lia|lia|done|done| |lia].
    intros E. rewrite E in Es. set_solver. }
  apply bool_decide_eq_false_1 in Es. case_bool_decide as Eg.
  { destruct (decide (S q = es)) as [Hl|Hl].
    - rewrite Hl, rest_end, Hend. rewrite bool_decide_eq_false_2 by done. cbn. rewrite ?Hl, ?rest_end, ?Eg. split_and!; [lia|lia|done|done|done|lia].
    - rewrite (rest_cons (S q)) by lia. case_bool_decide; cbn [tok_kind fst snd]; rewrite ?Eg; split_and!; try done; try lia. by rewrite <-rest_cons by lia. }
  assert (Hsym : strchr symbols (buf !!! q) = false) by (apply bool_decide_eq_false_2; unfold symbols; set_solver).
  rewrite Hsym. assert (Hwc : word_char (buf !!! q) = true) by (unfold word_char; by rewrite Hws, Hsym).
  destruct (skip_word_spec (es - q) q) as (H1 & H2 & H3 & H4); [lia|]. set (e := skip_word buf (es - q) q) in *.
  rewrite Hr in H2, H3. cbn in H2, H3. rewrite Hwc in H2, H3. cbn in H3. cbn [tok_kind fst snd]. split_and!; [lia|lia|by rewrite H2|done| |lia].
  intros _. split_and!; cbn [fst snd length]; [lia|lia| | |done].
  - rewrite Hr. cbn [take]. f_equal. rewrite <-(take_drop_while word_char (rest (S q))) at 2. by rewrite take_app_length.
  - constructor; [done|]. apply take_while_all.
Qed.

Lemma ws_stop p : (p ≤ es)%nat → strchr whitespace (buf !!! skip_ws buf (es - p) p) = false.
Proof.
  intros Hp. destruct (skip_ws_spec (es - p) p) as [H1 H2]; [lia|]. set (q := skip_ws buf (es - p) p) in *.
  destruct (decide (q = es)) as [->|]; [by rewrite Hend|]. rewrite (rest_cons q) in H2 by lia. symmetry in H2. by apply drop_while_head in H2.
Qed.

Lemma at_skip p ts : at_toks p ts → at_toks (skip_ws buf (es - p) p) ts.
Proof.
  intros [Hp ->]. destruct (skip_ws_spec (es - p) p) as [H1 H2]; [lia|]. split; [lia|]. by rewrite H2, lex_skip.
Qed.

Lemma gettoken_tokens : sim at_toks (tok_rel word_span) (char_gettoken buf es) tok_gettoken.
Proof.
  intros p ts Hp. pose proof (at_skip _ _ Hp) as [Hq ->]. pose proof (ws_stop p (proj1 Hp)) as Hw.
  unfold char_gettoken, mbind, M_bind, getS, putS, mret, M_ret. cbn beta iota zeta. set (q := skip_ws buf (es - p) p) in *.
  pose proof (token_at_spec q Hq Hw) as H. destruct (token_at buf es q) as [ret e]. destruct H as [He H]. unfold tok_gettoken.
  destruct (lex (rest q)) as [|t ts].
  - destruct H as (-> & -> & ->). split; [split; [done|by intros [=]]|]. apply at_skip. split; [done|]. by rewrite rest_end.
  - destruct H as (-> & -> & Hs & Hlt). split; [by split|]. apply at_skip. split; [lia|done].
Qed.

Lemma peek_tokens toks : toks ⊆ symbols → sim at_toks eq (char_peek buf es toks) (tok_peek toks).
Proof.
  intros Hs p ts Hp. pose proof (at_skip _ _ Hp) as Hq. pose proof (ws_stop p (proj1 Hp)) as Hw.
  unfold char_peek, mbind, M_bind, getS, putS, mret, M_ret, tok_peek, gets. cbn beta iota zeta. set (q := skip_ws buf (es - p) p) in *.
  split; [|done]. destruct Hq as [Hq ->]. destruct (decide (q = es)) as [->|]; [by rewrite Hend, rest_end|].
  rewrite bool_decide_eq_false_2 by (apply Hnul; lia). cbn [negb andb]. rewrite lex_eq, (rest_cons q) by lia. cbn [drop_while]. rewrite Hw.
  case_bool_decide as Eg.
  - destruct (rest (S q)) as [|c r]; [done|]. case_bool_decide; cbn; [by rewrite Eg|done].
  - by destruct (strchr symbols (buf !!! q)).
Qed.
End scanner.
