(* ===== verification/ShellParse.v ===== *)
(** * The grammar of the shell (src/sh.c)

    Derivation trees, the tokens and the command of a derivation, and the proof
    that the parser finds the derivation of its input or reports that there is
    none; then the strings that [nulterminate] makes. *)

From S2P Require Import Prelude Fcntl CString Shell.
Import (notations) Corelib.Init.Byte.

Abbreviation word := (list byte).

Inductive rop : Type := RIn | ROut | RApp.
Inductive item : Type := IWord (w : word) | IRedir (o : rop) (f : word).

(** line ::= pipe '&'* | pipe '&'* ';' line, pipe ::= exec | exec '|' pipe, and
    exec ::= '(' line ')' redirections | words and redirections *)
Inductive sline : Type := LEnd (p : spipe) (bg : nat) | LSeq (p : spipe) (bg : nat) (l : sline)
with spipe : Type := PEnd (e : sexec) | PSeq (e : sexec) (p : spipe)
with sexec : Type := EBlock (l : sline) (rs : list (rop * word)) | ESimple (its : list item).

Scheme sline_mut := Induction for sline Sort Prop
with spipe_mut := Induction for spipe Sort Prop
with sexec_mut := Induction for sexec Sort Prop.
Combined Scheme grammar_ind from sline_mut, spipe_mut, sexec_mut.

(** ** Tokens of a derivation *)

Definition rop_tok (o : rop) : tok := match o with RIn => TSym "<"%byte | ROut => TSym ">"%byte | RApp => TApp end.
Definition toks_redirs (rs : list (rop * word)) : list tok := rs ≫= λ '(o, f), [rop_tok o; TWord f].
Definition toks_items (its : list item) : list tok :=
  its ≫= λ i, match i with IWord w => [TWord w] | IRedir o f => [rop_tok o; TWord f] end.

Fixpoint toks_line (l : sline) : list tok :=
  match l with
  | LEnd p bg => toks_pipe p ++ replicate bg (TSym "&"%byte)
  | LSeq p bg l => toks_pipe p ++ replicate bg (TSym "&"%byte) ++ TSym ";"%byte :: toks_line l
  end
with toks_pipe (p : spipe) : list tok :=
  match p with PEnd e => toks_exec e | PSeq e p => toks_exec e ++ TSym "|"%byte :: toks_pipe p end
with toks_exec (e : sexec) : list tok :=
  match e with
  | EBlock l rs => TSym "("%byte :: toks_line l ++ TSym ")"%byte :: toks_redirs rs
  | ESimple its => toks_items its
  end.

(** ** The command of a derivation *)

Definition redir_tree (c : cmd word) (x : rop * word) : cmd word :=
  match x with
  | (RIn, f) => REDIR c f O_RDONLY 0
  | (ROut, f) | (RApp, f) => REDIR c f (Z.lor O_WRONLY O_CREATE) 1
  end.
Definition words (its : list item) : list word := omap (λ i, match i with IWord w => Some w | _ => None end) its.
Definition redirs (its : list item) : list (rop * word) := omap (λ i, match i with IRedir o f => Some (o, f) | _ => None end) its.

Fixpoint tree_line (l : sline) : cmd word :=
  match l with
  | LEnd p bg => Nat.iter bg BACK (tree_pipe p)
  | LSeq p bg l => LIST (Nat.iter bg BACK (tree_pipe p)) (tree_line l)
  end
with tree_pipe (p : spipe) : cmd word :=
  match p with PEnd e => tree_exec e | PSeq e p => PIPE (tree_exec e) (tree_pipe p) end
with tree_exec (e : sexec) : cmd word :=
  match e with
  | EBlock l rs => foldl redir_tree (tree_line l) rs
  | ESimple its => foldl redir_tree (EXEC (words its)) (redirs its)
  end.

(** No command has more arguments than fit. *)
Fixpoint ok_line (l : sline) : Prop :=
  match l with LEnd p _ => ok_pipe p | LSeq p _ l => ok_pipe p ∧ ok_line l end
with ok_pipe (p : spipe) : Prop :=
  match p with PEnd e => ok_exec e | PSeq e p => ok_exec e ∧ ok_pipe p end
with ok_exec (e : sexec) : Prop :=
  match e with EBlock l _ => ok_line l | ESimple its => (length (words its) < MAXARGS)%nat end.

(** ** Token lists *)

Definition tok_ok (t : tok) : Prop :=
  match t with TSym c => c ∈ symbols | TApp => True | TWord w => ∃ c r, w = c :: r ∧ word_char c = true end.

Lemma lex_ok l : Forall tok_ok (lex l).
Proof.
  remember (length l) as n eqn:Hn. revert l Hn. induction (lt_wf n) as [n _ IH]. intros l ->. rewrite lex_eq.
  pose proof (drop_while_length (strchr whitespace) l) as Hd. destruct (drop_while _ l) as [|c r] eqn:E; [constructor|]. cbn in Hd.
  pose proof (drop_while_length word_char r) as Hw. apply drop_while_head in E.
  case_bool_decide as Eg.
  - assert (Hg : tok_ok (TSym c)) by (rewrite Eg; cbn; unfold symbols; set_solver). destruct r as [|c' r']; [constructor; [done|constructor]|]. cbn in Hd.
    case_bool_decide; constructor; try done.
    + apply (IH (length r')); [lia|done].
    + apply (IH (length (c' :: r'))); [cbn; lia|done].
  - destruct (strchr symbols c) eqn:Es; constructor.
    + by apply bool_decide_eq_true_1 in Es.
    + apply (IH (length r)); [lia|done].
    + exists c. eexists. split; [done|]. unfold word_char. by rewrite E, Es.
    + apply (IH (length (drop_while word_char r))); [lia|done].
Qed.

Definition head_in (toks : list byte) (ts : list tok) : bool :=
  match ts with [] => false | t :: _ => strchr toks (tok_first t) end.

Lemma head_word toks w ts : tok_ok (TWord w) → bool_decide (toks ⊆ symbols) = true → head_in toks (TWord w :: ts) = false.
Proof.
  intros (c & r & -> & Hc) Hs%bool_decide_eq_true_1. cbn. apply bool_decide_eq_false_2. intros Hin%Hs.
  unfold word_char in Hc. unfold strchr in Hc. rewrite (bool_decide_eq_true_2 (c ∈ symbols)) in Hc by done. by rewrite andb_false_r in Hc.
Qed.

Section calls.
Context {B : Type}.
Implicit Types (Q : B → list tok → Prop).

Lemma wpp_peek toks (k : bool → M (list tok) B) Q E ts : wpp (k (head_in toks ts)) Q E ts → wpp (peek toks ≫= k) Q E ts.
Proof. done. Qed.
Lemma wpp_token (k : byte * word → M (list tok) B) Q E t ts : wpp (k (tok_kind t)) Q E ts → wpp (gettoken ≫= k) Q E (t :: ts).
Proof. done. Qed.
Lemma wpp_ret b Q E ts : Q b ts → wpp (mret b) Q E ts.
Proof. done. Qed.
End calls.

(** The next token is one of these symbols, or there is none. *)
Definition follow (cs : list byte) (ts : list tok) : Prop :=
  match ts with [] => True | TSym c :: _ => c ∈ cs | _ => False end.

Lemma follow_mono cs ds ts : cs ⊆ ds → follow cs ts → follow ds ts.
Proof. intros Hs. destruct ts as [|[c| |w] ts]; cbn; auto. Qed.

Lemma follow_head cs toks ts : follow cs ts → bool_decide (Forall (.∉ toks) cs) = true → head_in toks ts = false.
Proof.
  intros Hf Hd%bool_decide_eq_true_1. destruct ts as [|[c| |w] ts]; cbn in *; [done| |done|done].
  apply bool_decide_eq_false_2. intros Hc. rewrite Forall_forall in Hd. by apply (Hd c).
Qed.

Lemma sym_not c d : c ∈ symbols → (d ∉ symbols) → c ≠ d.
Proof. by intros Hc Hd ->. Qed.

Lemma not_sym d : bool_decide (d ∉ symbols) = true → (d ∉ symbols).
Proof. apply bool_decide_eq_true_1. Qed.

(** The item that a token list starts with, as the items of [parseexec]. *)
Definition add_item (c : cmd word) (i : item) : cmd word :=
  match i with IWord w => add_arg w c | IRedir o f => redir_tree c (o, f) end.

Lemma add_arg_redir w c x : add_arg w (redir_tree c x) = redir_tree (add_arg w c) x.
Proof. by destruct x as [[] f]. Qed.

Lemma add_arg_redirs w rs c : add_arg w (foldl redir_tree c rs) = foldl redir_tree (add_arg w c) rs.
Proof. revert c. induction rs as [|x rs IH]; intros c; cbn; [done|]. by rewrite IH, add_arg_redir. Qed.

(** Arguments and redirections commute. *)
Lemma add_items_exec its argv rs :
  foldl add_item (foldl redir_tree (EXEC argv) rs) its = foldl redir_tree (EXEC (argv ++ words its)) (rs ++ redirs its).
Proof.
  revert argv rs. induction its as [|[w|o f] its IH]; intros argv rs.
  - cbn. by rewrite !app_nil_r.
  - cbn. rewrite add_arg_redirs. cbn [add_arg]. rewrite IH. by rewrite <-app_assoc.
  - change (foldl add_item ?x (IRedir o f :: its)) with (foldl add_item (foldl redir_tree x [(o, f)]) its). rewrite <-foldl_app, IH. by rewrite <-app_assoc.
Qed.

Lemma redircmd_tree c o f : redircmd c (tok_kind (rop_tok o)).1 f = redir_tree c (o, f).
Proof. by destruct o. Qed.

(** Redirections as items. *)
Definition redir_items (rs : list (rop * word)) : list item := (λ x, IRedir x.1 x.2) <$> rs.

Lemma redir_items_spec rs :
  toks_items (redir_items rs) = toks_redirs rs ∧ words (redir_items rs) = [] ∧ redirs (redir_items rs) = rs ∧
  ∀ c, foldl add_item c (redir_items rs) = foldl redir_tree c rs.
Proof.
  induction rs as [|[o f] rs (H1 & H2 & H3 & H4)]; [done|]. unfold redir_items in *. cbn. split_and!.
  - f_equal. f_equal. exact H1.
  - exact H2.
  - f_equal. exact H3.
  - intros c. apply H4.
Qed.

Lemma toks_items_app xs ys : toks_items (xs ++ ys) = toks_items xs ++ toks_items ys.
Proof. apply bind_app. Qed.

Lemma words_app xs ys : words (xs ++ ys) = words xs ++ words ys.
Proof. apply omap_app. Qed.

(** ** The parser is sound *)

Section sound.
Context (fuel : nat).
Abbreviation any := (λ _ : string, True).

Lemma wpp_word {B} (k : word → M (list tok) B) Q msg ts :
  Forall tok_ok ts → (∀ w ts', ts = TWord w :: ts' → wpp (k w) Q any ts') →
  wpp ('(t, f) ← gettoken; if bool_decide (t ≠ "a"%byte) then panic msg else k f) Q any ts.
Proof.
  intros Hok Hk. destruct ts as [|t ts]; [done|]. apply wpp_token. apply Forall_cons in Hok as [Ht _].
  destruct t as [c| |w]; cbn [tok_kind]; [|done|].
  - rewrite bool_decide_eq_true_2; [done|]. apply sym_not; [done|]. by apply not_sym.
  - rewrite bool_decide_eq_false_2 by (intros E; by apply E). by apply Hk.
Qed.

Lemma head_redir ts : Forall tok_ok ts → head_in ["<"; ">"]%byte ts = true → ∃ o ts', ts = rop_tok o :: ts'.
Proof.
  intros Hok H. destruct ts as [|[c| |w] ts]; [done| | |].
  - cbn in H. apply bool_decide_eq_true_1 in H. rewrite !elem_of_cons, elem_of_nil in H.
    destruct H as [->|[->|[]]]; [by exists RIn, ts|by exists ROut, ts].
  - by exists RApp, ts.
  - apply Forall_cons in Hok as [Hw _]. by rewrite head_word in H.
Qed.

Lemma redirs_sound n c ts :
  Forall tok_ok ts → (length ts < n)%nat →
  wpp (parseredirs n c) (λ c' ts', ∃ rs, ts = toks_redirs rs ++ ts' ∧ c' = foldl redir_tree c rs) any ts.
Proof.
  revert c ts. induction n as [|n IH]; intros c ts Hok Hn; [lia|]. cbn [parseredirs]. apply wpp_peek.
  destruct (head_in _ ts) eqn:Hh; [|apply wpp_ret; by exists []].
  apply head_redir in Hh as (o & ts1 & ->); [|done]. apply Forall_cons in Hok as [_ Hok]. apply wpp_token.
  rewrite (surjective_pairing (tok_kind _)). apply wpp_word; [done|]. intros w ts2 ->. apply Forall_cons in Hok as [_ Hok]. cbn in Hn.
  eapply wpp_mono; [apply IH; [done|lia]| |done]. intros c' ts' (rs & -> & ->). exists ((o, w) :: rs). split; [done|].
  cbn [foldl]. by rewrite redircmd_tree.
Qed.

Lemma args_sound n argc c ts :
  Forall tok_ok ts → (length ts < n)%nat → (length ts < fuel)%nat → (argc < MAXARGS)%nat →
  wpp (parseargs fuel n argc c) (λ c' ts', ∃ its,
    ts = toks_items its ++ ts' ∧ c' = foldl add_item c its ∧ (argc + length (words its) < MAXARGS)%nat) any ts.
Proof.
  revert argc c ts. induction n as [|n IH]; intros argc c ts Hok Hn Hf Ha; [lia|]. cbn [parseargs]. apply wpp_peek.
  destruct (head_in _ ts) eqn:Hh; [apply wpp_ret; exists []; cbn; split_and!; [done|done|lia]|].
  destruct ts as [|t ts]; [exists []; cbn; split_and!; [done|done|lia]|]. apply wpp_token.
  apply Forall_cons in Hok as [Ht Hok]. cbn in Hn, Hf. destruct t as [d| |w]; cbn [tok_kind]; [|done|].
  - rewrite bool_decide_eq_false_2 by (apply sym_not; [done|by apply not_sym]). rewrite bool_decide_eq_true_2; [done|]. apply sym_not; [done|by apply not_sym].
  - rewrite bool_decide_eq_false_2 by done. rewrite bool_decide_eq_false_2 by (intros E; by apply E).
    destruct (Nat.leb_spec MAXARGS (S argc)); [done|]. apply wpp_bind.
    eapply wpp_mono; [apply redirs_sound; [done|lia]| |done]. intros c1 ts1 (rs & -> & ->). apply Forall_app in Hok as [_ Hok]. rewrite length_app in Hn, Hf.
    eapply wpp_mono; [apply IH; [done|lia|lia|lia]| |done]. intros c2 ts2 (its & -> & -> & Hl).
    destruct (redir_items_spec rs) as (H1 & H2 & _ & H4). exists (IWord w :: redir_items rs ++ its). split_and!.
    + change (toks_items (IWord w :: ?x)) with (TWord w :: toks_items x). rewrite toks_items_app, H1. cbn. by rewrite <-app_assoc.
    + cbn. by rewrite foldl_app, H4.
    + change (words (IWord w :: ?x)) with (w :: words x). rewrite words_app, H2. cbn. lia.
Qed.

Lemma head_sym c ts : Forall tok_ok ts → c ∈ symbols → c ≠ ">"%byte → head_in [c] ts = true → ∃ ts', ts = TSym c :: ts'.
Proof.
  intros Hok Hc Hg H. destruct ts as [|[d| |w] ts]; [done| | |].
  - cbn in H. apply bool_decide_eq_true_1, list_elem_of_singleton in H as ->. by exists ts.
  - cbn in H. apply bool_decide_eq_true_1, list_elem_of_singleton in H. congruence.
  - apply Forall_cons in Hok as [Hw _]. rewrite head_word in H; [done|done|]. apply bool_decide_eq_true_2. set_solver.
Qed.

Lemma backs_sound n c ts :
  Forall tok_ok ts → (length ts < n)%nat →
  wpp (parsebacks n c) (λ c' ts', ∃ bg, ts = replicate bg (TSym "&"%byte) ++ ts' ∧ c' = Nat.iter bg BACK c) any ts.
Proof.
  revert c ts. induction n as [|n IH]; intros c ts Hok Hn; [lia|]. cbn [parsebacks]. apply wpp_peek.
  destruct (head_in _ ts) eqn:Hh; [|apply wpp_ret; by exists 0%nat].
  apply head_sym in Hh as (ts1 & ->); [|done|unfold symbols; set_solver|done]. apply wpp_token. apply Forall_cons in Hok as [_ Hok]. cbn in Hn.
  eapply wpp_mono; [apply IH; [done|lia]| |done]. intros c' ts' (bg & -> & ->). exists (S bg). split; [done|]. by rewrite Nat.iter_succ_r.
Qed.

(** [derives to tree ok n m]: with fuel from [n] on, [m] consumes the tokens of a derivation and returns its command. *)
Definition derives {D} (toks : D → list tok) (tree : D → cmd word) (ok : D → Prop) (m : M (list tok) (cmd word)) (ts : list tok) : Prop :=
  wpp m (λ c ts', ∃ d, ts = toks d ++ ts' ∧ c = tree d ∧ ok d) any ts.

(** The rest of [ts] after the tokens [x] is well-formed and shorter. *)
Lemma suffix_ok (x ts : list tok) : Forall tok_ok (x ++ ts) → Forall tok_ok ts ∧ (length ts ≤ length (x ++ ts))%nat.
Proof. intros [_ H]%Forall_app. rewrite length_app. split; [done|lia]. Qed.

Lemma parse_sound n ts :
  Forall tok_ok ts → (length ts < fuel)%nat →
  ((4 * length ts + 4 ≤ n)%nat → derives toks_line tree_line ok_line (parseline fuel n) ts) ∧
  ((4 * length ts + 3 ≤ n)%nat → derives toks_pipe tree_pipe ok_pipe (parsepipe fuel n) ts) ∧
  ((4 * length ts + 2 ≤ n)%nat → derives toks_exec tree_exec ok_exec (parseexec fuel n) ts) ∧
  ((4 * length ts + 1 ≤ n)%nat → head_in ["("]%byte ts = true → derives toks_exec tree_exec ok_exec (parseblock fuel n) ts).
Proof.
  revert ts. induction n as [|n IH]; intros ts Hok Hf; [split_and!; lia|]. unfold derives. cbn [parseline parsepipe parseexec parseblock]. split_and!.
  - intros Hn. destruct (IH ts Hok Hf) as (_ & Hp & _). apply wpp_bind. eapply wpp_mono; [apply Hp; lia| |done]. clear Hp.
    intros c ts1 (p & -> & -> & Hokp). apply suffix_ok in Hok as [Hok Hl]. apply wpp_bind.
    eapply wpp_mono; [apply backs_sound; [done|lia]| |done]. intros c ts2 (bg & -> & ->). apply suffix_ok in Hok as [Hok Hl2].
    apply wpp_peek. destruct (head_in _ ts2) eqn:Hh.
    + apply head_sym in Hh as (ts3 & ->); [|done|unfold symbols; set_solver|done]. apply wpp_token. apply Forall_cons in Hok as [_ Hok]. cbn in Hl2.
      destruct (IH ts3 Hok ltac:(lia)) as (Hl3 & _). apply wpp_bind. eapply wpp_mono; [apply Hl3; lia| |done].
      intros c ts4 (l & -> & -> & Hokl). apply wpp_ret. exists (LSeq p bg l). cbn. by rewrite <-!app_assoc.
    + apply wpp_ret. exists (LEnd p bg). cbn. by rewrite <-!app_assoc.
  - intros Hn. destruct (IH ts Hok Hf) as (_ & _ & He & _). apply wpp_bind. eapply wpp_mono; [apply He; lia| |done]. clear He.
    intros c ts1 (e & -> & -> & Hoke). apply suffix_ok in Hok as [Hok Hl]. apply wpp_peek. destruct (head_in _ ts1) eqn:Hh.
    + apply head_sym in Hh as (ts3 & ->); [|done|unfold symbols; set_solver|done]. apply wpp_token. apply Forall_cons in Hok as [_ Hok]. cbn in Hl.
      destruct (IH ts3 Hok ltac:(lia)) as (_ & Hl3 & _). apply wpp_bind. eapply wpp_mono; [apply Hl3; lia| |done].
      intros c ts4 (l & -> & -> & Hokl). apply wpp_ret. exists (PSeq e l). cbn. by rewrite <-!app_assoc.
    + apply wpp_ret. exists (PEnd e). done.
  - intros Hn. apply wpp_peek. destruct (head_in _ ts) eqn:Hh.
    { destruct (IH ts Hok Hf) as (_ & _ & _ & Hb). apply Hb; [lia|done]. }
    apply wpp_bind. eapply wpp_mono; [apply redirs_sound; [done|lia]| |done]. intros c ts1 (rs & -> & ->). apply suffix_ok in Hok as [Hok Hl].
    eapply wpp_mono; [apply args_sound; [done|lia|lia|unfold MAXARGS; lia]| |done]. intros c ts2 (its & -> & -> & Hw).
    destruct (redir_items_spec rs) as (H1 & H2 & H3 & H4). exists (ESimple (redir_items rs ++ its)). cbn [toks_exec tree_exec ok_exec]. split_and!.
    + rewrite toks_items_app, H1. by rewrite <-app_assoc.
    + rewrite add_items_exec. unfold redirs in *. by rewrite words_app, H2, omap_app, H3.
    + by rewrite words_app, H2.
  - intros Hn Hh. apply wpp_peek. rewrite Hh. cbn [negb].
    apply head_sym in Hh as (ts1 & ->); [|done|unfold symbols; set_solver|done]. apply wpp_token. apply Forall_cons in Hok as [_ Hok]. cbn in Hn, Hf.
    destruct (IH ts1 Hok ltac:(lia)) as (Hl & _). apply wpp_bind. eapply wpp_mono; [apply Hl; lia| |done]. clear Hl.
    intros c ts2 (l & -> & -> & Hokl). apply suffix_ok in Hok as [Hok Hl]. apply wpp_peek. destruct (head_in _ ts2) eqn:Hh; [|done]. cbn [negb].
    apply head_sym in Hh as (ts3 & ->); [|done|unfold symbols; set_solver|done]. apply wpp_token. apply Forall_cons in Hok as [_ Hok]. cbn in Hl.
    eapply wpp_mono; [apply redirs_sound; [done|lia]| |done]. intros c ts4 (rs & -> & ->). exists (EBlock l rs). cbn. by rewrite <-app_assoc.
Qed.
End sound.

(** ** The parser is complete *)

Section complete.
Context (fuel : nat).

Lemma wp_peek {B} toks (k : bool → M (list tok) B) Q ts : wp (k (head_in toks ts)) Q ts → wp (peek toks ≫= k) Q ts.
Proof. done. Qed.
Lemma wp_token {B} (k : byte * word → M (list tok) B) Q t ts : wp (k (tok_kind t)) Q ts → wp (gettoken ≫= k) Q (t :: ts).
Proof. done. Qed.

Definition returns (m : M (list tok) (cmd word)) (ts : list tok) (c : cmd word) (ts' : list tok) : Prop :=
  wp m (λ c' ts'', ts'' = ts' ∧ c' = c) ts.

Lemma returns_bind {B} m (k : cmd word → M (list tok) B) Q ts c ts' : returns m ts c ts' → wp (k c) Q ts' → wp (m ≫= k) Q ts.
Proof. intros Hm Hk. apply wp_bind. eapply wp_mono; [apply Hm|]. by intros ? ? [-> ->]. Qed.

Lemma redirs_complete rs n c ts :
  head_in ["<"; ">"]%byte ts = false → (length (toks_redirs rs ++ ts) < n)%nat →
  returns (parseredirs n c) (toks_redirs rs ++ ts) (foldl redir_tree c rs) ts.
Proof.
  revert n c. induction rs as [|[o f] rs IH]; intros n c Hh Hn; (destruct n as [|n]; [lia|]); cbn [parseredirs]; apply wp_peek.
  - cbn [toks_redirs mbind list_bind app]. by rewrite Hh.
  - assert (head_in ["<"; ">"]%byte (toks_redirs ((o, f) :: rs) ++ ts) = true) as -> by (by destruct o).
    change (toks_redirs ((o, f) :: rs) ++ ts) with (rop_tok o :: TWord f :: toks_redirs rs ++ ts) in *. apply wp_token.
    rewrite (surjective_pairing (tok_kind (rop_tok o))). apply wp_token. cbn [tok_kind]. rewrite bool_decide_eq_false_2 by (intros E; by apply E).
    rewrite redircmd_tree. apply IH; [done|]. cbn in Hn. lia.
Qed.

Definition no_redir (its : list item) : Prop := match its with IRedir _ _ :: _ => False | _ => True end.

Lemma split_items its : ∃ rs its', its = redir_items rs ++ its' ∧ no_redir its'.
Proof.
  induction its as [|[w|o f] its IH]; [by exists [], []|by exists [], (IWord w :: its)|]. destruct IH as (rs & its' & -> & Hn). by exists ((o, f) :: rs), its'.
Qed.

Abbreviation stop := ["|"; ")"; "&"; ";"]%byte.

Lemma head_items its ts :
  Forall tok_ok (toks_items its) → no_redir its → follow stop ts → head_in ["<"; ">"]%byte (toks_items its ++ ts) = false.
Proof.
  intros Hok Hn Hf. destruct its as [|[w|o f] its]; [|change (toks_items (IWord w :: its)) with (TWord w :: toks_items its) in *; apply Forall_cons in Hok as [Hw _]; by apply head_word|done]. by eapply follow_head.
Qed.

Lemma args_complete its n argc c ts :
  Forall tok_ok (toks_items its) → no_redir its → follow stop ts → (argc + length (words its) < MAXARGS)%nat →
  (length (toks_items its ++ ts) < n)%nat → (length (toks_items its ++ ts) < fuel)%nat →
  returns (parseargs fuel n argc c) (toks_items its ++ ts) (foldl add_item c its) ts.
Proof.
  revert its argc c. induction n as [|n IH]; intros its argc c Hok Hno Hst Hw Hn Hf; [lia|]. cbn [parseargs].
  destruct its as [|[w|o f] its]; [| |done].
  - cbn [toks_items mbind list_bind app] in *. apply wp_peek. destruct ts as [|[d| |w] ts]; [done| |done|done].
    cbn in Hst. cbn [head_in tok_first]. unfold strchr. by rewrite bool_decide_eq_true_2.
  - change (toks_items (IWord w :: its)) with (TWord w :: toks_items its) in *. apply Forall_cons in Hok as [Hwd Hok].
    apply wp_peek. rewrite <-app_comm_cons, head_word by done. apply wp_token. cbn [tok_kind].
    rewrite bool_decide_eq_false_2 by done. rewrite bool_decide_eq_false_2 by (intros E; by apply E).
    change (words (IWord w :: its)) with (w :: words its) in Hw. cbn in Hw, Hn, Hf.
    rewrite (proj2 (Nat.leb_gt _ _)) by lia.
    destruct (split_items its) as (rs & its' & -> & Hno'). destruct (redir_items_spec rs) as (H1 & H2 & _ & H4).
    rewrite toks_items_app, H1, <-app_assoc in *. rewrite words_app, H2 in Hw. apply Forall_app in Hok as [_ Hok]. rewrite length_app in Hn, Hf.
    eapply returns_bind; [apply redirs_complete; [by apply head_items|rewrite length_app; lia]|].
    cbn [foldl add_item]. rewrite foldl_app, H4. apply IH; [done|done|done|cbn in Hw; lia|lia|lia].
Qed.

Lemma backs_complete bg n c ts :
  head_in ["&"]%byte ts = false → (length (replicate bg (TSym "&"%byte) ++ ts) < n)%nat →
  returns (parsebacks n c) (replicate bg (TSym "&"%byte) ++ ts) (Nat.iter bg BACK c) ts.
Proof.
  revert n c. induction bg as [|bg IH]; intros n c Hh Hn; (destruct n as [|n]; [lia|]); cbn [parsebacks]; apply wp_peek.
  - cbn [replicate app]. by rewrite Hh.
  - cbn [replicate app head_in tok_first]. cbn in Hn. apply wp_token. rewrite Nat.iter_succ_r. apply IH; [done|lia].
Qed.

(** After an [EXEC] of words, a '(' does not follow. *)
Lemma exec_head its ts : Forall tok_ok (toks_items its) → follow stop ts → head_in ["("]%byte (toks_items its ++ ts) = false.
Proof.
  intros Hok Hf. destruct its as [|[w|o f] its]; [|change (toks_items (IWord w :: its)) with (TWord w :: toks_items its) in *; apply Forall_cons in Hok as [Hw _]; by apply head_word|by destruct o]. by eapply follow_head.
Qed.

Definition complete_at {D} (toks : D → list tok) (tree : D → cmd word) (ok : D → Prop) (fol : list byte) (k : nat)
    (m : nat → M (list tok) (cmd word)) (d : D) : Prop :=
  ∀ n ts, Forall tok_ok (toks d) → ok d → follow fol ts → (4 * length (toks d ++ ts) + k ≤ n)%nat → (length (toks d ++ ts) < fuel)%nat →
    returns (m n) (toks d ++ ts) (tree d) ts.

Abbreviation line_at := (complete_at toks_line tree_line ok_line [")"]%byte 4 (parseline fuel)).
Abbreviation pipe_at := (complete_at toks_pipe tree_pipe ok_pipe [")"; "&"; ";"]%byte 3 (parsepipe fuel)).
Abbreviation exec_at := (complete_at toks_exec tree_exec ok_exec stop 2 (parseexec fuel)).

Lemma follow_backs bg ts : follow [")"; "&"; ";"]%byte ts → follow [")"; "&"; ";"]%byte (replicate bg (TSym "&"%byte) ++ ts).
Proof. destruct bg; cbn; [done|]. set_solver. Qed.

(** The start of a line, up to the check for ';'. *)
Lemma backs_line p bg n ts (k : cmd word → M (list tok) (cmd word)) Q :
  pipe_at p → Forall tok_ok (toks_pipe p) → ok_pipe p → follow [")"; ";"]%byte ts →
  (4 * length (toks_pipe p ++ replicate bg (TSym "&"%byte) ++ ts) + 3 ≤ n)%nat → (length (toks_pipe p ++ replicate bg (TSym "&"%byte) ++ ts) < fuel)%nat →
  wp (k (Nat.iter bg BACK (tree_pipe p))) Q ts →
  wp (c ← parsepipe fuel n; c ← parsebacks fuel c; k c) Q (toks_pipe p ++ replicate bg (TSym "&"%byte) ++ ts).
Proof.
  intros Hp Hok Hokp Hfol Hn Hf Hk. eapply returns_bind; [apply Hp; [done|done| |lia|lia]|].
  - apply follow_backs. eapply follow_mono; [|done]. set_solver.
  - eapply returns_bind; [apply backs_complete|done].
    + by eapply follow_head.
    + rewrite length_app in Hf. lia.
Qed.

Lemma parse_complete : (∀ l, line_at l) ∧ (∀ p, pipe_at p) ∧ (∀ e, exec_at e).
Proof.
  apply grammar_ind; unfold complete_at; cbn [toks_line toks_pipe toks_exec tree_line tree_pipe tree_exec ok_line ok_pipe ok_exec].
  - intros p Hp bg [|n] ts Hok Hokp Hfol Hn Hf; [lia|]. cbn [parseline]. apply Forall_app in Hok as [Hok _]. rewrite <-!app_assoc in *.
    apply backs_line; [done|done|done|eapply follow_mono; [|done]; set_solver|lia|lia|]. apply wp_peek. by rewrite (follow_head [")"]%byte).
  - intros p Hp bg l Hl [|n] ts Hok [Hokp Hokl] Hfol Hn Hf; [lia|]. cbn [parseline].
    rewrite !Forall_app, Forall_cons in Hok. destruct Hok as (Hok & _ & _ & Hok'). rewrite <-!app_assoc in *. cbn [app] in *.
    apply backs_line; [done|done|done|cbn; set_solver|lia|lia|]. apply wp_peek. cbn [head_in tok_first]. apply wp_token.
    rewrite !length_app in Hn, Hf. cbn in Hn, Hf. eapply returns_bind; [apply Hl; [done|done|done|lia|lia]|done].
  - intros e He [|n] ts Hok Hoke Hfol Hn Hf; [lia|]. cbn [parsepipe]. eapply returns_bind; [apply He; [done|done| |lia|lia]|].
    + eapply follow_mono; [|done]. set_solver.
    + apply wp_peek. by rewrite (follow_head [")"; "&"; ";"]%byte).
  - intros e He p Hp [|n] ts Hok [Hoke Hokp] Hfol Hn Hf; [lia|]. cbn [parsepipe].
    rewrite Forall_app, Forall_cons in Hok. destruct Hok as (Hok & _ & Hok'). rewrite <-!app_assoc in *. cbn [app] in *.
    eapply returns_bind; [apply He; [done|done|cbn; set_solver|lia|lia]|]. apply wp_peek. cbn [head_in tok_first]. apply wp_token.
    rewrite !length_app in Hn, Hf. cbn in Hn, Hf. eapply returns_bind; [apply Hp; [done|done|done|lia|lia]|done].
  - intros l Hl rs [|[|n]] ts Hok Hokl Hfol Hn Hf; [lia|lia|]. cbn [parseexec]. apply wp_peek. cbn [app head_in tok_first].
    cbn [strchr]. change (strchr ["("]%byte "("%byte) with true. cbn [parseblock]. apply wp_peek. cbn [head_in tok_first]. apply wp_token.
    rewrite Forall_cons, Forall_app, Forall_cons in Hok. destruct Hok as (_ & Hok & _). rewrite <-!app_assoc in *. cbn [app length] in *.
    rewrite !length_app in Hn, Hf. cbn in Hn, Hf. rewrite ?length_app in Hn, Hf.
    eapply returns_bind; [apply Hl; [done|done|cbn; set_solver|rewrite length_app; cbn; rewrite ?length_app; lia..]|].
    apply wp_peek. cbn [head_in tok_first]. apply wp_token. apply redirs_complete; [by eapply follow_head|rewrite length_app; lia].
  - intros its [|n] ts Hok Hokl Hfol Hn Hf; [lia|]. cbn [parseexec]. apply wp_peek. rewrite exec_head by done.
    destruct (split_items its) as (rs & its' & -> & Hno'). destruct (redir_items_spec rs) as (H1 & H2 & H3 & H4).
    rewrite toks_items_app, H1, <-?app_assoc in *. apply Forall_app in Hok as [_ Hok]. rewrite length_app in Hn, Hf.
    rewrite words_app, H2 in Hokl. cbn in Hokl.
    eapply returns_bind; [apply redirs_complete; [by apply head_items|rewrite length_app; lia]|].
    unfold redirs. rewrite omap_app. fold (redirs (redir_items rs)) (redirs its'). rewrite H3, words_app, H2.
    rewrite <-(add_items_exec its' [] rs). apply args_complete; [done|done|done|cbn; lia|lia|lia].
Qed.
End complete.

(** ** Strings in the buffer *)

Fixpoint spans (c : cmd span) : list span :=
  match c with
  | EXEC argv => argv
  | REDIR c f _ _ => f :: spans c
  | PIPE l r | LIST l r => spans l ++ spans r
  | BACK c => spans c
  end.

Lemma ends_lookup (ss : list span) buf i :
  (i < length buf)%nat →
  foldl (λ buf (x : span), let '(_, eq) := x in <[eq := NUL]> buf) buf ss !!! i = if decide (i ∈ ss.*2) then NUL else buf !!! i.
Proof.
  revert buf. induction ss as [|[q e] ss IH]; intros buf Hi; cbn [foldl fmap list_fmap snd]; [done|].
  rewrite IH by (by rewrite length_insert). destruct (decide (i ∈ ss.*2)) as [Hin|Hin].
  - rewrite decide_True; [done|]. by right.
  - destruct (decide (i = e)) as [->|Hne].
    + rewrite decide_True by (by left). by rewrite list_lookup_total_insert_eq.
    + rewrite decide_False by (rewrite elem_of_cons; tauto). by rewrite list_lookup_total_insert_ne.
Qed.

Lemma ends_length (ss : list span) buf : length (foldl (λ buf (x : span), let '(_, eq) := x in <[eq := NUL]> buf) buf ss) = length buf.
Proof. revert buf. induction ss as [|[q e] ss IH]; intros buf; cbn [foldl]; [done|]. by rewrite IH, length_insert. Qed.

Lemma nulterminate_spec c buf :
  length (nulterminate c buf) = length buf ∧
  ∀ i, (i < length buf)%nat → nulterminate c buf !!! i = if decide (i ∈ (spans c).*2) then NUL else buf !!! i.
Proof.
  assert (Htwo : ∀ l r buf, (length (nulterminate l buf) = length buf ∧
      ∀ i, (i < length buf)%nat → nulterminate l buf !!! i = if decide (i ∈ (spans l).*2) then NUL else buf !!! i) →
    (∀ buf, length (nulterminate r buf) = length buf ∧
      ∀ i, (i < length buf)%nat → nulterminate r buf !!! i = if decide (i ∈ (spans r).*2) then NUL else buf !!! i) →
    length (nulterminate r (nulterminate l buf)) = length buf ∧
    ∀ i, (i < length buf)%nat → nulterminate r (nulterminate l buf) !!! i = if decide (i ∈ (spans l ++ spans r).*2) then NUL else buf !!! i).
  { intros l r b [H1 H2] H. destruct (H (nulterminate l b)) as [H3 H4]. split; [congruence|]. intros i Hi. rewrite H4, H2 by lia. rewrite fmap_app.
    destruct (decide (i ∈ (spans r).*2)) as [Hr|Hr].
    - rewrite decide_True; [done|]. apply elem_of_app. by right.
    - destruct (decide (i ∈ (spans l).*2)) as [Hl|Hl].
      + rewrite decide_True; [done|]. apply elem_of_app. by left.
      + rewrite decide_False; [done|]. rewrite elem_of_app. tauto. }
  revert buf. induction c as [argv|c IH [q e] mode fd|l IHl r IHr|l IHl r IHr|c IH]; intros buf; cbn [nulterminate spans].
  - split; [apply ends_length|]. intros. by apply ends_lookup.
  - destruct (IH buf) as [H1 H2]. split; [by rewrite length_insert|]. intros i Hi. cbn [fmap list_fmap snd]. destruct (decide (i = e)) as [->|Hne].
    + rewrite list_lookup_total_insert_eq by lia. rewrite decide_True; [done|]. by left.
    + rewrite list_lookup_total_insert_ne by done. rewrite H2 by done. destruct (decide (i ∈ (spans c).*2)) as [Hin|Hin].
      * rewrite decide_True; [done|]. by right.
      * rewrite decide_False; [done|]. rewrite elem_of_cons. tauto.
  - by apply Htwo.
  - by apply Htwo.
  - apply IH.
Qed.

Lemma until_nul_at (l w : list byte) q :
  (q + length w < length l)%nat → (∀ i, (i < length w)%nat → l !!! (q + i)%nat = w !!! i ∧ w !!! i ≠ NUL) → l !!! (q + length w)%nat = NUL →
  until_nul (drop q l) = w.
Proof.
  revert q. induction w as [|c w IH]; intros q Hl Hw He; cbn [length] in *.
  - rewrite (drop_S _ (l !!! q)) by (apply list_lookup_lookup_total_lt; lia). rewrite Nat.add_0_r in He. by rewrite He.
  - rewrite (drop_S _ (l !!! q)) by (apply list_lookup_lookup_total_lt; lia). destruct (Hw 0%nat) as [H0 Hn]; [lia|]. rewrite Nat.add_0_r in H0. rewrite H0.
    cbn in Hn |- *. rewrite IH; [by destruct c|lia| |].
    + intros i Hi. destruct (Hw (S i)) as [H1 H2]; [lia|]. rewrite <-Nat.add_succ_comm in H1. by split.
    + by rewrite <-Nat.add_succ_comm in He.
Qed.

Section strings.
Context (buf : list byte) (es : nat).
Hypothesis Hes : (es < length buf)%nat.
Hypothesis Hnul : ∀ i, (i < es)%nat → buf !!! i ≠ NUL.

Lemma word_at a w i : word_span buf es a w → (i < length w)%nat → buf !!! (a.1 + i)%nat = w !!! i ∧ (a.1 + i < es)%nat ∧ word_char (w !!! i) = true.
Proof.
  intros (He & Ha & Ht & Hw & _) Hi. split_and!; [|lia|].
  - assert (E : w !!! i = take (length w) (rest buf es a.1) !!! i) by (by rewrite Ht).
    rewrite E, lookup_total_take_lt by done. unfold rest. by rewrite lookup_total_drop, lookup_total_take_lt by lia.
  - rewrite Forall_forall in Hw. apply Hw. by apply list_elem_of_lookup_total_2.
Qed.

(** No end of a word lies inside a word. *)
Lemma ends_apart a w a' w' i : word_span buf es a w → word_span buf es a' w' → (i < length w)%nat → a'.2 ≠ (a.1 + i)%nat.
Proof.
  intros Ha Ha' Hi E. destruct (word_at a w i Ha Hi) as (H1 & H2 & H3). destruct Ha' as (_ & _ & _ & _ & [He|He]); [lia|].
  rewrite E, H1 in He. congruence.
Qed.

Lemma rel_spans c d : cmd_rel (word_span buf es) c d → ∀ a, a ∈ spans c → ∃ w, word_span buf es a w.
Proof.
  induction 1 as [a b Hab|c d f g mode fd Hc IH Hf|? ? ? ? ? IH1 ? IH2|? ? ? ? ? IH1 ? IH2|? ? ? IH]; cbn [spans]; intros x Hx.
  - apply list_elem_of_lookup_1 in Hx as [i Hi]. destruct (Forall2_lookup_l _ _ _ _ _ Hab Hi) as (w & _ & Hw). by exists w.
  - apply elem_of_cons in Hx as [->|Hx]; [by exists g|by apply IH].
  - apply elem_of_app in Hx as [?|?]; [by apply IH1|by apply IH2].
  - apply elem_of_app in Hx as [?|?]; [by apply IH1|by apply IH2].
  - by apply IH.
Qed.

(** The strings after [nulterminate] are the words. *)
Lemma rel_strings (ends : list nat) buf' c d :
  cmd_rel (word_span buf es) c d → length buf' = length buf →
  (∀ i, (i < length buf)%nat → buf' !!! i = if decide (i ∈ ends) then NUL else buf !!! i) →
  (∀ a, a ∈ spans c → a.2 ∈ ends) → (∀ e, e ∈ ends → ∃ a w, word_span buf es a w ∧ a.2 = e) →
  cmd_strings buf' c = d.
Proof.
  intros Hrel Hlen Hb Hin Hends.
  assert (Hstr : ∀ a w, a.2 ∈ ends → word_span buf es a w → until_nul (drop a.1 buf') = w).
  { intros a w Ha Hw. pose proof Hw as (He & Hl & _). apply until_nul_at; [lia| |].
    - intros i Hi. destruct (word_at a w i Hw Hi) as (H1 & H2 & H3). rewrite Hb by lia. rewrite decide_False.
      + split; [done|]. rewrite <-H1. by apply Hnul.
      + intros (a' & w' & Hw' & E)%Hends. by apply (ends_apart a w a' w' i Hw Hw' Hi).
    - rewrite <-Hl, Hb by lia. by rewrite decide_True. }
  clear Hends Hb Hlen. unfold cmd_strings.
  induction Hrel as [a b Hab|c d f g mode fd Hc IH Hf|? ? ? ? ? IH1 ? IH2|? ? ? ? ? IH1 ? IH2|? ? ? IH]; cbn [cmd_map spans] in *; f_equal.
  - induction Hab as [|[q e] w a b Hx Hab IH]; [done|]. cbn [fmap list_fmap]. f_equal.
    + apply (Hstr (q, e)); [|done]. apply Hin. by left.
    + apply IH. intros y Hy. apply Hin. by right.
  - apply IH. intros y Hy. apply Hin. by right.
  - destruct f as [q e]. apply (Hstr (q, e)); [|done]. apply Hin. by left.
  - apply IH1. intros y Hy. apply Hin, elem_of_app. by left.
  - apply IH2. intros y Hy. apply Hin, elem_of_app. by right.
  - apply IH1. intros y Hy. apply Hin, elem_of_app. by left.
  - apply IH2. intros y Hy. apply Hin, elem_of_app. by right.
  - apply IH. done.
Qed.

Lemma nulterminate_strings c d : cmd_rel (word_span buf es) c d → cmd_strings (nulterminate c buf) c = d.
Proof.
  intros Hrel. destruct (nulterminate_spec c buf) as [Hl Hb]. apply (rel_strings ((spans c).*2)); [done|done|done| |].
  - intros a Ha. by apply list_elem_of_fmap_2.
  - intros e (a & -> & Ha)%list_elem_of_fmap. destruct (rel_spans c d Hrel a Ha) as [w Hw]. by exists a, w.
Qed.
End strings.

(** ** The parser on a line *)

Section line.
Context (s junk : list byte).
Hypothesis Hs : Forall (λ c, c ≠ NUL) s.
#[local] Abbreviation buf := (s ++ NUL :: junk).
#[local] Abbreviation es := (length s).

Lemma buf_len_line : buf_len buf = es.
Proof.
  unfold buf_len. rewrite <-(drop_0 buf). f_equal. apply until_nul_at.
  - rewrite length_app. cbn. lia.
  - intros i Hi. cbn [Nat.add]. rewrite lookup_total_app_l by done. split; [done|]. rewrite Forall_forall in Hs. apply Hs.
    by apply list_elem_of_lookup_total_2.
  - cbn [Nat.add]. rewrite lookup_total_app_r by lia. by rewrite Nat.sub_diag.
Qed.

Lemma line_end : (es < length buf)%nat ∧ buf !!! es = NUL ∧ ∀ i, (i < es)%nat → buf !!! i ≠ NUL.
Proof.
  split_and!.
  - rewrite length_app. cbn. lia.
  - rewrite lookup_total_app_r by lia. by rewrite Nat.sub_diag.
  - intros i Hi. rewrite lookup_total_app_l by done. rewrite Forall_forall in Hs. apply Hs. by apply list_elem_of_lookup_total_2.
Qed.

Lemma rest_0 : rest buf es 0 = s.
Proof. unfold rest. rewrite drop_0. by apply take_app_length. Qed.

(** The character parser follows the token parser. *)
Lemma char_parse fuel n :
  sim (at_toks buf es) (cmd_rel (word_span buf es)) (char_parseline buf es fuel n) (parseline fuel n).
Proof.
  destruct line_end as (H1 & H2 & H3). apply (sim_parse (H := char_scanner buf es) (H0 := tok_scanner) (at_toks buf es) (word_span buf es)).
  - intros toks Ht. by apply peek_tokens.
  - by apply gettoken_tokens.
Qed.

Lemma at_end p ts : at_toks buf es p ts → skip_ws buf (es - p) p = es ↔ ts = [].
Proof.
  destruct line_end as (H1 & H2 & H3). intros Hp. pose proof (at_skip buf es H1 _ _ Hp) as [Hq Ht].
  pose proof (ws_stop buf es H1 H2 p (proj1 Hp)) as Hw. set (q := skip_ws _ _ _) in *. split.
  - intros E. rewrite Ht, E. by rewrite rest_end.
  - intros E. destruct (decide (q = es)) as [|Hne]; [done|]. rewrite E, lex_eq, rest_cons in Ht by lia. cbn [drop_while] in Ht. rewrite Hw in Ht.
    case_bool_decide; [destruct (rest _ _ _); [done|]; by case_bool_decide|]. by destruct (strchr symbols _).
Qed.

Lemma token_parse l n : toks_line l = lex s → ok_line l → (4 * es + 4 ≤ n)%nat → parseline (S es) n (lex s) = Ok (tree_line l) [].
Proof.
  intros Hl Hok Hn. destruct (parse_complete (S es)) as [Hc _]. pose proof (lex_length s) as Hlen.
  specialize (Hc l n []). rewrite app_nil_r, Hl in Hc. unfold returns in Hc. rewrite wp_iff in Hc.
  destruct Hc as (c & ts & Hr & -> & ->); [apply lex_ok|done|done|lia|lia|done].
Qed.

Lemma parsecmd_ok :
  wpp parsecmd (λ c buf', length buf' = length buf ∧ ∃ l, ok_line l ∧ toks_line l = lex s ∧ cmd_strings buf' c = tree_line l)
    (λ _, ¬ ∃ l, ok_line l ∧ toks_line l = lex s) buf.
Proof.
  destruct line_end as (H1 & H2 & H3). unfold wpp, parsecmd. rewrite buf_len_line. set (n := (4 * es + 4)%nat).
  assert (Hat : at_toks buf es 0 (lex s)) by (split; [lia|by rewrite rest_0]). pose proof (lex_length s) as Hlen.
  pose proof (char_parse (S es) n 0%nat (lex s) Hat) as Hsim.
  destruct (parse_sound (S es) n (lex s) (lex_ok s) ltac:(lia)) as [Hsnd _]. specialize (Hsnd ltac:(unfold n; lia)). unfold derives, wpp in Hsnd.
  destruct (char_parseline buf es (S es) n 0%nat) as [c p|p|msg], (parseline (S es) n (lex s)) as [d ts|ts|msg'] eqn:Ep; try done.
  - destruct Hsim as [Hrel Hp]. destruct Hsnd as (l & Hl & -> & Hok). case_bool_decide as E.
    + intros (l' & Hok' & Hl'). rewrite (token_parse l' n Hl' Hok') in Ep by (unfold n; lia). injection Ep as _ <-. apply E. by apply (at_end p []).
    + assert (ts = []) as -> by (by apply (at_end p ts Hp)).
      rewrite app_nil_r in Hl. split; [apply nulterminate_spec|]. exists l. split_and!; [done|done|]. by apply (nulterminate_strings buf es).
  - intros (l' & Hok' & Hl'). rewrite (token_parse l' n Hl' Hok') in Ep by (unfold n; lia). done.
Qed.
End line.

(** C14. parsecmd returns the command of the derivation of its line in the shell grammar, with every
    argument and file name a string in the buffer after nulterminate, and panics exactly when
    the line has no derivation (or a command has too many arguments); it always terminates. *)
Theorem parsecmd_correct s junk :
  Forall (λ c, c ≠ NUL) s →
  wpp parsecmd (λ c buf', length buf' = length (s ++ NUL :: junk) ∧ ∃ l, ok_line l ∧ toks_line l = lex s ∧ cmd_strings buf' c = tree_line l)
    (λ _, ¬ ∃ l, ok_line l ∧ toks_line l = lex s) (s ++ NUL :: junk).
Proof. apply parsecmd_ok. Qed.

(** "(ls -l; cat f) | wc >> out &" *)
Definition ex_line : list byte := bytes_of "(ls -l; cat f) | wc >> out &".
Definition ex_tree : sline :=
  LEnd (PSeq (EBlock (LSeq (PEnd (ESimple [IWord (bytes_of "ls"); IWord (bytes_of "-l")])) 0
                       (LEnd (PEnd (ESimple [IWord (bytes_of "cat"); IWord (bytes_of "f")])) 0)) [])
             (PEnd (ESimple [IWord (bytes_of "wc"); IRedir RApp (bytes_of "out")]))) 1.

Definition ex_buf : list byte := ex_line ++ NUL :: replicate 10 NUL.
Definition ex_result : option (cmd word) :=
  match parsecmd ex_buf with Ok c buf' => Some (cmd_strings buf' c) | _ => None end.

Lemma parsecmd_correct_witness :
  ex_result = Some (tree_line ex_tree) ∧ ∃ l, ok_line l ∧ toks_line l = lex ex_line ∧ tree_line l = tree_line ex_tree.
Proof.
  assert (Hs : Forall (λ c, c ≠ NUL) ex_line) by (refine (bool_decide_unpack _ _); vm_compute; exact I).
  assert (He : ex_result = Some (tree_line ex_tree)) by (vm_compute; reflexivity).
  pose proof (parsecmd_correct ex_line (replicate 10 NUL) Hs) as H. split; [exact He|].
  unfold ex_result in He. fold ex_buf in H. unfold wpp in H. destruct (parsecmd ex_buf) as [c b| |]; [|discriminate He..].
  destruct H as (_ & l & Hok & Hl & Hc). exists l. split_and!; [done|done|]. congruence.
Defined.
