(* ===== verification/ShellRun.v ===== *)
(** * Running commands (src/sh.c)

    [runcmd] sets up the descriptors of each program that it starts.  It is
    modelled by the list of its [exec] calls, each with the descriptor table at
    the call; forks are taken to succeed, and [wait] has no effect on
    descriptors.  [wire] is what a command line means: which standard input,
    output and error each program gets.  [runcmd] implements it and leaks no
    other descriptor. *)

From S2P Require Import Prelude Fcntl CString Shell ShellParse.
Import (notations) Corelib.Init.Byte.

(** What a descriptor refers to; a pipe is named by its place in the command. *)
Inductive obj : Type := Console | OFile (name : word) (mode : Z) | PipeR (id : list bool) | PipeW (id : list bool).

Abbreviation fdtab := (list (option obj)).

Section run.
Context (opens : word → Z → bool).   (* does open succeed on this name and mode *)
Implicit Types (t : fdtab).

Definition fd_close (fd : nat) t : fdtab := <[fd := None]> t.

Definition fd_alloc (o : obj) t : option (nat * fdtab) :=
  fd ← find_fd t 0; Some (fd, <[fd := Some o]> t).

Definition fd_open (name : word) (mode : Z) t : option (nat * fdtab) :=
  if opens name mode then fd_alloc (OFile name mode) t else None.

(** [dup(fd)]: the lowest free descriptor refers to the same file. *)
Definition fd_dup (fd : nat) t : fdtab :=
  match t !! fd with
  | Some (Some o) => match fd_alloc o t with Some (_, t') => t' | None => t end
  | _ => t
  end.

Definition fd_pipe (id : list bool) t : option (nat * nat * fdtab) :=
  '(r, t) ← fd_alloc (PipeR id) t;
  '(w, t) ← fd_alloc (PipeW id) t;
  Some (r, w, t).

(** Execute cmd.  Never returns: the [exec] calls of the process and of its children. *)
Fixpoint runcmd (c : cmd word) (id : list bool) t : list (list word * fdtab) :=
  match c with
  | EXEC [] => []
  | EXEC argv => [(argv, t)]
  | REDIR c file mode fd =>
      let t := fd_close (Z.to_nat fd) t in
      match fd_open file mode t with
      | None => []                                     (* open failed *)
      | Some (_, t) => runcmd c id t
      end
  | LIST l r => runcmd l (false :: id) t ++ runcmd r (true :: id) t
  | PIPE l r =>
      match fd_pipe id t with
      | None => []                                     (* panic("pipe") *)
      | Some (p0, p1, t) =>
          runcmd l (false :: id) (fd_close p1 (fd_close p0 (fd_dup p1 (fd_close 1 t)))) ++
          runcmd r (true :: id) (fd_close p1 (fd_close p0 (fd_dup p0 (fd_close 0 t))))
      end
  | BACK c => runcmd c id t
  end.

(** [while((fd = open("console", O_RDWR)) >= 0)] of [main] *)
Fixpoint open_three (n : nat) t : option fdtab :=
  match n with
  | O => None
  | S n =>
      match fd_open (bytes_of "console") O_RDWR t with
      | None => Some t
      | Some (fd, t) => if (3 <=? fd)%nat then Some (fd_close fd t) else open_three n t
      end
  end.
End run.

(** ** The body of [main]'s loop *)

Inductive action : Type := AChdir (dir : word) | ARun (c : cmd word) | ASyntax.

(** The line in the buffer: a change of directory, or a command for a child. *)
Definition main_action (buf : list byte) : action :=
  if bool_decide (take 3 buf = bytes_of "cd ") then
    let buf := <[(buf_len buf - 1)%nat := NUL]> buf in     (* chop \n *)
    AChdir (until_nul (drop 3 buf))
  else
    match parsecmd buf with
    | Ok c buf => ARun (cmd_strings buf c)
    | _ => ASyntax
    end.

(** ** What a command line means *)

Record std : Type := mkStd { s_in : obj; s_out : obj; s_err : obj }.

Section wire.
Context (opens : word → Z → bool).

Definition redirected (fd : Z) (o : obj) (s : std) : std :=
  if fd =? 0 then mkStd o (s_out s) (s_err s) else mkStd (s_in s) o (s_err s).

Fixpoint wire (c : cmd word) (id : list bool) (s : std) : list (list word * std) :=
  match c with
  | EXEC [] => []
  | EXEC argv => [(argv, s)]
  | REDIR c file mode fd => if opens file mode then wire c id (redirected fd (OFile file mode) s) else []
  | LIST l r => wire l (false :: id) s ++ wire r (true :: id) s
  | PIPE l r => wire l (false :: id) (redirected 1 (PipeW id) s) ++ wire r (true :: id) (redirected 0 (PipeR id) s)
  | BACK c => wire c id s
  end.

(** Standard descriptors and no others. *)
Definition tab_of (s : std) : fdtab :=
  [Some (s_in s); Some (s_out s); Some (s_err s)] ++ replicate (NOFILE - 3) None.

(** The parser redirects descriptors 0 and 1. *)
Fixpoint std_redirs {A} (c : cmd A) : Prop :=
  match c with
  | EXEC _ => True
  | REDIR c _ _ fd => (fd = 0 ∨ fd = 1) ∧ std_redirs c
  | PIPE l r | LIST l r => std_redirs l ∧ std_redirs r
  | BACK c => std_redirs c
  end.

Lemma runcmd_wire c id s :
  std_redirs c → runcmd opens c id (tab_of s) = (λ x, (x.1, tab_of x.2)) <$> wire c id s.
Proof.
  revert id s. induction c as [[|a argv]|c IH f mode fd|l IHl r IHr|l IHl r IHr|c IH]; intros id s; cbn [runcmd wire std_redirs].
  - done.
  - done.
  - intros [Hfd Hc]. unfold fd_open. destruct (opens f mode); [|done].
    rewrite <-IH by done. destruct Hfd as [-> | ->]; done.
  - intros [Hl Hr]. rewrite fmap_app, <-IHl, <-IHr by done. done.
  - intros [Hl Hr]. rewrite fmap_app, <-IHl, <-IHr by done. done.
  - apply IH.
Qed.

Lemma redirs_std rs c : std_redirs c → std_redirs (foldl redir_tree c rs).
Proof. revert c. induction rs as [|[[] f] rs IH]; intros c Hc; cbn; [done| | |]; apply IH; cbn; auto. Qed.

Lemma iter_back_std bg (c : cmd word) : std_redirs c → std_redirs (Nat.iter bg BACK c).
Proof. intros Hc. induction bg; done. Qed.

Lemma tree_std : (∀ l, std_redirs (tree_line l)) ∧ (∀ p, std_redirs (tree_pipe p)) ∧ (∀ e, std_redirs (tree_exec e)).
Proof.
  apply grammar_ind; cbn.
  - intros p Hp bg. by apply iter_back_std.
  - intros p Hp bg l Hl. split; [by apply iter_back_std|done].
  - done.
  - done.
  - intros l Hl rs. by apply redirs_std.
  - intros its. by apply redirs_std.
Qed.

Theorem runcmd_wires l id s :
  runcmd opens (tree_line l) id (tab_of s) = (λ x, (x.1, tab_of x.2)) <$> wire (tree_line l) id s.
Proof. apply runcmd_wire, tree_std. Qed.
End wire.

(** ** The shell's loop *)

(** Closing the descriptor just opened restores the table. *)
Lemma alloc_close o t fd t' : fd_alloc o t = Some (fd, t') → fd_close fd t' = t ∧ t !! fd = Some None.
Proof.
  unfold fd_alloc. destruct (find_fd t 0) as [n|] eqn:E; cbn; [|done]. intros [= <- <-]. apply find_fd_spec in E as [_ H].
  rewrite Nat.sub_0_r in H. split; [|done]. unfold fd_close. by rewrite list_insert_insert_eq, list_insert_id.
Qed.

Definition opened (x : option obj) : option obj :=
  match x with Some o => Some o | None => Some (OFile (bytes_of "console") O_RDWR) end.

Lemma open_three_ok opens a b c r :
  opens (bytes_of "console") O_RDWR = true → open_three opens 4 (a :: b :: c :: r) = Some (opened a :: opened b :: opened c :: r).
Proof.
  intros Ho.
  assert (Hfull : ∀ n x y z, open_three opens (S n) (Some x :: Some y :: Some z :: r) = Some (Some x :: Some y :: Some z :: r)).
  { intros n x y z. cbn [open_three]. unfold fd_open. rewrite Ho.
    destruct (fd_alloc _ _) as [[fd t']|] eqn:E; [|done]. apply alloc_close in E as [-> E].
    destruct fd as [|[|[|fd]]]; [done..|]. done. }
  assert (Hstep : ∀ n t fd t', fd_alloc (OFile (bytes_of "console") O_RDWR) t = Some (fd, t') → (fd < 3)%nat →
    open_three opens (S n) t = open_three opens n t').
  { intros n t fd t' Ha Hfd. cbn [open_three]. unfold fd_open. rewrite Ho, Ha. by rewrite (proj2 (Nat.leb_gt _ _)) by lia. }
  destruct a as [a|], b as [b|], c as [c|]; cbn [opened];
    repeat (erewrite Hstep; [|cbn; reflexivity|lia]); apply Hfull.
Qed.

(** C15. A line that the main loop runs starts exactly the programs of its derivation, each with the
    standard input, output and error that pipes and redirections give it and with no other
    descriptor open. *)
Theorem shell_starts_commands opens s junk c x y z :
  Forall (λ c, c ≠ NUL) s → main_action (s ++ NUL :: junk) = ARun c → opens (bytes_of "console") O_RDWR = true →
  ∃ t l, open_three opens 4 (x :: y :: z :: replicate (NOFILE - 3) None) = Some t ∧ ok_line l ∧ toks_line l = lex s ∧
    ∃ i o e, opened x = Some i ∧ opened y = Some o ∧ opened z = Some e ∧
    runcmd opens c [] t = (λ p, (p.1, tab_of p.2)) <$> wire opens (tree_line l) [] (mkStd i o e).
Proof.
  intros Hs Ha Ho. exists (opened x :: opened y :: opened z :: replicate (NOFILE - 3) None).
  unfold main_action in Ha. case_bool_decide; [done|]. pose proof (parsecmd_ok s junk Hs) as Hp. unfold wpp in Hp.
  destruct (parsecmd _) as [c0 buf'| |]; [|done..]. injection Ha as <-. destruct Hp as (_ & l & Hok & Hl & ->). exists l.
  split; [by apply open_three_ok|]. split; [done|]. split; [done|].
  assert (Hop : ∀ v, ∃ o, opened v = Some o) by (intros [o|]; by eexists).
  destruct (Hop x) as [i Hi], (Hop y) as [o Hoo], (Hop z) as [e He]. exists i, o, e. split_and!; [done..|].
  rewrite Hi, Hoo, He. apply (runcmd_wire opens (tree_line l) [] (mkStd i o e)), tree_std.
Qed.

Lemma shell_starts_commands_witness :
  main_action ex_buf = ARun (tree_line ex_tree) ∧
  ∃ t l, open_three (λ _ _, true) 4 (Some Console :: None :: None :: replicate (NOFILE - 3) None) = Some t ∧ ok_line l ∧ toks_line l = lex ex_line ∧
    ∃ i o e, opened (Some Console) = Some i ∧ opened None = Some o ∧ opened None = Some e ∧
    runcmd (λ _ _, true) (tree_line ex_tree) [] t = (λ p, (p.1, tab_of p.2)) <$> wire (λ _ _, true) (tree_line l) [] (mkStd i o e).
Proof.
  assert (Ha : main_action ex_buf = ARun (tree_line ex_tree)) by (vm_compute; reflexivity). split; [exact Ha|].
  apply (shell_starts_commands (λ _ _, true) ex_line (replicate 10 NUL) (tree_line ex_tree) (Some Console) None None).
  - refine (bool_decide_unpack _ _). vm_compute. exact I.
  - exact Ha.
  - reflexivity.
Defined.
