(* ===== verification/Umalloc.v ===== *)
(** * The user memory allocator (src/umalloc.c)

    Memory is a map from addresses to headers of 8 bytes; blocks start at
    multiples of 8 from the start of the heap.  The heap is a row of blocks,
    free or in use, and the free ones form a ring through [base]: the invariant
    relates the headers to the row.  [sbrk] is a parameter: whether the process
    can grow. *)

From S2P Require Import Prelude.

Record header : Type := mkHeader { h_ptr : Z; h_size : Z }.

Record heap : Type := mkHeap {
  hp_mem : Z → header;
  hp_freep : Z;
  hp_brk : Z;
}.

Definition with_mem (m : Z → header) (s : heap) : heap := mkHeap m (hp_freep s) (hp_brk s).
Definition with_freep (p : Z) (s : heap) : heap := mkHeap (hp_mem s) p (hp_brk s).
Definition with_brk (b : Z) (s : heap) : heap := mkHeap (hp_mem s) (hp_freep s) b.

Definition set_ptr (p v : Z) : M heap unit := modify (λ s, with_mem (<[p := mkHeader v (h_size (hp_mem s p))]> (hp_mem s)) s).
Definition set_size (p v : Z) : M heap unit := modify (λ s, with_mem (<[p := mkHeader (h_ptr (hp_mem s p)) v]> (hp_mem s)) s).

Section umalloc.
Context (base : Z).                (* &base *)
Context (can_grow : Z → Z → bool). (* of the process of this size, by this number of bytes *)

Definition sbrk (n : Z) : M heap Z :=
  s ← getS;
  if can_grow (hp_brk s) n then putS (with_brk (hp_brk s + n) s);; mret (hp_brk s) else mret (-1).

(** [for(p = freep; !(bp > p && bp < p->s.ptr); p = p->s.ptr)] of [free] *)
Fixpoint free_find (n : nat) (m : Z → header) (bp p : Z) : option Z :=
  match n with
  | O => None
  | S n =>
      let q := h_ptr (m p) in
      if (p <? bp) && (bp <? q) then Some p
      else if (q <=? p) && ((p <? bp) || (bp <? q)) then Some p
      else free_find n m bp q
  end.

(** More than the number of blocks. *)
Definition ring_fuel (s : heap) : nat := Z.to_nat (hp_brk s / 8) + 3.

Definition free (ap : Z) : M heap unit :=
  let bp := ap - 8 in
  s ← getS;
  match free_find (ring_fuel s) (hp_mem s) bp (hp_freep s) with
  | None => sleeps
  | Some p =>
      let m := hp_mem s in
      let q := h_ptr (m p) in
      (if bp + 8 * h_size (m bp) =? q then
         set_size bp (u32 (h_size (m bp) + h_size (m q)));;
         set_ptr bp (h_ptr (m q))
       else set_ptr bp q);;
      s ← getS;
      let m := hp_mem s in
      (if p + 8 * h_size (m p) =? bp then
         set_size p (u32 (h_size (m p) + h_size (m bp)));;
         set_ptr p (h_ptr (m bp))
       else set_ptr p bp);;
      modify (with_freep p)
  end.

Definition morecore (nu : Z) : M heap Z :=
  let nu := if nu <? 4096 then 4096 else nu in
  p ← sbrk (s32 (nu * 8));
  if p =? -1 then mret 0
  else
    set_size p nu;;
    free (p + 8);;
    gets hp_freep.

(** [for(p = prevp->s.ptr; ; prevp = p, p = p->s.ptr)] of [malloc] *)
Fixpoint malloc_loop (n : nat) (nunits prevp p : Z) : M heap Z :=
  match n with
  | O => sleeps
  | S n =>
      s ← getS;
      let h := hp_mem s p in
      if nunits <=? h_size h then
        if h_size h =? nunits then
          set_ptr prevp (h_ptr h);;
          modify (with_freep prevp);;
          mret (p + 8)
        else
          set_size p (h_size h - nunits);;
          let p := p + 8 * (h_size h - nunits) in
          set_size p nunits;;
          modify (with_freep prevp);;
          mret (p + 8)
      else if p =? hp_freep s then
        q ← morecore nunits;
        if q =? 0 then mret 0
        else s ← getS; malloc_loop n nunits q (h_ptr (hp_mem s q))
      else malloc_loop n nunits p (h_ptr h)
  end.

(** [(nbytes + sizeof(Header) - 1)/sizeof(Header) + 1] *)
Definition units (nbytes : Z) : Z := u32 (nbytes + 7) / 8 + 1.

Definition malloc (nbytes : Z) : M heap Z :=
  let nunits := units nbytes in
  s ← getS;
  (if hp_freep s =? 0 then putS (mkHeap (<[base := mkHeader base 0]> (hp_mem s)) base (hp_brk s)) else mret tt);;
  s ← getS;
  malloc_loop (2 * ring_fuel s + 2) nunits (hp_freep s) (h_ptr (hp_mem s (hp_freep s))).
End umalloc.

(** ** The row of blocks *)

(** A block: is it free, and its size in units. *)
Abbreviation tile := (bool * Z)%type.

Definition total (ts : list tile) : Z := 8 * foldr (λ t, Z.add t.2) 0 ts.

(** The addresses of the free blocks of a row that starts at [a]. *)
Fixpoint frees (a : Z) (ts : list tile) : list Z :=
  match ts with
  | [] => []
  | (b, n) :: ts => let r := frees (a + 8 * n) ts in if b : bool then a :: r else r
  end.

(** The addresses and sizes of the blocks in use. *)
Fixpoint useds (a : Z) (ts : list tile) : list (Z * Z) :=
  match ts with
  | [] => []
  | (b, n) :: ts => let r := useds (a + 8 * n) ts in if b : bool then r else (a, n) :: r
  end.

Section row.
Implicit Types (ts l r : list tile) (m : Z → header).

Lemma total_app l r : total (l ++ r) = total l + total r.
Proof. unfold total. rewrite foldr_app. induction l as [|[b n] l IH]; cbn in *; lia. Qed.

Lemma total_cons t r : total (t :: r) = 8 * t.2 + total r.
Proof. unfold total. cbn. lia. Qed.

Lemma frees_app a l r : frees a (l ++ r) = frees a l ++ frees (a + total l) r.
Proof.
  revert a. induction l as [|[b n] l IH]; intros a; cbn [frees app]; [by rewrite Z.add_0_r|].
  rewrite IH, total_cons. cbn. rewrite Z.add_assoc. by destruct b.
Qed.

Lemma useds_app a l r : useds a (l ++ r) = useds a l ++ useds (a + total l) r.
Proof.
  revert a. induction l as [|[b n] l IH]; intros a; cbn [useds app]; [by rewrite Z.add_0_r|].
  rewrite IH, total_cons. cbn. rewrite Z.add_assoc. by destruct b.
Qed.

Definition sizes_pos ts : Prop := Forall (λ t, 0 < t.2) ts.

Lemma total_nonneg ts : sizes_pos ts → 0 ≤ total ts.
Proof. induction 1 as [|t ts Ht Hts IH]; [done|]. rewrite total_cons. lia. Qed.

Lemma frees_range a ts p : sizes_pos ts → p ∈ frees a ts → a ≤ p < a + total ts.
Proof.
  intros Hs. revert a. induction Hs as [|[b n] ts Hn Hts IH]; intros a; cbn [frees]; [by rewrite elem_of_nil|].
  rewrite total_cons. cbn in *. pose proof (total_nonneg ts Hts). destruct b; [rewrite elem_of_cons; intros [->|Hp%IH]|intros Hp%IH]; lia.
Qed.

(** Splitting the row at a free block, or at one in use. *)
Lemma frees_split a ts p : p ∈ frees a ts → ∃ l n r, ts = l ++ (true, n) :: r ∧ p = a + total l.
Proof.
  revert a. induction ts as [|[b n] ts IH]; intros a; cbn [frees]; [by rewrite elem_of_nil|].
  assert (Hrec : p ∈ frees (a + 8 * n) ts → ∃ l n0 r, (b, n) :: ts = l ++ (true, n0) :: r ∧ p = a + total l).
  { intros (l & k & r & -> & ->)%IH. exists ((b, n) :: l), k, r. split; [done|]. rewrite total_cons. cbn. lia. }
  destruct b; [|done]. rewrite elem_of_cons. intros [->|Hp]; [|by apply Hrec]. exists [], n, ts. split; [done|]. unfold total. cbn. lia.
Qed.

Lemma useds_split a ts p n : (p, n) ∈ useds a ts → ∃ l r, ts = l ++ (false, n) :: r ∧ p = a + total l.
Proof.
  revert a. induction ts as [|[b k] ts IH]; intros a; cbn [useds]; [by rewrite elem_of_nil|].
  assert (Hrec : (p, n) ∈ useds (a + 8 * k) ts → ∃ l r, (b, k) :: ts = l ++ (false, n) :: r ∧ p = a + total l).
  { intros (l & r & -> & ->)%IH. exists ((b, k) :: l), r. split; [done|]. rewrite total_cons. cbn. lia. }
  destruct b; [done|]. rewrite elem_of_cons. intros [[= -> ->]|Hp]; [|by apply Hrec]. exists [], ts. split; [done|]. unfold total. cbn. lia.
Qed.
End row.

(** ** The ring of free blocks *)

Section ring.
Context (base : Z).
Implicit Types (l r : list Z) (m : Z → header).

(** From [p] on, the pointers go through [l] and back to [base]. *)
Fixpoint linked m (p : Z) l : Prop :=
  match l with
  | [] => h_ptr (m p) = base
  | q :: l => h_ptr (m p) = q ∧ linked m q l
  end.

Fixpoint seg m (p : Z) l : Prop :=
  match l with [] => True | q :: l => h_ptr (m p) = q ∧ seg m q l end.

Fixpoint end_of (p : Z) l : Z := match l with [] => p | q :: l => end_of q l end.

Lemma end_of_app p l r : end_of p (l ++ r) = end_of (end_of p l) r.
Proof. revert p. induction l; cbn; auto. Qed.

Lemma end_of_in p l : end_of p l ∈ p :: l.
Proof. revert p. induction l as [|q l IH]; intros p; cbn; [by left|]. right. apply IH. Qed.

Lemma linked_app m p l r : linked m p (l ++ r) ↔ seg m p l ∧ linked m (end_of p l) r.
Proof. revert p. induction l as [|q l IH]; intros p; cbn; [tauto|]. rewrite IH. tauto. Qed.

Lemma linked_ptr m p l : linked m p l → h_ptr (m p) = default base (head l).
Proof. by destruct l; cbn; [|intros []]. Qed.

(** The pointers from [y] on, after a change, are those that were from [x] on. *)
Lemma linked_move m m' x y l :
  linked m x l → h_ptr (m' y) = h_ptr (m x) → (∀ z, z ∈ l → h_ptr (m' z) = h_ptr (m z)) → linked m' y l.
Proof.
  revert x y. induction l as [|q l IH]; intros x y; cbn; [congruence|]. intros [H1 H2] Hy Hz. split; [congruence|].
  apply (IH q q); [done| |]; intros; apply Hz; [by left|by right].
Qed.

Lemma seg_move m m' p l : seg m p l → NoDup (p :: l) → (∀ z, z ∈ p :: l → z ≠ end_of p l → h_ptr (m' z) = h_ptr (m z)) → seg m' p l.
Proof.
  revert p. induction l as [|q l IH]; intros p; cbn; [done|]. intros [H1 H2] [Hp Hnd]%NoDup_cons Hz. split.
  - rewrite Hz; [done|by left|]. intros E. apply Hp. rewrite E. apply end_of_in.
  - apply IH; [done|done|]. intros z Hin Hne. apply Hz; [by right|done].
Qed.

Lemma seg_snoc m p l q : seg m p l → h_ptr (m (end_of p l)) = q → seg m p (l ++ [q]).
Proof. revert p. induction l as [|x l IH]; intros p; cbn; [done|]. intros [-> Hs] He. split; [done|]. by apply IH. Qed.

(** Once around, from a block of the ring back to it. *)
Lemma ring_round m l p :
  linked m base l → p ∈ base :: l → ∃ v, seg m p v ∧ end_of p v = p ∧ v ≡ₚ base :: l.
Proof.
  intros Hl Hp. apply elem_of_cons in Hp as [->|Hp].
  - exists (l ++ [base]). assert (Hs : seg m base l ∧ linked m (end_of base l) []) by (by rewrite <-linked_app, app_nil_r). destruct Hs as [Hs He]. split_and!.
    + by apply seg_snoc.
    + by rewrite end_of_app.
    + by rewrite Permutation_app_comm.
  - apply list_elem_of_split in Hp as (l1 & l2 & ->). apply linked_app in Hl as [H1 [H2 H3]].
    exists (l2 ++ base :: l1 ++ [p]). split_and!.
    + assert (Hgo : ∀ x l', linked m x l2 → seg m base l' → seg m x (l2 ++ base :: l')).
      { clear. induction l2 as [|q l2 IH]; intros x l'; cbn; [auto|]. intros [-> H] Hs. split; [done|]. by apply IH. }
      apply Hgo; [done|]. by apply seg_snoc.
    + rewrite end_of_app. cbn. by rewrite end_of_app.
    + rewrite Permutation_app_comm. cbn. constructor. by rewrite <-app_assoc.
Qed.

(** The block before [q] in the ring. *)
Lemma ring_pred m l1 q l2 p :
  linked m base (l1 ++ q :: l2) → NoDup (base :: l1 ++ q :: l2) → p ∈ base :: l1 ++ q :: l2 → h_ptr (m p) = q → p = end_of base l1.
Proof.
  intros Hl Hnd Hp Hq. apply linked_app in Hl as (H1 & H2 & H3).
  assert (Hgen : ∀ b l1, seg m b l1 → NoDup (b :: l1) → (q ∉ l1) → p ∈ b :: l1 → p = end_of b l1 ∨ p ≠ end_of b l1 ∧ False).
  { clear -Hq. intros b l1. revert b. induction l1 as [|x l1 IH]; intros b; cbn.
    - intros _ _ _ ->%list_elem_of_singleton. by left.
    - intros [Hx Hs] [Hb Hnd]%NoDup_cons Hqn Hp. apply elem_of_cons in Hp as [->|Hp].
      + exfalso. apply Hqn. rewrite <-Hq, Hx. by left.
      + apply IH; [done|done| |done]. intros Hin. apply Hqn. by right. }
  rewrite app_comm_cons in Hp, Hnd. apply NoDup_app in Hnd as (Hnd1 & Hdis & Hnd2). apply elem_of_app in Hp as [Hp|Hp].
  - destruct (Hgen base l1) as [?|[_ []]]; [done|done| |done|done]. intros Hin. apply (Hdis q); [by right|by left].
  - exfalso. assert (Hq2 : ∀ y l2, linked m y l2 → p ∈ y :: l2 → (q ∉ l2) → q ≠ base → False).
    { clear -Hq. intros y l2. revert y. induction l2 as [|x l2 IH]; intros y; cbn.
      - intros Hy ->%list_elem_of_singleton. congruence.
      - intros [Hx Hs] Hp Hqn Hb. apply elem_of_cons in Hp as [->|Hp]; [apply Hqn; rewrite <-Hq, Hx; by left|].
        apply (IH x); [done|done| |done]. intros Hin. apply Hqn. by right. }
    apply NoDup_cons in Hnd2 as [Hq3 _]. apply (Hq2 q l2); [done|done|done|]. intros ->. apply (Hdis base); by left.
Qed.
End ring.

(** ** Finding the place of a block *)

Section find.
Context (base : Z).
Implicit Types (l r : list Z) (m : Z → header).

Fixpoint asc (p : Z) l : Prop := match l with [] => True | q :: l => p < q ∧ asc q l end.

Lemma asc_app p l q r : asc p (l ++ q :: r) → asc p l ∧ asc q r.
Proof. revert p. induction l as [|x l IH]; intros p; cbn; [tauto|]. intros [? ?%IH]. tauto. Qed.

Lemma find_left m bp x l n :
  seg m x l → asc x l → (∀ y, y ∈ x :: l → base ≤ y < bp) → (bp < h_ptr (m (end_of x l)) ∨ h_ptr (m (end_of x l)) = base) → (length l < n)%nat →
  free_find n m bp x = Some (end_of x l).
Proof.
  revert x n. induction l as [|q l IH]; intros x [|n] Hs Ha Hb He Hn; cbn in Hn; try lia; cbn [free_find end_of] in *; pose proof (Hb x ltac:(by left)).
  - destruct He as [He|He].
    + by rewrite (proj2 (Z.ltb_lt x bp)), (proj2 (Z.ltb_lt bp _)) by lia.
    + rewrite He, (proj2 (Z.ltb_ge bp base)) by lia. rewrite andb_false_r. by rewrite (proj2 (Z.leb_le _ _)), (proj2 (Z.ltb_lt x bp)) by lia.
  - destruct Hs as [-> Hs], Ha as [Hlt Ha]. pose proof (Hb q ltac:(right; by left)).
    rewrite (proj2 (Z.ltb_ge bp q)) by lia. rewrite andb_false_r. rewrite (proj2 (Z.leb_gt q x)) by lia. cbn [andb].
    apply IH; [done|done| |done|lia]. intros y Hy. apply Hb. by right.
Qed.

Lemma find_right m bp x l n :
  linked base m x l → asc x l → (∀ y, y ∈ x :: l → bp < y) → base ≤ bp → (length l ≤ n)%nat →
  free_find (S n) m bp x = free_find (n - length l) m bp base.
Proof.
  revert x n. induction l as [|q l IH]; intros x n Hs Ha Hb Hbase Hn; cbn in Hn; cbn [free_find linked] in *; pose proof (Hb x ltac:(by left)).
  - rewrite Hs, (proj2 (Z.ltb_ge x bp)) by lia. cbn [andb orb]. rewrite (proj2 (Z.ltb_ge bp base)) by lia. rewrite andb_false_r. cbn [length]. by rewrite Nat.sub_0_r.
  - destruct Hs as [-> Hs], Ha as [Hlt Ha]. rewrite (proj2 (Z.ltb_ge x bp)) by lia. cbn [andb orb]. rewrite (proj2 (Z.leb_gt q x)) by lia. cbn [andb].
    destruct n as [|n]; [lia|]. cbn [length Nat.sub]. apply IH; [done|done| |done|lia]. intros y Hy. apply Hb. by right.
Qed.

Lemma aseg_app m p l r : seg m p (l ++ r) ↔ seg m p l ∧ seg m (end_of p l) r.
Proof. revert p. induction l as [|q l IH]; intros p; cbn; [tauto|]. rewrite IH. tauto. Qed.

Lemma free_find_spec m bp p l r n :
  linked base m base (l ++ r) → asc base (l ++ r) → base < bp → (∀ y, y ∈ l → y < bp) → (∀ y, y ∈ r → bp < y) →
  p ∈ base :: l ++ r → (length (l ++ r) + 2 ≤ n)%nat → free_find n m bp p = Some (end_of base l).
Proof.
  intros Hl Ha Hb Hlo Hhi Hp Hn. rewrite length_app in Hn.
  assert (Hge : ∀ x l, asc x l → ∀ y, y ∈ x :: l → x ≤ y).
  { clear. intros x l. revert x. induction l as [|q l IH]; intros x; cbn; [intros _ y ->%list_elem_of_singleton; lia|].
    intros [Hx Ha] y [->|Hy]%elem_of_cons; [lia|]. specialize (IH q Ha y Hy). lia. }
  pose proof (proj1 (linked_app base m base l r) Hl) as [Hs Hr].
  assert (Hal : asc base l) by (clear -Ha; revert Ha; generalize base as b; induction l as [|q l IH]; intros b; cbn; [done|intros [? ?%IH]; done]).
  assert (He : bp < h_ptr (m (end_of base l)) ∨ h_ptr (m (end_of base l)) = base).
  { rewrite (linked_ptr _ _ _ _ Hr). destruct r as [|q r]; [by right|left]. apply Hhi. by left. }
  assert (Hleft : ∀ x a b, base :: l = a ++ x :: b → ∀ k, (length b < k)%nat → free_find k m bp x = Some (end_of base l)).
  { intros x a b E k Hk.
    assert (seg m x b ∧ asc x b ∧ end_of x b = end_of base l) as (H1 & H2 & H3).
    { destruct a as [|a0 a]; cbn in E; simplify_eq; [done|]. apply aseg_app in Hs as [_ [_ Hs]]. apply asc_app in Hal as [_ Hal].
      rewrite end_of_app. done. }
    rewrite <-H3. apply find_left; [done|done| |by rewrite H3|done].
    intros y Hy. assert (Hin : y ∈ base :: l) by (rewrite E; apply elem_of_app; by right). split; [by apply (Hge base l Hal)|].
    apply elem_of_cons in Hin as [->|Hin]; [lia|by apply Hlo]. }
  rewrite app_comm_cons in Hp. apply elem_of_app in Hp as [Hp|Hp].
  - apply list_elem_of_split in Hp as (a & b & E). apply (Hleft p a b E). assert (length (base :: l) = length (a ++ p :: b)) as Hlen by (by rewrite E).
    rewrite length_app in Hlen. cbn in Hlen. lia.
  - apply list_elem_of_split in Hp as (a & b & ->). apply linked_app in Hr as (_ & _ & Hr). rewrite app_assoc in Ha. apply asc_app in Ha as [_ Ha].
    rewrite length_app in Hn. cbn in Hn. destruct n as [|n]; [lia|]. rewrite (find_right m bp p b n); [|done|done| |lia|lia].
    + apply (Hleft base [] l eq_refl). lia.
    + intros y Hy. apply Hhi. apply elem_of_app. by right.
Qed.
Lemma asc_nodup p l : asc p l → NoDup (p :: l).
Proof.
  revert p. induction l as [|q l IH]; intros p; cbn; [intros _; apply NoDup_singleton|]. intros [Hp Ha]. pose proof (IH q Ha) as Hnd. constructor; [|done].
  assert (Hge : ∀ x l, asc x l → ∀ y, y ∈ l → x < y).
  { clear. intros x l. revert x. induction l as [|q l IH]; intros x; cbn; [intros _ y Hy; by apply elem_of_nil in Hy|].
    intros [Hx Ha] y [->|Hy]%elem_of_cons; [lia|]. specialize (IH q Ha y Hy). lia. }
  intros [->|Hin]%elem_of_cons; [lia|]. specialize (Hge q l Ha p Hin). lia.
Qed.

End find.

(** ** The invariant *)

Section inv.
Context (base lo : Z).
Hypothesis Hbase : 0 < base ∧ base + 8 ≤ lo.
Implicit Types (ts l r : list tile) (m : Z → header).

(** The headers hold the sizes of the blocks. *)
Fixpoint sized m (a : Z) ts : Prop :=
  match ts with [] => True | (_, n) :: ts => h_size (m a) = n ∧ 0 < n ∧ sized m (a + 8 * n) ts end.

Record heap_inv (s : heap) ts : Prop := mkHeapInv {
  hi_sized : sized (hp_mem s) lo ts;
  hi_base : h_size (hp_mem s base) = 0;
  hi_ring : linked base (hp_mem s) base (frees lo ts);
  hi_brk : hp_brk s = lo + total ts;
  hi_max : hp_brk s ≤ 2 ^ 31;
  hi_freep : hp_freep s ∈ base :: frees lo ts;
}.

Lemma sized_app m a l r : sized m a (l ++ r) ↔ sized m a l ∧ sized m (a + total l) r.
Proof.
  revert a. induction l as [|[b n] l IH]; intros a; cbn [sized app]; [rewrite Z.add_0_r; tauto|]. rewrite IH, total_cons. cbn [snd].
  rewrite Z.add_assoc. tauto.
Qed.

Lemma sized_pos m a ts : sized m a ts → sizes_pos ts.
Proof. revert a. induction ts as [|[b n] ts IH]; intros a; cbn [sized]; [constructor|]. intros (_ & ? & ?%IH). by constructor. Qed.

Lemma sized_move m m' a ts : sized m a ts → (∀ b, a ≤ b < a + total ts → h_size (m' b) = h_size (m b)) → sized m' a ts.
Proof.
  revert a. induction ts as [|[b n] ts IH]; intros a; cbn [sized]; [done|]. intros (H1 & H2 & H3) Hm. rewrite total_cons in Hm. cbn in Hm.
  pose proof (total_nonneg _ (sized_pos _ _ _ H3)). split_and!; [rewrite Hm by lia; done|done|]. apply IH; [done|]. intros. apply Hm. lia.
Qed.

Lemma frees_asc a p ts : sizes_pos ts → p < a → asc p (frees a ts).
Proof.
  intros Hs. revert p a. induction Hs as [|[b n] ts Hn Hts IH]; intros p a Hp; cbn [frees]; [done|]. cbn in Hn.
  destruct b; cbn; [split; [done|]|]; apply IH; lia.
Qed.

Lemma frees_length a ts : sizes_pos ts → 8 * Z.of_nat (length (frees a ts)) ≤ total ts.
Proof.
  intros Hs. revert a. induction Hs as [|[b n] ts Hn Hts IH]; intros a; cbn [frees]; [unfold total; cbn; lia|]. rewrite total_cons. cbn in Hn |- *.
  specialize (IH (a + 8 * n)). destruct b; cbn [length]; lia.
Qed.

Lemma ring_fuel_enough s ts : sized (hp_mem s) lo ts → hp_brk s = lo + total ts → (length (frees lo ts) + 2 ≤ ring_fuel s)%nat.
Proof.
  intros Hs Hb. pose proof (frees_length lo ts (sized_pos _ _ _ Hs)). unfold ring_fuel.
  assert (Z.of_nat (length (frees lo ts)) ≤ hp_brk s / 8); [|lia]. apply Z.div_le_lower_bound; lia.
Qed.

(** A block beside its neighbour: the next free block starts right after it, or further on. *)
Lemma frees_head a ts : sizes_pos ts → head (frees a ts) = Some a ↔ ∃ n r, ts = (true, n) :: r.
Proof.
  intros Hs. split.
  - destruct Hs as [|[[] n] ts Hn Hts]; cbn [frees]; [done|by eauto|]. cbn in Hn. intros Hh.
    assert (Hin : a ∈ frees (a + 8 * n) ts) by (apply head_Some_elem_of; done). apply frees_range in Hin; [lia|done].
  - intros (n & r & ->). done.
Qed.

Lemma frees_end l :
  sizes_pos l → end_of base (frees lo l) = base ∧ frees lo l = [] ∨
  ∃ l1 n l2, l = l1 ++ (true, n) :: l2 ∧ frees (lo + total l1 + 8 * n) l2 = [] ∧ end_of base (frees lo l) = lo + total l1.
Proof.
  intros Hs. induction l as [|[b n] l IH] using rev_ind; [by left|]. apply Forall_app in Hs as [Hs Hn]. rewrite frees_app. cbn [frees]. destruct b.
  - right. exists l, n, []. split_and!; [done|done|]. by rewrite end_of_app.
  - destruct IH as [[H1 H2]|(l1 & k & l2 & -> & H1 & H2)]; [done| |].
    + left. rewrite H2. done.
    + right. exists l1, k, (l2 ++ [(false, n)]). split_and!; [by rewrite <-app_assoc| |].
      * rewrite frees_app, H1. done.
      * by rewrite app_nil_r.
Qed.

(** ** Freeing a block *)

(** Merge with the free block that follows, and with the one before. *)
Definition absorb (n : Z) r : Z * list tile := match r with (true, k) :: r => (n + k, r) | _ => (n, r) end.
Definition released l (n : Z) r : list tile :=
  let '(n, r) := absorb n r in
  match last l with
  | Some (true, k) => removelast l ++ (true, k + n) :: r
  | _ => l ++ (true, n) :: r
  end.

Lemma absorb_total n r : 8 * (absorb n r).1 + total (absorb n r).2 = 8 * n + total r.
Proof. destruct r as [|[[] k] r]; cbn [absorb fst snd]; rewrite ?total_cons; cbn [snd]; lia. Qed.

(** What the first half of [free] leaves at the block, and the rest of the row. *)
Lemma absorb_spec m bp n r p :
  sized m (bp + 8 * n) r → linked base m p (frees (bp + 8 * n) r) → base < bp → 0 < n → 8 * n + total r < 2 ^ 32 →
  let q := h_ptr (m p) in let n' := (absorb n r).1 in let r' := (absorb n r).2 in
  0 < n' ∧ sized m (bp + 8 * n') r' ∧ (n' = n + h_size (m q) ∧ u32 n' = n' ∧ q = bp + 8 * n ∧ linked base m q (frees (bp + 8 * n') r') ∨
    n' = n ∧ q ≠ bp + 8 * n ∧ linked base m p (frees (bp + 8 * n') r')).
Proof.
  intros Hs Hl Hb Hn Hmax. pose proof (sized_pos _ _ _ Hs) as Hp. pose proof (linked_ptr _ _ _ _ Hl) as Hq. cbv zeta.
  assert ((∃ k r0, r = (true, k) :: r0) ∨ ¬ ∃ k r0, r = (true, k) :: r0) as [(k & r0 & ->)|Hno] by (destruct r as [|[[] k] r0]; [right; naive_solver|left; eauto|right; naive_solver]).
  - cbn [absorb fst snd frees linked sized] in *. destruct Hs as (H1 & H2 & H3), Hl as [H4 H5]. rewrite total_cons in Hmax. cbn in Hmax.
    pose proof (total_nonneg _ (sized_pos _ _ _ H3)). split; [lia|]. rewrite H4, H1. replace (bp + 8 * (n + k)) with (bp + 8 * n + 8 * k) by lia.
    split; [done|]. left. split_and!; [done|apply u32_small; lia|done|done].
  - assert (absorb n r = (n, r)) as -> by (destruct r as [|[[] k] r0]; [done|by destruct Hno; eauto|done]). cbn [fst snd]. split; [done|]. split; [done|].
    right. split_and!; [done| |done]. rewrite Hq. destruct (frees (bp + 8 * n) r) as [|x f] eqn:Ef; cbn; [lia|]. intros ->. apply Hno.
    destruct (proj1 (frees_head (bp + 8 * n) r Hp)) as (k & r0 & ->); [by rewrite Ef|by eauto].
Qed.

(** The block before: adjacent to the freed block exactly when the row has it just before. *)
Lemma prev_spec m l :
  sized m lo l → h_size (m base) = 0 →
  let p := end_of base (frees lo l) in
  (∃ l' k, l = l' ++ [(true, k)] ∧ p = lo + total l' ∧ h_size (m p) = k ∧ p + 8 * k = lo + total l ∧ 0 < k) ∨
  (p + 8 * h_size (m p) ≠ lo + total l ∧ ∀ k, last l ≠ Some (true, k)).
Proof.
  intros Hs Hb. cbv zeta. pose proof (sized_pos _ _ _ Hs) as Hp. destruct (frees_end l Hp) as [[-> Hf]|(l1 & k & l2 & -> & Hf & ->)].
  - right. rewrite Hb. pose proof (total_nonneg _ Hp). split; [lia|]. intros k Hk. apply last_Some in Hk as [l' ->]. rewrite frees_app in Hf.
    destruct (app_eq_nil _ _ Hf) as [_ ?]. done.
  - apply sized_app in Hs as [_ (Hk & Hk0 & Hs2)]. rewrite Hk. pose proof (total_nonneg _ (sized_pos _ _ _ Hs2)) as Ht2. rewrite total_app, total_cons. cbn [snd].
    destruct (decide (l2 = [])) as [->|Hne].
    + left. exists l1, k. split_and!; [done|done|done|unfold total; cbn; lia|done].
    + right. split.
      * destruct l2 as [|[b n] l2]; [done|]. rewrite total_cons in *. cbn [sized snd] in *. destruct Hs2 as (_ & ? & Hs3).
        pose proof (total_nonneg _ (sized_pos _ _ _ Hs3)). lia.
      * intros k' Hk'. rewrite last_app in Hk'. cbn in Hk'. destruct l2 as [|t l2] using rev_ind; [done|]. clear IHl2.
        rewrite app_comm_cons, last_snoc in Hk'. simplify_eq. rewrite frees_app in Hf. destruct (app_eq_nil _ _ Hf) as [_ ?]. done.
Qed.

(** One header written. *)
Definition upd (s : heap) (p : Z) (h : header) (s' : heap) : Prop :=
  hp_mem s' p = h ∧ (∀ a, a ≠ p → hp_mem s' a = hp_mem s a) ∧ hp_freep s' = hp_freep s ∧ hp_brk s' = hp_brk s.

Lemma set_ptr_upd p v s : wp (set_ptr p v) (λ _ s', upd s p (mkHeader v (h_size (hp_mem s p))) s') s.
Proof. split_and!; cbn; [by rewrite fn_lookup_insert| |done|done]. intros a Ha. by rewrite fn_lookup_insert_ne. Qed.

Lemma set_size_upd p v s : wp (set_size p v) (λ _ s', upd s p (mkHeader (h_ptr (hp_mem s p)) v) s') s.
Proof. split_and!; cbn; [by rewrite fn_lookup_insert| |done|done]. intros a Ha. by rewrite fn_lookup_insert_ne. Qed.

Lemma upd_twice p n v s : wp (set_size p n;; set_ptr p v) (λ _ s', upd s p (mkHeader v n) s') s.
Proof.
  wp_step set_size_upd. intros _ s1 (H1 & H2 & H3 & H4). eapply wp_mono; [apply set_ptr_upd|]. intros _ s2 (H5 & H6 & H7 & H8).
  split_and!; [by rewrite H5, H1| |congruence|congruence]. intros a Ha. by rewrite H6, H2.
Qed.

(** The row after [bp] absorbed the free block after it and joined the ring behind [p]. *)
Lemma joined m m' l n' r' p :
  let bp := lo + total l in
  sized m lo l → sized m (bp + 8 * n') r' → h_size (m base) = 0 → 0 < n' →
  p = end_of base (frees lo l) → seg m base (frees lo l) →
  h_size (m' bp) = n' → (∀ a, a ≠ bp → h_size (m' a) = h_size (m a)) → (∀ a, a ≠ bp → a ≠ p → h_ptr (m' a) = h_ptr (m a)) →
  h_ptr (m' p) = bp → linked base m' bp (frees (bp + 8 * n') r') →
  sized m' lo (l ++ (true, n') :: r') ∧ h_size (m' base) = 0 ∧ linked base m' base (frees lo (l ++ (true, n') :: r')).
Proof.
  intros bp Hl Hr Hb Hn Hp Hseg Hbp Hsz Hptr Hpp Hlk.
  pose proof (total_nonneg _ (sized_pos _ _ _ Hl)) as Htl. split_and!.
  - apply sized_app. split; [apply (sized_move m); [done|intros b Hb'; apply Hsz; unfold bp; lia]|]. cbn [sized]. split_and!; [done|done|].
    apply (sized_move m); [done|]. intros b Hb'. apply Hsz. unfold bp in *. lia.
  - rewrite Hsz; [done|unfold bp; lia].
  - rewrite frees_app. cbn [frees]. apply linked_app. rewrite <-Hp. cbn [linked]. split; [|done]. apply (seg_move m); [done| |].
    + apply asc_nodup, frees_asc; [by eapply sized_pos|lia].
    + intros z Hz Hne. rewrite <-Hp in Hne. apply Hptr; [|done]. apply elem_of_cons in Hz as [->|Hz]; [unfold bp; lia|].
      apply frees_range in Hz; [unfold bp; lia|by eapply sized_pos].
Qed.

(** The row after the block also merged into the free block [p] before it. *)
Lemma merged m m' l k n' r' :
  let p := lo + total l in let bp := p + 8 * k in
  sized m lo l → sized m (bp + 8 * n') r' → h_size (m base) = 0 → 0 < k → 0 < n' → seg m base (frees lo l ++ [p]) →
  h_size (m' p) = k + n' → (∀ a, a ≠ bp → a ≠ p → m' a = m a) → linked base m' p (frees (bp + 8 * n') r') →
  sized m' lo (l ++ (true, k + n') :: r') ∧ h_size (m' base) = 0 ∧ linked base m' base (frees lo (l ++ (true, k + n') :: r')).
Proof.
  intros p bp Hl Hr Hb Hk Hn Hseg Hsz Hm Hlk.
  pose proof (total_nonneg _ (sized_pos _ _ _ Hl)) as Htl. split_and!.
  - apply sized_app. split; [apply (sized_move m); [done|intros b Hb'; rewrite Hm; [done|unfold bp, p; lia|unfold p; lia]]|]. cbn [sized]. fold p. split_and!; [done|lia|].
    replace (p + 8 * (k + n')) with (bp + 8 * n') by (unfold bp; lia).
    apply (sized_move m); [done|]. intros b Hb'. rewrite Hm; [done|lia|unfold bp in *; lia].
  - rewrite Hm; [done|unfold bp, p; lia|unfold p; lia].
  - rewrite frees_app. cbn [frees]. fold p. replace (p + 8 * (k + n')) with (bp + 8 * n') by (unfold bp; lia).
    change (frees lo l ++ p :: ?x) with (frees lo l ++ [p] ++ x). rewrite app_assoc. apply linked_app. rewrite end_of_app. cbn [end_of]. split; [|done].
    assert (Hsub : ∀ z, z ∈ base :: frees lo l → base ≤ z < p).
    { intros z [->|Hz]%elem_of_cons; [unfold p; lia|]. apply frees_range in Hz; [unfold p; lia|by eapply sized_pos]. }
    apply (seg_move m); [done| |].
    + rewrite app_comm_cons. apply NoDup_app. split_and!; [apply asc_nodup, frees_asc; [by eapply sized_pos|lia]| |apply NoDup_singleton].
      intros z Hz ->%list_elem_of_singleton. specialize (Hsub p Hz). lia.
    + intros z Hz Hne. rewrite end_of_app in Hne. cbn in Hne. rewrite app_comm_cons in Hz. apply elem_of_app in Hz as [Hz|Hz%list_elem_of_singleton]; [|done].
      specialize (Hsub z Hz). rewrite Hm; [done|unfold bp; lia|lia].
Qed.

Lemma released_total l n r : total (released l n r) = total (l ++ (false, n) :: r).
Proof.
  unfold released. pose proof (absorb_total n r) as Ha. destruct (absorb n r) as [n' r']. cbn [fst snd] in Ha.
  assert (Hgo : total (l ++ (true, n') :: r') = total (l ++ (false, n) :: r)) by (rewrite !total_app, !total_cons; cbn [snd]; lia).
  destruct (last l) as [[[] k]|] eqn:E; [|done|done]. apply last_Some in E as [l' ->]. rewrite removelast_last.
  rewrite <-Hgo, !total_app, !total_cons. unfold total. cbn. lia.
Qed.

Lemma free_place s l n r :
  heap_inv s (l ++ (false, n) :: r) →
  free_find (ring_fuel s) (hp_mem s) (lo + total l) (hp_freep s) = Some (end_of base (frees lo l)).
Proof.
  intros [Hs Hb Hr Hbrk Hmax Hf]. pose proof (ring_fuel_enough s _ Hs Hbrk) as Hfuel. apply sized_app in Hs as (Hl & _ & Hn & Hr').
  pose proof (total_nonneg _ (sized_pos _ _ _ Hl)). pose proof (sized_pos _ _ _ Hl) as Hpl. pose proof (sized_pos _ _ _ Hr') as Hpr.
  rewrite frees_app in *. cbn [frees] in *. eapply free_find_spec; [done| |lia| | |done|lia].
  - pose proof (frees_asc lo base (l ++ (false, n) :: r)) as Ha. rewrite frees_app in Ha. apply Ha; [|lia]. apply Forall_app. split; [done|by constructor].
  - intros y Hy. apply frees_range in Hy; [lia|done].
  - intros y Hy. apply frees_range in Hy; [lia|done].
Qed.

(** The first half of [free]: the block takes over the free block after it. *)
Lemma free_next s l n r :
  let bp := lo + total l in let p := end_of base (frees lo l) in let q := h_ptr (hp_mem s p) in let n' := (absorb n r).1 in
  heap_inv s (l ++ (false, n) :: r) →
  wp (if bp + 8 * h_size (hp_mem s bp) =? q then
        set_size bp (u32 (h_size (hp_mem s bp) + h_size (hp_mem s q)));; set_ptr bp (h_ptr (hp_mem s q))
      else set_ptr bp q)
    (λ _ s1, 0 < n' ∧ sized (hp_mem s) (bp + 8 * n') (absorb n r).2 ∧ h_size (hp_mem s1 bp) = n' ∧
       linked base (hp_mem s1) bp (frees (bp + 8 * n') (absorb n r).2) ∧
       (∀ a, a ≠ bp → hp_mem s1 a = hp_mem s a) ∧ hp_freep s1 = hp_freep s ∧ hp_brk s1 = hp_brk s) s.
Proof.
  intros bp p q n' [Hs Hb Hr Hbrk Hmax Hf].
  apply sized_app in Hs as (Hl & Hsz & Hn & Hsr). rewrite frees_app in Hr. cbn [frees] in Hr. apply linked_app in Hr as [Hseg Hlk].
  rewrite total_app, total_cons in Hbrk. cbn [snd] in Hbrk. pose proof (total_nonneg _ (sized_pos _ _ _ Hl)) as Htl.
  pose proof (absorb_spec (hp_mem s) bp n r p Hsr Hlk ltac:(unfold bp; lia) Hn ltac:(lia)) as Habs.
  cbv zeta in Habs. fold n' q in Habs. destruct Habs as (Hn' & Hsr' & Hcase). fold bp in Hsz. rewrite Hsz.
  assert (Hgo : ∀ x s1, upd s bp (mkHeader (h_ptr (hp_mem s x)) n') s1 → linked base (hp_mem s) x (frees (bp + 8 * n') (absorb n r).2) →
    linked base (hp_mem s1) bp (frees (bp + 8 * n') (absorb n r).2)).
  { intros x s1 (U1 & U2 & _) Hx. apply (linked_move base (hp_mem s) _ x); [done|by rewrite U1|].
    intros z Hz. apply frees_range in Hz; [|by eapply sized_pos]. rewrite U2; [done|lia]. }
  destruct Hcase as [(En & Eu & Eq & Hx)|(En & Hne & Hx)].
  - rewrite (proj2 (Z.eqb_eq _ _)) by lia. rewrite <-En, Eu. eapply wp_mono; [apply upd_twice|]. intros [] s1 H1. cbn beta in H1.
    pose proof (Hgo _ _ H1 Hx). destruct H1 as (U1 & U2 & U3 & U4). rewrite U1. split_and!; try done; congruence.
  - rewrite (proj2 (Z.eqb_neq _ _)) by lia. eapply wp_mono; [apply set_ptr_upd|]. intros [] s1 H1. cbn beta in H1. rewrite Hsz, <-En in H1.
    pose proof (Hgo p _ H1 Hx). destruct H1 as (U1 & U2 & U3 & U4). rewrite U1. split_and!; try done; congruence.
Qed.

Lemma free_ok s l n r :
  heap_inv s (l ++ (false, n) :: r) →
  wp (free (lo + total l + 8)) (λ _ s', heap_inv s' (released l n r) ∧ hp_freep s' = end_of base (frees lo l) ∧ hp_brk s' = hp_brk s ∧
    ∀ a, a ≠ lo + total l → (a ∉ base :: frees lo l) → hp_mem s' a = hp_mem s a) s.
Proof.
  intros Hinv. unfold free. rewrite Z.add_simpl_r. apply wp_getS. rewrite (free_place s l n r Hinv). cbv zeta.
  wp_step (free_next s l n r Hinv). cbv zeta. intros _ s1 (Hn' & Hsr & Hsz & Hlk & Hsame & _ & Hbrk1). apply wp_getS.
  pose proof (absorb_total n r) as Hat. unfold released.
  destruct (absorb n r) as [n' r'] eqn:Eabs. cbn [fst snd] in *.
  destruct Hinv as [Hs Hb Hr Hbrk Hmax Hf]. apply sized_app in Hs as (Hl & _ & Hn & _). rewrite frees_app in Hr. apply linked_app in Hr as [Hseg _].
  pose proof (total_nonneg _ (sized_pos _ _ _ Hl)) as Htl. pose proof (total_nonneg _ (sized_pos _ _ _ Hsr)) as Htr.
  pose proof (end_of_in base (frees lo l)) as Hpin. set (p := end_of base (frees lo l)) in *.
  assert (Hpbp : base ≤ p < lo + total l).
  { apply elem_of_cons in Hpin as [->|Hp]; [lia|]. apply frees_range in Hp; [lia|by eapply sized_pos]. }
  rewrite (Hsame p) by lia. rewrite Hsz. rewrite total_app, total_cons in Hbrk. cbn [snd] in Hbrk.
  destruct (prev_spec (hp_mem s) l Hl Hb) as [(l' & k & El & Ep & Ek & Eend & Hk)|[Hne Hlast]].
  - fold p in Ep, Ek, Eend. rewrite Ek, (proj2 (Z.eqb_eq _ _)) by lia. subst l. rewrite last_snoc, removelast_last in *. apply wp_bind.
    apply sized_app in Hl as (Hl' & _). rewrite total_app in *. pose proof (total_nonneg _ (sized_pos _ _ _ Hl')) as Htl'.
    rewrite u32_small by lia. eapply wp_mono; [apply upd_twice|]. intros _ s2 (V1 & V2 & V3 & V4). apply wp_modify_end.
    assert (Hseg' : seg (hp_mem s) base (frees lo l' ++ [lo + total l'])) by (by rewrite frees_app in Hseg).
    destruct (merged (hp_mem s) (hp_mem s2) l' k n' r') as (R1 & R2 & R3); try done.
    + by rewrite <-Ep, Eend.
    + by rewrite <-Ep, V1.
    + rewrite <-Ep, Eend. intros a H1 H2. by rewrite V2, Hsame.
    + rewrite <-Ep, Eend. apply (linked_move base (hp_mem s1) _ (lo + (total l' + total [(true, k)]))); [done|by rewrite V1|].
      intros z Hz. apply frees_range in Hz; [|by eapply sized_pos]. rewrite V2; [done|lia].
    + split_and!; [|done|cbn; congruence|cbn; intros a Ha Hni; rewrite V2, Hsame; [done|done|intros ->; by apply Hni]].
      split; cbn; [done|done|done|rewrite V4, Hbrk1, Hbrk, total_app, (total_cons (true, k + n')); cbn [snd]; lia|lia|]. rewrite frees_app. cbn [frees]. rewrite <-Ep. right. apply elem_of_app. right. by left.
  - fold p in Hne. rewrite (proj2 (Z.eqb_neq _ _)) by lia. apply wp_bind. eapply wp_mono; [apply set_ptr_upd|]. intros _ s2 (V1 & V2 & V3 & V4). apply wp_modify_end.
    assert (Hrel : match last l with Some (true, k) => removelast l ++ (true, k + n') :: r' | _ => l ++ (true, n') :: r' end = l ++ (true, n') :: r').
    { destruct (last l) as [[[] k]|]; [|done|done]. by destruct (Hlast k). }
    rewrite Hrel in *. rewrite (Hsame p) in V1 by lia.
    destruct (joined (hp_mem s) (hp_mem s2) l n' r' p) as (R1 & R2 & R3); try done.
    + rewrite V2; [done|lia].
    + intros a Ha. destruct (decide (a = p)) as [->|]; [by rewrite V1|by rewrite V2, Hsame].
    + intros a Ha Hap. by rewrite V2, Hsame.
    + by rewrite V1.
    + apply (linked_move base (hp_mem s1) _ (lo + total l)); [done|rewrite V2; [done|lia]|].
      intros z Hz. apply frees_range in Hz; [|by eapply sized_pos]. rewrite V2; [done|lia].
    + split_and!; [|done|cbn; congruence|cbn; intros a Ha Hni; rewrite V2, Hsame; [done|done|intros ->; by apply Hni]].
      split; cbn; [done|done|done|rewrite V4, Hbrk1, Hbrk, total_app, total_cons; cbn [snd]; lia|lia|]. rewrite frees_app. apply elem_of_cons in Hpin as [->|Hp]; [by left|]. right. apply elem_of_app. by left.
Qed.

(** ** Taking a block *)

(** Cut [k] units off the end of a free block of [n]. *)
Definition taken l (n k : Z) r : list tile := l ++ (if n =? k then [(false, k)] else [(true, n - k); (false, k)]) ++ r.

(** The part of [malloc_loop] that takes the block [p]. *)
Definition take_block (nunits prevp p : Z) (h : header) : M heap Z :=
  if h_size h =? nunits then set_ptr prevp (h_ptr h);; modify (with_freep prevp);; mret (p + 8)
  else set_size p (h_size h - nunits);;
       set_size (p + 8 * (h_size h - nunits)) nunits;; modify (with_freep prevp);; mret (p + 8 * (h_size h - nunits) + 8).

Lemma take_total l n k r : total (taken l n k r) = total (l ++ (true, n) :: r).
Proof. unfold taken. destruct (Z.eqb_spec n k); rewrite !total_app, !total_cons; unfold total at 2; cbn; subst; lia. Qed.

Lemma take_exact s l k r prevp :
  let p := lo + total l in
  heap_inv s (l ++ (true, k) :: r) → prevp ∈ base :: frees lo (l ++ (true, k) :: r) → h_ptr (hp_mem s prevp) = p →
  wp (set_ptr prevp (h_ptr (hp_mem s p));; modify (with_freep prevp);; mret (p + 8)) (λ q s',
    q = p + 8 ∧ heap_inv s' (l ++ (false, k) :: r) ∧ hp_brk s' = hp_brk s ∧ ∀ a, (a ∉ base :: frees lo l) → hp_mem s' a = hp_mem s a) s.
Proof.
  intros p [Hs Hb Hr Hbrk Hmax Hf] Hprev Hpp.
  pose proof Hs as Hs0. apply sized_app in Hs0 as (Hl & Hsz & Hk & Hsr). cbn [sized] in *.
  pose proof (total_nonneg _ (sized_pos _ _ _ Hl)) as Htl.
  assert (Hnd : NoDup (base :: frees lo (l ++ (true, k) :: r))) by (apply asc_nodup, frees_asc; [by eapply sized_pos|lia]).
  rewrite frees_app in Hr, Hprev, Hnd. cbn [frees] in Hr, Hprev, Hnd. fold p in Hr, Hprev, Hnd, Hsz, Hsr.
  assert (prevp = end_of base (frees lo l)) as -> by (by eapply ring_pred).
  apply linked_app in Hr as (Hseg & _ & Hlk). rewrite app_comm_cons in Hnd. apply NoDup_app in Hnd as (Hnd & Hdis & [Hpr _]%NoDup_cons).
  pose proof (end_of_in base (frees lo l)) as Hin. set (e := end_of base (frees lo l)) in *.
  wp_step set_ptr_upd. intros [] s1 (U1 & U2 & U3 & U4). apply wp_modify, wp_ret.
  assert (Hsize : ∀ a, h_size (hp_mem s1 a) = h_size (hp_mem s a)) by (intros a; destruct (decide (a = e)) as [->|]; [by rewrite U1|by rewrite U2]).
  split_and!; [done| |cbn; congruence|].
  - split; cbn; [|by rewrite Hsize| |by rewrite U4, Hbrk, !total_app, !total_cons|by rewrite U4|].
    + apply (sized_move (hp_mem s)); [|done]. apply sized_app. fold p. split; [done|done].
    + rewrite frees_app. cbn [frees]. fold p. apply linked_app. fold e. split.
      * apply (seg_move (hp_mem s)); [done|done|]. intros z _ Hz. fold e in Hz. by rewrite U2.
      * apply (linked_move base (hp_mem s) _ p); [done|by rewrite U1|]. intros z Hz. rewrite U2; [done|]. intros ->. by apply (Hdis e); [|right].
    + rewrite frees_app. apply elem_of_cons in Hin as [->|Hin]; [by left|]. right. apply elem_of_app. by left.
  - intros a Ha. cbn. apply U2. intros ->. by apply Ha.
Qed.

Lemma take_split s l n k r prevp :
  let p := lo + total l in
  heap_inv s (l ++ (true, n) :: r) → prevp ∈ base :: frees lo (l ++ (true, n) :: r) → 0 < k < n →
  wp (set_size p (n - k);; set_size (p + 8 * (n - k)) k;; modify (with_freep prevp);; mret (p + 8 * (n - k) + 8)) (λ q s',
    q = p + 8 * (n - k) + 8 ∧ heap_inv s' (l ++ (true, n - k) :: (false, k) :: r) ∧ hp_brk s' = hp_brk s ∧
    ∀ a, a ≠ p → a ≠ p + 8 * (n - k) → hp_mem s' a = hp_mem s a) s.
Proof.
  intros p [Hs Hb Hr Hbrk Hmax Hf] Hprev Hk. apply sized_app in Hs as (Hl & Hsz & Hn & Hsr). cbn [sized] in *. fold p in Hsz, Hsr.
  pose proof (total_nonneg _ (sized_pos _ _ _ Hl)) as Htl.
  wp_step set_size_upd. intros [] s1 (U1 & U2 & U3 & U4). wp_step set_size_upd. intros [] s2 (V1 & V2 & V3 & V4). apply wp_modify, wp_ret.
  set (p' := p + 8 * (n - k)) in *. rewrite U2 in V1 by (unfold p'; lia).
  assert (Hptr : ∀ a, h_ptr (hp_mem s2 a) = h_ptr (hp_mem s a)).
  { intros a. destruct (decide (a = p')) as [->|]; [by rewrite V1|]. rewrite V2 by done. destruct (decide (a = p)) as [->|]; [by rewrite U1|by rewrite U2]. }
  assert (Hsame : ∀ a, a ≠ p → a ≠ p' → hp_mem s2 a = hp_mem s a) by (intros a ? ?; rewrite V2, U2; done).
  assert (Hfr : frees lo (l ++ (true, n - k) :: (false, k) :: r) = frees lo (l ++ (true, n) :: r)).
  { rewrite !frees_app. cbn [frees]. do 3 f_equal. lia. }
  split_and!; [done| |cbn; congruence|done]. split; cbn; [| | | |congruence|by rewrite Hfr].
  - apply sized_app. split; [apply (sized_move (hp_mem s)); [done|]; intros b Hb'; rewrite Hsame; [done|unfold p; lia|unfold p', p; lia]|].
    cbn [sized]. fold p. fold p'. split_and!; [rewrite V2, U1; [done|unfold p'; lia]|lia|by rewrite V1|lia|].
    replace (p' + 8 * k) with (p + 8 * n) by (unfold p'; lia). apply (sized_move (hp_mem s)); [done|]. intros b Hb'. rewrite Hsame; [done|lia|unfold p'; lia].
  - rewrite Hsame; [done|unfold p; lia|unfold p', p; lia].
  - rewrite Hfr. apply (linked_move base (hp_mem s) _ base); [done|done|]. intros; apply Hptr.
  - rewrite V4, U4, Hbrk. rewrite !total_app, !total_cons. cbn [snd]. lia.
Qed.

(** The state after [k] units are taken from the row [ts]; [q] is the new pointer. *)
Definition took (s : heap) ts (k q : Z) (s' : heap) : Prop :=
  ∃ l n r, ts = l ++ (true, n) :: r ∧ k ≤ n ∧ q = lo + total l + 8 * (n - k) + 8 ∧ heap_inv s' (taken l n k r) ∧ hp_brk s' = hp_brk s ∧
    ∀ a, (a ∉ base :: frees lo ts) → a ≠ q - 8 → hp_mem s' a = hp_mem s a.

Lemma take_ok s ts k prevp p :
  heap_inv s ts → p ∈ frees lo ts → prevp ∈ base :: frees lo ts → h_ptr (hp_mem s prevp) = p → 0 < k ≤ h_size (hp_mem s p) →
  wp (take_block k prevp p (hp_mem s p)) (took s ts k) s.
Proof.
  intros Hinv (l & n & r & -> & ->)%frees_split Hprev Hpp Hk.
  assert (Hn : h_size (hp_mem s (lo + total l)) = n) by (pose proof (hi_sized _ _ Hinv) as [_ [? _]]%sized_app; done). rewrite Hn in Hk.
  unfold take_block. rewrite Hn. destruct (Z.eqb_spec n k) as [->|Hne].
  - eapply wp_mono; [by apply (take_exact s l k r)|]. intros q s' (-> & Hi & Hb & Ha). exists l, k, r. split_and!; [done|lia|lia| |done|].
    + unfold taken. by rewrite Z.eqb_refl.
    + intros a Hin _. apply Ha. intros Hin'. apply Hin. rewrite frees_app. apply elem_of_cons in Hin' as [->|?]; [by left|]. right. apply elem_of_app. by left.
  - eapply wp_mono; [apply (take_split s l n k r prevp); [done|done|lia]|]. intros q s' (-> & Hi & Hb & Ha). exists l, n, r. split_and!; [done|lia|lia| |done|].
    + unfold taken. rewrite (proj2 (Z.eqb_neq _ _)) by done. done.
    + intros a Hin Hq. apply Ha; [|lia]. intros ->. apply Hin. rewrite frees_app. right. apply elem_of_app. right. by left.
Qed.

Section scan.
Context (can_grow : Z → Z → bool).

Definition big_in (s : heap) (k : Z) (v : list Z) : Prop := ∃ x, x ∈ v ∧ k ≤ h_size (hp_mem s x).

(** Going round the ring finds a block that is big enough. *)
Lemma scan_found s ts k v prevp p fuel :
  heap_inv s ts → seg (hp_mem s) prevp (p :: v) → end_of p v = hp_freep s → NoDup (p :: v) → (∀ x, x ∈ p :: v → x ∈ base :: frees lo ts) →
  prevp ∈ base :: frees lo ts → 0 < k → big_in s k (p :: v) → (length v < fuel)%nat →
  wp (malloc_loop can_grow fuel k prevp p) (took s ts k) s.
Proof.
  intros Hinv. revert prevp p fuel. induction v as [|q v IH]; intros prevp p [|fuel] Hseg Hend Hnd Hsub Hprev Hk (x & Hx & Hbig) Hf; cbn in Hf; try lia;
    cbn [malloc_loop]; apply wp_getS; cbv zeta; destruct (Z.leb_spec k (h_size (hp_mem s p))) as [Hp|Hp].
  - apply (take_ok s ts k prevp p); [done| |done|apply Hseg|lia]. destruct (proj1 (elem_of_cons _ _ _) (Hsub p ltac:(by left))) as [->|?]; [|done].
    rewrite (hi_base _ _ Hinv) in Hp. lia.
  - apply list_elem_of_singleton in Hx as ->. lia.
  - apply (take_ok s ts k prevp p); [done| |done|apply Hseg|lia]. destruct (proj1 (elem_of_cons _ _ _) (Hsub p ltac:(by left))) as [->|?]; [|done].
    rewrite (hi_base _ _ Hinv) in Hp. lia.
  - apply NoDup_cons in Hnd as [Hpn Hnd]. destruct Hseg as (_ & Hpq & Hseg).
    rewrite (proj2 (Z.eqb_neq _ _)) by (intros ->; apply Hpn; rewrite <-Hend; apply (end_of_in q v)). rewrite Hpq.
    apply IH; [done|done|done| | |done| |lia].
    + intros y Hy. apply Hsub. by right.
    + apply Hsub. by left.
    + exists x. split; [|done]. apply elem_of_cons in Hx as [->|?]; [lia|done].
Qed.

(** Otherwise it comes to [morecore]. *)
Lemma scan_missed s k v prevp p fuel Q :
  seg (hp_mem s) prevp (p :: v) → end_of p v = hp_freep s → NoDup (p :: v) → (∀ x, x ∈ p :: v → h_size (hp_mem s x) < k) →
  wp (q ← morecore can_grow k; if q =? 0 then mret 0 else s ← getS; malloc_loop can_grow fuel k q (h_ptr (hp_mem s q))) Q s →
  wp (malloc_loop can_grow (length v + S fuel) k prevp p) Q s.
Proof.
  intros Hseg Hend Hnd Hsmall HQ. revert prevp p Hseg Hend Hnd Hsmall. induction v as [|q v IH]; intros prevp p Hseg Hend Hnd Hsmall; cbn [length Nat.add malloc_loop];
    apply wp_getS; cbv zeta; pose proof (Hsmall p ltac:(by left)); rewrite (proj2 (Z.leb_gt _ _)) by lia.
  - cbn in Hend. by rewrite Hend, Z.eqb_refl.
  - apply NoDup_cons in Hnd as [Hpn Hnd]. destruct Hseg as (_ & Hpq & Hseg).
    rewrite (proj2 (Z.eqb_neq _ _)) by (intros ->; apply Hpn; rewrite <-Hend; apply (end_of_in q v)). rewrite Hpq.
    apply IH; [done|done|done|]. intros y Hy. apply Hsmall. by right.
Qed.

Lemma scan_start s ts :
  heap_inv s ts → ∃ p v, h_ptr (hp_mem s (hp_freep s)) = p ∧ seg (hp_mem s) (hp_freep s) (p :: v) ∧ end_of p v = hp_freep s ∧ NoDup (p :: v) ∧
    (p :: v) ≡ₚ base :: frees lo ts.
Proof.
  intros [Hs Hb Hr Hbrk Hmax Hf]. destruct (ring_round base _ _ _ Hr Hf) as (v & Hseg & Hend & Hv).
  destruct v as [|p v]; [by apply Permutation_nil_cons in Hv|]. exists p, v. split_and!; [apply Hseg|done|done| |done].
  rewrite Hv. apply asc_nodup, frees_asc; [by eapply sized_pos|lia].
Qed.
End scan.

(** ** Blocks of a row do not overlap *)

Lemma tiles_apart ts l t r l' t' r' :
  sizes_pos ts → ts = l ++ t :: r → ts = l' ++ t' :: r' →
  (l = l' ∧ t = t' ∧ r = r') ∨ total l + 8 * t.2 ≤ total l' ∨ total l' + 8 * t'.2 ≤ total l.
Proof.
  intros Hp -> E. revert l' E Hp. induction l as [|x l IH]; intros [|y l'] E Hp; cbn in E; injection E as E1 E2.
  - auto.
  - subst. right. left. apply Forall_cons in Hp as [_ Hp]. apply Forall_app in Hp as [Hp _]. pose proof (total_nonneg _ Hp). rewrite total_cons. change (total []) with 0. lia.
  - subst. right. right. apply Forall_cons in Hp as [_ Hp]. apply Forall_app in Hp as [Hp _]. pose proof (total_nonneg _ Hp). rewrite total_cons. change (total []) with 0. lia.
  - apply Forall_cons in Hp as [Hx Hp]. rewrite !total_cons. subst y. destruct (IH l' E2 Hp) as [(-> & -> & ->)|[?|?]]; [auto|right; left; lia|right; right; lia].
Qed.

Lemma used_not_free ts x j a :
  sizes_pos ts → (x, j) ∈ useds lo ts → x ≤ a < x + 8 * j → (a ∉ base :: frees lo ts) ∧ a < lo + total ts ∧ ∀ l n r, ts = l ++ (true, n) :: r → ¬ (lo + total l ≤ a < lo + total l + 8 * n).
Proof.
  intros Hp (l & r & E & ->)%useds_split Ha.
  assert (Hno : ∀ l n r, ts = l ++ (true, n) :: r → ¬ (lo + total l ≤ a < lo + total l + 8 * n)).
  { intros l' n r' E'. destruct (tiles_apart ts l _ r l' _ r' Hp E E') as [(_ & ? & _)|[H|H]]; cbn in *; [done|lia|lia]. }
  assert (Hlen : 0 ≤ total l ∧ 0 ≤ total r ∧ total ts = total l + (8 * j + total r)).
  { rewrite E in Hp |- *. apply Forall_app in Hp as [H1 [_ H2]%Forall_cons]. rewrite total_app, total_cons. split_and!; [by apply total_nonneg|by apply total_nonneg|done]. }
  split_and!; [|lia|done]. intros [->|Hin]%elem_of_cons; [lia|]. apply frees_split in Hin as (l' & n & r' & E' & ->). apply (Hno l' n r' E').
  rewrite E' in Hp. apply Forall_app in Hp as [_ [Hn _]%Forall_cons]. cbn in Hn. lia.
Qed.

(** The contents of the blocks in use. *)
Definition keeps_used ts (s s' : heap) : Prop :=
  ∀ x j a, (x, j) ∈ useds lo ts → x ≤ a < x + 8 * j → hp_mem s' a = hp_mem s a.

Lemma released_useds l n r : useds lo (released l n r) = useds lo l ++ useds (lo + total l + 8 * n) r.
Proof.
  unfold released. pose proof (absorb_total n r) as Ha.
  assert (Hr : ∀ a, useds (a + 8 * (absorb n r).1) (absorb n r).2 = useds (a + 8 * n) r).
  { intros a. destruct r as [|[[] k] r]; cbn [absorb fst snd useds]; [done|f_equal; lia|done]. }
  destruct (absorb n r) as [n' r'] eqn:E. cbn [fst snd] in *.
  assert (Hgo : useds lo (l ++ (true, n') :: r') = useds lo l ++ useds (lo + total l + 8 * n) r) by (rewrite useds_app; cbn [useds]; by rewrite Hr).
  destruct (last l) as [[[] k]|] eqn:El; [|done|done]. apply last_Some in El as [l' ->]. rewrite removelast_last, <-Hr.
  rewrite !useds_app. cbn [useds]. rewrite app_nil_r, total_app, total_cons. change (total []) with 0. cbn [snd].
  do 2 f_equal. lia.
Qed.

Lemma taken_useds l n k r : useds lo (taken l n k r) ≡ₚ (lo + total l + 8 * (n - k), k) :: useds lo (l ++ (true, n) :: r).
Proof.
  assert (Hc : ∀ a b, a = b → useds lo l ++ useds a r ≡ₚ useds lo l ++ useds b r) by (by intros a ? <-).
  unfold taken. rewrite !useds_app. destruct (Z.eqb_spec n k) as [->|Hne]; cbn [app useds].
  - rewrite Z.sub_diag, Z.add_0_r, total_cons. change (total []) with 0. cbn [snd]. rewrite Permutation_app_comm. cbn. constructor.
    rewrite Permutation_app_comm. apply Hc. lia.
  - rewrite !total_cons. change (total []) with 0. cbn [snd]. rewrite Permutation_app_comm. cbn. constructor. rewrite Permutation_app_comm. apply Hc. lia.
Qed.

(** ** [malloc] *)

Section malloc.
Context (can_grow : Z → Z → bool).
Hypothesis grow_fits : ∀ b n, can_grow b n = true → b + n ≤ 2 ^ 31.

(** The row with [nu] more units at its end. *)
Lemma released_more ts nu : ∃ l n, released ts nu [] = l ++ [(true, n)] ∧ (sizes_pos ts → nu ≤ n).
Proof.
  unfold released. cbn [absorb]. destruct (last ts) as [[[] k]|] eqn:E; [|by exists ts, nu..]. exists (removelast ts), (k + nu). split; [done|].
  intros Hp. apply last_Some in E as [l' ->]. apply Forall_app in Hp as [_ [Hk _]%Forall_cons]. cbn in Hk. lia.
Qed.

Lemma released_frees ts nu : (length (frees lo (released ts nu [])) ≤ S (length (frees lo ts)))%nat.
Proof.
  unfold released. cbn [absorb]. destruct (last ts) as [[[] k]|] eqn:E; [|rewrite frees_app, length_app; cbn; lia..].
  apply last_Some in E as [l' ->]. rewrite removelast_last, !frees_app, !length_app. cbn. lia.
Qed.

Definition grown (s : heap) ts (s' : heap) ts' : Prop :=
  heap_inv s' ts' ∧ useds lo ts' = useds lo ts ∧ keeps_used ts s s' ∧ hp_brk s ≤ hp_brk s' ∧ (length (frees lo ts') ≤ S (length (frees lo ts)))%nat.

Lemma more_inv s s' ts nu :
  heap_inv s ts → 0 < nu → hp_brk s + 8 * nu ≤ 2 ^ 31 → upd (with_brk (hp_brk s + 8 * nu) s) (hp_brk s) (mkHeader (h_ptr (hp_mem s (hp_brk s))) nu) s' →
  heap_inv s' (ts ++ [(false, nu)]).
Proof.
  intros [Hs Hb Hr Hbrk Hmax Hf] Hnu Hfit (U1 & U2 & U3 & U4). cbn in *. pose proof (total_nonneg _ (sized_pos _ _ _ Hs)) as Ht.
  assert (Hfr : frees lo (ts ++ [(false, nu)]) = frees lo ts) by (rewrite frees_app; apply app_nil_r).
  assert (Hsame : ∀ z, z ∈ base :: frees lo ts → hp_mem s' z = hp_mem s z).
  { intros z Hz. apply U2. apply elem_of_cons in Hz as [->|Hz]; [lia|]. apply frees_range in Hz; [lia|by eapply sized_pos]. }
  split; rewrite ?Hfr; [| | | | |congruence].
  - apply sized_app. split; [apply (sized_move (hp_mem s)); [done|intros b Hb'; rewrite U2; [done|lia]]|]. cbn [sized]. rewrite <-Hbrk, U1. done.
  - rewrite Hsame; [done|by left].
  - apply (linked_move base (hp_mem s) _ base); [done|rewrite Hsame; [done|by left]|]. intros z Hz. rewrite Hsame; [done|by right].
  - rewrite U4, Hbrk, total_app, total_cons. change (total []) with 0. cbn. lia.
  - rewrite U4. done.
Qed.

Lemma sbrk_ok n (Q : Z → heap → Prop) s :
  (can_grow (hp_brk s) n = true → Q (hp_brk s) (with_brk (hp_brk s + n) s)) → Q (-1) s → wp (sbrk can_grow n) Q s.
Proof. intros H1 H2. unfold sbrk. apply wp_getS. destruct (can_grow (hp_brk s) n); [by apply H1|done]. Qed.

Lemma morecore_ok s ts k :
  heap_inv s ts → 0 < k < 2 ^ 28 →
  wp (morecore can_grow k) (λ q s', (q = 0 ∧ s' = s) ∨
    (q ≠ 0 ∧ q = hp_freep s' ∧ ∃ ts', grown s ts s' ts' ∧ ∃ l n, ts' = l ++ [(true, n)] ∧ k ≤ n)) s.
Proof.
  intros Hinv Hk. unfold morecore. set (nu := if k <? 4096 then 4096 else k).
  assert (Hnu : k ≤ nu ∧ 0 < nu < 2 ^ 28) by (unfold nu; destruct (Z.ltb_spec k 4096); lia).
  rewrite s32_small by lia. pose proof Hinv as [Hs _ _ Hbrk Hmax _]. pose proof (total_nonneg _ (sized_pos _ _ _ Hs)) as Ht.
  apply wp_bind, sbrk_ok; [intros Eg%grow_fits|by left]. rewrite (proj2 (Z.eqb_neq _ _)) by lia. wp_step set_size_upd. intros [] s1 H1. cbn [hp_mem with_brk] in H1. rewrite (Z.mul_comm nu 8) in H1.
  pose proof (more_inv s s1 ts nu Hinv ltac:(lia) ltac:(lia) H1) as Hi1. rewrite Hbrk in H1 |- *.
  wp_step (free_ok s1 ts nu [] Hi1). intros [] s2 (Hi2 & Hf2 & Hb2 & Hm2). right.
  assert (Hq : hp_freep s2 ≠ 0).
  { rewrite Hf2. destruct (proj1 (elem_of_cons _ _ _) (end_of_in base (frees lo ts))) as [->|Hin]; [lia|]. apply frees_range in Hin; [lia|by eapply sized_pos]. }
  destruct H1 as (U1 & U2 & U3 & U4). cbn in U2, U4. split_and!; [done|done|]. exists (released ts nu []). split.
  - split_and!; [done|by rewrite released_useds, app_nil_r| |lia|apply released_frees].
    intros x j a Hx Ha. destruct (used_not_free ts x j a (sized_pos _ _ _ Hs) Hx Ha) as (Hn1 & Hn2 & _). rewrite Hm2, U2; [done|lia|lia|done].
  - destruct (released_more ts nu) as (l & n & -> & Hn). exists l, n. split; [done|]. specialize (Hn (sized_pos _ _ _ Hs)). lia.
Qed.

(** The state after [malloc] returned the block [q] of [k] units. *)
Definition allocated (s : heap) ts (k q : Z) (s' : heap) : Prop :=
  ∃ ts', heap_inv s' ts' ∧ useds lo ts' ≡ₚ (q - 8, k) :: useds lo ts ∧ keeps_used ts s s' ∧ lo + 8 ≤ q.

Lemma took_allocated s ts s1 ts1 k q s' :
  grown s ts s1 ts1 → took s1 ts1 k q s' → 0 < k → allocated s ts k q s'.
Proof.
  intros (Hi1 & Hu & Hkeep & _) (l & n & r & E & Hk & Hq & Hi & Hb & Hm) Hk0. exists (taken l n k r).
  pose proof (sized_pos _ _ _ (hi_sized _ _ Hi1)) as Hp.
  assert (Hpos : 0 ≤ total l) by (rewrite E in Hp; apply Forall_app in Hp as [? _]; by apply total_nonneg).
  split_and!; [done| | |lia].
  - rewrite taken_useds, <-Hu, E, Hq. by rewrite Z.add_simpl_r.
  - intros x j a Hx Ha. rewrite <-(Hkeep x j a Hx Ha). rewrite <-Hu in Hx. destruct (used_not_free ts1 x j a Hp Hx Ha) as (Hn1 & _ & Hn3).
    apply Hm; [done|]. intros ->. apply (Hn3 l n r E). lia.
Qed.

Lemma units_small nbytes : 0 ≤ nbytes < 2 ^ 31 - 16 → 0 < units nbytes < 2 ^ 28 ∧ nbytes ≤ 8 * (units nbytes - 1).
Proof.
  intros Hn. unfold units. rewrite u32_small by lia. rewrite Z.add_simpl_r.
  pose proof (Z_div_mod_eq_full (nbytes + 7) 8). pose proof (Z.mod_pos_bound (nbytes + 7) 8). split; [|lia]. split; [lia|].
  assert ((nbytes + 7) / 8 < 2 ^ 28 - 1); [|lia]. apply Z.div_lt_upper_bound; lia.
Qed.

(** Before the first call, or with a row of blocks. *)
Definition ready (s : heap) ts : Prop := heap_inv s ts ∨ (hp_freep s = 0 ∧ ts = [] ∧ hp_brk s = lo ∧ lo ≤ 2 ^ 31).

Lemma malloc_scan s ts k :
  heap_inv s ts → 0 < k < 2 ^ 28 →
  wp (malloc_loop can_grow (2 * ring_fuel s + 2) k (hp_freep s) (h_ptr (hp_mem s (hp_freep s))))
    (λ q s', (q = 0 ∧ s' = s) ∨ (q ≠ 0 ∧ allocated s ts k q s')) s.
Proof.
  intros Hinv Hk. destruct (scan_start s ts Hinv) as (p & v & Hp & Hseg & Hend & Hnd & Hperm). rewrite Hp.
  pose proof (ring_fuel_enough s ts (hi_sized _ _ Hinv) (hi_brk _ _ Hinv)) as Hfuel.
  assert (Hlen : length v = length (frees lo ts)) by (apply Permutation_length in Hperm; cbn in Hperm; lia).
  assert (Hdone : ∀ q s1 ts1 s', grown s ts s1 ts1 → took s1 ts1 k q s' → q ≠ 0 ∧ allocated s ts k q s').
  { intros q s1 ts1 s' Hg Ht. pose proof (took_allocated _ _ _ _ _ _ _ Hg Ht ltac:(lia)) as Ha. split; [|done]. destruct Ha as (_ & _ & _ & _ & ?). lia. }
  destruct (decide (Forall (λ x, h_size (hp_mem s x) < k) (p :: v))) as [Hsmall|Hbig].
  - replace (2 * ring_fuel s + 2)%nat with (length v + S (2 * ring_fuel s + 1 - length v))%nat by lia.
    apply scan_missed; [done|done|done|by apply Forall_forall|]. wp_step (morecore_ok s ts k Hinv Hk).
    intros q s1 [[-> ->]|(Hq & -> & ts1 & Hg & l & n & Ets & Hn)]; [by left|].
    rewrite (proj2 (Z.eqb_neq _ _)) by done. apply wp_getS. pose proof Hg as (Hi1 & _ & _ & _ & Hlen1).
    destruct (scan_start s1 ts1 Hi1) as (p1 & v1 & Hp1 & Hseg1 & Hend1 & Hnd1 & Hperm1). rewrite Hp1.
    assert (Hl1 : length v1 = length (frees lo ts1)) by (apply Permutation_length in Hperm1; cbn in Hperm1; lia).
    eapply wp_mono; [apply (scan_found can_grow s1 ts1 k v1); [done|done|done|done| |apply (hi_freep _ _ Hi1)|lia| |lia]|].
    + intros x Hx. by rewrite <-Hperm1.
    + exists (lo + total l). split.
      * rewrite Hperm1, Ets, frees_app. right. apply elem_of_app. right. by left.
      * pose proof (hi_sized _ _ Hi1) as Hs1. rewrite Ets in Hs1. apply sized_app in Hs1 as [_ [-> _]]. done.
    + intros q s' Ht. right. by eapply Hdone.
  - apply not_Forall_Exists in Hbig; [|intros x; apply _]. apply Exists_exists in Hbig as (x & Hx & Hxk). cbn in Hxk.
    eapply wp_mono; [apply (scan_found can_grow s ts k v); [done|done|done|done| |apply (hi_freep _ _ Hinv)|lia|exists x; split; [done|lia]|lia]|].
    + intros y Hy. by rewrite <-Hperm.
    + intros q s' Ht. right. eapply Hdone; [|done]. split_and!; [done|done|done|lia|lia].
Qed.

Lemma malloc_ok s ts nbytes :
  ready s ts → 0 < units nbytes < 2 ^ 28 →
  wp (malloc base can_grow nbytes) (λ q s', (q = 0 ∧ heap_inv s' ts ∧ keeps_used ts s s') ∨ (q ≠ 0 ∧ allocated s ts (units nbytes) q s')) s.
Proof.
  intros Hr Hk. unfold malloc. apply wp_getS. destruct Hr as [Hinv|(Hf & -> & Hbrk & Hlo)].
  - assert (Hf0 : hp_freep s ≠ 0).
    { destruct (proj1 (elem_of_cons _ _ _) (hi_freep _ _ Hinv)) as [->|Hin]; [lia|]. apply frees_range in Hin; [lia|]. eapply sized_pos, hi_sized, Hinv. }
    rewrite (proj2 (Z.eqb_neq _ _)) by done. apply wp_ret_bind, wp_getS. eapply wp_mono; [by apply (malloc_scan s ts)|].
    intros q s' [[-> ->]|H]; [by left|by right].
  - rewrite Hf. cbn [Z.eqb]. set (s0 := mkHeap (<[base := mkHeader base 0]> (hp_mem s)) base (hp_brk s)).
    assert (Hinv : heap_inv s0 []).
    { split; cbn; [done|by rewrite fn_lookup_insert|by rewrite fn_lookup_insert|rewrite Hbrk; change (total []) with 0; lia|lia|by left]. }
    change (wp (s ← getS; malloc_loop can_grow (2 * ring_fuel s + 2) (units nbytes) (hp_freep s) (h_ptr (hp_mem s (hp_freep s))))
      (λ q s', (q = 0 ∧ heap_inv s' [] ∧ keeps_used [] s s') ∨ (q ≠ 0 ∧ allocated s [] (units nbytes) q s')) s0).
    apply wp_getS. eapply wp_mono; [by apply (malloc_scan s0 [])|]. intros q s' [[-> ->]|[Hq (ts' & H1 & H2 & H3 & H4)]].
    + left. split; [done|]. split; [done|]. intros x j a Hx. by apply elem_of_nil in Hx.
    + right. split; [done|]. exists ts'. split_and!; [done|done| |done]. intros x j a Hx. by apply elem_of_nil in Hx.
Qed.

(** A request near 2^32 wraps around in the computation of the units: [malloc]
    returns a block with room for its header only. *)
Lemma malloc_overflow s ts nbytes :
  ready s ts → 2 ^ 32 - 7 ≤ nbytes < 2 ^ 32 →
  wp (malloc base can_grow nbytes) (λ q s', (q = 0 ∧ heap_inv s' ts ∧ keeps_used ts s s') ∨ (q ≠ 0 ∧ allocated s ts 1 q s')) s.
Proof.
  intros Hr Hn.
  assert (Hu : units nbytes = 1).
  { unfold units, u32. replace (nbytes + 7) with (nbytes - (2 ^ 32 - 7) + 1 * 2 ^ 32) by lia. rewrite Z.mod_add, Z.mod_small, Z.div_small by lia. done. }
  rewrite <-Hu. apply malloc_ok; [done|]. rewrite Hu. lia.
Qed.
End malloc.

(** ** A program that allocates, frees and writes to its blocks *)

Section client.
Context (can_grow : Z → Z → bool).
Hypothesis grow_fits : ∀ b n, can_grow b n = true → b + n ≤ 2 ^ 31.

(** The live blocks, with the number of bytes asked for. *)
Record ustate : Type := mkU { u_heap : heap; u_live : list (Z * Z) }.

(** A write changes the 8-byte cells that start inside a live block. *)
Inductive ustep : ustate → ustate → Prop :=
| u_malloc s L nb q s' : 0 ≤ nb < 2 ^ 31 - 16 → malloc base can_grow nb s = Ok q s' → q ≠ 0 → ustep (mkU s L) (mkU s' ((q, nb) :: L))
| u_nomem s L nb s' : 0 ≤ nb < 2 ^ 31 - 16 → malloc base can_grow nb s = Ok 0 s' → ustep (mkU s L) (mkU s' L)
| u_free s L1 p nb L2 s' : free p s = Ok tt s' → ustep (mkU s (L1 ++ (p, nb) :: L2)) (mkU s' (L1 ++ L2))
| u_write s L m' : (∀ a, (∀ p nb, (p, nb) ∈ L → ¬ (p ≤ a < p + nb)) → m' a = hp_mem s a) → ustep (mkU s L) (mkU (with_mem m' s) L).

(** Each live block is a block in use, with its size and the bytes asked for. *)
Definition uinv (y : ustate) : Prop :=
  ∃ ts (X : list (Z * Z * Z)), ready (u_heap y) ts ∧ useds lo ts ≡ₚ (λ x, (x.1.1 - 8, x.1.2)) <$> X ∧
    u_live y = (λ x, (x.1.1, x.2)) <$> X ∧ Forall (λ x, 0 ≤ x.2 ≤ 8 * (x.1.2 - 1)) X.

Lemma sized_starts m m' a ts :
  sized m a ts → (∀ l t r, ts = l ++ t :: r → h_size (m' (a + total l)) = h_size (m (a + total l))) → sized m' a ts.
Proof.
  revert a. induction ts as [|[b n] ts IH]; intros a; cbn [sized]; [done|]. intros (H1 & H2 & H3) Hm.
  pose proof (Hm [] _ _ eq_refl) as H0. rewrite Z.add_0_r in H0. split_and!; [congruence|done|]. apply IH; [done|].
  intros l t r ->. specialize (Hm ((b, n) :: l) t r eq_refl). rewrite total_cons in Hm. cbn [snd] in Hm. by rewrite Z.add_assoc in Hm.
Qed.

(** The bytes of a live block lie in its block, after the header. *)
Lemma live_used ts X p nb :
  useds lo ts ≡ₚ (λ x : Z * Z * Z, (x.1.1 - 8, x.1.2)) <$> X → Forall (λ x, 0 ≤ x.2 ≤ 8 * (x.1.2 - 1)) X →
  (p, nb) ∈ (λ x : Z * Z * Z, (x.1.1, x.2)) <$> X → ∃ k, (p - 8, k) ∈ useds lo ts ∧ 0 ≤ nb ≤ 8 * (k - 1).
Proof.
  intros Hu HX ([[p' k] nb'] & [= -> ->] & Hx)%list_elem_of_fmap. rewrite Forall_forall in HX. exists k. split; [|by apply (HX _ Hx)].
  rewrite Hu. by apply (list_elem_of_fmap_2 (λ x : Z * Z * Z, (x.1.1 - 8, x.1.2)) X (p', k, nb')).
Qed.

Lemma ready_pos s ts : ready s ts → sizes_pos ts ∧ hp_brk s = lo + total ts.
Proof.
  intros [[Hs _ _ Hb _ _]|(_ & -> & Hb & _)]; [split; [by eapply sized_pos|done]|]. split; [constructor|]. rewrite Hb. change (total []) with 0. lia.
Qed.

Lemma user_write_inv s ts m' :
  ready s ts → (∀ a, m' a ≠ hp_mem s a → ∃ x k, (x, k) ∈ useds lo ts ∧ x < a < x + 8 * k) → ready (with_mem m' s) ts.
Proof.
  intros Hr Hm. destruct (ready_pos s ts Hr) as [Hp _].
  assert (Hsame : ∀ a, (∀ x k, (x, k) ∈ useds lo ts → ¬ (x < a < x + 8 * k)) → h_ptr (m' a) = h_ptr (hp_mem s a) ∧ h_size (m' a) = h_size (hp_mem s a)).
  { intros a Ha. destruct (Z.eq_dec (h_ptr (m' a)) (h_ptr (hp_mem s a))) as [E1|E1], (Z.eq_dec (h_size (m' a)) (h_size (hp_mem s a))) as [E2|E2]; [done|exfalso..];
      (destruct (Hm a) as (x & k & Hx & Hin); [congruence|by eapply Ha]). }
  destruct Hr as [[Hs Hb Hring Hbrk Hmax Hf]|(Hf & -> & Hb & Hlo)]; [left|by right].
  assert (Hfree : ∀ a, a ∈ base :: frees lo ts → ∀ x k, (x, k) ∈ useds lo ts → ¬ (x < a < x + 8 * k)).
  { intros a Ha x k Hx Hin. destruct (used_not_free ts x k a Hp Hx) as [Hn _]; [lia|done]. }
  split; cbn; [| | |done|done|done].
  - apply (sized_starts (hp_mem s)); [done|]. intros l t r E. apply Hsame. intros x k (l' & r' & E' & ->)%useds_split Hin.
    destruct (tiles_apart ts l t r l' _ r' Hp E E') as [(-> & _)|[H|H]]; cbn in *; [lia| |lia].
    assert (0 < t.2); [|lia]. rewrite E in Hp. apply Forall_app in Hp as [_ [? _]%Forall_cons]. done.
  - rewrite (proj2 (Hsame base (Hfree base ltac:(by left)))). done.
  - apply (linked_move base (hp_mem s) _ base); [done|apply Hsame, Hfree; by left|]. intros z Hz. apply Hsame, Hfree. by right.
Qed.

(** The block that a live pointer stands for. *)
Lemma live_tile s ts k p : ready s ts → (p - 8, k) ∈ useds lo ts → ∃ l r, ts = l ++ (false, k) :: r ∧ p = lo + total l + 8 ∧ heap_inv s ts.
Proof.
  intros Hr Hx. destruct Hr as [Hi|(_ & -> & _)]; [|by apply elem_of_nil in Hx]. apply useds_split in Hx as (l & r & -> & E). exists l, r. split_and!; [done|lia|done].
Qed.

Lemma ustep_inv y y' : uinv y → ustep y y' → uinv y'.
Proof.
  intros (ts & X & Hr & Hu & HL & HX) Hst. destruct Hst as [s L nb q s' Hn Hm Hq|s L nb s' Hn Hm|s L1 p nb L2 s' Hm|s L m' Hm]; cbn [u_heap u_live] in *.
  - pose proof (malloc_ok can_grow grow_fits s ts nb Hr (proj1 (units_small nb Hn))) as Hw. unfold wp in Hw. rewrite Hm in Hw. destruct Hw as [[-> _]|[_ (ts' & Hi & Hu' & _)]]; [done|].
    exists ts', ((q, units nb, nb) :: X). cbn. split_and!; [by left|by rewrite Hu', Hu|by rewrite HL|]. constructor; [|done]. cbn.
    destruct (units_small nb Hn) as [_ ?]. lia.
  - pose proof (malloc_ok can_grow grow_fits s ts nb Hr (proj1 (units_small nb Hn))) as Hw. unfold wp in Hw. rewrite Hm in Hw. destruct Hw as [(_ & Hi & _)|[? _]]; [|done].
    exists ts, X. split_and!; [by left|done|done|done].
  - symmetry in HL. apply fmap_app_inv in HL as (X1 & X2' & -> & HL2 & ->). symmetry in HL2. apply fmap_cons_inv in HL2 as ([[p' k] nb'] & X2 & [= -> ->] & -> & ->). cbn [fst snd] in *.
    assert (Hin : (p' - 8, k) ∈ useds lo ts) by (rewrite Hu, fmap_app; apply elem_of_app; right; by left).
    destruct (live_tile s ts k p' Hr Hin) as (l & r & -> & -> & Hi).
    pose proof (free_ok s l k r Hi) as Hw. unfold wp in Hw. rewrite Hm in Hw. destruct Hw as (Hi' & _).
    exists (released l k r), (X1 ++ X2). split_and!; [by left| |by rewrite fmap_app|].
    + rewrite released_useds. rewrite useds_app in Hu. cbn [useds] in Hu. rewrite fmap_app in Hu |- *. cbn in Hu. rewrite Z.add_simpl_r in Hu.
      apply (Permutation_cons_inv (a := (lo + total l, k))). rewrite Permutation_middle, Hu. by rewrite Permutation_middle.
    + apply Forall_app in HX as [? [_ ?]%Forall_cons]. by apply Forall_app.
  - exists ts, X. split_and!; [|done|done|done]. apply (user_write_inv s); [done|]. intros a Ha.
    assert (Hnot : ¬ ∀ p nb, (p, nb) ∈ L → ¬ (p ≤ a < p + nb)) by (intros Hno; apply Ha, Hm, Hno).
    destruct (decide (Exists (λ x : Z * Z, x.1 ≤ a < x.1 + x.2) L)) as [He|He].
    + apply Exists_exists in He as ([p nb] & Hin & Hrange). rewrite HL in Hin. destruct (live_used ts X p nb Hu HX Hin) as (k & Hk & Hnb).
      exists (p - 8), k. cbn in Hrange. split; [done|lia].
    + exfalso. apply Hnot. intros p nb Hin Hr'. apply He, Exists_exists. by exists (p, nb).
Qed.

Lemma useds_apart ts i j x k x' k' :
  sizes_pos ts → useds lo ts !! i = Some (x, k) → useds lo ts !! j = Some (x', k') → i ≠ j → x + 8 * k ≤ x' ∨ x' + 8 * k' ≤ x.
Proof.
  intros Hp. generalize lo as a. revert i j. induction Hp as [|[b n] ts Hn Hp IH]; intros i j a; cbn [useds]; [done|]. cbn in Hn.
  assert (Hlow : ∀ (i : nat) y z, useds (a + 8 * n) ts !! i = Some (y, z) → a + 8 * n ≤ y).
  { intros i' y z H. apply list_elem_of_lookup_2 in H. apply useds_split in H as (l & r & E & ->). rewrite E in Hp. apply Forall_app in Hp as [Hl _]. pose proof (total_nonneg _ Hl). lia. }
  destruct b; [apply IH|]. destruct i as [|i], j as [|j]; cbn; [done| | |].
  - intros [= <- <-] H2%Hlow _. left. lia.
  - intros H1%Hlow [= <- <-] _. right. lia.
  - intros H1 H2 Hne. apply (IH i j (a + 8 * n)); [done|done|lia].
Qed.

(** The contents of the live blocks. *)
Definition keeps_live (L : list (Z * Z)) (s s' : heap) : Prop := ∀ p nb a, (p, nb) ∈ L → p ≤ a < p + nb → hp_mem s' a = hp_mem s a.

(** Two live blocks are two blocks in use, apart from each other. *)
Lemma live_apart ts X L i j p n q n2 :
  sizes_pos ts → useds lo ts ≡ₚ (λ x : Z * Z * Z, (x.1.1 - 8, x.1.2)) <$> X → L = (λ x : Z * Z * Z, (x.1.1, x.2)) <$> X → Forall (λ x, 0 ≤ x.2 ≤ 8 * (x.1.2 - 1)) X →
  i ≠ j → L !! i = Some (p, n) → L !! j = Some (q, n2) →
  ∃ k k', (p - 8, k) ∈ useds lo ts ∧ (q - 8, k') ∈ useds lo ts ∧ n ≤ 8 * (k - 1) ∧ n2 ≤ 8 * (k' - 1) ∧ (p + 8 * k ≤ q ∨ q + 8 * k' ≤ p).
Proof.
  intros Hp Hu -> HX Hij Hi Hj. rewrite !list_lookup_fmap in Hi, Hj.
  destruct (X !! i) as [[[p' k] n']|] eqn:Ei; [|done]. destruct (X !! j) as [[[q' k'] n2']|] eqn:Ej; [|done]. cbn in Hi, Hj. simplify_eq.
  rewrite Forall_forall in HX. pose proof (HX _ (list_elem_of_lookup_2 _ _ _ Ei)) as Hx1. pose proof (HX _ (list_elem_of_lookup_2 _ _ _ Ej)) as Hx2. cbn in Hx1, Hx2.
  assert (Hi' : ((λ x : Z * Z * Z, (x.1.1 - 8, x.1.2)) <$> X) !! i = Some (p - 8, k)) by (by rewrite list_lookup_fmap, Ei).
  assert (Hj' : ((λ x : Z * Z * Z, (x.1.1 - 8, x.1.2)) <$> X) !! j = Some (q - 8, k')) by (by rewrite list_lookup_fmap, Ej).
  exists k, k'. split_and!; [rewrite Hu; by eapply list_elem_of_lookup_2|rewrite Hu; by eapply list_elem_of_lookup_2|lia|lia|].
  symmetry in Hu. apply Permutation_inj in Hu as (_ & f & Hf & Hlk). rewrite Hlk in Hi', Hj'.
  destruct (useds_apart ts (f i) (f j) _ k _ k' Hp Hi' Hj') as [?|?]; [|left; lia|right; lia]. intros E. by apply Hf in E.
Qed.

(** Freeing one live block leaves the contents of the others. *)
Lemma free_keeps s ts X L1 p n L2 :
  ready s ts → useds lo ts ≡ₚ (λ x : Z * Z * Z, (x.1.1 - 8, x.1.2)) <$> X → L1 ++ (p, n) :: L2 = (λ x : Z * Z * Z, (x.1.1, x.2)) <$> X →
  Forall (λ x, 0 ≤ x.2 ≤ 8 * (x.1.2 - 1)) X → wp (free p) (λ _ s', keeps_live (L1 ++ L2) s s') s.
Proof.
  intros Hr Hu HL HX. destruct (ready_pos _ _ Hr) as [Hp _].
  destruct (live_used ts X p n Hu HX) as (k & Hk & Hn); [rewrite <-HL; apply elem_of_app; right; by left|].
  destruct (live_tile _ ts k p Hr Hk) as (l & r & -> & -> & Hi). eapply wp_mono; [by apply (free_ok _ l k r)|]. intros [] s' (_ & _ & _ & Hm) q n2 a Hq Ha.
  assert (Hother : ∃ j, (L1 ++ (lo + total l + 8, n) :: L2) !! j = Some (q, n2) ∧ j ≠ length L1).
  { apply elem_of_app in Hq as [Hq|Hq]; apply list_elem_of_lookup_1 in Hq as [j Hj].
    - exists j. split; [by apply lookup_app_l_Some|]. apply lookup_lt_Some in Hj. lia.
    - exists (length L1 + S j)%nat. split; [|lia]. rewrite lookup_app_r by lia. by replace (length L1 + S j - length L1)%nat with (S j) by lia. }
  destruct Hother as (j & Hj & Hne).
  destruct (live_apart _ X _ j (length L1) q n2 (lo + total l + 8) n Hp Hu HL HX Hne Hj) as (k1 & k2 & Hk1 & Hk2 & H1 & H2 & H3); [rewrite lookup_app_r by lia; by rewrite Nat.sub_diag|].
  assert (Hk2p : 0 < k2) by (apply useds_split in Hk2 as (l2 & r2 & E2 & _); rewrite E2 in Hp; apply Forall_app in Hp as [_ [Hk0 _]%Forall_cons]; done).
  destruct (used_not_free _ (q - 8) k1 a Hp Hk1) as (Hn1 & _ & _); [lia|]. apply Hm; [lia|]. intros Hc. apply Hn1. rewrite frees_app.
  apply elem_of_cons in Hc as [->|?]; [by left|]. right. apply elem_of_app. by left.
Qed.

Lemma uinv_safe y :
  uinv y →
  (∀ i j p n q n2, i ≠ j → u_live y !! i = Some (p, n) → u_live y !! j = Some (q, n2) → p + n ≤ q ∨ q + n2 ≤ p) ∧
  (∀ p n, (p, n) ∈ u_live y → lo + 8 ≤ p ∧ p + n ≤ hp_brk (u_heap y)) ∧
  (∀ L1 p n L2, u_live y = L1 ++ (p, n) :: L2 → wp (free p) (λ _ s', keeps_live (L1 ++ L2) (u_heap y) s') (u_heap y)) ∧
  (∀ nb, 0 ≤ nb < 2 ^ 31 - 16 → wp (malloc base can_grow nb) (λ _ s', keeps_live (u_live y) (u_heap y) s') (u_heap y)).
Proof.
  intros (ts & X & Hr & Hu & HL & HX). destruct (ready_pos _ _ Hr) as [Hp Hb]. split_and!.
  - intros i j p n q n2 Hij Hi Hj. destruct (live_apart ts X _ i j p n q n2 Hp Hu HL HX Hij Hi Hj) as (k & k' & _ & _ & ? & ? & [?|?]); [left|right]; lia.
  - intros p n. rewrite HL. intros (k & Hk & Hn)%(live_used ts X); [|done|done]. pose proof Hk as (l & r & E & Ep)%useds_split.
    rewrite Hb, E, total_app, total_cons. rewrite E in Hp. apply Forall_app in Hp as [Hl [_ Hr']%Forall_cons].
    pose proof (total_nonneg _ Hl). pose proof (total_nonneg _ Hr'). cbn. lia.
  - intros L1 p n L2 E. rewrite E in HL. by apply (free_keeps _ ts X L1 p n L2).
  - intros nb Hnb. eapply wp_mono; [apply (malloc_ok can_grow grow_fits _ ts); [done|by apply units_small]|]. intros q s' Hq p n2 a Hpm Ha.
    rewrite HL in Hpm. destruct (live_used ts X p n2 Hu HX Hpm) as (k & Hk & Hn).
    assert (Hkeep : keeps_used ts (u_heap y) s') by (destruct Hq as [(_ & _ & ?)|[_ (? & _ & _ & ? & _)]]; done).
    apply (Hkeep (p - 8) k); [done|lia].
Qed.

Lemma usteps_inv y y' : uinv y → rtc ustep y y' → uinv y'.
Proof. intros H Hr. induction Hr; [done|]. eauto using ustep_inv. Qed.

(** C13. Over every sequence of malloc with requests below 2^31 - 16 bytes, free and writes inside
    the blocks, live blocks lie in the heap and do not overlap, and every further malloc of such
    a size or free of a live block terminates and leaves the contents of the other live blocks
    as they were. *)
Theorem umalloc_safe s0 y :
  hp_freep s0 = 0 → hp_brk s0 = lo → lo ≤ 2 ^ 31 → rtc ustep (mkU s0 []) y →
  (∀ i j p n q n2, i ≠ j → u_live y !! i = Some (p, n) → u_live y !! j = Some (q, n2) → p + n ≤ q ∨ q + n2 ≤ p) ∧
  (∀ p n, (p, n) ∈ u_live y → lo + 8 ≤ p ∧ p + n ≤ hp_brk (u_heap y)) ∧
  (∀ L1 p n L2, u_live y = L1 ++ (p, n) :: L2 → wp (free p) (λ _ s', keeps_live (L1 ++ L2) (u_heap y) s') (u_heap y)) ∧
  (∀ nb, 0 ≤ nb < 2 ^ 31 - 16 → wp (malloc base can_grow nb) (λ _ s', keeps_live (u_live y) (u_heap y) s') (u_heap y)).
Proof.
  intros Hf Hb Hlo Hr. apply uinv_safe. eapply usteps_inv; [|done]. exists [], []. split_and!; [right; done|done|done|constructor].
Qed.
End client.
End inv.

(** ** A small program *)

Definition mx_grow (b n : Z) : bool := b + n <=? 2 ^ 20.
Definition mx0 : heap := mkHeap (λ _, mkHeader 0 0) 0 8192.
Definition mx_st {A} (r : res heap A) : heap := match r with Ok _ s => s | _ => mx0 end.
Definition mx_ret {A} (r : res heap A) : option A := match r with Ok a _ => Some a | _ => None end.
Definition mx1 : heap := mx_st (malloc 4096 mx_grow 100 mx0).
Definition mx2 : heap := mx_st (malloc 4096 mx_grow 20000 mx1).
Definition mx3 : heap := mx_st (free 40856 mx2).

Lemma mx_run {A} (m : M heap A) s a : mx_ret (m s) = Some a → m s = Ok a (mx_st (m s)).
Proof. destruct (m s); cbn; congruence. Qed.

Lemma mx_steps : rtc (ustep 4096 mx_grow) (mkU mx0 []) (mkU mx3 [(20848, 20000)]).
Proof.
  eapply rtc_l; [apply (u_malloc _ _ mx0 [] 100 40856 mx1); [lia|apply mx_run; vm_compute; reflexivity|lia]|].
  eapply rtc_l; [apply (u_malloc _ _ mx1 _ 20000 20848 mx2); [lia|apply mx_run; vm_compute; reflexivity|lia]|].
  apply rtc_once. apply (u_free _ _ mx2 [(20848, 20000)] 40856 100 [] mx3). apply mx_run. vm_compute. reflexivity.
Qed.

Lemma mx_grow_fits b n : mx_grow b n = true → b + n ≤ 2 ^ 31.
Proof. unfold mx_grow. rewrite Z.leb_le. lia. Qed.

Lemma umalloc_safe_witness :
  let y := mkU mx3 [(20848, 20000)] in
  (∀ i j p n q n2, i ≠ j → u_live y !! i = Some (p, n) → u_live y !! j = Some (q, n2) → p + n ≤ q ∨ q + n2 ≤ p) ∧
  (∀ p n, (p, n) ∈ u_live y → 8192 + 8 ≤ p ∧ p + n ≤ hp_brk (u_heap y)) ∧
  (∀ L1 p n L2, u_live y = L1 ++ (p, n) :: L2 → wp (free p) (λ _ s', keeps_live (L1 ++ L2) (u_heap y) s') (u_heap y)) ∧
  (∀ nb, 0 ≤ nb < 2 ^ 31 - 16 → wp (malloc 4096 mx_grow nb) (λ _ s', keeps_live (u_live y) (u_heap y) s') (u_heap y)).
Proof.
  apply (umalloc_safe 4096 8192 ltac:(lia) mx_grow mx_grow_fits mx0).
  - reflexivity.
  - reflexivity.
  - lia.
  - exact mx_steps.
Defined.
