(* ===== verification/Printf.v ===== *)
(** * Formatted output (src/printf.c, cprintf of src/console.c)

    The output of a call is the list of the characters it writes.  [args] are the
    words above the format on the stack, and [str] is the string at an address.
    Each conversion prints the numeral of its argument, and [atoi] reads back
    what [printint] prints. *)

From S2P Require Import Prelude CString.
Import (notations) Corelib.Init.Byte.

Definition digits_upper : list byte := bytes_of "0123456789ABCDEF".
Definition digits_lower : list byte := bytes_of "0123456789abcdef".

(** [do{ buf[i++] = digits[x % base]; }while((x /= base) != 0)] *)
Fixpoint put_digits (tbl : list byte) (fuel : nat) (x base : Z) : list byte :=
  match fuel with
  | O => []
  | S fuel =>
      let d := tbl !!! Z.to_nat (x mod base) in
      let x := x / base in
      d :: (if x =? 0 then [] else put_digits tbl fuel x base)
  end.

(** The characters in [buf], before they are written in reverse. *)
Definition int_buf (tbl : list byte) (xx base : Z) (sgn : bool) : list byte :=
  let neg := sgn && (xx <? 0) in
  let x := u32 (if neg then - xx else xx) in
  put_digits tbl 32 x base ++ (if neg then ["-"]%byte else []).

Definition printint (tbl : list byte) (xx base : Z) (sgn : bool) : list byte := reverse (int_buf tbl xx base sgn).

Section printf.
Context (args : nat → Z) (str : Z → list byte).

(** The string of a %s. *)
Definition string_arg (p : Z) : list byte := if p =? 0 then bytes_of "(null)" else str p.

(** Print to the given fd. Only understands %d, %x, %p, %s. *)
Fixpoint printf_loop (fmt : list byte) (percent : bool) (ap : nat) : list byte :=
  match fmt with
  | [] => []
  | c :: fmt =>
      if negb percent then
        if bool_decide (c = "%"%byte) then printf_loop fmt true ap else c :: printf_loop fmt false ap
      else if bool_decide (c = "d"%byte) then printint digits_upper (s32 (args ap)) 10 true ++ printf_loop fmt false (S ap)
      else if bool_decide (c = "x"%byte) || bool_decide (c = "p"%byte) then printint digits_upper (s32 (args ap)) 16 false ++ printf_loop fmt false (S ap)
      else if bool_decide (c = "s"%byte) then string_arg (args ap) ++ printf_loop fmt false (S ap)
      else if bool_decide (c = "c"%byte) then to_uchar (args ap) :: printf_loop fmt false (S ap)
      else if bool_decide (c = "%"%byte) then c :: printf_loop fmt false ap
      else "%"%byte :: c :: printf_loop fmt false ap
  end.
Definition printf (fmt : list byte) : list byte := printf_loop (until_nul fmt) false 0.

(** Print to the console. only understands %d, %x, %p, %s. *)
Fixpoint cprintf_loop (fmt : list byte) (argp : nat) : list byte :=
  match fmt with
  | [] => []
  | c :: fmt =>
      if negb (bool_decide (c = "%"%byte)) then c :: cprintf_loop fmt argp
      else
        match fmt with
        | [] => []
        | c :: fmt =>
            if bool_decide (c = "d"%byte) then printint digits_lower (s32 (args argp)) 10 true ++ cprintf_loop fmt (S argp)
            else if bool_decide (c = "x"%byte) || bool_decide (c = "p"%byte) then printint digits_lower (s32 (args argp)) 16 false ++ cprintf_loop fmt (S argp)
            else if bool_decide (c = "s"%byte) then string_arg (args argp) ++ cprintf_loop fmt (S argp)
            else if bool_decide (c = "%"%byte) then "%"%byte :: cprintf_loop fmt argp
            else "%"%byte :: c :: cprintf_loop fmt argp
        end
  end.
Definition cprintf (fmt : list byte) : list byte := cprintf_loop (until_nul fmt) 0.
End printf.

(** ** Numerals *)

(** The value of digits, the first the most significant. *)
Definition value (base : Z) (ds : list Z) : Z := foldl (λ v d, base * v + d) 0 ds.

(** [s] is the numeral of [x]: its digits, without a leading zero. *)
Definition numeral (tbl : list byte) (base : Z) (s : list byte) (x : Z) : Prop :=
  ∃ ds, s = (λ d, tbl !!! Z.to_nat d) <$> ds ∧ Forall (λ d, 0 ≤ d < base) ds ∧ value base ds = x ∧
    (ds = [0] ∨ ∃ d r, ds = d :: r ∧ d ≠ 0).

Definition decimal (tbl : list byte) (s : list byte) (x : Z) : Prop :=
  (0 ≤ x ∧ numeral tbl 10 s x) ∨ (x < 0 ∧ ∃ t, s = "-"%byte :: t ∧ numeral tbl 10 t (- x)).

Section numerals.
Implicit Types (tbl : list byte) (x base : Z).

Lemma value_app base ds es : value base (ds ++ es) = foldl (λ v d, base * v + d) (value base ds) es.
Proof. apply foldl_app. Qed.

Lemma put_digits_numeral tbl fuel x base :
  2 ≤ base → 0 ≤ x < 2 ^ Z.of_nat fuel → (0 < fuel)%nat → numeral tbl base (reverse (put_digits tbl fuel x base)) x.
Proof.
  intros Hb. revert x. induction fuel as [|fuel IH]; intros x Hx Hf; [lia|]. cbn [put_digits].
  pose proof (Z.mod_pos_bound x base ltac:(lia)) as Hm. pose proof (Z_div_mod_eq_full x base) as He.
  assert (Hq : 0 ≤ x / base) by (apply Z.div_pos; lia).
  destruct (Z.eqb_spec (x / base) 0) as [E|E].
  - exists [x mod base]. split_and!; [done|by apply Forall_singleton|unfold value; cbn; lia|].
    destruct (decide (x mod base = 0)) as [->|]; [by left|right; eauto].
  - assert (Hlt : 0 ≤ x / base < 2 ^ Z.of_nat fuel).
    { split; [done|]. apply Z.div_lt_upper_bound; [lia|]. rewrite Nat2Z.inj_succ, Z.pow_succ_r in Hx by lia. nia. }
    destruct fuel as [|fuel]; [cbn in Hlt; lia|].
    destruct (IH (x / base) Hlt ltac:(lia)) as (ds & Hs & Hd & Hv & Hz). exists (ds ++ [x mod base]). split_and!.
    + rewrite reverse_cons, Hs, fmap_app. done.
    + apply Forall_app. split; [done|by apply Forall_singleton].
    + rewrite value_app, Hv. cbn. lia.
    + right. destruct Hz as [->|(d & r & -> & Hd0)]; [unfold value in Hv; cbn in Hv; lia|]. by exists d, (r ++ [x mod base]).
Qed.

Lemma printint_signed tbl xx : -2 ^ 31 ≤ xx < 2 ^ 31 → decimal tbl (printint tbl xx 10 true) xx.
Proof.
  intros Hx. unfold printint, int_buf. cbn [andb]. destruct (Z.ltb_spec xx 0).
  - right. split; [done|]. exists (reverse (put_digits tbl 32 (u32 (- xx)) 10)). rewrite reverse_app. split; [done|].
    rewrite u32_small by lia. apply put_digits_numeral; lia.
  - left. split; [done|]. rewrite app_nil_r, u32_small by lia. apply put_digits_numeral; lia.
Qed.

Lemma printint_hex tbl xx : numeral tbl 16 (printint tbl (s32 xx) 16 false) (u32 xx).
Proof.
  unfold printint, int_buf. cbn [andb]. rewrite app_nil_r.
  assert (u32 (s32 xx) = u32 xx) as ->.
  { unfold u32, s32. rewrite Zminus_mod_idemp_l. f_equal. lia. }
  apply put_digits_numeral; [lia| |lia]. unfold u32. apply Z.mod_pos_bound. lia.
Qed.

(** The 16 characters of [buf] are enough. *)
Lemma put_digits_length tbl fuel x base n :
  2 ≤ base → 0 ≤ x < base ^ Z.of_nat n → (0 < n)%nat → (length (put_digits tbl fuel x base) ≤ n)%nat.
Proof.
  intros Hb. revert x n. induction fuel as [|fuel IH]; intros x n Hx Hn; cbn [put_digits length]; [lia|].
  destruct (Z.eqb_spec (x / base) 0); cbn [length]; [lia|]. destruct n as [|n]; [lia|].
  assert (Hlt : 0 ≤ x / base < base ^ Z.of_nat n).
  { split; [apply Z.div_pos; lia|]. apply Z.div_lt_upper_bound; [lia|]. rewrite Nat2Z.inj_succ, Z.pow_succ_r in Hx by lia. lia. }
  destruct n as [|n]; [cbn in Hlt; lia|]. specialize (IH (x / base) (S n) Hlt ltac:(lia)). lia.
Qed.

Lemma int_buf_fits tbl xx base sgn : 10 ≤ base → (length (int_buf tbl xx base sgn) ≤ 11)%nat.
Proof.
  intros Hb. unfold int_buf. rewrite length_app.
  assert (Hl : ∀ x, (length (put_digits tbl 32 (u32 x) base) ≤ 10)%nat).
  { intros x. apply put_digits_length; [lia| |lia]. pose proof (Z.mod_pos_bound x (2 ^ 32) ltac:(lia)). unfold u32. split; [lia|].
    assert (10 ^ 10 ≤ base ^ 10) by (apply Z.pow_le_mono_l; lia). change (Z.of_nat 10) with 10. lia. }
  destruct (sgn && (xx <? 0)); cbn [length]; [specialize (Hl (- xx))|specialize (Hl xx)]; lia.
Qed.
End numerals.

#[local] Arguments printint : simpl never.

(** ** Formats *)

Inductive piece : Type := Lit (c : byte) | PD | PX | PP | PS | PC | PPercent | PUnknown (c : byte).

Definition render (p : piece) : list byte :=
  match p with
  | Lit c => [c]
  | PD => bytes_of "%d" | PX => bytes_of "%x" | PP => bytes_of "%p" | PS => bytes_of "%s" | PC => bytes_of "%c"
  | PPercent => bytes_of "%%"
  | PUnknown c => ["%"%byte; c]
  end.

Definition piece_ok (p : piece) : Prop :=
  match p with
  | Lit c => c ≠ "%"%byte ∧ c ≠ Byte.x00
  | PUnknown c => c ∉ [Byte.x00; "d"; "x"; "p"; "s"; "c"; "%"]%byte
  | _ => True
  end.

Section format.
Context (args : nat → Z) (str : Z → list byte).

(** What a format prints, from the argument [ap] on. *)
Inductive prints (tbl : list byte) : list piece → nat → list byte → Prop :=
| pr_nil ap : prints tbl [] ap []
| pr_lit c ps ap out : prints tbl ps ap out → prints tbl (Lit c :: ps) ap (c :: out)
| pr_d ps ap s out : decimal tbl s (s32 (args ap)) → prints tbl ps (S ap) out → prints tbl (PD :: ps) ap (s ++ out)
| pr_x ps ap s out : numeral tbl 16 s (u32 (args ap)) → prints tbl ps (S ap) out → prints tbl (PX :: ps) ap (s ++ out)
| pr_p ps ap s out : numeral tbl 16 s (u32 (args ap)) → prints tbl ps (S ap) out → prints tbl (PP :: ps) ap (s ++ out)
| pr_s ps ap out : args ap ≠ 0 → prints tbl ps (S ap) out → prints tbl (PS :: ps) ap (str (args ap) ++ out)
| pr_null ps ap out : args ap = 0 → prints tbl ps (S ap) out → prints tbl (PS :: ps) ap (bytes_of "(null)" ++ out)
| pr_c ps ap out : prints tbl ps (S ap) out → prints tbl (PC :: ps) ap (to_uchar (args ap) :: out)
| pr_percent ps ap out : prints tbl ps ap out → prints tbl (PPercent :: ps) ap ("%"%byte :: out)
| pr_unknown c ps ap out : prints tbl ps ap out → prints tbl (PUnknown c :: ps) ap ("%"%byte :: c :: out).

Lemma s32_bounds z : -2 ^ 31 ≤ s32 z < 2 ^ 31.
Proof. apply s32_range. Qed.

Lemma string_arg_prints tbl ps ap out : prints tbl ps (S ap) out → prints tbl (PS :: ps) ap (string_arg str (args ap) ++ out).
Proof. intros H. unfold string_arg. destruct (Z.eqb_spec (args ap) 0); [by apply pr_null|by apply pr_s]. Qed.

Lemma unknown_ne c : piece_ok (PUnknown c) →
  c ≠ "d"%byte ∧ c ≠ "x"%byte ∧ c ≠ "p"%byte ∧ c ≠ "s"%byte ∧ c ≠ "c"%byte ∧ c ≠ "%"%byte ∧ c ≠ Byte.x00.
Proof. cbn. rewrite !not_elem_of_cons. tauto. Qed.

Lemma printf_prints ps ap : Forall piece_ok ps → prints digits_upper ps ap (printf_loop args str (ps ≫= render) false ap).
Proof.
  intros Hok. revert ap. induction Hok as [|p ps Hp Hok IH]; intros ap; [constructor|]. rewrite bind_cons.
  destruct p; cbn [render app bytes_of String.list_byte_of_string]; cbn [printf_loop negb app].
  - destruct Hp as [Hp _]. rewrite bool_decide_eq_false_2 by done. by constructor.
  - cbn. constructor; [apply printint_signed, s32_bounds|done].
  - cbn. constructor; [apply printint_hex|done].
  - cbn. constructor; [apply printint_hex|done].
  - cbn. by apply string_arg_prints.
  - cbn. by constructor.
  - cbn. by constructor.
  - destruct (unknown_ne c Hp) as (? & ? & ? & ? & ? & ? & ?). cbn. repeat (case_bool_decide; try congruence). cbn. by constructor.
Qed.

(** cprintf has no %c. *)
Lemma cprintf_prints ps ap :
  Forall piece_ok ps → PC ∉ ps → prints digits_lower ps ap (cprintf_loop args str (ps ≫= render) ap).
Proof.
  intros Hok. revert ap. induction Hok as [|p ps Hp Hok IH]; intros ap; [constructor|]. rewrite bind_cons, not_elem_of_cons. intros [Hc Hn].
  destruct p; cbn [render app bytes_of String.list_byte_of_string].
  - destruct Hp as [Hp _]. cbn. rewrite bool_decide_eq_false_2 by done. cbn. constructor. by apply IH.
  - cbn. constructor; [apply printint_signed, s32_bounds|by apply IH].
  - cbn. constructor; [apply printint_hex|by apply IH].
  - cbn. constructor; [apply printint_hex|by apply IH].
  - cbn. apply string_arg_prints. by apply IH.
  - done.
  - cbn. constructor. by apply IH.
  - destruct (unknown_ne c Hp) as (? & ? & ? & ? & ? & ? & ?). cbn. repeat (case_bool_decide; try congruence). cbn. constructor. by apply IH.
Qed.

Lemma render_no_nul ps : Forall piece_ok ps → Byte.x00 ∉ ps ≫= render.
Proof.
  induction 1 as [|p ps Hp Hok IH]; [apply not_elem_of_nil|]. rewrite bind_cons, elem_of_app. intros [Hin|Hin]; [|done].
  destruct p; cbn in Hin; rewrite ?elem_of_cons, ?elem_of_nil in Hin; try naive_solver.
  destruct (unknown_ne c Hp) as (_ & _ & _ & _ & _ & _ & ?). naive_solver.
Qed.
End format.

(** ** Reading a number back *)

(** The digits of a numeral at [i], followed by a character that is no digit. *)
Lemma atoi_digits ds s i n fuel :
  Forall (λ d, 0 ≤ d < 10) ds → (∀ k d, ds !! k = Some d → s (i + Z.of_nat k) = digits_upper !!! Z.to_nat d) →
  ¬ (48 ≤ schar (s (i + Z.of_nat (length ds))) ≤ 57) → 0 ≤ n → foldl (λ v d, 10 * v + d) n ds < 2 ^ 31 → (length ds < fuel)%nat →
  Ulib.atoi_loop s i n fuel = Some (foldl (λ v d, 10 * v + d) n ds).
Proof.
  intros Hd. revert i n fuel. induction Hd as [|d ds Hd Hds IH]; intros i n [|fuel] Hs He Hn Hv Hf; cbn in Hf; try lia; cbn [Ulib.atoi_loop foldl] in *.
  - rewrite Z.add_0_r in He. destruct (Z.leb_spec 48 (schar (s i))), (Z.leb_spec (schar (s i)) 57); cbn; [lia|done..].
  - pose proof (Hs 0%nat d eq_refl) as H0. rewrite Z.add_0_r in H0.
    assert (Hc : schar (digits_upper !!! Z.to_nat d) = 48 + d).
    { assert (d = 0 ∨ d = 1 ∨ d = 2 ∨ d = 3 ∨ d = 4 ∨ d = 5 ∨ d = 6 ∨ d = 7 ∨ d = 8 ∨ d = 9) as Hcase by lia. by repeat destruct Hcase as [->|Hcase]; [..|subst d]. }
    rewrite H0, Hc. rewrite (proj2 (Z.leb_le _ _)), (proj2 (Z.leb_le _ _)) by lia. cbn [andb].
    assert (Hmono : ∀ l v, Forall (λ d, 0 ≤ d < 10) l → 0 ≤ v → v ≤ foldl (λ v d, 10 * v + d) v l).
    { clear. intros l. induction l as [|x l IH]; intros v Hl Hv; cbn; [lia|]. apply Forall_cons in Hl as [Hx Hl]. specialize (IH (10 * v + x) Hl ltac:(lia)). lia. }
    pose proof (Hmono ds (10 * n + d) Hds ltac:(lia)). rewrite s32_small by lia. replace (n * 10 + (48 + d) - 48) with (10 * n + d) by lia.
    apply IH; [| |lia|done|lia].
    + intros k x Hk. specialize (Hs (S k) x Hk). rewrite Nat2Z.inj_succ in Hs. by replace (i + 1 + Z.of_nat k) with (i + Z.succ (Z.of_nat k)) by lia.
    + replace (i + 1 + Z.of_nat (length ds)) with (i + Z.of_nat (S (length ds))) by lia. done.
Qed.

Lemma printint_atoi n rest :
  0 ≤ n < 2 ^ 31 → head rest = Some Byte.x00 →
  Ulib.atoi (chars (printint digits_upper n 10 true ++ rest)) 12 = Some n.
Proof.
  intros Hn Hr. destruct (printint_signed digits_upper n ltac:(lia)) as [[_ (ds & Hs & Hd & Hv & _)]|[? _]]; [|lia].
  pose proof (int_buf_fits digits_upper n 10 true ltac:(lia)) as Hl. unfold printint in Hs. 
  assert (Hlen : (length ds ≤ 11)%nat) by (apply (f_equal length) in Hs; rewrite length_reverse, length_fmap in Hs; lia).
  unfold printint. rewrite Hs. unfold Ulib.atoi. rewrite <-Hv. fold (value 10 ds). apply atoi_digits; [done| | |lia| |lia].
  - intros k d Hk. unfold chars. rewrite Z.add_0_l, Nat2Z.id. apply nth_lookup_Some, lookup_app_l_Some. by rewrite list_lookup_fmap, Hk.
  - unfold chars. rewrite Z.add_0_l, Nat2Z.id. rewrite app_nth2 by (rewrite length_fmap; lia). rewrite length_fmap, Nat.sub_diag. destruct rest as [|c rest]; [done|].
    injection Hr as ->. cbn [nth]. change (schar Byte.x00) with 0. lia.
  - unfold value in Hv. lia.
Qed.

(** C32. printf and its format: text is copied, %d gives the shortest decimal numeral of the
    argument with its sign, %x and %p the hexadecimal one, %s the string or (null), %c the
    character, %% a percent sign and an unknown letter itself after a percent sign; each
    conversion consumes one argument. *)
Theorem printf_correct args str ps junk :
  Forall piece_ok ps → prints args str digits_upper ps 0 (printf args str ((ps ≫= render) ++ Byte.x00 :: junk)).
Proof.
  intros Hok. unfold printf. assert (until_nul ((ps ≫= render) ++ Byte.x00 :: junk) = ps ≫= render) as ->; [|by apply printf_prints].
  pose proof (render_no_nul ps Hok) as Hn. induction (ps ≫= render) as [|c l IH]; cbn; [done|]. apply not_elem_of_cons in Hn as [Hc Hn].
  rewrite decide_False by done. f_equal. by apply IH.
Qed.

(** "%d items, %x%c" *)
Definition ex_fmt : list piece := PD :: (Lit <$> bytes_of " items, ") ++ [PX; PC].
Definition ex_args (i : nat) : Z := match i with 0%nat => 2 ^ 32 - 42 | 1%nat => 48879 | _ => 33 end.

Lemma printf_correct_witness :
  printf ex_args (λ _, []) ((ex_fmt ≫= render) ++ [Byte.x00]) = bytes_of "-42 items, BEEF!" ∧
  prints ex_args (λ _, []) digits_upper ex_fmt 0 (printf ex_args (λ _, []) ((ex_fmt ≫= render) ++ [Byte.x00])).
Proof.
  split; [vm_compute; reflexivity|]. apply (printf_correct ex_args (λ _, []) ex_fmt []).
  assert (Hlit : ∀ c, bool_decide (c ≠ "%"%byte ∧ c ≠ Byte.x00) = true → piece_ok (Lit c)) by (intros c Hc; by apply bool_decide_eq_true_1 in Hc).
  unfold ex_fmt. constructor; [done|]. apply Forall_app. split; [|repeat constructor]. apply Forall_fmap, Forall_forall. intros c Hc.
  apply Hlit. revert c Hc. apply Forall_forall. refine (bool_decide_unpack _ _). vm_compute. exact I.
Defined.

(** [atoi] reads back what [printint] prints. *)
Theorem printint_atoi_roundtrip n rest :
  0 ≤ n < 2 ^ 31 → head rest = Some Byte.x00 →
  Ulib.atoi (chars (printint digits_upper n 10 true ++ rest)) 12 = Some n.
Proof. apply printint_atoi. Qed.

Lemma printint_atoi_roundtrip_witness : Ulib.atoi (chars (printint digits_upper 2147483647 10 true ++ [Byte.x00])) 12 = Some 2147483647.
Proof. apply printint_atoi_roundtrip; [lia|reflexivity]. Defined.
