(* ===== verification/Console.v ===== *)
(** * The console (src/console.c, src/uart.c)

    Output goes to the serial port and to the screen; input is edited by line in
    a ring of 128 characters and read by line.  A characters' interrupt and a
    reader are modelled by whole calls; a reader that sleeps keeps how much it
    wants and what it has.  The abstract console is the queue of characters that
    readers may have and the line that is being edited. *)

From S2P Require Import Prelude CString.
Import (notations) Corelib.Init.Byte.

Definition INPUT_BUF : nat := 128.
Definition BACKSPACE : Z := 256.

Record con : Type := mkCon {
  c_buf : list byte;   (* input.buf *)
  c_r : Z;             (* read index *)
  c_w : Z;             (* write index *)
  c_e : Z;             (* edit index *)
  c_crt : list Z;      (* CGA memory *)
  c_pos : Z;           (* cursor: the registers 14 and 15 *)
  c_uart : list Z;     (* characters sent on the serial port *)
  c_wakeups : nat;     (* calls of wakeup(&input.r) *)
  c_panicked : bool;
}.

Definition set_input (b : list byte) (r w e : Z) (s : con) : con := mkCon b r w e (c_crt s) (c_pos s) (c_uart s) (c_wakeups s) (c_panicked s).
Definition set_e (e : Z) (s : con) : con := set_input (c_buf s) (c_r s) (c_w s) e s.
Definition set_r (r : Z) (s : con) : con := set_input (c_buf s) r (c_w s) (c_e s) s.
Definition set_screen (crt : list Z) (pos : Z) (s : con) : con := mkCon (c_buf s) (c_r s) (c_w s) (c_e s) crt pos (c_uart s) (c_wakeups s) (c_panicked s).
Definition uartputc (c : Z) : M con unit := modify (λ s, mkCon (c_buf s) (c_r s) (c_w s) (c_e s) (c_crt s) (c_pos s) (c_uart s ++ [c mod 256]) (c_wakeups s) (c_panicked s)).
Definition wakeup_readers : M con unit := modify (λ s, mkCon (c_buf s) (c_r s) (c_w s) (c_e s) (c_crt s) (c_pos s) (c_uart s) (S (c_wakeups s)) (c_panicked s)).

(** [crt[pos] = v] *)
Definition put_cell (pos v : Z) (crt : list Z) : list Z := <[Z.to_nat pos := v]> crt.

(** [memmove(crt, crt+80, sizeof(crt[0])*23*80)] and the blank last line *)
Definition scroll (pos : Z) (crt : list Z) : list Z :=
  let crt := take (23 * 80) (drop 80 crt) ++ drop (23 * 80) crt in
  blit (Z.to_nat pos) (replicate (24 * 80 - Z.to_nat pos) 0) crt.

Definition cgaputc (c : Z) : M con unit :=
  s ← getS;
  let pos := c_pos s in
  let '(pos, crt) :=
    if c =? 10 then (pos + (80 - pos mod 80), c_crt s)
    else if c =? BACKSPACE then (if 0 <? pos then pos - 1 else pos, c_crt s)
    else (pos + 1, put_cell pos (Z.lor (Z.land c 255) 1792) (c_crt s)) in
  if (pos <? 0) || (25 * 80 <? pos) then panic "pos under/overflow"
  else
    let '(pos, crt) := if 24 <=? pos / 80 then (pos - 80, scroll (pos - 80) crt) else (pos, crt) in
    putS (set_screen (put_cell pos (Z.lor 32 1792) crt) (u16 pos) s).

(** A CPU that prints after a panic spins. *)
Definition consputc (c : Z) : M con unit :=
  s ← getS;
  if c_panicked s then sleeps else
  (if c =? BACKSPACE then uartputc 8;; uartputc 32;; uartputc 8 else uartputc c);;
  cgaputc c.

(** ** Input *)

Definition ctl (c : byte) : Z := uchar c - 64.

Definition ring (s : con) (i : Z) : byte := c_buf s !!! Z.to_nat (i mod Z.of_nat INPUT_BUF).

(** [while(input.e != input.w && input.buf[(input.e-1) % INPUT_BUF] != '\n')] *)
Fixpoint kill_line (n : nat) : M con unit :=
  match n with
  | O => sleeps
  | S n =>
      s ← getS;
      if negb (c_e s =? c_w s) && negb (bool_decide (ring s (u32 (c_e s - 1)) = Byte.x0a)) then
        modify (λ s, set_e (u32 (c_e s - 1)) s);;
        consputc BACKSPACE;;
        kill_line n
      else mret tt
  end.

(** One character of [consoleintr]'s loop. *)
Definition console_char (c : Z) : M con unit :=
  s ← getS;
  if c =? ctl "P"%byte then mret tt
  else if c =? ctl "U"%byte then kill_line (S INPUT_BUF)
  else if (c =? ctl "H"%byte) || (c =? 127) then
    if negb (c_e s =? c_w s) then
      modify (λ s, set_e (u32 (c_e s - 1)) s);; consputc BACKSPACE
    else mret tt
  else if negb (c =? 0) && (u32 (c_e s - c_r s) <? Z.of_nat INPUT_BUF) then
    let c := if c =? 13 then 10 else c in
    modify (λ s, set_input (<[Z.to_nat (c_e s mod Z.of_nat INPUT_BUF) := to_uchar c]> (c_buf s)) (c_r s) (c_w s) (u32 (c_e s + 1)) s);;
    consputc c;;
    s ← getS;
    if (c =? 10) || (c =? ctl "D"%byte) || (c_e s =? u32 (c_r s + Z.of_nat INPUT_BUF)) then
      modify (λ s, set_input (c_buf s) (c_r s) (c_e s) (c_e s) s);;
      wakeup_readers
    else mret tt
  else mret tt.

(** The characters that [getc] returns before -1. *)
Fixpoint consoleintr (cs : list Z) : M con unit :=
  match cs with
  | [] => mret tt
  | c :: cs => console_char c;; consoleintr cs
  end.

(** Where a read stands: done with these bytes, or asleep with [n] bytes to go. *)
Inductive rstate : Type := RDone (ret : Z) (got : list byte) | RSleep (n : nat) (got : list byte).

(** [while(n > 0)] of [consoleread], for a call that asked for [target] bytes *)
Fixpoint consoleread (killed : bool) (target n : nat) (got : list byte) : M con rstate :=
  match n with
  | O => mret (RDone (Z.of_nat target) got)
  | S n' =>
      s ← getS;
      if c_r s =? c_w s then
        if killed then mret (RDone (-1) got) else mret (RSleep n got)
      else
        let c := ring s (c_r s) in
        modify (λ s, set_r (u32 (c_r s + 1)) s);;
        if bool_decide (c = to_uchar (ctl "D"%byte)) then
          (if (n <? target)%nat then modify (λ s, set_r (u32 (c_r s - 1)) s) else mret tt);;
          mret (RDone (Z.of_nat target - Z.of_nat n) got)
        else if bool_decide (c = Byte.x0a) then mret (RDone (Z.of_nat target - Z.of_nat n') (got ++ [c]))
        else consoleread killed target n' (got ++ [c])
  end.

Fixpoint consolewrite (bs : list byte) : M con unit :=
  match bs with
  | [] => mret tt
  | b :: bs => consputc (uchar b);; consolewrite bs
  end.

(** ** The abstract console *)

(** The characters for readers, and the line that is being edited. *)
Record acon : Type := mkAcon { a_queue : list byte; a_line : list byte }.

Definition char_spec (c : Z) (a : acon) : acon :=
  let q := a_queue a in let l := a_line a in
  if c =? ctl "P"%byte then a
  else if c =? ctl "U"%byte then mkAcon q []
  else if (c =? ctl "H"%byte) || (c =? 127) then mkAcon q (removelast l)
  else if negb (c =? 0) && (length (q ++ l) <? INPUT_BUF)%nat then
    let c := if c =? 13 then 10 else c in
    let l := l ++ [to_uchar c] in
    if (c =? 10) || (c =? ctl "D"%byte) || (length (q ++ l) =? INPUT_BUF)%nat then mkAcon (q ++ l) [] else mkAcon q l
  else a.

(** A read takes a line, or what there is of one, up to [n] characters; an end of
    file is left for the next read if something was read before it. *)
Fixpoint read_spec (killed : bool) (target n : nat) (got q : list byte) : rstate * list byte :=
  match n with
  | O => (RDone (Z.of_nat target) got, q)
  | S n' =>
      match q with
      | [] => (if killed then RDone (-1) got else RSleep n got, [])
      | c :: q' =>
          if bool_decide (c = to_uchar (ctl "D"%byte)) then (RDone (Z.of_nat target - Z.of_nat n) got, if (n <? target)%nat then q else q')
          else if bool_decide (c = Byte.x0a) then (RDone (Z.of_nat target - Z.of_nat n') (got ++ [c]), q')
          else read_spec killed target n' (got ++ [c]) q'
      end
  end.

(** ** The screen *)

Definition screen_ok (s : con) : Prop := 0 ≤ c_pos s < 24 * 80 ∧ length (c_crt s) = (25 * 80)%nat ∧ c_panicked s = false.

(** The fields of the input. *)
Definition same_input (s s' : con) : Prop := c_buf s' = c_buf s ∧ c_r s' = c_r s ∧ c_w s' = c_w s ∧ c_e s' = c_e s.

Lemma put_cell_length pos v crt : length (put_cell pos v crt) = length crt.
Proof. apply length_insert. Qed.

Lemma scroll_length pos crt : 0 ≤ pos ≤ 24 * 80 → length crt = (25 * 80)%nat → length (scroll pos crt) = (25 * 80)%nat.
Proof.
  intros Hp Hl. unfold scroll. assert (H1 : length (take (23 * 80) (drop 80 crt) ++ drop (23 * 80) crt) = (25 * 80)%nat).
  { rewrite length_app, length_take, !length_drop, Hl. lia. }
  unfold blit. rewrite !length_app, length_take, length_drop, length_replicate, H1. lia.
Qed.

(** The cursor stays on the first 24 lines, so no call panics or writes outside the screen. *)
Lemma cgaputc_ok c s : screen_ok s → wp (cgaputc c) (λ _ s', screen_ok s' ∧ same_input s s' ∧ c_uart s' = c_uart s ∧ c_wakeups s' = c_wakeups s) s.
Proof.
  intros (Hp & Hl & Hpan). unfold cgaputc. apply wp_getS. cbv zeta. pose proof (Z.mod_pos_bound (c_pos s) 80 ltac:(lia)) as Hm. pose proof (Z_div_mod_eq_full (c_pos s) 80) as Hd.
  assert (Hgo : ∀ pos crt, 0 ≤ pos ≤ 24 * 80 → length crt = (25 * 80)%nat →
    wp (if (pos <? 0) || (25 * 80 <? pos) then panic "pos under/overflow"
        else let '(pos, crt) := if 24 <=? pos / 80 then (pos - 80, scroll (pos - 80) crt) else (pos, crt) in putS (set_screen (put_cell pos (Z.lor 32 1792) crt) (u16 pos) s))
      (λ _ s', screen_ok s' ∧ same_input s s' ∧ c_uart s' = c_uart s ∧ c_wakeups s' = c_wakeups s) s).
  { intros pos crt Hpos Hcrt. rewrite (proj2 (Z.ltb_ge _ _)), (proj2 (Z.ltb_ge _ _)) by lia. cbn [orb].
    assert (Hfin : ∀ x crt', 0 ≤ x < 24 * 80 → length crt' = (25 * 80)%nat →
      wp (putS (set_screen crt' (u16 x) s)) (λ _ s', screen_ok s' ∧ same_input s s' ∧ c_uart s' = c_uart s ∧ c_wakeups s' = c_wakeups s) s).
    { intros x crt' Hx Hc. split; [|done]. unfold screen_ok. cbn. unfold u16. rewrite Z.mod_small by lia. done. }
    destruct (Z.leb_spec 24 (pos / 80)) as [Hs|Hs].
    - assert (pos = 24 * 80) as -> by (pose proof (Z_div_mod_eq_full pos 80); pose proof (Z.mod_pos_bound pos 80 ltac:(lia)); lia).
      apply Hfin; [lia|]. rewrite put_cell_length. apply scroll_length; [lia|done].
    - apply Hfin; [|by rewrite put_cell_length]. destruct (decide (pos = 24 * 80)) as [->|]; [vm_compute in Hs; discriminate Hs|lia]. }
  destruct (c =? 10); [apply Hgo; [lia|done]|]. destruct (c =? BACKSPACE); [apply Hgo; [destruct (Z.ltb_spec 0 (c_pos s)); lia|done]|].
  apply Hgo; [lia|by rewrite put_cell_length].
Qed.

Lemma consputc_ok c s : screen_ok s → wp (consputc c) (λ _ s', screen_ok s' ∧ same_input s s' ∧ c_wakeups s' = c_wakeups s) s.
Proof.
  intros Hok. unfold consputc. apply wp_getS. rewrite (proj2 (proj2 Hok)).
  assert (Hgo : ∀ s1, screen_ok s1 → same_input s s1 → c_wakeups s1 = c_wakeups s → wp (cgaputc c) (λ _ s', screen_ok s' ∧ same_input s s' ∧ c_wakeups s' = c_wakeups s) s1).
  { intros s1 Hs1 (H1 & H2 & H3 & H4) H5. eapply wp_mono; [by apply cgaputc_ok|]. intros [] s2 (Hs2 & (K1 & K2 & K3 & K4) & _ & K5).
    unfold same_input. split_and!; (done || congruence). }
  destruct (c =? BACKSPACE); by apply Hgo.
Qed.

(** ** The ring of characters *)

Record con_rel (s : con) (a : acon) : Prop := mkConRel {
  cr_len : length (c_buf s) = INPUT_BUF;
  cr_r : 0 ≤ c_r s < 2 ^ 32;
  cr_w : c_w s = u32 (c_r s + Z.of_nat (length (a_queue a)));
  cr_e : c_e s = u32 (c_r s + Z.of_nat (length (a_queue a ++ a_line a)));
  cr_max : (length (a_queue a ++ a_line a) ≤ INPUT_BUF)%nat;
  cr_at i c : (a_queue a ++ a_line a) !! i = Some c → ring s (c_r s + Z.of_nat i) = c;
  cr_line : Byte.x0a ∉ a_line a;
  cr_screen : screen_ok s;
}.

Lemma ring_u32 s i : ring s (u32 i) = ring s i.
Proof.
  unfold ring, u32, INPUT_BUF. do 2 f_equal. change (Z.of_nat 128) with 128.
  rewrite <-(Z.mod_add i (- (i / 2 ^ 32) * 2 ^ 25) 128) by lia. f_equal. pose proof (Z_div_mod_eq_full i (2 ^ 32)). lia.
Qed.

Lemma u32_add a b : u32 (u32 a + b) = u32 (a + b).
Proof. unfold u32. apply Zplus_mod_idemp_l. Qed.

Lemma u32_sub a b : u32 (u32 a - b) = u32 (a - b).
Proof. unfold u32. apply Zminus_mod_idemp_l. Qed.

Lemma u32_inj a b : u32 a = u32 b → -2 ^ 31 < a - b < 2 ^ 31 → a = b.
Proof.
  intros E Hd. assert (Hm : (a - b) mod 2 ^ 32 = 0) by (unfold u32 in E; rewrite Zminus_mod, E, Z.sub_diag; done).
  apply Z.mod_divide in Hm as [k Hk]; [|lia]. nia.
Qed.

Section input.
Implicit Types (s : con) (a : acon).

Lemma edit_empty s a : con_rel s a → c_e s = c_w s ↔ a_line a = [].
Proof.
  intros [_ Hr Hw He Hmax _ _ _]. rewrite Hw, He. rewrite length_app in *. unfold INPUT_BUF in Hmax. split.
  - intros E%u32_inj; [|lia]. apply length_zero_iff_nil. lia.
  - intros ->. f_equal. cbn. lia.
Qed.

(** Leaving out the last character of the line. *)
Lemma rel_backspace s q l c s' :
  con_rel s (mkAcon q (l ++ [c])) → same_input (set_e (u32 (c_e s - 1)) s) s' → screen_ok s' → con_rel s' (mkAcon q l).
Proof.
  intros [Hl Hr Hw He Hmax Hat Hline _] (E1 & E2 & E3 & E4) Hs. cbn [a_queue a_line set_e set_input c_buf c_r c_w c_e] in *. rewrite app_assoc in *. rewrite length_app in He, Hmax. cbn in He, Hmax.
  split; cbn [a_queue a_line]; rewrite ?E1, ?E2, ?E3; try done; [| |intros i x Hi|].
  - rewrite E4, He, u32_sub. f_equal. rewrite length_app. cbn. lia.
  - lia.
  - unfold ring. rewrite E1. apply (Hat i x). by apply lookup_app_l_Some.
  - intros Hin. apply Hline. apply elem_of_app. by left.
Qed.

Lemma rel_screen s a s' : con_rel s a → same_input s s' → screen_ok s' → con_rel s' a.
Proof.
  intros [Hl Hr Hw He Hmax Hat Hline _] (E1 & E2 & E3 & E4) Hs. split; rewrite ?E1, ?E2, ?E3, ?E4; try done.
  intros i x Hi. unfold ring. rewrite E1. by apply Hat.
Qed.

(** One backspace, on the screen as well. *)
Lemma backspace_ok s q l c :
  con_rel s (mkAcon q (l ++ [c])) → wp (modify (λ s, set_e (u32 (c_e s - 1)) s);; consputc BACKSPACE) (λ _ s', con_rel s' (mkAcon q l)) s.
Proof.
  intros Hrel. apply wp_modify. eapply wp_mono; [apply consputc_ok; apply (cr_screen _ _ Hrel)|]. intros [] s' (Hs & Hsame & _). by eapply rel_backspace.
Qed.

Lemma last_char s q l c : con_rel s (mkAcon q (l ++ [c])) → ring s (u32 (c_e s - 1)) = c ∧ c ≠ Byte.x0a.
Proof.
  intros [Hl Hr Hw He Hmax Hat Hline _]. cbn [a_queue a_line] in *. rewrite ring_u32, He. split.
  - rewrite <-(ring_u32 s), u32_sub, ring_u32. rewrite app_assoc, length_app. cbn [length]. rewrite <-(Hat (length (q ++ l)) c).
    + f_equal. lia.
    + rewrite app_assoc, lookup_app_r by lia. by rewrite Nat.sub_diag.
  - intros ->. apply Hline, elem_of_app. right. by left.
Qed.

Lemma kill_line_ok n s q l : con_rel s (mkAcon q l) → (length l < n)%nat → wp (kill_line n) (λ _ s', con_rel s' (mkAcon q [])) s.
Proof.
  revert s l. induction n as [|n IH]; intros s l Hrel Hn; [lia|]. cbn [kill_line]. apply wp_getS. pose proof (edit_empty _ _ Hrel) as Hee. cbn in Hee.
  destruct (Z.eqb_spec (c_e s) (c_w s)) as [E|E]; cbn [negb andb].
  - apply wp_ret. apply Hee in E as ->. done.
  - destruct l as [|c l _] using rev_ind; [by destruct E; apply Hee|]. destruct (last_char s q l c Hrel) as [-> Hc]. rewrite bool_decide_eq_false_2 by done. cbn [negb].
    change (wp ((modify (λ s, set_e (u32 (c_e s - 1)) s);; consputc BACKSPACE);; kill_line n) (λ _ s', con_rel s' (mkAcon q [])) s).
    wp_step backspace_ok; [done|]. intros [] s' Hrel'. apply (IH s' l Hrel'). rewrite length_app in Hn. cbn in Hn. lia.
Qed.

(** A character at the end of the line. *)
Definition put_char (b : byte) s : con :=
  set_input (<[Z.to_nat (c_e s mod Z.of_nat INPUT_BUF) := b]> (c_buf s)) (c_r s) (c_w s) (u32 (c_e s + 1)) s.

Lemma put_char_at s a b i c :
  con_rel s a → (length (a_queue a ++ a_line a) < INPUT_BUF)%nat → (a_queue a ++ a_line a ++ [b]) !! i = Some c →
  ring (put_char b s) (c_r s + Z.of_nat i) = c.
Proof.
  intros [Hl Hr Hw He Hmax Hat Hline _] Hlt Hi. set (k := length (a_queue a ++ a_line a)) in *. unfold ring. cbn [put_char set_input c_buf].
  assert (Hek : c_e s mod Z.of_nat INPUT_BUF = (c_r s + Z.of_nat k) mod Z.of_nat INPUT_BUF).
  { rewrite He. unfold u32, INPUT_BUF. change (Z.of_nat 128) with 128. rewrite <-(Z.mod_add ((c_r s + Z.of_nat k) mod 2 ^ 32) ((c_r s + Z.of_nat k) / 2 ^ 32 * 2 ^ 25) 128) by lia.
    f_equal. pose proof (Z_div_mod_eq_full (c_r s + Z.of_nat k) (2 ^ 32)). lia. }
  rewrite app_assoc in Hi. rewrite Hek. unfold INPUT_BUF in *. change (Z.of_nat 128) with 128 in *.
  destruct (decide (i = k)) as [->|Hne].
  - rewrite lookup_app_r in Hi by (fold k; lia). fold k in Hi. rewrite Nat.sub_diag in Hi. injection Hi as ->.
    apply list_lookup_total_insert_eq. rewrite Hl. pose proof (Z.mod_pos_bound (c_r s + Z.of_nat k) 128). lia.
  - pose proof (lookup_lt_Some _ _ _ Hi) as Hik. rewrite length_app in Hik. fold k in Hik. cbn in Hik.
    rewrite lookup_app_l in Hi by (fold k; lia). rewrite list_lookup_total_insert_ne; [by apply Hat|]. intros E.
    pose proof (Z.mod_pos_bound (c_r s + Z.of_nat k) 128 ltac:(lia)). pose proof (Z.mod_pos_bound (c_r s + Z.of_nat i) 128 ltac:(lia)).
    assert (E' : (c_r s + Z.of_nat k) mod 128 = (c_r s + Z.of_nat i) mod 128) by lia.
    pose proof (Z_div_mod_eq_full (c_r s + Z.of_nat k) 128). pose proof (Z_div_mod_eq_full (c_r s + Z.of_nat i) 128). nia.
Qed.

Lemma put_char_e s a b : con_rel s a → c_e (put_char b s) = u32 (c_r s + Z.of_nat (length (a_queue a ++ a_line a ++ [b]))).
Proof. intros [_ _ _ He _ _ _ _]. cbn. rewrite He, u32_add, app_assoc, (length_app _ [b]). f_equal. cbn. lia. Qed.

(** The line goes on, or is handed to the readers. *)
Lemma put_char_rel s a b s' :
  con_rel s a → (length (a_queue a ++ a_line a) < INPUT_BUF)%nat → same_input (put_char b s) s' → screen_ok s' →
  (b ≠ Byte.x0a → con_rel s' (mkAcon (a_queue a) (a_line a ++ [b]))) ∧
  con_rel (set_input (c_buf s') (c_r s') (c_e s') (c_e s') s') (mkAcon (a_queue a ++ a_line a ++ [b]) []).
Proof.
  intros Hrel Hlt (E1 & E2 & E3 & E4) Hs. pose proof (put_char_e s a b Hrel) as He'. pose proof (λ i c, put_char_at s a b i c Hrel Hlt) as Hat'.
  destruct Hrel as [Hl Hr Hw He Hmax Hat Hline Hsc]. rewrite He' in E4. cbn [put_char set_input c_buf c_r c_w] in E1, E2, E3.
  assert (Hlen : length (a_queue a ++ a_line a ++ [b]) = S (length (a_queue a ++ a_line a))) by (rewrite app_assoc, length_app; cbn; lia).
  assert (Hat2 : ∀ i c, (a_queue a ++ a_line a ++ [b]) !! i = Some c → ring s' (c_r s + Z.of_nat i) = c).
  { intros i c Hi. unfold ring. rewrite E1. by apply (Hat' i c). }
  split; [intros Hb|]; split; cbn [a_queue a_line set_input c_buf c_r c_w c_e]; rewrite ?app_nil_r, ?E1, ?E2, ?E3, ?E4; try done; try (by rewrite length_insert); try (rewrite Hlen; lia).
  - intros [Hin|Hin%list_elem_of_singleton]%elem_of_app; [done|congruence].
  - apply not_elem_of_nil.
Qed.

Lemma to_uchar_newline c : 0 ≤ c < 256 → to_uchar c = Byte.x0a → c = 10.
Proof.
  intros Hc E. assert (H : uchar (to_uchar c) = uchar Byte.x0a) by (by rewrite E). rewrite uchar_to_uchar, Z.mod_small in H by done. done.
Qed.

Lemma full_iff s a : con_rel s a → (length (a_queue a ++ a_line a) < INPUT_BUF)%nat ↔ u32 (c_e s - c_r s) < Z.of_nat INPUT_BUF.
Proof.
  intros [_ Hr _ He Hmax _ _ _]. rewrite He, u32_sub. unfold INPUT_BUF in *.
  replace (c_r s + Z.of_nat (length (a_queue a ++ a_line a)) - c_r s) with (Z.of_nat (length (a_queue a ++ a_line a))) by lia.
  rewrite u32_small by lia. lia.
Qed.

Lemma console_char_ok c s a : con_rel s a → 0 ≤ c < 256 → wp (console_char c) (λ _ s', con_rel s' (char_spec c a)) s.
Proof.
  intros Hrel Hc. destruct a as [q l]. unfold console_char, char_spec. cbn [a_queue a_line]. apply wp_getS.
  destruct (c =? ctl "P"%byte); [done|]. destruct (c =? ctl "U"%byte).
  { apply (kill_line_ok _ s q l Hrel). pose proof (cr_max _ _ Hrel) as Hm. cbn in Hm. rewrite length_app in Hm. unfold INPUT_BUF in *. lia. }
  destruct (_ || _).
  { pose proof (edit_empty _ _ Hrel) as Hee. cbn in Hee. destruct (Z.eqb_spec (c_e s) (c_w s)) as [E|E]; cbn [negb].
    - apply wp_ret. apply Hee in E as ->. done.
    - destruct l as [|x l _] using rev_ind; [by destruct E; apply Hee|]. rewrite removelast_last. by apply (backspace_ok s q l x). }
  pose proof (full_iff _ _ Hrel) as Hfull. cbn [a_queue a_line] in Hfull.
  destruct (c =? 0) eqn:E0; cbn [negb andb]; [done|].
  destruct (Nat.ltb_spec (length (q ++ l)) INPUT_BUF) as [Hlt|Hge].
  2: { rewrite (proj2 (Z.ltb_ge _ _)); [done|]. apply Z.nlt_ge. intros ?%Hfull. lia. }
  rewrite (proj2 (Z.ltb_lt _ _)) by (by apply Hfull). set (c' := if c =? 13 then 10 else c).
  assert (Hc' : 0 ≤ c' < 256) by (unfold c'; destruct (c =? 13); lia).
  apply wp_modify. change (set_input _ _ _ _ s) with (put_char (to_uchar c') s).
  wp_step consputc_ok; [apply (cr_screen _ _ Hrel)|]. intros [] s1 (Hs1 & Hsame & _). apply wp_getS.
  destruct (put_char_rel s (mkAcon q l) (to_uchar c') s1 Hrel Hlt Hsame Hs1) as [Hgo Hcommit]. cbn [a_queue a_line] in Hgo, Hcommit.
  assert (Hend : (c_e s1 =? u32 (c_r s1 + Z.of_nat INPUT_BUF)) = (length (q ++ l ++ [to_uchar c']) =? INPUT_BUF)%nat).
  { destruct Hsame as (_ & -> & _ & ->). rewrite (put_char_e s _ _ Hrel). cbn [a_queue a_line put_char set_input c_r].
    assert (Hle : (length (q ++ l ++ [to_uchar c']) ≤ INPUT_BUF)%nat) by (rewrite app_assoc, length_app; cbn; lia). unfold INPUT_BUF in *.
    destruct (Nat.eqb_spec (length (q ++ l ++ [to_uchar c'])) 128) as [->|Hne]; [by rewrite Z.eqb_refl|]. apply Z.eqb_neq. intros E%u32_inj; lia. }
  rewrite Hend. destruct ((c' =? 10) || (c' =? ctl "D"%byte) || _) eqn:Ec.
  - apply wp_modify, wp_modify_end. eapply rel_screen; [exact Hcommit|done|done].
  - apply wp_ret, Hgo. intros Hnl%to_uchar_newline; [|done]. rewrite Hnl in Ec. done.
Qed.

Lemma consoleintr_ok cs s a : con_rel s a → Forall (λ c, 0 ≤ c < 256) cs → wp (consoleintr cs) (λ _ s', con_rel s' (foldl (flip char_spec) a cs)) s.
Proof.
  intros Hrel Hcs. revert s a Hrel. induction Hcs as [|c cs Hc Hcs IH]; intros s a Hrel; [done|]. cbn [consoleintr foldl].
  wp_step console_char_ok; [done|done|]. intros [] s' Hrel'. by apply IH.
Qed.

Lemma queue_empty s a : con_rel s a → c_r s = c_w s ↔ a_queue a = [].
Proof.
  intros [_ Hr Hw _ Hmax _ _ _]. rewrite length_app in Hmax. unfold INPUT_BUF in Hmax. rewrite Hw. rewrite <-(u32_small (c_r s)) at 1 by lia. split.
  - intros E%u32_inj; [|lia]. apply length_zero_iff_nil. lia.
  - intros ->. f_equal. cbn. lia.
Qed.

Lemma rel_pop s c q l : con_rel s (mkAcon (c :: q) l) → ring s (c_r s) = c ∧ con_rel (set_r (u32 (c_r s + 1)) s) (mkAcon q l).
Proof.
  intros [Hl Hr Hw He Hmax Hat Hline Hs]. cbn [a_queue a_line] in *. cbn in Hmax. split.
  - rewrite <-(Hat 0%nat c eq_refl). f_equal. lia.
  - split; cbn [a_queue a_line set_r set_input c_buf c_r c_w c_e]; [done|unfold u32; apply Z.mod_pos_bound; lia| | |lia| |done|done].
    + rewrite Hw, u32_add. f_equal. cbn. lia.
    + rewrite He, u32_add. f_equal. cbn. lia.
    + intros i x Hi. specialize (Hat (S i) x Hi). unfold ring in *. cbn [set_r set_input c_buf].
      rewrite <-Hat. fold (ring s (u32 (c_r s + 1) + Z.of_nat i)) (ring s (c_r s + Z.of_nat (S i))).
      rewrite <-(ring_u32 s (u32 (c_r s + 1) + Z.of_nat i)), u32_add, ring_u32. f_equal. lia.
Qed.

Lemma set_r_back s : 0 ≤ c_r s < 2 ^ 32 → set_r (u32 (u32 (c_r s + 1) - 1)) (set_r (u32 (c_r s + 1)) s) = s.
Proof. intros Hr. rewrite u32_sub. replace (c_r s + 1 - 1) with (c_r s) by lia. rewrite u32_small by lia. by destruct s. Qed.

Lemma consoleread_ok killed target n got s q l :
  con_rel s (mkAcon q l) →
  wp (consoleread killed target n got) (λ r s', r = (read_spec killed target n got q).1 ∧ con_rel s' (mkAcon (read_spec killed target n got q).2 l)) s.
Proof.
  revert s q got. induction n as [|n IH]; intros s q got Hrel; cbn [consoleread read_spec]; [done|]. apply wp_getS.
  pose proof (queue_empty _ _ Hrel) as Hq. cbn [a_queue] in Hq. destruct (Z.eqb_spec (c_r s) (c_w s)) as [E|E].
  { apply Hq in E as ->. by destruct killed. }
  destruct q as [|c q]; [by destruct E; apply Hq|]. destruct (rel_pop s c q l Hrel) as [Hc Hpop]. rewrite Hc. apply wp_modify.
  destruct (bool_decide (c = to_uchar (ctl "D"%byte))).
  - destruct (S n <? target)%nat; [|by apply wp_ret_bind, wp_ret]. apply wp_modify, wp_ret. split; [done|].
    cbn [set_r set_input c_r]. rewrite <-(set_r_back s) in Hrel by (apply (cr_r _ _ Hrel)). exact Hrel.
  - destruct (bool_decide (c = Byte.x0a)); [done|]. by apply IH.
Qed.
End input.

(** ** Runs *)

(** A call: characters typed, a read that starts, or one that goes on after a sleep. *)
Inductive cop : Type := OType (cs : list Z) | ORead (killed : bool) (target n : nat) (got : list byte).

Fixpoint con_run (ops : list cop) : M con (list rstate) :=
  match ops with
  | [] => mret []
  | OType cs :: ops => consoleintr cs;; con_run ops
  | ORead killed target n got :: ops =>
      r ← consoleread killed target n got;
      rs ← con_run ops;
      mret (r :: rs)
  end.

Fixpoint acon_run (ops : list cop) (a : acon) : list rstate :=
  match ops with
  | [] => []
  | OType cs :: ops => acon_run ops (foldl (flip char_spec) a cs)
  | ORead killed target n got :: ops =>
      let '(r, q) := read_spec killed target n got (a_queue a) in r :: acon_run ops (mkAcon q (a_line a))
  end.

Definition op_ok (o : cop) : Prop := match o with OType cs => Forall (λ c, 0 ≤ c < 256) cs | _ => True end.

Lemma con_run_ok ops s a : con_rel s a → Forall op_ok ops → wp (con_run ops) (λ rs _, rs = acon_run ops a) s.
Proof.
  intros Hrel Hok. revert s a Hrel. induction Hok as [|[cs|k t n g] ops Ho Hok IH]; intros s a Hrel; cbn [con_run acon_run]; [done| |].
  - wp_step consoleintr_ok; [done|done|]. intros [] s' Hrel'. by apply IH.
  - destruct a as [q l]. wp_step consoleread_ok; [done|]. intros r s' [-> Hrel']. cbn [a_queue a_line].
    destruct (read_spec k t n g q) as [r q'] eqn:E. cbn [fst snd] in *. wp_step IH; [done|]. intros rs s'' ->. done.
Qed.

Definition con_start (s : con) : Prop := length (c_buf s) = INPUT_BUF ∧ c_r s = 0 ∧ c_w s = 0 ∧ c_e s = 0 ∧ screen_ok s.

(** C16. The console input ring implements a queue of committed characters followed by a line being
    edited: every sequence of keyboard input (with erase, kill and end of file) and reads gives
    the results of that specification, with the indices wrapping around modulo 2^32; no input
    makes the screen code panic. *)
Theorem console_refines s ops :
  con_start s → Forall op_ok ops → wp (con_run ops) (λ rs _, rs = acon_run ops (mkAcon [] [])) s.
Proof.
  intros (Hl & Hr & Hw & He & Hs) Hok. apply con_run_ok; [|done]. split; cbn; [done|lia| | |lia|done|apply not_elem_of_nil|done].
  - by rewrite Hr, Hw.
  - by rewrite Hr, He.
Qed.

(** "lx", backspace, "s", newline; a read of 10. *)
Definition cx : con := mkCon (replicate INPUT_BUF Byte.x00) 0 0 0 (replicate (25 * 80) 0) 0 [] 0 false.

Lemma console_refines_witness :
  wp (con_run [OType [108; 120; 8; 115; 10]; ORead false 10 10 []]) (λ rs _, rs = [RDone 3 (bytes_of "ls" ++ [Byte.x0a])]) cx.
Proof.
  assert (He : acon_run [OType [108; 120; 8; 115; 10]; ORead false 10 10 []] (mkAcon [] []) = [RDone 3 (bytes_of "ls" ++ [Byte.x0a])]) by (vm_compute; reflexivity).
  rewrite <-He. apply (console_refines cx).
  - split_and!; try reflexivity. unfold screen_ok. cbn. lia.
  - repeat constructor; lia.
Defined.
