(* ===== verification/Kbd.v ===== *)
(** * The keyboard (src/kbd.c, src/kbd.h)

    [kbdgetc] turns a scan code into a character and keeps the modifiers in
    [shift].  The tables are transcribed; their properties are checked for every
    scan code and every state of the modifiers. *)

From S2P Require Import Prelude CString.
Import (notations) Corelib.Init.Byte.

Definition NO : Z := 0.
Definition SHIFT : Z := 1.
Definition CTL : Z := 2.
Definition ALT : Z := 4.
Definition CAPSLOCK : Z := 8.
Definition NUMLOCK : Z := 16.
Definition SCROLLLOCK : Z := 32.
Definition E0ESC : Z := 64.

(** An array of 256 with its first elements, and some by index. *)
Definition table (l : list Z) (by_index : list (nat * Z)) : list Z :=
  foldl (λ t '(i, v), <[i := v]> t) (l ++ replicate (256 - length l) 0) by_index.

Definition chars_of (s : string) : list Z := uchar <$> bytes_of s.
Definition C (c : byte) : Z := uchar c - 64.
Definition ctls (s : string) : list Z := C <$> bytes_of s.

Definition shiftcode : list Z :=
  table [] [(29%nat, CTL); (42%nat, SHIFT); (54%nat, SHIFT); (56%nat, ALT); (157%nat, CTL); (184%nat, ALT)].
Definition togglecode : list Z := table [] [(58%nat, CAPSLOCK); (69%nat, NUMLOCK); (70%nat, SCROLLLOCK)].

(** KEY_HOME and the other special keys, of all three maps. *)
Definition special_keys : list (nat * Z) :=
  [(200%nat, 226); (208%nat, 227); (201%nat, 230); (209%nat, 231); (203%nat, 228); (205%nat, 229); (151%nat, 224); (207%nat, 225); (210%nat, 232); (211%nat, 233)].

Definition keypad : list Z := replicate 13 NO ++ chars_of "789-456+1230.".

Definition normalmap : list Z :=
  table ([NO; 27] ++ chars_of "1234567890-=" ++ [8; 9] ++ chars_of "qwertyuiop[]" ++ [10; NO] ++ chars_of "asdfghjkl;'`" ++
         [NO] ++ chars_of "\zxcvbnm,./" ++ [NO] ++ chars_of "*" ++ [NO; 32] ++ keypad)
        ([(156%nat, 10); (181%nat, 47)] ++ special_keys).

Definition shiftmap : list Z :=
  table ([NO; 27] ++ chars_of "!@#$%^&*()_+" ++ [8; 9] ++ chars_of "QWERTYUIOP{}" ++ [10; NO] ++ chars_of "ASDFGHJKL:" ++ [34; 126] ++
         [NO] ++ chars_of "|ZXCVBNM<>?" ++ [NO] ++ chars_of "*" ++ [NO; 32] ++ keypad)
        ([(156%nat, 10); (181%nat, 47)] ++ special_keys).

Definition ctlmap : list Z :=
  table (replicate 16 NO ++ ctls "QWERTYUIOP" ++ [NO; NO; 13; NO] ++ ctls "ASDFGHJKL" ++ replicate 4 NO ++ ctls "\ZXCVBNM" ++
         [NO; NO; C "/"%byte mod 256; NO; NO])
        ([(156%nat, 13); (181%nat, C "/"%byte mod 256)] ++ special_keys).

Definition charcode (i : Z) : list Z := if i =? 0 then normalmap else if i =? 1 then shiftmap else ctlmap.

(** [kbdgetc], with the value of the data port, or [None] when the buffer is
    empty: the character and the new modifiers. *)
Definition kbdgetc (port : option Z) (shift : Z) : Z * Z :=
  match port with
  | None => (-1, shift)
  | Some data =>
      if data =? 224 then (0, Z.lor shift E0ESC)
      else if negb (Z.land data 128 =? 0) then
        let data := if negb (Z.land shift E0ESC =? 0) then data else Z.land data 127 in
        (0, Z.ldiff shift (Z.lor (shiftcode !!! Z.to_nat data) E0ESC))
      else
        let '(data, shift) := if negb (Z.land shift E0ESC =? 0) then (Z.lor data 128, Z.ldiff shift E0ESC) else (data, shift) in
        let shift := Z.lor shift (shiftcode !!! Z.to_nat data) in
        let shift := Z.lxor shift (togglecode !!! Z.to_nat data) in
        let c := charcode (Z.land shift (Z.lor CTL SHIFT)) !!! Z.to_nat data in
        let c :=
          if negb (Z.land shift CAPSLOCK =? 0) then
            if (97 <=? c) && (c <=? 122) then c + (65 - 97)
            else if (65 <=? c) && (c <=? 90) then c + (97 - 65) else c
          else c in
        (c, shift)
  end.

(** ** Every scan code in every state *)

Definition all_below (n : nat) (P : Z → bool) : bool := forallb P (Z.of_nat <$> seq 0 n).

Lemma all_below_spec n P : all_below n P = true → ∀ x, 0 ≤ x < Z.of_nat n → P x = true.
Proof.
  unfold all_below. rewrite forallb_forall. intros H x Hx. apply H. apply list_elem_of_In, list_elem_of_fmap. exists (Z.to_nat x). split; [lia|].
  apply list_elem_of_In, in_seq. lia.
Qed.

(** The modifiers stay in their seven bits, and a key gives a character. *)
Lemma kbdgetc_range shift data :
  0 ≤ shift < 128 → 0 ≤ data < 256 →
  0 ≤ (kbdgetc (Some data) shift).1 < 256 ∧ 0 ≤ (kbdgetc (Some data) shift).2 < 128.
Proof.
  intros Hs Hd.
  assert (H : all_below 128 (λ sh, all_below 256 (λ d, let '(c, sh') := kbdgetc (Some d) sh in (0 <=? c) && (c <? 256) && (0 <=? sh') && (sh' <? 128))) = true) by (vm_compute; reflexivity).
  pose proof (all_below_spec _ _ (all_below_spec _ _ H shift Hs) data Hd) as H'. cbn beta in H'. destruct (kbdgetc (Some data) shift) as [c sh'].
  cbn [fst snd]. lia.
Qed.

(** The key of a letter, without control: capital when one of shift and caps lock is on. *)
Definition upper (c : Z) : Z := c - 32.
Lemma kbdgetc_letter shift data :
  0 ≤ shift < 64 → Z.land shift CTL = 0 → 0 ≤ data < 128 → 97 ≤ normalmap !!! Z.to_nat data ≤ 122 →
  (kbdgetc (Some data) shift).2 = shift ∧
  (kbdgetc (Some data) shift).1 =
    if xorb (negb (Z.land shift SHIFT =? 0)) (negb (Z.land shift CAPSLOCK =? 0)) then upper (normalmap !!! Z.to_nat data) else normalmap !!! Z.to_nat data.
Proof.
  intros Hs Hc Hd Hl.
  assert (H : all_below 64 (λ sh, negb (Z.land sh CTL =? 0) || all_below 128 (λ d, negb ((97 <=? normalmap !!! Z.to_nat d) && (normalmap !!! Z.to_nat d <=? 122)) ||
    let '(c, sh') := kbdgetc (Some d) sh in (sh' =? sh) && (c =? if xorb (negb (Z.land sh SHIFT =? 0)) (negb (Z.land sh CAPSLOCK =? 0)) then upper (normalmap !!! Z.to_nat d) else normalmap !!! Z.to_nat d))) = true) by (vm_compute; reflexivity).
  pose proof (all_below_spec _ _ H shift Hs) as H1. cbn beta in H1. rewrite Hc in H1. cbn [Z.eqb negb orb] in H1.
  pose proof (all_below_spec _ _ H1 data Hd) as H2. cbn beta in H2. rewrite (proj2 (Z.leb_le _ _) (proj1 Hl)), (proj2 (Z.leb_le _ _) (proj2 Hl)) in H2. cbn [andb negb orb] in H2.
  destruct (kbdgetc (Some data) shift) as [c sh']. cbn [fst snd]. apply andb_prop in H2 as [H2 H3]. split; [lia|by apply Z.eqb_eq].
Qed.
