(* ===== verification/Ide.v ===== *)
(** * The IDE driver (src/ide.c)

    The queue of requests is linked through the buffers.  What the driver writes
    to the ports of the controller is a trace; what it reads from the status and
    data ports comes from lists, a status that never becomes ready spins
    ([Blocked]).  [idelock] makes each handler one step. *)

From S2P Require Import Prelude Sleeplock Bio.

Definition SECTOR_SIZE : Z := 512.
Definition IDE_BSY : Z := 128.
Definition IDE_DRDY : Z := 64.
Definition IDE_DF : Z := 32.
Definition IDE_ERR : Z := 1.
Definition IDE_CMD_READ : Z := 32.
Definition IDE_CMD_WRITE : Z := 48.
Definition IDE_CMD_RDMUL : Z := 196.
Definition IDE_CMD_WRMUL : Z := 197.

Inductive event : Type := Outb (port v : Z) | Outsl (port : Z) (data : list byte).

(** A buffer and its [qnext]. *)
Record ibuf : Type := mkIbuf { ib_buf : buf; ib_qnext : option nat }.
#[global] Instance ibuf_inhabited : Inhabited ibuf := populate (mkIbuf zero_buf None).

Record ide : Type := mkIde {
  id_buf : list ibuf;
  idequeue : option nat;       (* the buf now being read or written *)
  havedisk1 : bool;
  id_status : list Z;          (* what the status port will give *)
  id_data : list (list byte);  (* what the data port will give, a block at a time *)
  id_out : list event;         (* what was written to the ports *)
  id_woken : list nat;         (* buffers whose waiters were woken *)
}.

Definition set_ibuf l s := mkIde l (idequeue s) (havedisk1 s) (id_status s) (id_data s) (id_out s) (id_woken s).
Definition set_queue q s := mkIde (id_buf s) q (havedisk1 s) (id_status s) (id_data s) (id_out s) (id_woken s).
Definition set_disk1 b s := mkIde (id_buf s) (idequeue s) b (id_status s) (id_data s) (id_out s) (id_woken s).
Definition set_status l s := mkIde (id_buf s) (idequeue s) (havedisk1 s) l (id_data s) (id_out s) (id_woken s).
Definition upd_ibuf b (f : ibuf → ibuf) : M ide unit := modify (λ s, set_ibuf (alter f b (id_buf s)) s).
Definition on_buf (f : buf → buf) (x : ibuf) : ibuf := mkIbuf (f (ib_buf x)) (ib_qnext x).
Definition set_qnext q (x : ibuf) : ibuf := mkIbuf (ib_buf x) q.

Definition emit (e : event) : M ide unit := modify (λ s, mkIde (id_buf s) (idequeue s) (havedisk1 s) (id_status s) (id_data s) (id_out s ++ [e]) (id_woken s)).
Definition outb (port v : Z) : M ide unit := emit (Outb port v).
Definition wakeup (b : nat) : M ide unit := modify (λ s, mkIde (id_buf s) (idequeue s) (havedisk1 s) (id_status s) (id_data s) (id_out s) (id_woken s ++ [b])).

(** [inb(0x1f7)] *)
Definition inb : M ide Z :=
  s ← getS;
  match id_status s with
  | [] => sleeps
  | r :: l => putS (set_status l s);; mret r
  end.

(** [insl(0x1f0, ..., BSIZE/4)] *)
Definition insl : M ide (list byte) :=
  s ← getS;
  match id_data s with
  | [] => sleeps
  | d :: l => putS (mkIde (id_buf s) (idequeue s) (havedisk1 s) (id_status s) l (id_out s) (id_woken s));; mret d
  end.

(** [while(((r = inb(0x1f7)) & (IDE_BSY|IDE_DRDY)) != IDE_DRDY) ;] *)
Fixpoint poll (l : list Z) : option (Z * list Z) :=
  match l with
  | [] => None
  | r :: l => if Z.land r (Z.lor IDE_BSY IDE_DRDY) =? IDE_DRDY then Some (r, l) else poll l
  end.

(** Wait for IDE disk to become ready. *)
Definition idewait (checkerr : bool) : M ide Z :=
  s ← getS;
  match poll (id_status s) with
  | None => sleeps
  | Some (r, l) =>
      putS (set_status l s);;
      mret (if checkerr && negb (Z.land r (Z.lor IDE_DF IDE_ERR) =? 0) then -1 else 0)
  end.

(** [for(i=0; i<1000; i++) if(inb(0x1f7) != 0){ havedisk1 = 1; break; }] *)
Fixpoint probe (n : nat) : M ide unit :=
  match n with
  | O => mret tt
  | S n => r ← inb; if negb (r =? 0) then modify (set_disk1 true) else probe n
  end.

Definition ideinit : M ide unit :=
  idewait false;;
  outb 502 (Z.lor 224 (Z.shiftl 1 4));;
  probe 1000;;
  outb 502 (Z.lor 224 (Z.shiftl 0 4)).

(** Start the request for b.  Caller must hold idelock. *)
Definition idestart (b : option nat) : M ide unit :=
  match b with
  | None => panic "idestart"
  | Some b =>
      s ← getS;
      let x := ib_buf (id_buf s !!! b) in
      if FSSIZE <=? b_blockno x then panic "incorrect blockno"
      else
        let sector_per_block := Z.of_nat BSIZE / SECTOR_SIZE in
        let sector := b_blockno x * sector_per_block in
        let read_cmd := if sector_per_block =? 1 then IDE_CMD_READ else IDE_CMD_RDMUL in
        let write_cmd := if sector_per_block =? 1 then IDE_CMD_WRITE else IDE_CMD_WRMUL in
        if 7 <? sector_per_block then panic "idestart"
        else
          idewait false;;
          outb 1014 0;;                                  (* generate interrupt *)
          outb 498 sector_per_block;;                    (* number of sectors *)
          outb 499 (Z.land sector 255);;
          outb 500 (Z.land (Z.shiftr sector 8) 255);;
          outb 501 (Z.land (Z.shiftr sector 16) 255);;
          outb 502 (Z.lor (Z.lor 224 (Z.shiftl (Z.land (b_dev x) 1) 4)) (Z.land (Z.shiftr sector 24) 15));;
          if negb (Z.land (b_flags x) B_DIRTY =? 0) then
            outb 503 write_cmd;;
            emit (Outsl 496 (b_data x))
          else outb 503 read_cmd
  end.

(** Interrupt handler. *)
Definition ideintr : M ide unit :=
  s ← getS;
  match idequeue s with
  | None => mret tt
  | Some b =>
      let x := id_buf s !!! b in
      modify (set_queue (ib_qnext x));;
      (if Z.land (b_flags (ib_buf x)) B_DIRTY =? 0 then
         r ← idewait true;
         if 0 <=? r then d ← insl; upd_ibuf b (on_buf (set_data d)) else mret tt
       else mret tt);;
      upd_ibuf b (on_buf (λ y, set_flags (Z.lor (b_flags y) B_VALID) y));;
      upd_ibuf b (on_buf (λ y, set_flags (Z.land (b_flags y) (Z.lnot B_DIRTY)) y));;
      wakeup b;;
      s ← getS;
      match idequeue s with
      | None => mret tt
      | Some b => idestart (Some b)
      end
  end.

(** [for(pp=&idequeue; *pp; pp=&( *pp)->qnext) ; *pp = b]: from the buffer [p] on *)
Fixpoint append (p b : nat) (fuel : nat) : M ide unit :=
  match fuel with
  | O => sleeps
  | S fuel =>
      s ← getS;
      match ib_qnext (id_buf s !!! p) with
      | None => upd_ibuf p (set_qnext (Some b))
      | Some p => append p b fuel
      end
  end.

Definition synced (x : buf) : bool := Z.land (b_flags x) (Z.lor B_VALID B_DIRTY) =? B_VALID.

(** Sync buf with disk: up to the sleep, which is over when the buffer is synced. *)
Definition iderw (pid : Z) (b : nat) : M ide unit :=
  s ← getS;
  let x := ib_buf (id_buf s !!! b) in
  if negb (holdingsleep pid (b_lock x)) then panic "iderw: buf not locked"
  else if synced x then panic "iderw: nothing to do"
  else if negb (b_dev x =? 0) && negb (havedisk1 s) then panic "iderw: ide disk 1 not present"
  else
    upd_ibuf b (set_qnext None);;
    s ← getS;
    (match idequeue s with
     | None => modify (set_queue (Some b))
     | Some p => append p b (S (length (id_buf s)))
     end);;
    s ← getS;
    (if bool_decide (idequeue s = Some b) then idestart (Some b) else mret tt);;
    s ← getS;
    if synced (ib_buf (id_buf s !!! b)) then mret tt else sleeps.

(** ** What the controller makes of the port writes *)

Record command : Type := mkCommand { c_dev : Z; c_lba : Z; c_count : Z; c_write : option (list byte) }.

(** The controller's registers: sector count, three bytes of the address, drive and
    the top of the address; whether a write waits for its data. *)
Record regs : Type := mkRegs { r_count : Z; r_lba0 : Z; r_lba1 : Z; r_lba2 : Z; r_head : Z; r_wait : bool; r_cmds : list command }.

Definition the_command (r : regs) (w : option (list byte)) : command :=
  mkCommand (Z.land (Z.shiftr (r_head r) 4) 1) (r_lba0 r + 256 * (r_lba1 r + 256 * (r_lba2 r + 256 * Z.land (r_head r) 15))) (r_count r) w.

Definition controller (r : regs) (e : event) : regs :=
  match e with
  | Outb 498 v => mkRegs v (r_lba0 r) (r_lba1 r) (r_lba2 r) (r_head r) (r_wait r) (r_cmds r)
  | Outb 499 v => mkRegs (r_count r) v (r_lba1 r) (r_lba2 r) (r_head r) (r_wait r) (r_cmds r)
  | Outb 500 v => mkRegs (r_count r) (r_lba0 r) v (r_lba2 r) (r_head r) (r_wait r) (r_cmds r)
  | Outb 501 v => mkRegs (r_count r) (r_lba0 r) (r_lba1 r) v (r_head r) (r_wait r) (r_cmds r)
  | Outb 502 v => mkRegs (r_count r) (r_lba0 r) (r_lba1 r) (r_lba2 r) v (r_wait r) (r_cmds r)
  | Outb 503 32 => mkRegs (r_count r) (r_lba0 r) (r_lba1 r) (r_lba2 r) (r_head r) false (r_cmds r ++ [the_command r None])
  | Outb 503 48 => mkRegs (r_count r) (r_lba0 r) (r_lba1 r) (r_lba2 r) (r_head r) true (r_cmds r)
  | Outsl 496 d =>
      if r_wait r then mkRegs (r_count r) (r_lba0 r) (r_lba1 r) (r_lba2 r) (r_head r) false (r_cmds r ++ [the_command r (Some d)]) else r
  | _ => r
  end.
Definition commands (ev : list event) : list command := r_cmds (foldl controller (mkRegs 0 0 0 0 0 false []) ev).

(** The command that a request is for. *)
Definition request (x : buf) : command :=
  mkCommand (b_dev x mod 2) (b_blockno x) 1 (if Z.land (b_flags x) B_DIRTY =? 0 then None else Some (b_data x)).

(** ** The queue *)

Fixpoint qchain (l : list ibuf) (h : option nat) (q : list nat) : Prop :=
  match q with
  | [] => h = None
  | b :: q => h = Some b ∧ (b < length l)%nat ∧ qchain l (ib_qnext (l !!! b)) q
  end.

Lemma qchain_ext l l' h q :
  length l' = length l → (∀ b, b ∈ q → ib_qnext (l' !!! b) = ib_qnext (l !!! b)) → qchain l h q → qchain l' h q.
Proof.
  intros Hl. revert h. induction q as [|b q IH]; intros h He; cbn; [done|]. intros (-> & Hb & Hq). split_and!; [done|by rewrite Hl|].
  rewrite He by set_solver. apply IH; [|done]. intros c Hc. apply He. set_solver.
Qed.

Lemma qchain_snoc l h q c b :
  qchain l h (q ++ [c]) → NoDup (q ++ [c]) → (b < length l)%nat → b ∉ q ++ [c] → ib_qnext (l !!! b) = None →
  qchain (alter (set_qnext (Some b)) c l) h ((q ++ [c]) ++ [b]).
Proof.
  revert h. induction q as [|a q IH]; intros h; cbn [app qchain].
  - intros (-> & Hc & _) _ Hb Hnb Hq.
    split_and!; [done|by rewrite length_alter|by rewrite list_lookup_total_alter_eq|by rewrite length_alter|by rewrite list_lookup_total_alter_ne by set_solver].
  - intros (-> & Ha & Hq) Hnd Hb Hnb Hqb. apply NoDup_cons in Hnd as [Hna Hnd]. split_and!; [done|by rewrite length_alter|].
    rewrite list_lookup_total_alter_ne by set_solver. apply IH; [done|done|done|set_solver|done].
Qed.

(** [append] links [b] behind the last request. *)
Lemma append_ok p q b fuel s :
  qchain (id_buf s) (Some p) (p :: q) → (length q < fuel)%nat →
  ∃ c q', p :: q = q' ++ [c] ∧ append p b fuel s = Ok tt (set_ibuf (alter (set_qnext (Some b)) c (id_buf s)) s).
Proof.
  revert p q. induction fuel as [|fuel IH]; intros p q Hq Hf; [lia|]. destruct Hq as (_ & Hp & Hq).
  cbn [append]. unfold getS, mbind, M_bind. destruct q as [|a q].
  - cbn in Hq. rewrite Hq. by exists p, [].
  - destruct Hq as (E & Ha & Hq). rewrite E. destruct (IH a q) as (c & q' & Eq & Hr); [done|cbn in Hf; lia|]. exists c, (p :: q'). split; [|done].
    by rewrite Eq.
Qed.

(** ** Commands *)

Lemma commands_app ev ev' r :
  foldl controller (mkRegs 0 0 0 0 0 false []) ev = r → commands (ev ++ ev') = r_cmds (foldl controller r ev').
Proof. intros <-. unfold commands. by rewrite foldl_app. Qed.

Lemma small_lba sec : 0 ≤ sec < 2 ^ 16 → Z.land sec 255 + 256 * (Z.land (Z.shiftr sec 8) 255) = sec ∧ Z.shiftr sec 16 = 0 ∧ Z.shiftr sec 24 = 0.
Proof.
  intros H. change 255 with (Z.ones 8). rewrite !Z.land_ones, !Z.shiftr_div_pow2 by lia. split_and!.
  - rewrite (Z.mod_small (sec / 2 ^ 8)) by (split; [apply Z.div_pos; lia|apply Z.div_lt_upper_bound; lia]). pose proof (Z_div_mod_eq_full sec (2 ^ 8)). lia.
  - apply Z.div_small. lia.
  - apply Z.div_small. lia.
Qed.

(** The port writes of [idestart]. *)
Definition start_events (x : buf) : list event :=
  let sector := b_blockno x in
  [Outb 1014 0; Outb 498 1; Outb 499 (Z.land sector 255); Outb 500 (Z.land (Z.shiftr sector 8) 255); Outb 501 (Z.land (Z.shiftr sector 16) 255);
   Outb 502 (Z.lor (Z.lor 224 (Z.shiftl (Z.land (b_dev x) 1) 4)) (Z.land (Z.shiftr sector 24) 15))] ++
  (if Z.land (b_flags x) B_DIRTY =? 0 then [Outb 503 IDE_CMD_READ] else [Outb 503 IDE_CMD_WRITE; Outsl 496 (b_data x)]).

(** The controller takes them for the request. *)
Lemma start_commands ev x : 0 ≤ b_blockno x < FSSIZE → commands (ev ++ start_events x) = commands ev ++ [request x].
Proof.
  intros Hb. destruct (small_lba (b_blockno x)) as (E0 & E16 & E24); [unfold FSSIZE in Hb; lia|].
  erewrite commands_app by reflexivity. unfold commands, start_events. set (r := foldl _ _ ev). rewrite E16, E24. clearbody r.
  assert (Hd : Z.land (b_dev x) 1 = b_dev x mod 2) by (change 1 with (Z.ones 1); by rewrite Z.land_ones by lia). rewrite Hd.
  pose proof (Z.mod_pos_bound (b_dev x) 2 ltac:(lia)) as Hm. unfold request. generalize dependent (b_dev x mod 2). intros dv _ Hm.
  assert (dv = 0 ∨ dv = 1) as Hdv by lia.
  assert (E : Z.land (b_blockno x) 255 + 256 * (Z.land (Z.shiftr (b_blockno x) 8) 255 + 256 * 0) = b_blockno x) by lia. rewrite foldl_app. unfold IDE_CMD_READ, IDE_CMD_WRITE.
  destruct (Z.land (b_flags x) B_DIRTY =? 0); cbn [foldl controller r_count r_lba0 r_lba1 r_lba2 r_head r_wait r_cmds]; unfold the_command;
    cbn [r_count r_lba0 r_lba1 r_lba2 r_head]; do 3 f_equal; destruct Hdv as [-> | ->]; first [reflexivity|exact E].
Qed.

(** ** The handlers *)

Definition add_out (ev : list event) s : ide :=
  mkIde (id_buf s) (idequeue s) (havedisk1 s) (id_status s) (id_data s) (id_out s ++ ev) (id_woken s).

Lemma add_out_app ev ev' s : add_out ev' (add_out ev s) = add_out (ev ++ ev') s.
Proof. unfold add_out. cbn. by rewrite app_assoc. Qed.

Lemma emit_bind {A} e (k : unit → M ide A) s : (emit e ≫= k) s = k tt (add_out [e] s).
Proof. done. Qed.

Lemma idestart_ok b s :
  let x := ib_buf (id_buf s !!! b) in 0 ≤ b_blockno x < FSSIZE →
  idestart (Some b) s = match poll (id_status s) with Some (_, l) => Ok tt (add_out (start_events x) (set_status l s)) | None => Blocked s end.
Proof.
  intros x Hx. unfold idestart, outb. rewrite (bind_Ok getS _ s s s eq_refl). cbv beta. fold x. rewrite (proj2 (Z.leb_gt _ _)) by lia.
  change (Z.of_nat BSIZE / SECTOR_SIZE) with 1. cbv zeta. change (7 <? 1) with false. cbv iota. rewrite Z.mul_1_r.
  destruct (poll (id_status s)) as [[r l]|] eqn:E.
  - rewrite (bind_Ok (idewait false) _ s 0 (set_status l s)) by (unfold idewait, getS, mbind, M_bind; by rewrite E).
    rewrite !emit_bind, !add_out_app. unfold start_events. cbv zeta. change (1 =? 1) with true. cbv iota.
    destruct (Z.land (b_flags x) B_DIRTY =? 0); cbn [negb]; [|rewrite emit_bind, add_out_app]; apply (f_equal (Ok tt)); (etrans; [apply add_out_app|reflexivity]).
  - unfold idewait, getS, mbind, M_bind. by rewrite E.
Qed.

Lemma synced_flags f : Z.land (Z.land (Z.lor f B_VALID) (Z.lnot B_DIRTY)) (Z.lor B_VALID B_DIRTY) = B_VALID.
Proof.
  rewrite <-Z.land_assoc. change (Z.land (Z.lnot B_DIRTY) (Z.lor B_VALID B_DIRTY)) with B_VALID.
  apply Z.bits_inj'. intros i Hi. rewrite Z.land_spec, Z.lor_spec. by destruct (Z.testbit f i), (Z.testbit B_VALID i).
Qed.

Definition finish : ibuf → ibuf := on_buf (λ y, set_flags (Z.land (Z.lor (b_flags y) B_VALID) (Z.lnot B_DIRTY)) y).

Lemma finish_synced x : synced (ib_buf (finish x)) = true.
Proof. unfold synced, finish. cbn. by rewrite synced_flags. Qed.

(** The part of [ideintr] before the buffer is marked: read the data, if it was a read. *)
Definition intr_read (b : nat) (dirty : bool) : M ide unit :=
  if dirty then mret tt
  else r ← idewait true; if 0 <=? r then d ← insl; upd_ibuf b (on_buf (set_data d)) else mret tt.

(** What the data port has for the request: nothing for a write, else the next block,
    unless the status reports an error. *)
Definition disk_error (r : Z) : bool := negb (Z.land r (Z.lor IDE_DF IDE_ERR) =? 0).
Definition fetched (dirty : bool) (old d : list byte) (s s' : ide) : Prop :=
  if dirty then d = old ∧ id_data s' = id_data s
  else ∃ r l, poll (id_status s) = Some (r, l) ∧
    if disk_error r then d = old ∧ id_data s' = id_data s else id_data s = d :: id_data s'.

(** The controller becomes ready, twice, and has a block to give. *)
Definition ready (s : ide) : Prop := id_data s ≠ [] ∧ ∃ r l, poll (id_status s) = Some (r, l) ∧ is_Some (poll l).

Lemma set_data_same x : on_buf (set_data (b_data (ib_buf x))) x = x.
Proof. by destruct x as [[] ?]. Qed.

Lemma alter_data_same b s : (b < length (id_buf s))%nat → alter (on_buf (set_data (b_data (ib_buf (id_buf s !!! b))))) b (id_buf s) = id_buf s.
Proof. intros Hb. rewrite alter_insert, set_data_same. apply list_insert_id. by apply list_lookup_lookup_total_lt. Qed.

Lemma intr_read_ok b dirty s :
  (b < length (id_buf s))%nat →
  (∃ s1, intr_read b dirty s = Blocked s1) ∧ ¬ ready s ∨
  ∃ d s1, intr_read b dirty s = Ok tt s1 ∧ fetched dirty (b_data (ib_buf (id_buf s !!! b))) d s s1 ∧
    (ready s → is_Some (poll (id_status s1))) ∧ id_buf s1 = alter (on_buf (set_data d)) b (id_buf s) ∧ idequeue s1 = idequeue s ∧ id_out s1 = id_out s ∧ id_woken s1 = id_woken s.
Proof.
  intros Hb. pose proof (alter_data_same b s Hb) as Hid. set (old := b_data _) in *.
  unfold intr_read, fetched. destruct dirty; [right; exists old, s; rewrite Hid; split_and!; try done; intros (_ & r & l & -> & _); by eexists|].
  unfold idewait, getS, mbind, M_bind. destruct (poll (id_status s)) as [[r l]|] eqn:Ep.
  2: { left. split; [by eexists|]. intros (_ & r & l & E & _). by rewrite Ep in E. }
  cbn [andb putS]. fold (disk_error r). destruct (disk_error r) eqn:Er.
  - right. exists old, (set_status l s). cbn. rewrite Hid. split_and!; try done; [exists r, l; by rewrite Er|]. intros (_ & r' & l' & E & Hl). rewrite Ep in E. by injection E as <- <-.
  - unfold mret, M_ret. cbn [Z.leb Z.compare]. unfold insl, getS, mbind, M_bind. cbn [id_data set_status].
    destruct (id_data s) as [|d l'] eqn:Ed; [left; split; [by eexists|]; intros [H _]; by rewrite Ed in H|].
    right. exists d. eexists. split_and!; try done; [exists r, l; by rewrite Er|]. intros (_ & r' & l2 & E & Hl). rewrite Ep in E. by injection E as <- <-.
Qed.

(** The interrupt completes the request at the head of the queue. *)
Lemma ideintr_ok b s :
  (b < length (id_buf s))%nat → idequeue s = Some b →
  let x := ib_buf (id_buf s !!! b) in
  (∃ s1, ideintr s = Blocked s1) ∧ ¬ ready s ∨
  ∃ d s2, fetched (negb (Z.land (b_flags x) B_DIRTY =? 0)) (b_data x) d s s2 ∧
    (ready s → is_Some (poll (id_status s2))) ∧ id_buf s2 = alter (finish ∘ on_buf (set_data d)) b (id_buf s) ∧
    idequeue s2 = ib_qnext (id_buf s !!! b) ∧ id_out s2 = id_out s ∧ id_woken s2 = id_woken s ++ [b] ∧
    ideintr s = match idequeue s2 with None => Ok tt s2 | Some b => idestart (Some b) s2 end.
Proof.
  intros Hb Hq x. set (dirty := negb (Z.land (b_flags x) B_DIRTY =? 0)). set (s0 := set_queue (ib_qnext (id_buf s !!! b)) s).
  assert (E : ideintr s = (intr_read b dirty;;
    upd_ibuf b (on_buf (λ y, set_flags (Z.lor (b_flags y) B_VALID) y));;
    upd_ibuf b (on_buf (λ y, set_flags (Z.land (b_flags y) (Z.lnot B_DIRTY)) y));;
    wakeup b;; s ← getS; match idequeue s with None => mret tt | Some b => idestart (Some b) end) s0).
  { unfold ideintr, dirty, x. rewrite (bind_Ok getS _ s s s eq_refl), Hq. cbv beta zeta.
    rewrite (bind_Ok (modify (set_queue (ib_qnext (id_buf s !!! b)))) _ s tt s0 eq_refl). unfold intr_read. by destruct (Z.land _ B_DIRTY =? 0). }
  rewrite E. destruct (intr_read_ok b dirty s0 Hb) as [[[s1 H1] Hr]|(d & s1 & H1 & Hf & Hp & Eb & Eq & Eo & Ew)].
  - left. split; [|exact Hr]. exists s1. unfold mbind, M_bind. by rewrite H1.
  - right. rewrite (bind_Ok _ _ _ _ _ H1). exists d. eexists. split_and!.
    7: { unfold upd_ibuf, wakeup, modify, getS, mbind, M_bind. cbn [idequeue set_ibuf].
         match goal with |- context [match idequeue s1 with _ => _ end ?t] => instantiate (1 := t) end. cbn [idequeue]. by destruct (idequeue s1). }
    1: exact Hf.
    1: exact Hp.
    all: cbn; rewrite ?Eb, ?Ew; try done. by rewrite !list_alter_alter_eq.
Qed.

(** The request for [b] is complete: the buffer is in step with the disk, has for a read
    the block that the data port gave and for a write the data it had, and its process
    was woken; the other buffers are as before. *)
Record completes (b : nat) (s s' : ide) : Prop := {
  co_synced : synced (ib_buf (id_buf s' !!! b)) = true;
  co_data : fetched (negb (Z.land (b_flags (ib_buf (id_buf s !!! b))) B_DIRTY =? 0)) (b_data (ib_buf (id_buf s !!! b)))
    (b_data (ib_buf (id_buf s' !!! b))) s s';
  co_same : let y := ib_buf (id_buf s' !!! b) in y = set_flags (b_flags y) (set_data (b_data y) (ib_buf (id_buf s !!! b)));
  co_woken : id_woken s' = id_woken s ++ [b];
  co_other : ∀ c, c ≠ b → ib_buf (id_buf s' !!! c) = ib_buf (id_buf s !!! c);
}.

(** ** Requests and interrupts

    [hist] lists the requests so far with what each asks for, [k] of them are
    complete: the queue is the rest. *)

Record ide_inv (hist : list (nat * command)) (k : nat) (s : ide) : Prop := mkIdeInv {
  ii_k : (k ≤ length hist)%nat;
  ii_chain : qchain (id_buf s) (idequeue s) (drop k hist).*1;
  ii_nodup : NoDup (drop k hist).*1;
  ii_req b c : (b, c) ∈ drop k hist →
    let x := ib_buf (id_buf s !!! b) in c = request x ∧ synced x = false ∧ 0 ≤ b_blockno x < FSSIZE;
  ii_cmds : commands (id_out s) = (take (S k) hist).*2;
}.

(** What a caller of [iderw] has to ensure. *)
Record may_request (pid : Z) (b : nat) (q : list nat) (s : ide) : Prop := mkMayRequest {
  mr_lt : (b < length (id_buf s))%nat;
  mr_lock : holdingsleep pid (b_lock (ib_buf (id_buf s !!! b))) = true;
  mr_need : synced (ib_buf (id_buf s !!! b)) = false;
  mr_dev : b_dev (ib_buf (id_buf s !!! b)) = 0 ∨ havedisk1 s = true;
  mr_block : 0 ≤ b_blockno (ib_buf (id_buf s !!! b)) < FSSIZE;
  mr_new : b ∉ q;
}.

(** The tests of [iderw] pass, and the buffer is at the end of the queue. *)
Lemma iderw_queue pid b q s :
  qchain (id_buf s) (idequeue s) q → NoDup q → (length q ≤ length (id_buf s))%nat → may_request pid b q s →
  ∃ l', length l' = length (id_buf s) ∧ (∀ c, ib_buf (l' !!! c) = ib_buf (id_buf s !!! c)) ∧
    qchain l' (match q with [] => Some b | _ => idequeue s end) (q ++ [b]) ∧
    let s1 := set_ibuf l' (set_queue (match q with [] => Some b | _ => idequeue s end) s) in
    iderw pid b s = ((if bool_decide (idequeue s1 = Some b) then idestart (Some b) else mret tt);;
      s ← getS; if synced (ib_buf (id_buf s !!! b)) then mret tt else sleeps) s1.
Proof.
  intros Hq Hnd Hlen [Hb Hlk Hs Hd Hbl Hnew]. unfold iderw. rewrite (bind_Ok getS _ s s s eq_refl). cbv beta zeta. rewrite Hlk, Hs. cbn [negb].
  assert (Hdv : negb (b_dev (ib_buf (id_buf s !!! b)) =? 0) && negb (havedisk1 s) = false).
  { destruct Hd as [->| ->]; [done|by rewrite andb_false_r]. }
  rewrite Hdv. set (l1 := alter (set_qnext None) b (id_buf s)).
  assert (Hq1 : qchain l1 (idequeue s) q).
  { apply (qchain_ext (id_buf s)); [apply length_alter| |done]. intros c Hc. unfold l1. rewrite list_lookup_total_alter_ne; [done|]. intros <-. done. }
  assert (Hbuf : ∀ c, ib_buf (l1 !!! c) = ib_buf (id_buf s !!! c)) by (intros; by apply (alter_field ib_buf)).
  assert (Hqb : ib_qnext (l1 !!! b) = None) by (unfold l1; by rewrite list_lookup_total_alter_eq).
  assert (Hl1 : length l1 = length (id_buf s)) by apply length_alter.
  rewrite (bind_Ok (upd_ibuf b (set_qnext None)) _ s tt (set_ibuf l1 s) eq_refl). rewrite (bind_Ok getS _ _ _ _ eq_refl). cbv beta.
  destruct q as [|p q].
  - cbn in Hq. exists l1. split_and!; [done|done|split_and!; [done|by rewrite Hl1|by rewrite Hqb]|]. cbn [idequeue set_ibuf]. by rewrite Hq.
  - destruct Hq1 as (Hp & Hq1). destruct (append_ok p q b (S (length l1)) (set_ibuf l1 s)) as (c & q' & Eq & Ha).
    { cbn [id_buf set_ibuf]. split; [done|]. exact Hq1. }
    { cbn in Hlen. lia. }
    cbn [id_buf set_ibuf] in Ha. exists (alter (set_qnext (Some b)) c l1). split_and!.
    + by rewrite length_alter.
    + intros c'. rewrite (alter_field ib_buf) by done. apply Hbuf.
    + rewrite Eq. apply qchain_snoc; [rewrite <-Eq; by split|by rewrite <-Eq|by rewrite Hl1|by rewrite <-Eq|done].
    + cbn [idequeue set_ibuf]. rewrite Hp. cbn [id_buf set_ibuf]. rewrite (bind_Ok _ _ _ _ _ Ha). by rewrite <-Hp.
Qed.

Lemma qchain_lt l h q b : qchain l h q → b ∈ q → (b < length l)%nat.
Proof. revert h. induction q as [|c q IH]; intros h; cbn; [by intros _ ?%elem_of_nil|]. intros (_ & Hc & Hq) [->|Hb]%elem_of_cons; [done|by eapply IH]. Qed.

Lemma qchain_length l h q : qchain l h q → NoDup q → (length q ≤ length l)%nat.
Proof.
  intros Hq Hnd. rewrite <-(length_seq (length l) 0). apply submseteq_length, NoDup_submseteq; [done|].
  intros b Hb. apply elem_of_seq. pose proof (qchain_lt _ _ _ _ Hq Hb). lia.
Qed.

Lemma ide_inv_length hist k s : ide_inv hist k s → (length (drop k hist).*1 ≤ length (id_buf s))%nat.
Proof. intros [_ Hc Hnd _ _]. by eapply qchain_length. Qed.

(** The new request is last, and is started when it is the only one. *)
Lemma iderw_inv hist k s pid b :
  ide_inv hist k s → may_request pid b (drop k hist).*1 s → is_Some (poll (id_status s)) →
  ∃ s', iderw pid b s = Blocked s' ∧ ide_inv (hist ++ [(b, request (ib_buf (id_buf s !!! b)))]) k s'.
Proof.
  intros Hinv Hreq [[r lst] Hpoll]. pose proof (ide_inv_length _ _ _ Hinv) as Hlen. destruct Hinv as [Hk Hc Hnd Hr Hcm].
  destruct (iderw_queue pid b _ s Hc Hnd Hlen Hreq) as (l' & Hl' & Hbuf & Hq' & ->).
  destruct Hreq as [Hb Hlk Hs Hd Hbl Hnew]. set (x := ib_buf (id_buf s !!! b)) in *.
  set (q := (drop k hist).*1) in *. set (s1 := set_ibuf l' _).
  assert (Hnewinv : ∀ s2, id_buf s2 = l' → idequeue s2 = idequeue s1 → commands (id_out s2) = (take (S k) (hist ++ [(b, request x)])).*2 →
    ide_inv (hist ++ [(b, request x)]) k s2).
  { intros s2 E1 E2 E3. split; [rewrite length_app; lia|..].
    - rewrite drop_app_le by done. rewrite fmap_app, E1, E2. exact Hq'.
    - rewrite drop_app_le by done. rewrite fmap_app. apply NoDup_app. split_and!; [done|set_solver|apply NoDup_singleton].
    - rewrite drop_app_le by done. rewrite E1. intros c cm [Hin|Hin]%elem_of_app; rewrite Hbuf; [by apply Hr|].
      apply list_elem_of_singleton in Hin. by simplify_eq.
    - done. }
  destruct (drop k hist) as [|[p cp] h'] eqn:Eh; cbn [q fmap list_fmap] in *.
  - rewrite bool_decide_eq_true_2 by done. apply (f_equal length) in Eh. rewrite length_drop in Eh. cbn in Eh.
    rewrite (bind_Ok (idestart (Some b)) _ s1 tt (add_out (start_events x) (set_status lst s1))).
    + rewrite (bind_Ok getS _ _ _ _ eq_refl). cbv beta. cbn [id_buf add_out set_status s1 set_ibuf]. rewrite Hbuf. fold x. rewrite Hs. eexists. split; [done|].
      apply Hnewinv; [done|done|]. cbn [id_out add_out set_status s1 set_ibuf set_queue]. rewrite start_commands by done. rewrite Hcm.
      rewrite !take_ge by (rewrite ?length_app; cbn; lia). by rewrite fmap_app.
    + rewrite idestart_ok; cbn [id_buf id_status s1 set_ibuf set_queue]; rewrite Hbuf; fold x; [|done]. by rewrite Hpoll.
  - rewrite bool_decide_eq_false_2.
    + rewrite (bind_Ok (mret tt) _ s1 tt s1 eq_refl), (bind_Ok getS _ _ _ _ eq_refl). cbv beta. cbn [id_buf s1 set_ibuf]. rewrite Hbuf. fold x. rewrite Hs.
      eexists. split; [done|]. apply Hnewinv; [done|done|]. cbn [id_out s1 set_ibuf set_queue]. rewrite Hcm.
      apply (f_equal length) in Eh. rewrite length_drop in Eh. cbn in Eh. by rewrite take_app_le by lia.
    + cbn [idequeue s1 set_ibuf set_queue]. destruct Hc as (-> & _). intros [= ->]. apply Hnew. by left.
Qed.

Lemma iderw_no_panic hist k s pid b msg :
  ide_inv hist k s → may_request pid b (drop k hist).*1 s → iderw pid b s ≠ Panic msg.
Proof.
  intros Hinv Hreq. destruct (poll (id_status s)) as [rl|] eqn:E.
  - destruct (iderw_inv hist k s pid b Hinv Hreq) as (s' & -> & _); [by eexists|done].
  - pose proof (ide_inv_length _ _ _ Hinv) as Hlen. destruct Hinv as [Hk Hc Hnd Hr Hcm].
    destruct (iderw_queue pid b _ s Hc Hnd Hlen Hreq) as (l' & Hl' & Hbuf & Hq' & ->). set (s1 := set_ibuf l' _).
    destruct (bool_decide _).
    + unfold mbind, M_bind. rewrite idestart_ok; cbn [id_status id_buf s1 set_ibuf set_queue]; [by rewrite E|]. rewrite Hbuf. apply Hreq.
    + rewrite (bind_Ok (mret tt) _ s1 tt s1 eq_refl), (bind_Ok getS _ _ _ _ eq_refl). cbv beta. by destruct (synced _).
Qed.

(** An interrupt: the head is complete, and the next request is started. *)
Lemma ideintr_inv hist k s b :
  ide_inv hist k s → idequeue s = Some b →
  (∃ s', ideintr s = Blocked s') ∧ ¬ ready s ∨
  ∃ s', ideintr s = Ok tt s' ∧ ide_inv hist (S k) s' ∧ completes b s s'.
Proof.
  intros [Hk Hc Hnd Hr Hcm] Hq. rewrite Hq in Hc. destruct (drop k hist) as [|[b0 c0] h'] eqn:Eh; [done|]. cbn [fmap list_fmap fst] in *.
  destruct Hc as ([= <-] & Hb & Hc). apply NoDup_cons in Hnd as [Hnb Hnd].
  assert (Eh' : drop (S k) hist = h') by (change h' with (drop 1 ((b, c0) :: h')); rewrite <-Eh, drop_drop; f_equal; lia).
  assert (Hlen : length hist = (k + S (length h'))%nat) by (apply (f_equal length) in Eh; rewrite length_drop in Eh; cbn in Eh; lia).
  destruct (ideintr_ok b s Hb Hq) as [?|(d & s2 & Hf & Hp & Eb & Eq & Eo & Ew & ->)]; [by left|].
  assert (Hother : ∀ c, c ≠ b → id_buf s2 !!! c = id_buf s !!! c) by (intros c Hcb; rewrite Eb; by apply list_lookup_total_alter_ne).
  assert (Hreq : ∀ c cm, (c, cm) ∈ h' → let x := ib_buf (id_buf s2 !!! c) in cm = request x ∧ synced x = false ∧ 0 ≤ b_blockno x < FSSIZE).
  { intros c cm Hin. rewrite Hother; [apply Hr; by right|]. intros ->. apply Hnb. by apply (list_elem_of_fmap_2 fst) in Hin. }
  assert (Hinv : ∀ s', id_buf s' = id_buf s2 → idequeue s' = idequeue s2 → commands (id_out s') = (take (S (S k)) hist).*2 → ide_inv hist (S k) s').
  { intros s' E1 E2 E3. split; rewrite ?Eh', ?E1, ?E2; [lia| |done|done|done]. rewrite Eq. apply (qchain_ext (id_buf s)); [by rewrite Eb, length_alter| |done].
    intros c Hin. rewrite Hother; [done|]. by intros ->. }
  assert (Hco : ∀ s', id_buf s' = id_buf s2 → id_data s' = id_data s2 → id_woken s' = id_woken s2 → completes b s s').
  { intros s' E1 E2 E3. assert (Hbb : id_buf s' !!! b = finish (on_buf (set_data d) (id_buf s !!! b))) by (by rewrite E1, Eb, list_lookup_total_alter_eq).
    split; rewrite ?Hbb, ?E3; [apply finish_synced| |by destruct (id_buf s !!! b) as [[] ?]|done|intros c Hcb; by rewrite E1, Hother].
    cbn [finish on_buf ib_buf b_data set_flags set_data]. unfold fetched in *. by rewrite E2. }
  destruct h' as [|[b' c'] h'']; cbn [fmap list_fmap qchain fst] in Hc.
  - rewrite Eq, Hc. right. exists s2. split_and!; [done| |by apply Hco]. apply Hinv; [done|done|]. rewrite Eo, Hcm. rewrite !take_ge by (cbn in Hlen; lia). done.
  - destruct Hc as (Hc & _). rewrite Eq, Hc. destruct (Hreq b' c') as (Ec & _ & Hbl); [by left|].
    rewrite idestart_ok by done. destruct (poll (id_status s2)) as [[r l]|]; [|left; split; [by eexists|]; intros [? ?]%Hp; done].
    right. eexists. split_and!; [done| |by apply Hco].
    apply Hinv; [done|done|]. cbn [id_out add_out set_status]. rewrite start_commands, Eo, Hcm by done.
    rewrite (take_S_r _ (S k) (b', c')); [by rewrite fmap_app, <-Ec|]. rewrite <-(Nat.add_0_r (S k)), <-lookup_drop. by rewrite Eh'.
Qed.

(** ** Every sequence of requests and interrupts *)

Lemma rtc_preserves {A} (R : A → A → Prop) (P : A → Prop) : (∀ x y, R x y → P x → P y) → ∀ x y, rtc R x y → P x → P y.
Proof. intros HR x y. induction 1; eauto. Qed.

Inductive ide_step : list (nat * command) * nat * ide → list (nat * command) * nat * ide → Prop :=
  | step_request hist k s s' pid b :
      may_request pid b (drop k hist).*1 s → is_Some (poll (id_status s)) → iderw pid b s = Blocked s' →
      ide_step (hist, k, s) (hist ++ [(b, request (ib_buf (id_buf s !!! b)))], k, s')
  | step_interrupt hist k s s' : idequeue s ≠ None → ideintr s = Ok tt s' → ide_step (hist, k, s) (hist, S k, s')
  | step_spurious hist k s s' : idequeue s = None → ideintr s = Ok tt s' → ide_step (hist, k, s) (hist, k, s')
  | step_device hist k s st d : ide_step (hist, k, s) (hist, k, mkIde (id_buf s) (idequeue s) (havedisk1 s) st d (id_out s) (id_woken s))
  | step_use hist k s b f : b ∉ (drop k hist).*1 → ide_step (hist, k, s) (hist, k, set_ibuf (alter (on_buf f) b (id_buf s)) s).

Definition conf_ok (c : list (nat * command) * nat * ide) : Prop := let '(hist, k, s) := c in ide_inv hist k s.

Lemma ide_step_inv c c' : ide_step c c' → conf_ok c → conf_ok c'.
Proof.
  intros Hstep Hinv. destruct Hstep as [hist k s s' pid b Hreq Hp Hrun|hist k s s' Hq Hrun|hist k s s' Hq Hrun|hist k s st d|hist k s b f Hb]; cbn in *.
  - destruct (iderw_inv hist k s pid b Hinv Hreq Hp) as (s1 & E & Hinv'). rewrite E in Hrun. by simplify_eq.
  - destruct (idequeue s) as [b|] eqn:E; [|done]. destruct (ideintr_inv hist k s b Hinv E) as [[[s1 E1] _]|(s1 & E1 & Hinv' & _)]; rewrite E1 in Hrun; by simplify_eq.
  - unfold ideintr in Hrun. rewrite (bind_Ok getS _ s s s eq_refl), Hq in Hrun. unfold mret, M_ret in Hrun. by simplify_eq.
  - by destruct Hinv.
  - destruct Hinv as [Hk Hc Hnd Hr Hcm]. split; cbn; [done| |done| |done].
    + apply (qchain_ext (id_buf s)); [apply length_alter| |done]. intros c _. by apply (alter_field ib_qnext).
    + intros c cm Hin. rewrite list_lookup_total_alter_ne; [by apply Hr|]. intros ->. apply Hb. by apply (list_elem_of_fmap_2 fst) in Hin.
Qed.

(** C17. Over every sequence of requests, interrupts and uses of other buffers, the disk queue holds
    the requests that are not complete, in order of arrival; the commands the controller
    received are the requests so far up to the one at the head, each once and in order, with its
    drive, block, direction and data; a proper request never panics. Unless the controller stays
    busy or has no data, an interrupt completes the request at the head and wakes its process:
    the buffer is in step with the disk and, for a read without error, holds the block that the
    data port gave, for a write the data it had, and the other buffers are as they were. *)
Theorem ide_in_order s0 hist k s :
  idequeue s0 = None → commands (id_out s0) = [] → rtc ide_step ([], 0%nat, s0) (hist, k, s) →
  let q := (drop k hist).*1 in
  qchain (id_buf s) (idequeue s) q ∧ commands (id_out s) = (take (S k) hist).*2 ∧
  (∀ b, b ∈ q → synced (ib_buf (id_buf s !!! b)) = false) ∧
  (∀ pid b msg, may_request pid b q s → iderw pid b s ≠ Panic msg) ∧
  (∀ b, idequeue s = Some b →
     (∃ s', ideintr s = Blocked s') ∧ ¬ ready s ∨ ∃ s', ideintr s = Ok tt s' ∧ completes b s s').
Proof.
  intros Hq Hc Hrtc. assert (Hinv : ide_inv hist k s).
  { change (conf_ok (hist, k, s)). apply (rtc_preserves ide_step conf_ok ide_step_inv _ _ Hrtc). split; [done|done|apply NoDup_nil_2|by intros ? ? ?%elem_of_nil|done]. }
  cbv zeta. split_and!; [apply Hinv|apply Hinv| | |].
  - intros b ([b' c] & -> & Hin)%list_elem_of_fmap. by destruct (ii_req _ _ _ Hinv b' c Hin) as (_ & ? & _).
  - intros pid b msg. by apply iderw_no_panic.
  - intros b Hb. destruct (ideintr_inv hist k s b Hinv Hb) as [?|(s' & ? & _ & ?)]; eauto.
Qed.

(** ** An example: a read and a write of two processes *)

Definition ix_read : buf := mkBuf 0 0 7 (mkSleeplock 1 5) 1 0 0 (replicate BSIZE Byte.x00).
Definition ix_write : buf := mkBuf B_DIRTY 0 9 (mkSleeplock 1 6) 1 0 0 (replicate BSIZE Byte.x61).
Definition ix0 : ide := mkIde [mkIbuf ix_read None; mkIbuf ix_write None] None false (replicate 8 IDE_DRDY) [replicate BSIZE Byte.x62] [] [].
Definition after {A} (r : res ide A) : ide := match r with Ok _ s | Blocked s => s | Panic _ => ix0 end.
Definition ix1 : ide := after (iderw 5 0 ix0).
Definition ix2 : ide := after (iderw 6 1 ix1).

Definition ix_hist : list (nat * command) :=
  ([] ++ [(0%nat, request (ib_buf (id_buf ix0 !!! 0%nat)))]) ++ [(1%nat, request (ib_buf (id_buf ix1 !!! 1%nat)))].

Lemma ix_request1 : may_request 5 0 [] ix0.
Proof. split; [vm_compute; lia|vm_compute; reflexivity..|left; vm_compute; reflexivity|vm_compute; split; congruence|apply not_elem_of_nil]. Qed.

Lemma ix_request2 : may_request 6 1 [0%nat] ix1.
Proof. split; [vm_compute; lia|vm_compute; reflexivity..|left; vm_compute; reflexivity|vm_compute; split; congruence|set_solver]. Qed.

(** The interrupt put the block from the data port into the buffer of the read. *)
Lemma ix_ready : ready ix2.
Proof.
  split; [vm_compute; discriminate|]. exists IDE_DRDY, (replicate 6 IDE_DRDY). split; [vm_compute; reflexivity|]. vm_compute. by eexists.
Qed.

Lemma ix_run2 : rtc ide_step ([], 0%nat, ix0) (ix_hist, 0%nat, ix2).
Proof.
  eapply rtc_l; [apply (step_request [] 0 ix0 ix1 5 0 ix_request1); [vm_compute; by eexists|vm_compute; reflexivity]|].
  apply rtc_once, (step_request [(0%nat, request (ib_buf (id_buf ix0 !!! 0%nat)))] 0 ix1 ix2 6 1 ix_request2); [vm_compute; by eexists|vm_compute; reflexivity].
Qed.

Lemma ide_in_order_witness :
  qchain (id_buf ix2) (idequeue ix2) [0%nat; 1%nat] ∧ commands (id_out ix2) = [mkCommand 0 7 1 None] ∧
  ∃ s, ideintr ix2 = Ok tt s ∧ b_data (ib_buf (id_buf s !!! 0%nat)) = replicate BSIZE Byte.x62.
Proof.
  destruct (ide_in_order ix0 ix_hist 0 ix2 eq_refl eq_refl ix_run2) as (Hq & Hc & _ & _ & Hi). split; [exact Hq|].
  split; [rewrite Hc; vm_compute; reflexivity|].
  destruct (Hi 0%nat) as [[_ Hn]|(s & E & Hco)]; [vm_compute; reflexivity|destruct (Hn ix_ready)|].
  exists s. split; [exact E|]. destruct (co_data _ _ _ Hco) as (r & l & Hp & Hd).
  assert (r = IDE_DRDY) as -> by (vm_compute in Hp; injection Hp as <- _; reflexivity). change (disk_error IDE_DRDY) with false in Hd. cbv iota in Hd.
  assert (id_data ix2 = [replicate BSIZE Byte.x62]) as E2 by (vm_compute; reflexivity). rewrite E2 in Hd. congruence.
Defined.
