(* ===== verification/Mp.v ===== *)
(** * Multiprocessor tables (src/mp.c, src/mp.h)

    The search for the MP floating pointer and the walk over the configuration
    table, on a memory that the firmware has filled.  Structures are read at the
    offsets of their fields. *)

From S2P Require Import Prelude CString Kalloc.

Definition NCPU : nat := 8.
Definition MP_SIZE : Z := 16.       (* sizeof(struct mp) *)
Definition MPCONF_SIZE : Z := 44.   (* sizeof(struct mpconf) *)
Definition MPPROC : Z := 0.
Definition MPBUS : Z := 1.
Definition MPIOAPIC : Z := 2.
Definition MPIOINTR : Z := 3.
Definition MPLINTR : Z := 4.

Section mp.
Variable m : mem.

(** One byte, two bytes, four bytes at an address. *)
Definition rd1 (a : Z) : Z := uchar (m a).
Definition rd2 (a : Z) : Z := le_val [m a; m (a + 1)].
Definition rd4 (a : Z) : Z := ldw m a.

(** [for(i=0; i<len; i++) sum += addr[i]], returned as a uchar *)
Fixpoint sum_loop (addr : Z) (len : nat) (acc : Z) : Z :=
  match len with
  | O => acc
  | S len => sum_loop (addr + 1) len (acc + rd1 addr)
  end.
Definition sum (addr len : Z) : Z := sum_loop addr (Z.to_nat len) 0 mod 256.

Definition has_signature (p : Z) (sig : string) : bool := Kstring.memcmp (ptr m p) (chars (bytes_of sig)) 0 4 =? 0.

(** [for(p = addr; p < e; p += sizeof(struct mp))], [n] steps *)
Fixpoint mpsearch_loop (p : Z) (n : nat) : option Z :=
  match n with
  | O => None
  | S n => if has_signature p "_MP_" && (sum p MP_SIZE =? 0) then Some p else mpsearch_loop (p + MP_SIZE) n
  end.

(** Look for an MP structure in the len bytes at addr. *)
Definition mpsearch1 (a len : Z) : option Z := mpsearch_loop (P2V a) (Z.to_nat ((len + MP_SIZE - 1) / MP_SIZE)).

(** The EBDA, else the last KB of base memory, and then the BIOS ROM. *)
Definition mpsearch : option Z :=
  let bda := P2V 1024 in
  let p := Z.shiftl (Z.lor (Z.shiftl (rd1 (bda + 15)) 8) (rd1 (bda + 14))) 4 in
  let first :=
    if negb (p =? 0) then mpsearch1 p 1024
    else
      let p := Z.lor (Z.shiftl (rd1 (bda + 20)) 8) (rd1 (bda + 19)) * 1024 in
      mpsearch1 (u32 (p - 1024)) 1024 in
  match first with
  | Some mp => Some mp
  | None => mpsearch1 983040 65536
  end.

(** Fields of [struct mp] and [struct mpconf] *)
Definition mp_physaddr (mp : Z) : Z := rd4 (mp + 4).
Definition mp_imcrp (mp : Z) : Z := rd1 (mp + 12).
Definition conf_length (conf : Z) : Z := rd2 (conf + 4).
Definition conf_version (conf : Z) : Z := rd1 (conf + 6).
Definition conf_lapicaddr (conf : Z) : Z := rd4 (conf + 36).

Definition mpconfig : option (Z * Z) :=
  match mpsearch with
  | None => None
  | Some mp =>
      if mp_physaddr mp =? 0 then None
      else
        let conf := P2V (mp_physaddr mp) in
        if negb (has_signature conf "PCMP") then None
        else if negb (conf_version conf =? 1) && negb (conf_version conf =? 4) then None
        else if negb (sum conf (conf_length conf) =? 0) then None
        else Some (mp, conf)
  end.

(** [ncpu], the apicid of each of [cpus], [ioapicid], [lapic], and the ports written *)
Record mpstate : Type := mkMp { ms_ncpu : nat; ms_cpus : list Z; ms_ioapicid : Z; ms_lapic : Z; ms_out : list (Z * Z) }.

Definition set_lapic v s := mkMp (ms_ncpu s) (ms_cpus s) (ms_ioapicid s) v (ms_out s).
Definition set_ioapicid v s := mkMp (ms_ncpu s) (ms_cpus s) v (ms_lapic s) (ms_out s).
Definition add_cpu (apicid : Z) s : mpstate :=
  if (ms_ncpu s <? NCPU)%nat then mkMp (S (ms_ncpu s)) (<[ms_ncpu s := apicid]> (ms_cpus s)) (ms_ioapicid s) (ms_lapic s) (ms_out s) else s.

(** [for(p=(uchar* )(conf+1), e=...; p<e; ) switch( *p)]: [ismp] at the end.  The
    [default] case leaves the switch and not the loop. *)
Fixpoint mpinit_loop (p e : Z) (ismp : bool) (fuel : nat) : M mpstate bool :=
  match fuel with
  | O => sleeps
  | S fuel =>
      if p <? e then
        let type := rd1 p in
        if type =? MPPROC then modify (add_cpu (rd1 (p + 1)));; mpinit_loop (p + 20) e ismp fuel
        else if type =? MPIOAPIC then modify (set_ioapicid (rd1 (p + 1)));; mpinit_loop (p + 8) e ismp fuel
        else if (type =? MPBUS) || (type =? MPIOINTR) || (type =? MPLINTR) then mpinit_loop (p + 8) e ismp fuel
        else mpinit_loop p e false fuel
      else mret ismp
  end.

(** [imcr] is what [inb(0x23)] returns. *)
Definition mpinit (imcr : Z) (fuel : nat) : M mpstate unit :=
  match mpconfig with
  | None => panic "Expect to run on an SMP"
  | Some (mp, conf) =>
      modify (set_lapic (conf_lapicaddr conf));;
      ismp ← mpinit_loop (conf + MPCONF_SIZE) (conf + conf_length conf) true fuel;
      if negb ismp then panic "Didn't find a suitable machine"
      else if negb (mp_imcrp mp =? 0) then
        modify (λ s, mkMp (ms_ncpu s) (ms_cpus s) (ms_ioapicid s) (ms_lapic s) (ms_out s ++ [(34, 112); (35, Z.lor imcr 1)]))
      else mret tt
  end.

(** ** The entries of the table *)

Inductive entry : Type := EProc (apicid : Z) | EIoapic (id : Z) | EOther.

(** The entry at [p] and its size. *)
Definition entry_at (p : Z) : option (entry * Z) :=
  match rd1 p with
  | 0 => Some (EProc (rd1 (p + 1)), 20)
  | 2 => Some (EIoapic (rd1 (p + 1)), 8)
  | 1 | 3 | 4 => Some (EOther, 8)
  | _ => None
  end.

(** The entries from [p] to [e]; [unknown p e]: the walk meets an entry of another type. *)
Inductive entries (e : Z) : Z → list entry → Prop :=
  | entries_end p : e ≤ p → entries e p []
  | entries_next p x n l : p < e → entry_at p = Some (x, n) → entries e (p + n) l → entries e p (x :: l).
Inductive unknown (e : Z) : Z → Prop :=
  | unknown_here p : p < e → entry_at p = None → unknown e p
  | unknown_next p x n : p < e → entry_at p = Some (x, n) → unknown e (p + n) → unknown e p.

Definition apply_entry s (x : entry) : mpstate :=
  match x with EProc id => add_cpu id s | EIoapic id => set_ioapicid id s | EOther => s end.

Lemma entry_size p x n : entry_at p = Some (x, n) → 8 ≤ n.
Proof. unfold entry_at. intros H. repeat (case_match; simplify_eq; try lia). Qed.

(** One turn of the loop. *)
Lemma loop_entry p e ismp fuel s x n :
  p < e → entry_at p = Some (x, n) → mpinit_loop p e ismp (S fuel) s = mpinit_loop (p + n) e ismp fuel (apply_entry s x).
Proof.
  intros Hp Hx. cbn [mpinit_loop]. rewrite (proj2 (Z.ltb_lt _ _) Hp). unfold entry_at in Hx.
  destruct (rd1 p) as [|q|q] eqn:E; [simplify_eq; by rewrite ?E| |done].
  by do 3 (try destruct q as [q|q|]); simplify_eq.
Qed.

Lemma loop_unknown p e ismp fuel s :
  p < e → entry_at p = None → mpinit_loop p e ismp (S fuel) s = mpinit_loop p e false fuel s.
Proof.
  intros Hp Hx. cbn [mpinit_loop]. rewrite (proj2 (Z.ltb_lt _ _) Hp). unfold entry_at in Hx.
  destruct (rd1 p) as [|q|q] eqn:E; [done| |done]. by do 3 (try destruct q as [q|q|]); simplify_eq.
Qed.

Lemma walk_entries e p l ismp fuel s :
  entries e p l → Z.max 0 (e - p) + 7 < 8 * Z.of_nat fuel → mpinit_loop p e ismp fuel s = Ok ismp (foldl apply_entry s l).
Proof.
  intros Hl. revert fuel s. induction Hl as [p Hp|p x n l Hp Hx Hl IH]; intros [|fuel] s Hf; try lia.
  - cbn [mpinit_loop]. by rewrite (proj2 (Z.ltb_ge _ _) Hp).
  - rewrite (loop_entry p e ismp fuel s x n Hp Hx). pose proof (entry_size _ _ _ Hx). cbn [foldl].
    apply IH. lia.
Qed.

Lemma walk_unknown e p ismp fuel s : unknown e p → ∃ s', mpinit_loop p e ismp fuel s = Blocked s'.
Proof.
  intros Hu. revert ismp fuel s. induction Hu as [p Hp Hx|p x n Hp Hx Hu IH]; intros ismp fuel s.
  - revert ismp. induction fuel as [|fuel IH]; intros ismp; [by eexists|]. rewrite loop_unknown by done. apply IH.
  - destruct fuel as [|fuel]; [by eexists|]. rewrite (loop_entry p e ismp fuel s x n Hp Hx). apply IH.
Qed.

(** A table either consists of known entries, or has an unknown one. *)
Lemma entries_or_unknown e p : (∃ l, entries e p l) ∨ unknown e p.
Proof.
  remember (Z.to_nat (e - p)) as k eqn:Hk. revert p Hk. induction k as [k IH] using lt_wf_ind. intros p ->.
  destruct (decide (p < e)) as [Hp|Hp]; [|left; exists []; constructor; lia]. destruct (entry_at p) as [[x n]|] eqn:Hx; [|right; by constructor].
  pose proof (entry_size _ _ _ Hx). destruct (IH (Z.to_nat (e - (p + n))) ltac:(lia) (p + n) eq_refl) as [[l Hl]|Hu].
  - left. exists (x :: l). by eapply entries_next.
  - right. by eapply unknown_next.
Qed.
End mp.

(** ** What the tables that are accepted look like *)

Lemma memcmp_eq s1 s2 i n : Kstring.memcmp s1 s2 i n = 0 → ∀ k, 0 ≤ k < Z.of_nat n → s1 (i + k) = s2 (i + k).
Proof.
  revert i. induction n as [|n IH]; intros i H k Hk; [lia|]. cbn [Kstring.memcmp] in H. case_match eqn:E; [|lia].
  apply Z.eqb_eq, uchar_inj in E. destruct (decide (k = 0)) as [->|]; [by rewrite Z.add_0_r|].
  replace (i + k) with (i + 1 + (k - 1)) by lia. apply IH; [done|lia].
Qed.

Lemma signature_bytes m p sig : has_signature m p sig = true → ∀ k, 0 ≤ k < 4 → m (p + k) = chars (bytes_of sig) k.
Proof. intros H k Hk. apply Z.eqb_eq in H. by apply (memcmp_eq _ _ _ _ H k). Qed.

Lemma mpsearch_loop_ok m p n mp : mpsearch_loop m p n = Some mp → has_signature m mp "_MP_" = true ∧ sum m mp MP_SIZE = 0.
Proof.
  revert p. induction n as [|n IH]; intros p H; [done|]. cbn [mpsearch_loop] in H. case_match eqn:E; [|by eapply IH].
  simplify_eq. apply andb_true_iff in E as [? ?%Z.eqb_eq]. done.
Qed.

Lemma mpsearch_ok m mp : mpsearch m = Some mp → has_signature m mp "_MP_" = true ∧ sum m mp MP_SIZE = 0.
Proof.
  assert (H1 : ∀ a len, mpsearch1 m a len = Some mp → has_signature m mp "_MP_" = true ∧ sum m mp MP_SIZE = 0).
  { intros a len. apply mpsearch_loop_ok. }
  unfold mpsearch. cbv zeta. intros H. destruct (if negb _ then _ else _) as [q|] eqn:E in H; simplify_eq; [|by eapply H1].
  destruct (negb _) in E; by eapply H1.
Qed.

(** The MP structures the kernel relies on. *)
Record mp_valid (m : mem) (mp conf : Z) : Prop := mkValid {
  mv_mp : ∀ k, 0 ≤ k < 4 → m (mp + k) = chars (bytes_of "_MP_") k;
  mv_mpsum : sum m mp MP_SIZE = 0;
  mv_addr : mp_physaddr m mp ≠ 0 ∧ conf = P2V (mp_physaddr m mp);
  mv_conf : ∀ k, 0 ≤ k < 4 → m (conf + k) = chars (bytes_of "PCMP") k;
  mv_version : conf_version m conf = 1 ∨ conf_version m conf = 4;
  mv_confsum : sum m conf (conf_length m conf) = 0
}.

Lemma mpconfig_ok m mp conf : mpconfig m = Some (mp, conf) → mp_valid m mp conf.
Proof.
  unfold mpconfig. intros H. repeat (case_match; simplify_eq). destruct (mpsearch_ok m mp) as [Hs Hc]; [done|].
  split; [by apply signature_bytes|done|split; [lia|done]|apply signature_bytes|lia|lia]. by apply negb_false_iff.
Qed.

(** ** The processors found *)

Definition procs (l : list entry) : list Z := omap (λ x, match x with EProc id => Some id | _ => None end) l.
Definition ioapics (l : list entry) : list Z := omap (λ x, match x with EIoapic id => Some id | _ => None end) l.

Lemma take_app_take {A} n (l k : list A) : take n (take n l ++ k) = take n (l ++ k).
Proof. rewrite !take_app, take_take, length_take, Nat.min_id. do 2 f_equal. lia. Qed.

Lemma last_cons_default {A} (x d : A) l : List.last (x :: l) d = List.last l x.
Proof. revert x d. induction l as [|y l IH]; intros x d; [done|]. change (List.last (x :: y :: l) d) with (List.last (y :: l) d). by rewrite !IH. Qed.

Lemma add_cpu_ok id s :
  length (ms_cpus s) = NCPU → (ms_ncpu s ≤ NCPU)%nat →
  length (ms_cpus (add_cpu id s)) = NCPU ∧ (ms_ncpu (add_cpu id s) = NCPU `min` S (ms_ncpu s))%nat ∧
  take (ms_ncpu (add_cpu id s)) (ms_cpus (add_cpu id s)) = take NCPU (take (ms_ncpu s) (ms_cpus s) ++ [id]).
Proof.
  intros Hl Hn. unfold add_cpu. case_match eqn:E; cbn [ms_cpus ms_ncpu].
  - apply Nat.ltb_lt in E. rewrite length_insert. split; [done|]. split; [lia|].
    rewrite (take_S_r _ _ id) by (by rewrite list_lookup_insert_eq by lia). rewrite take_insert_ge by lia.
    symmetry. apply take_ge. rewrite length_app, length_take. cbn. lia.
  - apply Nat.ltb_ge in E. split; [done|]. split; [lia|]. rewrite take_app_le; [|rewrite length_take; lia].
    rewrite take_take. f_equal. lia.
Qed.

Lemma apply_entries_ok l s :
  length (ms_cpus s) = NCPU → (ms_ncpu s ≤ NCPU)%nat →
  let s' := foldl apply_entry s l in
  (ms_ncpu s' = NCPU `min` (ms_ncpu s + length (procs l)))%nat ∧
  take (ms_ncpu s') (ms_cpus s') = take NCPU (take (ms_ncpu s) (ms_cpus s) ++ procs l) ∧
  ms_ioapicid s' = List.last (ioapics l) (ms_ioapicid s) ∧ ms_lapic s' = ms_lapic s ∧ ms_out s' = ms_out s.
Proof.
  revert s. induction l as [|x l IH]; intros s Hl Hn; cbn zeta.
  { cbn [foldl procs ioapics omap list_omap length List.last]. rewrite app_nil_r, take_take. split_and!; try done; [lia|f_equal; lia]. }
  cbn [foldl]. destruct x as [id|id|]; cbn [apply_entry].
  - destruct (add_cpu_ok id s Hl Hn) as (Hl' & Hn' & Ht). destruct (IH _ Hl' ltac:(lia)) as (H1 & H2 & H3 & H4 & H5).
    rewrite H2, H1, H3, H4, H5, Ht, Hn'. unfold procs, ioapics, add_cpu. cbn [omap list_omap length].
    split_and!; [lia| |by case_match..].
    rewrite take_app_take. by rewrite <- (assoc_L (++)).
  - destruct (IH (set_ioapicid id s) Hl Hn) as (H1 & H2 & H3 & H4 & H5). rewrite H2, H1, H3, H4, H5. split_and!; try done.
    unfold ioapics. cbn [omap list_omap ms_ioapicid set_ioapicid]. symmetry. apply last_cons_default.
  - by apply IH.
Qed.

(** ** The whole of [mpinit] *)

(** What the kernel knows after [mpinit] has read the entries [l]. *)
Record mp_read (m : mem) (mp conf imcr : Z) (l : list entry) (s s' : mpstate) : Prop := mkRead {
  mr_ncpu : (ms_ncpu s' = NCPU `min` length (procs l))%nat;
  mr_cpus : take (ms_ncpu s') (ms_cpus s') = take NCPU (procs l);
  mr_ioapic : ms_ioapicid s' = List.last (ioapics l) (ms_ioapicid s);
  mr_lapic : ms_lapic s' = conf_lapicaddr m conf;
  mr_out : ms_out s' = ms_out s ++ (if mp_imcrp m mp =? 0 then [] else [(34, 112); (35, Z.lor imcr 1)])
}.

Lemma conf_length_bound m conf : 0 ≤ conf_length m conf < 65536.
Proof. unfold conf_length, rd2. pose proof (le_val_range [m (conf + 4); m (conf + 4 + 1)]). cbn [length] in *. lia. Qed.

Lemma mpinit_entries m mp conf imcr l s :
  mpconfig m = Some (mp, conf) → ms_ncpu s = 0%nat → length (ms_cpus s) = NCPU →
  entries m (conf + conf_length m conf) (conf + MPCONF_SIZE) l →
  ∀ fuel, 8192 ≤ Z.of_nat fuel → ∃ s', mpinit m imcr fuel s = Ok tt s' ∧ mp_read m mp conf imcr l s s'.
Proof.
  intros Hc Hn Hl He fuel Hf. pose proof (conf_length_bound m conf). unfold mpinit. rewrite Hc.
  set (s1 := set_lapic (conf_lapicaddr m conf) s).
  assert (Hw : mpinit_loop m (conf + MPCONF_SIZE) (conf + conf_length m conf) true fuel s1 = Ok true (foldl apply_entry s1 l)).
  { apply walk_entries; [done|]. unfold MPCONF_SIZE. lia. }
  destruct (apply_entries_ok l s1) as (H1 & H2 & H3 & H4 & H5); [done|subst s1; cbn; lia|].
  rewrite (bind_Ok _ _ _ tt s1) by done. rewrite (bind_Ok _ _ _ _ _ Hw). cbn [negb].
  revert H1 H2 H3 H4 H5. generalize (foldl apply_entry s1 l). intros s2 H1 H2 H3 H4 H5. subst s1. cbn in H1, H2, H3, H4, H5. rewrite Hn in *.
  destruct (mp_imcrp m mp =? 0) eqn:E; cbn [negb]; eexists; (split; [reflexivity|]).
  - split; rewrite ?E, ?app_nil_r; done.
  - split; cbn [ms_ncpu ms_cpus ms_ioapicid ms_lapic ms_out]; rewrite ?E, ?H5; done.
Qed.

Lemma mpinit_unknown m mp conf imcr s :
  mpconfig m = Some (mp, conf) → unknown m (conf + conf_length m conf) (conf + MPCONF_SIZE) →
  ∀ fuel, ∃ s', mpinit m imcr fuel s = Blocked s'.
Proof.
  intros Hc Hu fuel. unfold mpinit. rewrite Hc. rewrite (bind_Ok _ _ _ tt (set_lapic (conf_lapicaddr m conf) s)) by done.
  destruct (walk_unknown m _ _ true fuel (set_lapic (conf_lapicaddr m conf) s) Hu) as [s' Hs]. exists s'. unfold mbind, M_bind. by rewrite Hs.
Qed.


(** A machine with two processors and an I/O APIC, its tables in the EBDA. *)
Definition mp_bytes : list Z :=
  [95; 77; 80; 95; 16; 0; 9; 0; 1; 4; 135; 0; 0; 0; 0; 0] ++
  [80; 67; 77; 80; 92; 0; 4; 135] ++ replicate 28 0 ++ [0; 0; 224; 254; 3; 0; 0; 0] ++
  (0 :: 0 :: replicate 18 0) ++ (0 :: 1 :: replicate 18 0) ++ (2 :: 5 :: replicate 6 0).
Definition mp_mem : mem := λ a,
  if a =? P2V 1039 then to_uchar 144
  else if (P2V 589824 <=? a) && (a <? P2V 589824 + 108) then to_uchar (nth (Z.to_nat (a - P2V 589824)) mp_bytes 0)
  else Byte.x00.
Definition mp_boot : mpstate := mkMp 0 (replicate NCPU 0) 0 0 [].
Definition mp_conf0 : Z := P2V 589840.

