(* ===== verification/Mkfs.v ===== *)
(** * The program that makes the disk image (src/mkfs.c)

    The image is a file of [mk_len] sectors; [exit(1)] and a failed [assert] are
    the panic result.  A [struct dinode] in memory is an [inode] of which only the
    fields on disk matter.  The host's byte order is the disk's.  An input file is
    its name and what its successive [read]s return, [None] if it cannot be opened. *)

From S2P Require Import Prelude Dll Sleeplock Bio Memide FsLayout Log LogCrash LogProtocol Tx CString Fs.
Import (notations) Corelib.Init.Byte.

Definition NINODES : Z := 200.
Definition nbitmap : Z := FSSIZE / (Z.of_nat BSIZE * 8) + 1.
Definition ninodeblocks : Z := NINODES / IPB + 1.
Definition nlog : Z := LOGSIZE.
Definition nmeta : Z := 2 + nlog + ninodeblocks + nbitmap.
Definition nblocks : Z := FSSIZE - nmeta.

(** The image, and the globals [sb], [freeinode], [freeblock] *)
Record mkst : Type := mkMk { mk_img : Z → list byte; mk_len : Z; mk_sb : superblock; mk_freeinode : Z; mk_freeblock : Z }.

Definition mk_set_sb (sb : superblock) (s : mkst) : mkst := mkMk (mk_img s) (mk_len s) sb (mk_freeinode s) (mk_freeblock s).
Definition mk_set_freeinode (n : Z) (s : mkst) : mkst := mkMk (mk_img s) (mk_len s) (mk_sb s) n (mk_freeblock s).
Definition mk_set_freeblock (n : Z) (s : mkst) : mkst := mkMk (mk_img s) (mk_len s) (mk_sb s) (mk_freeinode s) n.

Definition zeroes : list byte := replicate BSIZE Byte.x00.

(** convert to intel byte order *)
Definition xshort (x : Z) : Z := le_val (le_bytes 2 x).
Definition xint (x : Z) : Z := le_val (le_bytes 4 x).

Definition wsect (sec : Z) (buf : list byte) : M mkst unit :=
  modify (λ s, mkMk (<[sec := buf]> (mk_img s)) (Z.max (mk_len s) (sec + 1)) (mk_sb s) (mk_freeinode s) (mk_freeblock s)).

Definition rsect (sec : Z) : M mkst (list byte) :=
  s ← getS;
  if sec <? mk_len s then mret (mk_img s sec) else panic "read".

(** The dinode in memory, with its number. *)
Definition din0 (inum : Z) : inode := mkInode 0 inum 0 initsleeplock 0 0 0 0 0 0 (replicate 13 0).
Definition with_inum (inum : Z) (x : inode) : inode :=
  mkInode (i_dev x) inum (i_ref x) (i_lock x) (i_valid x) (i_type x) (i_major x) (i_minor x) (i_nlink x) (i_size x) (i_addrs x).

Definition winode (inum : Z) (ip : inode) : M mkst unit :=
  s ← getS;
  let bn := IBLOCK inum (mk_sb s) in
  buf ← rsect bn;
  wsect bn (dinode_write (with_inum inum ip) buf).

Definition rinode (inum : Z) : M mkst inode :=
  s ← getS;
  let bn := IBLOCK inum (mk_sb s) in
  buf ← rsect bn;
  mret (dinode_read inum buf (din0 inum)).

Definition ialloc (type : Z) : M mkst Z :=
  s ← getS;
  let inum := mk_freeinode s in
  modify (mk_set_freeinode (u32 (inum + 1)));;
  winode inum (set_isize (xint 0) (set_imeta 0 0 (xshort 1) (set_itype (xshort type) (din0 inum))));;
  mret inum.

(** [for(i = 0; i < used; i++) buf[i/8] = buf[i/8] | (0x1 << (i%8))] *)
Fixpoint set_bits (buf : list byte) (i : Z) (n : nat) : list byte :=
  match n with
  | O => buf
  | S n => set_bits (bit_set buf i) (i + 1) n
  end.

Definition balloc (used : Z) : M mkst unit :=
  if negb (used <? Z.of_nat BSIZE * 8) then panic "assert"
  else
    s ← getS;
    wsect (sb_bmapstart (mk_sb s)) (set_bits zeroes 0 (Z.to_nat used)).

(** [freeblock++] *)
Definition next_block : M mkst Z :=
  s ← getS;
  modify (mk_set_freeblock (u32 (mk_freeblock s + 1)));;
  mret (mk_freeblock s).

(** The sector of block [fbn] of the file, allocated if need be. *)
Definition iappend_block (din : inode) (fbn : Z) : M mkst (inode * Z) :=
  if fbn <? NDIRECT then
    din ← (if xint (i_addrs din !!! Z.to_nat fbn) =? 0 then
             b ← next_block; mret (set_iaddrs (<[Z.to_nat fbn := xint b]> (i_addrs din)) din)
           else mret din);
    mret (din, xint (i_addrs din !!! Z.to_nat fbn))
  else
    din ← (if xint (i_addrs din !!! 12%nat) =? 0 then
             b ← next_block; mret (set_iaddrs (<[12%nat := xint b]> (i_addrs din)) din)
           else mret din);
    indirect ← rsect (xint (i_addrs din !!! 12%nat));
    let k := (4 * Z.to_nat (fbn - NDIRECT))%nat in
    indirect ← (if ld 4 k indirect =? 0 then
                  b ← next_block;
                  let indirect := st 4 k (xint b) indirect in
                  wsect (xint (i_addrs din !!! 12%nat)) indirect;;
                  mret indirect
                else mret indirect);
    mret (din, xint (ld 4 k indirect)).

(** [while(n > 0)]: the dinode and the offset at the end *)
Fixpoint iappend_loop (din : inode) (off : Z) (p : list byte) (n : Z) (fuel : nat) : M mkst (inode * Z) :=
  match fuel with
  | O => sleeps
  | S fuel =>
      if 0 <? n then
        let fbn := off / Z.of_nat BSIZE in
        if negb (fbn <? MAXFILE) then panic "assert"
        else
          '(din, x) ← iappend_block din fbn;
          let n1 := Z.min n (u32 ((fbn + 1) * Z.of_nat BSIZE - off)) in
          buf ← rsect x;
          wsect x (blit (Z.to_nat (off - fbn * Z.of_nat BSIZE)) (take (Z.to_nat n1) p) buf);;
          iappend_loop din (u32 (off + n1)) (drop (Z.to_nat n1) p) (n - n1) fuel
      else mret (din, off)
  end.

Definition iappend (inum : Z) (xp : list byte) (n : Z) : M mkst unit :=
  din ← rinode inum;
  '(din, off) ← iappend_loop din (xint (i_size din)) xp n (Z.to_nat n + 1);
  winode inum (set_isize (xint off) din).

(** [bzero(&de, sizeof(de)); de.inum = xshort(inum); strncpy(de.name, name, DIRSIZ)] *)
Definition new_dirent (inum : Z) (name : list byte) : list byte := mk_dirent (xshort inum) (strncpy_bytes (chars name) 0 DIRSIZ).

(** [while((cc = read(fd, buf, sizeof(buf))) > 0) iappend(inum, buf, cc)] *)
Fixpoint append_file (inum : Z) (chunks : list (list byte)) : M mkst unit :=
  match chunks with
  | [] | [] :: _ => mret tt
  | c :: chunks => iappend inum c (Z.of_nat (length c));; append_file inum chunks
  end.

(** Skip leading _ in name when writing to file system. *)
Definition skip_underscore (name : list byte) : list byte :=
  match name with
  | c :: r => if decide (c = "_"%byte) then r else name
  | [] => name
  end.

Fixpoint add_files (rootino : Z) (files : list (list byte * option (list (list byte)))) : M mkst unit :=
  match files with
  | [] => mret tt
  | (name, content) :: files =>
      if decide (slash ∈ name) then panic "assert"
      else
        match content with
        | None => panic "open"
        | Some chunks =>
            let name := skip_underscore name in
            inum ← ialloc T_FILE;
            iappend rootino (new_dirent inum name) DIRENT_SIZE;;
            append_file inum chunks;;
            add_files rootino files
        end
  end.

(** [for(i = 0; i < FSSIZE; i++) wsect(i, zeroes)] *)
Fixpoint zero_sectors (i : Z) (n : nat) : M mkst unit :=
  match n with
  | O => mret tt
  | S n => wsect i zeroes;; zero_sectors (i + 1) n
  end.

Definition new_sb : superblock :=
  mkSb (xint FSSIZE) (xint nblocks) (xint NINODES) (xint nlog) (xint 2) (xint (2 + nlog)) (xint (2 + nlog + ninodeblocks)).

(** The bytes of [sb]. *)
Definition sb_words (sb : superblock) : list Z :=
  [sb_size sb; sb_nblocks sb; sb_ninodes sb; sb_nlog sb; sb_logstart sb; sb_inodestart sb; sb_bmapstart sb].

(** [main] after its arguments have been checked and the image opened *)
Definition mkfs (files : list (list byte * option (list (list byte)))) : M mkst unit :=
  modify (mk_set_sb new_sb);;
  modify (mk_set_freeblock nmeta);;
  zero_sectors 0 (Z.to_nat FSSIZE);;
  wsect 1 (st_words (sb_words new_sb) 0 zeroes);;
  rootino ← ialloc T_DIR;
  if negb (rootino =? ROOTINO) then panic "assert"
  else
    iappend rootino (new_dirent rootino ["."%byte]) DIRENT_SIZE;;
    iappend rootino (new_dirent rootino ["."%byte; "."%byte]) DIRENT_SIZE;;
    add_files rootino files;;
    (* fix size of root inode dir *)
    din ← rinode rootino;
    let off := xint (i_size din) in
    let off := u32 ((off / Z.of_nat BSIZE + 1) * Z.of_nat BSIZE) in
    winode rootino (set_isize (xint off) din);;
    s ← getS;
    balloc (mk_freeblock s).

(** The empty image file *)
Definition mk_start : mkst := mkMk (λ _, zeroes) 0 (mkSb 0 0 0 0 0 0 0) 1 0.
