(* ===== verification/MkfsImage.v ===== *)
(** * The image that mkfs makes (src/mkfs.c)

    The files of the image as the kernel reads them: the block maps of the inodes
    (src/fs.c, [FsFile]) lead to the bytes that were appended, blocks are never
    shared, and the bitmap marks exactly the blocks in use. *)

From S2P Require Import Prelude Dll Sleeplock Bio Memide FsLayout Log LogCrash LogProtocol Tx CString Fs FsAlloc FsInode FsFile Mkfs.
Import (notations) Corelib.Init.Byte.

Local Abbreviation BS := (Z.of_nat BSIZE).

Lemma nmeta_val : nmeta = 59.
Proof. reflexivity. Qed.

Lemma BS_val : BS = 512.
Proof. reflexivity. Qed.

(** ** Files under construction *)

(** The places where an inode names a block: a block of the file, or the indirect block. *)
Definition place_ok (k : option Z) : Prop := match k with None => True | Some bn => 0 ≤ bn < MAXFILE end.
Definition paddr (V : Z → list byte) (x : inode) (k : option Z) : Z :=
  match k with None => i_addrs x !!! 12%nat | Some bn => faddr V x bn end.

Definition flen (c : list byte) : Z := Z.of_nat (length c).

(** The blocks that [n] bytes take, the indirect block included. *)
Definition need (n : Z) : Z := let k := (n + 511) / 512 in k + (if 12 <? k then 1 else 0).
Definition needs (cs : list (list byte)) : Z := foldr (λ c a, need (flen c) + a) 0 cs.

(** The inodes [xs] map their blocks below [fb] to the contents [cs], and zeroes after them. *)
Record files_ok (V : Z → list byte) (fb : Z) (xs : list inode) (cs : list (list byte)) : Prop := mkFiles {
  f_len : length xs = length cs;
  f_sect b : length (V b) = BSIZE;
  f_addrs i x : xs !! i = Some x → length (i_addrs x) = 13%nat;
  f_range i x k : xs !! i = Some x → place_ok k → paddr V x k = 0 ∨ nmeta ≤ paddr V x k < fb;
  f_inj i j x y k k' : xs !! i = Some x → xs !! j = Some y → place_ok k → place_ok k' → paddr V x k ≠ 0 →
    paddr V x k = paddr V y k' → i = j ∧ k = k';
  f_map i x c bn : xs !! i = Some x → cs !! i = Some c → 0 ≤ bn < MAXFILE → faddr V x bn ≠ 0 ↔ bn * 512 < flen c;
  f_ind i x c : xs !! i = Some x → cs !! i = Some c → i_addrs x !!! 12%nat ≠ 0 ↔ 12 * 512 < flen c;
  f_max i c : cs !! i = Some c → flen c ≤ MAXFILE * 512;
  f_byte i x c pos : xs !! i = Some x → cs !! i = Some c → 0 ≤ pos < MAXFILE * 512 → faddr V x (pos / 512) ≠ 0 →
    fbyte V x pos = nth (Z.to_nat pos) c Byte.x00;
  f_free b : fb ≤ b < FSSIZE → V b = zeroes;
  f_fb : nmeta ≤ fb ≤ FSSIZE;
}.

(** Appending [p] inside one block: the block [b] holds the end of the file [c ++ p]. *)
Record extended (V : Z → list byte) (fb : Z) (x : inode) (c p : list byte) (V' : Z → list byte) (fb' : Z) (x' : inode) (b : Z) : Prop := mkExt {
  e_addrs : length (i_addrs x') = 13%nat;
  e_at : mapped_at V x V' x' (flen c / 512) b;
  e_new : (faddr V x (flen c / 512) = b ∧ b ≠ 0) ∨ (faddr V x (flen c / 512) = 0 ∧ fb ≤ b < fb');
  e_ind : i_addrs x' !!! 12%nat = i_addrs x !!! 12%nat ∨
    (i_addrs x !!! 12%nat = 0 ∧ fb ≤ i_addrs x' !!! 12%nat < fb' ∧ i_addrs x' !!! 12%nat ≠ b);
  e_ind0 : i_addrs x' !!! 12%nat ≠ 0 ↔ 12 * 512 < flen (c ++ p);
  e_b : V' b = blit (Z.to_nat (flen c mod 512)) p (V b);
  e_other k : k ≠ b → k ≠ i_addrs x' !!! 12%nat → V' k = V k;
  e_sect k : length (V' k) = BSIZE;
  e_fb : fb ≤ fb' ≤ FSSIZE;
}.

Lemma flen_app (l k : list byte) : flen (l ++ k) = flen l + flen k.
Proof. unfold flen. rewrite length_app. lia. Qed.

(** The bytes around the part of a block that is written. *)
Lemma nth_zeroes k : nth k zeroes Byte.x00 = Byte.x00.
Proof. rewrite nth_lookup. destruct (zeroes !! k) eqn:E; [|done]. by apply lookup_replicate in E as [-> _]. Qed.

Lemma ld_zeroes n o : ld n o zeroes = 0.
Proof.
  unfold ld, zeroes. rewrite drop_replicate, take_replicate. generalize (n `min` (BSIZE - o))%nat. intros k.
  induction k as [|k IH]; [done|]. cbn [replicate le_val]. by rewrite IH.
Qed.

Section extend.
Variables (V : Z → list byte) (fb : Z) (xs : list inode) (cs : list (list byte)).
Hypothesis Hok : files_ok V fb xs cs.
Variables (i : nat) (x : inode) (c p : list byte).
Hypothesis (Hx : xs !! i = Some x) (Hc : cs !! i = Some c).
Hypothesis Hp : 0 < flen p ∧ flen c mod 512 + flen p ≤ 512.
Hypothesis Hbn : flen c / 512 < MAXFILE.
Variables (V' : Z → list byte) (fb' : Z) (x' : inode) (b : Z).
Hypothesis He : extended V fb x c p V' fb' x' b.

Let bn := flen c / 512.

Lemma bn_range : 0 ≤ bn < MAXFILE.
Proof. unfold bn. split; [|done]. apply Z.div_pos; unfold flen; lia. Qed.

(** No other place of the old image names the block or the new indirect block. *)
Lemma apart_b j y k :
  xs !! j = Some y → place_ok k → paddr V y k ≠ 0 → (j, k) ≠ (i, Some bn) → paddr V y k ≠ b.
Proof.
  intros Hy Hk H0 Hne E. destruct (e_new _ _ _ _ _ _ _ _ _ He) as [[Eb _]|[_ Hb]].
  - rewrite <-Eb in E. destruct (f_inj _ _ _ _ Hok j i y x k (Some bn) Hy Hx Hk bn_range H0 E) as [-> ->]. done.
  - destruct (f_range _ _ _ _ Hok j y k Hy Hk); lia.
Qed.

Lemma apart_ind j y k :
  xs !! j = Some y → place_ok k → paddr V y k ≠ 0 → (j, k) ≠ (i, None) → paddr V y k ≠ i_addrs x' !!! 12%nat.
Proof.
  intros Hy Hk H0 Hne E. destruct (e_ind _ _ _ _ _ _ _ _ _ He) as [Ei|(_ & Hr & _)].
  - rewrite Ei in E. destruct (f_inj _ _ _ _ Hok j i y x k None Hy Hx Hk I H0 E) as [-> ->]. done.
  - destruct (f_range _ _ _ _ Hok j y k Hy Hk); lia.
Qed.

Lemma other_kept j y : xs !! j = Some y → j ≠ i → ∀ k, place_ok k → paddr V' y k = paddr V y k.
Proof.
  intros Hy Hj [n|] Hk; [|done]. cbn [paddr]. unfold faddr. case_match; [done|].
  destruct (Z.eqb_spec (i_addrs y !!! 12%nat) 0); [done|]. rewrite (e_other _ _ _ _ _ _ _ _ _ He); [done|..].
  - apply (apart_b j y None); [done|done|done|congruence].
  - apply (apart_ind j y None); [done|done|done|congruence].
Qed.

(** The contents of a block of another place. *)
Lemma block_kept j y n :
  xs !! j = Some y → 0 ≤ n < MAXFILE → faddr V y n ≠ 0 → (j, n) ≠ (i, bn) → V' (faddr V y n) = V (faddr V y n).
Proof.
  intros Hy Hn H0 Hne. apply (e_other _ _ _ _ _ _ _ _ _ He).
  - apply (apart_b j y (Some n)); [done|done|done|congruence].
  - apply (apart_ind j y (Some n)); [done|done|done|congruence].
Qed.

Lemma paddr_new k : place_ok k →
  paddr V' x' k = match k with Some n => if decide (n = bn) then b else faddr V x n | None => i_addrs x' !!! 12%nat end.
Proof.
  intros Hk. destruct (e_at _ _ _ _ _ _ _ _ _ He) as [Hat Hne]. destruct k as [n|]; [|done]. cbn [paddr].
  case_decide as E; [subst n; done|]. by apply Hne.
Qed.

Lemma b_range : nmeta ≤ b < fb' ∧ b ≠ i_addrs x' !!! 12%nat.
Proof.
  pose proof nmeta_val as Hnm. pose proof (f_fb _ _ _ _ Hok) as Hfb0. pose proof (e_fb _ _ _ _ _ _ _ _ _ He) as Hfb. pose proof (f_range _ _ _ _ Hok i x None Hx I) as Hr.
  destruct (e_new _ _ _ _ _ _ _ _ _ He) as [[Eb H0]|[_ Hb]].
  - change (faddr V x bn = b) in Eb. destruct (f_range _ _ _ _ Hok i x (Some bn) Hx bn_range) as [?|?]; cbn [paddr] in *; [congruence|]. split; [lia|]. rewrite <-Eb.
    apply (apart_ind i x (Some bn)); [done|exact bn_range|cbn [paddr]; congruence|congruence].
  - split; [lia|]. cbn [paddr] in Hr. destruct (e_ind _ _ _ _ _ _ _ _ _ He) as [->|(_ & _ & ?)]; [lia|congruence].
Qed.

Lemma new_range k : place_ok k → paddr V' x' k = 0 ∨ nmeta ≤ paddr V' x' k < fb'.
Proof.
  intros Hk. pose proof (f_fb _ _ _ _ Hok). pose proof (e_fb _ _ _ _ _ _ _ _ _ He). rewrite paddr_new by done. destruct k as [n|].
  - case_decide; [right; apply b_range|]. destruct (f_range _ _ _ _ Hok i x (Some n) Hx Hk); cbn [paddr] in *; [tauto|lia].
  - destruct (f_range _ _ _ _ Hok i x None Hx I); cbn [paddr] in *; destruct (e_ind _ _ _ _ _ _ _ _ _ He) as [->|(_ & ? & _)]; lia.
Qed.

(** The places of the new inode are apart from each other and from the others. *)
Lemma new_inj_other k j y k' :
  place_ok k → place_ok k' → xs !! j = Some y → j ≠ i → paddr V' x' k ≠ 0 → paddr V' x' k = paddr V y k' → False.
Proof.
  intros Hk Hk' Hy Hj H0 E. rewrite paddr_new in H0, E by done. assert (Hy0 : paddr V y k' ≠ 0) by (rewrite <-E; done). symmetry in E. destruct k as [n|].
  - case_decide as D; [apply (apart_b j y k') in E; [done|done|done|done|congruence]|].
    destruct (f_inj _ _ _ _ Hok j i y x k' (Some n)) as [? _]; [done|done|done|done|done|done|]. done.
  - apply (apart_ind j y k') in E; [done|done|done|done|congruence].
Qed.

Lemma new_inj_self k k' : place_ok k → place_ok k' → paddr V' x' k ≠ 0 → paddr V' x' k = paddr V' x' k' → k = k'.
Proof.
  intros Hk Hk'. rewrite !paddr_new by done. pose proof b_range as [_ Hbi].
  assert (Hself : ∀ n, 0 ≤ n < MAXFILE → n ≠ bn → faddr V x n ≠ 0 → faddr V x n ≠ b ∧ faddr V x n ≠ i_addrs x' !!! 12%nat).
  { intros n Hn Hnb H0. split; [apply (apart_b i x (Some n))|apply (apart_ind i x (Some n))]; try done; congruence. }
  destruct k as [n|], k' as [n'|]; repeat case_decide; subst; intros Hnz E; try done.
  - destruct (Hself n') as [? _]; [done|done|congruence|congruence].
  - destruct (Hself n) as [? ?]; [done|done|congruence|congruence].
  - destruct (f_inj _ _ _ _ Hok i i x x (Some n) (Some n') Hx Hx Hk Hk' Hnz E) as [_ ?]. done.
  - destruct (Hself n) as [? ?]; [done|done|congruence|congruence].
  - destruct (Hself n') as [_ ?]; [done|done|congruence|congruence].
Qed.

Lemma new_map n : 0 ≤ n < MAXFILE → faddr V' x' n ≠ 0 ↔ n * 512 < flen (c ++ p).
Proof.
  intros Hn. rewrite flen_app. pose proof (paddr_new (Some n) Hn) as E. cbn [paddr] in E. rewrite E. pose proof b_range. pose proof nmeta_val.
  pose proof (Z.div_mod (flen c) 512 ltac:(lia)) as Hd. pose proof (Z.mod_pos_bound (flen c) 512 ltac:(lia)). unfold bn in *. case_decide as D.
  - rewrite D. split; [lia|]. intros _. destruct b_range. lia.
  - rewrite (f_map _ _ _ _ Hok i x c n Hx Hc Hn). lia.
Qed.

Lemma new_byte pos :
  0 ≤ pos < MAXFILE * 512 → faddr V' x' (pos / 512) ≠ 0 → fbyte V' x' pos = nth (Z.to_nat pos) (c ++ p) Byte.x00.
Proof.
  intros Hpos H0. assert (Hn : 0 ≤ pos / 512 < MAXFILE) by (split; [apply Z.div_pos; lia|apply Z.div_lt_upper_bound; lia]).
  pose proof (Z.div_mod pos 512 ltac:(lia)) as Hd. pose proof (Z.mod_pos_bound pos 512 ltac:(lia)) as Hm.
  pose proof (Z.div_mod (flen c) 512 ltac:(lia)) as Hdc. pose proof (Z.mod_pos_bound (flen c) 512 ltac:(lia)) as Hmc.
  pose proof (paddr_new (Some (pos / 512)) Hn) as E. cbn [paddr] in E. unfold fbyte. rewrite BS_val, E. rewrite E in H0. case_decide as D.
  - rewrite (e_b _ _ _ _ _ _ _ _ _ He). unfold bn in D. rewrite nth_blit by (rewrite (f_sect _ _ _ _ Hok), BSIZE_val; unfold flen in *; lia).
    case_decide as Dk.
    + rewrite app_nth2 by (unfold flen in *; lia). f_equal. unfold flen in *. lia.
    + assert (Hold : nth (Z.to_nat (pos mod 512)) (V b) Byte.x00 = nth (Z.to_nat pos) c Byte.x00 ∧ (faddr V x bn = 0 → flen c mod 512 = 0)).
      { destruct (e_new _ _ _ _ _ _ _ _ _ He) as [[Eb Hb]|[Eb Hb]]; fold bn in Eb.
        - split; [|congruence]. rewrite <-(f_byte _ _ _ _ Hok i x c pos Hx Hc Hpos); [|rewrite D; fold bn; congruence].
          unfold fbyte. rewrite BS_val, D. fold bn. by rewrite Eb.
        - assert (Hz : flen c mod 512 = 0).
          { pose proof (f_map _ _ _ _ Hok i x c bn Hx Hc bn_range) as Hmap. unfold bn in Hmap. fold bn in Hmap. destruct (decide (bn * 512 < flen c)) as [Hlt|]; [by apply Hmap in Hlt|]. unfold bn in *. lia. }
          split; [|done]. rewrite (f_free _ _ _ _ Hok) by (pose proof (e_fb _ _ _ _ _ _ _ _ _ He); lia). rewrite nth_zeroes.
          symmetry. apply nth_overflow. unfold flen in *. lia. }
      destruct Hold as [-> _]. destruct (decide (pos < flen c)); [by rewrite app_nth1 by (unfold flen in *; lia)|].
      rewrite !nth_overflow; [done|rewrite length_app|]; unfold flen in *; lia.
  - rewrite (block_kept i x (pos / 512)); [|done|done|done|congruence].
    transitivity (nth (Z.to_nat pos) c Byte.x00); [rewrite <-(f_byte _ _ _ _ Hok i x c pos Hx Hc Hpos H0); unfold fbyte; by rewrite BS_val|].
    apply (f_map _ _ _ _ Hok i x c _ Hx Hc Hn) in H0. unfold bn in D. by rewrite app_nth1 by (unfold flen in *; lia).
Qed.

Lemma files_extend : files_ok V' fb' (<[i := x']> xs) (<[i := c ++ p]> cs).
Proof.
  pose proof (Z.div_mod (flen c) 512 ltac:(lia)) as Hdc. assert (Hil : (i < length xs)%nat) by (by eapply lookup_lt_Some).
  pose proof (e_fb _ _ _ _ _ _ _ _ _ He) as Hfb. pose proof (f_fb _ _ _ _ Hok) as Hfb0.
  split.
  - rewrite !length_insert. apply Hok.
  - apply He.
  - intros j y [[-> ->]|[_ Hy]]%insert_cases; [apply He|by apply (f_addrs _ _ _ _ Hok j)].
  - intros j y k [[-> ->]|[Hj Hy]]%insert_cases Hk; [by apply new_range|]. rewrite (other_kept j) by done.
    destruct (f_range _ _ _ _ Hok j y k Hy Hk); [by left|right; lia].
  - intros j j' y y' k k' [[-> ->]|[Hj Hy]]%insert_cases [[-> ->]|[Hj' Hy']]%insert_cases Hk Hk' H0 E.
    + split; [done|]. by apply new_inj_self.
    + rewrite (other_kept j' y' Hy' Hj' k' Hk') in E. exfalso. by eapply (new_inj_other k j' y' k').
    + rewrite (other_kept j y Hy Hj k Hk) in H0, E. exfalso. eapply (new_inj_other k' j y k); [done..| |by symmetry]. congruence.
    + rewrite (other_kept j y Hy Hj k Hk) in H0, E. rewrite (other_kept j' y' Hy' Hj' k' Hk') in E. by apply (f_inj _ _ _ _ Hok j j' y y').
  - intros j y d n [[-> ->]|[Hj Hy]]%insert_cases [[Hj' ->]|[Hj' Hd]]%insert_cases Hn; try done; [by apply new_map|].
    pose proof (other_kept j y Hy Hj (Some n) Hn) as E. cbn [paddr] in E. rewrite E. by apply (f_map _ _ _ _ Hok j).
  - intros j y d [[-> ->]|[Hj Hy]]%insert_cases [[Hj' ->]|[Hj' Hd]]%insert_cases; try done; [apply He|by apply (f_ind _ _ _ _ Hok j)].
  - intros j d [[-> ->]|[Hj Hd]]%insert_cases; [rewrite flen_app; lia|by apply (f_max _ _ _ _ Hok j)].
  - intros j y d pos [[-> ->]|[Hj Hy]]%insert_cases [[Hj' ->]|[Hj' Hd]]%insert_cases Hpos; try done; [by apply new_byte|].
    assert (Hn : 0 ≤ pos / 512 < MAXFILE) by (split; [apply Z.div_pos; lia|apply Z.div_lt_upper_bound; lia]).
    pose proof (other_kept j y Hy Hj (Some (pos / 512)) Hn) as E. cbn [paddr] in E. rewrite E. intros H0.
    rewrite <-(f_byte _ _ _ _ Hok j y d pos Hy Hd Hpos H0). unfold fbyte. rewrite BS_val, E. f_equal. apply (block_kept j y); [done|done|done|congruence].
  - intros k Hk. rewrite (e_other _ _ _ _ _ _ _ _ _ He); [apply (f_free _ _ _ _ Hok); lia|pose proof b_range; lia|].
    destruct (new_range None I) as [E|E]; cbn [paddr] in E; pose proof nmeta_val; lia.
  - lia.
Qed.
End extend.

(** ** The ways to find the block *)

Section place.
Variables (V : Z → list byte) (fb : Z) (xs : list inode) (cs : list (list byte)).
Hypothesis Hok : files_ok V fb xs cs.
Variables (i : nat) (x : inode) (c p : list byte).
Hypothesis (Hx : xs !! i = Some x) (Hc : cs !! i = Some c).
Hypothesis Hp : 0 < flen p ∧ flen c mod 512 + flen p ≤ 512.
Hypothesis Hbn : flen c / 512 < MAXFILE.
Hypothesis Hfit : fb + (need (flen (c ++ p)) - need (flen c)) ≤ FSSIZE.

Let bn := flen c / 512.
Let put (W : Z → list byte) (b : Z) : Z → list byte := <[b := blit (Z.to_nat (flen c mod 512)) p (W b)]> W.

Lemma off_facts : flen c = 512 * bn + flen c mod 512 ∧ 0 ≤ flen c mod 512 < 512.
Proof. unfold bn. pose proof (Z.div_mod (flen c) 512 ltac:(lia)). pose proof (Z.mod_pos_bound (flen c) 512 ltac:(lia)). lia. Qed.

(** What the number of blocks does when [p] is appended. *)
Lemma need_old : bn * 512 < flen c → need (flen (c ++ p)) = need (flen c).
Proof.
  intros Hlt. rewrite flen_app. unfold need. assert ((flen c + flen p + 511) / 512 = (flen c + 511) / 512) as ->; [|done].
  pose proof off_facts. transitivity (bn + 1); [symmetry; apply Z.div_unique with (flen c mod 512 + flen p - 1)|apply Z.div_unique with (flen c mod 512 - 1)]; lia.
Qed.

Lemma need_new : flen c = bn * 512 → need (flen (c ++ p)) = need (flen c) + (if bn =? 12 then 2 else 1).
Proof.
  intros Hlt. rewrite flen_app. unfold need. assert ((flen c + flen p + 511) / 512 = bn + 1) as -> by (pose proof off_facts; symmetry; apply Z.div_unique with (flen p - 1); lia).
  assert ((flen c + 511) / 512 = bn) as -> by (symmetry; apply Z.div_unique with 511; lia).
  destruct (Z.ltb_spec 12 (bn + 1)), (Z.ltb_spec 12 bn), (Z.eqb_spec bn 12); lia.
Qed.

Lemma bn_or : bn * 512 < flen c ∨ flen c = bn * 512.
Proof. pose proof off_facts. lia. Qed.

Lemma faddr_zero : faddr V x bn = 0 ↔ flen c = bn * 512.
Proof.
  pose proof (f_map _ _ _ _ Hok i x c bn Hx Hc ltac:(exact (bn_range c Hbn))) as Hm. pose proof bn_or. destruct (decide (faddr V x bn = 0)); [|lia].
  split; [|done]. intros _. destruct (decide (bn * 512 < flen c)); [tauto|lia].
Qed.

Lemma put_sect W b k : (∀ k, length (W k) = BSIZE) → length (put W b k) = BSIZE.
Proof.
  intros HW. unfold put. destruct (decide (k = b)) as [->|]; [|by rewrite fn_lookup_insert_ne].
  rewrite fn_lookup_insert, length_blit; [done|]. rewrite HW, BSIZE_val. pose proof off_facts. unfold flen in *. lia.
Qed.

Lemma put_faddr W y b n : (i_addrs y !!! 12%nat ≠ 0 → b ≠ i_addrs y !!! 12%nat) → faddr (put W b) y n = faddr W y n.
Proof.
  intros Hne. unfold faddr. case_match; [done|]. destruct (Z.eqb_spec (i_addrs y !!! 12%nat) 0); [done|].
  unfold put. rewrite fn_lookup_insert_ne; [done|]. by apply Hne.
Qed.

(** The last block is there already. *)
Lemma extend_old : faddr V x bn ≠ 0 → extended V fb x c p (put V (faddr V x bn)) fb x (faddr V x bn).
Proof.
  intros H0. set (b := faddr V x bn). pose proof (bn_range c Hbn) as Hr. fold bn in Hr.
  assert (Hind : i_addrs x !!! 12%nat ≠ 0 → b ≠ i_addrs x !!! 12%nat).
  { intros Hi E. destruct (f_inj _ _ _ _ Hok i i x x (Some bn) None Hx Hx Hr I H0 E) as [_ ?]. done. }
  split; fold bn.
  - by apply (f_addrs _ _ _ _ Hok i).
  - split; [|intros n Hn _]; by apply put_faddr.
  - left. done.
  - by left.
  - rewrite (f_ind _ _ _ _ Hok i x c Hx Hc), flen_app. assert (bn * 512 < flen c) by (by apply (f_map _ _ _ _ Hok i x c bn Hx Hc Hr)).
    pose proof off_facts. lia.
  - unfold put. by rewrite fn_lookup_insert.
  - intros k Hk _. unfold put. by rewrite fn_lookup_insert_ne.
  - intros k. apply put_sect, Hok.
  - pose proof (f_fb _ _ _ _ Hok). lia.
Qed.

(** A new direct block. *)
Lemma extend_direct : faddr V x bn = 0 → bn < NDIRECT →
  extended V fb x c p (put V fb) (fb + 1) (set_iaddrs (<[Z.to_nat bn := fb]> (i_addrs x)) x) fb.
Proof.
  intros H0 Hd. pose proof (proj1 faddr_zero H0) as Hl. pose proof (bn_range c Hbn) as Hr. fold bn in Hr. unfold NDIRECT in Hd.
  pose proof (f_addrs _ _ _ _ Hok i x Hx) as H13. pose proof (need_new Hl) as Hn. rewrite (proj2 (Z.eqb_neq bn 12)) in Hn by lia.
  pose proof (f_ind _ _ _ _ Hok i x c Hx Hc) as Hi. pose proof (f_fb _ _ _ _ Hok).
  assert (E12 : <[Z.to_nat bn := fb]> (i_addrs x) !!! 12%nat = i_addrs x !!! 12%nat) by (apply list_lookup_total_insert_ne; lia).
  split; fold bn; cbn [i_addrs set_iaddrs]; rewrite ?E12.
  - by rewrite length_insert.
  - apply faddr_direct; [done|unfold NDIRECT; lia|]. intros Hnz. apply Hi in Hnz. lia.
  - right. split; [done|lia].
  - by left.
  - rewrite Hi, flen_app. pose proof off_facts. lia.
  - unfold put. by rewrite fn_lookup_insert.
  - intros k Hk _. unfold put. by rewrite fn_lookup_insert_ne.
  - intros k. apply put_sect, Hok.
  - lia.
Qed.

Let kslot : nat := (4 * Z.to_nat (bn - NDIRECT))%nat.
Let link (a b : Z) : Z → list byte := <[a := st 4 kslot b (V a)]> V.

Lemma kslot_fits a b : NDIRECT ≤ bn → ∀ k, length (link a b k) = BSIZE.
Proof.
  intros Hd k. pose proof (bn_range c Hbn) as Hr. fold bn in Hr. rewrite MAXFILE_val in Hr. unfold link. destruct (decide (k = a)) as [->|].
  - rewrite fn_lookup_insert, length_st; [apply Hok|]. rewrite (f_sect _ _ _ _ Hok), BSIZE_val. unfold kslot, NDIRECT in *. lia.
  - rewrite fn_lookup_insert_ne by done. apply Hok.
Qed.

(** A new block in the indirect block. *)
Lemma extend_ind a : faddr V x bn = 0 → NDIRECT ≤ bn → i_addrs x !!! 12%nat = a → a ≠ 0 →
  extended V fb x c p (put (link a fb) fb) (fb + 1) x fb.
Proof.
  intros H0 Hd Ea Ha. pose proof (proj1 faddr_zero H0) as Hl. pose proof (bn_range c Hbn) as Hr. fold bn in Hr.
  pose proof (f_ind _ _ _ _ Hok i x c Hx Hc) as Hi. pose proof (need_new Hl) as Hn. assert (Hi' : 12 * 512 < flen c) by (apply Hi; congruence). rewrite (proj2 (Z.eqb_neq bn 12)) in Hn by lia.
  pose proof (f_fb _ _ _ _ Hok) as Hfb. assert (Hab : a < fb) by (destruct (f_range _ _ _ _ Hok i x None Hx I) as [E|E]; cbn [paddr] in E; lia).
  split; fold bn; rewrite ?Ea.
  - by apply (f_addrs _ _ _ _ Hok i).
  - apply faddr_indirect; rewrite ?Ea; [done|done|apply Hok|pose proof nmeta_val; unfold FSSIZE in *; lia|].
    unfold put. rewrite fn_lookup_insert_ne by lia. unfold link. by rewrite fn_lookup_insert.
  - right. split; [done|lia].
  - by left.
  - rewrite flen_app. rewrite Ea in Hi. split; [|done]. intros _. apply Hi in Ha. lia.
  - unfold put. rewrite fn_lookup_insert. unfold link. by rewrite fn_lookup_insert_ne by lia.
  - intros k Hk Hka. unfold put. rewrite fn_lookup_insert_ne by done. unfold link. by rewrite fn_lookup_insert_ne.
  - intros k. apply put_sect. by apply kslot_fits.
  - lia.
Qed.

(** The first block of the indirect block, with the indirect block itself. *)
Lemma extend_first : faddr V x bn = 0 → NDIRECT ≤ bn → i_addrs x !!! 12%nat = 0 →
  extended V fb x c p (put (link fb (fb + 1)) (fb + 1)) (fb + 2) (set_iaddrs (<[12%nat := fb]> (i_addrs x)) x) (fb + 1).
Proof.
  intros H0 Hd Ea. pose proof (proj1 faddr_zero H0) as Hl. pose proof (bn_range c Hbn) as Hr. fold bn in Hr. unfold NDIRECT in Hd.
  pose proof (f_ind _ _ _ _ Hok i x c Hx Hc) as Hi. assert (E12 : bn = 12) by (destruct (decide (12 * 512 < flen c)) as [?%Hi|]; [done|lia]).
  pose proof (need_new Hl) as Hn. rewrite E12 in Hn. cbn [Z.eqb Pos.eqb] in Hn.
  pose proof (f_fb _ _ _ _ Hok) as Hfb. pose proof (f_addrs _ _ _ _ Hok i x Hx) as H13. pose proof nmeta_val as Hnm.
  set (x' := set_iaddrs _ x). assert (Ea' : i_addrs x' !!! 12%nat = fb) by (cbn; by rewrite list_lookup_total_insert_eq by lia).
  assert (Hz : V fb = zeroes) by (apply (f_free _ _ _ _ Hok); lia).
  assert (Hsame : ∀ n, 0 ≤ n < MAXFILE → faddr V x' n = faddr V x n).
  { intros n Hnr. unfold faddr. rewrite Ea, Ea'. destruct (Z.ltb_spec n NDIRECT) as [Hd'|Hd']; [cbn; unfold NDIRECT in *; by rewrite list_lookup_total_insert_ne by lia|].
    rewrite (proj2 (Z.eqb_neq fb 0)) by lia. cbn [Z.eqb]. rewrite Hz. apply ld_zeroes. }
  split; fold bn; rewrite ?Ea'.
  - cbn. by rewrite length_insert.
  - assert (Hm : mapped_at V x' (put (link fb (fb + 1)) (fb + 1)) x' bn (fb + 1)).
    { apply faddr_indirect; rewrite ?Ea'; [done|lia|apply Hok|pose proof nmeta_val; unfold FSSIZE in *; lia|].
      unfold put. rewrite fn_lookup_insert_ne by lia. unfold link. by rewrite fn_lookup_insert. }
    destruct Hm as [Hm1 Hm2]. split; [done|]. intros n Hnr Hne. rewrite Hm2 by done. by apply Hsame.
  - right. split; [done|lia].
  - right. split; [done|lia].
  - rewrite flen_app. lia.
  - unfold put. rewrite fn_lookup_insert. unfold link. by rewrite fn_lookup_insert_ne by lia.
  - intros k Hk Hka. unfold put. rewrite fn_lookup_insert_ne by done. unfold link. by rewrite fn_lookup_insert_ne.
  - intros k. apply put_sect. by apply kslot_fits.
  - lia.
Qed.
End place.

Lemma need_mono a b : 0 ≤ a ≤ b → need a ≤ need b.
Proof.
  intros H. unfold need. assert ((a + 511) / 512 ≤ (b + 511) / 512) by (apply Z.div_le_mono; lia).
  destruct (Z.ltb_spec 12 ((a + 511) / 512)), (Z.ltb_spec 12 ((b + 511) / 512)); lia.
Qed.

(** ** Appending *)

Lemma xint_small z : 0 ≤ z < 2 ^ 32 → xint z = z.
Proof. intros Hz. unfold xint. rewrite le_val_bytes4. by apply u32_small. Qed.

Lemma wp_next_block {A} (k : Z → M mkst A) Q s :
  0 ≤ mk_freeblock s < FSSIZE → wp (k (mk_freeblock s)) Q (mk_set_freeblock (mk_freeblock s + 1) s) → wp (next_block ≫= k) Q s.
Proof.
  intros Hr H. unfold next_block. apply wp_bind, wp_getS, wp_modify. rewrite u32_small by (unfold FSSIZE in Hr; lia). by apply wp_ret.
Qed.

Lemma wp_rsect {A} sec (k : list byte → M mkst A) Q s :
  sec < mk_len s → wp (k (mk_img s sec)) Q s → wp (rsect sec ≫= k) Q s.
Proof. intros Hl H. unfold rsect. apply wp_bind, wp_getS. rewrite (proj2 (Z.ltb_lt _ _) Hl). by apply wp_ret. Qed.

(** The image is complete, and the globals apart from [freeblock] are as in [s]. *)
Definition same_but_img (s s' : mkst) : Prop :=
  mk_len s' = FSSIZE ∧ mk_sb s' = mk_sb s ∧ mk_freeinode s' = mk_freeinode s ∧ ∀ k, k < nmeta → mk_img s' k = mk_img s k.

Section append.
Variables (xs : list inode) (cs : list (list byte)) (i : nat) (x : inode) (c p : list byte).
Hypothesis (Hx : xs !! i = Some x) (Hc : cs !! i = Some c).
Hypothesis Hp : 0 < flen p ∧ flen c mod 512 + flen p ≤ 512.
Hypothesis Hbn : flen c / 512 < MAXFILE.

Definition block_post (s : mkst) (r : inode * Z) (s1 : mkst) : Prop :=
  let '(x', b) := r in
  same_but_img s s1 ∧ nmeta ≤ b < FSSIZE ∧ (∃ a, x' = set_iaddrs a x) ∧
  mk_freeblock s1 = mk_freeblock s + (need (flen (c ++ p)) - need (flen c)) ∧
  extended (mk_img s) (mk_freeblock s) x c p
    (<[b := blit (Z.to_nat (flen c mod 512)) p (mk_img s1 b)]> (mk_img s1)) (mk_freeblock s1) x' b.

Variable s : mkst.
Hypothesis Hok : files_ok (mk_img s) (mk_freeblock s) xs cs.
Hypothesis Hlen : mk_len s = FSSIZE.
Hypothesis Hfit : mk_freeblock s + (need (flen (c ++ p)) - need (flen c)) ≤ FSSIZE.

Let V := mk_img s.
Let fb := mk_freeblock s.
Let bn := flen c / 512.

Lemma append_facts :
  0 ≤ bn < MAXFILE ∧ 59 ≤ fb ≤ FSSIZE ∧ FSSIZE = 1000 ∧ (∀ k, place_ok k → xint (paddr V x k) = paddr V x k ∧ paddr V x k < FSSIZE) ∧
  (faddr V x bn = 0 ↔ flen c = bn * 512) ∧ length (i_addrs x) = 13%nat.
Proof.
  pose proof (f_fb _ _ _ _ Hok) as Hfb. pose proof nmeta_val as Hnm.
  split_and!; [apply (bn_range c Hbn)..|unfold fb; lia|unfold fb; lia|done| |apply (faddr_zero V fb xs cs Hok i x c p Hx Hc Hp Hbn)|by apply (f_addrs _ _ _ _ Hok i)].
  intros k Hk. destruct (f_range _ _ _ _ Hok i x k Hx Hk) as [E|E]; fold V fb in E, Hfb; unfold FSSIZE in *; (split; [apply xint_small|]; lia).
Qed.

Lemma iappend_direct : bn < NDIRECT → wp (iappend_block x bn) (block_post s) s.
Proof.
  intros Hd. destruct append_facts as (Hr & Hfb & HF & Hpa & Hz & H13). unfold iappend_block. rewrite (proj2 (Z.ltb_lt _ _) Hd).
  assert (Ef : i_addrs x !!! Z.to_nat bn = faddr V x bn) by (unfold faddr; by rewrite (proj2 (Z.ltb_lt _ _) Hd)).
  destruct (Hpa (Some bn) Hr) as [Ex Hlt]. cbn [paddr] in Ex, Hlt. rewrite Ef, Ex. destruct (Z.eqb_spec (faddr V x bn) 0) as [E|E].
  - pose proof (need_new c p Hp (proj1 Hz E)) as Hn. fold bn in Hn. rewrite (proj2 (Z.eqb_neq bn 12)) in Hn by (unfold NDIRECT in *; lia).
    apply wp_bind. apply wp_next_block; [fold fb in Hfit |- *; lia|]. fold fb. apply wp_ret. apply wp_ret. rewrite xint_small by lia.
    cbn [i_addrs set_iaddrs]. rewrite list_lookup_total_insert_eq by (rewrite H13; unfold NDIRECT in *; lia). rewrite xint_small by lia. fold fb in Hfit.
    split_and!; [done|unfold fb in *; pose proof nmeta_val; lia|lia|by eexists|cbn; fold fb; lia|]. cbn [mk_img mk_freeblock mk_set_freeblock]. fold V fb.
    apply (extend_direct V fb xs cs Hok i x c p Hx Hc Hp Hbn); [lia|done|done].
  - assert (Hl : bn * 512 < flen c) by (by apply (f_map _ _ _ _ Hok i x c bn Hx Hc Hr)).
    apply wp_ret_bind, wp_ret. rewrite Ef, Ex.
    destruct (f_range _ _ _ _ Hok i x (Some bn) Hx Hr) as [?|Hb]; [done|]. cbn [paddr] in Hb. fold V in Hb.
    split_and!; [done|lia|lia|exists (i_addrs x); by destruct x|rewrite (need_old c p Hp Hl); lia|]. by apply (extend_old V fb xs cs Hok i x c p Hx Hc Hp Hbn).
Qed.

Lemma iappend_indirect : NDIRECT ≤ bn → wp (iappend_block x bn) (block_post s) s.
Proof.
  intros Hd. destruct append_facts as (Hr & Hfb & HF & Hpa & Hz & H13). unfold iappend_block. rewrite (proj2 (Z.ltb_ge _ _) Hd).
  pose proof (f_ind _ _ _ _ Hok i x c Hx Hc) as Hi. pose proof nmeta_val as Hnm. fold fb in Hfit.
  destruct (Hpa None I) as [Ea Ha]. cbn [paddr] in Ea, Ha. rewrite Ea. set (a := i_addrs x !!! 12%nat) in *.
  destruct (Hpa (Some bn) Hr) as [Ex Hlt]. cbn [paddr] in Ex, Hlt. destruct (Z.eqb_spec a 0) as [E0|E0].
  - assert (Ef : faddr V x bn = 0) by (unfold faddr; rewrite (proj2 (Z.ltb_ge _ _) Hd); fold a; by rewrite E0).
    assert (E12 : bn = 12) by (apply Hz in Ef; destruct (decide (12 * 512 < flen c)) as [?%Hi|]; [done|unfold NDIRECT in Hd; lia]).
    pose proof (need_new c p Hp (proj1 Hz Ef)) as Hn. fold bn in Hn. rewrite E12 in Hn. cbn [Z.eqb Pos.eqb] in Hn.
    apply wp_bind. apply wp_next_block; [fold fb; lia|]. fold fb. apply wp_ret. rewrite xint_small by lia. cbn [i_addrs set_iaddrs].
    rewrite list_lookup_total_insert_eq by lia. rewrite xint_small by lia. apply wp_rsect; [cbn; lia|]. cbn [mk_img mk_set_freeblock]. fold V.
    rewrite (f_free _ _ _ _ Hok) by (fold fb; lia). rewrite ld_zeroes. cbn [Z.eqb].
    apply wp_bind. apply wp_next_block; [cbn; fold fb; lia|]. cbn [mk_freeblock mk_set_freeblock]. apply wp_modify, wp_ret, wp_ret.
    rewrite (xint_small (fb + 1)) by lia. rewrite ld_st_eq by (unfold zeroes; rewrite length_replicate, BSIZE_val; unfold NDIRECT in *; lia).
    change ((fb + 1) mod 256 ^ Z.of_nat 4) with (u32 (fb + 1)). rewrite u32_small, xint_small by lia.
    split; [split_and!; cbn; [rewrite Hlen; lia|done|done|]; intros k Hk; by rewrite fn_lookup_insert_ne by lia|].
    split; [lia|]. split; [by eexists|]. split; [cbn; fold fb; lia|]. cbn [mk_img mk_freeblock mk_set_freeblock]. fold V fb.
    rewrite <-(f_free _ _ _ _ Hok fb) by (fold fb; lia). replace (fb + 1 + 1) with (fb + 2) by lia. 
    apply (extend_first V fb xs cs Hok i x c p Hx Hc Hp Hbn); [lia|done|done|done].
  - destruct (f_range _ _ _ _ Hok i x None Hx I) as [?|Har]; [done|]. cbn [paddr] in Har. fold a fb in Har. cbv iota.
    assert (Ef : ld 4 (4 * Z.to_nat (bn - NDIRECT)) (V a) = faddr V x bn) by (unfold faddr; rewrite (proj2 (Z.ltb_ge _ _) Hd); fold a; by rewrite (proj2 (Z.eqb_neq _ _) E0)).
    apply wp_ret_bind. fold a. rewrite Ea. apply wp_rsect; [lia|]. fold V. rewrite Ef. destruct (Z.eqb_spec (faddr V x bn) 0) as [E|E].
    + assert (Hi' : 12 * 512 < flen c) by (by apply Hi). pose proof (proj1 Hz E) as Hl.
      pose proof (need_new c p Hp Hl) as Hn. fold bn in Hn. rewrite (proj2 (Z.eqb_neq bn 12)) in Hn by lia.
      apply wp_bind. apply wp_next_block; [fold fb; lia|]. fold fb. apply wp_modify, wp_ret, wp_ret. rewrite (xint_small fb) by lia.
      rewrite ld_st_eq by (rewrite (f_sect _ _ _ _ Hok), BSIZE_val; rewrite MAXFILE_val in Hr; unfold NDIRECT in *; lia).
      change (fb mod 256 ^ Z.of_nat 4) with (u32 fb). rewrite u32_small, xint_small by lia.
      split; [split_and!; cbn; [rewrite Hlen; lia|done|done|]; intros k Hk; by rewrite fn_lookup_insert_ne by lia|].
      split; [lia|]. split; [exists (i_addrs x); by destruct x|]. split; [cbn; fold fb; lia|]. cbn [mk_img mk_freeblock mk_set_freeblock]. fold V fb.
      apply (extend_ind V fb xs cs Hok i x c p Hx Hc Hp Hbn); [lia|done|done|done|done].
    + assert (Hl : bn * 512 < flen c) by (by apply (f_map _ _ _ _ Hok i x c bn Hx Hc Hr)).
      apply wp_ret_bind, wp_ret. rewrite Ef, Ex.
      destruct (f_range _ _ _ _ Hok i x (Some bn) Hx Hr) as [?|Hb]; [done|]. cbn [paddr] in Hb. fold V in Hb.
      split_and!; [done|lia|lia|exists (i_addrs x); by destruct x|rewrite (need_old c p Hp Hl); lia|]. by apply (extend_old V fb xs cs Hok i x c p Hx Hc Hp Hbn).
Qed.
End append.

Lemma iappend_block_spec xs cs i x c p s :
  xs !! i = Some x → cs !! i = Some c → 0 < flen p ∧ flen c mod 512 + flen p ≤ 512 → flen c / 512 < MAXFILE →
  files_ok (mk_img s) (mk_freeblock s) xs cs → mk_len s = FSSIZE → mk_freeblock s + (need (flen (c ++ p)) - need (flen c)) ≤ FSSIZE →
  wp (iappend_block x (flen c / 512)) (block_post x c p s) s.
Proof.
  intros. destruct (decide (flen c / 512 < NDIRECT)); [by eapply iappend_direct|]. eapply iappend_indirect; try done. lia.
Qed.

Lemma same_trans s s1 s2 : same_but_img s s1 → same_but_img s1 s2 → same_but_img s s2.
Proof. intros (? & H1 & H2 & H3) (? & H4 & H5 & H6). split_and!; [done|congruence|congruence|]. intros k Hk. rewrite H6, H3; done. Qed.

Definition append_post (xs : list inode) (cs : list (list byte)) (i : nat) (x : inode) (c p : list byte) (s : mkst) (r : inode * Z) (s' : mkst) : Prop :=
  let '(x', off) := r in
  off = flen (c ++ p) ∧ same_but_img s s' ∧ (∃ a, x' = set_iaddrs a x) ∧
  files_ok (mk_img s') (mk_freeblock s') (<[i := x']> xs) (<[i := c ++ p]> cs) ∧
  mk_freeblock s' = mk_freeblock s + (need (flen (c ++ p)) - need (flen c)).

Lemma iappend_loop_spec xs cs i x c p s fuel :
  xs !! i = Some x → cs !! i = Some c → flen (c ++ p) ≤ MAXFILE * 512 →
  files_ok (mk_img s) (mk_freeblock s) xs cs → mk_len s = FSSIZE → mk_freeblock s + (need (flen (c ++ p)) - need (flen c)) ≤ FSSIZE →
  (length p < fuel)%nat → wp (iappend_loop x (flen c) p (flen p) fuel) (append_post xs cs i x c p s) s.
Proof.
  revert xs cs x c p s. induction fuel as [|fuel IH]; intros xs cs x c p s Hx Hc Hmax Hok Hlen Hfit Hf; [lia|]. cbn [iappend_loop].
  rewrite flen_app in Hmax. rewrite MAXFILE_val in Hmax. destruct (Z.ltb_spec 0 (flen p)) as [H0|H0].
  2: { assert (p = []) as -> by (destruct p; [done|unfold flen in H0; cbn in H0; lia]). apply wp_ret. unfold append_post.
       rewrite app_nil_r in *. rewrite !list_insert_id by done. split_and!; try done; [by exists (i_addrs x); destruct x|lia]. }
  rewrite BS_val. set (bn := flen c / 512). set (n1 := Z.min _ _). pose proof (Z.div_mod (flen c) 512 ltac:(lia)) as Hd. pose proof (Z.mod_pos_bound (flen c) 512 ltac:(lia)) as Hm.
  assert (Hbn : bn < MAXFILE) by (rewrite MAXFILE_val; unfold bn; lia). rewrite (proj2 (Z.ltb_lt _ _) Hbn). cbn [negb].
  assert (E1 : n1 = Z.min (flen p) (512 - flen c mod 512)) by (unfold n1; rewrite u32_small by lia; fold bn in Hd; lia).
  set (p1 := take (Z.to_nat n1) p). set (p2 := drop (Z.to_nat n1) p).
  assert (Ep : p1 ++ p2 = p) by apply take_drop.
  assert (L1 : flen p1 = n1) by (unfold flen, p1 in *; rewrite length_take; lia). assert (L2 : flen p2 = flen p - n1) by (unfold flen, p2 in *; rewrite length_drop; lia).
  assert (Hn1 : need (flen (c ++ p1)) ≤ need (flen (c ++ p))) by (apply need_mono; rewrite !flen_app; unfold flen in *; lia).
  apply wp_bind. eapply wp_mono; [apply (iappend_block_spec xs cs i x c p1 s); try done; lia|].
  intros [x' b] s1 (Hsame & Hb & [a ->] & Hfb1 & Hext). apply wp_rsect; [destruct Hsame; lia|]. apply wp_modify.
  replace (flen c - bn * 512) with (flen c mod 512) by (fold bn in Hd; lia).
  pose proof (files_extend _ _ _ _ Hok i x c p1 Hx Hc ltac:(lia) Hbn _ _ _ _ Hext) as Hok1.
  rewrite u32_small by (unfold flen in *; lia). rewrite <-L1, <-flen_app. replace (flen p - flen p1) with (flen p2) by lia.
  set (s2 := mkMk _ _ _ _ _). assert (Hs2 : same_but_img s s2).
  { destruct Hsame as (L & B & C & D). split_and!; cbn; [lia|done|done|]. intros k Hk. rewrite fn_lookup_insert_ne by lia. by apply D. }
  eapply wp_mono; [apply (IH (<[i := set_iaddrs a x]> xs) (<[i := c ++ p1]> cs) (set_iaddrs a x) (c ++ p1) p2 s2)|].
  - apply list_lookup_insert_eq. by eapply lookup_lt_Some.
  - apply list_lookup_insert_eq. by eapply lookup_lt_Some.
  - rewrite <-app_assoc, Ep, flen_app, MAXFILE_val. lia.
  - exact Hok1.
  - apply Hs2.
  - cbn. rewrite <-app_assoc, Ep. lia.
  - unfold flen in *. lia.
  - intros [x'' off] s3 (-> & Hs3 & [a' ->] & Hok3 & Hfb3). cbn in Hfb3. unfold append_post. rewrite <-app_assoc, Ep in *. rewrite !list_insert_insert_eq in Hok3.
    split_and!; [done|by eapply same_trans|by exists a'|done|lia].
Qed.
