(* ===== verification/MkfsCorrect.v ===== *)
(** * mkfs makes a file system (src/mkfs.c)

    The invariant of the image over the steps of [main], and the theorem about
    the finished image: its super block, its inodes, the bytes of its files, the
    root directory and the bitmap, all as the kernel's code reads them. *)

From S2P Require Import Prelude Dll Sleeplock Bio Memide FsLayout Log LogCrash LogProtocol Tx CString Fs FsAlloc FsInode FsFile Mkfs MkfsImage.
Import (notations) Corelib.Init.Byte.

(** ** Inodes of the image *)

(** The number of the inode at index [i]. *)
Definition inum_of (i : nat) : Z := Z.of_nat i + 1.

Definition fresh_inode (inum type size : Z) (addrs : list Z) : inode :=
  mkInode 0 inum 0 initsleeplock 0 type 0 0 1 size addrs.

(** The dinode [inum] on the image. *)
Definition disk_inode (V : Z → list byte) (inum : Z) : inode := dinode_read inum (V (IBLOCK inum new_sb)) (din0 inum).

Record image (s : mkst) (ts : list Z) (xs : list inode) (cs : list (list byte)) : Prop := mkImage {
  im_files : files_ok (mk_img s) (mk_freeblock s) xs cs;
  im_disk i x : xs !! i = Some x → disk_inode (mk_img s) (inum_of i) = x;
  im_meta i x c : xs !! i = Some x → cs !! i = Some c → ∃ t, ts !! i = Some t ∧ x = fresh_inode (inum_of i) t (flen c) (i_addrs x);
  im_types t : t ∈ ts → 0 < t < 3;
  im_tlen : length ts = length cs;
  im_free inum : mk_freeinode s ≤ inum < NINODES → dip_type inum (mk_img s (IBLOCK inum new_sb)) = 0;
  im_fb : mk_freeblock s = nmeta + needs cs;
  im_fi : mk_freeinode s = Z.of_nat (length cs) + 1 ∧ mk_freeinode s ≤ NINODES;
  im_len : mk_len s = FSSIZE;
  im_sb : mk_sb s = new_sb;
  im_super : mk_img s 1 = st_words (sb_words new_sb) 0 zeroes;
}.

Lemma IBLOCK_new inum : 0 ≤ inum < NINODES → IBLOCK inum new_sb = inum / 8 + 32 ∧ 32 ≤ IBLOCK inum new_sb < 58.
Proof.
  intros H. unfold NINODES in H. assert (E : IBLOCK inum new_sb = inum / 8 + 32) by (unfold IBLOCK; apply u32_small; change IPB with 8; change (sb_inodestart new_sb) with 32; Z.to_euclidean_division_equations; lia).
  rewrite E. split; [done|]. Z.to_euclidean_division_equations; lia.
Qed.

Lemma inum_range {A} (l : list A) i x fi : l !! i = Some x → fi = Z.of_nat (length l) + 1 ∧ fi ≤ NINODES → 0 ≤ inum_of i < NINODES.
Proof. intros H%lookup_lt_Some Hf. unfold inum_of. lia. Qed.

(** The contents of files do not depend on the blocks below [nmeta]. *)
Lemma files_ok_meta V V' fb xs cs :
  files_ok V fb xs cs → (∀ k, nmeta ≤ k → V' k = V k) → (∀ k, length (V' k) = BSIZE) → files_ok V' fb xs cs.
Proof.
  intros Hok HV HL. pose proof nmeta_val as Hnm.
  assert (Hp : ∀ i x k, xs !! i = Some x → place_ok k → paddr V' x k = paddr V x k).
  { intros i x [n|] Hx Hk; [|done]. cbn [paddr]. unfold faddr. case_match; [done|]. destruct (Z.eqb_spec (i_addrs x !!! 12%nat) 0); [done|].
    destruct (f_range _ _ _ _ Hok i x None Hx I) as [?|Hr]; [done|]. cbn [paddr] in Hr. by rewrite HV by lia. }
  assert (Hf : ∀ i x n, xs !! i = Some x → 0 ≤ n < MAXFILE → faddr V' x n = faddr V x n) by (intros i x n Hx Hn; by apply (Hp i x (Some n))).
  split; try apply Hok; try done.
  - intros i x k Hx Hk. rewrite (Hp i) by done. by apply (f_range _ _ _ _ Hok i).
  - intros i j x y k k' Hx Hy Hk Hk'. rewrite (Hp i x k), (Hp j y k') by done. by apply (f_inj _ _ _ _ Hok).
  - intros i x c n Hx Hc Hn. rewrite (Hf i) by done. by apply (f_map _ _ _ _ Hok i).
  - intros i x c pos Hx Hc Hpos. assert (Hn : 0 ≤ pos / 512 < MAXFILE) by (split; [apply Z.div_pos; lia|apply Z.div_lt_upper_bound; lia]).
    rewrite (Hf i x) by done. intros H0. rewrite <-(f_byte _ _ _ _ Hok i x c pos Hx Hc Hpos H0). unfold fbyte. rewrite BS_val, (Hf i x), HV; [done| |done|done].
    destruct (f_range _ _ _ _ Hok i x (Some (pos / 512)) Hx Hn) as [?|Hr]; [done|]. cbn [paddr] in Hr. lia.
  - intros b Hb. pose proof (f_fb _ _ _ _ Hok). rewrite HV by lia. by apply (f_free _ _ _ _ Hok).
Qed.

(** ** Writing an inode *)

Lemma fresh_fits inum t size addrs :
  0 < t < 3 → 0 ≤ size < 2 ^ 32 → length addrs = 13%nat → (∀ a, a ∈ addrs → 0 ≤ a < 2 ^ 32) → inode_fits (fresh_inode inum t size addrs).
Proof. intros. split; cbn; try lia. done. Qed.

(** The image after [winode inum x]. *)
Definition wimg (V : Z → list byte) (x : inode) : Z → list byte := <[IBLOCK (i_inum x) new_sb := dinode_write x (V (IBLOCK (i_inum x) new_sb))]> V.

Lemma wimg_disk V inum t size addrs j :
  0 ≤ inum < NINODES → 0 ≤ j < NINODES → inode_fits (fresh_inode inum t size addrs) → (∀ k, length (V k) = BSIZE) →
  disk_inode (wimg V (fresh_inode inum t size addrs)) j = if decide (j = inum) then fresh_inode inum t size addrs else disk_inode V j.
Proof.
  intros Hi Hj Hf HL. destruct (IBLOCK_new inum Hi) as [Ei _], (IBLOCK_new j Hj) as [Ej _]. unfold disk_inode, wimg. cbn [i_inum fresh_inode]. case_decide as D.
  - subst j. rewrite fn_lookup_insert. apply (dinode_read_write (fresh_inode inum t size addrs)); [done|apply HL].
  - destruct (decide (IBLOCK j new_sb = IBLOCK inum new_sb)) as [E|E]; [|by rewrite fn_lookup_insert_ne].
    rewrite E, fn_lookup_insert. apply dinode_read_write_ne; [done|apply HL|]. cbn [i_inum fresh_inode]. change IPB with 8.
    intros Em. apply D. rewrite Ei, Ej in E. pose proof (Z.div_mod inum 8 ltac:(lia)). pose proof (Z.div_mod j 8 ltac:(lia)). lia.
Qed.

Lemma disk_type V inum : dip_type inum (V (IBLOCK inum new_sb)) = i_type (disk_inode V inum).
Proof. done. Qed.

Lemma wimg_sect V inum t size addrs :
  0 ≤ inum < NINODES → inode_fits (fresh_inode inum t size addrs) → (∀ k, length (V k) = BSIZE) →
  (∀ k, length (wimg V (fresh_inode inum t size addrs) k) = BSIZE) ∧
  (∀ k, k < 32 ∨ 58 ≤ k → wimg V (fresh_inode inum t size addrs) k = V k).
Proof.
  intros Hi Hf HL. destruct (IBLOCK_new inum Hi) as [_ Hr]. unfold wimg. cbn [i_inum fresh_inode]. split; intros k.
  - destruct (decide (k = IBLOCK inum new_sb)) as [->|]; [rewrite fn_lookup_insert; by apply length_dinode_write|by rewrite fn_lookup_insert_ne].
  - intros Hk. rewrite fn_lookup_insert_ne by lia. done.
Qed.

(** [winode] on a complete image *)
Lemma winode_run inum x s :
  0 ≤ inum < NINODES → mk_sb s = new_sb → mk_len s = FSSIZE → i_inum x = inum →
  winode inum x s = Ok tt (mkMk (wimg (mk_img s) x) FSSIZE new_sb (mk_freeinode s) (mk_freeblock s)).
Proof.
  intros Hi Hsb Hl Ex. destruct (IBLOCK_new inum Hi) as [_ Hr]. unfold winode. rewrite (bind_Ok _ _ _ s s) by done. rewrite Hsb.
  rewrite (bind_Ok _ _ _ (mk_img s (IBLOCK inum new_sb)) s) by (unfold rsect; rewrite (bind_Ok _ _ _ s s) by done; by rewrite Hl, (proj2 (Z.ltb_lt _ _)) by (unfold FSSIZE; lia)).
  unfold wsect, modify. rewrite Hsb, Hl, Z.max_l by (unfold FSSIZE; lia). destruct x; cbn in Ex. subst. done.
Qed.

(** [files_ok] is about the block addresses of the inodes only. *)
Lemma files_ok_addrs V fb xs xs' cs : i_addrs <$> xs = i_addrs <$> xs' → files_ok V fb xs cs → files_ok V fb xs' cs.
Proof.
  intros E Hok.
  assert (Hl : ∀ i x', xs' !! i = Some x' → ∃ x, xs !! i = Some x ∧ i_addrs x = i_addrs x').
  { intros i x' Hx. assert (H : (i_addrs <$> xs) !! i = Some (i_addrs x')) by (rewrite E, list_lookup_fmap, Hx; done).
    rewrite list_lookup_fmap in H. destruct (xs !! i) as [x|]; [|done]. exists x. by injection H as ->. }
  assert (Hf : ∀ x x' n, i_addrs x = i_addrs x' → faddr V x' n = faddr V x n) by (intros x x' n Ea; unfold faddr; by rewrite Ea).
  assert (Hp : ∀ x x' k, i_addrs x = i_addrs x' → paddr V x' k = paddr V x k) by (intros x x' [n|] Ea; [by apply Hf|cbn; by rewrite Ea]).
  split; try apply Hok.
  - rewrite <-(length_fmap i_addrs xs'), <-E, length_fmap. apply Hok.
  - intros i x' (x & Hx & <-)%Hl. by apply (f_addrs _ _ _ _ Hok i).
  - intros i x' k (x & Hx & Ea)%Hl Hk. rewrite (Hp x x' k Ea). by apply (f_range _ _ _ _ Hok i).
  - intros i j x' y' k k' (x & Hx & Ea)%Hl (y & Hy & Eb)%Hl Hk Hk'. rewrite (Hp x x' k Ea), (Hp y y' k' Eb). by apply (f_inj _ _ _ _ Hok).
  - intros i x' c n (x & Hx & Ea)%Hl Hc Hn. rewrite (Hf x x' n Ea). by apply (f_map _ _ _ _ Hok i).
  - intros i x' c (x & Hx & <-)%Hl Hc. by apply (f_ind _ _ _ _ Hok i).
  - intros i x' c pos (x & Hx & Ea)%Hl Hc Hpos. rewrite (Hf x x' _ Ea). intros H0. rewrite <-(f_byte _ _ _ _ Hok i x c pos Hx Hc Hpos H0).
    unfold fbyte. by rewrite (Hf x x' _ Ea).
Qed.

Lemma addrs_range V fb xs cs i x : files_ok V fb xs cs → xs !! i = Some x → ∀ a, a ∈ i_addrs x → 0 ≤ a < 2 ^ 32.
Proof.
  intros Hok Hx a (k & Hk)%list_elem_of_lookup. pose proof (f_addrs _ _ _ _ Hok i x Hx) as H13. pose proof (lookup_lt_Some _ _ _ Hk) as Hlt.
  pose proof (f_fb _ _ _ _ Hok) as Hfb. pose proof nmeta_val. unfold FSSIZE in Hfb. apply list_lookup_total_correct in Hk.
  destruct (decide (k = 12%nat)) as [->|Hne]; [destruct (f_range _ _ _ _ Hok i x None Hx I) as [E|E]; cbn [paddr] in E; lia|].
  assert (Hb : 0 ≤ Z.of_nat k < MAXFILE) by (rewrite MAXFILE_val; lia). destruct (f_range _ _ _ _ Hok i x (Some (Z.of_nat k)) Hx Hb) as [E|E];
    cbn [paddr] in E; unfold faddr in E; rewrite (proj2 (Z.ltb_lt _ _)) in E by (unfold NDIRECT; lia); rewrite Nat2Z.id in E; lia.
Qed.

Lemma needs_cons c cs : needs (c :: cs) = need (flen c) + needs cs.
Proof. done. Qed.

Lemma needs_insert cs i c c' : cs !! i = Some c → needs (<[i := c']> cs) = needs cs + (need (flen c') - need (flen c)).
Proof.
  revert i. induction cs as [|d cs IH]; intros [|i] H; [done|done| |].
  - injection H as ->. change (<[0%nat := c']> (c :: cs)) with (c' :: cs). rewrite !needs_cons. lia.
  - change (<[S i := c']> (d :: cs)) with (d :: <[i := c']> cs). rewrite !needs_cons, (IH i) by done. lia.
Qed.

Lemma needs_app cs ds : needs (cs ++ ds) = needs cs + needs ds.
Proof. induction cs as [|c cs IH]; [done|]. cbn [app]. rewrite !needs_cons, IH. lia. Qed.

Lemma rinode_run inum s x :
  0 ≤ inum < NINODES → mk_sb s = new_sb → mk_len s = FSSIZE → disk_inode (mk_img s) inum = x → rinode inum s = Ok x s.
Proof.
  intros Hi Hsb Hl <-. destruct (IBLOCK_new inum Hi) as [_ Hr]. unfold rinode. rewrite (bind_Ok _ _ _ s s) by done. rewrite Hsb.
  rewrite (bind_Ok _ _ _ (mk_img s (IBLOCK inum new_sb)) s) by (unfold rsect; rewrite (bind_Ok _ _ _ s s) by done; by rewrite Hl, (proj2 (Z.ltb_lt _ _)) by (unfold FSSIZE; lia)).
  done.
Qed.

(** ** The operations keep the image *)

Lemma iappend_spec s ts xs cs i c p :
  image s ts xs cs → cs !! i = Some c → flen (c ++ p) ≤ MAXFILE * 512 → nmeta + needs (<[i := c ++ p]> cs) ≤ FSSIZE →
  wp (iappend (inum_of i) p (flen p)) (λ _ s', ∃ xs', image s' ts xs' (<[i := c ++ p]> cs)) s.
Proof.
  intros [Hok Hdisk Hmeta Hty Htl Hfree Hfb Hfi Hlen Hsb Hsup] Hc Hmax Hfit. rewrite (needs_insert _ _ _ _ Hc) in Hfit.
  assert (Hin : 0 ≤ inum_of i < NINODES) by (by eapply inum_range).
  destruct (xs !! i) as [x|] eqn:Hx; [|apply lookup_ge_None in Hx; apply lookup_lt_Some in Hc; rewrite (f_len _ _ _ _ Hok) in Hx; lia].
  destruct (Hmeta i x c Hx Hc) as (t & Ht & Ex). assert (Htr : 0 < t < 3) by (by eapply Hty, list_elem_of_lookup_2).
  unfold iappend. apply wp_bind. eapply wp_Ok; [apply (rinode_run _ s x); [done..|by apply Hdisk]|].
  assert (Es : i_size x = flen c) by (rewrite Ex; done). rewrite MAXFILE_val, flen_app in Hmax.
  rewrite Es, xint_small by (unfold flen in *; lia). apply wp_bind.
  eapply wp_mono; [apply (iappend_loop_spec xs cs i x c p s); try done; [rewrite MAXFILE_val, flen_app; lia|lia|unfold flen; lia]|].
  intros [x' off] s1 (-> & (L1 & B1 & C1 & D1) & [a ->] & Hok1 & Hfb1). set (x1 := set_iaddrs a x) in *.
  assert (Hx1 : <[i := x1]> xs !! i = Some x1) by (apply list_lookup_insert_eq; by eapply lookup_lt_Some).
  pose proof (f_addrs _ _ _ _ Hok1 i x1 Hx1) as H13. pose proof (addrs_range _ _ _ _ i x1 Hok1 Hx1) as Har.
  rewrite xint_small by (rewrite flen_app; unfold flen in *; lia). set (n := flen (c ++ p)).
  assert (E2 : set_isize n x1 = fresh_inode (inum_of i) t n a) by (unfold x1; rewrite Ex; done).
  assert (Hfits : inode_fits (fresh_inode (inum_of i) t n a)) by (apply fresh_fits; [done|unfold n; rewrite flen_app; unfold flen in *; lia|done|done]).
  rewrite E2. destruct (wimg_sect (mk_img s1) (inum_of i) t n a Hin Hfits (f_sect _ _ _ _ Hok1)) as [HWl HWk]. pose proof nmeta_val as Hnm.
  eapply wp_Ok; [apply winode_run; [done|congruence|done|done]|]. exists (<[i := fresh_inode (inum_of i) t n a]> xs).
  split; cbn [mk_img mk_freeblock mk_freeinode mk_len mk_sb]; rewrite ?length_insert; try assumption.
  - eapply files_ok_addrs, files_ok_meta; [|exact Hok1| |done]; [by rewrite !list_fmap_insert|]. intros k Hk. apply HWk. lia.
  - intros j y Hy. assert (Hj : 0 ≤ inum_of j < NINODES).
    { eapply inum_range; [exact Hy|]. rewrite length_insert, (f_len _ _ _ _ Hok). done. }
    rewrite (wimg_disk (mk_img s1)); [|done|done|done|apply Hok1]. apply insert_cases in Hy as [[-> ->]|[Hne Hy]]; [by rewrite decide_True|].
    rewrite decide_False by (unfold inum_of; lia). rewrite <-(Hdisk j y Hy). unfold disk_inode. destruct (IBLOCK_new (inum_of j) Hj). by rewrite D1 by lia.
  - intros j y d Hy Hd. apply insert_cases in Hy as [[-> ->]|[Hne Hy]]; apply insert_cases in Hd as [[? ->]|[? Hd]]; try done; [by exists t|by apply Hmeta].
  - intros j Hj. rewrite C1 in Hj. rewrite disk_type, wimg_disk; [|done|lia|done|apply Hok1].
    rewrite decide_False by (apply lookup_lt_Some in Hc; unfold inum_of; lia). rewrite <-disk_type. destruct (IBLOCK_new j ltac:(lia)). rewrite D1 by lia. by apply Hfree.
  - rewrite (needs_insert _ _ _ _ Hc). lia.
  - by rewrite C1.
  - reflexivity.
  - reflexivity.
  - rewrite HWk by lia. by rewrite D1 by lia.
Qed.

Lemma snoc_cases {A} (l : list A) x j y : (l ++ [x]) !! j = Some y → (j = length l ∧ y = x) ∨ l !! j = Some y.
Proof. intros [?|[? ?]]%lookup_app_Some; [by right|]. left. destruct (j - length l)%nat eqn:E; simplify_eq/=. split; [lia|done]. Qed.

Lemma snoc_lt {A B} (l : list A) (k : list B) a b j y z :
  length l = length k → (l ++ [a]) !! j = Some y → (k ++ [b]) !! j = Some z →
  (j = length k ∧ y = a ∧ z = b) ∨ (l !! j = Some y ∧ k !! j = Some z).
Proof.
  intros Hl [[-> ->]|Hy]%snoc_cases [[Hj ->]|Hz]%snoc_cases; [left; by rewrite Hl| | |by right].
  - apply lookup_lt_Some in Hz. lia.
  - apply lookup_lt_Some in Hy. lia.
Qed.

(** A file without blocks. *)
Lemma files_ok_snoc V fb xs cs x :
  files_ok V fb xs cs → i_addrs x = replicate 13 0 → files_ok V fb (xs ++ [x]) (cs ++ [[]]).
Proof.
  intros Hok Ea.
  assert (Hp : ∀ k, place_ok k → paddr V x k = 0).
  { assert (H12 : i_addrs x !!! 12%nat = 0) by (by rewrite Ea). intros [n|] Hk; [|done]. cbn [paddr]. unfold faddr. rewrite H12. destruct (Z.ltb_spec n NDIRECT); [|done].
    rewrite Ea. apply lookup_total_replicate_2. cbn in Hk. unfold NDIRECT in *. lia. }
  split; try apply Hok.
  - rewrite !length_app. by rewrite (f_len _ _ _ _ Hok).
  - intros i y [[-> ->]|Hy]%snoc_cases; [by rewrite Ea|by apply (f_addrs _ _ _ _ Hok i)].
  - intros i y k [[-> ->]|Hy]%snoc_cases Hk; [left; by apply Hp|by apply (f_range _ _ _ _ Hok i)].
  - intros i j y z k k' [[-> ->]|Hy]%snoc_cases [[-> ->]|Hz']%snoc_cases Hk Hk' H0 E.
    + by rewrite Hp in H0.
    + by rewrite Hp in H0.
    + rewrite E, Hp in H0; done.
    + by apply (f_inj _ _ _ _ Hok i j y z).
  - intros i y c n Hy Hc Hn. destruct (snoc_lt xs cs _ _ _ _ _ (f_len _ _ _ _ Hok) Hy Hc) as [(_ & -> & ->)|[? ?]]; [|by apply (f_map _ _ _ _ Hok i)].
    pose proof (Hp (Some n) Hn) as E. cbn [paddr] in E. rewrite E. unfold flen. cbn. lia.
  - intros i y c Hy Hc. destruct (snoc_lt xs cs _ _ _ _ _ (f_len _ _ _ _ Hok) Hy Hc) as [(_ & -> & ->)|[? ?]]; [|by apply (f_ind _ _ _ _ Hok i)].
    pose proof (Hp None I) as E. cbn [paddr] in E. rewrite E. unfold flen. cbn. lia.
  - intros i c [[_ ->]|Hc]%snoc_cases; [unfold flen; cbn [length]; rewrite MAXFILE_val; lia|by apply (f_max _ _ _ _ Hok i)].
  - intros i y c pos Hy Hc Hpos H0. destruct (snoc_lt xs cs _ _ _ _ _ (f_len _ _ _ _ Hok) Hy Hc) as [(_ & -> & ->)|[? ?]]; [|by apply (f_byte _ _ _ _ Hok i)].
    assert (Hn : 0 ≤ pos / 512 < MAXFILE) by (split; [apply Z.div_pos; lia|apply Z.div_lt_upper_bound; lia]).
    pose proof (Hp (Some (pos / 512)) Hn) as E. done.
Qed.

Lemma ialloc_spec s ts xs cs t :
  image s ts xs cs → 0 < t < 3 → Z.of_nat (length cs) + 2 ≤ NINODES →
  wp (ialloc t) (λ r s', r = inum_of (length cs) ∧ ∃ xs', image s' (ts ++ [t]) xs' (cs ++ [[]])) s.
Proof.
  intros [Hok Hdisk Hmeta Hty Htl Hfree Hfb Hfi Hlen Hsb Hsup] Ht Hn. unfold ialloc. apply wp_getS, wp_modify.
  destruct Hfi as [Hfi Hfi']. set (i := length cs) in *. assert (Ei : mk_freeinode s = inum_of i) by done. rewrite Ei.
  assert (Hin : 0 ≤ inum_of i < NINODES) by (unfold inum_of; lia). unfold NINODES in Hn. rewrite u32_small by (unfold inum_of; lia).
  set (x0 := fresh_inode (inum_of i) t 0 (replicate 13 0)).
  assert (Ex : set_isize (xint 0) (set_imeta 0 0 (xshort 1) (set_itype (xshort t) (din0 (inum_of i)))) = x0).
  { unfold x0, fresh_inode, din0, set_isize, set_imeta, set_itype. cbn. f_equal; [|done..]. assert (t = 1 ∨ t = 2) as [->| ->] by lia; done. }
  rewrite Ex. assert (Hfits : inode_fits x0) by (apply fresh_fits; [done|lia|done|]; intros a Ha; apply elem_of_replicate in Ha; lia).
  destruct (wimg_sect (mk_img s) (inum_of i) t 0 (replicate 13 0) Hin Hfits (f_sect _ _ _ _ Hok)) as [HWl HWk]. pose proof nmeta_val as Hnm.
  apply wp_bind. eapply wp_Ok; [apply winode_run; [done|done|done|done]|]. apply wp_ret. split; [done|]. exists (xs ++ [x0]).
  split; cbn [mk_img mk_freeblock mk_freeinode mk_len mk_sb mk_set_freeinode]; rewrite ?length_app; try assumption.
  - apply files_ok_snoc; [|done]. eapply files_ok_meta; [exact Hok| |done]. intros k Hk. apply HWk. lia.
  - intros j y Hy. assert (Hj : 0 ≤ inum_of j < NINODES).
    { apply lookup_lt_Some in Hy. rewrite length_app, (f_len _ _ _ _ Hok) in Hy. cbn in Hy. unfold inum_of, NINODES. fold i in Hy. lia. }
    unfold x0. rewrite (wimg_disk (mk_img s)); [|done|done|done|apply Hok]. apply snoc_cases in Hy as [[-> ->]|Hy].
    + rewrite (f_len _ _ _ _ Hok). by rewrite decide_True.
    + rewrite decide_False; [by apply Hdisk|]. apply lookup_lt_Some in Hy. rewrite (f_len _ _ _ _ Hok) in Hy. unfold inum_of. fold i in Hy. lia.
  - intros j y d Hy Hd. destruct (snoc_lt xs cs _ _ _ _ _ (f_len _ _ _ _ Hok) Hy Hd) as [(-> & -> & ->)|[Hy' Hd']].
    + exists t. split; [|done]. rewrite lookup_app_r by lia. fold i in Htl. by rewrite Htl, Nat.sub_diag.
    + destruct (Hmeta j y d Hy' Hd') as (t' & Ht' & ?). exists t'. split; [by apply lookup_app_l_Some|done].
  - intros t' [?|E%list_elem_of_singleton]%elem_of_app; [by apply Hty|by subst].
  - rewrite Htl. done.
  - intros j Hj. unfold x0. rewrite disk_type, wimg_disk; [|done|unfold inum_of in *; lia|done|apply Hok].
    rewrite decide_False by lia. rewrite <-disk_type. apply Hfree. lia.
  - rewrite needs_app. change (needs [[]]) with 0. lia.
  - unfold inum_of in *. cbn. fold i. unfold NINODES. lia.
  - reflexivity.
  - reflexivity.
  - by rewrite HWk by lia.
Qed.

Lemma need_nonneg n : 0 ≤ n → 0 ≤ need n.
Proof. intros H. unfold need. assert (0 ≤ (n + 511) / 512) by (apply Z.div_pos; lia). destruct (Z.ltb_spec 12 ((n + 511) / 512)); lia. Qed.

Lemma needs_nonneg cs : 0 ≤ needs cs.
Proof. induction cs as [|c cs IH]; [done|]. rewrite needs_cons. pose proof (need_nonneg (flen c) ltac:(unfold flen; lia)). lia. Qed.

Lemma append_file_spec s ts xs cs i c chunks :
  image s ts xs cs → cs !! i = Some c → [] ∉ chunks → flen (c ++ concat chunks) ≤ MAXFILE * 512 →
  nmeta + needs (<[i := c ++ concat chunks]> cs) ≤ FSSIZE →
  wp (append_file (inum_of i) chunks) (λ _ s', ∃ xs', image s' ts xs' (<[i := c ++ concat chunks]> cs)) s.
Proof.
  revert s xs cs c. induction chunks as [|d chunks IH]; intros s xs cs c Him Hc Hne Hmax Hfit; cbn [append_file].
  { apply wp_ret. exists xs. cbn [concat]. rewrite app_nil_r, list_insert_id by done. done. }
  apply not_elem_of_cons in Hne as [Hd Hne]. destruct d as [|b d]; [done|]. set (e := b :: d) in *. cbn [concat] in *.
  rewrite app_assoc in Hmax, Hfit |- *. rewrite (needs_insert _ _ _ _ Hc) in Hfit.
  assert (Hle : 0 ≤ flen (c ++ e) ≤ flen ((c ++ e) ++ concat chunks)) by (rewrite (flen_app (c ++ e)); unfold flen; lia). pose proof (need_mono _ _ Hle) as Hnm.
  apply wp_bind. eapply wp_mono; [apply (iappend_spec s ts xs cs i c e Him Hc); [lia|rewrite (needs_insert _ _ _ _ Hc); lia]|].
  intros [] s1 [xs1 Him1]. assert (Hc1 : <[i := c ++ e]> cs !! i = Some (c ++ e)) by (apply list_lookup_insert_eq; by eapply lookup_lt_Some).
  eapply wp_mono; [apply (IH s1 xs1 _ (c ++ e) Him1 Hc1 Hne Hmax)|].
  - rewrite list_insert_insert_eq, (needs_insert _ _ _ _ Hc). lia.
  - intros [] s2 [xs2 Him2]. exists xs2. by rewrite list_insert_insert_eq in Him2.
Qed.

(** ** The files that are put on the image *)

Abbreviation host_file := (list byte * option (list (list byte)))%type.

(** A host file that can be put on the image. *)
Definition host_ok (f : host_file) : Prop :=
  (slash ∉ f.1) ∧ ∃ chunks, f.2 = Some chunks ∧ ([] ∉ chunks) ∧ flen (concat chunks) ≤ MAXFILE * 512.
Definition content (f : host_file) : list byte := match f.2 with Some chunks => concat chunks | None => [] end.

(** The directory entries of files that get the inodes from [inum] on. *)
Fixpoint dirents (inum : Z) (files : list host_file) : list byte :=
  match files with
  | [] => []
  | f :: files => new_dirent inum (skip_underscore f.1) ++ dirents (inum + 1) files
  end.

Lemma new_dirent_len inum name : flen (new_dirent inum name) = 16.
Proof. unfold flen, new_dirent, mk_dirent. rewrite length_app, length_strncpy_bytes. done. Qed.

Lemma dirents_len inum files : flen (dirents inum files) = 16 * Z.of_nat (length files).
Proof. revert inum. induction files as [|f files IH]; intros inum; [done|]. cbn [dirents length]. rewrite flen_app, new_dirent_len, IH. lia. Qed.

(** A new entry of the root directory. *)
Lemma append_dirent s ts xs root cs inum name :
  image s ts xs (root :: cs) → flen root + 16 ≤ MAXFILE * 512 → nmeta + needs ((root ++ new_dirent inum name) :: cs) ≤ FSSIZE →
  wp (iappend ROOTINO (new_dirent inum name) DIRENT_SIZE) (λ _ s', ∃ xs', image s' ts xs' ((root ++ new_dirent inum name) :: cs)) s.
Proof.
  intros Him Hmax Hfit. assert (E16 : DIRENT_SIZE = flen (new_dirent inum name)) by (by rewrite new_dirent_len). rewrite E16.
  apply (iappend_spec s ts xs (root :: cs) 0%nat root (new_dirent inum name) Him eq_refl); [rewrite flen_app, new_dirent_len; lia|exact Hfit].
Qed.

Lemma insert_last {A} (r u v : A) l : <[S (length l) := v]> (r :: l ++ [u]) = r :: l ++ [v].
Proof. change (r :: <[length l := v]> (l ++ [u]) = r :: l ++ [v]). by rewrite insert_app_r_alt, Nat.sub_diag by lia. Qed.

Lemma add_files_spec s ts xs root cs files :
  image s ts xs (root :: cs) → Forall host_ok files → Z.of_nat (length cs + length files) + 2 ≤ NINODES →
  flen root + 16 * Z.of_nat (length files) ≤ MAXFILE * 512 →
  let cs' := (root ++ dirents (Z.of_nat (length cs) + 2) files) :: cs ++ (content <$> files) in
  nmeta + needs cs' ≤ FSSIZE →
  wp (add_files ROOTINO files) (λ _ s', ∃ xs', image s' (ts ++ replicate (length files) T_FILE) xs' cs') s.
Proof.
  revert s ts xs root cs. induction files as [|[name f] files IH]; intros s ts xs root cs Him Hf Hn Hroot; cbn zeta; intros Hfit; cbn [add_files].
  { apply wp_ret. exists xs. cbn [dirents fmap list_fmap replicate length]. by rewrite !app_nil_r. }
  apply Forall_cons in Hf as [(Hs & chunks & Ef & Hne & Hmax) Hf]. cbn [fst snd] in Hs, Ef. subst f. rewrite decide_False by done.
  cbn [length] in Hn, Hroot. cbn [dirents fmap list_fmap fst] in Hfit |- *. change (content (name, Some chunks)) with (concat chunks) in Hfit |- *.
  set (nm := skip_underscore name) in *. set (inum := Z.of_nat (length cs) + 2) in *.
  rewrite needs_cons, needs_app, needs_cons in Hfit.
  pose proof (needs_nonneg (content <$> files)) as Hn1. pose proof (need_nonneg (flen (concat chunks)) ltac:(unfold flen; lia)) as Hn2.
  assert (Hn3 : need (flen (root ++ new_dirent inum nm)) ≤ need (flen (root ++ new_dirent inum nm ++ dirents (inum + 1) files))).
  { apply need_mono. rewrite !flen_app. unfold flen. lia. }
  apply wp_bind. eapply wp_mono; [apply (ialloc_spec s ts xs (root :: cs) T_FILE Him); [done|cbn [length]; lia]|].
  intros r s1 (-> & xs1 & Him1). assert (Ei : inum_of (length (root :: cs)) = inum) by (unfold inum_of, inum; cbn [length]; lia). rewrite Ei.
  apply wp_bind. eapply wp_mono; [apply (append_dirent s1 _ xs1 root (cs ++ [[]]) inum nm Him1); [lia|]|].
  { rewrite needs_cons, needs_app. change (needs [[]]) with 0. lia. }
  intros [] s2 (xs2 & Him2). 
  apply wp_bind. rewrite <-Ei. eapply wp_mono; [apply (append_file_spec s2 _ xs2 _ (length (root :: cs)) [] chunks Him2); [|done|done|]|].
  { by apply (list_lookup_middle cs). }
  { cbn [length]. rewrite insert_last. cbn [app]. rewrite needs_cons, needs_app, needs_cons. change (needs []) with 0. lia. }
  intros [] s3 (xs3 & Him3). cbn [length] in Him3. rewrite insert_last in Him3. cbn [app] in Him3.
  eapply wp_mono; [apply (IH s3 _ xs3 _ _ Him3 Hf)|].
  - rewrite length_app. cbn [length]. lia.
  - rewrite flen_app, new_dirent_len. lia.
  - rewrite length_app. cbn [length]. replace (Z.of_nat (length cs + 1) + 2) with (inum + 1) by (unfold inum; lia).
    rewrite <-!app_assoc. cbn [app]. rewrite needs_cons, needs_app, needs_cons. lia.
  - intros [] s4 (xs4 & Him4). exists xs4. rewrite length_app in Him4. cbn [length] in Him4. replace (Z.of_nat (length cs + 1) + 2) with (inum + 1) in Him4 by (unfold inum; lia).
    rewrite <-!app_assoc in Him4. rewrite Ei. exact Him4.
Qed.

(** ** The finished image *)

(** The geometry of the disk. *)
Definition disk : geom := mkGeom FSSIZE 2 nlog.

Lemma BBLOCK_new b : 0 ≤ b < FSSIZE → BBLOCK b new_sb = 58.
Proof.
  intros Hb. unfold BBLOCK. change (sb_bmapstart new_sb) with 58. change BPB with 4096. unfold FSSIZE in Hb.
  rewrite Z.div_small by lia. done.
Qed.

Lemma is_data_new k : nmeta ≤ k < FSSIZE → is_data disk new_sb k.
Proof.
  rewrite nmeta_val. intros Hk. split; [cbn; lia|]. split; [lia|]. split; [unfold g_log; change (g_start disk) with 2; change (g_nlog disk) with 30; lia|]. split.
  - intros b Hb. rewrite BBLOCK_new by done. lia.
  - intros i Hi. change (sb_ninodes new_sb) with NINODES in Hi. destruct (IBLOCK_new i Hi) as [_ ?]. lia.
Qed.

Lemma new_sb_ok : sb_ok disk new_sb.
Proof.
  split; try done.
  - intros b Hb. rewrite Z.div_small by (change BPB with 4096; cbn in Hb; unfold FSSIZE in Hb; lia). split; [done|]. by intros [_ H].
  - intros i Hi. change (sb_ninodes new_sb) with NINODES in Hi. destruct (IBLOCK_new i Hi) as [E ?]. rewrite E in H. change IPB with 8. change (sb_inodestart new_sb) with 32.
    unfold g_log. change (g_size disk) with 1000. change (g_start disk) with 2. change (g_nlog disk) with 30. lia.
  - intros i b Hi Hb. change (sb_ninodes new_sb) with NINODES in Hi. destruct (IBLOCK_new i Hi) as [_ ?]. rewrite BBLOCK_new by done. lia.
Qed.

Lemma set_bits_free d i n b :
  length d = BSIZE → 0 ≤ i → i + Z.of_nat n ≤ 4096 → 0 ≤ b →
  bit_free (set_bits d i n) b = bit_free d b && negb (bool_decide (i ≤ b < i + Z.of_nat n)).
Proof.
  revert d i. induction n as [|n IH]; intros d i Hd Hi Hn Hb; cbn [set_bits].
  - rewrite bool_decide_false by lia. by rewrite andb_true_r.
  - rewrite IH; [|by rewrite length_bit_set|lia|lia|done]. rewrite bit_free_set; [|done|done|rewrite Hd, BSIZE_val; apply Z.div_lt_upper_bound; lia].
    rewrite <-andb_assoc. f_equal. destruct (decide (b = i)) as [->|].
    + rewrite (bool_decide_true (i = i)), (bool_decide_true (i ≤ i < _)) by lia. done.
    + rewrite (bool_decide_false (b = i)) by done. cbn [negb andb]. f_equal. apply bool_decide_ext. lia.
Qed.

Lemma bit_free_zeroes b : bit_free zeroes b = true.
Proof. unfold bit_free, data_at. by rewrite nth_zeroes. Qed.

Lemma length_set_bits d i n : length (set_bits d i n) = length d.
Proof. revert d i. induction n as [|n IH]; intros d i; [done|]. cbn [set_bits]. by rewrite IH, length_bit_set. Qed.

(** A file as the kernel sees it. *)
Lemma file_view V fb xs cs i x c :
  files_ok V fb xs cs → xs !! i = Some x → cs !! i = Some c → (∀ b, 0 ≤ b < FSSIZE → used new_sb V b = bool_decide (b < fb)) →
  file_wf disk new_sb V x ∧ mapped V x (flen c) ∧ fread V x 0 (length c) = c.
Proof.
  intros Hok Hx Hc Hu. pose proof nmeta_val as Hnm. pose proof (f_fb _ _ _ _ Hok) as Hfb.
  assert (Hused : ∀ k, place_ok k → paddr V x k ≠ 0 → is_data disk new_sb (paddr V x k) ∧ used new_sb V (paddr V x k) = true).
  { intros k Hk H0. destruct (f_range _ _ _ _ Hok i x k Hx Hk) as [?|Hr]; [done|]. split; [apply is_data_new; lia|].
    rewrite Hu by lia. apply bool_decide_true. lia. }
  split_and!; [split|..].
  - by apply (f_addrs _ _ _ _ Hok i).
  - by apply (Hused None).
  - intros n Hn H0. destruct (Hused (Some n) Hn H0). split_and!; [done|done|]. intros E.
    by destruct (f_inj _ _ _ _ Hok i i x x (Some n) None Hx Hx Hn I H0 E).
  - intros n n' Hn Hn' H0 E. destruct (f_inj _ _ _ _ Hok i i x x (Some n) (Some n') Hx Hx Hn Hn' H0 E) as [_ ?]. congruence.
  - intros n Hn Hlt. rewrite BS_val in Hlt. by apply (f_map _ _ _ _ Hok i x c n Hx Hc Hn).
  - pose proof (f_max _ _ _ _ Hok i c Hc) as Hmax. apply list_eq_same_length with (length c); [done|apply length_fread|]. intros k a b Hk Ha Hb.
    rewrite lookup_fread in Ha by done. injection Ha as <-. rewrite Z.add_0_l.
    assert (Hpos : 0 ≤ Z.of_nat k < MAXFILE * 512) by (unfold flen in Hmax; lia).
    rewrite (f_byte _ _ _ _ Hok i x c (Z.of_nat k) Hx Hc Hpos), Nat2Z.id; [by apply nth_lookup_Some|].
    assert (Hn : 0 ≤ Z.of_nat k / 512 < MAXFILE) by (split; [apply Z.div_pos; lia|apply Z.div_lt_upper_bound; lia]).
    apply (f_map _ _ _ _ Hok i x c _ Hx Hc Hn). unfold flen. pose proof (Z.mul_div_le (Z.of_nat k) 512 ltac:(lia)). lia.
Qed.

(** What the kernel finds on the image [V]; [fb] is the first free block. *)
Record fs_image (V : Z → list byte) (fb : Z) (files : list host_file) : Prop := mkFsImage {
  fi_super : sb_decode (V 1) = new_sb ∧ sb_ok disk new_sb;
  fi_sect b : 0 ≤ b < FSSIZE → length (V b) = BSIZE;
  fi_bitmap b : 0 ≤ b < FSSIZE → used new_sb V b = bool_decide (b < fb);
  fi_file i f : files !! i = Some f → let x := disk_inode V (Z.of_nat i + 2) in
    i_type x = T_FILE ∧ i_nlink x = 1 ∧ i_size x = flen (content f) ∧
    file_wf disk new_sb V x ∧ mapped V x (i_size x) ∧ fread V x 0 (length (content f)) = content f;
  fi_root : let x := disk_inode V ROOTINO in let n := 16 * (Z.of_nat (length files) + 2) in
    i_type x = T_DIR ∧ i_nlink x = 1 ∧ i_size x = (n / 512 + 1) * 512 ∧ file_wf disk new_sb V x ∧ mapped V x n ∧
    fread V x 0 (Z.to_nat n) = new_dirent 1 ["."%byte] ++ new_dirent 1 ["."%byte; "."%byte] ++ dirents 2 files ∧
    (∀ pos, n ≤ pos → pos / 512 * 512 < n → fbyte V x pos = Byte.x00) ∧ (mapped V x (i_size x) ↔ n mod 512 ≠ 0);
  fi_apart i j k k' : 1 ≤ i ≤ Z.of_nat (length files) + 1 → 1 ≤ j ≤ Z.of_nat (length files) + 1 → place_ok k → place_ok k' →
    paddr V (disk_inode V i) k ≠ 0 → paddr V (disk_inode V i) k = paddr V (disk_inode V j) k' → i = j;
  fi_free inum : Z.of_nat (length files) + 2 ≤ inum < NINODES → i_type (disk_inode V inum) = 0;
}.

(** The root directory of [files]. *)
Definition root_dir (files : list host_file) : list byte :=
  new_dirent 1 ["."%byte] ++ new_dirent 1 ["."%byte; "."%byte] ++ dirents 2 files.

Lemma root_dir_len files : flen (root_dir files) = 16 * (Z.of_nat (length files) + 2).
Proof. unfold root_dir. rewrite !flen_app, !new_dirent_len, dirents_len. lia. Qed.

(** The end of [main]: the size of the root directory and the bitmap. *)
Definition finish : M mkst unit :=
  din ← rinode ROOTINO;
  let off := xint (i_size din) in
  let off := u32 ((off / Z.of_nat BSIZE + 1) * Z.of_nat BSIZE) in
  winode ROOTINO (set_isize (xint off) din);;
  s ← getS;
  balloc (mk_freeblock s).

(** The image with its last two writes, before what it means is read off. *)
Record finished (V : Z → list byte) (fb : Z) (xs : list inode) (files : list host_file) : Prop := mkFinished {
  fin_files : files_ok V fb xs (root_dir files :: (content <$> files));
  fin_disk i x : xs !! i = Some x → disk_inode V (inum_of i) = x;
  fin_root : ∃ a, xs !! 0%nat = Some (fresh_inode 1 T_DIR ((flen (root_dir files) / 512 + 1) * 512) a);
  fin_meta i f : files !! i = Some f → ∃ a, xs !! S i = Some (fresh_inode (Z.of_nat i + 2) T_FILE (flen (content f)) a);
  fin_free inum : Z.of_nat (length files) + 2 ≤ inum < NINODES → i_type (disk_inode V inum) = 0;
  fin_super : V 1 = st_words (sb_words new_sb) 0 zeroes;
  fin_bitmap b : 0 ≤ b < FSSIZE → used new_sb V b = bool_decide (b < fb);
}.

Lemma finish_spec s xs files :
  image s (T_DIR :: replicate (length files) T_FILE) xs (root_dir files :: (content <$> files)) →
  wp finish (λ _ s', ∃ xs', finished (mk_img s') (mk_freeblock s') xs' files ∧ mk_freeblock s' = mk_freeblock s ∧ mk_len s' = FSSIZE) s.
Proof.
  intros [Hok Hdisk Hmeta Hty Htl Hfree Hfb Hfi Hlen Hsb Hsup]. unfold finish.
  destruct (xs !! 0%nat) as [x|] eqn:Hx; [|apply lookup_ge_None in Hx; rewrite (f_len _ _ _ _ Hok) in Hx; cbn in Hx; lia].
  destruct (Hmeta 0%nat x _ Hx eq_refl) as (t & Ht & Ex). injection Ht as <-.
  assert (Hin : 0 ≤ ROOTINO < NINODES) by done. destruct Hfi as [Hfi Hfi']. cbn [length] in Hfi. rewrite length_fmap in Hfi.
  apply wp_bind. eapply wp_Ok; [apply (rinode_run _ s x); [done..|by apply (Hdisk 0%nat)]|]. set (n := flen (root_dir files)) in *.
  assert (Hn : 0 ≤ n < 4096) by (unfold n; rewrite root_dir_len; unfold NINODES in *; lia).
  assert (Es : i_size x = n) by (rewrite Ex; done). cbv zeta. rewrite Es, (xint_small n), BS_val by lia.
  assert (Hd : 0 ≤ n / 512 < 8) by (split; [apply Z.div_pos; lia|apply Z.div_lt_upper_bound; lia]).
  set (sz := (n / 512 + 1) * 512). rewrite (u32_small sz), (xint_small sz) by (unfold sz; lia). assert (E2 : set_isize sz x = fresh_inode 1 T_DIR sz (i_addrs x)) by (rewrite Ex; done). rewrite E2.
  assert (Hfits : inode_fits (fresh_inode 1 T_DIR sz (i_addrs x))).
  { apply fresh_fits; [done|unfold sz; lia|by apply (f_addrs _ _ _ _ Hok 0%nat)|by apply (addrs_range _ _ _ _ 0%nat _ Hok)]. }
  destruct (wimg_sect (mk_img s) 1 T_DIR sz (i_addrs x) Hin Hfits (f_sect _ _ _ _ Hok)) as [HWl HWk]. pose proof nmeta_val as Hnm.
  apply wp_bind. eapply wp_Ok; [apply winode_run; done|]. apply wp_getS. unfold balloc. cbn [mk_freeblock mk_sb].
  pose proof (f_fb _ _ _ _ Hok) as Hfbr. unfold FSSIZE in Hfbr. rewrite BS_val, (proj2 (Z.ltb_lt _ _)) by lia. cbn [negb]. apply wp_getS. apply wp_modify_end.
  cbn [mk_sb mk_img mk_len mk_freeinode mk_freeblock]. change (sb_bmapstart new_sb) with 58.
  set (W := wimg (mk_img s) _) in *. set (bits := set_bits zeroes 0 _). exists (<[0%nat := fresh_inode 1 T_DIR sz (i_addrs x)]> xs).
  assert (HW2 : ∀ k, k ≠ 58 → (<[58 := bits]> W) k = W k) by (intros k Hk; by rewrite fn_lookup_insert_ne).
  assert (HD : ∀ j, 0 ≤ j < NINODES → disk_inode (<[58 := bits]> W) j = if decide (j = 1) then fresh_inode 1 T_DIR sz (i_addrs x) else disk_inode (mk_img s) j).
  { intros j Hj. unfold disk_inode at 1. destruct (IBLOCK_new j Hj). rewrite HW2 by lia. apply (wimg_disk (mk_img s)); [done|done|done|apply Hok]. }
  split; [|done]. split.
  - eapply files_ok_addrs, files_ok_meta; [|exact Hok| |].
    + rewrite list_fmap_insert. symmetry. apply list_insert_id. by rewrite list_lookup_fmap, Hx.
    + intros k Hk. rewrite HW2 by lia. apply HWk. lia.
    + intros k. destruct (decide (k = 58)) as [->|]; [rewrite fn_lookup_insert; apply length_set_bits|rewrite HW2 by done; apply HWl].
  - intros j y Hy. assert (Hj : 0 ≤ inum_of j < NINODES).
    { apply lookup_lt_Some in Hy. rewrite length_insert, (f_len _ _ _ _ Hok) in Hy. cbn [length] in Hy. rewrite length_fmap in Hy. unfold inum_of. lia. }
    rewrite HD by done. apply insert_cases in Hy as [[-> ->]|[Hne Hy]]; [done|]. rewrite decide_False by (unfold inum_of; lia). by apply Hdisk.
  - exists (i_addrs x). apply list_lookup_insert_eq. by eapply lookup_lt_Some.
  - intros j f Hf. rewrite list_lookup_insert_ne by done. destruct (xs !! S j) as [y|] eqn:Hy.
    2: { apply lookup_ge_None in Hy. rewrite (f_len _ _ _ _ Hok) in Hy. cbn [length] in Hy. rewrite length_fmap in Hy. apply lookup_lt_Some in Hf. lia. }
    destruct (Hmeta (S j) y (content f) Hy) as (t & Ht & Ey); [change ((content <$> files) !! j = Some (content f)); by rewrite list_lookup_fmap, Hf|]. exists (i_addrs y). f_equal. rewrite Ey at 1.
    cbn in Ht. apply lookup_replicate in Ht as [-> _]. unfold inum_of. f_equal. lia.
  - intros j Hj. rewrite HD by lia. rewrite decide_False by lia. rewrite <-disk_type. apply Hfree. lia.
  - rewrite HW2 by done. rewrite HWk by lia. done.
  - intros b Hb. unfold used. rewrite BBLOCK_new, fn_lookup_insert by done. change BPB with 4096. unfold FSSIZE in Hb. rewrite Z.mod_small by lia. unfold bits.
    rewrite set_bits_free; [|done|lia|lia|lia]. rewrite bit_free_zeroes. cbn [andb]. rewrite negb_involutive. apply bool_decide_ext. lia.
Qed.

Lemma root_view V fb xs files :
  finished V fb xs files → let x := disk_inode V ROOTINO in let n := 16 * (Z.of_nat (length files) + 2) in n < 4096 →
  i_type x = T_DIR ∧ i_nlink x = 1 ∧ i_size x = (n / 512 + 1) * 512 ∧ file_wf disk new_sb V x ∧ mapped V x n ∧
  fread V x 0 (Z.to_nat n) = root_dir files ∧
  (∀ pos, n ≤ pos → pos / 512 * 512 < n → fbyte V x pos = Byte.x00) ∧ (mapped V x (i_size x) ↔ n mod 512 ≠ 0).
Proof.
  intros [Hok Hdisk [a Hr] _ _ _ Hbit] x n Hn. pose proof (Hdisk 0%nat _ Hr) as Ex. change (inum_of 0) with ROOTINO in Ex. fold x in Ex.
  rewrite <-Ex in Hr. pose proof (root_dir_len files) as Hl. fold n in Hl. pose proof (file_view _ _ _ _ _ _ _ Hok Hr eq_refl Hbit) as (Hwf & Hmap & Hrd).
  rewrite Hl in Hmap. assert (Es : i_size x = (n / 512 + 1) * 512) by (rewrite Ex; cbn [i_size fresh_inode]; by rewrite Hl).
  assert (Hfm : ∀ bn, 0 ≤ bn < MAXFILE → faddr V x bn ≠ 0 ↔ bn * 512 < n) by (intros bn Hbn; rewrite <-Hl; by apply (f_map _ _ _ _ Hok 0%nat x _ bn Hr eq_refl)).
  split_and!; [by rewrite Ex|by rewrite Ex|done|done|done| | |].
  - rewrite <-Hrd. f_equal. unfold flen in Hl. lia.
  - intros pos Hp1 Hp2. rewrite (f_byte _ _ _ _ Hok 0%nat x _ pos Hr eq_refl).
    + apply nth_overflow. unfold flen in Hl. lia.
    + rewrite MAXFILE_val. pose proof (Z.div_mod pos 512 ltac:(lia)). pose proof (Z.mod_pos_bound pos 512 ltac:(lia)). lia.
    + apply Hfm; [|done]. rewrite MAXFILE_val. split; [apply Z.div_pos; lia|lia].
  - rewrite Es. pose proof (Z.div_mod n 512 ltac:(lia)) as Hd. pose proof (Z.mod_pos_bound n 512 ltac:(lia)). split.
    + intros Hm E. assert (Hb : 0 ≤ n / 512 < MAXFILE) by (rewrite MAXFILE_val; split; [apply Z.div_pos; lia|apply Z.div_lt_upper_bound; lia]).
      specialize (Hm _ Hb ltac:(rewrite BS_val; lia)). apply Hfm in Hm; [lia|done].
    + intros Hm bn Hb Hlt. rewrite BS_val in Hlt. apply Hfm; [done|]. assert (bn ≤ n / 512) by lia. lia.
Qed.

Lemma finished_image V fb xs files :
  finished V fb xs files → 16 * (Z.of_nat (length files) + 2) < 4096 → fs_image V fb files.
Proof.
  intros Hfin Hn. pose proof Hfin as [Hok Hdisk _ Hmeta Hfree Hsup Hbit]. split.
  - split; [rewrite Hsup; vm_compute; reflexivity|apply new_sb_ok].
  - intros b _. apply Hok.
  - done.
  - intros i f Hf x. destruct (Hmeta i f Hf) as [a Hx]. pose proof (Hdisk _ _ Hx) as Ex. replace (inum_of (S i)) with (Z.of_nat i + 2) in Ex by (unfold inum_of; lia). fold x in Ex.
    rewrite <-Ex in Hx. assert (Hc : (root_dir files :: (content <$> files)) !! S i = Some (content f)) by (change ((content <$> files) !! i = Some (content f)); by rewrite list_lookup_fmap, Hf).
    pose proof (file_view _ _ _ _ _ _ _ Hok Hx Hc Hbit) as (Hwf & Hmap & Hrd). 
    assert (Es : i_size x = flen (content f)) by (rewrite Ex; done). split_and!; [by rewrite Ex|by rewrite Ex|done|done|by rewrite Es|done].
  - by apply (root_view V fb xs).
  - assert (Hget : ∀ i, 1 ≤ i ≤ Z.of_nat (length files) + 1 → ∃ x, xs !! Z.to_nat (i - 1) = Some x ∧ disk_inode V i = x).
    { intros i Hi. destruct (xs !! Z.to_nat (i - 1)) as [x|] eqn:Hx.
      - exists x. split; [done|]. rewrite <-(Hdisk _ _ Hx). f_equal. unfold inum_of. lia.
      - apply lookup_ge_None in Hx. rewrite (f_len _ _ _ _ Hok) in Hx. cbn [length] in Hx. rewrite length_fmap in Hx. lia. }
    intros i j k k' Hi Hj Hk Hk'. destruct (Hget i Hi) as (x & Hx & ->), (Hget j Hj) as (y & Hy & ->). intros H0 E.
    destruct (f_inj _ _ _ _ Hok _ _ _ _ _ _ Hx Hy Hk Hk' H0 E) as [? _]. lia.
  - done.
Qed.

(** ** The start *)

Lemma zero_sectors_spec s i n :
  (∀ k, mk_img s k = zeroes) → mk_len s = i →
  wp (zero_sectors i n) (λ _ s', (∀ k, mk_img s' k = zeroes) ∧ mk_len s' = i + Z.of_nat n ∧ mk_sb s' = mk_sb s ∧
    mk_freeinode s' = mk_freeinode s ∧ mk_freeblock s' = mk_freeblock s) s.
Proof.
  revert s i. induction n as [|n IH]; intros s i Hz Hl; cbn [zero_sectors].
  - apply wp_ret. split_and!; try done. lia.
  - apply wp_modify. eapply wp_mono; [apply IH; cbn|].
    + intros k. destruct (decide (k = i)) as [->|]; [by rewrite fn_lookup_insert|by rewrite fn_lookup_insert_ne].
    + lia.
    + intros [] s' (? & ? & ? & ? & ?). cbn in *. split_and!; try done. lia.
Qed.

Lemma image_start s :
  (∀ k, mk_img s k = if decide (k = 1) then st_words (sb_words new_sb) 0 zeroes else zeroes) → mk_len s = FSSIZE → mk_sb s = new_sb →
  mk_freeinode s = 1 → mk_freeblock s = nmeta → image s [] [] [].
Proof.
  intros Himg Hl Hsb Hi Hb. pose proof nmeta_val as Hnm. split; try done.
  - split; try done.
    + intros b. rewrite Himg. case_decide; [|apply length_replicate]. rewrite length_st_words; [apply length_replicate|]. unfold zeroes. rewrite length_replicate. cbn [sb_words length]. rewrite BSIZE_val. lia.
    + intros b Hr. rewrite Himg, decide_False by lia. done.
    + rewrite Hb. unfold FSSIZE. lia.
  - intros t Ht. by apply not_elem_of_nil in Ht.
  - intros inum Hn. rewrite Hi in Hn. destruct (IBLOCK_new inum ltac:(lia)). rewrite Himg, decide_False by lia. unfold dip_type. by rewrite ld_zeroes.
  - rewrite Hi. done.
Qed.

(** ** The whole program *)

Definition mkfs_blocks (files : list host_file) : Z := nmeta + needs (root_dir files :: (content <$> files)).

Lemma mkfs_ok s files :
  (∀ k, mk_img s k = zeroes) → mk_len s = 0 → mk_freeinode s = 1 →
  Forall host_ok files → Z.of_nat (length files) + 2 ≤ NINODES → mkfs_blocks files ≤ FSSIZE →
  wp (mkfs files) (λ _ s', fs_image (mk_img s') (mk_freeblock s') files ∧ mk_freeblock s' = mkfs_blocks files ∧ mk_len s' = FSSIZE) s.
Proof.
  intros Hz Hl Hi Hf Hn Hfit. unfold mkfs_blocks in *. pose proof nmeta_val as Hnm. unfold mkfs. do 2 apply wp_modify.
  apply wp_bind. eapply wp_mono; [apply zero_sectors_spec; done|]. intros [] s1 (Z1 & L1 & B1 & I1 & F1). apply wp_modify.
  set (s2 := mkMk _ _ _ _ _). assert (Him : image s2 [] [] []).
  { apply image_start; subst s2; cbn [mk_img mk_len mk_sb mk_freeinode mk_freeblock]; [|by rewrite L1|by rewrite B1|by rewrite I1|by rewrite F1].
    intros k. case_decide as D; [subst k; by rewrite fn_lookup_insert|by rewrite fn_lookup_insert_ne]. }
  assert (Hroot : need 32 ≤ need (flen (root_dir files))) by (apply need_mono; rewrite root_dir_len; lia).
  change (need 32) with 1 in Hroot. rewrite needs_cons in Hfit. pose proof (needs_nonneg (content <$> files)) as Hn0.
  apply wp_bind. eapply wp_mono; [apply (ialloc_spec s2 [] [] [] T_DIR Him); [done|cbn; unfold NINODES; lia]|].
  intros r s3 (-> & xs3 & Him3). change (inum_of (length [])) with ROOTINO. change (negb (ROOTINO =? ROOTINO)) with false. cbv iota.
  apply wp_bind. eapply wp_mono; [apply (append_dirent s3 _ xs3 [] [] ROOTINO ["."%byte] Him3); [done|done]|]. intros [] s4 (xs4 & Him4).
  apply wp_bind. eapply wp_mono; [apply (append_dirent s4 _ xs4 _ [] ROOTINO ["."%byte; "."%byte] Him4); [done|done]|].
  intros [] s5 (xs5 & Him5). apply wp_bind.
  eapply wp_mono; [apply (add_files_spec s5 [T_DIR] xs5 (([] ++ new_dirent 1 ["."%byte]) ++ new_dirent 1 ["."%byte; "."%byte]) [] files Him5 Hf)|].
  - cbn [length]. lia.
  - rewrite MAXFILE_val. unfold NINODES in Hn. change (flen _) with 32. lia.
  - change (Z.of_nat (length []) + 2) with 2. cbn [app]. rewrite <-app_assoc. fold (root_dir files). rewrite needs_cons. lia.
  - intros [] s6 (xs6 & Him6). change (Z.of_nat (length []) + 2) with 2 in Him6. cbn [app] in Him6. rewrite <-app_assoc in Him6. fold (root_dir files) in Him6.
    eapply wp_mono; [apply (finish_spec s6 xs6 files Him6)|]. intros [] s7 (xs7 & Hfin & E7 & L7). split_and!; [|rewrite E7; apply Him6|done].
    apply (finished_image _ _ xs7); [done|]. unfold NINODES in Hn. lia.
Qed.


(** A file of fourteen blocks and a short one. *)
Definition mk_files : list host_file :=
  [(["_"%byte; "a"%byte], Some (replicate 14 (replicate 512 "x"%byte))); (["b"%byte], Some [["h"%byte; "i"%byte]; ["!"%byte]])].

