(* ===== verification/Trap.v ===== *)
(** * Traps (src/trap.c, src/traps.h)

    The machine is the kernel's state with the state of the devices.  A trap frame
    gives the fields that [trap] reads; [codes] and [rx] are what the keyboard and
    the serial port have to offer.  [exit] leaves [trap] ([Blocked]).  [yield] gives the
    CPU to others: [meanwhile] is what they do until the scheduler resumes the process,
    if it ever does, and [trap] goes on in that state. *)

From S2P Require Import Ide Console Kbd.
From S2P Require Import Prelude Fcntl Dll Sleeplock Bio Memide FsLayout Log LogCrash LogProtocol Tx CString Fs Pipe Kalloc Vm PageTable Kernel File Proc Sysfile Syscall.

Definition T_SYSCALL : Z := 64.
Definition T_IRQ0 : Z := 32.
Definition IRQ_TIMER : Z := 0.
Definition IRQ_KBD : Z := 1.
Definition IRQ_COM1 : Z := 4.
Definition IRQ_IDE : Z := 14.
Definition IRQ_SPURIOUS : Z := 31.
Definition DPL_USER : Z := 3.

(** [struct trapframe] with [rcr2()] at the trap *)
Record tframe : Type := mkTf { tf_addr : Z; tf_trapno : Z; tf_err : Z; tf_eip : Z; tf_cs : Z; tf_cr2 : Z }.

(** The messages of [cprintf] *)
Inductive message : Type :=
  | Spurious (cpu cs eip : Z)
  | Unexpected (trapno cpu eip cr2 : Z)
  | KillProc (pid : Z) (name : list byte) (trapno err cpu eip cr2 : Z).

Record mach (S : Type) : Type := mkMach {
  m_kern : kern S;
  m_ide : Ide.ide;
  m_con : Console.con;
  m_shift : Z;                (* kbdgetc's shift *)
  m_eoi : nat;                (* interrupts acknowledged *)
  m_log : list message;
}.
Arguments mkMach {S}. Arguments m_kern {S}. Arguments m_ide {S}. Arguments m_con {S}. Arguments m_shift {S}. Arguments m_eoi {S}. Arguments m_log {S}.

(** The characters that [kbdgetc] returns for the bytes of the port before it returns -1. *)
Fixpoint kbd_chars (codes : list Z) (shift : Z) : list Z * Z :=
  match codes with
  | [] => ([], shift)
  | b :: codes =>
      let '(c, shift) := Kbd.kbdgetc (Some b) shift in
      let '(cs, shift) := kbd_chars codes shift in
      (c :: cs, shift)
  end.

Section trap.
Context {S : Type} {ops : TxStore S} {txo : TxOps S}.
Context (kend data forkret trapret : Z).
Context (devread : Z → option (nat → Z → M (fsst S) (Z * list byte))).
Context (devwrite : Z → option (nat → list byte → Z → M (fsst S) Z)).
(** From the state in which a process gave up the CPU, the state in which the scheduler
    resumes it. *)
Context (meanwhile : mach S → option (mach S)).
Implicit Types (s : mach S) (tf : tframe).
Abbreviation T := (M (mach S)).

Definition set_kern k s : mach S := mkMach k (m_ide s) (m_con s) (m_shift s) (m_eoi s) (m_log s).
Definition set_ide d s : mach S := mkMach (m_kern s) d (m_con s) (m_shift s) (m_eoi s) (m_log s).
Definition set_con c s : mach S := mkMach (m_kern s) (m_ide s) c (m_shift s) (m_eoi s) (m_log s).
Definition set_shift v s : mach S := mkMach (m_kern s) (m_ide s) (m_con s) v (m_eoi s) (m_log s).

Definition part {X A} (get : mach S → X) (put : X → mach S → mach S) (m : M X A) : T A := λ s,
  match m (get s) with
  | Ok a x => Ok a (put x s)
  | Blocked x => Blocked (put x s)
  | Panic msg => Panic msg
  end.
Definition kernel {A} (m : M (kern S) A) : T A := part m_kern set_kern m.

Definition lapiceoi : T unit := modify (λ s, mkMach (m_kern s) (m_ide s) (m_con s) (m_shift s) (Datatypes.S (m_eoi s)) (m_log s)).
Definition message_out (x : message) : T unit := modify (λ s, mkMach (m_kern s) (m_ide s) (m_con s) (m_shift s) (m_eoi s) (m_log s ++ [x])).

Definition kbdintr (codes : list Z) : T unit :=
  s ← getS;
  let '(cs, shift) := kbd_chars codes (m_shift s) in
  modify (set_shift shift);;
  part m_con set_con (Console.consoleintr cs).

Definition uartintr (rx : list Z) : T unit := part m_con set_con (Console.consoleintr rx).

Definition user_mode tf : bool := Z.land (tf_cs tf) 3 =? DPL_USER.

(** [if(myproc() && myproc()->killed && (tf->cs&3) == DPL_USER) exit();] *)
Definition killed_check (hasproc : bool) tf : T unit :=
  p ← kernel myproc;
  if hasproc && p_killed p && user_mode tf then kernel (exit kend) else mret tt.

(** The switch on [tf->trapno]. *)
Definition dispatch (cpu : Z) (hasproc : bool) tf (codes rx : list Z) : T unit :=
  let t := tf_trapno tf in
  if t =? T_IRQ0 + IRQ_TIMER then
    (if cpu =? 0 then kernel timer_tick else mret tt);;
    lapiceoi
  else if t =? T_IRQ0 + IRQ_IDE then part m_ide set_ide Ide.ideintr;; lapiceoi
  else if t =? T_IRQ0 + IRQ_IDE + 1 then mret tt
  else if t =? T_IRQ0 + IRQ_KBD then kbdintr codes;; lapiceoi
  else if t =? T_IRQ0 + IRQ_COM1 then uartintr rx;; lapiceoi
  else if (t =? T_IRQ0 + 7) || (t =? T_IRQ0 + IRQ_SPURIOUS) then message_out (Spurious cpu (tf_cs tf) (tf_eip tf));; lapiceoi
  else if negb hasproc || (Z.land (tf_cs tf) 3 =? 0) then
    message_out (Unexpected t cpu (tf_eip tf) (tf_cr2 tf));; panic "trap"
  else
    p ← kernel myproc;
    message_out (KillProc (p_pid p) (p_name p) t (tf_err tf) cpu (tf_eip tf) (tf_cr2 tf));;
    kernel (upd_cur (set_killed true)).

(** [yield()], up to its return in the process that called it *)
Definition yield_resume : T unit := λ s,
  match kernel (A := unit) yield s with
  | Blocked s1 => match meanwhile s1 with Some s2 => Ok tt s2 | None => Blocked s1 end
  | r => r
  end.

Definition trap (cpu : Z) (hasproc : bool) tf (codes rx : list Z) : T unit :=
  if tf_trapno tf =? T_SYSCALL then kernel (trap_syscall kend data forkret trapret devread devwrite (tf_addr tf))
  else
    dispatch cpu hasproc tf codes rx;;
    killed_check hasproc tf;;
    p ← kernel myproc;
    (if hasproc && bool_decide (p_state p = RUNNING) && (tf_trapno tf =? T_IRQ0 + IRQ_TIMER) then yield_resume else mret tt);;
    killed_check hasproc tf.

(** ** Operations that do not return *)

Definition never {X A} (m : M X A) : Prop := ∀ x a x', m x ≠ Ok a x'.

Lemma never_bind {X A B} (m : M X A) (k : A → M X B) : (∀ a, never (k a)) → never (m ≫= k).
Proof. intros H x b x'. unfold mbind, M_bind. destruct (m x); [apply H|done|done]. Qed.

Lemma never_sched {A} : never (@sched S A).
Proof. apply never_bind. intros p. by case_match. Qed.

Lemma never_exit {A} : never (@exit S ops txo kend A).
Proof. apply never_bind. intros s. case_match; [done|]. do 6 (apply never_bind; intros ?). apply never_sched. Qed.

Lemma never_yield {A} : never (@yield S A).
Proof. apply never_bind. intros _. apply never_sched. Qed.

Lemma never_kernel {A} (m : M (kern S) A) : never m → never (kernel m).
Proof. intros H s a s'. unfold kernel, part. destruct (m (m_kern s)) eqn:E; [|done|done]. by apply H in E. Qed.

(** ** Returns from a trap *)

Lemma kernel_inv {A} (m : M (kern S) A) s a s' : kernel m s = Ok a s' → ∃ k, m (m_kern s) = Ok a k ∧ s' = set_kern k s.
Proof. unfold kernel, part. destruct (m (m_kern s)); [|done|done]. intros [= -> <-]. eauto. Qed.

Lemma set_kern_same s : set_kern (m_kern s) s = s.
Proof. by destruct s. Qed.

Lemma kernel_myproc s : kernel myproc s = Ok (cur_proc (m_kern s)) s.
Proof. unfold kernel, part, myproc, gets. by rewrite set_kern_same. Qed.

Lemma killed_check_inv hasproc tf s s' :
  killed_check hasproc tf s = Ok tt s' → s' = s ∧ hasproc && p_killed (cur_proc (m_kern s)) && user_mode tf = false.
Proof.
  unfold killed_check. rewrite (bind_Ok _ _ _ _ _ (kernel_myproc s)). case_match; [|by intros [= <-]].
  intros H1. by apply never_kernel in H1; [|apply never_exit].
Qed.

(** A system call returns to the user only in a process that has not been killed. *)
Lemma syscall_returns tf s s' :
  kernel (trap_syscall kend data forkret trapret devread devwrite (tf_addr tf)) s = Ok tt s' → p_killed (cur_proc (m_kern s')) = false.
Proof.
  intros (k & H & ->)%kernel_inv. cbn. unfold trap_syscall in H. apply bind_inv in H as (p & k1 & _ & H). case_match; [by apply never_exit in H|].
  apply bind_inv in H as ([] & k2 & _ & H). apply bind_inv in H as ([] & k3 & _ & H). apply bind_inv in H as (q & k4 & Hq & H).
  injection Hq as <- <-. case_match; [by apply never_exit in H|]. by injection H as <-.
Qed.

Lemma yield_resume_inv s s' : yield_resume s = Ok tt s' → ∃ s1, kernel (A := unit) yield s = Blocked s1 ∧ meanwhile s1 = Some s'.
Proof.
  unfold yield_resume. destruct (kernel yield s) as [[] s1|s1|] eqn:E; [|destruct (meanwhile s1) as [s2|] eqn:Em; [|done]|done].
  - exfalso. revert E. apply never_kernel, never_yield.
  - intros [= <-]. eauto.
Qed.

(** A trap that returns: the handler ran, the process may have been preempted after it,
    and it has not been killed. *)
Lemma trap_tail_inv cpu hasproc tf codes rx s s' :
  tf_trapno tf ≠ T_SYSCALL → trap cpu hasproc tf codes rx s = Ok tt s' →
  hasproc && p_killed (cur_proc (m_kern s')) && user_mode tf = false ∧
  ∃ s1, dispatch cpu hasproc tf codes rx s = Ok tt s1 ∧
    (s' = s1 ∨ ∃ s2, kernel (A := unit) yield s1 = Blocked s2 ∧ meanwhile s2 = Some s').
Proof.
  intros Ht. unfold trap. rewrite (proj2 (Z.eqb_neq _ _) Ht). intros ([] & s1 & Hd & H)%bind_inv. apply bind_inv in H as ([] & s2 & Hk & H).
  apply killed_check_inv in Hk as [-> Hk]. rewrite (bind_Ok _ _ _ _ _ (kernel_myproc s1)) in H. apply bind_inv in H as ([] & s3 & Hy & H).
  apply killed_check_inv in H as [-> ?]. split; [done|]. exists s1. split; [done|].
  case_match; [right; by apply yield_resume_inv|left; by injection Hy as <-].
Qed.

(** The interrupts that are acknowledged. *)
Definition acked (t : Z) : bool :=
  bool_decide (t ∈ [T_IRQ0 + IRQ_TIMER; T_IRQ0 + IRQ_IDE; T_IRQ0 + IRQ_KBD; T_IRQ0 + IRQ_COM1; T_IRQ0 + 7; T_IRQ0 + IRQ_SPURIOUS]).
Definition handled (t : Z) : bool := acked t || (t =? T_IRQ0 + IRQ_IDE + 1).

Lemma part_eoi {X A} get put (m : M X A) s a s' : (∀ x s, m_eoi (put x s) = m_eoi s) → part get put m s = Ok a s' → m_eoi s' = m_eoi s.
Proof. intros Hp. unfold part. destruct (m (get s)); [|done|done]. by intros [= _ <-]. Qed.

Lemma eoi_after (m : T unit) s s' :
  (∀ s s', m s = Ok tt s' → m_eoi s' = m_eoi s) → (m;; lapiceoi) s = Ok tt s' → m_eoi s' = Datatypes.S (m_eoi s).
Proof. intros Hm ([] & s1 & H1 & H2)%bind_inv. injection H2 as <-. cbn. by rewrite (Hm _ _ H1). Qed.

Lemma dispatch_eoi cpu hasproc tf codes rx s s' :
  dispatch cpu hasproc tf codes rx s = Ok tt s' → m_eoi s' = (m_eoi s + if acked (tf_trapno tf) then 1 else 0)%nat.
Proof.
  assert (Hk : ∀ A (m : M (kern S) A) s a s', kernel m s = Ok a s' → m_eoi s' = m_eoi s) by (intros; by eapply part_eoi in H).
  unfold dispatch. intros H. set (t := tf_trapno tf) in *.
  destruct (Z.eqb_spec t (T_IRQ0 + IRQ_TIMER)) as [E|N1].
  { apply eoi_after in H; [rewrite H, E; change (acked _) with true; cbv iota; lia|]. intros x x'. case_match; [apply Hk|by intros [= <-]]. }
  destruct (Z.eqb_spec t (T_IRQ0 + IRQ_IDE)) as [E|N2].
  { apply eoi_after in H; [rewrite H, E; change (acked _) with true; cbv iota; lia|]. intros x x'. by apply part_eoi. }
  destruct (Z.eqb_spec t (T_IRQ0 + IRQ_IDE + 1)) as [E|N3]; [injection H as <-; rewrite E; change (acked _) with false; cbv iota; lia|].
  destruct (Z.eqb_spec t (T_IRQ0 + IRQ_KBD)) as [E|N4].
  { apply eoi_after in H; [rewrite H, E; change (acked _) with true; cbv iota; lia|]. intros x x'. unfold kbdintr. intros (y & z & Hy & Hz)%bind_inv. injection Hy as <- <-.
    destruct (kbd_chars codes (m_shift x)) as [cs sh]. apply bind_inv in Hz as ([] & z & Hz1 & Hz2). injection Hz1 as <-. by apply part_eoi in Hz2. }
  destruct (Z.eqb_spec t (T_IRQ0 + IRQ_COM1)) as [E|N5].
  { apply eoi_after in H; [rewrite H, E; change (acked _) with true; cbv iota; lia|]. intros x x'. by apply part_eoi. }
  destruct (Z.eqb_spec t (T_IRQ0 + 7)) as [E|N6]; [cbn [orb] in H; apply eoi_after in H; [rewrite H, E; change (acked _) with true; cbv iota; lia|by intros x x' [= <-]]|].
  destruct (Z.eqb_spec t (T_IRQ0 + IRQ_SPURIOUS)) as [E|N7]; [cbn [orb] in H; apply eoi_after in H; [rewrite H, E; change (acked _) with true; cbv iota; lia|by intros x x' [= <-]]|].
  assert (acked t = false) as -> by (apply bool_decide_false; set_solver). cbn [orb] in H. case_match; [by apply bind_inv in H as (? & ? & ? & ?)|].
  apply bind_inv in H as (p & s1 & Hp & H). rewrite kernel_myproc in Hp. injection Hp as <- <-. apply bind_inv in H as ([] & s2 & H2 & H). injection H2 as <-.
  apply Hk in H. rewrite H. cbn. lia.
Qed.

(** ** Faults and the clock *)

(** The machine after a fault of the running process. *)
Definition condemned (cpu : Z) tf s : mach S :=
  let k := m_kern s in let p := cur_proc k in
  mkMach (with_proc (alter (set_killed true) (kn_cur k) (kn_proc k)) k) (m_ide s) (m_con s) (m_shift s) (m_eoi s)
    (m_log s ++ [KillProc (p_pid p) (p_name p) (tf_trapno tf) (tf_err tf) cpu (tf_eip tf) (tf_cr2 tf)]).

Lemma dispatch_fault cpu hasproc tf codes rx s :
  handled (tf_trapno tf) = false → dispatch cpu hasproc tf codes rx s =
    if negb hasproc || (Z.land (tf_cs tf) 3 =? 0) then Panic "trap" else Ok tt (condemned cpu tf s).
Proof.
  unfold handled. rewrite orb_false_iff, Z.eqb_neq. intros [Ha N3]. apply bool_decide_eq_false in Ha. unfold dispatch.
  rewrite !(proj2 (Z.eqb_neq (tf_trapno tf) _)) by set_solver. cbn [orb]. case_match; [done|].
  by rewrite (bind_Ok _ _ _ _ _ (kernel_myproc s)).
Qed.

Lemma trap_fault cpu tf codes rx s :
  handled (tf_trapno tf) = false → tf_trapno tf ≠ T_SYSCALL → user_mode tf = true → (kn_cur (m_kern s) < length (kn_proc (m_kern s)))%nat →
  trap cpu true tf codes rx s = kernel (exit kend) (condemned cpu tf s).
Proof.
  intros Hh Ht Hu Hc. unfold trap. rewrite (proj2 (Z.eqb_neq _ _) Ht).
  assert (Hd : dispatch cpu true tf codes rx s = Ok tt (condemned cpu tf s)).
  { rewrite dispatch_fault by done. unfold user_mode in Hu. apply Z.eqb_eq in Hu. by rewrite Hu. }
  rewrite (bind_Ok _ _ _ _ _ Hd). assert (E : ∀ (k : unit → T unit), (killed_check true tf ≫= k) (condemned cpu tf s) = (kernel (exit kend) ≫= k) (condemned cpu tf s)).
  { intros k. unfold killed_check, mbind, M_bind. rewrite kernel_myproc. unfold condemned, cur_proc at 1. cbn [m_kern kn_proc kn_cur with_proc]. rewrite list_lookup_total_alter_eq by done.
    cbn [p_killed set_killed]. by rewrite Hu. }
  rewrite E. unfold mbind, M_bind. destruct (kernel (exit kend) (condemned cpu tf s)) eqn:Ek; [|done|done]. exfalso. revert Ek. apply never_kernel, never_exit.
Qed.

(** The machine after a clock interrupt took the CPU from the running process. *)
Definition ticked (cpu : Z) (k : kern S) : kern S :=
  if cpu =? 0 then with_proc (wakeup1_proc TicksChan <$> kn_proc k) (with_ticks (u32 (kn_ticks k + 1)) k) else k.
Definition preempted (cpu : Z) s : mach S :=
  let k := ticked cpu (m_kern s) in
  mkMach (with_proc (alter (set_state RUNNABLE) (kn_cur k) (kn_proc k)) k) (m_ide s) (m_con s) (m_shift s) (Datatypes.S (m_eoi s)) (m_log s).

Lemma ticked_cur cpu (k : kern S) :
  (kn_cur k < length (kn_proc k))%nat → p_state (cur_proc k) = RUNNING →
  cur_proc (ticked cpu k) = cur_proc k ∧ kn_cur (ticked cpu k) = kn_cur k ∧ length (kn_proc (ticked cpu k)) = length (kn_proc k).
Proof.
  intros Hc Hr. unfold ticked. case_match; [|done]. cbn. rewrite length_fmap. split_and!; [|done|done]. unfold cur_proc in *. cbn.
  destruct (lookup_lt_is_Some_2 _ _ Hc) as [p Hp]. rewrite (list_lookup_total_correct _ _ _ Hp) in Hr |- *.
  apply list_lookup_total_correct. rewrite list_lookup_fmap, Hp. cbn. unfold wakeup1_proc. by rewrite Hr.
Qed.

Lemma kernel_yield s :
  (kn_cur (m_kern s) < length (kn_proc (m_kern s)))%nat →
  kernel (A:=unit) yield s = Blocked (set_kern (with_proc (alter (set_state RUNNABLE) (kn_cur (m_kern s)) (kn_proc (m_kern s))) (m_kern s)) s).
Proof.
  intros Hc. set (k := with_proc _ (m_kern s)). assert (E : @yield S unit (m_kern s) = Blocked k); [|unfold kernel, part; by rewrite E].
  unfold yield. rewrite (bind_Ok _ _ _ tt k) by done. unfold sched. rewrite (bind_Ok _ _ _ (cur_proc k) k) by done.
  rewrite bool_decide_false; [done|]. unfold cur_proc, k. cbn [kn_proc kn_cur with_proc]. by rewrite list_lookup_total_alter_eq.
Qed.

Lemma trap_timer cpu tf codes rx s :
  tf_trapno tf = T_IRQ0 + IRQ_TIMER → (kn_cur (m_kern s) < length (kn_proc (m_kern s)))%nat →
  p_state (cur_proc (m_kern s)) = RUNNING → p_killed (cur_proc (m_kern s)) && user_mode tf = false →
  trap cpu true tf codes rx s =
    match meanwhile (preempted cpu s) with
    | None => Blocked (preempted cpu s)
    | Some s2 => if p_killed (cur_proc (m_kern s2)) && user_mode tf then kernel (exit kend) s2 else Ok tt s2
    end.
Proof.
  intros Ht Hc Hr Hk. set (s1 := mkMach (ticked cpu (m_kern s)) (m_ide s) (m_con s) (m_shift s) (Datatypes.S (m_eoi s)) (m_log s)).
  destruct (ticked_cur cpu (m_kern s) Hc Hr) as (Ec & En & El).
  assert (Hd : dispatch cpu true tf codes rx s = Ok tt s1) by (unfold dispatch; rewrite Ht; cbn [Z.eqb]; unfold s1, ticked; by destruct (cpu =? 0)).
  unfold trap. rewrite Ht. change (T_IRQ0 + IRQ_TIMER =? T_SYSCALL) with false. cbv iota. rewrite (bind_Ok _ _ _ _ _ Hd).
  assert (Hch : killed_check true tf s1 = Ok tt s1).
  { unfold killed_check. rewrite (bind_Ok _ _ _ _ _ (kernel_myproc s1)). change (m_kern s1) with (ticked cpu (m_kern s)). rewrite Ec. cbn [andb]. by rewrite Hk. }
  rewrite (bind_Ok _ _ _ _ _ Hch), (bind_Ok _ _ _ _ _ (kernel_myproc s1)). change (m_kern s1) with (ticked cpu (m_kern s)). rewrite Ec, Hr. cbn [andb].
  change (T_IRQ0 + IRQ_TIMER =? T_IRQ0 + IRQ_TIMER) with true. rewrite bool_decide_true by done. cbn [andb].
  assert (Hy : kernel (A := unit) yield s1 = Blocked (preempted cpu s)).
  { rewrite kernel_yield; [done|]. change (m_kern s1) with (ticked cpu (m_kern s)). by rewrite En, El. }
  unfold mbind at 1, M_bind at 1, yield_resume. rewrite Hy. destruct (meanwhile (preempted cpu s)) as [s2|]; [|done].
  unfold killed_check. rewrite (bind_Ok _ _ _ _ _ (kernel_myproc s2)). cbn [andb]. by case_match.
Qed.

(** C11. trap: a process that has been killed never goes back to user mode, from a system call or
    from an interrupt, also when it was killed while another process had the CPU; each device
    interrupt is acknowledged exactly once and the spurious IDE one not; a fault in the kernel
    panics, a fault in user mode kills only the running process, which exits; a clock interrupt
    counts one tick on CPU 0, wakes the processes that wait for it and takes the CPU from the
    running process, which goes on in whatever state the scheduler resumes it: it exits if it
    was killed meanwhile, else it returns. *)
Theorem trap_correct cpu hasproc tf codes rx s :
  (∀ s', trap cpu hasproc tf codes rx s = Ok tt s' → tf_trapno tf = T_SYSCALL ∨ (hasproc = true ∧ user_mode tf = true) →
     p_killed (cur_proc (m_kern s')) = false) ∧
  (∀ s', tf_trapno tf ≠ T_SYSCALL → trap cpu hasproc tf codes rx s = Ok tt s' →
     ∃ s1, m_eoi s1 = (m_eoi s + if acked (tf_trapno tf) then 1 else 0)%nat ∧ (s' = s1 ∨ meanwhile s1 = Some s')) ∧
  (handled (tf_trapno tf) = false → tf_trapno tf ≠ T_SYSCALL → hasproc = false ∨ Z.land (tf_cs tf) 3 = 0 →
     trap cpu hasproc tf codes rx s = Panic "trap") ∧
  (handled (tf_trapno tf) = false → tf_trapno tf ≠ T_SYSCALL → user_mode tf = true → (kn_cur (m_kern s) < length (kn_proc (m_kern s)))%nat →
     trap cpu true tf codes rx s = kernel (exit kend) (condemned cpu tf s)) ∧
  (tf_trapno tf = T_IRQ0 + IRQ_TIMER → (kn_cur (m_kern s) < length (kn_proc (m_kern s)))%nat →
     p_state (cur_proc (m_kern s)) = RUNNING → p_killed (cur_proc (m_kern s)) && user_mode tf = false →
     trap cpu true tf codes rx s =
       match meanwhile (preempted cpu s) with
       | None => Blocked (preempted cpu s)
       | Some s2 => if p_killed (cur_proc (m_kern s2)) && user_mode tf then kernel (exit kend) s2 else Ok tt s2
       end).
Proof.
  split_and!.
  - intros s' H Hm. destruct (decide (tf_trapno tf = T_SYSCALL)) as [E|E].
    + unfold trap in H. rewrite E, Z.eqb_refl in H. by eapply syscall_returns.
    + destruct Hm as [?|[-> Hu]]; [done|]. apply trap_tail_inv in H as [H _]; [|done]. rewrite Hu, andb_true_r in H. exact H.
  - intros s' Ht H. apply trap_tail_inv in H as (_ & s1 & Hd & H); [|done]. apply dispatch_eoi in Hd.
    destruct H as [->|(s2 & Hy & Hm)]; [by exists s1; auto|]. exists s2. split; [|by right]. rewrite <-Hd.
    revert Hy. unfold kernel, part. destruct (yield (m_kern s1)); [done|by intros [= <-]|done].
  - intros Hh Ht Hk. unfold trap. rewrite (proj2 (Z.eqb_neq _ _) Ht). unfold mbind, M_bind at 1. rewrite dispatch_fault by done.
    destruct Hk as [->|Hk]; [done|]. by rewrite Hk, orb_true_r.
  - apply trap_fault.
  - apply trap_timer.
Qed.
End trap.
