(* ===== verification/Sleep.v ===== *)
(** * Sleep, wakeup and the scheduler (src/proc.c)

    CPUs and processes at the grain of the two locks involved: the lock [lk] that
    protects shared data, and [ptable.lock].  A process that runs on a CPU takes
    one step at a time through [sleep], [wakeup], [yield] or [kill]; a CPU without
    a process steps through the loop of [scheduler].  [swtch] hands [ptable.lock]
    from the process to the scheduler and back.  Each CPU has its interrupt flag, [ncli]
    and [intena], which [acquire] and [release] change by [pushcli] and [popcli]; a
    failed check of these, or of [sched], is a panic.

    Clients follow the rule of the comments in the source: a process calls
    [sleep(c, lk)] when the condition that belongs to [c] is false, and a process
    that makes it true calls [wakeup(c)] before it releases [lk]. *)

From S2P Require Import Prelude Fcntl Dll Sleeplock Bio Memide FsLayout Log LogCrash LogProtocol Tx CString Fs Pipe Kalloc Vm PageTable Kernel.

Section sleep.
Context {D : Type} (cond : nat → D → bool) (chans : list nat).

(** Where a process is. *)
Inductive pc : Type :=
  | Out                  (* neither lock *)
  | Crit                 (* holds lk *)
  | Sleep1 (c : nat)     (* sleep: acquire(&ptable.lock) *)
  | Sleep2 (c : nat)     (* release(lk) *)
  | Sleep3 (c : nat)     (* p->chan = chan; p->state = SLEEPING *)
  | Sched (k : ctx)      (* sched *)
  | Switched (k : ctx)   (* not on a CPU; resumes at [k] *)
  | Resumed (k : ctx)    (* back from swtch *)
  | Sleep5               (* release(&ptable.lock) *)
  | Sleep6               (* acquire(lk) *)
  | Wake1 (c : nat)      (* wakeup: acquire(&ptable.lock) *)
  | Wake2 (c : nat)      (* wakeup1 *)
  | Wake3                (* release(&ptable.lock) *)
  | Yield1               (* acquire(&ptable.lock) *)
  | Yield2               (* state = RUNNABLE *)
  | Kill1 (j : nat)      (* acquire(&ptable.lock) *)
  | Kill2 (j : nat)      (* the process found by kill *)
  | Kill3                (* release(&ptable.lock) *)
with ctx : Type := InSleep | InYield | InFork.

Record sproc : Type := mkSproc {
  sp_state : procstate;
  sp_chan : option nat;
  sp_pc : pc;
  sp_owes : gset nat;    (* conditions it made true without a wakeup yet *)
  sp_intena : bool;      (* intena, a local variable of sched *)
  sp_flag : bool;        (* the interrupt flag the process had outside its locks *)
}.

(** A CPU: outside its scan, scanning at slot [i] with [ptable.lock], or running process [i]. *)
Inductive scpu : Type := CIdle | CScan (i : nat) | CRun (i : nat).
(** Its interrupt state. *)
Record cint : Type := mkCint { ci_if : bool; ci_ncli : Z; ci_intena : bool }.
Inductive holder : Type := HProc (i : nat) | HCpu (c : nat).
#[local] Instance holder_eq_dec : EqDecision holder.
Proof. solve_decision. Defined.
#[local] Instance cpu_eq_dec : EqDecision scpu.
Proof. solve_decision. Defined.

Record sst : Type := mkSst {
  ss_proc : list sproc;
  ss_cpu : list scpu;
  ss_int : list cint;
  ss_lk : option nat;
  ss_pt : option holder;    (* ptable.lock *)
  ss_data : D;
  ss_panic : bool;          (* a check failed *)
}.

Definition go (k : pc) (p : sproc) : sproc := mkSproc (sp_state p) (sp_chan p) k (sp_owes p) (sp_intena p) (sp_flag p).
Definition to_state (v : procstate) (p : sproc) : sproc := mkSproc v (sp_chan p) (sp_pc p) (sp_owes p) (sp_intena p) (sp_flag p).
Definition to_chan (v : option nat) (p : sproc) : sproc := mkSproc (sp_state p) v (sp_pc p) (sp_owes p) (sp_intena p) (sp_flag p).
Definition owe (v : gset nat) (p : sproc) : sproc := mkSproc (sp_state p) (sp_chan p) (sp_pc p) v (sp_intena p) (sp_flag p).
Definition save (v : bool) (p : sproc) : sproc := mkSproc (sp_state p) (sp_chan p) (sp_pc p) (sp_owes p) v (sp_flag p).
Definition flag (v : bool) (p : sproc) : sproc := mkSproc (sp_state p) (sp_chan p) (sp_pc p) (sp_owes p) (sp_intena p) v.

Definition with_p (l : list sproc) (s : sst) : sst := mkSst l (ss_cpu s) (ss_int s) (ss_lk s) (ss_pt s) (ss_data s) (ss_panic s).
Definition with_c (l : list scpu) (s : sst) : sst := mkSst (ss_proc s) l (ss_int s) (ss_lk s) (ss_pt s) (ss_data s) (ss_panic s).
Definition with_int (l : list cint) (s : sst) : sst := mkSst (ss_proc s) (ss_cpu s) l (ss_lk s) (ss_pt s) (ss_data s) (ss_panic s).
Definition with_lk (l : option nat) (s : sst) : sst := mkSst (ss_proc s) (ss_cpu s) (ss_int s) l (ss_pt s) (ss_data s) (ss_panic s).
Definition with_pt (l : option holder) (s : sst) : sst := mkSst (ss_proc s) (ss_cpu s) (ss_int s) (ss_lk s) l (ss_data s) (ss_panic s).
Definition with_data (d : D) (s : sst) : sst := mkSst (ss_proc s) (ss_cpu s) (ss_int s) (ss_lk s) (ss_pt s) d (ss_panic s).
Definition panicked (s : sst) : sst := mkSst (ss_proc s) (ss_cpu s) (ss_int s) (ss_lk s) (ss_pt s) (ss_data s) true.
Definition upd (i : nat) (f : sproc → sproc) (s : sst) : sst := with_p (alter f i (ss_proc s)) s.

(** [pushcli] and [popcli] on a CPU; [None] is a panic. *)
Definition pushcli (y : cint) : cint := mkCint false (ci_ncli y + 1) (if ci_ncli y =? 0 then ci_if y else ci_intena y).
Definition popcli (y : cint) : option cint :=
  if ci_if y then None
  else if ci_ncli y - 1 <? 0 then None
  else Some (mkCint ((ci_ncli y - 1 =? 0) && ci_intena y) (ci_ncli y - 1) (ci_intena y)).
Definition set_intena (v : bool) (y : cint) : cint := mkCint (ci_if y) (ci_ncli y) v.
Definition set_if (v : bool) (y : cint) : cint := mkCint v (ci_ncli y) (ci_intena y).

Definition on_int (c : nat) (f : cint → cint) (s : sst) : sst := with_int (alter f c (ss_int s)) s.
Definition popped (c : nat) (s : sst) : sst :=
  match ss_int s !! c ≫= popcli with
  | Some y => with_int (<[c := y]> (ss_int s)) s
  | None => panicked s
  end.

(** The CPU that runs process [i]. *)
Fixpoint cpu_of (i : nat) (l : list scpu) (c : nat) : option nat :=
  match l with
  | [] => None
  | x :: l => if decide (x = CRun i) then Some c else cpu_of i l (S c)
  end.

(** [acquire] and [release] of the two locks on CPU [c]: [None] while it spins, a panic for a
    lock that it holds already, or does not hold. *)
Definition acquire_lk (c i : nat) (s : sst) : option sst :=
  match ss_lk s with
  | None => Some (on_int c pushcli (with_lk (Some i) s))
  | Some j => if decide (j = i) then Some (panicked s) else None
  end.
Definition acquire_pt (c : nat) (h : holder) (s : sst) : option sst :=
  match ss_pt s with
  | None => Some (on_int c pushcli (with_pt (Some h) s))
  | Some h' => if decide (h' = h) then Some (panicked s) else None
  end.
Definition release_lk (c i : nat) (s : sst) : sst := if decide (ss_lk s = Some i) then popped c (with_lk None s) else panicked s.
Definition release_pt (c : nat) (h : holder) (s : sst) : sst := if decide (ss_pt s = Some h) then popped c (with_pt None s) else panicked s.

(** [wakeup1] *)
Definition wake1 (c : nat) (p : sproc) : sproc :=
  if bool_decide (sp_state p = SLEEPING) && bool_decide (sp_chan p = Some c) then to_state RUNNABLE p else p.
(** The process that [kill] finds. *)
Definition kill1 (p : sproc) : sproc := if bool_decide (sp_state p = SLEEPING) then to_state RUNNABLE p else p.

(** [sched]: the checks, then [swtch] to the scheduler of CPU [c]; [intena] is saved. *)
Definition do_sched (i c : nat) (p : sproc) (k : ctx) (s : sst) : sst :=
  match ss_int s !! c with
  | None => panicked s
  | Some y =>
      if negb (bool_decide (ss_pt s = Some (HProc i))) then panicked s
      else if negb (ci_ncli y =? 1) then panicked s
      else if bool_decide (sp_state p = RUNNING) then panicked s
      else if ci_if y then panicked s
      else with_pt (Some (HCpu c)) (with_c (<[c := CScan (S i)]> (ss_cpu s)) (upd i (λ p, go (Switched k) (save (ci_intena y) p)) s))
  end.

(** What a process that resumes in [k] on CPU [c] does first: [sched] restores [intena]; then [sleep]
    clears [p->chan], and [yield] releases [ptable.lock].  [forkret] only releases it. *)
Definition resume (i c : nat) (p : sproc) (k : ctx) (s : sst) : sst :=
  match k with
  | InSleep => upd i (λ p, go Sleep5 (to_chan None p)) (on_int c (set_intena (sp_intena p)) s)
  | InYield => release_pt c (HProc i) (upd i (go Out) (on_int c (set_intena (sp_intena p)) s))
  | InFork =>
      let s' := release_pt c (HProc i) s in
      upd i (λ p, go Out (flag (from_option ci_if false (ss_int s' !! c)) p)) s'
  end.

(** What a process may do where the code leaves it a choice, and the step of the
    code it is in otherwise. *)
Inductive act : Type :=
  | Acquire (i : nat) | Release (i : nat) | Write (i : nat) (d : D) | CallSleep (i c : nat) | CallWakeup (i c : nat)
  | CallYield (i : nat) | CallKill (i j : nat)
  | Interrupts (i : nat) (b : bool)      (* a trap or the return from it *)
  | Step (i : nat)
  | Cpu (c : nat).

(** The conditions that turn true. *)
Definition raised (d d' : D) : gset nat := list_to_set (filter (λ c, cond c d' = true ∧ cond c d = false) chans).

Definition proc_step (i c : nat) (p : sproc) (s : sst) : option sst :=
  match sp_pc p with
  | Sleep1 ch => upd i (go (Sleep2 ch)) <$> acquire_pt c (HProc i) s
  | Sleep2 ch => Some (release_lk c i (upd i (go (Sleep3 ch)) s))
  | Sleep3 ch => Some (upd i (λ p, go (Sched InSleep) (to_state SLEEPING (to_chan (Some ch) p))) s)
  | Sched k => Some (do_sched i c p k s)
  | Resumed k => Some (resume i c p k s)
  | Sleep5 => Some (release_pt c (HProc i) (upd i (go Sleep6) s))
  | Sleep6 => upd i (go Crit) <$> acquire_lk c i s
  | Wake1 ch => upd i (go (Wake2 ch)) <$> acquire_pt c (HProc i) s
  | Wake2 ch => Some (upd i (λ p, go Wake3 (owe (sp_owes p ∖ {[ch]}) p)) (with_p (wake1 ch <$> ss_proc s) s))
  | Wake3 => Some (release_pt c (HProc i) (upd i (go Crit) s))
  | Yield1 => upd i (go Yield2) <$> acquire_pt c (HProc i) s
  | Yield2 => Some (upd i (λ p, go (Sched InYield) (to_state RUNNABLE p)) s)
  | Kill1 j => upd i (go (Kill2 j)) <$> acquire_pt c (HProc i) s
  | Kill2 j => Some (upd i (go Kill3) (upd j kill1 s))
  | Kill3 => Some (release_pt c (HProc i) (upd i (go Out) s))
  | Out | Crit | Switched _ => None
  end.

(** A step of [scheduler] on CPU [c]; the loop starts with [sti].  A process that it picks
    while another CPU still runs on the stack of that process counts as a panic. *)
Definition cpu_step (c : nat) (s : sst) : option sst :=
  match ss_cpu s !! c with
  | Some CIdle => with_c (<[c := CScan 0]> (ss_cpu s)) <$> acquire_pt c (HCpu c) (on_int c (set_if true) s)
  | Some (CScan i) =>
      match ss_proc s !! i with
      | None => Some (release_pt c (HCpu c) (with_c (<[c := CIdle]> (ss_cpu s)) s))
      | Some p =>
          match sp_state p, sp_pc p with
          | RUNNABLE, Switched k =>
              Some (with_pt (Some (HProc i)) (with_c (<[c := CRun i]> (ss_cpu s)) (upd i (λ p, go (Resumed k) (to_state RUNNING p)) s)))
          | RUNNABLE, _ => Some (panicked s)
          | _, _ => Some (with_c (<[c := CScan (S i)]> (ss_cpu s)) s)
          end
      end
  | _ => None
  end.

(** A choice of process [i], which is on CPU [c]. *)
Definition choice (i c : nat) (p : sproc) (s : sst) (a : act) : option sst :=
  match a, sp_pc p with
  | Acquire _, Out => upd i (go Crit) <$> acquire_lk c i s
  | Release _, Crit => if decide (sp_owes p = ∅) then Some (release_lk c i (upd i (go Out) s)) else None
  | Write _ d, Crit => Some (with_data d (upd i (λ p, owe (sp_owes p ∪ raised (ss_data s) d) p) s))
  | CallSleep _ c, Crit =>
      if decide (sp_owes p = ∅) then if cond c (ss_data s) then None else Some (upd i (go (Sleep1 c)) s) else None
  | CallWakeup _ c, Crit => Some (upd i (go (Wake1 c)) s)
  | CallYield _, Out => Some (upd i (go Yield1) s)
  | CallKill _ j, Out => Some (upd i (go (Kill1 j)) s)
  | Interrupts _ b, Out => Some (upd i (λ p, go Out (flag b p)) (on_int c (set_if b) s))
  | _, _ => None
  end.

Definition act_proc (a : act) : option nat :=
  match a with
  | Acquire i | Release i | Write i _ | CallSleep i _ | CallWakeup i _ | CallYield i | CallKill i _ | Interrupts i _ | Step i => Some i
  | Cpu _ => None
  end.

Definition pstep (a : act) (s : sst) : option sst :=
  if ss_panic s then None
  else
    match a, act_proc a with
    | Cpu c, _ => cpu_step c s
    | _, Some i =>
        match ss_proc s !! i, cpu_of i (ss_cpu s) 0 with
        | Some p, Some c => match a with Step _ => proc_step i c p s | _ => choice i c p s a end
        | _, _ => None
        end
    | _, None => None
    end.

(** After [userinit] and [mpmain]: no process has run, no CPU has started its first scan. *)
Definition booted (s : sst) : Prop :=
  ss_panic s = false ∧ ss_lk s = None ∧ ss_pt s = None ∧ (∀ c x, ss_cpu s !! c = Some x → x = CIdle) ∧
  length (ss_int s) = length (ss_cpu s) ∧ (∀ c y, ss_int s !! c = Some y → ci_ncli y = 0) ∧
  (∀ i p, ss_proc s !! i = Some p →
     sp_pc p = Switched InFork ∧ (sp_state p = UNUSED ∨ sp_state p = RUNNABLE) ∧ sp_chan p = None ∧ sp_owes p = ∅).

Definition steps (s s' : sst) : Prop := ∃ a, pstep a s = Some s'.

(** *** The invariant *)

Definition in_lk (k : pc) : bool := match k with Crit | Sleep1 _ | Sleep2 _ | Wake1 _ | Wake2 _ | Wake3 => true | _ => false end.
Definition in_pt (k : pc) : bool :=
  match k with
  | Sleep2 _ | Sleep3 _ | Sched _ | Resumed _ | Sleep5 | Wake2 _ | Wake3 | Yield2 | Kill2 _ | Kill3 => true
  | _ => false
  end.
Definition on_cpu (k : pc) : bool := match k with Switched _ => false | _ => true end.
Definition may_owe (k : pc) : bool := match k with Crit | Wake1 _ | Wake2 _ | Wake3 => true | _ => false end.
Definition in_wait (k : pc) : bool := match k with Sched InSleep | Switched InSleep | Resumed InSleep => true | _ => false end.

Definition state_ok (p : sproc) : Prop :=
  match sp_pc p with
  | Sched InSleep => sp_state p = SLEEPING
  | Sched InYield => sp_state p = RUNNABLE
  | Sched InFork => False
  | Switched k => sp_state p ≠ RUNNING ∧ (sp_state p = SLEEPING → k = InSleep)
  | _ => sp_state p = RUNNING
  end.
Definition local (p : sproc) : Prop :=
  state_ok p ∧ (may_owe (sp_pc p) = false → sp_owes p = ∅) ∧ (in_wait (sp_pc p) = false → sp_chan p = None).

(** On its way to sleep on [c], or asleep on it. *)
Definition waiting (p : sproc) (c : nat) : Prop :=
  match sp_pc p with
  | Sleep1 c' | Sleep2 c' | Sleep3 c' => c' = c
  | _ => sp_state p = SLEEPING ∧ sp_chan p = Some c
  end.

Record inv (s : sst) : Prop := mkInv {
  i_panic : ss_panic s = false;
  i_lk : ∀ i p, ss_proc s !! i = Some p → (ss_lk s = Some i ↔ in_lk (sp_pc p) = true);
  i_pt : ∀ i p, ss_proc s !! i = Some p → (ss_pt s = Some (HProc i) ↔ in_pt (sp_pc p) = true);
  i_cpt : ∀ c, ss_pt s = Some (HCpu c) ↔ ∃ k, ss_cpu s !! c = Some (CScan k);
  i_run : ∀ i p, ss_proc s !! i = Some p → ((∃ c, ss_cpu s !! c = Some (CRun i)) ↔ on_cpu (sp_pc p) = true);
  i_inj : ∀ c c' i, ss_cpu s !! c = Some (CRun i) → ss_cpu s !! c' = Some (CRun i) → c = c';
  i_loc : ∀ i p, ss_proc s !! i = Some p → local p;
  i_wait : ∀ i p c, ss_proc s !! i = Some p → waiting p c → cond c (ss_data s) = true →
             ∃ j q, ss_proc s !! j = Some q ∧ c ∈ sp_owes q;
}.

(** The locks that a process at [k] holds. *)
Definition held (k : pc) : Z := Z.b2z (in_lk k) + Z.b2z (in_pt k).

(** The interrupt state [y] of a CPU that runs [p]: [ncli] counts the locks of [p]; with no lock
    [p] has the interrupt flag it set, with one interrupts are off and [intena] remembers it. *)
Definition int_run (y : cint) (p : sproc) : Prop :=
  ci_ncli y = held (sp_pc p) ∧
  if held (sp_pc p) =? 0 then ci_if y = sp_flag p
  else ci_if y = false ∧
    match sp_pc p with
    | Resumed InFork => True
    | Resumed _ => sp_intena p = sp_flag p
    | _ => ci_intena y = sp_flag p
    end.

Record iinv (s : sst) : Prop := mkIinv {
  ii_len : length (ss_int s) = length (ss_cpu s);
  ii_cpu : ∀ c x y, ss_cpu s !! c = Some x → ss_int s !! c = Some y →
    match x with
    | CIdle => ci_ncli y = 0
    | CScan _ => ci_ncli y = 1 ∧ ci_if y = false
    | CRun i => ∃ p, ss_proc s !! i = Some p ∧ int_run y p
    end;
  ii_out : ∀ i p k, ss_proc s !! i = Some p → sp_pc p = Switched k → k ≠ InFork → sp_intena p = sp_flag p;
}.

(** The holder of a lock after its user [x] went from [b] (it held the lock) to [a] (it holds it). *)
Definition own {A} (h : option A) (x : A) (b a : bool) : option A := if a then Some x else if b then None else h.

(** The other processes of [l'] are where they are in [l], and wait for no more. *)
Definition others (i : nat) (l l' : list sproc) : Prop :=
  length l' = length l ∧ ∀ j q', j ≠ i → l' !! j = Some q' →
    ∃ q, l !! j = Some q ∧ sp_pc q' = sp_pc q ∧ sp_owes q' = sp_owes q ∧ local q' ∧ (∀ c, waiting q' c → waiting q c).
End sleep.

Lemma own_self {A} (h : option A) x b a : (h = Some x ↔ b = true) → (own h x b a = Some x ↔ a = true).
Proof. unfold own. intros H. destruct a, b; naive_solver. Qed.
Lemma own_other {A} (h : option A) x y b a :
  x ≠ y → (h = Some x ↔ b = true) → (a = true → b = false → h = None) → (own h x b a = Some y ↔ h = Some y).
Proof.
  unfold own. intros N H Ha. destruct a, b.
  - rewrite (proj2 H eq_refl). naive_solver.
  - rewrite Ha by done. naive_solver.
  - rewrite (proj2 H eq_refl). naive_solver.
  - done.
Qed.

Lemma cpu_of_Some i l c0 c : cpu_of i l c0 = Some c → (c0 ≤ c)%nat ∧ l !! (c - c0)%nat = Some (CRun i).
Proof.
  revert c0. induction l as [|x l IH]; intros c0; cbn [cpu_of]; [done|].
  destruct (decide (x = CRun i)) as [->|N].
  - intros [= ->]. split; [lia|]. by rewrite Nat.sub_diag.
  - intros [? H]%IH. split; [lia|]. replace (c - c0)%nat with (S (c - S c0)) by lia. done.
Qed.

Section proofs.
Context {D : Type} (cond : nat → D → bool) (chans : list nat).

(** A step of process [i] that keeps it on its CPU and leaves the data alone. *)
Lemma inv_proc s i p p' l' int' lk' pt' :
  inv cond s → ss_proc s !! i = Some p → l' !! i = Some p' → others i (ss_proc s) l' →
  on_cpu (sp_pc p) = true → on_cpu (sp_pc p') = true → local p' →
  (in_lk (sp_pc p') = true → in_lk (sp_pc p) = false → ss_lk s = None) →
  (in_pt (sp_pc p') = true → in_pt (sp_pc p) = false → ss_pt s = None) →
  (∀ c, waiting p' c → waiting p c ∨ cond c (ss_data s) = false) →
  (∀ c, c ∈ sp_owes p → c ∈ sp_owes p' ∨ ∀ j q, l' !! j = Some q → ¬ waiting q c) →
  lk' = own (ss_lk s) i (in_lk (sp_pc p)) (in_lk (sp_pc p')) →
  pt' = own (ss_pt s) (HProc i) (in_pt (sp_pc p)) (in_pt (sp_pc p')) →
  inv cond (mkSst l' (ss_cpu s) int' lk' pt' (ss_data s) (ss_panic s)).
Proof.
  intros I Hi Hi' [Len Ho] C1 C2 L1 Hlk Hpt Hw Hd -> ->. destruct I as [I0 I1 I2 I3 I4 I5 I6 I7].
  split; cbn [ss_proc ss_cpu ss_lk ss_pt ss_data ss_panic]; [done|..|done| |].
  - intros j q Hq. destruct (decide (j = i)) as [->|N]; [simplify_eq; by apply own_self, I1|].
    destruct (Ho j q N Hq) as (q0 & H0 & E & _). rewrite E, <- (I1 j q0 H0). apply own_other; [congruence|by apply I1|done].
  - intros j q Hq. destruct (decide (j = i)) as [->|N]; [simplify_eq; by apply own_self, I2|].
    destruct (Ho j q N Hq) as (q0 & H0 & E & _). rewrite E, <- (I2 j q0 H0). apply own_other; [congruence|by apply I2|done].
  - intros c. etrans; [|apply I3]. apply own_other; [congruence|by apply I2|done].
  - intros j q Hq. destruct (decide (j = i)) as [->|N].
    + simplify_eq. rewrite (I4 i p Hi), C1, C2. done.
    + destruct (Ho j q N Hq) as (q0 & H0 & E & _). rewrite E. by apply I4.
  - intros j q Hq. destruct (decide (j = i)) as [->|N]; [by simplify_eq|]. by destruct (Ho j q N Hq) as (? & _ & _ & _ & ? & _).
  - intros j q c Hq W Hc.
    assert (∃ j q, ss_proc s !! j = Some q ∧ c ∈ sp_owes q) as (k & r & Hr & Hin).
    { destruct (decide (j = i)) as [->|N].
      - simplify_eq. destruct (Hw c W) as [W'|F]; [by apply (I7 i p c)|congruence].
      - destruct (Ho j q N Hq) as (q0 & H0 & _ & _ & _ & Hx). apply (I7 j q0 c H0); auto. }
    destruct (decide (k = i)) as [->|N].
    + simplify_eq. destruct (Hd c Hin) as [H|H]; [by exists i, p'|]. by destruct (H j q Hq).
    + destruct (lookup_lt_is_Some_2 l' k) as [r' Hr']; [rewrite Len; by apply lookup_lt_Some in Hr|].
      destruct (Ho k r' N Hr') as (r0 & H0 & _ & E & _). simplify_eq. exists k, r'. by rewrite E.
Qed.

Lemma others_alter i f l : (∀ j p, l !! j = Some p → local p) → others i l (alter f i l).
Proof.
  intros L. split; [apply length_alter|]. intros j q' N. rewrite list_lookup_alter_ne by done. intros H. exists q'. eauto 8.
Qed.

(** The common case: only process [i] changes. *)
Lemma inv_upd s i p f int' lk' pt' :
  inv cond s → ss_proc s !! i = Some p → on_cpu (sp_pc p) = true → on_cpu (sp_pc (f p)) = true → local (f p) →
  (in_lk (sp_pc (f p)) = true → in_lk (sp_pc p) = false → ss_lk s = None) →
  (in_pt (sp_pc (f p)) = true → in_pt (sp_pc p) = false → ss_pt s = None) →
  (∀ c, waiting (f p) c → waiting p c ∨ cond c (ss_data s) = false) →
  sp_owes p = sp_owes (f p) →
  lk' = own (ss_lk s) i (in_lk (sp_pc p)) (in_lk (sp_pc (f p))) →
  pt' = own (ss_pt s) (HProc i) (in_pt (sp_pc p)) (in_pt (sp_pc (f p))) →
  inv cond (mkSst (alter f i (ss_proc s)) (ss_cpu s) int' lk' pt' (ss_data s) (ss_panic s)).
Proof.
  intros I Hi C1 C2 L1 Hlk Hpt Hw Hd -> ->.
  apply (inv_proc s i p (f p)); try done.
  - by rewrite list_lookup_alter_eq, Hi.
  - apply others_alter, (i_loc _ _ I).
  - intros c. rewrite Hd. auto.
Qed.

(** The lock that a process at [sp_pc p] holds is what the step leaves alone. *)
Lemma own_same {A} (h : option A) x b : (h = Some x ↔ b = true) → h = own h x b b.
Proof. unfold own. intros H. destruct b; [by apply H|done]. Qed.

(** Side conditions of a step of process [p] at [E : sp_pc p = _]. *)
Ltac side E L :=
  unfold waiting, local, state_ok in *; rewrite ?E in *; cbn in *;
  first [done | naive_solver | (destruct L as (? & ? & ?); naive_solver)].
Ltac step_upd s i p f I Hi E :=
  let L := fresh "L" in
  pose proof (i_loc _ _ I i p Hi) as L;
  let HL := fresh "HL" in let HP := fresh "HP" in
  pose proof (i_lk _ _ I i p Hi) as HL; pose proof (i_pt _ _ I i p Hi) as HP;
  apply (inv_upd s i p f); try assumption;
  [side E L ..].

Lemma acquire_lk_Some (c i : nat) (s s' : sst (D:=D)) :
  ss_lk s ≠ Some i → acquire_lk c i s = Some s' → ss_lk s = None ∧ s' = on_int c pushcli (with_lk (Some i) s).
Proof. unfold acquire_lk. intros N. destruct (ss_lk s); [|naive_solver]. case_decide; [congruence|done]. Qed.
Lemma acquire_pt_Some c h (s s' : sst (D:=D)) :
  ss_pt s ≠ Some h → acquire_pt c h s = Some s' → ss_pt s = None ∧ s' = on_int c pushcli (with_pt (Some h) s).
Proof. unfold acquire_pt. intros N. destruct (ss_pt s); [|naive_solver]. case_decide; [congruence|done]. Qed.

(** *** Interrupts *)

Lemma on_int_eq c f (s : sst (D:=D)) y : ss_int s !! c = Some y → on_int c f s = with_int (<[c := f y]> (ss_int s)) s.
Proof. intros H. unfold on_int. f_equal. apply list_eq. intros j. destruct (decide (j = c)) as [->|N].
  - rewrite list_lookup_alter_eq, H, list_lookup_insert_eq by (by eapply lookup_lt_Some). done.
  - by rewrite list_lookup_alter_ne, list_lookup_insert_ne.
Qed.

Lemma release_lk_eq c i (s : sst (D:=D)) y y' :
  ss_lk s = Some i → ss_int s !! c = Some y → popcli y = Some y' →
  release_lk c i s = with_int (<[c := y']> (ss_int s)) (with_lk None s).
Proof. intros H1 H2 H3. unfold release_lk, popped. rewrite decide_True by done. cbn [ss_int with_lk]. rewrite H2. cbn. by rewrite H3. Qed.
Lemma release_pt_eq c h (s : sst (D:=D)) y y' :
  ss_pt s = Some h → ss_int s !! c = Some y → popcli y = Some y' →
  release_pt c h s = with_int (<[c := y']> (ss_int s)) (with_pt None s).
Proof. intros H1 H2 H3. unfold release_pt, popped. rewrite decide_True by done. cbn [ss_int with_pt]. rewrite H2. cbn. by rewrite H3. Qed.

(** What [int_run] sees of a process. *)
Definition view (p : sproc) : pc * bool * bool := (sp_pc p, sp_intena p, sp_flag p).

Lemma int_run_view y p q : view q = view p → int_run y p → int_run y q.
Proof. unfold view, int_run. by intros [= -> -> ->]. Qed.

Lemma int_of (s : sst (D:=D)) c x : iinv s → ss_cpu s !! c = Some x → ∃ y, ss_int s !! c = Some y.
Proof. intros I H. apply lookup_lt_is_Some_2. rewrite (ii_len _ I). by eapply lookup_lt_Some. Qed.

Lemma int_run_of (s : sst (D:=D)) c i p y :
  iinv s → ss_cpu s !! c = Some (CRun i) → ss_proc s !! i = Some p → ss_int s !! c = Some y → int_run y p.
Proof. intros I Hc Hi Hy. destruct (ii_cpu _ I c _ y Hc Hy) as (p' & Hp & H). by simplify_eq. Qed.

(** Process [i] on CPU [c] goes to [p'], and only the interrupt state of [c] changes. *)
Lemma iinv_proc (s : sst (D:=D)) l' lk' pt' (d' : D) b' i c p' y' :
  inv cond s → iinv s → ss_cpu s !! c = Some (CRun i) → l' !! i = Some p' → on_cpu (sp_pc p') = true →
  (∀ j, j ≠ i → view <$> l' !! j = view <$> ss_proc s !! j) → int_run y' p' →
  iinv (mkSst l' (ss_cpu s) (<[c := y']> (ss_int s)) lk' pt' d' b').
Proof.
  intros I [I1 I2 I3] Hc Hp' On Hv Hr. split; cbn [ss_proc ss_cpu ss_int].
  - by rewrite length_insert.
  - intros c1 x y Hx. rewrite list_lookup_insert_Some. intros [(<- & <- & _)|(N & Hy)].
    + rewrite Hc in Hx. injection Hx as <-. eauto.
    + specialize (I2 c1 x y Hx Hy). destruct x as [| |j]; [done..|]. destruct I2 as (q & Hq & Hrun).
      assert (j ≠ i) as Nj by (intros ->; apply N; by apply (i_inj _ _ I c c1 i)).
      specialize (Hv j Nj). rewrite Hq in Hv. apply fmap_Some in Hv as (q' & Hq' & Ev). exists q'. split; [done|]. by apply (int_run_view y q).
  - intros j q k Hq E. destruct (decide (j = i)) as [->|N]; [simplify_eq; by rewrite E in On|].
    specialize (Hv j N). rewrite Hq in Hv. symmetry in Hv. apply fmap_Some in Hv as (q0 & Hq0 & Ev).
    injection Ev as E1 E2 E3. rewrite E2, E3. apply (I3 j q0 k Hq0). congruence.
Qed.

Lemma iinv_same (s : sst (D:=D)) l' lk' pt' (d' : D) b' i c p' y :
  inv cond s → iinv s → ss_cpu s !! c = Some (CRun i) → l' !! i = Some p' → on_cpu (sp_pc p') = true →
  (∀ j, j ≠ i → view <$> l' !! j = view <$> ss_proc s !! j) → ss_int s !! c = Some y → int_run y p' →
  iinv (mkSst l' (ss_cpu s) (ss_int s) lk' pt' d' b').
Proof.
  intros I J Hc Hp On Hv Hy Hr. rewrite <-(list_insert_id (ss_int s) c y Hy). by apply (iinv_proc s l' lk' pt' d' b' i c p' y).
Qed.

(** Taking and dropping a lock. *)
Lemma pop_run y p q :
  int_run y p → held (sp_pc p) = held (sp_pc q) + 1 → 0 ≤ held (sp_pc q) → sp_flag q = sp_flag p →
  (∀ k, sp_pc p ≠ Resumed k) → (∀ k, sp_pc q ≠ Resumed k) → ∃ y', popcli y = Some y' ∧ int_run y' q.
Proof.
  unfold int_run. intros [Hn Hf] Hh Hq Eq Np Nq. rewrite (proj2 (Z.eqb_neq _ _)) in Hf by lia. destruct Hf as [Hif Hin].
  assert (ci_intena y = sp_flag p) as Hint by (destruct (sp_pc p) as [| | | | | | |k| | | | | | | | | | ]; try done; by destruct (Np k)).
  unfold popcli. rewrite Hif, Hn, (proj2 (Z.ltb_ge _ _)) by lia. eexists. split; [done|]. cbn [ci_ncli ci_if ci_intena]. split; [lia|].
  rewrite Hh. replace (held (sp_pc q) + 1 - 1) with (held (sp_pc q)) by lia. destruct (held (sp_pc q) =? 0); cbn [andb]; [congruence|].
  split; [done|]. rewrite Eq. destruct (sp_pc q) as [| | | | | | |k| | | | | | | | | | ]; try done. by destruct (Nq k).
Qed.

Lemma push_run y p q :
  int_run y p → held (sp_pc q) = held (sp_pc p) + 1 → 0 ≤ held (sp_pc p) → sp_flag q = sp_flag p →
  (∀ k, sp_pc p ≠ Resumed k) → (∀ k, sp_pc q ≠ Resumed k) → int_run (pushcli y) q.
Proof.
  unfold int_run. intros [Hn Hf] Hh Hq Eq Np Nq. cbn [pushcli ci_ncli ci_if ci_intena]. split; [lia|].
  rewrite (proj2 (Z.eqb_neq _ _)) by lia. split; [done|].
  assert ((if ci_ncli y =? 0 then ci_if y else ci_intena y) = sp_flag q) as H.
  { rewrite Eq, Hn. destruct (held (sp_pc p) =? 0); [done|]. destruct Hf as [_ Hf].
    destruct (sp_pc p) as [| | | | | | |k| | | | | | | | | | ]; try done; by destruct (Np k). }
  destruct (sp_pc q) as [| | | | | | |k| | | | | | | | | | ]; try done. by destruct (Nq k).
Qed.

Lemma stay_run y p q :
  int_run y p → held (sp_pc q) = held (sp_pc p) → sp_flag q = sp_flag p →
  (∀ k, sp_pc p ≠ Resumed k) → (∀ k, sp_pc q ≠ Resumed k) → int_run y q.
Proof.
  unfold int_run. intros [Hn Hf] Hh Eq Np Nq. rewrite Hh, Eq. split; [done|]. destruct (held (sp_pc p) =? 0); [done|]. destruct Hf as [Hif Hf].
  split; [done|]. assert (ci_intena y = sp_flag p) by (destruct (sp_pc p) as [| | | | | | |k| | | | | | | | | | ]; try done; by destruct (Np k)).
  destruct (sp_pc q) as [| | | | | | |k| | | | | | | | | | ]; try done. by destruct (Nq k).
Qed.

Definition full (s : sst (D:=D)) : Prop := inv cond s ∧ iinv s.

Lemma view_alter i f (l : list sproc) j : j ≠ i → view <$> alter f i l !! j = view <$> l !! j.
Proof. intros N. by rewrite list_lookup_alter_ne. Qed.

(** A process that is made runnable was switched out, and only stops waiting. *)
Lemma woken_facts q :
  local q → in_pt (sp_pc q) = false → sp_state q = SLEEPING →
  sp_pc (to_state RUNNABLE q) = sp_pc q ∧ sp_owes (to_state RUNNABLE q) = sp_owes q ∧ local (to_state RUNNABLE q) ∧
  (∀ c, waiting (to_state RUNNABLE q) c → waiting q c).
Proof.
  intros (L1 & L2 & L3) Hp Hs. split; [done|]. split; [done|].
  unfold local, state_ok, waiting in *. cbn. destruct (sp_pc q) as [| | | | |[]|[]| | | | | | | | | | |]; cbn in *; try congruence; naive_solver.
Qed.

Lemma same_facts q : local q → sp_pc q = sp_pc q ∧ sp_owes q = sp_owes q ∧ local q ∧ (∀ c, waiting q c → waiting q c).
Proof. eauto. Qed.

Lemma pt_other s i j q : inv cond s → ss_pt s = Some (HProc i) → j ≠ i → ss_proc s !! j = Some q → in_pt (sp_pc q) = false.
Proof. intros I H N Hq. apply not_true_iff_false. intros X%(i_pt _ _ I j q Hq). congruence. Qed.

Lemma wake1_running ch p : sp_state p = RUNNING → wake1 ch p = p.
Proof. intros R. unfold wake1. by rewrite R. Qed.

(** While [i] has both locks no process is between its check of [ch] and its sleep. *)
Lemma wake2_none s i p ch j q :
  inv cond s → ss_proc s !! i = Some p → sp_pc p = Wake2 ch →
  alter (λ p, go Wake3 (owe (sp_owes p ∖ {[ch]}) p)) i (wake1 ch <$> ss_proc s) !! j = Some q → ¬ waiting q ch.
Proof.
  intros I Hi E. destruct (i_loc _ _ I i p Hi) as [R _]. unfold state_ok in R.
  pose proof (proj2 (i_lk _ _ I i p Hi)) as HL. pose proof (proj2 (i_pt _ _ I i p Hi)) as HP. rewrite E in HL, HP, R.
  intros Hq Hw. destruct (decide (j = i)) as [->|N].
    - rewrite list_lookup_alter_eq, list_lookup_fmap, Hi in Hq. cbn in Hq. rewrite (wake1_running ch p R) in Hq. simplify_eq.
      unfold waiting in Hw. cbn in Hw. destruct Hw; congruence.
    - rewrite list_lookup_alter_ne, list_lookup_fmap in Hq by done. apply fmap_Some in Hq as (q0 & H0 & ->).
      pose proof (proj2 (i_lk _ _ I j q0 H0)) as HLj. pose proof (proj2 (i_pt _ _ I j q0 H0)) as HPj.
      rewrite HL in HLj by done. rewrite HP in HPj by done. unfold waiting, wake1 in Hw.
      destruct (bool_decide_reflect (sp_state q0 = SLEEPING)), (bool_decide_reflect (sp_chan q0 = Some ch)); cbn in Hw;
        destruct (sp_pc q0); cbn in *; try (specialize (HLj eq_refl)); try (specialize (HPj eq_refl)); try congruence; destruct Hw; congruence.
Qed.

Lemma wake2_inv s i p ch :
  inv cond s → ss_proc s !! i = Some p → sp_pc p = Wake2 ch →
  inv cond (upd i (λ p, go Wake3 (owe (sp_owes p ∖ {[ch]}) p)) (with_p (wake1 ch <$> ss_proc s) s)).
Proof.
  intros I Hi E. pose proof (i_loc _ _ I i p Hi) as L.
  pose proof (proj2 (i_lk _ _ I i p Hi)) as HL. pose proof (proj2 (i_pt _ _ I i p Hi)) as HP. rewrite E in HL, HP.
  assert (sp_state p = RUNNING) as R by (destruct L as [L _]; unfold state_ok in L; by rewrite E in L).
  apply (inv_proc s i p (go Wake3 (owe (sp_owes p ∖ {[ch]}) p))
    (alter (λ p, go Wake3 (owe (sp_owes p ∖ {[ch]}) p)) i (wake1 ch <$> ss_proc s))); try assumption; rewrite ?E; try done.
  - by rewrite list_lookup_alter_eq, list_lookup_fmap, Hi; cbn; rewrite (wake1_running ch p R).
  - split; [by rewrite length_alter, length_fmap|]. intros j q' N. rewrite list_lookup_alter_ne, list_lookup_fmap by done.
    intros (q & Hq & ->)%fmap_Some. exists q. split; [done|].
    unfold wake1. destruct (_ && _) eqn:Hs; [|apply same_facts, (i_loc _ _ I j q Hq)].
    apply andb_true_iff in Hs as [Hs%bool_decide_eq_true _]. apply woken_facts, Hs; [apply (i_loc _ _ I j q Hq)|].
    apply (pt_other s i j); auto.
  - side E L.
  - intros c. unfold waiting. rewrite E. cbn. naive_solver.
  - intros c Hin. destruct (decide (c = ch)) as [->|]; [right; intros j q; by apply (wake2_none s i p)|left; cbn; set_solver].
  - cbn. by rewrite HL.
  - cbn. by rewrite HP.
Qed.

Lemma kill2_inv s i p j :
  inv cond s → ss_proc s !! i = Some p → sp_pc p = Kill2 j → inv cond (upd i (go Kill3) (upd j kill1 s)).
Proof.
  intros I Hi E. pose proof (i_loc _ _ I i p Hi) as L.
  pose proof (proj2 (i_pt _ _ I i p Hi)) as HP. pose proof (i_lk _ _ I i p Hi) as HL. rewrite E in HP, HL.
  assert (sp_state p = RUNNING) as R by (destruct L as [L _]; unfold state_ok in L; by rewrite E in L).
  assert (alter kill1 j (ss_proc s) !! i = Some p) as Hi'.
  { destruct (decide (i = j)) as [<-|N]; [|by rewrite list_lookup_alter_ne].
    rewrite list_lookup_alter_eq, Hi. cbn. unfold kill1. by rewrite R. }
  apply (inv_proc s i p (go Kill3 p) (alter (go Kill3) i (alter kill1 j (ss_proc s)))); try assumption; rewrite ?E; try done.
  - by rewrite list_lookup_alter_eq, Hi'.
  - split; [by rewrite !length_alter|]. intros k q' N. rewrite list_lookup_alter_ne by done.
    destruct (decide (k = j)) as [->|N'].
    + rewrite list_lookup_alter_eq. intros (q & Hq & ->)%fmap_Some. exists q. split; [done|].
      unfold kill1. destruct (bool_decide_reflect (sp_state q = SLEEPING)) as [Hs|]; [|apply same_facts, (i_loc _ _ I j q Hq)].
      apply woken_facts, Hs; [apply (i_loc _ _ I j q Hq)|]. apply (pt_other s i j); auto.
    + rewrite list_lookup_alter_ne by done. intros Hq. exists q'. pose proof (i_loc _ _ I k q' Hq). eauto 8.
  - side E L.
  - intros c. unfold waiting. rewrite E. cbn. naive_solver.
  - intros c Hin. by left.
  - cbn. by rewrite HP.
Qed.

(** The checks of [sched] pass, and the scheduler of [c] goes on with [ptable.lock]. *)
Lemma do_sched_eq s i c p k y :
  inv cond s → ss_proc s !! i = Some p → ss_int s !! c = Some y → int_run y p → sp_pc p = Sched k →
  do_sched i c p k s = with_pt (Some (HCpu c)) (with_c (<[c := CScan (S i)]> (ss_cpu s)) (upd i (λ p, go (Switched k) (save (ci_intena y) p)) s)).
Proof.
  intros I Hi Hy [Hn Hf] E. pose proof (proj2 (i_pt _ _ I i p Hi)) as HP.
  destruct (i_loc _ _ I i p Hi) as (L & _). unfold state_ok in L. rewrite E in HP, L, Hn, Hf. specialize (HP eq_refl).
  unfold do_sched. rewrite Hy, bool_decide_eq_true_2 by done. cbn [negb]. rewrite Hn. change (held (Sched k)) with 1 in *. cbn [Z.eqb Pos.eqb negb].
  destruct Hf as [-> _]. rewrite bool_decide_eq_false_2; [done|]. by destruct k; [rewrite L|rewrite L|].
Qed.

Lemma local_switched p k v : sp_pc p = Sched k → local p → local (go (Switched k) (save v p)).
Proof.
  intros E (L1 & L2 & L3). unfold local, state_ok in *. rewrite E in *.
  destruct k; cbn in *; [rewrite L1|rewrite L1|done]; naive_solver.
Qed.

Lemma sched_inv s i c p k v :
  inv cond s → ss_proc s !! i = Some p → ss_cpu s !! c = Some (CRun i) → sp_pc p = Sched k →
  inv cond (with_pt (Some (HCpu c)) (with_c (<[c := CScan (S i)]> (ss_cpu s)) (upd i (λ p, go (Switched k) (save v p)) s))).
Proof.
  intros I Hi Hc E.
  pose proof (proj2 (i_pt _ _ I i p Hi)) as HP. pose proof (i_lk _ _ I i p Hi) as HL.
  pose proof (i_loc _ _ I i p Hi) as L. rewrite E in HP, HL. specialize (HP eq_refl).
  destruct I as [I0 I1 I2 I3 I4 I5 I6 I7].
  assert (∀ j q, alter (λ p, go (Switched k) (save v p)) i (ss_proc s) !! j = Some q →
    (j = i ∧ q = go (Switched k) (save v p)) ∨ (j ≠ i ∧ ss_proc s !! j = Some q)) as Hl.
  { intros j q. destruct (decide (j = i)) as [->|]; [rewrite list_lookup_alter_eq, Hi|rewrite list_lookup_alter_ne by done]; naive_solver. }
  split; cbn [ss_proc ss_cpu ss_lk ss_pt ss_data ss_panic with_pt with_c upd with_p]; [done|..].
  - intros j q [[-> ->]|[N Hq]]%Hl; [cbn; by rewrite HL|by apply I1].
  - intros j q [[-> ->]|[N Hq]]%Hl; [done|]. split; [done|]. intros X%(I2 j q Hq). congruence.
  - intros c'. setoid_rewrite list_lookup_insert_Some. split.
    + intros [= <-]. exists (S i). left. eauto using lookup_lt_Some.
    + intros (x & [(<- & _)|(N & X)]); [done|]. assert (ss_pt s = Some (HCpu c')) by (apply I3; eauto). congruence.
  - intros j q Hq. setoid_rewrite list_lookup_insert_Some. apply Hl in Hq as [[-> ->]|[N Hq]].
    + split; [|done]. intros (c' & [(_ & ? & _)|(N & X)]); [done|]. by destruct N; apply (I5 _ _ i).
    + rewrite <- (I4 j q Hq). split; intros (c' & H); exists c'; [naive_solver|]. right. split; [congruence|done].
  - intros c1 c2 j. rewrite !list_lookup_insert_Some. intros [(_ & ? & _)|(_ & H1)]; [done|].
    intros [(_ & ? & _)|(_ & H2)]; [done|]. by apply (I5 c1 c2 j).
  - intros j q [[-> ->]|[N Hq]]%Hl; [by apply local_switched|by eapply I6].
  - intros j q ch Hq Hw Hd. cut (∃ j q, ss_proc s !! j = Some q ∧ ch ∈ sp_owes q).
    + intros (x & r & Hr & Hin). destruct (decide (x = i)) as [->|N].
      * exists i, (go (Switched k) (save v p)). rewrite list_lookup_alter_eq, Hi. simplify_eq. done.
      * exists x, r. by rewrite list_lookup_alter_ne.
    + apply Hl in Hq as [[-> ->]|[N Hq]]; [|by apply (I7 j q)]. apply (I7 i p); [done| |done].
      unfold waiting in *. by rewrite E.
Qed.

(** The scheduler of [c] takes over the interrupt state of the process. *)
Lemma sched_iinv s i c p k y :
  inv cond s → iinv s → ss_proc s !! i = Some p → ss_cpu s !! c = Some (CRun i) → ss_int s !! c = Some y → sp_pc p = Sched k →
  iinv (with_pt (Some (HCpu c)) (with_c (<[c := CScan (S i)]> (ss_cpu s)) (upd i (λ p, go (Switched k) (save (ci_intena y) p)) s))).
Proof.
  intros I J Hi Hc Hy E. pose proof (int_run_of s c i p y J Hc Hi Hy) as [Hn Hf]. rewrite E in Hn, Hf. change (held (Sched k)) with 1 in *.
  destruct Hf as [Hif Hint]. destruct J as [J1 J2 J3]. split; cbn [ss_proc ss_cpu ss_int with_pt with_c upd with_p].
  - by rewrite length_insert.
  - intros c1 x y1. rewrite list_lookup_insert_Some. intros [(<- & <- & _)|(N & Hx)] Hy1; [by simplify_eq|].
    specialize (J2 c1 x y1 Hx Hy1). destruct x as [| |j]; [done..|]. destruct J2 as (q & Hq & Hr). exists q. split; [|done].
    rewrite list_lookup_alter_ne; [done|]. intros <-. apply N. by apply (i_inj _ _ I c c1 i).
  - intros j q k' Hq. destruct (decide (j = i)) as [->|N].
    + rewrite list_lookup_alter_eq, Hi in Hq. by injection Hq as <-.
    + rewrite list_lookup_alter_ne in Hq by done. by apply (J3 j q k').
Qed.

(** Process [i] goes on while the interrupt state of its CPU changes by [g], or to [y']. *)
Lemma on_int_iinv (s s1 : sst (D:=D)) i c p f g y :
  full s → ss_proc s !! i = Some p → ss_cpu s !! c = Some (CRun i) → ss_int s !! c = Some y →
  ss_proc s1 = ss_proc s → ss_cpu s1 = ss_cpu s → ss_int s1 = ss_int s →
  on_cpu (sp_pc (f p)) = true → int_run (g y) (f p) → iinv (upd i f (on_int c g s1)).
Proof.
  intros [I J] Hi Hc Hy E1 E2 E3 On Hr. rewrite (on_int_eq c g s1 y) by congruence. unfold upd, with_p, with_int. cbn [ss_proc ss_cpu ss_int ss_lk ss_pt ss_data ss_panic].
  rewrite E1, E2, E3. apply (iinv_proc s _ _ _ _ _ i c (f p)); try done; [by rewrite list_lookup_alter_eq, Hi|apply view_alter].
Qed.

Lemma pop_iinv (s s1 : sst (D:=D)) i c p f y' :
  full s → ss_proc s !! i = Some p → ss_cpu s !! c = Some (CRun i) →
  ss_proc s1 = alter f i (ss_proc s) → ss_cpu s1 = ss_cpu s → on_cpu (sp_pc (f p)) = true → int_run y' (f p) →
  iinv (with_int (<[c := y']> (ss_int s)) s1).
Proof.
  intros [I J] Hi Hc E1 E2 On Hr. unfold with_int. rewrite E1, E2.
  apply (iinv_proc s _ _ _ _ _ i c (f p)); try done; [by rewrite list_lookup_alter_eq, Hi|apply view_alter].
Qed.

Lemma stay_iinv s i c p f y :
  full s → ss_proc s !! i = Some p → ss_cpu s !! c = Some (CRun i) → ss_int s !! c = Some y →
  on_cpu (sp_pc (f p)) = true → int_run y (f p) → iinv (upd i f s).
Proof.
  intros [I J] Hi Hc Hy On Hr.
  apply (iinv_same s _ _ _ _ _ i c (f p) y); try done; [by rewrite list_lookup_alter_eq, Hi|apply view_alter].
Qed.

(** [int_run] after a step from [E : sp_pc p = _]. *)
Ltac irun L E := eapply L; first [eassumption | cbn; rewrite ?E; cbn; first [reflexivity | done | discriminate]].

Section one.
Context (s : sst (D:=D)) (i c : nat) (p : sproc) (y : cint).
Context (F : full s) (Hi : ss_proc s !! i = Some p) (Hc : ss_cpu s !! c = Some (CRun i)) (Hy : ss_int s !! c = Some y).

Lemma one_run : int_run y p.
Proof. destruct F as [_ J]. by apply (int_run_of s c i p y J). Qed.

Lemma no_lk : in_lk (sp_pc p) = false → ss_lk s ≠ Some i.
Proof. destruct F as [I _]. intros E X%(i_lk _ _ I i p Hi). congruence. Qed.
Lemma no_pt : in_pt (sp_pc p) = false → ss_pt s ≠ Some (HProc i).
Proof. destruct F as [I _]. intros E X%(i_pt _ _ I i p Hi). congruence. Qed.
Lemma has_lk : in_lk (sp_pc p) = true → ss_lk s = Some i.
Proof. destruct F as [I _]. apply (i_lk _ _ I i p Hi). Qed.
Lemma has_pt : in_pt (sp_pc p) = true → ss_pt s = Some (HProc i).
Proof. destruct F as [I _]. apply (i_pt _ _ I i p Hi). Qed.

Lemma acquire_pt_full f s' :
  (ss_pt s = None → inv cond (upd i f (on_int c pushcli (with_pt (Some (HProc i)) s)))) →
  in_pt (sp_pc p) = false → on_cpu (sp_pc (f p)) = true → int_run (pushcli y) (f p) →
  upd i f <$> acquire_pt c (HProc i) s = Some s' → full s'.
Proof.
  intros HI E On Hr (s1 & H1 & ->)%fmap_Some. apply acquire_pt_Some in H1 as [N ->]; [|by apply no_pt].
  split; [by apply HI|]. by apply (on_int_iinv s _ i c p f pushcli y).
Qed.
Lemma acquire_lk_full f s' :
  (ss_lk s = None → inv cond (upd i f (on_int c pushcli (with_lk (Some i) s)))) →
  in_lk (sp_pc p) = false → on_cpu (sp_pc (f p)) = true → int_run (pushcli y) (f p) →
  upd i f <$> acquire_lk c i s = Some s' → full s'.
Proof.
  intros HI E On Hr (s1 & H1 & ->)%fmap_Some. apply acquire_lk_Some in H1 as [N ->]; [|by apply no_lk].
  split; [by apply HI|]. by apply (on_int_iinv s _ i c p f pushcli y).
Qed.
Lemma release_pt_full f :
  (∀ int', inv cond (with_int int' (with_pt None (upd i f s)))) → in_pt (sp_pc p) = true → on_cpu (sp_pc (f p)) = true →
  (∃ y', popcli y = Some y' ∧ int_run y' (f p)) → full (release_pt c (HProc i) (upd i f s)).
Proof.
  intros HI E On (y' & Hp & Hr). rewrite (release_pt_eq c (HProc i) (upd i f s) y y' (has_pt E) Hy Hp).
  split; [apply HI|]. by apply (pop_iinv s _ i c p f).
Qed.
Lemma release_lk_full f :
  (∀ int', inv cond (with_int int' (with_lk None (upd i f s)))) → in_lk (sp_pc p) = true → on_cpu (sp_pc (f p)) = true →
  (∃ y', popcli y = Some y' ∧ int_run y' (f p)) → full (release_lk c i (upd i f s)).
Proof.
  intros HI E On (y' & Hp & Hr). rewrite (release_lk_eq c i (upd i f s) y y' (has_lk E) Hy Hp).
  split; [apply HI|]. by apply (pop_iinv s _ i c p f).
Qed.
End one.

Lemma resume_full s i c p y k :
  full s → ss_proc s !! i = Some p → ss_cpu s !! c = Some (CRun i) → ss_int s !! c = Some y → sp_pc p = Resumed k → full (resume i c p k s).
Proof.
  intros F Hi Hc Hy E. pose proof F as [I J]. pose proof (one_run s i c p y F Hi Hc Hy) as [Hn Hf]. rewrite E in Hn, Hf.
  change (held (Resumed k)) with 1 in *. cbn [Z.eqb] in Hf. destruct Hf as [Hif Hint].
  pose proof (has_pt s i p F Hi ltac:(by rewrite E)) as HP. destruct k; cbn [resume].
  - split; [step_upd s i p (λ p, go Sleep5 (to_chan None p)) I Hi E|].
    apply (on_int_iinv s _ i c p _ _ y); done.
  - rewrite (on_int_eq c _ s y Hy). set (y1 := set_intena (sp_intena p) y). set (s1 := with_int _ s).
    assert (popcli y1 = Some (mkCint (sp_intena p) 0 (sp_intena p))) as Hp.
    { unfold popcli, y1. cbn. by rewrite Hif, Hn. }
    assert (ss_int (upd i (go Out) s1) !! c = Some y1) as Hy1 by (cbn; apply list_lookup_insert_eq; by eapply lookup_lt_Some).
    rewrite (release_pt_eq c (HProc i) (upd i (go Out) s1) y1 _ HP Hy1 Hp).
    cbn [ss_int upd with_p s1 with_int]. rewrite list_insert_insert_eq. split; [step_upd s i p (go Out) I Hi E|].
    apply (pop_iinv s _ i c p (go Out)); done.
  - assert (popcli y = Some (mkCint (ci_intena y) 0 (ci_intena y))) as Hp by (unfold popcli; by rewrite Hif, Hn).
    rewrite (release_pt_eq c (HProc i) s y _ HP Hy Hp). cbn [ss_int with_int]. rewrite list_lookup_insert_eq by (by eapply lookup_lt_Some). cbn [from_option ci_if].
    split; [step_upd s i p (λ p, go Out (flag (ci_intena y) p)) I Hi E|].
    change (upd i ?f (with_int ?l ?x)) with (with_int l (upd i f x)).
    apply (pop_iinv s _ i c p (λ p, go Out (flag (ci_intena y) p))); done.
Qed.

Lemma proc_step_full s i c p y s' :
  full s → ss_proc s !! i = Some p → ss_cpu s !! c = Some (CRun i) → ss_int s !! c = Some y → proc_step i c p s = Some s' → full s'.
Proof.
  intros F Hi Hc Hy. pose proof F as [I J]. pose proof (one_run s i c p y F Hi Hc Hy) as R.
  unfold proc_step. destruct (sp_pc p) as [| |ch|ch|ch|k|k|k| | |ch|ch| | | |j|j| ] eqn:E; try done.
  - apply (acquire_pt_full s i c p y F Hi Hc Hy); [intros N; step_upd s i p (go (Sleep2 ch)) I Hi E|by rewrite E|done|irun push_run E].
  - intros [= <-]. apply (release_lk_full s i c p y F Hi Hc Hy); [intros int'; step_upd s i p (go (Sleep3 ch)) I Hi E|by rewrite E|done|irun pop_run E].
  - intros [= <-]. split; [step_upd s i p (λ p, go (Sched InSleep) (to_state SLEEPING (to_chan (Some ch) p))) I Hi E|].
    apply (stay_iinv s i c p _ y); try done. irun stay_run E.
  - intros [= <-]. rewrite (do_sched_eq s i c p k y) by done. split; [by apply (sched_inv s i c p k)|by apply (sched_iinv s i c p k y)].
  - intros [= <-]. by apply (resume_full s i c p y k).
  - intros [= <-]. apply (release_pt_full s i c p y F Hi Hc Hy); [intros int'; step_upd s i p (go Sleep6) I Hi E|by rewrite E|done|irun pop_run E].
  - apply (acquire_lk_full s i c p y F Hi Hc Hy); [intros N; step_upd s i p (go Crit) I Hi E|by rewrite E|done|irun push_run E].
  - apply (acquire_pt_full s i c p y F Hi Hc Hy); [intros N; step_upd s i p (go (Wake2 ch)) I Hi E|by rewrite E|done|irun push_run E].
  - intros [= <-]. split; [by eapply wake2_inv|]. apply (iinv_same s _ _ _ _ _ i c (go Wake3 (owe (sp_owes p ∖ {[ch]}) p)) y); try done.
    + cbn [ss_proc with_p]. rewrite list_lookup_alter_eq, list_lookup_fmap, Hi. cbn. rewrite (wake1_running ch p); [done|].
      destruct (i_loc _ _ I i p Hi) as [L _]. unfold state_ok in L. by rewrite E in L.
    + intros j N. cbn [ss_proc with_p]. rewrite view_alter, list_lookup_fmap by done. destruct (ss_proc s !! j) as [q|]; [|done]. cbn. unfold wake1. by case_match.
    + irun stay_run E.
  - intros [= <-]. apply (release_pt_full s i c p y F Hi Hc Hy); [intros int'; step_upd s i p (go Crit) I Hi E|by rewrite E|done|irun pop_run E].
  - apply (acquire_pt_full s i c p y F Hi Hc Hy); [intros N; step_upd s i p (go Yield2) I Hi E|by rewrite E|done|irun push_run E].
  - intros [= <-]. split; [step_upd s i p (λ p, go (Sched InYield) (to_state RUNNABLE p)) I Hi E|].
    apply (stay_iinv s i c p _ y); try done. irun stay_run E.
  - apply (acquire_pt_full s i c p y F Hi Hc Hy); [intros N; step_upd s i p (go (Kill2 j)) I Hi E|by rewrite E|done|irun push_run E].
  - intros [= <-]. split; [by eapply kill2_inv|]. apply (iinv_same s _ _ _ _ _ i c (go Kill3 p) y); try done.
    + cbn [ss_proc with_p upd]. rewrite list_lookup_alter_eq. destruct (decide (i = j)) as [<-|N]; [|by rewrite list_lookup_alter_ne, Hi].
      rewrite list_lookup_alter_eq, Hi. cbn. unfold kill1. destruct (i_loc _ _ I i p Hi) as [L _]. unfold state_ok in L. rewrite E in L. by rewrite L.
    + intros j' N. rewrite view_alter by done. cbn. destruct (decide (j' = j)) as [->|N']; [|by rewrite list_lookup_alter_ne].
      rewrite list_lookup_alter_eq. destruct (ss_proc s !! j) as [q|]; [|done]. cbn. unfold kill1. by case_match.
    + irun stay_run E.
  - intros [= <-]. apply (release_pt_full s i c p y F Hi Hc Hy); [intros int'; step_upd s i p (go Out) I Hi E|by rewrite E|done|irun pop_run E].
Qed.

(** A write by the holder of [lk] that records the conditions it makes true. *)
Lemma data_inv s i p d :
  (∀ c d, cond c d = true → c ∈ chans) →
  inv cond s → ss_proc s !! i = Some p → sp_pc p = Crit →
  inv cond (with_data d (upd i (λ p, owe (sp_owes p ∪ raised cond chans (ss_data s) d) p) s)).
Proof.
  intros Hall I Hi E. pose proof (i_loc _ _ I i p Hi) as L. destruct I as [I0 I1 I2 I3 I4 I5 I6 I7].
  set (f := λ p, owe (sp_owes p ∪ raised cond chans (ss_data s) d) p).
  assert (∀ j q, alter f i (ss_proc s) !! j = Some q →
    ∃ q0, ss_proc s !! j = Some q0 ∧ sp_pc q = sp_pc q0 ∧ sp_state q = sp_state q0 ∧ sp_chan q = sp_chan q0) as Hl.
  { intros j q. destruct (decide (j = i)) as [->|]; [rewrite list_lookup_alter_eq, Hi|rewrite list_lookup_alter_ne by done]; [|eauto].
    intros [= <-]. by exists p. }
  split; cbn [ss_proc ss_cpu ss_lk ss_pt ss_data ss_panic with_data upd with_p]; [done|..|done| |].
  - intros j q (q0 & H & -> & _)%Hl. by apply I1.
  - intros j q (q0 & H & -> & _)%Hl. by apply I2.
  - done.
  - intros j q (q0 & H & -> & _)%Hl. by apply I4.
  - intros j q Hq. destruct (decide (j = i)) as [->|N]; [|rewrite list_lookup_alter_ne in Hq by done; by apply (I6 j)].
    rewrite list_lookup_alter_eq, Hi in Hq. injection Hq as <-. destruct L as (L1 & L2 & L3). unfold local, state_ok in *. cbn.
    rewrite E in *. done.
  - intros j q c Hq Hw Hd. destruct (cond c (ss_data s)) eqn:Hc.
    + destruct (Hl j q Hq) as (q0 & H0 & Ep & Es & Ec).
      destruct (I7 j q0 c H0) as (k & r & Hr & Hin); [|done|]; [unfold waiting in *; by rewrite <- Ep, <- Es, <- Ec|].
      destruct (decide (k = i)) as [->|N]; [|by exists k, r; rewrite list_lookup_alter_ne].
      exists i, (f p). rewrite list_lookup_alter_eq, Hi. simplify_eq. split; [done|]. cbn. set_solver.
    + exists i, (f p). rewrite list_lookup_alter_eq, Hi. split; [done|]. cbn. apply elem_of_union_r.
      unfold raised. rewrite elem_of_list_to_set, list_elem_of_filter. eauto.
Qed.

Lemma choice_full s i c p y a s' :
  (∀ c d, cond c d = true → c ∈ chans) →
  full s → ss_proc s !! i = Some p → ss_cpu s !! c = Some (CRun i) → ss_int s !! c = Some y → choice cond chans i c p s a = Some s' → full s'.
Proof.
  intros Hall F Hi Hc Hy. pose proof F as [I J]. pose proof (one_run s i c p y F Hi Hc Hy) as R.
  unfold choice. destruct a as [| |? d|? ch|? ch| |? j|? b| |], (sp_pc p) eqn:E; try done.
  - apply (acquire_lk_full s i c p y F Hi Hc Hy); [intros N; step_upd s i p (go Crit) I Hi E|by rewrite E|done|irun push_run E].
  - case_decide as Hd; [|done]. intros [= <-].
    apply (release_lk_full s i c p y F Hi Hc Hy); [intros int'; step_upd s i p (go Out) I Hi E|by rewrite E|done|irun pop_run E].
  - intros [= <-]. split; [by apply (data_inv s i p)|].
    apply (iinv_same s _ _ _ _ _ i c (owe (sp_owes p ∪ raised cond chans (ss_data s) d) p) y); try done.
    + cbn [ss_proc with_p upd]. by rewrite list_lookup_alter_eq, Hi.
    + cbn. by rewrite E.
    + apply view_alter.
  - case_decide as Hd; [|done]. destruct (cond ch (ss_data s)) eqn:Hch; [done|]. intros [= <-].
    split; [step_upd s i p (go (Sleep1 ch)) I Hi E|]. apply (stay_iinv s i c p _ y); try done. irun stay_run E.
  - intros [= <-]. split; [step_upd s i p (go (Wake1 ch)) I Hi E|]. apply (stay_iinv s i c p _ y); try done. irun stay_run E.
  - intros [= <-]. split; [step_upd s i p (go Yield1) I Hi E|]. apply (stay_iinv s i c p _ y); try done. irun stay_run E.
  - intros [= <-]. split; [step_upd s i p (go (Kill1 j)) I Hi E|]. apply (stay_iinv s i c p _ y); try done. irun stay_run E.
  - intros [= <-]. split; [step_upd s i p (λ p, go Out (flag b p)) I Hi E|]. apply (on_int_iinv s _ i c p _ _ y); try done.
    destruct R as [Hn _]. rewrite E in Hn. by split.
Qed.

(** CPU [c] goes between its idle loop and its scan. *)
Lemma inv_cpu s c x x' int' pt' :
  inv cond s → ss_cpu s !! c = Some x → (∀ i, x ≠ CRun i) → (∀ i, x' ≠ CRun i) →
  (ss_pt s = None ∨ ss_pt s = Some (HCpu c)) →
  pt' = (match x' with CScan _ => Some (HCpu c) | _ => None end) →
  inv cond (with_int int' (with_pt pt' (with_c (<[c := x']> (ss_cpu s)) s))).
Proof.
  intros I Hc N N' Hp ->. destruct I as [I0 I1 I2 I3 I4 I5 I6 I7].
  split; cbn [ss_proc ss_cpu ss_lk ss_pt ss_data ss_panic with_pt with_c with_int]; [done|done|..|done|done].
  - intros j q Hq. rewrite <- (I2 j q Hq). destruct Hp as [-> | ->], x'; naive_solver.
  - intros c'. setoid_rewrite list_lookup_insert_Some. pose proof (lookup_lt_Some _ _ _ Hc). split.
    + destruct x'; [done| |done]. intros [= <-]. eauto 8.
    + intros (k & [(<- & -> & _)|(Nc & X)]); [done|]. assert (ss_pt s = Some (HCpu c')) by (apply I3; eauto). destruct Hp; congruence.
  - intros j q Hq. setoid_rewrite list_lookup_insert_Some. rewrite <- (I4 j q Hq).
    split; intros (c' & H); exists c'; [naive_solver|]. right. split; [intros <-; naive_solver|done].
  - intros c1 c2 j. rewrite !list_lookup_insert_Some. intros [(_ & ? & _)|(_ & H1)]; [naive_solver|].
    intros [(_ & ? & _)|(_ & H2)]; [naive_solver|]. by apply (I5 c1 c2 j).
Qed.

(** The scheduler runs a process that was switched out. *)
Lemma run_inv s c i p k n :
  inv cond s → ss_cpu s !! c = Some (CScan n) → ss_proc s !! i = Some p → sp_pc p = Switched k → sp_state p = RUNNABLE →
  inv cond (with_pt (Some (HProc i)) (with_c (<[c := CRun i]> (ss_cpu s)) (upd i (λ p, go (Resumed k) (to_state RUNNING p)) s))).
Proof.
  intros I Hc Hi E R. pose proof (i_loc _ _ I i p Hi) as L. destruct I as [I0 I1 I2 I3 I4 I5 I6 I7].
  assert (ss_pt s = Some (HCpu c)) as HP by (apply I3; eauto).
  assert (¬ ∃ c, ss_cpu s !! c = Some (CRun i)) as Hno by (rewrite (I4 i p Hi), E; done).
  set (p' := go (Resumed k) (to_state RUNNING p)).
  assert (∀ j q, alter (λ p, go (Resumed k) (to_state RUNNING p)) i (ss_proc s) !! j = Some q →
    (j = i ∧ q = p') ∨ (j ≠ i ∧ ss_proc s !! j = Some q)) as Hl.
  { intros j q. destruct (decide (j = i)) as [->|]; [rewrite list_lookup_alter_eq, Hi|rewrite list_lookup_alter_ne by done]; naive_solver. }
  split; cbn [ss_proc ss_cpu ss_lk ss_pt ss_data ss_panic with_pt with_c upd with_p]; [done|..].
  - intros j q [[-> ->]|[N Hq]]%Hl; [|by apply I1]. rewrite (I1 i p Hi), E. done.
  - intros j q [[-> ->]|[N Hq]]%Hl; [done|]. split; [congruence|]. intros X%(I2 j q Hq). congruence.
  - intros c'. setoid_rewrite list_lookup_insert_Some. split; [done|].
    intros (x & [(<- & ? & _)|(N & X)]); [done|]. assert (ss_pt s = Some (HCpu c')) by (apply I3; eauto). congruence.
  - intros j q Hq. setoid_rewrite list_lookup_insert_Some. pose proof (lookup_lt_Some _ _ _ Hc). apply Hl in Hq as [[-> ->]|[N Hq]].
    + split; [done|]. intros _. exists c. eauto.
    + rewrite <- (I4 j q Hq). split; intros (c' & H'); exists c'; [naive_solver|]. right. split; [congruence|done].
  - intros c1 c2 j. rewrite !list_lookup_insert_Some. pose proof (I5 c1 c2 j). naive_solver.
  - intros j q [[-> ->]|[N Hq]]%Hl; [|by eapply I6]. destruct L as (L1 & L2 & L3). unfold p', local, state_ok in *.
    rewrite E in *. destruct k; naive_solver.
  - intros j q ch [[-> ->]|[N Hq]]%Hl Hw Hd; [by destruct Hw|]. destruct (I7 j q ch Hq Hw Hd) as (x & r & Hr & Hin).
    destruct (decide (x = i)) as [->|Nx]; [|by exists x, r; rewrite list_lookup_alter_ne].
    exists i, p'. rewrite list_lookup_alter_eq, Hi. simplify_eq. done.
Qed.

(** A runnable process is switched out while a scheduler scans. *)
Lemma switched_runnable s c n i p :
  inv cond s → ss_cpu s !! c = Some (CScan n) → ss_proc s !! i = Some p → sp_state p = RUNNABLE → ∃ k, sp_pc p = Switched k.
Proof.
  intros I Hc Hi R. assert (ss_pt s = Some (HCpu c)) as HP by (apply (i_cpt _ _ I); eauto).
  destruct (i_loc _ _ I i p Hi) as (L & _). pose proof (proj2 (i_pt _ _ I i p Hi)) as X. unfold state_ok in L.
  destruct (sp_pc p) as [| |ch|ch|ch|k|k|k| | |ch|ch| | | |j|j| ]; try congruence; [|eauto]. specialize (X eq_refl). congruence.
Qed.

(** The interrupt state of a CPU that goes to [x']; the processes stay. *)
Lemma iinv_cpu (s s1 : sst (D:=D)) c x' y' :
  iinv s → ss_proc s1 = ss_proc s → ss_cpu s1 = <[c := x']> (ss_cpu s) → ss_int s1 = <[c := y']> (ss_int s) →
  match x' with CIdle => ci_ncli y' = 0 | CScan _ => ci_ncli y' = 1 ∧ ci_if y' = false | CRun _ => False end → iinv s1.
Proof.
  intros [J1 J2 J3] E1 E2 E3 H. split; rewrite ?E1, ?E2, ?E3; [by rewrite !length_insert| |done].
  intros c1 x y. rewrite !list_lookup_insert_Some. intros [(<- & <- & _)|(N & Hx)] [(E & <- & _)|(N' & Hy)]; try done; [by destruct x'|].
  by apply (J2 c1 x y).
Qed.

(** The process that the scheduler picks finds the interrupt state of the scan. *)
Lemma run_iinv s c i p k n :
  inv cond s → iinv s → ss_cpu s !! c = Some (CScan n) → ss_proc s !! i = Some p → sp_pc p = Switched k →
  iinv (with_pt (Some (HProc i)) (with_c (<[c := CRun i]> (ss_cpu s)) (upd i (λ p, go (Resumed k) (to_state RUNNING p)) s))).
Proof.
  intros I [J1 J2 J3] Hc Hi E. split; cbn [ss_proc ss_cpu ss_int with_pt with_c upd with_p].
  - by rewrite length_insert.
  - intros c1 x y. rewrite list_lookup_insert_Some. intros [(<- & <- & _)|(N & Hx)] Hy.
    + exists (go (Resumed k) (to_state RUNNING p)). rewrite list_lookup_alter_eq, Hi. split; [done|].
      destruct (J2 c _ y Hc Hy) as [Hn Hif]. split; [done|]. cbn. split; [done|]. destruct k; [by apply (J3 i p InSleep)|by apply (J3 i p InYield)|done].
    + specialize (J2 c1 x y Hx Hy). destruct x as [| |j]; [done..|]. destruct J2 as (q & Hq & Hr). exists q. split; [|done].
      rewrite list_lookup_alter_ne; [done|]. intros <-. pose proof (proj1 (i_run _ _ I i p Hi)) as X. rewrite E in X.
      discriminate X. eauto.
  - intros j q k' Hq Ek. destruct (decide (j = i)) as [->|N].
    + rewrite list_lookup_alter_eq, Hi in Hq. by injection Hq as <-.
    + rewrite list_lookup_alter_ne in Hq by done. by apply (J3 j q k').
Qed.

Lemma cpu_step_full s c s' : full s → cpu_step c s = Some s' → full s'.
Proof.
  intros [I J]. unfold cpu_step. destruct (ss_cpu s !! c) as [x|] eqn:Hc; [|done]. destruct (int_of s c x J Hc) as (y & Hy).
  pose proof (lookup_lt_Some _ _ _ Hy). destruct x as [|i|i]; [| |done].
  - pose proof (ii_cpu _ J c CIdle y Hc Hy) as Hn. cbn in Hn.
    intros (s1 & H1 & ->)%fmap_Some. apply acquire_pt_Some in H1 as [N ->]; [|intros X%(i_cpt _ _ I); by destruct X as (k & X); rewrite Hc in X].
    rewrite (on_int_eq c _ s y Hy). rewrite (on_int_eq c pushcli _ (set_if true y)) by (cbn; by apply list_lookup_insert_eq).
    split; [by apply (inv_cpu s c CIdle (CScan 0)); auto|]. eapply (iinv_cpu s _ c (CScan 0)); [done|done|done|cbn; by rewrite list_insert_insert_eq|].
    cbn. by rewrite Hn.
  - assert (ss_pt s = Some (HCpu c)) as HP by (apply (i_cpt _ _ I); eauto).
    destruct (ii_cpu _ J c (CScan i) y Hc Hy) as [Hn Hif].
    assert (full (with_c (<[c := CScan (S i)]> (ss_cpu s)) s)) as Hnext.
    { split.
      - replace (with_c _ s) with (with_int (ss_int s) (with_pt (Some (HCpu c)) (with_c (<[c := CScan (S i)]> (ss_cpu s)) s))).
        + apply (inv_cpu s c (CScan i) (CScan (S i))); auto.
        + unfold with_int, with_pt, with_c. cbn. by rewrite <- HP.
      - eapply (iinv_cpu s _ c (CScan (S i)) y); [done|done|done|cbn; by rewrite list_insert_id|done]. }
    destruct (ss_proc s !! i) as [p|] eqn:Hi.
    + destruct (sp_state p) eqn:R; try (by intros [= <-]).
      destruct (switched_runnable s c i i p) as [k E]; auto. rewrite E. intros [= <-].
      split; [by apply (run_inv s c i p k i)|by apply (run_iinv s c i p k i)].
    + assert (popcli y = Some (mkCint (ci_intena y) 0 (ci_intena y))) as Hp by (unfold popcli; by rewrite Hif, Hn).
      intros [= <-]. rewrite (release_pt_eq c (HCpu c) (with_c (<[c := CIdle]> (ss_cpu s)) s) y _ HP Hy Hp). split; [by apply (inv_cpu s c (CScan i) CIdle); auto|].
      by eapply (iinv_cpu s _ c CIdle).
Qed.

Lemma sstep_full s a s' : (∀ c d, cond c d = true → c ∈ chans) → full s → pstep cond chans a s = Some s' → full s'.
Proof.
  intros Hall F. unfold pstep. destruct (ss_panic s); [done|].
  destruct a; cbn [act_proc]; try apply cpu_step_full, F.
  all: destruct (ss_proc s !! i) as [p|] eqn:Hi; [|done].
  all: destruct (cpu_of i (ss_cpu s) 0) as [c0|] eqn:Hc; [|done].
  all: apply cpu_of_Some in Hc as [_ Hc]; rewrite Nat.sub_0_r in Hc; destruct (int_of s c0 _ (proj2 F) Hc) as (y & Hy).
  all: first [by apply (proc_step_full s i c0 p y)|by apply (choice_full s i c0 p y)].
Qed.

Lemma booted_inv s : booted s → inv cond s.
Proof.
  intros (H1 & H2 & H3 & H4 & _ & _ & H5). split; [done|..].
  - intros i p Hp. destruct (H5 i p Hp) as (-> & _). by rewrite H2.
  - intros i p Hp. destruct (H5 i p Hp) as (-> & _). by rewrite H3.
  - intros c. rewrite H3. split; [done|]. intros (k & X%H4). done.
  - intros i p Hp. destruct (H5 i p Hp) as (-> & _). split; [|done]. intros (c & X%H4). done.
  - intros c c' i X%H4. done.
  - intros i p Hp. destruct (H5 i p Hp) as (E & S & C & O). unfold local, state_ok. rewrite E, C, O. split; [|done].
    destruct S as [-> | ->]; done.
  - intros i p c Hp Hw. destruct (H5 i p Hp) as (E & S & C & O). unfold waiting in Hw. rewrite E, C in Hw. by destruct Hw.
Qed.

Lemma booted_iinv (s : sst (D:=D)) : booted s → iinv s.
Proof.
  intros (_ & _ & _ & H4 & H5 & H6 & H7). split; [done| |].
  - intros c x y Hx Hy. rewrite (H4 c x Hx). by apply (H6 c y).
  - intros i p k Hp E. destruct (H7 i p Hp) as (E' & _). congruence.
Qed.

Lemma reach_inv s0 s :
  (∀ c d, cond c d = true → c ∈ chans) → booted s0 → rtc (steps cond chans) s0 s → full s.
Proof.
  intros Hall B R. assert (full s0) as F by (split; [by apply booted_inv|by apply booted_iinv]). clear B.
  induction R as [|x y z [a Ha] R IH]; [done|]. apply IH. by apply (sstep_full x a).
Qed.

(** A process that owes a wakeup holds [lk]. *)
Lemma owes_lk s j q c : inv cond s → ss_proc s !! j = Some q → c ∈ sp_owes q → ss_lk s = Some j.
Proof.
  intros I Hj Hin. apply (i_lk _ _ I j q Hj). destruct (i_loc _ _ I j q Hj) as (_ & L & _).
  destruct (sp_pc q); try done; rewrite L in Hin by done; set_solver.
Qed.

Lemma reach_ok s :
  full s →
  ss_panic s = false ∧
  (∀ i p c, ss_proc s !! i = Some p → sp_state p = SLEEPING → sp_chan p = Some c → cond c (ss_data s) = true →
     ∃ j q, ss_lk s = Some j ∧ ss_proc s !! j = Some q ∧ c ∈ sp_owes q) ∧
  (∀ i p, ss_proc s !! i = Some p → sp_pc p = Crit → ss_lk s = Some i ∧ sp_chan p = None ∧ sp_state p = RUNNING) ∧
  (∀ c c' i, ss_cpu s !! c = Some (CRun i) → ss_cpu s !! c' = Some (CRun i) → c = c') ∧
  (∀ c i p y, ss_cpu s !! c = Some (CRun i) → ss_proc s !! i = Some p → ss_int s !! c = Some y →
     ci_ncli y = held (sp_pc p) ∧ ci_if y = (if held (sp_pc p) =? 0 then sp_flag p else false)).
Proof.
  intros [I J]. split; [apply I|]. split; [|split; [|split; [apply I|]]].
  - intros i p c Hi Hs Hc Hd. destruct (i_wait _ _ I i p c) as (j & q & Hj & Hin); try done.
    + destruct (i_loc _ _ I i p Hi) as (L & _). unfold waiting, state_ok in *. destruct (sp_pc p); congruence || done.
    + exists j, q. split; [|done]. by apply (owes_lk s j q c).
  - intros i p Hi E. pose proof (proj2 (i_lk _ _ I i p Hi)) as HL. destruct (i_loc _ _ I i p Hi) as (L1 & _ & L3).
    unfold state_ok in L1. rewrite E in *. auto.
  - intros c i p y Hc Hi Hy. destruct (int_run_of s c i p y J Hc Hi Hy) as [Hn Hf]. split; [done|]. destruct (held (sp_pc p) =? 0); [done|apply Hf].
Qed.

(** *** The scheduler's scan *)

Fixpoint cpu_steps (n : nat) (c : nat) (s : sst (D:=D)) : option (sst (D:=D)) :=
  match n with O => Some s | S n => s' ← pstep cond chans (Cpu c) s; cpu_steps n c s' end.

Lemma cpu_sstep s c : full s → pstep cond chans (Cpu c) s = cpu_step c s.
Proof. intros [I _]. unfold pstep. by rewrite (i_panic _ _ I). Qed.
Lemma cpu_step_skip s c k p :
  ss_cpu s !! c = Some (CScan k) → ss_proc s !! k = Some p → sp_state p ≠ RUNNABLE →
  cpu_step (D:=D) c s = Some (with_c (<[c := CScan (S k)]> (ss_cpu s)) s).
Proof. intros Hc Hk N. unfold cpu_step. rewrite Hc, Hk. by destruct (sp_state p). Qed.
Lemma cpu_step_run s c i p k :
  ss_cpu s !! c = Some (CScan i) → ss_proc s !! i = Some p → sp_state p = RUNNABLE → sp_pc p = Switched k →
  cpu_step (D:=D) c s =
    Some (with_pt (Some (HProc i)) (with_c (<[c := CRun i]> (ss_cpu s)) (upd i (λ p, go (Resumed k) (to_state RUNNING p)) s))).
Proof. intros Hc Hi R E. unfold cpu_step. by rewrite Hc, Hi, R, E. Qed.

(** Process [i], which was [p], runs on CPU [c] and returns from [swtch] with [ptable.lock]. *)
Definition scheduled (s : sst (D:=D)) (c i : nat) (p : sproc) : Prop :=
  ∃ k, sp_pc p = Switched k ∧ ss_cpu s !! c = Some (CRun i) ∧ ss_pt s = Some (HProc i) ∧
    ss_proc s !! i = Some (go (Resumed k) (to_state RUNNING p)).

(** From slot [k] the scan reaches the first runnable process at or after [k]. *)
Lemma scan_runs n : ∀ s c k i p,
  full s → ss_cpu s !! c = Some (CScan k) → ss_proc s !! i = Some p → sp_state p = RUNNABLE → i = (k + n)%nat →
  (∀ j q, (k ≤ j < i)%nat → ss_proc s !! j = Some q → sp_state q ≠ RUNNABLE) →
  ∃ s', cpu_steps (S n) c s = Some s' ∧ scheduled s' c i p.
Proof.
  induction n as [|n IH]; intros s c k i p I Hc Hi R -> Hf; cbn [cpu_steps]; rewrite cpu_sstep by done.
  - rewrite Nat.add_0_r in Hi |- *. destruct (switched_runnable s c k k p) as [x Hx]; [apply I|done..|].
    rewrite (cpu_step_run s c k p x Hc Hi R Hx). eexists. split; [done|]. exists x. cbn.
    rewrite list_lookup_insert_eq by (by eapply lookup_lt_Some). by rewrite list_lookup_alter_eq, Hi.
  - destruct (lookup_lt_is_Some_2 (ss_proc s) k) as [q Hq]; [apply lookup_lt_Some in Hi; lia|].
    assert (sp_state q ≠ RUNNABLE) as Nq by (apply (Hf k); [lia|done]).
    pose proof (cpu_step_skip s c k q Hc Hq Nq) as Hs. rewrite Hs. cbn [mbind option_bind].
    apply (IH _ c (S k) (k + S n)%nat p); [by apply (cpu_step_full s c)| |done|done|lia|].
    + cbn. apply list_lookup_insert_eq. by eapply lookup_lt_Some.
    + intros j r Hj. apply Hf. lia.
Qed.

Lemma scan_ok s c i p :
  full s → ss_cpu s !! c = Some CIdle → ss_pt s = None → ss_proc s !! i = Some p → sp_state p = RUNNABLE →
  (∀ j q, (j < i)%nat → ss_proc s !! j = Some q → sp_state q ≠ RUNNABLE) →
  ∃ s', cpu_steps (S (S i)) c s = Some s' ∧ scheduled s' c i p.
Proof.
  intros I Hc Hp Hi R Hf.
  assert (cpu_step c s = Some (with_c (<[c := CScan 0]> (ss_cpu s)) (on_int c pushcli (with_pt (Some (HCpu c)) (on_int c (set_if true) s))))) as Hs.
  { unfold cpu_step, acquire_pt. cbn [ss_pt on_int with_int]. by rewrite Hc, Hp. }
  change (cpu_steps (S (S i)) c s) with (s' ← pstep cond chans (Cpu c) s; cpu_steps (S i) c s').
  rewrite cpu_sstep, Hs by done. cbn [mbind option_bind].
  apply (scan_runs i _ c 0 i p); [by apply (cpu_step_full s c)| |done|done|done|].
  - cbn. apply list_lookup_insert_eq. by eapply lookup_lt_Some.
  - intros j q Hj. apply Hf. lia.
Qed.
End proofs.

(** C12. In every interleaving of CPUs and processes through sleep (with a lock other than
    ptable.lock), wakeup, yield, kill and the scheduler: if a process sleeps on a channel whose
    condition holds, the lock is held by a process that still owes the wakeup, so none is lost;
    sleep returns with the lock held and the channel cleared; no process runs on two CPUs; the
    checks of sched, acquire, release and popcli never fail and no process is resumed while its
    stack is in use; ncli of a CPU is the number of locks that its process holds, interrupts are
    off while it holds one, and with none it has the interrupt flag with which it took the
    first, also when it went to another CPU meanwhile. *)
Theorem no_lost_wakeup {D} (cond : nat → D → bool) (chans : list nat) (s0 s : sst)
  (all_chans : ∀ c d, cond c d = true → c ∈ chans)
  (start : booted s0) (run : rtc (steps cond chans) s0 s) :
  ss_panic s = false ∧
  (∀ i p c, ss_proc s !! i = Some p → sp_state p = SLEEPING → sp_chan p = Some c → cond c (ss_data s) = true →
     ∃ j q, ss_lk s = Some j ∧ ss_proc s !! j = Some q ∧ c ∈ sp_owes q) ∧
  (∀ i p, ss_proc s !! i = Some p → sp_pc p = Crit → ss_lk s = Some i ∧ sp_chan p = None ∧ sp_state p = RUNNING) ∧
  (∀ c c' i, ss_cpu s !! c = Some (CRun i) → ss_cpu s !! c' = Some (CRun i) → c = c') ∧
  (∀ c i p y, ss_cpu s !! c = Some (CRun i) → ss_proc s !! i = Some p → ss_int s !! c = Some y →
     ci_ncli y = held (sp_pc p) ∧ ci_if y = (if held (sp_pc p) =? 0 then sp_flag p else false)).
Proof. by eapply reach_ok, reach_inv. Qed.

(** C34. From every reachable state an idle CPU that finds ptable.lock free runs, after one step per
    slot, the first runnable process of the table, which returns from swtch holding ptable.lock. *)
Theorem scheduler_runs_first {D} (cond : nat → D → bool) (chans : list nat) (s0 s : sst) (c i : nat) (p : sproc)
  (all_chans : ∀ c d, cond c d = true → c ∈ chans)
  (start : booted s0) (run : rtc (steps cond chans) s0 s)
  (idle : ss_cpu s !! c = Some CIdle) (free : ss_pt s = None)
  (runnable : ss_proc s !! i = Some p) (R : sp_state p = RUNNABLE)
  (first : ∀ j q, (j < i)%nat → ss_proc s !! j = Some q → sp_state q ≠ RUNNABLE) :
  ∃ s', cpu_steps cond chans (S (S i)) c s = Some s' ∧ scheduled s' c i p.
Proof. apply scan_ok; try done. by eapply reach_inv. Qed.

(** Two CPUs and two processes that share a counter: channel 0 waits for it to be positive. *)
Module SleepExample.
Definition cond (c d : nat) : bool := (c =? 0)%nat && (0 <? d)%nat.
Definition fresh (v : procstate) : sproc := mkSproc v None (Switched InFork) ∅ false false.
Definition s0 : sst := mkSst [fresh RUNNABLE; fresh RUNNABLE; fresh UNUSED] [CIdle; CIdle]
  [mkCint false 0 false; mkCint false 0 false] None None 0%nat false.

Fixpoint run (l : list (act (D:=nat))) (s : sst) : option sst :=
  match l with [] => Some s | a :: l => s' ← pstep cond [0%nat] a s; run l s' end.
Lemma run_rtc l s s' : run l s = Some s' → rtc (steps cond [0%nat]) s s'.
Proof.
  revert s. induction l as [|a l IH]; intros s; cbn [run]; [intros [= ->]; apply rtc_refl|].
  intros (s1 & H1 & H2)%bind_Some. eapply rtc_l; [by exists a|auto].
Qed.
Lemma all c d : cond c d = true → c ∈ [0%nat].
Proof. unfold cond. intros [->%Nat.eqb_eq _]%andb_true_iff. apply list_elem_of_singleton. done. Qed.
Lemma start : booted s0.
Proof.
  split; [done|]. split; [done|]. split; [done|]. split.
  - intros [|[|[]]] x; cbn; congruence.
  - split; [done|]. split; [intros [|[|[]]] y; cbn; by intros [= <-]|]. intros [|[|[|[]]]] p; cbn; intros [= <-]; cbn; auto.
Qed.

(** CPU [c] schedules process [i], which leaves [forkret]. *)
Definition boot (c i : nat) : list (act (D:=nat)) := repeat (Cpu c) (i + 2) ++ [Step i].
(** Process 0 sleeps; process 1 then makes the condition true, and has not yet called [wakeup]. *)
Definition trace : list (act (D:=nat)) :=
  boot 0 0 ++ boot 1 1 ++ [Acquire 0; CallSleep 0 0; Step 0; Step 0; Step 0; Step 0; Cpu 0; Cpu 0; Cpu 0; Acquire 1; Write 1 3%nat].
(** ... and then calls it and leaves. *)
Definition rest : list (act (D:=nat)) := [CallWakeup 1 0; Step 1; Step 1; Step 1; Release 1].
Definition mid : sst := default s0 (run trace s0).
Definition fin : sst := default s0 (run (trace ++ rest) s0).

Lemma trace_mid : run trace s0 = Some mid.
Proof. vm_compute. reflexivity. Qed.
Lemma trace_fin : run (trace ++ rest) s0 = Some fin.
Proof. vm_compute. reflexivity. Qed.

(** Process 0 sleeps on a true condition: the holder of the lock owes it a wakeup. *)
Lemma no_lost_wakeup_witness :
  (∃ p, ss_proc mid !! 0%nat = Some p ∧ sp_state p = SLEEPING ∧ sp_chan p = Some 0%nat) ∧
  ∃ j q, ss_lk mid = Some j ∧ ss_proc mid !! j = Some q ∧ (0%nat ∈ sp_owes q).
Proof.
  split; [eexists; vm_compute; done|].
  destruct (no_lost_wakeup cond [0%nat] s0 mid all start (run_rtc _ _ _ trace_mid)) as (_ & H & _).
  destruct (ss_proc mid !! 0%nat) as [p|] eqn:E; [|by vm_compute in E].
  apply (H 0%nat p 0%nat E); [| |by vm_compute].
  - vm_compute in E. by injection E as <-.
  - vm_compute in E. by injection E as <-.
Defined.

(** After the wakeup CPU 0 takes process 0 up again, inside [sleep]. *)
Lemma scheduler_runs_first_witness :
  ∃ p s', cpu_steps cond [0%nat] 2 0 fin = Some s' ∧ scheduled s' 0 0 p ∧ sp_pc p = Switched InSleep.
Proof.
  destruct (ss_proc fin !! 0%nat) as [p|] eqn:E; [|by vm_compute in E].
  destruct (scheduler_runs_first cond [0%nat] s0 fin 0 0 p all start (run_rtc _ _ _ trace_fin)) as (s' & H1 & H2).
  - by vm_compute.
  - by vm_compute.
  - done.
  - vm_compute in E. by injection E as <-.
  - intros j q Hj. lia.
  - exists p, s'. split; [done|]. split; [done|]. vm_compute in E. by injection E as <-.
Defined.
End SleepExample.
