(* ===== verification/Boot.v ===== *)
(** * The boot loader (src/bootmain.c, src/elf.h)

    Memory, the writes to the ports of the disk, and the number of status reads so
    far are the state.  The controller is hardware: [status] is what its status port
    gives at each read, [ata] the bytes its data port gives after the writes so far. *)

From S2P Require Import Prelude CString Kalloc.

Definition SECTSIZE : Z := 512.
Definition ELF_MAGIC : Z := 1179403647.  (* 0x464C457F *)
Definition ELF : Z := 65536.             (* scratch space *)

Record bmach : Type := mkBmach {
  b_mem : mem;
  b_out : list (Z * Z);   (* port, value *)
  b_reads : nat;          (* reads of the status port *)
}.

Section boot.
Context (status : nat → Z) (ata : list (Z * Z) → Z → byte).
(** Polls of the status port before [waitdisk] counts as never ending. *)
Context (patience : nat).
Abbreviation B := (M bmach).

(** [outb] truncates its value to a byte (src/x86.h). *)
Definition outb (port v : Z) : B unit := modify (λ s, mkBmach (b_mem s) (b_out s ++ [(port, v mod 256)]) (b_reads s)).
Definition inb_status : B Z := s ← getS; putS (mkBmach (b_mem s) (b_out s) (S (b_reads s)));; mret (status (b_reads s)).
(** [insl(0x1F0, dst, cnt)] *)
Definition insl (dst : Z) (cnt : Z) : B unit :=
  modify (λ s, mkBmach (λ a, if (dst <=? a) && (a <? dst + 4 * cnt) then ata (b_out s) (a - dst) else b_mem s a) (b_out s) (b_reads s)).

(** [while((inb(0x1F7) & 0xC0) != 0x40) ;] *)
Fixpoint waitdisk_loop (fuel : nat) : B unit :=
  match fuel with
  | O => sleeps
  | S fuel => r ← inb_status; if negb (Z.land r 192 =? 64) then waitdisk_loop fuel else mret tt
  end.
Definition waitdisk : B unit := waitdisk_loop patience.

(** Read a single sector at offset into dst. *)
Definition readsect (dst offset : Z) : B unit :=
  waitdisk;;
  outb 498 1;;
  outb 499 offset;;
  outb 500 (Z.shiftr offset 8);;
  outb 501 (Z.shiftr offset 16);;
  outb 502 (Z.lor (Z.shiftr offset 24) 224);;
  outb 503 32;;
  waitdisk;;
  insl dst (SECTSIZE / 4).

(** [for(; pa < epa; pa += SECTSIZE, offset++)] *)
Fixpoint readseg_loop (pa epa offset : Z) (fuel : nat) : B unit :=
  match fuel with
  | O => sleeps
  | S fuel =>
      if pa <? epa then readsect pa offset;; readseg_loop (u32 (pa + SECTSIZE)) epa (u32 (offset + 1)) fuel
      else mret tt
  end.

(** Read [count] bytes at [offset] from kernel into physical address [pa].  Might copy more than asked. *)
Definition readseg (pa count offset : Z) : B unit :=
  let epa := u32 (pa + count) in
  let pa := u32 (pa - offset mod SECTSIZE) in
  let offset := offset / SECTSIZE + 1 in
  readseg_loop pa epa offset (Z.to_nat (count / SECTSIZE) + 4).

(** Fields of [struct elfhdr] and [struct proghdr] *)
Definition elf_magic (m : mem) : Z := ldw m ELF.
Definition elf_entry (m : mem) : Z := ldw m (ELF + 24).
Definition elf_phoff (m : mem) : Z := ldw m (ELF + 28).
Definition elf_phnum (m : mem) : Z := le_val [m (ELF + 44); m (ELF + 45)].
Definition ph_off (m : mem) (ph : Z) : Z := ldw m (ph + 4).
Definition ph_paddr (m : mem) (ph : Z) : Z := ldw m (ph + 12).
Definition ph_filesz (m : mem) (ph : Z) : Z := ldw m (ph + 16).
Definition ph_memsz (m : mem) (ph : Z) : Z := ldw m (ph + 20).

Definition stosb (addr data cnt : Z) : B unit :=
  modify (λ s, mkBmach (Kstring.stosb addr data (Z.to_nat cnt) (b_mem s)) (b_out s) (b_reads s)).

(** [for(; ph < eph; ph++)]: [n] headers from [ph] *)
Fixpoint load_segments (ph : Z) (n : nat) : B unit :=
  match n with
  | O => mret tt
  | S n =>
      pa ← gets (λ s, ph_paddr (b_mem s) ph);
      filesz ← gets (λ s, ph_filesz (b_mem s) ph);
      off ← gets (λ s, ph_off (b_mem s) ph);
      readseg pa filesz off;;
      memsz ← gets (λ s, ph_memsz (b_mem s) ph);
      filesz ← gets (λ s, ph_filesz (b_mem s) ph);
      (if filesz <? memsz then stosb (u32 (pa + filesz)) 0 (memsz - filesz) else mret tt);;
      load_segments (ph + 32) n
  end.

(** The entry point it jumps to, or [None] when it returns to bootasm.S. *)
Definition bootmain : B (option Z) :=
  readseg ELF 4096 0;;
  s ← getS;
  if negb (elf_magic (b_mem s) =? ELF_MAGIC) then mret None
  else
    load_segments (u32 (ELF + elf_phoff (b_mem s))) (Z.to_nat (elf_phnum (b_mem s)));;
    s ← getS;
    mret (Some (elf_entry (b_mem s))).
End boot.

(** *** What the loader leaves in memory *)

(** A program header. *)
Record seg : Type := mkSeg { g_off : Z; g_paddr : Z; g_filesz : Z; g_memsz : Z }.
Definition seg_at (m : mem) (ph : Z) : seg := mkSeg (ph_off m ph) (ph_paddr m ph) (ph_filesz m ph) (ph_memsz m ph).

(** Sectors that hold [count] bytes from [off]. *)
Definition sectors (off count : Z) : Z := (off mod SECTSIZE + count + SECTSIZE - 1) / SECTSIZE.
(** The addresses that loading [g] writes are those from [start g] below [reach g]; its own end at [stop g]. *)
Definition start (g : seg) : Z := g_paddr g - g_off g mod SECTSIZE.
Definition stop (g : seg) : Z := g_paddr g + Z.max (g_filesz g) (g_memsz g).
Definition reach (g : seg) : Z := Z.max (start g + SECTSIZE * sectors (g_off g) (g_filesz g)) (stop g).

(** The segment and the sectors that hold it lie above the header page, below 4 GB, and within 28-bit sector numbers. *)
Definition seg_ok (g : seg) : Prop :=
  ELF + 4096 ≤ start g ∧ g_paddr g + g_filesz g + SECTSIZE < 2 ^ 32 ∧ g_paddr g + g_memsz g < 2 ^ 32 ∧
  g_off g + g_filesz g + 2 * SECTSIZE < SECTSIZE * 2 ^ 28.

(** [m] holds [g] of the kernel file [image]: its bytes, then zeroes. *)
Definition loaded (image : Z → byte) (g : seg) (m : mem) : Prop :=
  (∀ k, 0 ≤ k < g_filesz g → m (g_paddr g + k) = image (g_off g + k)) ∧
  (∀ k, g_filesz g ≤ k < g_memsz g → m (g_paddr g + k) = Byte.x00).

Lemma nibble_lor x : 0 ≤ x < 16 → Z.lor x 224 mod 256 = 224 + x.
Proof.
  intros H. assert (∃ n, (n < 16)%nat ∧ x = Z.of_nat n) as (n & Hn & ->) by (exists (Z.to_nat x); lia).
  do 16 (destruct n as [|n]; [done|]). lia.
Qed.

Lemma sectors_nonneg off count : 0 ≤ count → 0 ≤ sectors off count.
Proof. intros H. unfold sectors, SECTSIZE. pose proof (Z.mod_pos_bound off 512 ltac:(lia)). apply Z.div_pos; lia. Qed.

(** The last sector starts before the end of the bytes, and the next one does not. *)
Lemma sectors_spec off count : 0 ≤ count →
  let r := off mod SECTSIZE in let n := sectors off count in
  r + count ≤ 512 * n ∧ 512 * n < r + count + 512.
Proof. intros H. cbn. unfold sectors, SECTSIZE. Z.div_mod_to_equations. lia. Qed.

Section proofs.
Context (status : nat → Z) (ata : list (Z * Z) → Z → byte) (patience : nat).
Context (disk : Z → Z → byte).
Hypothesis ready : ∀ n, ∃ k, (k < patience)%nat ∧ Z.land (status (n + k)%nat) 192 = 64.
Hypothesis ata_reads : ∀ out lba i,
  0 ≤ lba < 2 ^ 28 → 0 ≤ i < SECTSIZE →
  ata (out ++ [(498, 1); (499, lba mod 256); (500, lba / 2 ^ 8 mod 256); (501, lba / 2 ^ 16 mod 256); (502, 224 + lba / 2 ^ 24); (503, 32)]) i
  = disk lba i.

(** The kernel file starts at sector 1. *)
Definition image (k : Z) : byte := disk (1 + k / SECTSIZE) (k mod SECTSIZE).
#[local] Abbreviation readsect := (readsect status ata patience).
#[local] Abbreviation waitdisk := (waitdisk status patience).
#[local] Abbreviation readseg_loop := (readseg_loop status ata patience).
#[local] Abbreviation readseg := (readseg status ata patience).

Lemma waitdisk_spec s : wp waitdisk (λ _ s', b_mem s' = b_mem s ∧ b_out s' = b_out s) s.
Proof.
  unfold Boot.waitdisk. destruct (ready (b_reads s)) as (k & Hk & Hr). revert s Hk Hr.
  generalize patience. induction k as [|k IH]; intros [|n] s Hk Hr; try lia; cbn [waitdisk_loop].
  all: unfold inb_status; repeat (apply wp_getS || apply wp_bind); cbn.
  all: destruct (Z.land (status (b_reads s)) 192 =? 64) eqn:E; cbn; [done|].
  - rewrite Nat.add_0_r in Hr. lia.
  - eapply wp_mono; [apply (IH n); [lia|]|].
    + cbn. rewrite <- Hr. do 2 f_equal. lia.
    + done.
Qed.

Lemma readsect_spec dst offset s :
  0 ≤ offset < 2 ^ 28 →
  wp (readsect dst offset) (λ _ s', ∀ a, b_mem s' a = if decide (dst ≤ a < dst + 512) then disk offset (a - dst) else b_mem s a) s.
Proof.
  intros Ho. unfold Boot.readsect. wp_step waitdisk_spec. intros _ s1 [E1 E2]. unfold outb. do 6 apply wp_modify. cbn [b_mem b_out b_reads].
  wp_step waitdisk_spec. cbn [b_mem b_out b_reads]. intros _ s2 [E3 E4]. unfold insl. apply wp_modify_end. intros a. cbn [b_mem].
  rewrite E4, E3, E1. change (4 * (SECTSIZE / 4)) with 512. rewrite <- !app_assoc. cbn [app].
  case_decide as Ha.
  - rewrite (proj2 (Z.leb_le _ _)), (proj2 (Z.ltb_lt _ _)) by lia. cbn [andb].
    rewrite <- (ata_reads (b_out s1) offset (a - dst)) by (unfold SECTSIZE; lia).
    rewrite !Z.shiftr_div_pow2 by lia. rewrite nibble_lor; [done|]. Z.div_mod_to_equations. lia.
  - destruct (Z.leb_spec dst a), (Z.ltb_spec a (dst + 512)); cbn [andb]; [lia|done..].
Qed.

Lemma readseg_loop_spec n : ∀ pa epa o fuel s,
  0 ≤ pa → pa + 512 * Z.of_nat n < 2 ^ 32 → 0 ≤ o → o + Z.of_nat n < 2 ^ 28 →
  epa ≤ pa + 512 * Z.of_nat n → pa + 512 * Z.of_nat n < epa + 512 → (n < fuel)%nat →
  wp (readseg_loop pa epa o fuel)
    (λ _ s', ∀ a, b_mem s' a = if decide (pa ≤ a < pa + 512 * Z.of_nat n) then disk (o + (a - pa) / 512) ((a - pa) mod 512) else b_mem s a) s.
Proof.
  induction n as [|n IH]; intros pa epa o [|fuel] s H1 H2 H3 H4 H5 H6 H7; try lia; cbn [Boot.readseg_loop].
  - rewrite (proj2 (Z.ltb_ge _ _)) by lia. apply wp_ret. intros a. rewrite decide_False by lia. done.
  - rewrite (proj2 (Z.ltb_lt _ _)) by lia. wp_step readsect_spec; [lia|]. intros [] s1 E1.
    unfold SECTSIZE. rewrite !u32_small by lia.
    eapply wp_mono; [apply IH; lia|]. intros [] s2 E2 a. rewrite E2, E1.
    destruct (decide (pa + 512 ≤ a < pa + 512 + 512 * Z.of_nat n)); [|destruct (decide (pa ≤ a < pa + 512))].
    + rewrite decide_True by lia. replace (a - pa) with (a - (pa + 512) + 1 * 512) by lia.
      rewrite Z.div_add, Z.mod_add by lia. f_equal. lia.
    + rewrite decide_True by lia. rewrite Z.div_small, Z.mod_small by lia. f_equal. lia.
    + rewrite decide_False by lia. done.
Qed.

Lemma readseg_spec pa count off s :
  0 ≤ pa - off mod 512 → 0 ≤ count → pa + count + 512 < 2 ^ 32 → 0 ≤ off → off + count + 2 * 512 < 512 * 2 ^ 28 →
  wp (readseg pa count off)
    (λ _ s', ∀ a, b_mem s' a = if decide (pa - off mod 512 ≤ a < pa - off mod 512 + 512 * sectors off count)
                               then image (off + (a - pa)) else b_mem s a) s.
Proof.
  intros H1 H2 H3 H4 H5. unfold Boot.readseg, image. pose proof (sectors_spec off count H2) as [S1 S2].
  pose proof (sectors_nonneg off count H2) as S0. unfold SECTSIZE in *.
  pose proof (Z.mod_pos_bound off 512 ltac:(lia)). rewrite !u32_small by lia.
  eapply wp_mono; [apply (readseg_loop_spec (Z.to_nat (sectors off count)))|]; rewrite ?Z2Nat.id by lia.
  all: try (Z.div_mod_to_equations; lia).
  intros [] s' E a. rewrite E. case_decide as Ha; [|done].
  replace (off + (a - pa)) with (a - (pa - off mod 512) + off / 512 * 512) by (Z.div_mod_to_equations; lia).
  rewrite Z.div_add, Z.mod_add by lia. f_equal. lia.
Qed.

(** Nothing in the header page, or outside the reach of the segments of [P], changes. *)
Definition kept (P : seg → Prop) (m m' : mem) : Prop :=
  (∀ a, ELF ≤ a < ELF + 4096 → m' a = m a) ∧ (∀ a, (∀ g, P g → ¬ start g ≤ a < reach g) → m' a = m a).

Lemma seg_at_ext m m' ph : ELF ≤ ph → ph + 32 ≤ ELF + 4096 → (∀ a, ELF ≤ a < ELF + 4096 → m' a = m a) → seg_at m' ph = seg_at m ph.
Proof.
  intros H1 H2 E. unfold seg_at, ph_off, ph_paddr, ph_filesz, ph_memsz.
  rewrite !(ldw_ext m m'); [done|intros b Hb; apply E; lia..].
Qed.

Lemma seg_nonneg m ph : let g := seg_at m ph in 0 ≤ g_off g ∧ 0 ≤ g_paddr g ∧ 0 ≤ g_filesz g ∧ 0 ≤ g_memsz g.
Proof. cbn. unfold ph_off, ph_paddr, ph_filesz, ph_memsz. split_and!; apply ldw_range. Qed.

(** The body of the loop for one header. *)
Lemma load_one (ph : Z) (Q : unit → bmach → Prop) (k : M bmach unit) s :
  let g := seg_at (b_mem s) ph in
  ELF ≤ ph → ph + 32 ≤ ELF + 4096 → seg_ok g →
  (∀ s', loaded image g (b_mem s') → kept (λ g', g' = g) (b_mem s) (b_mem s') → wp k Q s') →
  wp (pa ← gets (λ s, ph_paddr (b_mem s) ph);
      filesz ← gets (λ s, ph_filesz (b_mem s) ph);
      off ← gets (λ s, ph_off (b_mem s) ph);
      readseg pa filesz off;;
      memsz ← gets (λ s, ph_memsz (b_mem s) ph);
      filesz ← gets (λ s, ph_filesz (b_mem s) ph);
      (if filesz <? memsz then stosb (u32 (pa + filesz)) 0 (memsz - filesz) else mret tt);;
      k) Q s.
Proof.
  intros g Hp1 Hp2 (O1 & O2 & O3 & O4) Hk. destruct (seg_nonneg (b_mem s) ph) as (N1 & N2 & N3 & N4). fold g in N1, N2, N3, N4.
  do 3 apply wp_gets. change (ph_paddr (b_mem s) ph) with (g_paddr g). change (ph_filesz (b_mem s) ph) with (g_filesz g).
  change (ph_off (b_mem s) ph) with (g_off g). unfold start in O1. pose proof (sectors_spec (g_off g) (g_filesz g) N3) as [S1 S2].
  unfold SECTSIZE, ELF in *. pose proof (Z.mod_pos_bound (g_off g) 512 ltac:(lia)).
  wp_step readseg_spec; [lia..|]. intros [] s1 E1. do 2 apply wp_gets.
  assert (seg_at (b_mem s1) ph = g) as Eg.
  { apply seg_at_ext; unfold ELF; [lia|lia|]. intros a Ha. rewrite E1, decide_False by lia. done. }
  change (ph_memsz (b_mem s1) ph) with (g_memsz (seg_at (b_mem s1) ph)). change (ph_filesz (b_mem s1) ph) with (g_filesz (seg_at (b_mem s1) ph)).
  rewrite Eg. destruct (Z.ltb_spec (g_filesz g) (g_memsz g)) as [Hz|Hz].
  - unfold stosb. apply wp_modify, Hk; cbn [b_mem]; rewrite u32_small by lia.
    + split; intros x Hx; rewrite stosb_at; [rewrite decide_False, E1, decide_True by lia; f_equal; lia|rewrite decide_True by lia; done].
    + split; [intros a Ha|intros a Ha; specialize (Ha g eq_refl); unfold reach, start, stop, SECTSIZE in Ha];
        rewrite stosb_at, decide_False, E1, decide_False by (unfold ELF in *; lia); done.
  - apply wp_ret_bind, Hk.
    + split; intros x Hx; [|lia]. rewrite E1, decide_True by lia. f_equal. lia.
    + split; [intros a Ha|intros a Ha; specialize (Ha g eq_refl); unfold reach, start, stop, SECTSIZE in Ha];
        rewrite E1, decide_False by (unfold ELF in *; lia); done.
Qed.

(** The program headers from [ph], read in memory [m]. *)
Definition headers (m : mem) (ph : Z) (n : nat) : list seg := map (λ i, seg_at m (ph + 32 * Z.of_nat i)) (seq 0 n).
Definition apart (g g' : seg) : Prop := stop g ≤ start g'.

Lemma headers_S m ph n : headers m ph (S n) = seg_at m ph :: headers m (ph + 32) n.
Proof.
  unfold headers. cbn [seq map]. f_equal; [f_equal; lia|]. rewrite <- seq_shift, map_map. apply map_ext. intros i. f_equal. lia.
Qed.
Lemma headers_ext m m' n : ∀ ph,
  ELF ≤ ph → ph + 32 * Z.of_nat n ≤ ELF + 4096 → (∀ a, ELF ≤ a < ELF + 4096 → m' a = m a) → headers m' ph n = headers m ph n.
Proof.
  induction n as [|n IH]; intros ph H1 H2 E; [done|]. rewrite !headers_S, (seg_at_ext m m'), (IH (ph + 32)); [done|lia|lia|done|lia|lia|done].
Qed.

(** A segment whose end is below the sectors of [g] stays loaded while [g] is. *)
Lemma loaded_kept (P : seg → Prop) d m m' : (∀ g, P g → apart d g) → loaded image d m → kept P m m' → loaded image d m'.
Proof.
  unfold apart, stop. intros Hd [L1 L2] [_ K]. split; intros k Hk; rewrite K; auto; intros g Hg; specialize (Hd g Hg); lia.
Qed.

Lemma load_segments_spec n : ∀ ph s,
  ELF ≤ ph → ph + 32 * Z.of_nat n ≤ ELF + 4096 →
  let gs := headers (b_mem s) ph n in
  Forall seg_ok gs → StronglySorted apart gs →
  wp (load_segments status ata patience ph n)
    (λ _ s', Forall (λ g, loaded image g (b_mem s')) gs ∧ kept (λ g, g ∈ gs) (b_mem s) (b_mem s')) s.
Proof.
  induction n as [|n IH]; intros ph s H1 H2 gs Hok Hs; unfold gs in *; clear gs.
  - apply wp_ret. split; [apply Forall_nil; done|done].
  - rewrite headers_S in *. apply Forall_cons in Hok as [Hg Hok]. apply StronglySorted_inv in Hs as [Hs Hd].
    cbn [load_segments]. apply load_one; [lia|lia|done|]. intros s1 L1 K1.
    assert (headers (b_mem s1) (ph + 32) n = headers (b_mem s) (ph + 32) n) as E.
    { apply headers_ext; [lia|lia|apply K1]. }
    eapply wp_mono; [apply IH; rewrite ?E; [lia|lia|done|done]|]. rewrite E. intros [] s2 [L2 K2]. split.
    + apply Forall_cons. split; [|done]. eapply loaded_kept; [|apply L1|apply K2]. intros g Hin. rewrite Forall_forall in Hd. auto.
    + destruct K1 as [K1 K1'], K2 as [K2 K2']. split; intros a Ha; [by rewrite K2, K1|].
      rewrite K2', K1'; [done| |]; intros g' Hg'; apply Ha; [subst g'; left|by right].
Qed.

(** The header page as the kernel file has it. *)
Definition header : mem := λ a, image (a - ELF).
Definition segments : list seg := headers header (ELF + elf_phoff header) (Z.to_nat (elf_phnum header)).

Lemma bootmain_ok s :
  (elf_magic header = ELF_MAGIC →
     elf_phoff header + 32 * elf_phnum header ≤ 4096 ∧ Forall seg_ok segments ∧ StronglySorted apart segments) →
  wp (bootmain status ata patience)
    (λ r s', if decide (elf_magic header = ELF_MAGIC)
             then r = Some (elf_entry header) ∧ Forall (λ g, loaded image g (b_mem s')) segments ∧
                  (∀ a, ¬ (ELF ≤ a < ELF + 4096) → (∀ g, g ∈ segments → ¬ start g ≤ a < reach g) → b_mem s' a = b_mem s a)
             else r = None ∧ ∀ a, ¬ (ELF ≤ a < ELF + 4096) → b_mem s' a = b_mem s a) s.
Proof.
  intros Hfit. unfold bootmain. wp_step readseg_spec; [done..|]. intros [] s1 E1.
  assert (∀ a, ELF ≤ a < ELF + 4096 → b_mem s1 a = header a) as Eh.
  { intros a Ha. rewrite E1, decide_True; [done|]. change (0 mod 512) with 0. change (512 * sectors 0 4096) with 4096. lia. }
  assert (∀ a, ¬ (ELF ≤ a < ELF + 4096) → b_mem s1 a = b_mem s a) as Eo.
  { intros a Ha. rewrite E1, decide_False; [done|]. change (0 mod 512) with 0. change (512 * sectors 0 4096) with 4096. lia. }
  assert (∀ x, 0 ≤ x ≤ 4092 → ldw (b_mem s1) (ELF + x) = ldw header (ELF + x)) as Ew.
  { intros x Hx. apply ldw_ext. intros b Hb. apply Eh. lia. }
  apply wp_getS. assert (elf_magic (b_mem s1) = elf_magic header) as -> by (apply (Ew 0); lia).
  case_decide as Hm; [rewrite Hm, Z.eqb_refl|rewrite (proj2 (Z.eqb_neq _ _)) by done; by apply wp_ret]. cbn [negb].
  destruct (Hfit Hm) as (F1 & F2 & F3).
  assert (elf_phnum (b_mem s1) = elf_phnum header) as -> by (unfold elf_phnum; by rewrite !Eh by (unfold ELF; lia)).
  assert (elf_phoff (b_mem s1) = elf_phoff header) as -> by (apply Ew; lia).
  pose proof (ldw_range header (ELF + 28)) as R1. fold (elf_phoff header) in R1.
  assert (0 ≤ elf_phnum header) as R2 by apply le_val_range.
  rewrite u32_small by (unfold ELF; lia).
  assert (headers (b_mem s1) (ELF + elf_phoff header) (Z.to_nat (elf_phnum header)) = segments) as E.
  { apply headers_ext; [lia|lia|done]. }
  wp_step load_segments_spec; [lia|lia|by rewrite E..|]. rewrite E. intros [] s2 [L K]. apply wp_getS, wp_ret.
  split; [|split; [done|]].
  - f_equal. unfold elf_entry. rewrite <- (Ew 24) by lia. apply ldw_ext. intros b Hb. apply (proj1 K). unfold ELF in *. lia.
  - intros a Ha Hg. rewrite (proj2 K) by done. by apply Eo.
Qed.
End proofs.

(** C30. The boot loader loads the kernel: it waits for the disk and reads the header page; if the
    magic number is wrong it returns, else every segment of the file is in memory at its
    physical address, followed by zeroes up to its size in memory, although whole sectors are
    copied over the neighbouring bytes; memory outside what the segments reach is untouched and
    control goes to the entry point of the header. This holds for segments above the header
    page, each of which starts, rounded down to the sector of the file that holds its first
    byte, not before the end of the earlier ones, their zeroes included. *)
Theorem bootmain_correct status ata patience disk s
  (ready : ∀ n, ∃ k, (k < patience)%nat ∧ Z.land (status (n + k)%nat) 192 = 64)
  (ata_reads : ∀ out lba i, 0 ≤ lba < 2 ^ 28 → 0 ≤ i < SECTSIZE →
    ata (out ++ [(498, 1); (499, lba mod 256); (500, lba / 2 ^ 8 mod 256); (501, lba / 2 ^ 16 mod 256); (502, 224 + lba / 2 ^ 24); (503, 32)]) i
    = disk lba i)
  (fits : elf_magic (header disk) = ELF_MAGIC →
     elf_phoff (header disk) + 32 * elf_phnum (header disk) ≤ 4096 ∧ Forall seg_ok (segments disk) ∧ StronglySorted apart (segments disk)) :
  wp (bootmain status ata patience)
    (λ r s', if decide (elf_magic (header disk) = ELF_MAGIC)
             then r = Some (elf_entry (header disk)) ∧ Forall (λ g, loaded (image disk) g (b_mem s')) (segments disk) ∧
                  (∀ a, ¬ (ELF ≤ a < ELF + 4096) → (∀ g, g ∈ segments disk → ¬ start g ≤ a < reach g) → b_mem s' a = b_mem s a)
             else r = None ∧ ∀ a, ¬ (ELF ≤ a < ELF + 4096) → b_mem s' a = b_mem s a) s.
Proof. by apply bootmain_ok. Qed.

(** A file of one segment, 20 bytes from offset 100 for address 0x100064, and 20 zeroes. *)
Module BootExample.
Definition file : list byte :=
  le_bytes 4 ELF_MAGIC ++ repeat Byte.x00 20 ++ le_bytes 4 1048676 ++ le_bytes 4 52 ++ repeat Byte.x00 12 ++ le_bytes 2 1 ++ repeat Byte.x00 6 ++
  le_bytes 4 1 ++ le_bytes 4 100 ++ le_bytes 4 0 ++ le_bytes 4 1048676 ++ le_bytes 4 20 ++ le_bytes 4 40 ++ le_bytes 4 0 ++ le_bytes 4 0 ++
  repeat Byte.x00 16 ++ bytes_of "twenty bytes of code".
Definition disk (lba i : Z) : byte := chars file (512 * (lba - 1) + i).
Definition ata (out : list (Z * Z)) (i : Z) : byte :=
  match rev out with
  | (503, 32) :: (502, d) :: (501, c) :: (500, b) :: (499, a) :: (498, 1) :: _ => disk (a + 2 ^ 8 * b + 2 ^ 16 * c + 2 ^ 24 * (d - 224)) i
  | _ => Byte.x00
  end.
Definition s0 : bmach := mkBmach (λ _, Byte.xff) [] 0.

Lemma reads out lba i :
  0 ≤ lba < 2 ^ 28 → 0 ≤ i < SECTSIZE →
  ata (out ++ [(498, 1); (499, lba mod 256); (500, lba / 2 ^ 8 mod 256); (501, lba / 2 ^ 16 mod 256); (502, 224 + lba / 2 ^ 24); (503, 32)]) i
  = disk lba i.
Proof. intros H _. unfold ata. rewrite rev_app_distr. cbn [rev app]. f_equal. Z.div_mod_to_equations. lia. Qed.

Lemma bootmain_correct_witness :
  wp (bootmain (λ _, 64) ata 1)
    (λ r s', r = Some 1048676 ∧ loaded (image disk) (mkSeg 100 1048676 20 40) (b_mem s') ∧ b_mem s' 5 = Byte.xff) s0.
Proof.
  pose proof (bootmain_correct (λ _, 64) ata 1 disk s0) as H.
  assert (segments disk = [mkSeg 100 1048676 20 40]) as Es by (vm_compute; reflexivity).
  eapply wp_mono; [apply H|].
  - intros n. exists 0%nat. split; [lia|reflexivity].
  - apply reads.
  - intros _. rewrite Es. split; [vm_compute; discriminate|]. split.
    + apply Forall_singleton. clear. unfold seg_ok, start, ELF, SECTSIZE. cbn [g_off g_paddr g_filesz g_memsz]. change (100 mod 512) with 100. lia.
    + repeat constructor.
  - intros r s'. cbv beta. rewrite decide_True by (vm_compute; reflexivity). rewrite Es. intros (-> & L & K).
    split; [vm_compute; reflexivity|]. apply Forall_cons in L as [L _]. split; [exact L|]. rewrite K; [reflexivity|unfold ELF; lia|].
    intros g Hg. apply list_elem_of_singleton in Hg as ->. clear. unfold start, reach, stop. cbn [g_off g_paddr g_filesz g_memsz]. change (100 mod SECTSIZE) with 100. lia.
Defined.
End BootExample.
