(* ===== verification/Lapic.v ===== *)
(** * Interrupt controllers and the clock (src/lapic.c, src/ioapic.c, src/picirq.c, src/date.h)

    What the code writes to registers and ports is a trace.  What it reads comes from
    hardware: [mmio n r] is what the [n]-th read of a local APIC register gives if it
    is of register [r], [cmos n r] is register [r] of the CMOS at the [n]-th read of
    that chip, [ioapic r] the I/O APIC register [r]. *)

From S2P Require Import Prelude CString Kalloc.

Definition T_IRQ0 : Z := 32.
Definition IRQ_TIMER : Z := 0.
Definition IRQ_ERROR : Z := 19.
Definition IRQ_SPURIOUS : Z := 31.

Inductive access : Type := Reg (index value : Z) | Port (port value : Z).

Record apic : Type := mkApic {
  ap_present : bool;         (* lapic != 0 *)
  ap_trace : list access;
  ap_mem : mem;
  ap_mmio : nat;             (* reads of local APIC registers *)
  ap_cmos : nat;             (* reads of the CMOS *)
}.

Definition ID : Z := 8.
Definition VER : Z := 12.
Definition TPR : Z := 32.
Definition EOI : Z := 44.
Definition SVR : Z := 60.
Definition ENABLE : Z := 256.
Definition ESR : Z := 160.
Definition ICRLO : Z := 192.
Definition INIT : Z := 1280.
Definition STARTUP : Z := 1536.
Definition DELIVS : Z := 4096.
Definition ASSERT : Z := 16384.
Definition LEVEL : Z := 32768.
Definition BCAST : Z := 524288.
Definition ICRHI : Z := 196.
Definition TIMER : Z := 200.
Definition X1 : Z := 11.
Definition PERIODIC : Z := 131072.
Definition PCINT : Z := 208.
Definition LINT0 : Z := 212.
Definition LINT1 : Z := 216.
Definition ERROR : Z := 220.
Definition MASKED : Z := 65536.
Definition TICR : Z := 224.
Definition TDCR : Z := 248.

Definition CMOS_PORT : Z := 112.
Definition CMOS_STATA : Z := 10.
Definition CMOS_STATB : Z := 11.
Definition CMOS_UIP : Z := 128.
Definition SECS : Z := 0.
Definition MINS : Z := 2.
Definition HOURS : Z := 4.
Definition DAY : Z := 7.
Definition MONTH : Z := 8.
Definition YEAR : Z := 9.

Record rtcdate : Type := mkDate { second : Z; minute : Z; hour : Z; day : Z; month : Z; year : Z }.
#[global] Instance rtcdate_eq_dec : EqDecision rtcdate.
Proof. solve_decision. Defined.

Section lapic.
Context (mmio : nat → Z → Z) (cmos : nat → Z → Z) (patience : nat).
Abbreviation A := (M apic).

Definition emit (x : access) : A unit := modify (λ s, mkApic (ap_present s) (ap_trace s ++ [x]) (ap_mem s) (ap_mmio s) (ap_cmos s)).
Definition outb (port v : Z) : A unit := emit (Port port (v mod 256)).
Definition lapicr (index : Z) : A Z :=
  s ← getS; putS (mkApic (ap_present s) (ap_trace s) (ap_mem s) (S (ap_mmio s)) (ap_cmos s));; mret (mmio (ap_mmio s) index).
Definition lapicw (index value : Z) : A unit := emit (Reg index value);; lapicr ID;; mret tt.

(** [while(lapic[ICRLO] & DELIVS) ;] *)
Fixpoint delivery (fuel : nat) : A unit :=
  match fuel with
  | O => sleeps
  | S fuel => v ← lapicr ICRLO; if negb (Z.land v DELIVS =? 0) then delivery fuel else mret tt
  end.

Definition lapicinit : A unit :=
  s ← getS;
  if negb (ap_present s) then mret tt
  else
    lapicw SVR (Z.lor ENABLE (T_IRQ0 + IRQ_SPURIOUS));;
    lapicw TDCR X1;;
    lapicw TIMER (Z.lor PERIODIC (T_IRQ0 + IRQ_TIMER));;
    lapicw TICR 10000000;;
    lapicw LINT0 MASKED;;
    lapicw LINT1 MASKED;;
    v ← lapicr VER;
    (if 4 <=? Z.land (Z.shiftr v 16) 255 then lapicw PCINT MASKED else mret tt);;
    lapicw ERROR (T_IRQ0 + IRQ_ERROR);;
    lapicw ESR 0;;
    lapicw ESR 0;;
    lapicw EOI 0;;
    lapicw ICRHI 0;;
    lapicw ICRLO (Z.lor (Z.lor BCAST INIT) LEVEL);;
    delivery patience;;
    lapicw TPR 0.

Definition lapicid : A Z := s ← getS; if negb (ap_present s) then mret 0 else v ← lapicr ID; mret (Z.shiftr v 24).
Definition lapiceoi : A unit := s ← getS; if ap_present s then lapicw EOI 0 else mret tt.

Definition put2 (a v : Z) : A unit :=
  modify (λ s, mkApic (ap_present s) (ap_trace s) (<[a + 1 := to_uchar (Z.shiftr v 8)]> (<[a := to_uchar v]> (ap_mem s))) (ap_mmio s) (ap_cmos s)).

(** Start additional processor running entry code at [addr]. *)
Definition lapicstartap (apicid addr : Z) : A unit :=
  outb CMOS_PORT 15;;
  outb (CMOS_PORT + 1) 10;;
  let wrv := P2V (Z.lor (Z.shiftl 64 4) 103) in
  put2 wrv 0;;
  put2 (wrv + 2) (Z.shiftr addr 4);;
  lapicw ICRHI (u32 (Z.shiftl apicid 24));;
  lapicw ICRLO (Z.lor (Z.lor INIT LEVEL) ASSERT);;
  lapicw ICRLO (Z.lor INIT LEVEL);;
  lapicw ICRHI (u32 (Z.shiftl apicid 24));;
  lapicw ICRLO (Z.lor STARTUP (Z.shiftr addr 12));;
  lapicw ICRHI (u32 (Z.shiftl apicid 24));;
  lapicw ICRLO (Z.lor STARTUP (Z.shiftr addr 12)).

Definition cmos_read (reg : Z) : A Z :=
  outb CMOS_PORT reg;;
  s ← getS; putS (mkApic (ap_present s) (ap_trace s) (ap_mem s) (ap_mmio s) (S (ap_cmos s)));;
  mret (cmos (ap_cmos s) reg).

Definition fill_rtcdate : A rtcdate :=
  second ← cmos_read SECS;
  minute ← cmos_read MINS;
  hour ← cmos_read HOURS;
  day ← cmos_read DAY;
  month ← cmos_read MONTH;
  year ← cmos_read YEAR;
  mret (mkDate second minute hour day month year).

(** [for(;;)]: read until the clock is seen twice in the same state *)
Fixpoint stable_date (fuel : nat) : A rtcdate :=
  match fuel with
  | O => sleeps
  | S fuel =>
      t1 ← fill_rtcdate;
      a ← cmos_read CMOS_STATA;
      if negb (Z.land a CMOS_UIP =? 0) then stable_date fuel
      else
        t2 ← fill_rtcdate;
        if decide (t1 = t2) then mret t1 else stable_date fuel
  end.

Definition CONV (x : Z) : Z := Z.shiftr x 4 * 10 + Z.land x 15.
Definition conv_date (d : rtcdate) : rtcdate :=
  mkDate (CONV (second d)) (CONV (minute d)) (CONV (hour d)) (CONV (day d)) (CONV (month d)) (CONV (year d)).

Definition cmostime : A rtcdate :=
  sb ← cmos_read CMOS_STATB;
  let bcd := Z.land sb (Z.shiftl 1 2) =? 0 in
  t1 ← stable_date patience;
  let t1 := if bcd then conv_date t1 else t1 in
  mret (mkDate (second t1) (minute t1) (hour t1) (day t1) (month t1) (year t1 + 2000)).
End lapic.

Module Ioapic.
Definition REG_ID : Z := 0.
Definition REG_VER : Z := 1.
Definition REG_TABLE : Z := 16.
Definition INT_DISABLED : Z := 65536.

(** The registers of the I/O APIC, reached by writing [reg] first. *)
Record ioapic : Type := mkIoapic { io_reg : Z; io_regs : Z → Z; io_printed : list string }.
Abbreviation I := (M ioapic).
Definition set_reg (reg : Z) : I unit := modify (λ s, mkIoapic reg (io_regs s) (io_printed s)).
Definition ioapicread (reg : Z) : I Z := set_reg reg;; gets (λ s, io_regs s (io_reg s)).
Definition ioapicwrite (reg data : Z) : I unit := set_reg reg;; modify (λ s, mkIoapic (io_reg s) (<[io_reg s := data]> (io_regs s)) (io_printed s)).

(** [for(i = 0; i <= maxintr; i++)], [n] turns from [i] *)
Fixpoint disable_from (i : Z) (n : nat) : I unit :=
  match n with
  | O => mret tt
  | S n =>
      ioapicwrite (REG_TABLE + 2 * i) (Z.lor INT_DISABLED (T_IRQ0 + i));;
      ioapicwrite (REG_TABLE + 2 * i + 1) 0;;
      disable_from (i + 1) n
  end.

Definition ioapicinit (ioapicid : Z) : I unit :=
  v ← ioapicread REG_VER;
  let maxintr := Z.land (Z.shiftr v 16) 255 in
  v ← ioapicread REG_ID;
  let id := Z.shiftr v 24 in
  (if negb (id =? ioapicid)
   then modify (λ s, mkIoapic (io_reg s) (io_regs s) (io_printed s ++ ["ioapicinit: id isn't equal to ioapicid; not a MP"%string]))
   else mret tt);;
  disable_from 0 (Z.to_nat (maxintr + 1)).

Definition ioapicenable (irq cpunum : Z) : I unit :=
  ioapicwrite (REG_TABLE + 2 * irq) (T_IRQ0 + irq);;
  ioapicwrite (REG_TABLE + 2 * irq + 1) (u32 (Z.shiftl cpunum 24)).

(** *** What the table says *)

(** Interrupt [i] is off; or raises vector [T_IRQ0 + i] on the CPU with APIC id [c]. *)
Definition off (s : ioapic) (i : Z) : Prop := Z.testbit (io_regs s (16 + 2 * i)) 16 = true.
Definition routed (s : ioapic) (i c : Z) : Prop :=
  Z.testbit (io_regs s (16 + 2 * i)) 16 = false ∧ io_regs s (16 + 2 * i) mod 256 = 32 + i ∧ Z.shiftr (io_regs s (16 + 2 * i + 1)) 24 = c.

Lemma ioapicwrite_eq reg data s : ioapicwrite reg data s = Ok tt (mkIoapic reg (<[reg := data]> (io_regs s)) (io_printed s)).
Proof. done. Qed.

Lemma ioapicread_eq reg s : ioapicread reg s = Ok (io_regs s reg) (mkIoapic reg (io_regs s) (io_printed s)).
Proof. done. Qed.

Lemma disable_from_spec n : ∀ i s, 0 ≤ i →
  wp (disable_from i n) (λ _ s', (∀ j, i ≤ j < i + Z.of_nat n → off s' j) ∧
    ∀ r, ¬ (16 + 2 * i ≤ r < 16 + 2 * (i + Z.of_nat n)) → io_regs s' r = io_regs s r) s.
Proof.
  induction n as [|n IH]; intros i s Hi; cbn [disable_from].
  - apply wp_ret. split; [intros j Hj; lia|done].
  - apply wp_bind. eapply wp_Ok; [apply ioapicwrite_eq|]. apply wp_bind. eapply wp_Ok; [apply ioapicwrite_eq|]. cbn [io_regs].
    eapply wp_mono; [apply IH; lia|]. cbn [io_regs]. unfold REG_TABLE. intros [] s' [H1 H2]. split.
    + intros j Hj. destruct (decide (j = i)) as [->|]; [|apply H1; lia]. unfold off. rewrite H2 by lia.
      rewrite fn_lookup_insert_ne, fn_lookup_insert by lia. rewrite Z.lor_spec. done.
    + intros r Hr. rewrite H2 by lia. rewrite !fn_lookup_insert_ne by lia. done.
Qed.

Lemma small_bit16 x : 0 ≤ x < 2 ^ 16 → Z.testbit x 16 = false.
Proof.
  intros H. apply not_true_iff_false. intros E. pose proof (Z.testbit_spec' x 16 ltac:(lia)) as X. rewrite E in X. cbn [Z.b2z] in X.
  rewrite Z.div_small in X by lia. done.
Qed.

Lemma ioapicenable_ok irq c s :
  0 ≤ irq < 224 → 0 ≤ c < 256 →
  wp (ioapicenable irq c) (λ _ s', routed s' irq c ∧ ∀ r, r ≠ 16 + 2 * irq → r ≠ 16 + 2 * irq + 1 → io_regs s' r = io_regs s r) s.
Proof.
  intros Hi Hc. unfold ioapicenable. apply wp_bind. eapply wp_Ok; [apply ioapicwrite_eq|]. eapply wp_Ok; [apply ioapicwrite_eq|].
  cbn [io_regs]. unfold routed, REG_TABLE, T_IRQ0. cbn [io_regs]. split.
  - rewrite fn_lookup_insert_ne, !fn_lookup_insert by lia. split_and!.
    + apply small_bit16. lia.
    + rewrite Z.mod_small; lia.
    + rewrite Z.shiftl_mul_pow2, u32_small, Z.shiftr_div_pow2, Z.div_mul by lia. done.
  - intros r H1 H2. by rewrite !fn_lookup_insert_ne by done.
Qed.
End Ioapic.

Definition picinit : list (Z * Z) := [(33, 255); (161, 255)].

(** *** The date *)

(** A number below 100 as the clock holds it. *)
Definition enc (bcd : bool) (x : Z) : Z := if bcd then 16 * (x / 10) + x mod 10 else x.
Definition enc_date (bcd : bool) (d : rtcdate) : rtcdate :=
  mkDate (enc bcd (second d)) (enc bcd (minute d)) (enc bcd (hour d)) (enc bcd (day d)) (enc bcd (month d)) (enc bcd (year d)).
Definition two_digits (d : rtcdate) : Prop :=
  0 ≤ second d < 100 ∧ 0 ≤ minute d < 100 ∧ 0 ≤ hour d < 100 ∧ 0 ≤ day d < 100 ∧ 0 ≤ month d < 100 ∧ 0 ≤ year d < 100.

Lemma CONV_enc x : 0 ≤ x < 100 → CONV (enc true x) = x.
Proof.
  intros H. unfold CONV, enc. rewrite Z.shiftr_div_pow2 by lia. change 15 with (Z.ones 4). rewrite Z.land_ones by lia.
  replace (16 * (x / 10) + x mod 10) with (x mod 10 + x / 10 * 16) by lia. change (2 ^ 4) with 16. rewrite Z.div_add, Z.mod_add by lia.
  rewrite Z.div_small, Z.mod_small; [|Z.div_mod_to_equations; lia..]. Z.div_mod_to_equations. lia.
Qed.
Lemma conv_enc d : two_digits d → conv_date (enc_date true d) = d.
Proof.
  intros (H1 & H2 & H3 & H4 & H5 & H6). unfold conv_date, enc_date. cbn [second minute hour day month year].
  rewrite !CONV_enc by done. by destruct d.
Qed.

(** The documented behaviour of the chip.  [updating n]: at the [n]-th read the chip is
    moving its registers to the next second, and the registers of the date may read as
    anything; otherwise they hold the date [now n], in binary or BCD as status register
    B says.  The date changes only by an update.  When UIP in status register A is
    clear, no update starts for 244 microseconds, the time of the next six reads. *)
Record rtc_chip (cmos : nat → Z → Z) (bcd : bool) (now : nat → rtcdate) (updating : nat → bool) : Prop := {
  rc_mode : ∀ n, Z.testbit (cmos n CMOS_STATB) 2 = negb bcd;
  rc_digits : ∀ n, two_digits (now n);
  rc_valid : ∀ n, updating n = false →
    mkDate (cmos n SECS) (cmos n MINS) (cmos n HOURS) (cmos n DAY) (cmos n MONTH) (cmos n YEAR) = enc_date bcd (now n);
  rc_steady : ∀ n, updating n = false → updating (S n) = false → now (S n) = now n;
  rc_warns : ∀ n k, Z.land (cmos n CMOS_STATA) CMOS_UIP = 0 → (n ≤ k ≤ n + 6)%nat → updating k = false;
}.

Section clock.
Context (cmos : nat → Z → Z) (patience : nat) (bcd : bool) (now : nat → rtcdate) (updating : nat → bool)
  (chip : rtc_chip cmos bcd now updating).

(** From read [N] there is no update for 26 reads, and none is announced. *)
Definition calm (N : nat) : Prop :=
  ∀ k, (N ≤ k < N + 26)%nat → updating k = false ∧ Z.land (cmos k CMOS_STATA) CMOS_UIP = 0.

Lemma cmos_read_eq reg s : ∃ s', cmos_read cmos reg s = Ok (cmos (ap_cmos s) reg) s' ∧ ap_cmos s' = S (ap_cmos s).
Proof. eexists. split; [done|]. done. Qed.

Lemma fill_eq s : ∃ s', fill_rtcdate cmos s =
  Ok (mkDate (cmos (ap_cmos s) SECS) (cmos (1 + ap_cmos s)%nat MINS) (cmos (2 + ap_cmos s)%nat HOURS) (cmos (3 + ap_cmos s)%nat DAY)
        (cmos (4 + ap_cmos s)%nat MONTH) (cmos (5 + ap_cmos s)%nat YEAR)) s' ∧ ap_cmos s' = (6 + ap_cmos s)%nat.
Proof.
  destruct (cmos_read_eq SECS s) as (s1 & E1 & T1). destruct (cmos_read_eq MINS s1) as (s2 & E2 & T2).
  destruct (cmos_read_eq HOURS s2) as (s3 & E3 & T3). destruct (cmos_read_eq DAY s3) as (s4 & E4 & T4).
  destruct (cmos_read_eq MONTH s4) as (s5 & E5 & T5). destruct (cmos_read_eq YEAR s5) as (s6 & E6 & T6).
  exists s6. split; [|lia]. unfold fill_rtcdate.
  rewrite (bind_Ok _ _ _ _ _ E1), (bind_Ok _ _ _ _ _ E2), (bind_Ok _ _ _ _ _ E3), (bind_Ok _ _ _ _ _ E4), (bind_Ok _ _ _ _ _ E5), (bind_Ok _ _ _ _ _ E6).
  rewrite T5, T4, T3, T2, T1. reflexivity.
Qed.

(** Between updates the date stands still. *)
Lemma now_steady n m : (∀ k, (n ≤ k ≤ n + m)%nat → updating k = false) → now (n + m) = now n.
Proof.
  induction m as [|m IH]; intros H; [by rewrite Nat.add_0_r|]. rewrite Nat.add_succ_r, (rc_steady _ _ _ _ chip).
  - apply IH. intros k Hk. apply H. lia.
  - apply H. lia.
  - apply H. lia.
Qed.

(** Six readings without an update between [n] and them are the date at [n]. *)
Lemma reading_steady n i :
  (∀ k, (n ≤ k ≤ n + i + 5)%nat → updating k = false) →
  mkDate (cmos (i + n)%nat SECS) (cmos (1 + (i + n))%nat MINS) (cmos (2 + (i + n))%nat HOURS) (cmos (3 + (i + n))%nat DAY)
    (cmos (4 + (i + n))%nat MONTH) (cmos (5 + (i + n))%nat YEAR) = enc_date bcd (now n).
Proof.
  intros H.
  assert (∀ j, (j < 6)%nat → mkDate (cmos (j + (i + n))%nat SECS) (cmos (j + (i + n))%nat MINS) (cmos (j + (i + n))%nat HOURS)
    (cmos (j + (i + n))%nat DAY) (cmos (j + (i + n))%nat MONTH) (cmos (j + (i + n))%nat YEAR) = enc_date bcd (now n)) as R.
  { intros j Hj. rewrite (rc_valid _ _ _ _ chip) by (apply H; lia). replace (j + (i + n))%nat with (n + (j + i))%nat by lia.
    rewrite now_steady; [done|]. intros k Hk. apply H. lia. }
  unfold enc_date. f_equal.
  - apply (f_equal second (R 0%nat ltac:(lia))).
  - apply (f_equal minute (R 1%nat ltac:(lia))).
  - apply (f_equal hour (R 2%nat ltac:(lia))).
  - apply (f_equal day (R 3%nat ltac:(lia))).
  - apply (f_equal month (R 4%nat ltac:(lia))).
  - apply (f_equal year (R 5%nat ltac:(lia))).
Qed.

(** The date of a read after [n0] at which no update was announced. *)
Definition seen (n0 : nat) (d : rtcdate) : Prop :=
  ∃ n, (n0 < n)%nat ∧ Z.land (cmos n CMOS_STATA) CMOS_UIP = 0 ∧ d = enc_date bcd (now n).

Lemma stable_date_spec N fuel : ∀ s,
  calm N → (ap_cmos s ≤ N + 13)%nat → (N < ap_cmos s + fuel)%nat → (0 < fuel)%nat →
  wp (stable_date cmos fuel) (λ d _, seen (ap_cmos s) d) s.
Proof.
  induction fuel as [|fuel IH]; intros s Hc H1 H2 H3; [lia|]. cbn [stable_date].
  destruct (fill_eq s) as (s1 & E1 & T1). apply wp_bind. eapply wp_Ok; [apply E1|].
  destruct (cmos_read_eq CMOS_STATA s1) as (s2 & E2 & T2). apply wp_bind. eapply wp_Ok; [apply E2|].
  assert (∀ s', (ap_cmos s' = 7 + ap_cmos s ∨ ap_cmos s' = 13 + ap_cmos s)%nat → (ap_cmos s < N)%nat →
    wp (stable_date cmos fuel) (λ d _, seen (ap_cmos s) d) s') as Hnext.
  { intros s' T HN. eapply wp_mono; [apply IH; try done; lia|]. intros d _ (k & Hk & Hu & ->). exists k. split; [lia|done]. }
  destruct (Z.eqb_spec (Z.land (cmos (ap_cmos s1) CMOS_STATA) CMOS_UIP) 0) as [Eu|Eu]; cbn [negb].
  - destruct (fill_eq s2) as (s3 & E3 & T3). apply wp_bind. eapply wp_Ok; [apply E3|]. rewrite T2.
    change (S (ap_cmos s1)) with (1 + ap_cmos s1)%nat.
    rewrite (reading_steady (ap_cmos s1) 1) by (intros k Hk; apply (rc_warns _ _ _ _ chip _ k Eu); lia).
    case_decide as Ed; [apply wp_ret; exists (ap_cmos s1); split_and!; [lia|done|done]|].
    apply Hnext; [lia|]. destruct (decide (N ≤ ap_cmos s)%nat); [|lia]. destruct Ed.
    change (ap_cmos s) with (0 + ap_cmos s)%nat. rewrite (reading_steady (ap_cmos s) 0) by (intros k Hk; apply Hc; lia).
    rewrite T1, (Nat.add_comm 6), now_steady; [done|]. intros k Hk. apply Hc. lia.
  - apply Hnext; [lia|]. destruct (decide (N ≤ ap_cmos s)%nat); [|lia]. destruct (Hc (ap_cmos s1)) as [_ X]; [lia|done].
Qed.

Lemma cmostime_ok N s :
  calm N → (S (ap_cmos s) ≤ N + 13)%nat → (N < patience)%nat →
  wp (cmostime cmos patience) (λ d _, ∃ n, (ap_cmos s < n)%nat ∧ Z.land (cmos n CMOS_STATA) CMOS_UIP = 0 ∧
    d = mkDate (second (now n)) (minute (now n)) (hour (now n)) (day (now n)) (month (now n)) (2000 + year (now n))) s.
Proof.
  intros Hc H1 H2. unfold cmostime.
  destruct (cmos_read_eq CMOS_STATB s) as (s1 & E1 & T1). apply wp_bind. eapply wp_Ok; [apply E1|].
  apply wp_bind. eapply wp_mono; [apply (stable_date_spec N); [done|lia..]|]. intros d s2 (k & Hk & Hu & ->). apply wp_ret.
  exists k. split; [lia|]. split; [done|]. pose proof (rc_mode _ _ _ _ chip) as Hb.
  assert ((Z.land (cmos (ap_cmos s) CMOS_STATB) (Z.shiftl 1 2) =? 0) = bcd) as ->.
  { rewrite Z.shiftl_1_l. destruct (Z.eqb_spec (Z.land (cmos (ap_cmos s) CMOS_STATB) (2 ^ 2)) 0) as [E|E].
    - assert (Z.testbit (Z.land (cmos (ap_cmos s) CMOS_STATB) (2 ^ 2)) 2 = false) as X by (by rewrite E).
      rewrite Z.land_spec, Hb in X. by destruct bcd.
    - destruct bcd; [|done]. destruct E. apply Z.bits_inj'. intros i Hi. rewrite Z.land_spec, Z.bits_0.
      destruct (decide (i = 2)) as [->|]; [by rewrite Hb|]. rewrite Z.pow2_bits_false by lia. apply andb_false_r. }
  destruct bcd; [rewrite conv_enc by apply (rc_digits _ _ _ _ chip)|]; f_equal; cbn; lia.
Qed.
End clock.

(** C35. cmostime never returns a torn date: for a clock chip whose date registers may read as
    anything during an update, and that announces an update by UIP at least six reads ahead, in
    binary or BCD, the result is exactly the date that the clock held at one read of status
    register A after the call, with the century added; it returns once the chip has no update
    for 26 reads. *)
Theorem cmostime_correct (cmos : nat → Z → Z) (patience N : nat) (bcd : bool) (now : nat → rtcdate) (updating : nat → bool) (s : apic)
  (chip : rtc_chip cmos bcd now updating) (Hcalm : calm cmos updating N)
  (soon : (S (ap_cmos s) ≤ N + 13)%nat) (enough : (N < patience)%nat) :
  wp (cmostime cmos patience) (λ d _, ∃ n, (ap_cmos s < n)%nat ∧ Z.land (cmos n CMOS_STATA) CMOS_UIP = 0 ∧
    d = mkDate (second (now n)) (minute (now n)) (hour (now n)) (day (now n)) (month (now n)) (2000 + year (now n))) s.
Proof. by apply (cmostime_ok cmos patience bcd now updating chip N). Qed.

(** After [ioapicinit] every interrupt of the table is off; the other registers are as they were. *)
Lemma ioapicinit_ok id s :
  let M := Z.land (Z.shiftr (Ioapic.io_regs s 1) 16) 255 in
  wp (Ioapic.ioapicinit id) (λ _ s', (∀ i, 0 ≤ i ≤ M → Ioapic.off s' i) ∧
    ∀ r, ¬ (16 ≤ r < 16 + 2 * (M + 1)) → Ioapic.io_regs s' r = Ioapic.io_regs s r) s.
Proof.
  intros M. assert (0 ≤ M) by (apply Z.land_nonneg; lia). unfold Ioapic.ioapicinit.
  do 2 (apply wp_bind; eapply wp_Ok; [apply Ioapic.ioapicread_eq|]; cbv zeta). cbn [Ioapic.io_regs]. apply wp_bind.
  change (Z.land (Z.shiftr (Ioapic.io_regs s Ioapic.REG_VER) 16) 255) with M.
  destruct (Z.shiftr (Ioapic.io_regs s Ioapic.REG_ID) 24 =? id) eqn:E; cbn [negb]; [apply wp_ret|apply wp_modify_end].
  all: eapply wp_mono; [apply Ioapic.disable_from_spec; lia|]; intros [] s' [H1 H2].
  all: split; [intros i Hi; apply H1; lia|intros r Hr; rewrite H2; [done|lia]].
Qed.

(** A clock in BCD that leaves 23:59:59 on the last day of 2026 in the reads 9 to 11, with
    UIP set from the third read on; during the update the registers read as 255. *)
Module LapicExample.
Definition now (n : nat) : rtcdate := if (n <? 10)%nat then mkDate 59 59 23 31 12 26 else mkDate 0 0 0 1 1 27.
Definition updating (n : nat) : bool := (9 <=? n)%nat && (n <? 12)%nat.
Definition cmos (n : nat) (r : Z) : Z :=
  let d := enc_date true (now n) in
  if r =? CMOS_STATA then (if (3 <=? n)%nat && (n <? 12)%nat then CMOS_UIP else 0)
  else if r =? CMOS_STATB then 0
  else if updating n then 255
  else if r =? SECS then second d else if r =? MINS then minute d else if r =? HOURS then hour d else
  if r =? DAY then day d else if r =? MONTH then month d else if r =? YEAR then year d else 0.

Lemma late n : (10 ≤ n)%nat → now n = mkDate 0 0 0 1 1 27.
Proof. intros H. unfold now. by rewrite (proj2 (Nat.ltb_ge _ _)). Qed.
Lemma early n : (n < 10)%nat → now n = mkDate 59 59 23 31 12 26.
Proof. intros H. unfold now. by rewrite (proj2 (Nat.ltb_lt _ _)). Qed.
Lemma idle n : updating n = false ↔ (n < 9 ∨ 12 ≤ n)%nat.
Proof. unfold updating. rewrite andb_false_iff, Nat.leb_gt, Nat.ltb_ge. done. Qed.
Lemma announced n : Z.land (cmos n CMOS_STATA) CMOS_UIP = 0 ↔ (n < 3 ∨ 12 ≤ n)%nat.
Proof.
  unfold cmos. rewrite Z.eqb_refl. destruct (Nat.leb_spec 3 n), (Nat.ltb_spec n 12); cbn [andb];
    (split; [intros; lia || done|intros; lia || done]).
Qed.

Lemma example_chip : rtc_chip cmos true now updating.
Proof.
  split.
  - intros n. reflexivity.
  - intros n. destruct (decide (n < 10)%nat); [rewrite early by lia|rewrite late by lia]; unfold two_digits; cbn; lia.
  - intros n Hn. unfold cmos. rewrite Hn. reflexivity.
  - intros n H1 H2. apply idle in H1, H2. destruct (decide (n < 10)%nat); [rewrite !early by lia|rewrite !late by lia]; reflexivity.
  - intros n k H Hk. apply announced in H. apply idle. lia.
Qed.

Lemma cmostime_correct_witness :
  wp (cmostime cmos 20) (λ d _, d = mkDate 59 59 23 31 12 2026 ∨ d = mkDate 0 0 0 1 1 2027) (mkApic true [] (λ _, Byte.x00) 0 0).
Proof.
  eapply wp_mono; [apply (cmostime_correct cmos 20 12 true now updating)|].
  - exact example_chip.
  - intros k Hk. split; [apply idle|apply announced]; lia.
  - cbn. lia.
  - lia.
  - intros d s' (n & _ & _ & ->). destruct (decide (n < 10)%nat); [left; rewrite early by lia|right; rewrite late by lia]; reflexivity.
Defined.
End LapicExample.
