(* ===== verification/SysArgs.v ===== *)
(** * Fetching system call arguments (src/syscall.c)

    A process chooses its stack pointer and everything on its stack.  The functions
    of syscall.c are exact: they return an argument when all of it lies in the memory
    of the process, an error otherwise, and the kernel never faults on the way. *)

From S2P Require Import Prelude Fcntl Dll Sleeplock Bio Memide FsLayout Log LogCrash LogProtocol Tx CString Fs Pipe Kalloc Vm PageTable Kernel File Sysfile.

Section args.
Context {S : Type}.
Implicit Types s : kern S.

(** The byte that the running process has at [va]. *)
Definition user_byte s (va : Z) : option byte := (k_mem (kn_k s)) <$> user_addr s va.

(** All memory below the size of the process is mapped. *)
Definition memory_ok s : Prop :=
  0 ≤ p_sz (cur_proc s) ≤ KERNBASE ∧ ∀ a, 0 ≤ a < p_sz (cur_proc s) → is_Some (user_byte s a).

(** The bytes [bs] are at [va]. *)
Definition user_bytes s (va : Z) (bs : list byte) : Prop := ∀ i b, bs !! i = Some b → user_byte s (va + Z.of_nat i) = Some b.

(** The word of the stack that is argument [n]. *)
Definition arg_addr s (n : Z) : Z := u32 (ldw (k_mem (kn_k s)) (p_tf (cur_proc s) + TF_ESP) + 4 + 4 * n).

Lemma uload1_eq s va b : user_byte s va = Some b → uload1 va s = Ok b s.
Proof.
  unfold user_byte, uload1. intros (a & Ha & ->)%fmap_Some. rewrite (bind_Ok getS _ s s s eq_refl). by rewrite Ha.
Qed.

Lemma uload_eq bs : ∀ s va, user_bytes s va bs → uload va (length bs) s = Ok bs s.
Proof.
  induction bs as [|b bs IH]; intros s va H; [done|]. cbn [length uload].
  rewrite (bind_Ok _ _ _ _ _ (uload1_eq s va b ltac:(rewrite <- (H 0%nat b eq_refl); f_equal; lia))).
  rewrite (bind_Ok _ _ _ _ _ (IH s (va + 1) ltac:(intros i c Hi; rewrite <- (H (1 + i)%nat c Hi); f_equal; lia))). done.
Qed.

(** There are [n] bytes at [va] when all of them are mapped. *)
Lemma user_bytes_exist n : ∀ s va, (∀ a, va ≤ a < va + Z.of_nat n → is_Some (user_byte s a)) → ∃ bs, length bs = n ∧ user_bytes s va bs.
Proof.
  induction n as [|n IH]; intros s va H; [by exists []|].
  destruct (H va ltac:(lia)) as [b Hb]. destruct (IH s (va + 1)) as (bs & Hl & Hbs); [intros a Ha; apply H; lia|].
  exists (b :: bs). split; [by rewrite <- Hl|]. intros [|i] c Hc; [rewrite Z.add_0_r; by injection Hc as <-|].
  rewrite <- (Hbs i c Hc). f_equal. lia.
Qed.

Lemma fetchint_ok s addr :
  memory_ok s → 0 ≤ addr < 2 ^ 32 →
  if decide (addr + 4 ≤ p_sz (cur_proc s))
  then ∃ bs, length bs = 4%nat ∧ user_bytes s addr bs ∧ fetchint addr s = Ok (Some (s32 (le_val bs))) s
  else fetchint addr s = Ok None s.
Proof.
  intros [Hsz Hm] Ha. unfold fetchint, KERNBASE in *. change (myproc s) with (Ok (S := kern S) (cur_proc s) s).
  rewrite (bind_Ok myproc _ s (cur_proc s) s eq_refl). case_decide as H.
  - rewrite (proj2 (Z.leb_gt _ _)), u32_small, (proj2 (Z.ltb_ge _ _)) by lia. cbn [orb].
    destruct (user_bytes_exist 4 s addr) as (bs & Hl & Hb); [intros a Ha'; apply Hm; lia|]. exists bs. split; [done|]. split; [done|].
    pose proof (uload_eq bs s addr Hb) as E. rewrite Hl in E. by rewrite (bind_Ok _ _ _ _ _ E).
  - destruct (Z.leb_spec (p_sz (cur_proc s)) addr); [done|]. rewrite u32_small, (proj2 (Z.ltb_lt _ _)) by lia. done.
Qed.

Lemma tf_get_eq s o : tf_get o s = Ok (ldw (k_mem (kn_k s)) (p_tf (cur_proc s) + o)) s.
Proof. unfold tf_get. rewrite (bind_Ok myproc _ s (cur_proc s) s eq_refl). unfold liftK, lift. cbn. by destruct s. Qed.

(** Argument [n] of the call. *)
Definition arg_word s (n : Z) : option Z :=
  if decide (arg_addr s n + 4 ≤ p_sz (cur_proc s))
  then le_val <$> mapM (user_byte s) [arg_addr s n; arg_addr s n + 1; arg_addr s n + 2; arg_addr s n + 3]
  else None.

Lemma user_bytes_4 s a bs :
  length bs = 4%nat → user_bytes s a bs → mapM (user_byte s) [a; a + 1; a + 2; a + 3] = Some bs.
Proof.
  intros Hl H. destruct bs as [|b0 [|b1 [|b2 [|b3 [|]]]]]; try done.
  pose proof (H 0%nat b0 eq_refl) as H0. pose proof (H 1%nat b1 eq_refl : user_byte s (a + 1) = Some b1) as H1. pose proof (H 2%nat b2 eq_refl : user_byte s (a + 2) = Some b2) as H2.
  pose proof (H 3%nat b3 eq_refl : user_byte s (a + 3) = Some b3) as H3. cbn in *. rewrite Z.add_0_r in H0. by rewrite H0, H1, H2, H3.
Qed.

Lemma argint_ok s n : memory_ok s → argint n s = Ok (s32 <$> arg_word s n) s.
Proof.
  intros Hm. unfold argint. rewrite (bind_Ok _ _ _ _ _ (tf_get_eq s TF_ESP)). fold (arg_addr s n).
  pose proof (fetchint_ok s (arg_addr s n) Hm (u32_range _)) as H. unfold arg_word.
  destruct (decide (arg_addr s n + 4 ≤ p_sz (cur_proc s))); [|done]. destruct H as (bs & Hl & Hb & ->).
  by rewrite (user_bytes_4 s _ bs Hl Hb).
Qed.

Lemma arg_word_range s n i : arg_word s n = Some i → 0 ≤ i < 2 ^ 32.
Proof.
  unfold arg_word. case_decide; [|done]. intros (bs & Hb & ->)%fmap_Some. apply length_mapM in Hb.
  pose proof (le_val_range bs) as R. rewrite <- Hb in R. cbn [length] in R. exact R.
Qed.

Lemma u32_s32 i : 0 ≤ i < 2 ^ 32 → u32 (s32 i) = i.
Proof. intros H. unfold u32, s32. cbv zeta. repeat case_match; Z.div_mod_to_equations; lia. Qed.

(** *** Pointers and strings *)

(** What [argptr] accepts: a block of [size] bytes in the memory of the process, from an address in it. *)
Definition arg_block s (n size : Z) : option Z :=
  a ← arg_word s n;
  if decide (0 ≤ size ∧ a < p_sz (cur_proc s) ∧ a + size ≤ p_sz (cur_proc s)) then Some a else None.

Lemma argptr_ok s n size :
  memory_ok s → size < 2 ^ 31 →
  argptr n size s = Ok (arg_block s n size) s ∧
  (∀ a b, arg_block s n size = Some a → a ≤ b < a + size → is_Some (user_byte s b)).
Proof.
  intros Hm Hs. split.
  - unfold argptr, arg_block. rewrite (bind_Ok _ _ _ _ _ (argint_ok s n Hm)). destruct (arg_word s n) as [i|] eqn:E; [|done].
    cbn [fmap option_fmap option_map mbind option_bind]. rewrite (bind_Ok myproc _ s (cur_proc s) s eq_refl).
    apply arg_word_range in E. rewrite u32_s32 by done. destruct Hm as [Hsz _]. unfold KERNBASE in Hsz.
    destruct (Z.ltb_spec size 0); [by rewrite decide_False by lia|]. destruct (Z.leb_spec (p_sz (cur_proc s)) i); [by rewrite decide_False by lia|].
    rewrite u32_small by lia. destruct (Z.ltb_spec (p_sz (cur_proc s)) (i + size)); [by rewrite decide_False by lia|by rewrite decide_True by lia].
  - intros a b (i & Hi & H)%bind_Some Hb. case_decide; [|done]. injection H as <-. apply arg_word_range in Hi. apply Hm. lia.
Qed.

(** The string at [addr]: its bytes without a NUL, then one, all below the size of the process. *)
Definition string_at s (addr : Z) (str : list byte) : Prop :=
  user_bytes s addr (str ++ [Byte.x00]) ∧ (Byte.x00 ∉ str) ∧ addr + Z.of_nat (length str) < p_sz (cur_proc s).

Lemma fetchstr_loop_ok n : ∀ s a acc,
  (∀ b, a ≤ b < a + Z.of_nat n → is_Some (user_byte s b)) →
  ∃ r, fetchstr_loop a acc n s = Ok r s ∧
    match r with
    | Some l => ∃ str, l = acc ++ str ∧ user_bytes s a (str ++ [Byte.x00]) ∧ (Byte.x00 ∉ str) ∧ (length str < n)%nat
    | None => ∀ b, a ≤ b < a + Z.of_nat n → user_byte s b ≠ Some Byte.x00
    end.
Proof.
  induction n as [|n IH]; intros s a acc H; cbn [fetchstr_loop].
  - exists None. split; [done|]. intros b Hb. lia.
  - destruct (H a ltac:(lia)) as [b Hb]. rewrite (bind_Ok _ _ _ _ _ (uload1_eq s a b Hb)).
    destruct (bool_decide_reflect (b = Byte.x00)) as [->|Hne].
    + exists (Some acc). split; [done|]. exists []. rewrite app_nil_r. split; [done|]. split; [|split; [apply not_elem_of_nil|cbn; lia]].
      intros [|i] c Hc; [|by destruct i]. rewrite Z.add_0_r. by injection Hc as <-.
    + destruct (IH s (a + 1) (acc ++ [b])) as (r & Er & Hr); [intros x Hx; apply H; lia|]. exists r. split; [done|].
      destruct r as [l|].
      * destruct Hr as (str & -> & Hs & Hn & Hl). exists (b :: str). rewrite <- app_assoc. split; [done|]. split; [|split].
        -- intros [|i] c Hc; [rewrite Z.add_0_r; by injection Hc as <-|]. rewrite <- (Hs i c Hc). f_equal. lia.
        -- apply not_elem_of_cons. split; [congruence|done].
        -- cbn. lia.
      * intros x Hx. destruct (decide (x = a)) as [->|]; [congruence|]. apply Hr. lia.
Qed.

Lemma fetchstr_ok s addr :
  memory_ok s → 0 ≤ addr →
  ∃ r, fetchstr addr s = Ok r s ∧
    match r with
    | Some str => string_at s addr str
    | None => ∀ b, addr ≤ b < p_sz (cur_proc s) → user_byte s b ≠ Some Byte.x00
    end.
Proof.
  intros [Hsz Hm] Ha. unfold fetchstr. rewrite (bind_Ok myproc _ s (cur_proc s) s eq_refl).
  destruct (Z.leb_spec (p_sz (cur_proc s)) addr) as [H|H]; [exists None; split; [done|]; intros b Hb; lia|].
  destruct (fetchstr_loop_ok (Z.to_nat (p_sz (cur_proc s) - addr)) s addr []) as (r & Er & Hr); [intros b Hb; apply Hm; lia|].
  exists r. split; [done|]. destruct r as [l|]; [|intros b Hb; apply Hr; lia].
  destruct Hr as (str & -> & Hs & Hn & Hl). split; [done|]. split; [done|]. cbn [app]. lia.
Qed.

Lemma argstr_ok s n :
  memory_ok s →
  ∃ r, argstr n s = Ok r s ∧
    match r with
    | Some str => ∃ a, arg_word s n = Some a ∧ string_at s a str
    | None => ∀ a b, arg_word s n = Some a → a ≤ b < p_sz (cur_proc s) → user_byte s b ≠ Some Byte.x00
    end.
Proof.
  intros Hm. unfold argstr. rewrite (bind_Ok _ _ _ _ _ (argint_ok s n Hm)). destruct (arg_word s n) as [i|] eqn:E; [|by exists None].
  apply arg_word_range in E. cbn [fmap option_fmap option_map]. rewrite u32_s32 by done.
  destruct (fetchstr_ok s i Hm ltac:(lia)) as (r & -> & Hr). exists r. split; [done|].
  destruct r as [str|]; [by exists i|]. intros a b [= <-]. apply Hr.
Qed.
End args.

(** C24. Whatever stack pointer and stack a process presents, argint, argptr and argstr never fault
    and change nothing: argint gives the word when all four bytes lie below the size of the
    process, argptr accepts a block exactly when it is not negative and lies there wholly, so
    that every byte of it can be reached, and argstr finds the string up to its NUL exactly when
    there is one before the end of memory. *)
Theorem arguments_in_bounds {S} (s : kern S) (n size : Z) (mapped : memory_ok s) (fits : size < 2 ^ 31) :
  argint n s = Ok (s32 <$> arg_word s n) s ∧
  (argptr n size s = Ok (arg_block s n size) s ∧
   ∀ a b, arg_block s n size = Some a → a ≤ b < a + size → is_Some (user_byte s b)) ∧
  ∃ r, argstr n s = Ok r s ∧
    match r with
    | Some str => ∃ a, arg_word s n = Some a ∧ string_at s a str
    | None => ∀ a b, arg_word s n = Some a → a ≤ b < p_sz (cur_proc s) → user_byte s b ≠ Some Byte.x00
    end.
Proof. split; [by apply argint_ok|]. split; [by apply argptr_ok|by apply argstr_ok]. Qed.

(** A process of 256 bytes with its stack pointer at 100; its first argument is a pointer to the string at 200. *)
Module ArgsExample.
Definition dir : Z := KERNBASE + 8192.
Definition tf : Z := KERNBASE + 20480.
Definition m : mem :=
  stw (dir + 0) 12295 (stw (KERNBASE + 12288) 16391 (stw (tf + TF_ESP) 100 (stw (KERNBASE + 16384 + 104) 200
    (stw (KERNBASE + 16384 + 200) 26984 (λ _, Byte.x00))))).
Definition p : proc := mkProc 256 dir 0 RUNNING 2 (Some 0%nat) tf 0 NoChan false (replicate NOFILE None) 1 (replicate 16 Byte.x00).
Definition s : kern unit := mkKern (mkKst m 0 0) (mkFsst () (mkSb 0 0 0 0 0 0 0) [] 0 0) [] ∅ [p] 3 0 0 0.

Lemma mapped : memory_ok s.
Proof.
  split; [vm_compute; split; congruence|]. intros a Ha. change (p_sz (cur_proc s)) with 256 in Ha.
  unfold user_byte, user_addr. rewrite (Z.div_small a PGSIZE) by (unfold PGSIZE; lia). cbv zeta.
  assert (present (pte (k_mem (kn_k s)) (p_pgdir (cur_proc s)) 0) = true) as -> by (vm_compute; reflexivity). by eexists.
Qed.

Lemma arguments_in_bounds_witness :
  argptr 0 16 s = Ok (Some 200) s ∧ argptr 0 57 s = Ok None s ∧ ∃ r, argstr 0 s = Ok r s ∧ r = Some (bytes_of "hi").
Proof.
  destruct (arguments_in_bounds s 0 16 mapped ltac:(lia)) as (_ & [E _] & (r & Er & Hr)).
  destruct (arguments_in_bounds s 0 57 mapped ltac:(lia)) as (_ & [E' _] & _).
  assert (arg_block s 0 16 = Some 200) as X by (vm_compute; reflexivity). rewrite X in E.
  assert (arg_block s 0 57 = None) as X' by (vm_compute; reflexivity). rewrite X' in E'.
  split; [exact E|]. split; [exact E'|]. exists r. split; [exact Er|].
  assert (match argstr 0 s with Ok r _ => r | _ => None end = Some (bytes_of "hi")) as Y by (vm_compute; reflexivity).
  rewrite Er in Y. exact Y.
Defined.
End ArgsExample.
