(* ===== verification/User.v ===== *)
(** * User programs (src/cat.c, src/wc.c, src/ls.c, src/echo.c, src/kill.c, src/ln.c, src/mkdir.c, src/rm.c, src/ulib.c)

    The programs around the system calls.  The world of a program: the files it can
    open with what reading them will give, its descriptors, what it has written, and
    the other calls it made with the results they will have.  A program that has
    called [exit] is [Blocked] with [w_exited] set. *)

From S2P Require Import Prelude CString Printf.

(** What the next read of a file gives; after the last one it is at its end. *)
Inductive rd : Type := Data (bs : list byte) | Fault.
Record ustat : Type := mkUstat { st_type : Z; st_ino : Z; st_size : Z }.
Inductive call : Type := Mkdir (p : list byte) | Unlink (p : list byte) | Link (old new : list byte) | Kill (pid : Z).

Record ufile : Type := mkUfile { uf_reads : list rd; uf_stat : option ustat }.

Record uworld : Type := mkW {
  w_files : list byte → option ufile;
  w_fds : list (option ufile);
  w_out : list (Z * list byte);   (* descriptor and bytes of each write *)
  w_full : list bool;             (* whether the next writes of [write] calls fall short; after the last none does *)
  w_calls : list call;
  w_res : list Z;                 (* results of those calls; after the last they succeed *)
  w_exited : bool;
}.
Abbreviation U := (M uworld).

Definition set_fds v w := mkW (w_files w) v (w_out w) (w_full w) (w_calls w) (w_res w) (w_exited w).
Definition put_out v w := mkW (w_files w) (w_fds w) (w_out w ++ v) (w_full w) (w_calls w) (w_res w) (w_exited w).
Definition set_full v w := mkW (w_files w) (w_fds w) (w_out w) v (w_calls w) (w_res w) (w_exited w).
Definition did_call c l w := mkW (w_files w) (w_fds w) (w_out w) (w_full w) (w_calls w ++ [c]) l (w_exited w).
Definition exited w := mkW (w_files w) (w_fds w) (w_out w) (w_full w) (w_calls w) (w_res w) true.

(** ** System calls *)

Definition exit {A} : U A := modify exited;; sleeps.

(** The lowest free descriptor. *)
Fixpoint free_fd {A} (l : list (option A)) (i : nat) : option nat :=
  match l with
  | [] => None
  | None :: _ => Some i
  | Some _ :: l => free_fd l (S i)
  end.

Definition open (path : list byte) : U Z :=
  w ← getS;
  match w_files w path, free_fd (w_fds w) 0 with
  | Some f, Some fd => putS (set_fds (<[fd := Some f]> (w_fds w)) w);; mret (Z.of_nat fd)
  | _, _ => mret (-1)
  end.
Definition close (fd : Z) : U unit := modify (λ w, set_fds (<[Z.to_nat fd := None]> (w_fds w)) w).

(** [read(fd, buf, n)]: the result and the bytes *)
Definition read (fd n : Z) : U (Z * list byte) :=
  w ← getS;
  match w_fds w !! Z.to_nat fd with
  | Some (Some f) =>
      match uf_reads f with
      | [] => mret (0, [])
      | Fault :: _ => mret (-1, [])
      | Data bs :: l =>
          let rest := drop (Z.to_nat n) bs in
          let l := if decide (rest = []) then l else Data rest :: l in
          putS (set_fds (<[Z.to_nat fd := Some (mkUfile l (uf_stat f))]> (w_fds w)) w);;
          mret (Z.of_nat (length (take (Z.to_nat n) bs)), take (Z.to_nat n) bs)
      end
  | _ => mret (-1, [])
  end.

Definition write (fd : Z) (bs : list byte) : U Z :=
  w ← getS;
  match w_full w with
  | true :: l => putS (set_full l w);; mret (-1)
  | false :: l => putS (put_out [(fd, bs)] (set_full l w));; mret (Z.of_nat (length bs))
  | [] => putS (put_out [(fd, bs)] w);; mret (Z.of_nat (length bs))
  end.

Definition fstat (fd : Z) : U (option ustat) :=
  w ← getS; mret (match w_fds w !! Z.to_nat fd with Some (Some f) => uf_stat f | _ => None end).

Definition syscall (c : call) : U Z :=
  w ← getS;
  match w_res w with
  | [] => putS (did_call c [] w);; mret 0
  | r :: l => putS (did_call c l w);; mret r
  end.

(** An argument of printf, and [printf(fd, fmt, ...)]: its [putc] ignores what write returns. *)
Inductive arg : Type := Num (z : Z) | Str (s : list byte).
Definition arg_val (l : list arg) (i : nat) : Z := match l !! i with Some (Num z) => z | Some (Str _) => Z.of_nat i + 1 | None => 0 end.
Definition arg_str (l : list arg) (p : Z) : list byte := match l !! (Z.to_nat p - 1)%nat with Some (Str s) => s | _ => [] end.
Definition text (fmt : string) (l : list arg) : list byte := Printf.printf (arg_val l) (arg_str l) (bytes_of fmt).
Definition printf (fd : Z) (fmt : string) (l : list arg) : U unit := modify (put_out [(fd, text fmt l)]).

(** ** cat *)

Fixpoint cat_loop (fd : Z) (fuel : nat) : U Z :=
  match fuel with
  | O => sleeps
  | S fuel =>
      r ← read fd 512;
      if 0 <? r.1 then
        k ← write 1 r.2;
        if negb (k =? r.1) then printf 1 "cat: write error
" [];; exit
        else cat_loop fd fuel
      else mret r.1
  end.

(** The reads that a descriptor has left take at most this many turns. *)
Definition turns (l : list rd) : nat := sum_list_with (λ r, match r with Data bs => S (length bs) | Fault => 1%nat end) l.
Definition fd_turns (fd : Z) : U nat :=
  gets (λ w, match w_fds w !! Z.to_nat fd with Some (Some f) => S (turns (uf_reads f)) | _ => 1%nat end).

Definition cat (fd : Z) : U unit :=
  fuel ← fd_turns fd;
  n ← cat_loop fd fuel;
  if n <? 0 then printf 1 "cat: read error
" [];; exit else mret tt.

Fixpoint cat_files (argv : list (list byte)) : U unit :=
  match argv with
  | [] => exit
  | a :: argv =>
      fd ← open a;
      if fd <? 0 then printf 1 "cat: cannot open %s
" [Str a];; exit
      else cat fd;; close fd;; cat_files argv
  end.
(** [argv] without the name of the program *)
Definition cat_main (argv : list (list byte)) : U unit :=
  match argv with [] => cat 0;; exit | _ => cat_files argv end.

(** ** wc *)

Record counts : Type := mkCounts { c_l : Z; c_w : Z; c_c : Z; c_inword : bool }.
Definition blanks : list byte := bytes_of " " ++ [Byte.x0d; Byte.x09; Byte.x0a; Byte.x0b].
Definition blank (b : byte) : bool := match Ulib.strchr (chars blanks) 0 b 6 with Some (Some _) => true | _ => false end.

(** The body of the loop over the bytes read *)
Definition wc_char (k : counts) (b : byte) : counts :=
  let c := s32 (c_c k + 1) in
  let l := if bool_decide (b = Byte.x0a) then s32 (c_l k + 1) else c_l k in
  if blank b then mkCounts l (c_w k) c false
  else if negb (c_inword k) then mkCounts l (s32 (c_w k + 1)) c true
  else mkCounts l (c_w k) c (c_inword k).

Fixpoint wc_loop (fd : Z) (k : counts) (fuel : nat) : U (Z * counts) :=
  match fuel with
  | O => sleeps
  | S fuel =>
      r ← read fd 512;
      if 0 <? r.1 then wc_loop fd (foldl wc_char k r.2) fuel else mret (r.1, k)
  end.

Definition wc (fd : Z) (name : list byte) : U unit :=
  fuel ← fd_turns fd;
  r ← wc_loop fd (mkCounts 0 0 0 false) fuel;
  if r.1 <? 0 then printf 1 "wc: read error
" [];; exit
  else printf 1 "%d %d %d %s
" [Num (c_l r.2); Num (c_w r.2); Num (c_c r.2); Str name].

Fixpoint wc_files (argv : list (list byte)) : U unit :=
  match argv with
  | [] => exit
  | a :: argv =>
      fd ← open a;
      if fd <? 0 then printf 1 "wc: cannot open %s
" [Str a];; exit
      else wc fd a;; close fd;; wc_files argv
  end.
Definition wc_main (argv : list (list byte)) : U unit :=
  match argv with [] => wc 0 [];; exit | _ => wc_files argv end.

(** ** echo, kill, ln, mkdir, rm *)

Fixpoint echo_loop (argv : list (list byte)) : U unit :=
  match argv with
  | [] => mret tt
  | a :: argv => printf 1 "%s%s" [Str a; Str (match argv with [] => [Byte.x0a] | _ => bytes_of " " end)];; echo_loop argv
  end.
Definition echo_main (argv : list (list byte)) : U unit := echo_loop argv;; exit.

Fixpoint kill_loop (argv : list (list byte)) : U unit :=
  match argv with
  | [] => mret tt
  | a :: argv => syscall (Kill (default 0 (Ulib.atoi (chars a) (S (length a)))));; kill_loop argv
  end.
Definition kill_main (argv : list (list byte)) : U unit :=
  match argv with
  | [] => printf 2 "usage: kill pid...
" [];; exit
  | _ => kill_loop argv;; exit
  end.

Definition ln_main (argv : list (list byte)) : U unit :=
  match argv with
  | [a; b] =>
      r ← syscall (Link a b);
      (if r <? 0 then printf 2 "link %s %s: failed
" [Str a; Str b] else mret tt);; exit
  | _ => printf 2 "Usage: ln old new
" [];; exit
  end.

(** The loops of mkdir and rm stop at the first call that fails. *)
Fixpoint mkdir_loop (argv : list (list byte)) : U unit :=
  match argv with
  | [] => mret tt
  | a :: argv =>
      r ← syscall (Mkdir a);
      if r <? 0 then printf 2 "mkdir: %s failed to create
" [Str a] else mkdir_loop argv
  end.
Definition mkdir_main (argv : list (list byte)) : U unit :=
  match argv with
  | [] => printf 2 "Usage: mkdir files...
" [];; exit
  | _ => mkdir_loop argv;; exit
  end.

Fixpoint rm_loop (argv : list (list byte)) : U unit :=
  match argv with
  | [] => mret tt
  | a :: argv =>
      r ← syscall (Unlink a);
      if r <? 0 then printf 2 "rm: %s failed to delete
" [Str a] else rm_loop argv
  end.
Definition rm_main (argv : list (list byte)) : U unit :=
  match argv with
  | [] => printf 2 "Usage: rm files...
" [];; exit
  | _ => rm_loop argv;; exit
  end.

(** ** ls *)

Definition T_DIR : Z := 1.
Definition T_FILE : Z := 2.
Definition DIRSIZ : nat := 14.
Definition slash : byte := Byte.x2f.

(** [for(p=path+strlen(path); p >= path && *p != '/'; p--) ; p++], as an offset; [n] is the offset of [p] plus one *)
Fixpoint scan_back (path : list byte) (n : nat) : nat :=
  match n with
  | O => 0
  | S i => if decide (path !! i = Some slash) then S i else scan_back path i
  end.

(** Return blank-padded name. *)
Definition fmtname (path : list byte) : list byte :=
  let p := drop (scan_back path (S (length path))) path in
  if (DIRSIZ <=? length p)%nat then p else p ++ replicate (DIRSIZ - length p) Byte.x20.

(** [stat] of ulib.c *)
Definition stat (path : list byte) : U (option ustat) :=
  fd ← open path;
  if fd <? 0 then mret None else r ← fstat fd; close fd;; mret r.

Definition ls_line (path : list byte) (st : ustat) : U unit :=
  printf 1 "%s %d %d %d
" [Str (fmtname path); Num (st_type st); Num (st_ino st); Num (st_size st)].

(** [while(read(fd, &de, sizeof(de)) == sizeof(de))], [dir] being the path with its slash *)
Fixpoint ls_loop (fd : Z) (dir : list byte) (fuel : nat) : U unit :=
  match fuel with
  | O => sleeps
  | S fuel =>
      r ← read fd 16;
      if r.1 =? 16 then
        let de := r.2 in
        if ld 2 0 de =? 0 then ls_loop fd dir fuel
        else
          let buf := dir ++ until_nul (take DIRSIZ (drop 2 de)) in
          st ← stat buf;
          (match st with
           | None => printf 1 "ls: cannot stat %s
" [Str buf]
           | Some st => ls_line buf st
           end);;
          ls_loop fd dir fuel
      else mret tt
  end.

Definition ls (path : list byte) : U unit :=
  fd ← open path;
  if fd <? 0 then printf 2 "ls: cannot open %s
" [Str path]
  else
    st ← fstat fd;
    match st with
    | None => printf 2 "ls: cannot stat %s
" [Str path];; close fd
    | Some st =>
        (if st_type st =? T_FILE then ls_line path st
         else if st_type st =? T_DIR then
           if (512 <? length path + 1 + DIRSIZ + 1)%nat then printf 1 "ls: path too long
" []
           else
             fuel ← fd_turns fd;
             ls_loop fd (path ++ [slash]) fuel
         else mret tt);;
        close fd
    end.

Fixpoint ls_all (argv : list (list byte)) : U unit :=
  match argv with [] => mret tt | a :: argv => ls a;; ls_all argv end.
Definition ls_main (argv : list (list byte)) : U unit :=
  match argv with [] => ls (bytes_of ".");; exit | _ => ls_all argv;; exit end.
