(* ===== verification/UserText.v ===== *)
(** * cat and wc

    What the two filters print is a function of the contents of their files, however
    the reads cut these into pieces. *)

From S2P Require Import Prelude CString Printf User.

(** ** The contents of a file *)

(** What successive reads give, up to the end or the first error. *)
Fixpoint content (l : list rd) : list byte :=
  match l with
  | Data (b :: bs) :: l => (b :: bs) ++ content l
  | _ => []
  end.
Fixpoint faulty (l : list rd) : bool :=
  match l with
  | Data (_ :: _) :: l => faulty l
  | Fault :: _ => true
  | _ => false
  end.

(** One read of at most 512 bytes: result, bytes, and the reads that are left. *)
Definition rd_step (l : list rd) : Z * list byte * list rd :=
  match l with
  | [] => (0, [], [])
  | Fault :: _ => (-1, [], l)
  | Data bs :: l =>
      (Z.of_nat (length (take 512 bs)), take 512 bs, if decide (drop 512 bs = []) then l else Data (drop 512 bs) :: l)
  end.

(** A read that gives bytes takes them off the contents; one that gives none is at the end or at an error. *)
Lemma rd_step_spec l :
  match rd_step l with
  | (r, bs, l') =>
      (0 < r ∧ r = Z.of_nat (length bs) ∧ content l = bs ++ content l' ∧ faulty l = faulty l' ∧ (turns l' < turns l)%nat) ∨
      (r = (if faulty l then -1 else 0) ∧ content l = [])
  end.
Proof.
  destruct l as [|[[|b bs]|] l]; cbn [rd_step]; try (right; by split).
  left. set (x := b :: bs). assert (0 < length (take 512 x))%nat by (unfold x; cbn; lia).
  split; [lia|]. split; [done|]. destruct (decide (drop 512 x = [])) as [E|E].
  - assert (take 512 x = x) as -> by (rewrite <- (take_drop 512 x) at 2; by rewrite E, app_nil_r).
    split; [done|]. split; [done|]. unfold turns. cbn. lia.
  - destruct (drop 512 x) as [|c y] eqn:Ed; [done|]. split; [|split; [done|]].
    + change (content (Data x :: l)) with (x ++ content l). rewrite <- (take_drop 512 x) at 1. rewrite Ed, <- app_assoc. done.
    + assert (length (drop 512 x) < length x)%nat by (rewrite length_drop; unfold x; cbn [length]; lia). rewrite Ed in *.
      unfold turns. cbn [sum_list_with]. change (Data x) with (Data (b :: bs)). cbn. unfold x in *. cbn in *. lia.
Qed.

Lemma read_eq w fd f :
  w_fds w !! Z.to_nat fd = Some (Some f) →
  ∃ x, read fd 512 w = Ok (rd_step (uf_reads f)).1 (set_fds (<[Z.to_nat fd := Some x]> (w_fds w)) w) ∧ uf_reads x = (rd_step (uf_reads f)).2.
Proof.
  intros H. unfold read. rewrite (bind_Ok getS _ w w w eq_refl), H. destruct f as [[|[bs|] l] st]; cbn [uf_reads rd_step fst snd uf_stat].
  - exists (mkUfile [] st). split; [|done]. rewrite list_insert_id by done. by destruct w.
  - exists (mkUfile (if decide (drop 512 bs = []) then l else Data (drop 512 bs) :: l) st). split; reflexivity.
  - exists (mkUfile (Fault :: l) st). split; [|done]. rewrite list_insert_id by done. by destruct w.
Qed.

Lemma write_eq w fd bs : w_full w = [] → write fd bs w = Ok (Z.of_nat (length bs)) (put_out [(fd, bs)] w).
Proof. intros H. unfold write. by rewrite (bind_Ok getS _ w w w eq_refl), H. Qed.

(** ** cat *)

Definition wrote (outs : list (Z * list byte)) (fds : list (option ufile)) (w : uworld) : uworld := set_fds fds (put_out outs w).

Lemma cat_loop_spec fd k fuel : Z.to_nat fd = k → ∀ w f,
  w_full w = [] → w_fds w !! k = Some (Some f) → (turns (uf_reads f) < fuel)%nat →
  ∃ outs x, cat_loop fd fuel w = Ok (if faulty (uf_reads f) then -1 else 0) (wrote outs (<[k := Some x]> (w_fds w)) w) ∧
    Forall (λ o, o.1 = 1) outs ∧ mjoin outs.*2 = content (uf_reads f).
Proof.
  intros Hk. induction fuel as [|fuel IH]; intros w f Hw Hf Ht; [lia|]. cbn [cat_loop].
  destruct (read_eq w fd f) as (x & Er & Ex); [by rewrite Hk|]. rewrite (bind_Ok _ _ _ _ _ Er), Hk. clear Er.
  pose proof (rd_step_spec (uf_reads f)) as H. destruct (rd_step (uf_reads f)) as [[r bs] l']. cbn [fst snd] in *.
  destruct H as [(H1 & H2 & H3 & H4 & H5)|[H1 H2]].
  - rewrite (proj2 (Z.ltb_lt _ _)) by done. rewrite (bind_Ok _ _ _ _ _ (write_eq (set_fds (<[k := Some x]> (w_fds w)) w) 1 bs Hw)), <- H2.
    change (put_out _ (set_fds _ w)) with (wrote [(1, bs)] (<[k := Some x]> (w_fds w)) w).
    rewrite Z.eqb_refl. cbn [negb]. pose proof (lookup_lt_Some _ _ _ Hf) as Hlt.
    destruct (IH (wrote [(1, bs)] (<[k := Some x]> (w_fds w)) w) x) as (outs & y & E & Ho & Hj); [done|cbn; by rewrite list_lookup_insert_eq|rewrite Ex; lia|].
    rewrite E, Ex, H4. exists ((1, bs) :: outs), y. split; [|split].
    + f_equal. unfold wrote, set_fds, put_out. cbn. by rewrite list_insert_insert_eq, <- app_assoc.
    + by apply Forall_cons.
    + rewrite H3, <- Ex, <- Hj. done.
  - rewrite (proj2 (Z.ltb_ge _ _)) by (rewrite H1; by destruct (faulty _)). exists [], x. split; [|split; [by apply Forall_nil|done]].
    rewrite H1. unfold wrote, set_fds, put_out. cbn. by rewrite app_nil_r.
Qed.

(** What [outs] puts on descriptor [fd]. *)
Definition on_fd (fd : Z) (outs : list (Z * list byte)) : list byte := mjoin (filter (λ o, o.1 = fd) outs).*2.

Lemma on_fd_app fd o o' : on_fd fd (o ++ o') = on_fd fd o ++ on_fd fd o'.
Proof. unfold on_fd. by rewrite filter_app, fmap_app, join_app. Qed.
Lemma on_fd_all fd o : Forall (λ o, o.1 = fd) o → on_fd fd o = mjoin o.*2.
Proof.
  unfold on_fd. induction 1 as [|x l Hx Hl IH]; [done|]. rewrite filter_cons_True by done. change (x.2 ++ mjoin (filter (λ o, o.1 = fd) l).*2 = x.2 ++ mjoin l.*2). by rewrite IH.
Qed.

Lemma on_fd_one fd t : on_fd fd [(fd, t)] = t.
Proof. rewrite on_fd_all by (by apply Forall_singleton). apply app_nil_r. Qed.

(** The program has exited after it wrote [t] to descriptor 1. *)
Definition finished (t : list byte) (w : uworld) (r : res uworld unit) : Prop :=
  ∃ w', r = Blocked w' ∧ on_fd 1 (w_out w') = on_fd 1 (w_out w) ++ t ∧ w_exited w' = true.

Lemma finished_exit w : finished [] w (exit w).
Proof. exists (exited w). split; [done|]. by rewrite app_nil_r. Qed.

(** A message and then exit. *)
Lemma finished_msg fmt l w outs fds : finished (on_fd 1 outs ++ text fmt l) w ((printf 1 fmt l;; exit) (wrote outs fds w)).
Proof.
  eexists. split; [done|]. split; [|done]. cbn [w_out exited put_out wrote set_fds]. rewrite !on_fd_app, <- app_assoc.
  by rewrite on_fd_one.
Qed.

Lemma finished_bind t w m (k : unit → U unit) w1 : finished t w (m w1) → finished t w ((m ≫= k) w1).
Proof. intros (w' & E & H). exists w'. split; [|done]. unfold mbind, M_bind. by rewrite E. Qed.

Lemma wrote_none w : w = wrote [] (w_fds w) w.
Proof. unfold wrote, set_fds, put_out. cbn. rewrite app_nil_r. by destruct w. Qed.

(** A descriptor is free. *)
Definition can_open (w : uworld) : Prop := ∃ k, free_fd (w_fds w) 0 = Some k.

Lemma free_fd_spec {A} (l : list (option A)) i k : free_fd l i = Some k → (i ≤ k)%nat ∧ l !! (k - i)%nat = Some None.
Proof.
  revert i. induction l as [|[x|] l IH]; intros i; cbn [free_fd]; [done|..].
  - intros [H1 H2]%IH. split; [lia|]. by replace (k - i)%nat with (S (k - S i)) by lia.
  - intros [= ->]. split; [lia|]. by rewrite Nat.sub_diag.
Qed.

Lemma open_eq w a f k :
  free_fd (w_fds w) 0 = Some k → w_files w a = Some f →
  open a w = Ok (Z.of_nat k) (set_fds (<[k := Some f]> (w_fds w)) w) ∧ w_fds w !! k = Some None.
Proof.
  intros Hk Hf. apply free_fd_spec in Hk as Hk'. rewrite Nat.sub_0_r in Hk'. split; [|apply Hk'].
  unfold open. rewrite (bind_Ok getS _ w w w eq_refl). by rewrite Hf, Hk.
Qed.
Lemma open_missing w a : w_files w a = None → open a w = Ok (-1) w.
Proof. intros Hf. unfold open. rewrite (bind_Ok getS _ w w w eq_refl). by rewrite Hf. Qed.

(** The descriptor that [open] took is free again after [close]. *)
Lemma closed_back {A} (l : list (option A)) k x y : l !! k = Some None → <[k := None]> (<[k := x]> (<[k := y]> l)) = l.
Proof. intros H. rewrite !list_insert_insert_eq. by apply list_insert_id. Qed.

(** *** A program that works through the files it is given *)

(** [spec a f t stop]: for the file [f] of name [a] the body writes [t], and exits if [stop]. *)
Inductive session (files : list byte → option ufile) (msg : string) (spec : list byte → ufile → list byte → bool → Prop) :
    list (list byte) → list byte → Prop :=
  | session_end : session files msg spec [] []
  | session_missing a argv : files a = None → session files msg spec (a :: argv) (text msg [Str a])
  | session_stop a argv f t : files a = Some f → spec a f t true → session files msg spec (a :: argv) t
  | session_file a argv f t t' :
      files a = Some f → spec a f t false → session files msg spec argv t' → session files msg spec (a :: argv) (t ++ t').

Section over.
Context (body : Z → list byte → U unit) (msg : string) (spec : list byte → ufile → list byte → bool → Prop).
(** The files that the body can deal with. *)
Context (good : ufile → Prop).

Fixpoint over (argv : list (list byte)) : U unit :=
  match argv with
  | [] => exit
  | a :: argv =>
      fd ← open a;
      if fd <? 0 then printf 1 msg [Str a];; exit else body fd a;; close fd;; over argv
  end.

(** The body on descriptor [k], which reads [f]. *)
Definition body_ok : Prop := ∀ w k a f,
  w_full w = [] → good f → w_fds w !! k = Some (Some f) →
  ∃ t, (spec a f t true ∧ finished t w (body (Z.of_nat k) a w)) ∨
       (spec a f t false ∧ ∃ outs x, body (Z.of_nat k) a w = Ok tt (wrote outs (<[k := Some x]> (w_fds w)) w) ∧ on_fd 1 outs = t).

Lemma over_spec argv : body_ok → ∀ w,
  w_full w = [] → can_open w → (∀ a f, w_files w a = Some f → good f) → ∃ t, session (w_files w) msg spec argv t ∧ finished t w (over argv w).
Proof.
  intros Hb. induction argv as [|a argv IH]; intros w Hw Hc Hg; cbn [over].
  { exists []. split; [constructor|apply finished_exit]. }
  destruct (w_files w a) as [f|] eqn:Hf.
  2: { rewrite (bind_Ok _ _ _ _ _ (open_missing w a Hf)). exists (text msg [Str a]). split; [by constructor|].
       rewrite (wrote_none w) at 2. apply (finished_msg msg [Str a] w [] (w_fds w)). }
  destruct Hc as [k Hk]. destruct (open_eq w a f k Hk Hf) as [E Hnone]. rewrite (bind_Ok _ _ _ _ _ E). clear E.
  pose proof (lookup_lt_Some _ _ _ Hnone) as Hlt. rewrite (proj2 (Z.ltb_ge _ _)) by lia.
  set (w1 := set_fds (<[k := Some f]> (w_fds w)) w).
  destruct (Hb w1 k a f Hw (Hg a f Hf)) as (t & [[Hs H]|[Hs (outs & x & E & Ho)]]); [cbn; by rewrite list_lookup_insert_eq|..].
  - exists t. split; [by eapply session_stop|]. apply finished_bind. exact H.
  - rewrite (bind_Ok _ _ _ _ _ E).
    assert (close (Z.of_nat k) (wrote outs (<[k := Some x]> (w_fds w1)) w1) = Ok tt (put_out outs w)) as Ed.
    { unfold close, modify. f_equal. unfold wrote, set_fds, put_out. cbn. rewrite Nat2Z.id, closed_back by done. by destruct w. }
    rewrite (bind_Ok _ _ _ _ _ Ed). destruct (IH (put_out outs w)) as (t' & Ht & w' & E' & H1 & H2); [done|by exists k|done|].
    exists (t ++ t'). split; [by eapply session_file|]. exists w'. split; [done|]. split; [|done].
    rewrite H1. cbn [w_out put_out]. by rewrite on_fd_app, Ho, app_assoc.
Qed.
End over.

(** [cat] copies the file, and stops at a read error. *)
Definition cat_spec (a : list byte) (f : ufile) (t : list byte) (stop : bool) : Prop :=
  stop = faulty (uf_reads f) ∧ t = content (uf_reads f) ++ (if stop then text "cat: read error
" [] else []).

Lemma cat_ok : body_ok (λ fd _, cat fd) cat_spec (λ _, True).
Proof.
  intros w k a f Hw _ Hk.
  assert (fd_turns (Z.of_nat k) w = Ok (S (turns (uf_reads f))) w) as Et by (unfold fd_turns, gets; by rewrite Nat2Z.id, Hk).
  destruct (cat_loop_spec (Z.of_nat k) k (S (turns (uf_reads f))) (Nat2Z.id k) w f Hw Hk) as (outs & x & E & Ho & Hj); [lia|].
  pose proof (on_fd_all 1 outs Ho) as Hout. rewrite Hj in Hout.
  unfold cat. rewrite (bind_Ok _ _ _ _ _ Et), (bind_Ok _ _ _ _ _ E). unfold cat_spec. destruct (faulty (uf_reads f)).
  - eexists. left. split; [by split|]. rewrite <- Hout. apply finished_msg.
  - eexists. right. split; [by split|]. exists outs, x. split; [done|]. by rewrite app_nil_r.
Qed.

Lemma cat_files_over argv w : cat_files argv w = over (λ fd _, cat fd) "cat: cannot open %s
" argv w.
Proof.
  revert w. induction argv as [|a argv IH]; intros w; [done|]. cbn [cat_files over]. unfold mbind, M_bind.
  destruct (open a w) as [fd w1| |]; [|done..]. destruct (fd <? 0); [done|]. destruct (cat fd w1) as [[] w2| |]; [|done..].
  destruct (close fd w2) as [[] w3| |]; [|done..]. apply IH.
Qed.

(** ** wc *)

(** Space, carriage return, tab, newline and vertical tab. *)
Definition is_blank (b : byte) : Prop := b ∈ [Byte.x20; Byte.x0d; Byte.x09; Byte.x0a; Byte.x0b].

Lemma blank_spec b : blank b = bool_decide (is_blank b).
Proof. destruct b; vm_compute; reflexivity. Qed.

(** The text has [n] words: maximal runs of bytes that are not blank. *)
Inductive has_words : list byte → Z → Prop :=
  | words_none sp : Forall is_blank sp → has_words sp 0
  | words_more sp w rest n :
      Forall is_blank sp → w ≠ [] → Forall (λ b, ¬ is_blank b) w → (∀ b, head rest = Some b → is_blank b) →
      has_words rest n → has_words (sp ++ w ++ rest) (n + 1).

(** The words that begin in [l], inside a word or not. *)
Fixpoint starts (inword : bool) (l : list byte) : Z :=
  match l with
  | [] => 0
  | b :: l => if blank b then starts false l else (if inword then 0 else 1) + starts true l
  end.
Definition newlines (l : list byte) : Z := Z.of_nat (length (filter (λ b, b = Byte.x0a) l)).

Lemma starts_nonneg l : ∀ i, 0 ≤ starts i l ≤ Z.of_nat (length l).
Proof.
  induction l as [|b l IH]; intros i; cbn [starts length]; [lia|]. pose proof (IH false). pose proof (IH true).
  destruct (blank b), i; lia.
Qed.

(** A word runs up to the next blank. *)
Lemma starts_true l : ∃ w rest, l = w ++ rest ∧ Forall (λ b, ¬ is_blank b) w ∧ (∀ b, head rest = Some b → is_blank b) ∧ starts true l = starts false rest.
Proof.
  induction l as [|b l IH]; [exists [], []; by split_and!|]. cbn [starts]. rewrite blank_spec.
  destruct (bool_decide_reflect (is_blank b)) as [Hb|Hb].
  - exists [], (b :: l). split; [done|]. split; [by apply Forall_nil|]. split; [intros c [= <-]; done|].
    cbn [starts]. rewrite blank_spec, bool_decide_eq_true_2 by done. done.
  - destruct IH as (w & rest & -> & Hw & Hr & E). exists (b :: w), rest. split; [done|]. split; [by apply Forall_cons|]. split; [done|].
    rewrite E. lia.
Qed.

Lemma has_words_starts n : ∀ l, (length l ≤ n)%nat → has_words l (starts false l).
Proof.
  induction n as [|n IH]; intros l Hl; [destruct l; [|cbn in Hl; lia]; by apply (words_none []), Forall_nil|].
  destruct l as [|b l]; [by apply (words_none []), Forall_nil|]. cbn [length] in Hl. cbn [starts]. rewrite blank_spec.
  destruct (bool_decide_reflect (is_blank b)) as [Hb|Hb].
  - assert (has_words l (starts false l)) as H by (apply IH; lia). inversion H as [sp Hs E1 E2|sp w rest m H1 H2 H3 H4 H5 E1 E2].
    + apply words_none. by apply Forall_cons.
    + rewrite app_comm_cons. apply words_more; auto.
  - destruct (starts_true l) as (w & rest & -> & Hw & Hr & E). rewrite E, Z.add_comm.
    apply (words_more [] (b :: w) rest); [by apply Forall_nil|done|by apply Forall_cons|done|].
    apply IH. rewrite length_app in Hl. lia.
Qed.

Lemma newlines_cons b l : newlines (b :: l) = (if decide (b = Byte.x0a) then 1 else 0) + newlines l.
Proof. unfold newlines. rewrite filter_cons. case_decide; cbn [length]; lia. Qed.

(** The counters after the bytes of [l]. *)
Lemma wc_fold l : ∀ k,
  0 ≤ c_l k → 0 ≤ c_w k → 0 ≤ c_c k → c_l k + Z.of_nat (length l) < 2 ^ 31 → c_w k + Z.of_nat (length l) < 2 ^ 31 → c_c k + Z.of_nat (length l) < 2 ^ 31 →
  let k' := foldl wc_char k l in
  c_l k' = c_l k + newlines l ∧ c_w k' = c_w k + starts (c_inword k) l ∧ c_c k' = c_c k + Z.of_nat (length l).
Proof.
  induction l as [|b l IH]; intros k H1 H2 H3 H4 H5 H6; [cbn [foldl starts length]; change (newlines []) with 0; cbv zeta; lia|]. cbn [length] in *. cbn [foldl starts]. rewrite newlines_cons.
  set (k1 := wc_char k b).
  assert (c_l k1 = c_l k + (if decide (b = Byte.x0a) then 1 else 0) ∧ c_c k1 = c_c k + 1) as [E1 E3].
  { unfold k1, wc_char. destruct (decide (b = Byte.x0a)); [rewrite bool_decide_eq_true_2 by done|rewrite bool_decide_eq_false_2 by done];
      destruct (blank b), (c_inword k); cbn [c_l c_w c_c c_inword negb]; rewrite ?s32_small by lia; lia. }
  assert (c_w k1 + starts (c_inword k1) l = c_w k + (if blank b then starts false l else (if c_inword k then 0 else 1) + starts true l) ∧ c_w k ≤ c_w k1 ≤ c_w k + 1) as [E2 E4].
  { unfold k1, wc_char. destruct (blank b), (c_inword k); cbn [c_l c_w c_c c_inword negb]; rewrite ?s32_small by lia; lia. }
  destruct (IH k1) as (I1 & I2 & I3); [case_decide; lia..|]. cbv zeta. rewrite I1, I2, I3. lia.
Qed.

Lemma wc_loop_spec fd k fuel : Z.to_nat fd = k → ∀ w f c,
  w_fds w !! k = Some (Some f) → (turns (uf_reads f) < fuel)%nat →
  ∃ x, wc_loop fd c fuel w = Ok (if faulty (uf_reads f) then -1 else 0, foldl wc_char c (content (uf_reads f))) (set_fds (<[k := Some x]> (w_fds w)) w).
Proof.
  intros Hk. induction fuel as [|fuel IH]; intros w f c Hf Ht; [lia|]. cbn [wc_loop].
  destruct (read_eq w fd f) as (x & Er & Ex); [by rewrite Hk|]. rewrite (bind_Ok _ _ _ _ _ Er), Hk. clear Er.
  pose proof (rd_step_spec (uf_reads f)) as H. destruct (rd_step (uf_reads f)) as [[r bs] l']. cbn [fst snd] in *.
  destruct H as [(H1 & H2 & H3 & H4 & H5)|[H1 H2]].
  - rewrite (proj2 (Z.ltb_lt _ _)) by done. pose proof (lookup_lt_Some _ _ _ Hf) as Hlt.
    destruct (IH (set_fds (<[k := Some x]> (w_fds w)) w) x (foldl wc_char c bs)) as (y & E); [cbn; by rewrite list_lookup_insert_eq|rewrite Ex; lia|].
    exists y. rewrite E, Ex, H4, H3, foldl_app. f_equal. unfold set_fds. cbn. by rewrite list_insert_insert_eq.
  - rewrite (proj2 (Z.ltb_ge _ _)) by (rewrite H1; by destruct (faulty _)). exists x. by rewrite H1, H2.
Qed.

(** [wc] prints the number of lines, words and characters; it stops at a read error. *)
Definition wc_spec (a : list byte) (f : ufile) (t : list byte) (stop : bool) : Prop :=
  stop = faulty (uf_reads f) ∧
  if stop then t = text "wc: read error
" []
  else ∃ n, has_words (content (uf_reads f)) n ∧
    t = text "%d %d %d %s
" [Num (newlines (content (uf_reads f))); Num n; Num (Z.of_nat (length (content (uf_reads f)))); Str a].

(** Files below 2 GB, so that the counters do not wrap around. *)
Definition small (f : ufile) : Prop := Z.of_nat (length (content (uf_reads f))) < 2 ^ 31.

Lemma wc_eq w k a f :
  w_fds w !! k = Some (Some f) → small f →
  ∃ t x, wc_spec a f t (faulty (uf_reads f)) ∧
    wc (Z.of_nat k) a w =
      (if faulty (uf_reads f) then printf 1 "wc: read error
" [];; exit else modify (put_out [(1, t)])) (set_fds (<[k := Some x]> (w_fds w)) w).
Proof.
  intros Hk Hs. assert (fd_turns (Z.of_nat k) w = Ok (S (turns (uf_reads f))) w) as Et by (unfold fd_turns, gets; by rewrite Nat2Z.id, Hk).
  destruct (wc_loop_spec (Z.of_nat k) k (S (turns (uf_reads f))) (Nat2Z.id k) w f (mkCounts 0 0 0 false) Hk) as (x & E); [lia|].
  unfold small in Hs. destruct (wc_fold (content (uf_reads f)) (mkCounts 0 0 0 false)) as (H1 & H2 & H3); [cbn; lia..|].
  cbn [c_l c_w c_c c_inword] in H1, H2, H3. rewrite Z.add_0_l in H1, H2, H3.
  unfold wc. rewrite (bind_Ok _ _ _ _ _ Et), (bind_Ok _ _ _ _ _ E). cbn [fst snd]. rewrite H1, H2, H3. unfold wc_spec.
  destruct (faulty (uf_reads f)).
  - exists (text "wc: read error
" []), x. split; [by split|done].
  - eexists _, x. split; [split; [done|]; eexists; split; [by apply (has_words_starts (length (content (uf_reads f))))|done]|done].
Qed.

Lemma wc_ok : body_ok wc wc_spec small.
Proof.
  intros w k a f Hw Hs Hk. destruct (wc_eq w k a f Hk Hs) as (t & x & Ht & E). exists t. rewrite E.
  destruct (faulty (uf_reads f)) eqn:Hf; [left|right]; (split; [done|]).
  - destruct Ht as [_ ->]. pose proof (finished_msg "wc: read error
" [] w [] (<[k := Some x]> (w_fds w))) as H.
    unfold wrote, set_fds, put_out in *. cbn [w_files w_fds w_out w_full w_calls w_res w_exited] in H. rewrite app_nil_r in H. exact H.
  - exists [(1, t)], x. split; [done|]. apply on_fd_one.
Qed.

Lemma wc_files_over argv w : wc_files argv w = over wc "wc: cannot open %s
" argv w.
Proof.
  revert w. induction argv as [|a argv IH]; intros w; [done|]. cbn [wc_files over]. unfold mbind, M_bind.
  destruct (open a w) as [fd w1| |]; [|done..]. destruct (fd <? 0); [done|]. destruct (wc fd a w1) as [[] w2| |]; [|done..].
  destruct (close fd w2) as [[] w3| |]; [|done..]. apply IH.
Qed.

(** C36. cat and wc print what their files contain, however the reads cut the contents into pieces:
    cat copies each file in order, wc prints the number of newlines, of words (maximal runs
    between blanks, also across pieces) and of bytes with the name; a file that cannot be opened
    or read ends the program with its message, and both end in exit. *)
Theorem filters_correct (w : uworld) (a : list byte) (argv : list (list byte))
  (writes : w_full w = []) (slot : can_open w) (sizes : ∀ a f, w_files w a = Some f → small f) :
  (∃ t, session (w_files w) "cat: cannot open %s
" cat_spec (a :: argv) t ∧ finished t w (cat_main (a :: argv) w)) ∧
  (∃ t, session (w_files w) "wc: cannot open %s
" wc_spec (a :: argv) t ∧ finished t w (wc_main (a :: argv) w)).
Proof.
  split.
  - unfold cat_main. rewrite cat_files_over. by apply (over_spec _ _ _ (λ _, True) _ cat_ok).
  - unfold wc_main. rewrite wc_files_over. by apply (over_spec _ _ _ small _ wc_ok).
Qed.

(** Two files, one of them read in pieces that split a word. *)
Module UserExample.
Definition name1 : list byte := bytes_of "a".
Definition name2 : list byte := bytes_of "b".
Definition file1 : ufile := mkUfile [Data (bytes_of "two wo"); Data (bytes_of "rds")] None.
Definition file2 : ufile := mkUfile [Data (bytes_of "x" ++ [Byte.x0a])] None.
Definition files (a : list byte) : option ufile := if decide (a = name1) then Some file1 else if decide (a = name2) then Some file2 else None.
Definition w : uworld := mkW files [None; None] [] [] [] [] false.

Lemma sizes a f : files a = Some f → small f.
Proof. unfold files. repeat case_decide; intros [= <-]; vm_compute; reflexivity. Qed.

Lemma filters_correct_witness :
  (∃ t, session files "cat: cannot open %s
" cat_spec [name1; name2] t ∧ finished t w (cat_main [name1; name2] w)) ∧
  (∃ t, session files "wc: cannot open %s
" wc_spec [name1; name2] t ∧ finished t w (wc_main [name1; name2] w)) ∧
  match wc_main [name1; name2] w with Blocked w' => on_fd 1 (w_out w') | _ => [] end = bytes_of "0 2 9 a
1 1 2 b
".
Proof.
  destruct (filters_correct w name1 [name2]) as [H1 H2]; [reflexivity|exists 0%nat; reflexivity|exact sizes|].
  split; [exact H1|]. split; [exact H2|]. vm_compute. reflexivity.
Defined.
End UserExample.
