(* ===== verification/ShellMain.v ===== *)
(** * The loop of the shell (src/sh.c: getcmd, main)

    The shell reads its input line by line into a buffer of 100 bytes.  A line is one
    command; a line that does not fit is cut, and its rest is the next command. *)

From S2P Require Import Prelude Fcntl CString Shell ShellParse ShellRun.

Definition SIZEOF_BUF : Z := 100.

Section main.
Context (BUF : Z).

(** The buffer, as the list of its bytes. *)
Definition buffer (m : mem) : list byte := (λ i, m (BUF + Z.of_nat i)) <$> seq 0 100.

(** [getcmd(buf, nbuf)]: the memory and the input after it, and its result *)
Definition getcmd (m : mem) (input : list byte) : mem * list byte * Z :=
  let m := Ulib.memset BUF 0 SIZEOF_BUF m in
  let '(m, input) := Ulib.gets BUF SIZEOF_BUF input m in
  (m, input, if uchar (m BUF) =? 0 then -1 else 0).

(** [while(getcmd(buf, sizeof(buf)) >= 0)]: what the shell does for its input.  What [main_action] writes to
    the buffer is overwritten by the next [memset].  [None] is an exhausted [fuel]. *)
Fixpoint main_loop (m : mem) (input : list byte) (fuel : nat) : option (list action) :=
  match fuel with
  | O => None
  | S fuel =>
      let '(m, input, r) := getcmd m input in
      if 0 <=? r then cons (main_action (buffer m)) <$> main_loop m input fuel else Some []
  end.
Definition main (m : mem) (input : list byte) : option (list action) := main_loop m input (S (length input)).
End main.

(** ** Lines *)

Definition ends_line (c : byte) : bool := (uchar c =? 10) || (uchar c =? 13).

(** The bytes up to and with the end of the line, at most [n] of them, and the rest. *)
Fixpoint cut (n : nat) (input : list byte) : list byte * list byte :=
  match n, input with
  | S n, c :: input => if ends_line c then ([c], input) else let '(l, r) := cut n input in (c :: l, r)
  | _, _ => ([], input)
  end.

Lemma cut_app n input : input = (cut n input).1 ++ (cut n input).2 ∧ (length (cut n input).1 ≤ n)%nat.
Proof.
  revert input. induction n as [|n IH]; intros [|c input]; cbn [cut]; try (cbn; split; [done|lia]).
  destruct (ends_line c); [cbn; split; [done|lia]|]. destruct (IH input) as [E L]. destruct (cut n input) as [l r]. cbn in *.
  split; [by f_equal|lia].
Qed.

Lemma gets_loop_spec n : ∀ buf i max input m,
  0 ≤ i → i + Z.of_nat n + 1 = max →
  let l := (cut n input).1 in
  (Ulib.gets_loop buf i max input m).2 = (cut n input).2 ∧
  ∀ a, (Ulib.gets_loop buf i max input m).1 a =
    if decide (buf + i ≤ a < buf + i + Z.of_nat (length l)) then l !!! Z.to_nat (a - buf - i)
    else if decide (a = buf + i + Z.of_nat (length l)) then Byte.x00 else m a.
Proof.
  assert (Hend : ∀ b m a, (<[b := Byte.x00]> m : mem) a = if decide (a = b) then Byte.x00 else m a).
  { intros b m a. case_decide as H; [subst; apply fn_lookup_insert|by apply fn_lookup_insert_ne]. }
  induction n as [|n IH]; intros buf i max input m Hi Hm.
  - assert (Ulib.gets_loop buf i max input m = (<[buf + i := Byte.x00]> m, input)) as ->.
    { destruct input; cbn [Ulib.gets_loop]; rewrite (proj2 (Z.ltb_ge _ _)) by lia; done. }
    split; [by destruct input|]. intros a. assert ((cut 0 input).1 = []) as -> by (by destruct input). cbn [length fst].
    rewrite Hend. rewrite (decide_False (P := buf + i ≤ a < _)) by lia. rewrite Z.add_0_r. done.
  - destruct input as [|c input]; cbn [Ulib.gets_loop cut]; rewrite (proj2 (Z.ltb_lt _ _)) by lia.
    { split; [done|]. intros a. cbn [length fst]. rewrite Hend. rewrite (decide_False (P := buf + i ≤ a < _)) by lia. by rewrite Z.add_0_r. }
    fold (ends_line c). destruct (ends_line c) eqn:Ec.
    + split; [done|]. intros a. cbn [fst length]. rewrite !Hend. change (Z.of_nat 1) with 1. rewrite Z.add_assoc.
      destruct (decide (a = buf + i)) as [->|Ha].
      * rewrite (decide_False (P := buf + i = _)), decide_True by lia. rewrite fn_lookup_insert.
        replace (Z.to_nat (buf + i - buf - i)) with 0%nat by lia. done.
      * rewrite (decide_False (P := buf + i ≤ a < _)) by lia. case_decide; [done|]. by rewrite fn_lookup_insert_ne.
    + destruct (IH buf (i + 1) max input (<[buf + i := c]> m)) as [E1 E2]; [lia|lia|]. destruct (cut n input) as [l r]. cbn [fst snd length] in *.
      split; [done|]. intros a. rewrite E2. destruct (decide (a = buf + i)) as [->|Ha].
      * rewrite !decide_False by lia. rewrite decide_True by lia. rewrite fn_lookup_insert.
        replace (Z.to_nat (buf + i - buf - i)) with 0%nat by lia. done.
      * rewrite fn_lookup_insert_ne by done. destruct (decide (buf + (i + 1) ≤ a < buf + (i + 1) + Z.of_nat (length l))).
        -- rewrite decide_True by lia. replace (Z.to_nat (a - buf - i)) with (S (Z.to_nat (a - buf - (i + 1)))) by lia. done.
        -- rewrite (decide_False (P := buf + i ≤ a < _)) by lia. destruct (decide (a = buf + (i + 1) + Z.of_nat (length l))); [rewrite decide_True by lia; done|].
           rewrite decide_False by lia. done.
Qed.

(** *** One command *)

Section proofs.
Context (BUF : Z).

Lemma getcmd_spec m input :
  let l := (cut 99 input).1 in
  ∃ m', getcmd BUF m input = (m', (cut 99 input).2, if decide (head (l ++ [NUL]) = Some NUL) then -1 else 0) ∧
    buffer BUF m' = l ++ replicate (100 - length l) NUL.
Proof.
  intros l. destruct (cut_app 99 input) as [_ Hl]. fold l in Hl.
  destruct (gets_loop_spec 99 BUF 0 SIZEOF_BUF input (Ulib.memset BUF 0 SIZEOF_BUF m)) as [E1 E2]; [lia|done|]. fold l in E2. cbv zeta in E2.
  assert (∀ i, (i < 100)%nat → (Ulib.gets_loop BUF 0 SIZEOF_BUF input (Ulib.memset BUF 0 SIZEOF_BUF m)).1 (BUF + Z.of_nat i) = (l ++ replicate (100 - length l) NUL) !!! i) as Eb.
  { intros i Hi. rewrite E2. destruct (decide (i < length l)%nat) as [H|H].
    - rewrite decide_True by lia. rewrite lookup_total_app_l by done. f_equal. lia.
    - rewrite decide_False by lia. rewrite lookup_total_app_r, lookup_total_replicate_2 by lia. case_decide; [done|].
      unfold Ulib.memset, SIZEOF_BUF. rewrite stosb_at, decide_True by lia. done. }
  exists (Ulib.gets_loop BUF 0 SIZEOF_BUF input (Ulib.memset BUF 0 SIZEOF_BUF m)).1. split.
  - unfold getcmd, Ulib.gets.  rewrite (surjective_pairing (Ulib.gets_loop _ _ _ _ _)), E1. cbn [fst]. f_equal.
    pose proof (Eb 0%nat ltac:(lia)) as E0. rewrite Z.add_0_r in E0. rewrite E0.
    destruct l as [|c l0]; [done|]. cbn [app head lookup_total list_lookup_total].
    destruct (Z.eqb_spec (uchar c) 0) as [H|H]; case_decide as Hc; try done; [destruct Hc; apply uchar_eq_0 in H; by subst|injection Hc as ->; done].
  - apply list_eq. intros i. unfold buffer. rewrite list_lookup_fmap. destruct (decide (i < 100)%nat) as [Hi|Hi].
    + rewrite lookup_seq_lt by lia. cbn [fmap option_fmap option_map]. rewrite Nat.add_0_l, Eb by done.
      symmetry. apply list_lookup_lookup_total_lt. rewrite length_app, length_replicate. lia.
    + rewrite lookup_seq_ge by lia. symmetry. apply lookup_ge_None_2. rewrite length_app, length_replicate. lia.
Qed.

(** ** A session *)

(** A line of text that the buffer holds with its newline. *)
Definition line_ok (l : list byte) : Prop := (length l ≤ 98)%nat ∧ Forall (λ c, c ≠ NUL ∧ ends_line c = false) l.
Definition newline : byte := Byte.x0a.

(** What the shell is to do for a line: change directory in the shell itself, or run the command that the
    line derives in a child; a line without a derivation is a syntax error. *)
Definition line_action (l : list byte) (a : action) : Prop :=
  if decide (take 3 l = bytes_of "cd ") then a = AChdir (drop 3 l)
  else (∃ d, ok_line d ∧ toks_line d = lex (l ++ [newline]) ∧ a = ARun (tree_line d)) ∨
       (a = ASyntax ∧ ¬ ∃ d, ok_line d ∧ toks_line d = lex (l ++ [newline])).

Lemma cut_line n l r : (length l < n)%nat → Forall (λ c, c ≠ NUL ∧ ends_line c = false) l → cut n (l ++ newline :: r) = (l ++ [newline], r).
Proof.
  revert n. induction l as [|c l IH]; intros [|n] Hn Hl; try (cbn in Hn; lia); cbn [app cut]; [done|].
  apply Forall_cons in Hl as [[_ ->] Hl]. rewrite IH; [done|cbn in Hn; lia|done].
Qed.

Lemma take3_newline l : take 3 (l ++ [newline]) = bytes_of "cd " ↔ take 3 l = bytes_of "cd ".
Proof. change (bytes_of "cd ") with [Byte.x63; Byte.x64; Byte.x20]. destruct l as [|a [|b [|c l]]]; cbn; unfold newline; split; intros; rewrite ?take_0 in *; congruence. Qed.

Lemma until_nul_stop l r : Forall (λ c, c ≠ NUL) l → until_nul (l ++ NUL :: r) = l.
Proof. induction 1 as [|c l Hc Hl IH]; cbn [until_nul app]; [by rewrite decide_True|]. rewrite decide_False by done. by rewrite IH. Qed.

(** The newline that [cd] chops off. *)
Lemma chop_newline l k : Forall (λ c, c ≠ NUL) l →
  let buf := (l ++ [newline]) ++ NUL :: replicate k NUL in
  <[(buf_len buf - 1)%nat := NUL]> buf = l ++ NUL :: NUL :: replicate k NUL.
Proof.
  intros Hl buf. unfold buf, buf_len. rewrite until_nul_stop by (apply Forall_app; split; [done|by apply Forall_singleton]).
  rewrite length_app. cbn [length]. replace (length l + 1 - 1)%nat with (length l + 0)%nat by lia.
  rewrite <- app_assoc. cbn [app]. rewrite insert_app_r. done.
Qed.

Lemma main_action_line l : line_ok l → line_action l (main_action ((l ++ [newline]) ++ replicate (100 - length (l ++ [newline])) NUL)).
Proof.
  intros [Hlen Hl]. assert (Forall (λ c, c ≠ NUL) l) as Hn by (eapply Forall_impl; [apply Hl|]; by intros c []).
  rewrite length_app. cbn [length]. replace (100 - (length l + 1))%nat with (S (98 - length l)) by lia. cbn [replicate].
  unfold main_action, line_action. rewrite chop_newline by done.
  assert (take 3 ((l ++ [newline]) ++ NUL :: replicate (98 - length l) NUL) = bytes_of "cd " ↔ take 3 l = bytes_of "cd ") as Hiff.
  { rewrite <- take3_newline. change (bytes_of "cd ") with [Byte.x63; Byte.x64; Byte.x20]. destruct l as [|a [|b [|c l]]]; cbn; unfold newline, NUL; split; intros; rewrite ?take_0 in *; congruence. }
  case_decide as Hcd.
  - rewrite bool_decide_eq_true_2 by (by apply Hiff). f_equal.
    destruct l as [|a [|b [|c l]]]; try done. cbn [app drop]. apply until_nul_stop. by do 3 apply Forall_cons in Hn as [_ Hn].
  - rewrite bool_decide_eq_false_2 by (by rewrite Hiff).
    assert (Forall (λ c, c ≠ NUL) (l ++ [newline])) as Hs by (apply Forall_app; split; [done|by apply Forall_singleton]).
    pose proof (parsecmd_ok (l ++ [newline]) (replicate (98 - length l) NUL) Hs) as Hp. unfold wpp in Hp.
    destruct (parsecmd _) as [c buf'| |]; [|done|by right]. left. destruct Hp as (_ & d & H1 & H2 & H3). exists d. by rewrite H3.
Qed.

Lemma main_loop_lines lines : ∀ m fuel,
  Forall line_ok lines → (length lines < fuel)%nat →
  ∃ acts, main_loop BUF m (lines ≫= λ l, l ++ [newline]) fuel = Some acts ∧ Forall2 line_action lines acts.
Proof.
  induction lines as [|l lines IH]; intros m [|fuel] Hok Hf; try (cbn in Hf; lia); cbn [main_loop].
  - destruct (getcmd_spec m ([] ≫= λ l, l ++ [newline])) as (m' & -> & _). exists []. split; [done|constructor].
  - apply Forall_cons in Hok as [Hl Hok]. change ((l :: lines) ≫= λ l, l ++ [newline]) with ((l ++ [newline]) ++ (lines ≫= λ l, l ++ [newline])).
    rewrite <- app_assoc. cbn [app]. set (r := lines ≫= λ l, l ++ [newline]) in *.
    destruct (getcmd_spec m (l ++ newline :: r)) as (m' & -> & Hb).
    rewrite cut_line in Hb |- * by (destruct Hl; try lia; done). cbn [fst snd] in *.
    rewrite decide_False.
    2: { destruct l as [|c l]; [done|]. cbn. destruct Hl as [_ Hl]. apply Forall_cons in Hl as [[Hc _] _]. congruence. }
    cbn [Z.leb Z.compare]. destruct (IH m' fuel Hok) as (acts & E & Ha); [cbn in Hf; lia|]. rewrite E.
    exists (main_action (buffer BUF m') :: acts). split; [done|]. constructor; [|done]. rewrite Hb. by apply main_action_line.
Qed.

(** A line that does not fit is cut after 99 bytes, and the rest is taken for another command. *)
Lemma main_loop_long m l r fuel :
  length l = 99%nat → Forall (λ c, c ≠ NUL ∧ ends_line c = false) l →
  ∃ m', main_loop BUF m (l ++ r) (S fuel) = cons (main_action (l ++ [NUL])) <$> main_loop BUF m' r fuel.
Proof.
  intros Hlen Hl. cbn [main_loop].
  assert (∀ n l, length l = n → Forall (λ c, c ≠ NUL ∧ ends_line c = false) l → cut n (l ++ r) = (l, r)) as Hcut.
  { clear. induction n as [|n IH]; intros [|c l] Hn Hl; try done; cbn [app cut].
    apply Forall_cons in Hl as [[_ ->] Hl]. rewrite IH; [done|by injection Hn|done]. }
  destruct (getcmd_spec m (l ++ r)) as (m' & -> & Hb). rewrite (Hcut 99%nat l Hlen Hl) in Hb |- *. cbn [fst snd] in *.
  rewrite decide_False.
  2: { destruct l as [|c l]; [done|]. cbn. apply Forall_cons in Hl as [[Hc _] _]. congruence. }
  exists m'. rewrite Hb, Hlen. done.
Qed.
End proofs.

Lemma lines_length lines : (length lines ≤ length (lines ≫= λ l, l ++ [newline]))%nat.
Proof.
  induction lines as [|l lines IH]; [done|].
  change ((l :: lines) ≫= λ l, l ++ [newline]) with ((l ++ [newline]) ++ (lines ≫= λ l, l ++ [newline])). rewrite !length_app. cbn [length]. lia.
Qed.

(** C37. The shell does, in order, exactly one thing for each line of its input: cd changes the
    directory of the shell itself to the rest of the line, any other line is run as the command
    that it derives in the grammar, and a line without a derivation is a syntax error; this for
    lines that fit into the buffer. A longer line is cut after 99 bytes and its rest is taken
    for a command of its own. *)
Theorem shell_runs_lines (BUF : Z) (m : mem) (lines : list (list byte)) (fit : Forall line_ok lines) :
  (∃ acts, main BUF m (lines ≫= λ l, l ++ [newline]) = Some acts ∧ Forall2 line_action lines acts) ∧
  (∀ l r fuel, length l = 99%nat → Forall (λ c, c ≠ NUL ∧ ends_line c = false) l →
     ∃ m', main_loop BUF m (l ++ r) (S fuel) = cons (main_action (l ++ [NUL])) <$> main_loop BUF m' r fuel).
Proof.
  split; [|intros l r fuel; by apply main_loop_long].
  apply main_loop_lines; [done|]. pose proof (lines_length lines). lia.
Qed.

Module ShellMainExample.
Definition lines : list (list byte) := [bytes_of "cd d"; bytes_of "ls | wc"; bytes_of "a |"].
Lemma shell_runs_lines_witness :
  (∃ acts, main 0 (λ _, Byte.xff) (lines ≫= λ l, l ++ [newline]) = Some acts ∧ Forall2 line_action lines acts) ∧
  main 0 (λ _, Byte.xff) (lines ≫= λ l, l ++ [newline]) =
    Some [AChdir (bytes_of "d"); ARun (PIPE (EXEC [bytes_of "ls"]) (EXEC [bytes_of "wc"])); ARun (PIPE (EXEC [bytes_of "a"]) (EXEC []))].
Proof.
  split.
  - apply (shell_runs_lines 0 (λ _, Byte.xff) lines). refine (bool_decide_unpack _ _). vm_compute. exact I.
  - vm_compute. reflexivity.
Defined.

(** Without a newline at the end of the input, [cd] chops the last letter of the directory. *)
Lemma cd_at_eof : main 0 (λ _, Byte.x00) (bytes_of "cd dir") = Some [AChdir (bytes_of "di")].
Proof. vm_compute. reflexivity. Qed.
End ShellMainExample.
