(* ===== verification/Keeps.v ===== *)
(** * Operations that keep an invariant

    [keeps I m R]: the operation [m] keeps [I], and its result is in [R].  The lemmas
    follow the monad; the tactic [keeps] walks through the body of an operation with
    the lemmas of the hint database [keeps]. *)

From S2P Require Import Prelude.

(** [m] keeps [I] and returns a value in [R]; a process that sleeps leaves [I] true. *)
Definition keeps {S A} (I : S → Prop) (m : M S A) (R : A → Prop) : Prop :=
  ∀ s, I s → match m s with Ok a s' => I s' ∧ R a | Blocked s' => I s' | Panic _ => True end.

Definition any {A} (a : A) : Prop := True.

Section keeps.
Context {S : Type} (I : S → Prop).

Lemma keeps_seq {A B} (m : M S A) (k : A → M S B) R Q :
  keeps I m R → (∀ a, R a → keeps I (k a) Q) → keeps I (m ≫= k) Q.
Proof.
  intros Hm Hk s Hs. unfold mbind, M_bind. specialize (Hm s Hs). destruct (m s) as [a s'| |]; [|done..].
  destruct Hm as [Hs' Ha]. by apply Hk.
Qed.

Lemma keeps_weaken {A} (m : M S A) (R R' : A → Prop) : keeps I m R → (∀ a, R a → R' a) → keeps I m R'.
Proof. intros Hm H s Hs. specialize (Hm s Hs). destruct (m s); [|done..]. destruct Hm. auto. Qed.

Lemma keeps_any {A} (m : M S A) R : keeps I m R → keeps I m any.
Proof. intros H. eapply keeps_weaken; [exact H|done]. Qed.

Lemma keeps_ret {A} (a : A) (R : A → Prop) : R a → keeps I (mret a) R.
Proof. by intros H s Hs. Qed.

Lemma keeps_panic {A} msg R : keeps I (panic (A := A) msg) R.
Proof. by intros s Hs. Qed.

Lemma keeps_sleeps {A} R : keeps I (sleeps (A := A)) R.
Proof. by intros s Hs. Qed.

Lemma keeps_getS : keeps I getS I.
Proof. by intros s Hs. Qed.

Lemma keeps_gets {A} (f : S → A) : keeps I (gets f) (λ a, ∃ s, I s ∧ a = f s).
Proof. intros s Hs. split; [done|]. by exists s. Qed.

Lemma keeps_modify f R : (∀ s, I s → I (f s)) → R tt → keeps I (modify f) R.
Proof. intros H Hr s Hs. split; auto. Qed.

Lemma keeps_mfor from n f R : (∀ i, keeps I (f i) any) → R tt → keeps I (mfor from n f) R.
Proof.
  revert from. induction n as [|n IH]; intros from Hf Hr; cbn; [by apply keeps_ret|].
  eapply keeps_seq; [apply Hf|]. intros [] _. by apply IH.
Qed.
End keeps.

Create HintDb keeps.
#[export] Hint Resolve keeps_getS keeps_panic keeps_sleeps : keeps.

(** Walk through the body of an operation: a call by its lemma, a branch by cases. *)
Ltac keeps_step :=
  match goal with
  | |- any _ => exact I
  | |- keeps _ (mbind _ _) _ => eapply keeps_seq; [first [solve [eauto with keeps] | apply keeps_gets | eapply (keeps_any _ _ any)]|]
  | |- keeps _ (mret _) _ => apply keeps_ret
  | |- keeps _ (panic _) _ => apply keeps_panic
  | |- keeps _ sleeps _ => apply keeps_sleeps
  | |- keeps _ (match ?x with _ => _ end) _ => destruct x eqn:?
  | |- ∀ _, _ => intros ?
  | _ => progress cbv beta zeta
  | |- keeps _ (mfor _ _ _) _ => apply keeps_mfor
  | |- keeps _ _ any => first [solve [eauto with keeps] | solve [eapply keeps_any; eauto with keeps]]
  | _ => solve [eauto with keeps]
  end.
Ltac keeps := repeat keeps_step.

(** Unfold the operation in the goal. *)
Ltac op_head t := match t with ?f _ => op_head f | _ => t end.
Ltac keeps_unfold := match goal with |- keeps _ ?m _ => let h := op_head m in unfold h end.
