(* ===== verification/Segments.v ===== *)
(** * Segments, gates and the task state (src/mmu.h, src/vm.c, src/trap.c, src/x86.h)

    The descriptor tables that [seginit], [tvinit] and [switchuvm] fill, down to
    the bits of the descriptors, and what the processor makes of them: how a
    trap from user mode enters the kernel, and what user mode may not do. *)

From S2P Require Import Prelude Fcntl Dll Sleeplock Bio Memide FsLayout Log LogCrash LogProtocol Tx CString Fs Pipe Kalloc Vm PageTable Spinlock Kernel.

(** ** Bit fields *)

(** The value of a struct of bit fields, given as widths and values: the first
    field is in the lowest bits, and a store keeps the bits that fit. *)
Fixpoint pack (l : list (Z * Z)) : Z :=
  match l with
  | [] => 0
  | (w, v) :: l => v mod 2 ^ w + 2 ^ w * pack l
  end.

(** [w] bits from bit [lo] on. *)
Definition bits (z lo w : Z) : Z := (z / 2 ^ lo) mod 2 ^ w.

Section bits.
Lemma bits_here w v l : 0 ≤ w → bits (pack ((w, v) :: l)) 0 w = v mod 2 ^ w.
Proof.
  intros Hw. unfold bits. cbn [pack]. change (2 ^ 0) with 1. rewrite Z.div_1_r, Z.mul_comm, Z.mod_add by lia. apply Z.mod_mod. lia.
Qed.

Lemma bits_skip w v l lo w' : 0 ≤ w ≤ lo → bits (pack ((w, v) :: l)) lo w' = bits (pack l) (lo - w) w'.
Proof.
  intros Hw. unfold bits. cbn [pack]. replace lo with (w + (lo - w)) at 1 by lia. rewrite Z.pow_add_r by lia.
  rewrite <-Z.div_div by lia. rewrite Z.mul_comm, Z.div_add by lia. rewrite (Z.div_small (v mod _)) by (apply Z.mod_pos_bound; lia).
  by rewrite Z.add_0_l.
Qed.
End bits.

(** ** Descriptors *)

(** [struct segdesc] *)
Record segdesc : Type := mkSegdesc {
  sd_lim_15_0 : Z; sd_base_15_0 : Z; sd_base_23_16 : Z; sd_type : Z; sd_s : Z; sd_dpl : Z; sd_p : Z;
  sd_lim_19_16 : Z; sd_avl : Z; sd_rsv1 : Z; sd_db : Z; sd_g : Z; sd_base_31_24 : Z;
}.

(** [struct gatedesc] *)
Record gatedesc : Type := mkGatedesc {
  gd_off_15_0 : Z; gd_cs : Z; gd_args : Z; gd_rsv1 : Z; gd_type : Z; gd_s : Z; gd_dpl : Z; gd_p : Z; gd_off_31_16 : Z;
}.

Definition zero_seg : segdesc := mkSegdesc 0 0 0 0 0 0 0 0 0 0 0 0 0.
Definition zero_gate : gatedesc := mkGatedesc 0 0 0 0 0 0 0 0 0.
#[global] Instance segdesc_inhabited : Inhabited segdesc := populate zero_seg.
#[global] Instance gatedesc_inhabited : Inhabited gatedesc := populate zero_gate.

(** The 64 bits of a descriptor. *)
Definition seg_word (d : segdesc) : Z :=
  pack [(16, sd_lim_15_0 d); (16, sd_base_15_0 d); (8, sd_base_23_16 d); (4, sd_type d); (1, sd_s d); (2, sd_dpl d); (1, sd_p d);
        (4, sd_lim_19_16 d); (1, sd_avl d); (1, sd_rsv1 d); (1, sd_db d); (1, sd_g d); (8, sd_base_31_24 d)].
Definition gate_word (d : gatedesc) : Z :=
  pack [(16, gd_off_15_0 d); (16, gd_cs d); (5, gd_args d); (3, gd_rsv1 d); (4, gd_type d); (1, gd_s d); (2, gd_dpl d); (1, gd_p d);
        (16, gd_off_31_16 d)].

Definition SEG (type base lim dpl : Z) : segdesc :=
  mkSegdesc (Z.land (Z.shiftr lim 12) 65535) (Z.land base 65535) (Z.land (Z.shiftr base 16) 255) type 1 dpl 1
    (Z.shiftr lim 28) 0 0 1 1 (Z.shiftr base 24).
Definition SEG16 (type base lim dpl : Z) : segdesc :=
  mkSegdesc (Z.land lim 65535) (Z.land base 65535) (Z.land (Z.shiftr base 16) 255) type 1 dpl 1
    (Z.shiftr lim 16) 0 0 1 0 (Z.shiftr base 24).

Definition set_s v d := mkSegdesc (sd_lim_15_0 d) (sd_base_15_0 d) (sd_base_23_16 d) (sd_type d) v (sd_dpl d) (sd_p d)
  (sd_lim_19_16 d) (sd_avl d) (sd_rsv1 d) (sd_db d) (sd_g d) (sd_base_31_24 d).

Definition STA_X : Z := 8.
Definition STA_W : Z := 2.
Definition STA_R : Z := 2.
Definition STS_T32A : Z := 9.
Definition STS_IG32 : Z := 14.
Definition STS_TG32 : Z := 15.
Definition DPL_USER : Z := 3.
Definition SEG_KCODE : Z := 1.
Definition SEG_KDATA : Z := 2.
Definition SEG_UCODE : Z := 3.
Definition SEG_UDATA : Z := 4.
Definition SEG_TSS : Z := 5.
Definition NSEGS : nat := 6.
Definition T_SYSCALL : Z := 64.

Definition SETGATE (istrap : bool) (sel off d : Z) : gatedesc :=
  mkGatedesc (Z.land off 65535) sel 0 0 (if istrap then STS_TG32 else STS_IG32) 0 d 1 (Z.shiftr off 16).

(** ** The processor's view of a descriptor *)

Definition d_base (d : Z) : Z := bits d 16 16 + 2 ^ 16 * bits d 32 8 + 2 ^ 24 * bits d 56 8.
Definition d_limit (d : Z) : Z :=
  let l := bits d 0 16 + 2 ^ 16 * bits d 48 4 in if bits d 55 1 =? 0 then l else l * 4096 + 4095.
Definition d_type (d : Z) : Z := bits d 40 4.
Definition d_s (d : Z) : Z := bits d 44 1.
Definition d_dpl (d : Z) : Z := bits d 45 2.
Definition d_p (d : Z) : Z := bits d 47 1.
Definition g_off (d : Z) : Z := bits d 0 16 + 2 ^ 16 * bits d 48 16.
Definition g_sel (d : Z) : Z := bits d 16 16.

(** A field of a descriptor, out of its packed word. *)
Ltac unpack := unfold seg_word, gate_word; repeat (rewrite bits_skip by lia); cbn [Z.sub Z.add Z.opp Z.pos_sub Pos.pred_double Pos.compare Pos.compare_cont Pos.sub];
  rewrite bits_here by lia.

Section decode.
Lemma halves z : 0 ≤ z < 2 ^ 32 → Z.land z 65535 mod 2 ^ 16 + 2 ^ 16 * (Z.shiftr z 16 mod 2 ^ 16) = z.
Proof.
  intros Hz. change 65535 with (Z.ones 16). rewrite Z.land_ones, Z.shiftr_div_pow2 by lia. rewrite Z.mod_mod by lia.
  rewrite (Z.mod_small (z / 2 ^ 16)) by (split; [apply Z.div_pos; lia|apply Z.div_lt_upper_bound; lia]).
  pose proof (Z.div_mod z (2 ^ 16)). lia.
Qed.

Lemma three_parts z : 0 ≤ z < 2 ^ 32 →
  Z.land z 65535 mod 2 ^ 16 + 2 ^ 16 * (Z.land (Z.shiftr z 16) 255 mod 2 ^ 8) + 2 ^ 24 * (Z.shiftr z 24 mod 2 ^ 8) = z.
Proof.
  intros Hz. change 65535 with (Z.ones 16). change 255 with (Z.ones 8). rewrite !Z.land_ones, !Z.shiftr_div_pow2 by lia. rewrite !Z.mod_mod by lia.
  rewrite (Z.mod_small (z / 2 ^ 24)) by (split; [apply Z.div_pos; lia|apply Z.div_lt_upper_bound; lia]).
  pose proof (Z.div_mod z (2 ^ 16)). pose proof (Z.div_mod (z / 2 ^ 16) (2 ^ 8)). replace (z / 2 ^ 24) with (z / 2 ^ 16 / 2 ^ 8); [lia|].
  rewrite Z.div_div by lia. done.
Qed.

(** A normal segment has the base, the privilege level and the type given, and
    its limit is the last byte of the page that holds [lim]. *)
Lemma SEG_decode type base lim dpl :
  0 ≤ base < 2 ^ 32 → 0 ≤ lim < 2 ^ 32 → 0 ≤ type < 16 → 0 ≤ dpl < 4 →
  let d := seg_word (SEG type base lim dpl) in
  d_base d = base ∧ d_limit d = lim / 4096 * 4096 + 4095 ∧ d_type d = type ∧ d_s d = 1 ∧ d_dpl d = dpl ∧ d_p d = 1.
Proof.
  intros Hb Hl Ht Hd d. unfold d. split_and!.
  - unfold d_base. unpack. unpack. unpack. cbn [SEG sd_base_15_0 sd_base_23_16 sd_base_31_24]. by apply three_parts.
  - unfold d_limit. replace (bits _ 55 1) with 1 by (unpack; reflexivity). cbn [Z.eqb]. unpack. unpack.
    cbn [SEG sd_lim_15_0 sd_lim_19_16]. change 65535 with (Z.ones 16). rewrite Z.land_ones, !Z.shiftr_div_pow2 by lia.
    rewrite Z.mod_mod by lia. rewrite (Z.mod_small (lim / 2 ^ 28)) by (split; [apply Z.div_pos; lia|apply Z.div_lt_upper_bound; lia]).
    pose proof (Z.div_mod (lim / 2 ^ 12) (2 ^ 16)). replace (lim / 2 ^ 28) with (lim / 2 ^ 12 / 2 ^ 16) by (rewrite Z.div_div by lia; done).
    change 4096 with (2 ^ 12). lia.
  - unfold d_type. unpack. cbn [SEG sd_type]. apply Z.mod_small. lia.
  - unfold d_s. unpack. done.
  - unfold d_dpl. unpack. cbn [SEG sd_dpl]. apply Z.mod_small. lia.
  - unfold d_p. unpack. done.
Qed.

(** A system segment with byte granularity, as [switchuvm] makes it. *)
Lemma SEG16_decode type base lim dpl :
  0 ≤ base < 2 ^ 32 → 0 ≤ lim < 2 ^ 20 → 0 ≤ type < 16 → 0 ≤ dpl < 4 →
  let d := seg_word (set_s 0 (SEG16 type base lim dpl)) in
  d_base d = base ∧ d_limit d = lim ∧ d_type d = type ∧ d_s d = 0 ∧ d_dpl d = dpl ∧ d_p d = 1.
Proof.
  intros Hb Hl Ht Hd d. unfold d. split_and!.
  - unfold d_base. unpack. unpack. unpack. cbn [SEG16 set_s sd_base_15_0 sd_base_23_16 sd_base_31_24]. by apply three_parts.
  - unfold d_limit. replace (bits _ 55 1) with 0 by (unpack; reflexivity). cbn [Z.eqb]. unpack. unpack.
    cbn [SEG16 set_s sd_lim_15_0 sd_lim_19_16]. change 65535 with (Z.ones 16). rewrite Z.land_ones, Z.shiftr_div_pow2 by lia.
    rewrite Z.mod_mod by lia. rewrite (Z.mod_small (lim / 2 ^ 16)) by (split; [apply Z.div_pos; lia|apply Z.div_lt_upper_bound; lia]).
    pose proof (Z.div_mod lim (2 ^ 16)). lia.
  - unfold d_type. unpack. cbn [SEG16 set_s sd_type]. apply Z.mod_small. lia.
  - unfold d_s. unpack. done.
  - unfold d_dpl. unpack. cbn [SEG16 set_s sd_dpl]. apply Z.mod_small. lia.
  - unfold d_p. unpack. done.
Qed.

Lemma SETGATE_decode istrap sel off d :
  0 ≤ off < 2 ^ 32 → 0 ≤ sel < 2 ^ 16 → 0 ≤ d < 4 →
  let w := gate_word (SETGATE istrap sel off d) in
  g_off w = off ∧ g_sel w = sel ∧ d_type w = (if istrap then 15 else 14) ∧ d_s w = 0 ∧ d_dpl w = d ∧ d_p w = 1.
Proof.
  intros Ho Hs Hd w. unfold w. split_and!.
  - unfold g_off. unpack. unpack. cbn [SETGATE gd_off_15_0 gd_off_31_16]. by apply halves.
  - unfold g_sel. unpack. cbn [SETGATE gd_cs]. apply Z.mod_small. lia.
  - unfold d_type. unpack. cbn [SETGATE gd_type]. by destruct istrap.
  - unfold d_s. unpack. done.
  - unfold d_dpl. unpack. cbn [SETGATE gd_dpl]. apply Z.mod_small. lia.
  - unfold d_p. unpack. done.
Qed.
End decode.

(** ** Set-up *)

(** The part of [struct cpu] that the processor reads: the bytes of its task state
    and its segment table. *)
Record hcpu : Type := mkHcpu { hc_ts : list byte; hc_gdt : list segdesc }.
#[global] Instance hcpu_inhabited : Inhabited hcpu := populate (mkHcpu [] []).

(** Memory that the set-up writes, and the registers of the executing CPU: a table
    register is a limit and a base. *)
Record hw : Type := mkHw {
  h_mach : mach;             (* interrupt flags and nesting *)
  h_k : kst;                 (* memory and kmem *)
  h_cpus : list hcpu;        (* cpus *)
  h_idt : list gatedesc;     (* idt *)
  h_kpgdir : Z;
  h_gdtr : Z * Z;
  h_idtr : Z * Z;
  h_tr : Z;
  h_cr3 : Z;
}.

Definition set_mach v h := mkHw v (h_k h) (h_cpus h) (h_idt h) (h_kpgdir h) (h_gdtr h) (h_idtr h) (h_tr h) (h_cr3 h).
Definition set_k v h := mkHw (h_mach h) v (h_cpus h) (h_idt h) (h_kpgdir h) (h_gdtr h) (h_idtr h) (h_tr h) (h_cr3 h).
Definition set_cpus v h := mkHw (h_mach h) (h_k h) v (h_idt h) (h_kpgdir h) (h_gdtr h) (h_idtr h) (h_tr h) (h_cr3 h).
Definition set_idt v h := mkHw (h_mach h) (h_k h) (h_cpus h) v (h_kpgdir h) (h_gdtr h) (h_idtr h) (h_tr h) (h_cr3 h).
Definition set_kpgdir v h := mkHw (h_mach h) (h_k h) (h_cpus h) (h_idt h) v (h_gdtr h) (h_idtr h) (h_tr h) (h_cr3 h).
Definition set_gdtr v h := mkHw (h_mach h) (h_k h) (h_cpus h) (h_idt h) (h_kpgdir h) v (h_idtr h) (h_tr h) (h_cr3 h).
Definition set_idtr v h := mkHw (h_mach h) (h_k h) (h_cpus h) (h_idt h) (h_kpgdir h) (h_gdtr h) v (h_tr h) (h_cr3 h).
Definition set_tr v h := mkHw (h_mach h) (h_k h) (h_cpus h) (h_idt h) (h_kpgdir h) (h_gdtr h) (h_idtr h) v (h_cr3 h).
Definition set_cr3 v h := mkHw (h_mach h) (h_k h) (h_cpus h) (h_idt h) (h_kpgdir h) (h_gdtr h) (h_idtr h) (h_tr h) v.

(** Sizes and offsets: [struct taskstate], and [ts] and [gdt] in [struct cpu]. *)
Definition TS_SIZE : nat := 104.
Definition TS_ESP0 : nat := 4.
Definition TS_SS0 : nat := 8.
Definition TS_IOMB : nat := 102.
Definition CPU_SIZE : Z := 176.
Definition CPU_TS : Z := 8.
Definition CPU_GDT : Z := 112.

Section setup.
Context (cpus idt : Z).        (* addresses *)
Context (vectors : Z → Z).     (* entry points, from vectors.S *)
Context (kend data : Z).
Context (tickslock : nat).
Context (c : nat).             (* the executing CPU *)
Abbreviation H := (M hw).

Definition liftM {A} (m : M mach A) : H A := λ h,
  match m (h_mach h) with Ok a x => Ok a (set_mach x h) | Blocked x => Blocked (set_mach x h) | Panic msg => Panic msg end.
Definition liftKst {A} (m : M kst A) : H A := λ h,
  match m (h_k h) with Ok a x => Ok a (set_k x h) | Blocked x => Blocked (set_k x h) | Panic msg => Panic msg end.

Definition ts_addr (i : nat) : Z := cpus + CPU_SIZE * Z.of_nat i + CPU_TS.
Definition gdt_addr (i : nat) : Z := cpus + CPU_SIZE * Z.of_nat i + CPU_GDT.

Definition set_gdt (i : nat) (k : Z) (d : segdesc) : H unit :=
  modify (λ h, set_cpus (alter (λ x, mkHcpu (hc_ts x) (<[Z.to_nat k := d]> (hc_gdt x))) i (h_cpus h)) h).
Definition upd_ts (i : nat) (f : list byte → list byte) : H unit :=
  modify (λ h, set_cpus (alter (λ x, mkHcpu (f (hc_ts x)) (hc_gdt x)) i (h_cpus h)) h).

(** The operand of [lgdt] and [lidt]: three half words, the limit and the base. *)
Definition table_reg (p size : Z) : Z * Z := (u16 (size - 1), u16 p + 2 ^ 16 * u16 (Z.shiftr p 16)).
Definition lgdt (p size : Z) : H unit := modify (set_gdtr (table_reg p size)).
Definition lidt (p size : Z) : H unit := modify (set_idtr (table_reg p size)).
Definition ltr (sel : Z) : H unit := modify (set_tr (u16 sel)).
Definition lcr3 (v : Z) : H unit := modify (set_cr3 v).

Definition cpuid : H nat := liftM (mycpu c).

(** Set up CPU's kernel segment descriptors. *)
Definition seginit : H unit :=
  i ← cpuid;
  set_gdt i SEG_KCODE (SEG (Z.lor STA_X STA_R) 0 4294967295 0);;
  set_gdt i SEG_KDATA (SEG STA_W 0 4294967295 0);;
  set_gdt i SEG_UCODE (SEG (Z.lor STA_X STA_R) 0 4294967295 DPL_USER);;
  set_gdt i SEG_UDATA (SEG STA_W 0 4294967295 DPL_USER);;
  lgdt (gdt_addr i) (8 * Z.of_nat NSEGS).

Definition set_idt_entry (i : Z) (g : gatedesc) : H unit := modify (λ h, set_idt (<[Z.to_nat i := g]> (h_idt h)) h).

Definition tvinit : H unit :=
  mfor 0 256 (λ i, set_idt_entry (Z.of_nat i) (SETGATE false (Z.shiftl SEG_KCODE 3) (vectors (Z.of_nat i)) 0));;
  set_idt_entry T_SYSCALL (SETGATE true (Z.shiftl SEG_KCODE 3) (vectors T_SYSCALL) DPL_USER);;
  liftM (upd_lock tickslock (λ _, initlock)).

Definition idtinit : H unit := lidt idt (8 * 256).

Definition switchkvm : H unit := h ← getS; lcr3 (V2P (h_kpgdir h)).

(** Allocate one page table for the machine for the kernel address space for scheduler processes. *)
Definition kvmalloc : H unit :=
  d ← liftKst (setupkvm kend data);
  modify (set_kpgdir d);;
  switchkvm.

(** Switch TSS and h/w page table to correspond to process p. *)
Definition switchuvm (p : option proc) : H unit :=
  match p with
  | None => panic "switchuvm: no process"
  | Some p =>
      if p_kstack p =? 0 then panic "switchuvm: no kstack"
      else if p_pgdir p =? 0 then panic "switchuvm: no pgdir"
      else
        liftM (pushcli c);;
        i ← liftM (mycpu c);
        set_gdt i SEG_TSS (SEG16 STS_T32A (ts_addr i) (Z.of_nat TS_SIZE - 1) 0);;
        h ← getS;
        set_gdt i SEG_TSS (set_s 0 (hc_gdt (h_cpus h !!! i) !!! Z.to_nat SEG_TSS));;
        upd_ts i (st 2 TS_SS0 (Z.shiftl SEG_KDATA 3));;
        upd_ts i (st 4 TS_ESP0 (u32 (p_kstack p + KSTACKSIZE)));;
        upd_ts i (st 2 TS_IOMB 65535);;
        ltr (Z.shiftl SEG_TSS 3);;
        lcr3 (V2P (p_pgdir p));;
        liftM (popcli c)
  end.
End setup.

(** ** What the processor does

    The rules of the architecture for an interrupt, and for an I/O instruction, read
    from the tables that the registers point at. *)

(** Entry to a handler: privilege, code segment and address, the stack it starts on
    ([None]: the current one), and whether interrupts are now off. *)
Record kentry : Type := mkKentry {
  ke_cpl : Z; ke_cs : Z; ke_eip : Z; ke_stack : option (Z * Z); ke_cli : bool;
}.

Section processor.
Context (cpus idt : Z).
Implicit Types (h : hw).

(** The index of the CPU whose structure is at [a - off]. *)
Definition cpu_at h (a off : Z) : option hcpu :=
  let k := a - cpus - off in if k mod CPU_SIZE =? 0 then h_cpus h !! Z.to_nat (k / CPU_SIZE) else None.

Definition gdt_entry h (sel : Z) : option Z :=
  if (0 <? sel / 8) && (8 * (sel / 8) + 7 <=? (h_gdtr h).1) then
    x ← cpu_at h (h_gdtr h).2 CPU_GDT; d ← hc_gdt x !! Z.to_nat (sel / 8); Some (seg_word d)
  else None.

Definition idt_entry h (n : Z) : option Z :=
  if ((h_idtr h).2 =? idt) && (8 * n + 7 <=? (h_idtr h).1) then g ← h_idt h !! Z.to_nat n; Some (gate_word g) else None.

(** Limit and bytes of the task state segment in the task register. *)
Definition tss h : option (Z * list byte) :=
  d ← gdt_entry h (h_tr h);
  if (d_s d =? 0) && (d_type d =? 9) && (d_p d =? 1) then x ← cpu_at h (d_base d) CPU_TS; Some (d_limit d, hc_ts x) else None.

(** Interrupt [n] at privilege level [cpl], [soft] for an [int] instruction; [None] is
    a protection fault. *)
Definition int_entry h (cpl n : Z) (soft : bool) : option kentry :=
  g ← idt_entry h n;
  if negb ((d_p g =? 1) && (d_s g =? 0) && ((d_type g =? 14) || (d_type g =? 15))) then None
  else if soft && (d_dpl g <? cpl) then None
  else
    cd ← gdt_entry h (g_sel g);
    if negb ((d_p cd =? 1) && (d_s cd =? 1) && Z.testbit (d_type cd) 3 && (d_dpl cd <=? cpl)) then None
    else if d_dpl cd <? cpl then
      t ← tss h;
      Some (mkKentry (d_dpl cd) (g_sel g) (g_off g) (Some (ld 2 TS_SS0 t.2, ld 4 TS_ESP0 t.2)) (d_type g =? 14))
    else Some (mkKentry cpl (g_sel g) (g_off g) None (d_type g =? 14)).

(** May code at [cpl] with I/O privilege [iopl] use the port? *)
Definition io_permitted h (cpl iopl port : Z) : bool :=
  if cpl <=? iopl then true
  else match tss h with
  | Some (lim, ts) =>
      let iomb := ld 2 TS_IOMB ts in
      (iomb + port / 8 + 1 <=? lim) && negb (Z.testbit (ld 2 (Z.to_nat (iomb + port / 8)) ts) (port mod 8))
  | None => false
  end.
End processor.

(** ** The kernel's tables *)

Section tables.
Context (cpus idt : Z) (vectors : Z → Z) (tickslock c : nat).
Abbreviation H := (M hw).
Implicit Types (s h : hw) (p : proc).

(** What the set-up finds: zeroed tables of their sizes, at 32-bit addresses, on a
    CPU with interrupts off. *)
Record boot_ok s : Prop := {
  bo_cpu : cpu_ok (h_mach s) c ∧ c_if (m_cpus (h_mach s) !!! c) = false ∧ 0 ≤ c_ncli (m_cpus (h_mach s) !!! c);
  bo_mine : (∃ x, h_cpus s !! c = Some x ∧ length (hc_gdt x) = NSEGS ∧ length (hc_ts x) = TS_SIZE);
  bo_idt : length (h_idt s) = 256%nat;
  bo_addr : 0 ≤ cpus ∧ gdt_addr cpus c < 2 ^ 32 ∧ 0 ≤ idt < 2 ^ 32;
  bo_vec : ∀ n, 0 ≤ vectors n < 2 ^ 32;
}.

(** The tables after the set-up. *)
Record tables_ok s : Prop := {
  to_cpu : cpu_ok (h_mach s) c ∧ 0 ≤ c_ncli (m_cpus (h_mach s) !!! c) ∧
    (0 < c_ncli (m_cpus (h_mach s) !!! c) → c_if (m_cpus (h_mach s) !!! c) = false);
  to_mine : ∃ x, h_cpus s !! c = Some x ∧ length (hc_ts x) = TS_SIZE ∧ length (hc_gdt x) = NSEGS ∧
    hc_gdt x !! 1%nat = Some (SEG 10 0 4294967295 0) ∧ hc_gdt x !! 2%nat = Some (SEG 2 0 4294967295 0) ∧
    hc_gdt x !! 3%nat = Some (SEG 10 0 4294967295 3) ∧ hc_gdt x !! 4%nat = Some (SEG 2 0 4294967295 3);
  to_idt : ∀ n, 0 ≤ n < 256 → h_idt s !! Z.to_nat n = Some (SETGATE (n =? T_SYSCALL) 8 (vectors n) (if n =? T_SYSCALL then 3 else 0));
  to_gdtr : h_gdtr s = (47, gdt_addr cpus c);
  to_idtr : h_idtr s = (2047, idt);
  to_addr : 0 ≤ cpus ∧ gdt_addr cpus c < 2 ^ 32;
  to_vec : ∀ n, 0 ≤ vectors n < 2 ^ 32;
}.

(** User mode as the tables confine it, with process [p] on the CPU. *)
Record confined s p : Prop := {
  cf_int : ∀ n, 0 ≤ n < 256 → n ≠ T_SYSCALL → int_entry cpus idt s 3 n true = None;
  cf_call : int_entry cpus idt s 3 T_SYSCALL true = Some (mkKentry 0 8 (vectors T_SYSCALL) (Some (16, p_kstack p + KSTACKSIZE)) false);
  cf_trap : ∀ n, 0 ≤ n < 256 → n ≠ T_SYSCALL →
    int_entry cpus idt s 3 n false = Some (mkKentry 0 8 (vectors n) (Some (16, p_kstack p + KSTACKSIZE)) true);
  cf_kernel : ∀ n, 0 ≤ n < 256 → n ≠ T_SYSCALL → int_entry cpus idt s 0 n false = Some (mkKentry 0 8 (vectors n) None true);
  cf_io : ∀ port, 0 ≤ port < 2 ^ 16 → io_permitted cpus s 3 0 port = false;
  cf_user : ∀ sel, sel = SEG_UCODE ∨ sel = SEG_UDATA → ∃ d, gdt_entry cpus s (Z.lor (Z.shiftl sel 3) DPL_USER) = Some d ∧
    d_base d = 0 ∧ d_limit d = 4294967295 ∧ d_dpl d = 3 ∧ d_p d = 1;
  cf_space : h_cr3 s = V2P (p_pgdir p);
}.

Lemma cpu_at_mine s (off a : Z) : a = cpus + CPU_SIZE * Z.of_nat c + off → cpu_at cpus s a off = h_cpus s !! c.
Proof.
  intros ->. unfold cpu_at. replace (cpus + CPU_SIZE * Z.of_nat c + off - cpus - off) with (Z.of_nat c * CPU_SIZE) by lia.
  rewrite Z.mod_mul, Z.div_mul by done. cbn [Z.eqb]. by rewrite Nat2Z.id.
Qed.

Lemma gdt_entry_mine s x sel k d :
  h_gdtr s = (47, gdt_addr cpus c) → h_cpus s !! c = Some x → hc_gdt x !! k = Some d → sel / 8 = Z.of_nat k → (1 ≤ k ≤ 5)%nat →
  gdt_entry cpus s sel = Some (seg_word d).
Proof.
  intros Hg Hx Hd Hk Hr. unfold gdt_entry. rewrite Hg, Hk. cbn [fst snd].
  rewrite (proj2 (Z.ltb_lt _ _)), (proj2 (Z.leb_le _ _)) by lia. cbn [andb]. rewrite (cpu_at_mine s CPU_GDT) by done.
  rewrite Hx. cbn [mbind option_bind]. rewrite Nat2Z.id, Hd. done.
Qed.

Lemma table_reg_base a size : 0 ≤ a < 2 ^ 32 → 0 < size ≤ 2 ^ 16 → table_reg a size = (size - 1, a).
Proof.
  intros Hp Hs. unfold table_reg. f_equal; [unfold u16; apply Z.mod_small; lia|].
  pose proof (halves a Hp) as H. change 65535 with (Z.ones 16) in H. rewrite Z.land_ones, Z.mod_mod in H by lia. exact H.
Qed.

(** ** Boot *)

Lemma tvinit_ok s (Q : unit → hw → Prop) :
  length (h_idt s) = 256%nat →
  (∀ l m, length l = 256%nat → (∀ n, 0 ≤ n < 256 → l !! Z.to_nat n = Some (SETGATE (n =? T_SYSCALL) 8 (vectors n) (if n =? T_SYSCALL then 3 else 0))) →
     m_cpus m = m_cpus (h_mach s) → Q tt (set_mach m (set_idt l s))) →
  wp (tvinit vectors tickslock) Q s.
Proof.
  intros Hlen HQ. unfold tvinit. apply wp_bind.
  eapply (wp_mfor (λ j s1, ∃ l, s1 = set_idt l s ∧ length l = 256%nat ∧
    ∀ i, (i < j)%nat → l !! i = Some (SETGATE false 8 (vectors (Z.of_nat i)) 0))).
  - exists (h_idt s). split; [by destruct s|]. split; [done|]. intros i Hi. lia.
  - intros j s1 Hj (l & -> & Hl & Hi). apply wp_modify_end. exists (<[j := SETGATE false 8 (vectors (Z.of_nat j)) 0]> l).
    rewrite Nat2Z.id. split; [done|]. split; [by rewrite length_insert|]. intros i Hij.
    destruct (decide (i = j)) as [->|]; [by rewrite list_lookup_insert_eq by lia|]. rewrite list_lookup_insert_ne by done. apply Hi. lia.
  - intros s1 (l & -> & Hl & Hi). apply wp_modify. unfold liftM, wp, upd_lock, modify. cbn [h_mach h_idt set_idt].
    apply HQ; [by rewrite length_insert| |done]. intros n Hn. destruct (Z.eqb_spec n T_SYSCALL) as [->|Hne].
    + rewrite list_lookup_insert_eq by (rewrite Hl; unfold T_SYSCALL; lia). done.
    + rewrite list_lookup_insert_ne by (unfold T_SYSCALL in *; lia). rewrite Hi by lia. by rewrite Z2Nat.id by lia.
Qed.

(** Stores to the segment table and the task state of one CPU. *)
Lemma wp_set_gdt {A} i x k d (m : H A) (Q : A → hw → Prop) s :
  h_cpus s !! i = Some x →
  wp m Q (set_cpus (<[i := mkHcpu (hc_ts x) (<[Z.to_nat k := d]> (hc_gdt x))]> (h_cpus s)) s) → wp (set_gdt i k d;; m) Q s.
Proof. intros Hx HQ. apply wp_modify. by rewrite alter_insert, (list_lookup_total_correct _ _ _ Hx). Qed.

Lemma wp_upd_ts {A} i x f (m : H A) (Q : A → hw → Prop) s :
  h_cpus s !! i = Some x →
  wp m Q (set_cpus (<[i := mkHcpu (f (hc_ts x)) (hc_gdt x)]> (h_cpus s)) s) → wp (upd_ts i f;; m) Q s.
Proof. intros Hx HQ. apply wp_modify. by rewrite alter_insert, (list_lookup_total_correct _ _ _ Hx). Qed.

Lemma set_cpus_at s i x : (i < length (h_cpus s))%nat → h_cpus (set_cpus (<[i := x]> (h_cpus s)) s) !! i = Some x.
Proof. intros. cbn. by apply list_lookup_insert_eq. Qed.

Lemma set_cpus_twice s i x y :
  set_cpus (<[i := y]> (h_cpus (set_cpus (<[i := x]> (h_cpus s)) s))) (set_cpus (<[i := x]> (h_cpus s)) s) =
  set_cpus (<[i := y]> (h_cpus s)) s.
Proof. cbn. unfold set_cpus. cbn. by rewrite list_insert_insert_eq. Qed.

Definition flat_gdt (l : list segdesc) : list segdesc :=
  <[4%nat := SEG 2 0 4294967295 3]> (<[3%nat := SEG 10 0 4294967295 3]>
    (<[2%nat := SEG 2 0 4294967295 0]> (<[1%nat := SEG 10 0 4294967295 0]> l))).

Lemma seginit_ok s x (Q : unit → hw → Prop) :
  cpu_ok (h_mach s) c → c_if (m_cpus (h_mach s) !!! c) = false → h_cpus s !! c = Some x → 0 ≤ gdt_addr cpus c < 2 ^ 32 →
  Q tt (set_gdtr (47, gdt_addr cpus c) (set_cpus (<[c := mkHcpu (hc_ts x) (flat_gdt (hc_gdt x))]> (h_cpus s)) s)) →
  wp (seginit cpus c) Q s.
Proof.
  intros Hok Hif Hx Ha HQ. pose proof (lookup_lt_Some _ _ _ Hx) as Hlt. unfold seginit. apply wp_bind.
  unfold cpuid, liftM, wp at 1. rewrite (mycpu_eq _ _ Hok Hif). replace (set_mach (h_mach s) s) with s by (by destruct s).
  eapply wp_set_gdt; [exact Hx|]. eapply wp_set_gdt; [by apply set_cpus_at|]. rewrite set_cpus_twice.
  eapply wp_set_gdt; [by apply set_cpus_at|]. rewrite set_cpus_twice. eapply wp_set_gdt; [by apply set_cpus_at|]. rewrite set_cpus_twice.
  cbn [hc_ts hc_gdt]. unfold lgdt. apply wp_modify_end. change (8 * Z.of_nat NSEGS) with 48. rewrite table_reg_base by lia. exact HQ.
Qed.

Lemma boot_tables s :
  boot_ok s → wp (tvinit vectors tickslock;; seginit cpus c;; idtinit idt) (λ _ s', tables_ok s') s.
Proof.
  intros [[Hok [Hif Hn]] (x & Hx & Hg & Ht) Hidt [Hc0 [Ha Hi]] Hv]. apply wp_bind, tvinit_ok; [done|]. intros l m Hl Hent Hm.
  assert (Hok' : cpu_ok m c) by (unfold cpu_ok in *; by rewrite Hm). unfold gdt_addr, CPU_GDT, CPU_SIZE in Ha.
  apply wp_bind. eapply (seginit_ok _ x); [done|cbn; by rewrite Hm|done|unfold gdt_addr, CPU_GDT, CPU_SIZE; lia|].
  unfold idtinit, lidt. apply wp_modify_end. rewrite table_reg_base by lia. pose proof (lookup_lt_Some _ _ _ Hx) as Hlt. split; cbn.
  - rewrite Hm. split; [done|]. split; [done|]. done.
  - eexists. rewrite list_lookup_insert_eq by done. split; [done|]. cbn. unfold flat_gdt, NSEGS in *.
    split_and!; [done|by rewrite !length_insert|..]; destruct (hc_gdt x) as [|? [|? [|? [|? [|? [|? ?]]]]]]; done.
  - exact Hent.
  - done.
  - done.
  - split; [done|]. exact Ha.
  - exact Hv.
Qed.

(** ** Switching to a process *)

Definition tss_desc : segdesc := set_s 0 (SEG16 STS_T32A (ts_addr cpus c) 103 0).
Definition tss_bytes (esp0 : Z) (l : list byte) : list byte := st 2 TS_IOMB 65535 (st 4 TS_ESP0 esp0 (st 2 TS_SS0 16 l)).

(** The state [switchuvm] leaves. *)
Definition switched (m : mach) (x : hcpu) p s : hw :=
  set_mach m (set_cr3 (V2P (p_pgdir p)) (set_tr 40
    (set_cpus (<[c := mkHcpu (tss_bytes (u32 (p_kstack p + KSTACKSIZE)) (hc_ts x)) (<[5%nat := tss_desc]> (hc_gdt x))]> (h_cpus s)) s))).

Lemma switchuvm_ok s x p (Q : unit → hw → Prop) :
  let y := m_cpus (h_mach s) !!! c in
  cpu_ok (h_mach s) c → 0 ≤ c_ncli y → (0 < c_ncli y → c_if y = false) → h_cpus s !! c = Some x → length (hc_gdt x) = NSEGS →
  p_kstack p ≠ 0 → p_pgdir p ≠ 0 →
  Q tt (switched (with_cpu (h_mach s) c (probed y)) x p s) → wp (switchuvm cpus c (Some p)) Q s.
Proof.
  intros y Hok Hn Hif Hx Hg Hks Hpg HQ. pose proof (lookup_lt_Some _ _ _ Hx) as Hlt. pose proof (proj1 Hok) as Hc.
  unfold switchuvm. rewrite (proj2 (Z.eqb_neq _ _) Hks), (proj2 (Z.eqb_neq _ _) Hpg).
  apply wp_bind. unfold liftM, wp at 1. rewrite (pushcli_eq _ _ Hok). fold y. set (m1 := with_cpu (h_mach s) c (pushed y)).
  assert (Hok1 : cpu_ok m1 c) by (by apply cpu_ok_with). assert (Hy1 : m_cpus m1 !!! c = pushed y) by (by apply with_cpu_at).
  apply wp_bind. unfold wp at 1. cbn [h_mach set_mach]. rewrite (mycpu_eq _ _ Hok1) by (by rewrite Hy1).
  match goal with |- wp _ _ ?st => set (s1 := st) end. assert (Hx1 : h_cpus s1 !! c = Some x) by exact Hx.
  assert (Hlt1 : (c < length (h_cpus s1))%nat) by exact Hlt.
  eapply wp_set_gdt; [exact Hx1|]. apply wp_getS. rewrite (list_lookup_total_correct _ _ _ (set_cpus_at s1 _ _ Hlt1)). cbn [hc_gdt].
  rewrite list_lookup_total_insert_eq by (rewrite Hg; unfold SEG_TSS, NSEGS; lia).
  eapply wp_set_gdt; [by apply set_cpus_at|]. rewrite set_cpus_twice. cbn [hc_ts hc_gdt]. rewrite list_insert_insert_eq.
  do 3 (eapply wp_upd_ts; [by apply set_cpus_at|]; rewrite set_cpus_twice; cbn [hc_ts hc_gdt]).
  unfold ltr, lcr3. apply wp_modify, wp_modify. unfold wp. cbn [h_mach set_cpus set_tr set_cr3]. change (h_mach s1) with m1.
  rewrite (popcli_eq _ _ Hok1) by (rewrite ?Hy1; cbn; (done || lia)). rewrite Hy1, popped_pushed by done.
  unfold m1. rewrite with_cpu_same. exact HQ.
Qed.

Lemma tss_bytes_fields esp l :
  length l = TS_SIZE → 0 ≤ esp < 2 ^ 32 →
  ld 2 TS_SS0 (tss_bytes esp l) = 16 ∧ ld 4 TS_ESP0 (tss_bytes esp l) = esp ∧ ld 2 TS_IOMB (tss_bytes esp l) = 65535 ∧
  length (tss_bytes esp l) = TS_SIZE.
Proof.
  intros Hl He. unfold tss_bytes, TS_SS0, TS_ESP0, TS_IOMB, TS_SIZE in *.
  assert (H1 : length (st 2 8 16 l) = 104%nat) by (rewrite length_st; lia).
  assert (H2 : length (st 4 4 esp (st 2 8 16 l)) = 104%nat) by (rewrite length_st; lia).
  split_and!.
  - rewrite ld_st_ne, ld_st_ne, ld_st_eq by lia. reflexivity.
  - rewrite ld_st_ne, ld_st_eq by lia. change (256 ^ Z.of_nat 4) with (2 ^ 32). by apply Z.mod_small.
  - rewrite ld_st_eq by lia. reflexivity.
  - rewrite length_st; lia.
Qed.

(** The task state segment of this CPU, through the task register. *)
Lemma switched_tables m x p s :
  tables_ok s → h_cpus s !! c = Some x → cpu_ok m c → 0 ≤ c_ncli (m_cpus m !!! c) →
  (0 < c_ncli (m_cpus m !!! c) → c_if (m_cpus m !!! c) = false) → 0 ≤ p_kstack p + KSTACKSIZE < 2 ^ 32 →
  let s' := switched m x p s in
  tables_ok s' ∧ ∃ ts, tss cpus s' = Some (103, ts) ∧ ld 2 TS_SS0 ts = 16 ∧ ld 4 TS_ESP0 ts = p_kstack p + KSTACKSIZE ∧ ld 2 TS_IOMB ts = 65535.
Proof.
  intros [_ (x0 & Hx0 & Hts & Hg & H1 & H2 & H3 & H4) Hidt Hgr Hir Ha Hv] Hx Hok Hn Hif Hks s'. rewrite Hx in Hx0. injection Hx0 as <-.
  pose proof (lookup_lt_Some _ _ _ Hx) as Hlt.
  assert (Hu : u32 (p_kstack p + KSTACKSIZE) = p_kstack p + KSTACKSIZE) by (by apply u32_small).
  destruct (tss_bytes_fields (p_kstack p + KSTACKSIZE) (hc_ts x) Hts Hks) as (F1 & F2 & F3 & F4).
  assert (Hx' : h_cpus s' !! c = Some (mkHcpu (tss_bytes (p_kstack p + KSTACKSIZE) (hc_ts x)) (<[5%nat := tss_desc]> (hc_gdt x)))).
  { unfold s', switched. cbn. rewrite Hu. by apply list_lookup_insert_eq. }
  assert (Haddr : 0 ≤ ts_addr cpus c < 2 ^ 32).
  { destruct Ha. unfold gdt_addr, ts_addr, CPU_GDT, CPU_TS, CPU_SIZE in *. lia. }
  destruct (SEG16_decode STS_T32A (ts_addr cpus c) 103 0 Haddr) as (D1 & D2 & D3 & D4 & _ & D6); [lia|unfold STS_T32A; lia|lia|].
  split.
  - split; try done.
    eexists. split; [exact Hx'|]. cbn [hc_ts hc_gdt]. rewrite length_insert, !list_lookup_insert_ne by lia. split_and!; done.
  - exists (tss_bytes (p_kstack p + KSTACKSIZE) (hc_ts x)). split_and!; [|done..]. unfold tss.
    rewrite (gdt_entry_mine s' _ (h_tr s') 5 tss_desc Hgr Hx'); [|cbn; apply list_lookup_insert_eq; rewrite Hg; unfold NSEGS; lia|reflexivity|lia].
    cbn [mbind option_bind]. fold tss_desc in *. rewrite D3, D4, D6, D1, D2. change (STS_T32A =? 9) with true. cbn [andb Z.eqb Pos.eqb].
    rewrite (cpu_at_mine s' CPU_TS) by done. rewrite Hx'. done.
Qed.

(** An interrupt, through the kernel's tables. *)
Lemma int_entry_tables s cpl n soft :
  tables_ok s → 0 ≤ n < 256 → 0 ≤ cpl →
  int_entry cpus idt s cpl n soft =
    if soft && ((if n =? T_SYSCALL then 3 else 0) <? cpl) then None
    else if 0 <? cpl then t ← tss cpus s; Some (mkKentry 0 8 (vectors n) (Some (ld 2 TS_SS0 t.2, ld 4 TS_ESP0 t.2)) (negb (n =? T_SYSCALL)))
    else Some (mkKentry cpl 8 (vectors n) None (negb (n =? T_SYSCALL))).
Proof.
  intros [_ (x & Hx & _ & _ & Hcode & _) Hidt Hgr Hir _ Hv] Hn Hcpl. unfold int_entry, idt_entry. rewrite Hir. cbn [fst snd].
  rewrite Z.eqb_refl, (proj2 (Z.leb_le _ _)), (Hidt n Hn) by lia. cbn [andb mbind option_bind].
  destruct (SETGATE_decode (n =? T_SYSCALL) 8 (vectors n) (if n =? T_SYSCALL then 3 else 0) (Hv n)) as (-> & -> & -> & -> & -> & ->);
    [lia|destruct (_ =? _); lia|].
  rewrite (gdt_entry_mine s x 8 1 _ Hgr Hx Hcode eq_refl) by lia. cbn [mbind option_bind].
  destruct (SEG_decode 10 0 4294967295 0) as (_ & _ & -> & -> & -> & ->); [lia..|].
  rewrite (proj2 (Z.leb_le 0 cpl) Hcpl). by destruct (n =? T_SYSCALL).
Qed.

Lemma confined_tables s p ts :
  tables_ok s → tss cpus s = Some (103, ts) → ld 2 TS_SS0 ts = 16 → ld 4 TS_ESP0 ts = p_kstack p + KSTACKSIZE →
  ld 2 TS_IOMB ts = 65535 → h_cr3 s = V2P (p_pgdir p) → confined s p.
Proof.
  intros Hok Hts Hss Hesp Hio Hcr. split.
  - intros n Hn Hne. rewrite int_entry_tables by (done || lia). by rewrite (proj2 (Z.eqb_neq _ _) Hne).
  - rewrite int_entry_tables by (done || (unfold T_SYSCALL; lia)). rewrite Hts. cbn [mbind option_bind snd]. rewrite Hss, Hesp. reflexivity.
  - intros n Hn Hne. rewrite int_entry_tables, Hts by (done || lia). rewrite (proj2 (Z.eqb_neq _ _) Hne). cbn [mbind option_bind snd]. rewrite Hss, Hesp. reflexivity.
  - intros n Hn Hne. rewrite int_entry_tables by (done || lia). by rewrite (proj2 (Z.eqb_neq _ _) Hne).
  - intros port Hp. unfold io_permitted. rewrite Hts, Hio. change (3 <=? 0) with false. cbv iota zeta.
    rewrite (proj2 (Z.leb_gt _ _)); [done|]. pose proof (Z.div_pos port 8). lia.
  - intros sel Hsel. destruct Hok as [_ (x & Hx & _ & _ & _ & _ & Hu & Hd) _ Hgr _ _ _].
    assert (∃ k ty, hc_gdt x !! k = Some (SEG ty 0 4294967295 3) ∧ Z.lor (Z.shiftl sel 3) DPL_USER / 8 = Z.of_nat k ∧ (1 ≤ k ≤ 5)%nat ∧ 0 ≤ ty < 16)
      as (k & ty & Hk & Hdiv & Hr & Hty).
    { destruct Hsel as [-> | ->]; [exists 3%nat, 10|exists 4%nat, 2]; (split_and!; [done|reflexivity|lia..]). }
    exists (seg_word (SEG ty 0 4294967295 3)). rewrite (gdt_entry_mine s x _ k _ Hgr Hx Hk Hdiv Hr). split; [done|].
    destruct (SEG_decode ty 0 4294967295 3) as (-> & -> & _ & _ & -> & ->); [lia..|done].
  - exact Hcr.
Qed.

(** A process that the scheduler can switch to. *)
Definition switchable p : Prop := p_kstack p ≠ 0 ∧ p_pgdir p ≠ 0 ∧ 0 ≤ p_kstack p ∧ p_kstack p + KSTACKSIZE < 2 ^ 32.

Lemma switch_confined s p :
  tables_ok s → switchable p → wp (switchuvm cpus c (Some p)) (λ _ s', tables_ok s' ∧ confined s' p) s.
Proof.
  intros Hok (Hks & Hpg & Hk0 & Hk1). pose proof Hok as [(Hc & Hn & Hif) (x & Hx & _ & Hg & _) _ _ _ _ _].
  eapply switchuvm_ok; try done. set (y := m_cpus (h_mach s) !!! c) in *.
  assert (Hy : m_cpus (with_cpu (h_mach s) c (probed y)) !!! c = probed y) by (apply with_cpu_at, Hc).
  destruct (switched_tables (with_cpu (h_mach s) c (probed y)) x p s Hok Hx) as (Hok' & ts & Hts & Hss & Hesp & Hio).
  - by apply cpu_ok_with.
  - by rewrite Hy.
  - by rewrite Hy.
  - unfold KSTACKSIZE in *. lia.
  - split; [exact Hok'|]. by eapply confined_tables.
Qed.

(** Switches to the processes of a list, in turn. *)
Fixpoint switches (ps : list proc) : M hw unit :=
  match ps with [] => mret tt | p :: ps => switchuvm cpus c (Some p);; switches ps end.

Lemma switches_tables s ps : tables_ok s → Forall switchable ps → wp (switches ps) (λ _, tables_ok) s.
Proof.
  intros Hok Hps. revert s Hok. induction Hps as [|p ps Hp _ IH]; intros s Hok; cbn [switches]; [by apply wp_ret|].
  apply wp_bind. eapply wp_mono; [by apply switch_confined|]. intros [] s1 [Hok1 _]. by apply IH.
Qed.

(** C10. After tvinit, seginit and idtinit, and any switches by switchuvm, a process in user mode
    can enter the kernel only as intended: an int instruction faults for every vector except the
    system call; system calls, exceptions and device interrupts run at privilege 0 from the
    vector of their number on the top of the kernel stack of that process, with interrupts off
    except for system calls; no I/O port can be used; the user segments are flat with privilege
    3; and the page table is that of the process. *)
Theorem user_mode_confined s ps p :
  boot_ok s → Forall switchable ps → switchable p →
  wp (tvinit vectors tickslock;; seginit cpus c;; idtinit idt;; switches ps;; switchuvm cpus c (Some p)) (λ _ s', confined s' p) s.
Proof.
  intros Hb Hps Hp. pose proof (boot_tables s Hb) as H. 
  assert (Hrest : ∀ s1, tables_ok s1 → wp (switches ps;; switchuvm cpus c (Some p)) (λ _ s', confined s' p) s1).
  { intros s1 H1. apply wp_bind. eapply wp_mono; [by apply switches_tables|]. intros [] s2 H2.
    eapply wp_mono; [by apply switch_confined|]. by intros [] s3 [_ ?]. }
  apply wp_iff in H as ([] & s1 & E & H1). apply bind_inv in E as ([] & s2 & E1 & E). apply bind_inv in E as ([] & s3 & E2 & E3).
  eapply wp_bind, wp_Ok; [exact E1|]. eapply wp_bind, wp_Ok; [exact E2|]. eapply wp_bind, wp_Ok; [exact E3|]. by apply Hrest.
Qed.
End tables.

(** ** One CPU with zeroed tables, switching twice *)

Module SegExample.
Definition cpus : Z := 2148597760.
Definition idt : Z := 2148601856.
Definition vectors (n : Z) : Z := u32 (2148552704 + 16 * n).
Definition s0 : hw :=
  mkHw (mkMach [mkCpu 0 false 0 false] (λ _, initlock)) ex_kst [mkHcpu (replicate TS_SIZE Byte.x00) (replicate NSEGS zero_seg)]
    (replicate 256 zero_gate) 0 (0, 0) (0, 0) 0 0.
Definition p1 : proc := set_space 4096 2382364672 (set_stack 2382360576 0 0 zero_proc).
Definition p2 : proc := set_space 4096 2382356480 (set_stack 2382352384 0 0 zero_proc).

Lemma boot : boot_ok cpus idt vectors 0 s0.
Proof.
  split.
  - split; [split; [cbn; lia|apply NoDup_singleton]|]. split; [reflexivity|]. cbn. lia.
  - eexists. split; [reflexivity|]. split; reflexivity.
  - reflexivity.
  - unfold gdt_addr, CPU_GDT, CPU_SIZE, cpus, idt. lia.
  - intros n. unfold vectors, u32. apply Z.mod_pos_bound. lia.
Qed.

Lemma ready1 : switchable p1.
Proof. unfold switchable. cbn. unfold KSTACKSIZE. lia. Qed.
Lemma ready2 : switchable p2.
Proof. unfold switchable. cbn. unfold KSTACKSIZE. lia. Qed.

Lemma user_mode_confined_witness :
  wp (tvinit vectors 0;; seginit cpus 0;; idtinit idt;; switches cpus 0 [p1];; switchuvm cpus 0 (Some p2))
    (λ _ s', confined cpus idt vectors s' p2) s0.
Proof.
  apply (user_mode_confined cpus idt vectors 0 0 s0 [p1] p2 boot).
  - constructor; [exact ready1|constructor].
  - exact ready2.
Defined.
End SegExample.
