(* ===== verification/FileWrite.v ===== *)
(** * A write reaches the disk (src/file.c: [filewrite])

    [filewrite] cuts a large write into transactions that fit in the log.  The
    layers together: open file, inode, block map, allocator, log, buffer cache and
    disk.  When the call returns, the bytes are in the file, on the disk. *)

From S2P Require Import Prelude Fcntl Dll Sleeplock Bio Memide FsLayout Log LogCrash LogProtocol Tx CString Fs FsAlloc FsInode FsFile FsWrite Keeps Pipe Kalloc Vm PageTable Kernel File Sysfile SysArgs FsDir FsLink FsPath FsExample.

Section filewrite.
Context {D : Type} {drv : DiskDriver D} {dl : DiskLaws D}.
Abbreviation S := (logst D).
Abbreviation K := (M (kern S)).
Context (devwrite : Z → option (nat → list byte → Z → M (fsst S) Z)).
Implicit Types (k : kern S) (V : Z → list byte).

(** ** What a write to an inode leaves alone

    The one operation stays outstanding and uncommitted, and the superblock and the
    identity of the process do not change. *)
Definition steady (sb : superblock) (pid : Z) (cwd : nat) (s : fsst S) : Prop :=
  lg_outstanding (ls_log (fs_st s)) = 1 ∧ lg_committing (ls_log (fs_st s)) = 0 ∧ fs_sb s = sb ∧ fs_pid s = pid ∧ fs_cwd s = cwd.

Section steady.
Context (sb : superblock) (pid : Z) (cwd : nat).
Abbreviation steadily m := (keeps (steady sb pid cwd) m any).

Lemma steady_liftS {A} (m : M S A) :
  keeps (λ st, lg_outstanding (ls_log st) = 1 ∧ lg_committing (ls_log st) = 0) m any → steadily (liftS m).
Proof.
  intros Hm s (? & ? & ? & ? & ?). unfold liftS. specialize (Hm (fs_st s) ltac:(done)).
  destruct (m (fs_st s)) as [a st|st|]; [destruct Hm as [Hm _]; split; [|done]|..]; try done; by destruct Hm.
Qed.

Lemma steady_liftB {A} (m : M (bio D) A) :
  keeps (λ st, lg_outstanding (ls_log st) = 1 ∧ lg_committing (ls_log st) = 0) (liftB m) any.
Proof. intros s Hs. unfold liftB. by destruct (m (ls_bio s)). Qed.

Lemma steady_log_write b : keeps (λ st : S, lg_outstanding (ls_log st) = 1 ∧ lg_committing (ls_log st) = 0) (log_write b) any.
Proof.
  unfold log_write. keeps. apply steady_liftB.
Qed.

Lemma steady_bread dev b : steadily (liftS (tx_bread dev b)).
Proof. apply steady_liftS, steady_liftB. Qed.
Lemma steady_put b d : steadily (liftS (tx_put b d)).
Proof. apply steady_liftS, steady_liftB. Qed.
Lemma steady_write b : steadily (liftS (tx_log_write b)).
Proof. apply steady_liftS, steady_log_write. Qed.
Lemma steady_brelse b : steadily (liftS (tx_brelse b)).
Proof. apply steady_liftS, steady_liftB. Qed.
Lemma steady_get_inode ip : steadily (get_inode ip).
Proof. by intros s Hs. Qed.
Lemma steady_get_data bp : steadily (get_data bp).
Proof. by intros s Hs. Qed.
Lemma steady_upd_inode ip f : steadily (upd_inode ip f).
Proof. by intros s Hs. Qed.
#[local] Hint Resolve steady_bread steady_put steady_write steady_brelse steady_get_inode steady_get_data steady_upd_inode : keeps.

Lemma steady_balloc_from dev b fuel : steadily (balloc_from dev b fuel).
Proof. revert b. induction fuel as [|fuel IH]; intros b; cbn [balloc_from]; unfold bzero; keeps. Qed.
#[local] Hint Resolve steady_balloc_from : keeps.
Lemma steady_balloc dev : steadily (balloc dev).
Proof. unfold balloc. keeps. Qed.
#[local] Hint Resolve steady_balloc : keeps.
Lemma steady_bmap ip bn : steadily (bmap ip bn).
Proof. unfold bmap, bmap_indirect. keeps. Qed.
#[local] Hint Resolve steady_bmap : keeps.
Lemma steady_writei_loop ip src off tot n fuel : steadily (writei_loop ip src off tot n fuel).
Proof. revert src off tot. induction fuel as [|fuel IH]; intros; cbn [writei_loop]; keeps. Qed.
#[local] Hint Resolve steady_writei_loop : keeps.

Lemma steady_writei ip src off n s a s' :
  steady sb pid cwd s → i_type (fs_inode s !!! ip) ≠ T_DEV → writei devwrite ip src off n s = Ok a s' → steady sb pid cwd s'.
Proof.
  intros Hs Ht E. unfold writei in E. apply bind_inv in E as (x & s1 & E1 & E). injection E1 as <- <-. cbv beta in E.
  rewrite (proj2 (Z.eqb_neq _ _) Ht) in E. match type of E with ?m _ = _ => assert (Hk : steadily m) by (unfold iupdate; keeps) end.
  specialize (Hk s Hs). rewrite E in Hk. apply Hk.
Qed.
End steady.

(** ** Contents that do not depend on the log area *)

Section log_area.
Context (g : geom) (sb : superblock) (V V' : Z → list byte) (x : inode).
Context (Hsb : sb_ok g sb) (Hwf : file_wf g sb V x) (Hsame : ∀ b, ¬ g_log g b → V' b = V b).

Lemma faddr_log bn : faddr V' x bn = faddr V x bn.
Proof. apply faddr_ext. intros H0. destruct (fw_ind _ _ _ _ Hwf H0) as [(_ & _ & Hl & _) _]. by apply Hsame. Qed.

Lemma used_log b : 0 ≤ b < g_size g → used sb V' b = used sb V b.
Proof.
  intros Hb. apply used_ext, Hsame. rewrite (BBLOCK_eq g) by done. by destruct (so_bmap _ _ Hsb b Hb).
Qed.

Lemma file_wf_log : file_wf g sb V' x.
Proof. eapply file_wf_ext; [done|apply faddr_log|]. intros b [Hb _] Hu. rewrite used_log; [done|lia]. Qed.

Lemma mapped_log hi : mapped V x hi → mapped V' x hi.
Proof. intros Hm bn. rewrite faddr_log. apply Hm. Qed.

Lemma fbyte_log pos hi : mapped V x hi → 0 ≤ pos < hi → pos < MAXFILE * Z.of_nat BSIZE → fbyte V' x pos = fbyte V x pos.
Proof.
  intros Hm Hp Hmax. unfold fbyte. rewrite faddr_log. rewrite BSIZE_val in *. pose proof (Z.div_pos pos (Z.of_nat 512)).
  pose proof (Z_div_mod_eq_full pos (Z.of_nat 512)). pose proof (Z.mod_pos_bound pos (Z.of_nat 512)).
  assert (Hbn : 0 ≤ pos / Z.of_nat 512 < MAXFILE) by (rewrite MAXFILE_val in *; lia).
  destruct (fw_blk _ _ _ _ Hwf _ Hbn) as [(_ & _ & Hl & _) _]; [apply Hm; rewrite ?BSIZE_val; lia|]. by rewrite Hsame.
Qed.

Lemma spare_log hi : spare g sb V' x hi = spare g sb V x hi.
Proof. apply spare_ext; [apply faddr_log|done|apply used_log]. Qed.

Lemma file_owns_log b : file_owns V' x b → file_owns V x b.
Proof.
  intros [H0 Ho]. split; [done|]. destruct Ho as [?|(bn & Hbn & ->)]; [by left|right]. exists bn. by rewrite faddr_log.
Qed.

Lemma iblock_log j : 0 ≤ j < sb_ninodes sb → V' (IBLOCK j sb) = V (IBLOCK j sb).
Proof. intros Hj. apply Hsame. by apply (IBLOCK_range g _ _ Hsb). Qed.
End log_area.

(** The file [x'] on [V'] is the file [x] on [V] with [src] written at [off]. *)
Record overwrote V x V' x' (off : Z) (src : list byte) : Prop := {
  gr_new : ∀ pos, off ≤ pos < off + Z.of_nat (length src) → fbyte V' x' pos = nth (Z.to_nat (pos - off)) src Byte.x00;
  gr_old : ∀ pos, 0 ≤ pos < i_size x → ¬ (off ≤ pos < off + Z.of_nat (length src)) → fbyte V' x' pos = fbyte V x pos;
  gr_size : i_size x' = (if decide (src = []) then i_size x else Z.max (i_size x) (off + Z.of_nat (length src)));
  gr_inum : i_inum x' = i_inum x;
}.

Lemma overwrote_nil V x off : overwrote V x V x off [].
Proof. split; try done; simpl; lia. Qed.

Lemma overwrote_app V x V1 x1 V2 x2 off s1 s2 :
  0 ≤ off → s1 ≠ [] → overwrote V x V1 x1 off s1 → overwrote V1 x1 V2 x2 (off + Z.of_nat (length s1)) s2 → overwrote V x V2 x2 off (s1 ++ s2).
Proof.
  intros Ho Hne [N1 O1 S1 I1] [N2 O2 S2 I2]. rewrite decide_False in S1 by done.
  assert (Hl : (0 < length s1)%nat) by (destruct s1; [done|simpl; lia]).
  split; rewrite ?length_app, ?Nat2Z.inj_add.
  - intros pos Hp. destruct (decide (pos < off + Z.of_nat (length s1))).
    + rewrite O2, N1 by lia. by rewrite app_nth1 by lia.
    + rewrite N2 by lia. rewrite app_nth2 by lia. f_equal. lia.
  - intros pos Hp Hn. rewrite O2, O1 by lia. done.
  - rewrite decide_False by (by destruct s1). rewrite S2. case_decide as E2; [subst s2; simpl|]; lia.
  - congruence.
Qed.

(** ** The file between two transactions *)

(** The inode in memory describes a regular file or a directory with every block of it
    mapped, and is the one on the disk. *)
Record good_file (g : geom) (sb : superblock) V x : Prop := {
  gf_dev : i_dev x = ROOTDEV;
  gf_inum : 0 ≤ i_inum x < sb_ninodes sb;
  gf_ref : 1 ≤ i_ref x;
  gf_valid : i_valid x ≠ 0;
  gf_type : i_type x ≠ T_DEV;
  gf_meta : meta_fits x;
  gf_size : 0 ≤ i_size x ≤ MAXFILE * Z.of_nat BSIZE;
  gf_wf : file_wf g sb V x;
  gf_map : mapped V x (i_size x);
  gf_sync : inode_synced sb V x;
}.

Lemma synced_lock sb V x lk : inode_synced sb V x → inode_synced sb V (set_ilock lk x).
Proof.
  unfold inode_synced. cbn [i_inum set_ilock]. intros E. etrans; [|exact (f_equal (set_ilock lk) E)]. by rewrite !dinode_read_eq.
Qed.

Lemma good_file_lock g sb V x lk : good_file g sb V x → good_file g sb V (set_ilock lk x).
Proof. intros []. split; try done; [by destruct gf_wf0|by apply synced_lock]. Qed.

Lemma good_file_log g sb V V' x :
  sb_ok g sb → (∀ b, ¬ g_log g b → V' b = V b) → good_file g sb V x → good_file g sb V' x.
Proof.
  intros Hsb Hs []. split; try done; [by eapply file_wf_log|by eapply mapped_log|].
  unfold inode_synced. by rewrite (iblock_log g sb V V' Hsb Hs).
Qed.

(** The file [x'] on [V'] is [x] on [V] with [src] written at [off], and the rest of the
    disk is as before. *)
Definition stored (g : geom) (sb : superblock) V x V' x' (off : Z) (src : list byte) : Prop :=
  overwrote V x V' x' off src ∧ file_confined g sb V x V' x'.

Lemma file_confined_refl g sb V x : file_confined g sb V x V x.
Proof. split; auto. Qed.

Lemma file_confined_trans g sb V x V1 x1 V2 x2 :
  file_confined g sb V x V1 x1 → file_confined g sb V1 x1 V2 x2 → i_inum x1 = i_inum x → i_size x1 ≤ i_size x2 → file_wf g sb V2 x2 → file_confined g sb V x V2 x2.
Proof.
  intros [U1 K1 O1 I1 S1 P1] [U2 K2 O2 I2 S2 P2] Hi Hsz Hwf. split.
  - auto.
  - intros k Hk Hu Hb Hl Hn Ho. rewrite K2, K1; auto; [congruence|]. intros [?|?]%O1; congruence.
  - intros k Hk. destruct (O2 k Hk) as [Ho|Hf]; [by apply O1|]. right. destruct (file_owns_range _ _ _ _ _ Hwf Hk) as [Hr _].
    destruct (used sb V k) eqn:E; [|done]. rewrite U1 in Hf; [done|lia|done].
  - intros j y Hj Hne. rewrite I2, I1; auto. congruence.
  - auto.
  - intros hi Hhi. rewrite P2, P1; [done|lia|done].
Qed.

Lemma stored_log g sb V x V1 V2 x1 off src :
  sb_ok g sb → (∀ b, ¬ g_log g b → V2 b = V1 b) → good_file g sb V1 x1 → 0 ≤ off →
  stored g sb V x V1 x1 off src → stored g sb V x V2 x1 off src.
Proof.
  intros Hsb Hs Hg Ho [[N O Hz I] [U K W J Y P]]. pose proof (gf_wf _ _ _ _ Hg) as Hwf. pose proof (gf_size _ _ _ _ Hg) as Hsz.
  assert (Hsize : i_size x ≤ i_size x1 ∧ (src ≠ [] → off + Z.of_nat (length src) ≤ i_size x1)) by (rewrite Hz; case_decide; (split; [lia|]); intros; [done|lia]).
  assert (Hf : ∀ pos, 0 ≤ pos < i_size x1 → fbyte V2 x1 pos = fbyte V1 x1 pos).
  { intros pos Hp. eapply fbyte_log; [exact Hwf|done|apply Hg|done|lia]. }
  split; split; try done.
  - intros pos Hp. rewrite Hf; [by apply N|]. assert (src ≠ []) as Hne%Hsize by (intros ->; cbn in Hp; lia). lia.
  - intros pos Hp Hn. rewrite Hf by lia. by apply O.
  - intros k Hk Hu. rewrite (used_log g sb V1 V2) by done. by apply U.
  - intros k Hk Hu Hb Hl Hn Hno. rewrite Hs by done. by apply K.
  - intros k Hk. apply W. by eapply file_owns_log.
  - intros j y Hj Hne. rewrite (iblock_log g sb V1 V2) by done. by apply J.
  - intros Hy. specialize (Y Hy). unfold inode_synced. by rewrite (iblock_log g sb V1 V2 Hsb Hs) by apply Hg.
  - intros hi Hhi. rewrite (spare_log g sb V1 V2) by done. by apply P.
Qed.

Lemma stored_app g sb V x V1 x1 V2 x2 off s1 s2 :
  0 ≤ off → s1 ≠ [] → file_wf g sb V2 x2 → stored g sb V x V1 x1 off s1 → stored g sb V1 x1 V2 x2 (off + Z.of_nat (length s1)) s2 →
  stored g sb V x V2 x2 off (s1 ++ s2).
Proof.
  intros Ho Hne Hwf [G1 C1] [G2 C2]. split; [by eapply overwrote_app|]. eapply file_confined_trans; [done|done|apply G1| |done].
  rewrite (gr_size _ _ _ _ _ _ G2). case_decide; lia.
Qed.

(** The lock of the inode does not matter. *)
Lemma spare_lock g sb V x lk hi : spare g sb V (set_ilock lk x) hi = spare g sb V x hi.
Proof. by apply spare_ext. Qed.

Lemma stored_lock g sb V x V' x' off src lk : stored g sb V x V' x' off src → stored g sb V x V' (set_ilock lk x') off src.
Proof.
  intros [[N O Z I] [U K W J Y P]]. split; split; [exact N|exact O|exact Z|exact I|exact U|exact K|exact W|exact J| |].
  - intros Hy. by apply synced_lock, Y.
  - intros hi Hhi. rewrite spare_lock. by apply P.
Qed.

Lemma stored_unlock g sb V x V' x' off src lk : stored g sb V (set_ilock lk x) V' x' off src → stored g sb V x V' x' off src.
Proof.
  intros [[N O Z I] [U K W J Y P]]. split; split; [exact N|exact O|exact Z|exact I|exact U|exact K|exact W|exact J| |].
  - intros Hy. by apply Y, synced_lock.
  - intros hi Hhi. rewrite <-(spare_lock g sb V x lk). by apply P.
Qed.

(** ** The calls of one transaction *)

Lemma wpp_liftF {A B} (m : M (fsst S) A) (rest : A → K B) (Q : B → kern S → Prop) E k :
  wpp m (λ a s, wpp (rest a) Q E (with_fs s k)) E (cur_fs k) → wpp (liftF m ≫= rest) Q E k.
Proof. unfold wpp, liftF, lift, mbind, M_bind. by destruct (m (cur_fs k)). Qed.

Lemma wpp_and {T A} (m : M T A) (P Q : A → T → Prop) E s :
  (∀ a s', m s = Ok a s' → P a s') → wpp m Q E s → wpp m (λ a s', P a s' ∧ Q a s') E s.
Proof. unfold wpp. destruct (m s) as [a s'| |]; auto. Qed.

Lemma wpp_assoc {T A B C} (m : M T A) (h : A → M T B) (c : B → M T C) (Q : C → T → Prop) E s :
  wpp ((m ≫= h) ≫= c) Q E s → wpp (m ≫= λ a, h a ≫= c) Q E s.
Proof. unfold wpp, mbind, M_bind. by destruct (m s). Qed.

Lemma ilock_cached (s : fsst S) ip x :
  fs_inode s !! ip = Some x → 1 ≤ i_ref x → sl_locked (i_lock x) = 0 → i_valid x ≠ 0 →
  wp (ilock ip) (λ _ s', s' = with_inode s (<[ip := set_ilock (mkSleeplock 1 (fs_pid s)) x]> (fs_inode s))) s.
Proof.
  intros Hx Href Hlk Hv. pose proof (list_lookup_total_correct _ _ _ Hx) as Hx'.
  unfold ilock. apply wp_bind, get_inode_ok. rewrite Hx', (proj2 (Z.ltb_ge _ _)) by lia.
  apply wp_bind. unfold lock_inode. apply wp_getS. rewrite Hx'. unfold acquiresleep. rewrite Hlk. cbn [Z.eqb].
  unfold upd_inode. apply wp_modify_end. rewrite alter_insert, Hx'.
  apply wp_bind, get_inode_ok. cbn [fs_inode]. rewrite list_lookup_total_insert_eq by (by eapply lookup_lt_Some).
  cbn [i_valid set_ilock]. rewrite (proj2 (Z.eqb_neq _ _)) by done. by apply wp_ret.
Qed.

Lemma iunlock_held (s : fsst S) ip x :
  fs_inode s !! ip = Some x → 1 ≤ i_ref x → i_lock x = mkSleeplock 1 (fs_pid s) →
  wp (iunlock ip) (λ _ s', s' = with_inode s (<[ip := set_ilock (mkSleeplock 0 0) x]> (fs_inode s))) s.
Proof.
  intros Hx Href Hlk. pose proof (list_lookup_total_correct _ _ _ Hx) as Hx'.
  unfold iunlock. apply wp_getS. rewrite Hx', Hlk. unfold holdingsleep. cbn [sl_locked sl_pid].
  rewrite Z.eqb_refl, (proj2 (Z.ltb_ge _ _)) by lia. cbn [Z.eqb negb andb orb].
  unfold upd_inode. apply wp_modify_end. by rewrite alter_insert, Hx'.
Qed.

(** The blocks that are not data are marked in the bitmap. *)
Definition meta_used (g : geom) (sb : superblock) V : Prop :=
  ∀ b, 0 ≤ b < g_size g → ¬ is_data g sb b → used sb V b = true.

(** A transaction writes at most 25 blocks: four data blocks, with what allocating them takes, and the inode. *)
Lemma span_max off n : 0 ≤ n ≤ write_max → (6 * span off n + 1 ≤ 25)%nat.
Proof.
  intros Hn. change write_max with 1536 in Hn. unfold span. rewrite BSIZE_val.
  pose proof (Z.mod_pos_bound off (Z.of_nat 512) ltac:(lia)). set (o := off mod Z.of_nat 512) in *. clearbody o.
  pose proof (Z_div_mod_eq_full (o + n + Z.of_nat 512 - 1) (Z.of_nat 512)).
  pose proof (Z.mod_pos_bound (o + n + Z.of_nat 512 - 1) (Z.of_nat 512) ltac:(lia)). lia.
Qed.

(** [writei] in a transaction of its own, on the locked inode. *)
Lemma writei_locked g s V ip x off src sb pid cwd :
  let n := Z.of_nat (length src) in
  tx_inv g (fs_st s) V ∅ ∅ → steady sb pid cwd s → sb_ok g sb → meta_used g sb V → 25 ≤ g_cap g →
  fs_inode s !! ip = Some x → good_file g sb V x → 0 ≤ off ≤ i_size x → n ≤ write_max → off + n ≤ MAXFILE * Z.of_nat BSIZE →
  wpp (writei devwrite ip src off n) (λ r s', steady sb pid cwd s' ∧ r = n ∧
    ∃ V' L' x', fs_inode s' = <[ip := x']> (fs_inode s) ∧ tx_inv g (fs_st s') V' L' ∅ ∧ (base.size L' < NBUF)%nat ∧
      meta_used g sb V' ∧ good_file g sb V' x' ∧ stored g sb V x V' x' off src ∧ i_lock x' = i_lock x)
    (disk_full g sb V x (Z.max (i_size x) (off + n))) s.
Proof.
  intros n Hi Hst Hsb Hmeta Hcap Hx [] Hoff Hn Hmax. pose proof Hst as (_ & _ & Esb & _).
  pose proof (list_lookup_total_correct _ _ _ Hx) as Hx'. pose proof (lookup_lt_Some _ _ _ Hx) as Hlt.
  eapply wpp_mono; [apply wpp_and; [intros r s' E; eapply steady_writei; [exact Hst| |exact E]; by rewrite Hx'|
    apply (writei_ok devwrite g s V ∅ ip src off n)]| |unfold write_full; rewrite Hx', Esb; done]; [|lia|].
  - split; rewrite ?Hx'; subst sb; try done; try lia.
    + split; rewrite ?Hx'; [|done..]. split; [done..| | |done]; rewrite held_nil; set_solver.
    + pose proof (span_max off n ltac:(lia)). split; rewrite ?size_empty, ?map_size_empty; [lia|].
      change NBUF with 30%nat. lia.
  - intros r s' (Hst' & -> & V' & L' & x' & Hin & Henv & Hty & Hsz & Hmap & HNB & Hnew & Hold & (Sd & Si & Sr & Sl & Sv & Sm) & Hconf).
    split_and!; [done..|]. exists V', L', x'. rewrite Hx', ?Esb in *. fold n in Hsz, Hnew, Hold.
    assert (Hxs : fs_inode s' !!! ip = x') by (rewrite Hin; by apply list_lookup_total_insert_eq).
    pose proof Hst' as (_ & _ & Esb' & _). destruct Henv as [Hok _ _ Hwf']. rewrite Hxs, Esb' in Hwf'.
    split_and!; try done; [apply Hok|rewrite <-Esb'; exact (ao_meta _ _ _ _ _ Hok)| |].
    + split; [congruence|by rewrite Si|lia|congruence|congruence|done| |done|done|by apply Hconf]. rewrite Hsz. case_decide; lia.
    + split; [|done]. split; [done|done| |done]. rewrite Hsz. destruct src; [done|]. rewrite decide_True, decide_False by (cbn in n; done || lia). done.
Qed.

(** ** [filewrite] *)

(** Between transactions: nothing is logged, [V] is on the disk, and the file table has
    [f] open for writing at [off] on the inode [x] in slot [ip], which nobody has locked. *)
Record open_at (g : geom) k V (f ip : nat) x (off : Z) : Prop := {
  oa_quiet : quiet g (fs_st (kn_fs k)) V;
  oa_cap : 25 ≤ g_cap g;
  oa_sb : sb_ok g (fs_sb (kn_fs k));
  oa_meta : meta_used g (fs_sb (kn_fs k)) V;
  oa_slot : fs_inode (kn_fs k) !! ip = Some x;
  oa_free : sl_locked (i_lock x) = 0;
  oa_good : good_file g (fs_sb (kn_fs k)) V x;
  oa_off : 0 ≤ off ≤ i_size x;
  oa_file : ∃ fl, kn_file k !! f = Some fl ∧ f_type fl = FD_INODE ∧ f_writable fl = true ∧ f_ip fl = ip ∧ f_off fl = off;
}.

(** Only the file system, the slot [ip] of the inode cache and the file [f] change. *)
Definition touches (f ip : nat) k k' : Prop :=
  ∃ F l, k' = with_file l (with_fs F k) ∧ fs_sb F = fs_sb (kn_fs k) ∧
    (∀ j, j ≠ ip → fs_inode F !! j = fs_inode (kn_fs k) !! j) ∧ (∀ j, j ≠ f → l !! j = kn_file k !! j).

Lemma touches_refl f ip k : touches f ip k k.
Proof. exists (kn_fs k), (kn_file k). by destruct k. Qed.

Lemma touches_trans f ip k k1 k2 : touches f ip k k1 → touches f ip k1 k2 → touches f ip k k2.
Proof.
  intros (F & l & -> & Hs & Hi & Hf) (F' & l' & -> & Hs' & Hi' & Hf'). exists F', l'. cbn in *.
  split_and!; [done|congruence|intros; by rewrite Hi', Hi|intros; by rewrite Hf', Hf].
Qed.

(** The transaction committed: what was stored in it is on the disk. *)
Lemma stored_open g k s V V1 V2 f ip x x1 off src fl :
  let k' := with_file (<[f := set_foff (off + Z.of_nat (length src)) fl]> (kn_file k)) (with_fs s k) in
  open_at g k V f ip x off → kn_file k !! f = Some fl → fs_sb s = fs_sb (kn_fs k) →
  fs_inode s = <[ip := set_ilock (mkSleeplock 0 0) x1]> (fs_inode (kn_fs k)) →
  quiet g (fs_st s) V2 → (∀ b, ¬ g_log g b → V2 b = V1 b) → meta_used g (fs_sb s) V1 → good_file g (fs_sb s) V1 x1 →
  stored g (fs_sb s) V x V1 x1 off src → src ≠ [] →
  open_at g k' V2 f ip (set_ilock (mkSleeplock 0 0) x1) (off + Z.of_nat (length src)) ∧
  stored g (fs_sb (kn_fs k)) V x V2 (set_ilock (mkSleeplock 0 0) x1) off src ∧ touches f ip k k'.
Proof.
  intros k' [Hq Hcap Hsb Hmeta Hslot Hfree Hgood Hoff (fl' & Hfl & Hty & Hwr & Hip & Ho)] Hf Esb Hin Hq2 Hs Hm1 Hg1 Hst Hne.
  rewrite Hf in Hfl. injection Hfl as <-. pose proof (lookup_lt_Some _ _ _ Hslot). pose proof (lookup_lt_Some _ _ _ Hf).
  rewrite Esb in *. pose proof (stored_log _ _ _ _ _ _ _ _ _ Hsb Hs Hg1 (proj1 Hoff) Hst) as Hst2.
  pose proof (gr_size _ _ _ _ _ _ (proj1 Hst)) as Hsz. rewrite decide_False in Hsz by done. split_and!.
  - split; cbn [k' kn_fs kn_file with_file with_fs]; rewrite ?Esb; try done.
    + intros b Hb Hd. rewrite (used_log g _ V1 V2) by done. by apply Hm1.
    + rewrite Hin. by apply list_lookup_insert_eq.
    + by eapply good_file_lock, good_file_log.
    + cbn. lia.
    + eexists. split; [by apply list_lookup_insert_eq|done].
  - by apply stored_lock.
  - exists s, (<[f := set_foff (off + Z.of_nat (length src)) fl]> (kn_file k)). split_and!; [done..| |].
    + intros j Hj. rewrite Hin. by apply list_lookup_insert_ne.
    + intros j Hj. by apply list_lookup_insert_ne.
Qed.

Lemma cur_fs_back k s : fs_pid s = p_pid (cur_proc k) → fs_cwd s = p_cwd (cur_proc k) → cur_fs (with_fs s k) = s.
Proof. destruct s as [st b l p c]. cbn. by intros -> ->. Qed.

(** The end of a transaction: unlock the inode and commit. *)
Lemma filewrite_finish g k s V L ip x (Q : unit → kern S → Prop) E :
  steady (fs_sb (kn_fs k)) (p_pid (cur_proc k)) (p_cwd (cur_proc k)) s → tx_inv g (fs_st s) V L ∅ → (base.size L < NBUF)%nat →
  fs_inode s !! ip = Some x → 1 ≤ i_ref x → i_lock x = mkSleeplock 1 (fs_pid s) →
  (∀ s' V', fs_sb s' = fs_sb (kn_fs k) → fs_inode s' = <[ip := set_ilock (mkSleeplock 0 0) x]> (fs_inode s) →
     quiet g (fs_st s') V' → (∀ b, ¬ g_log g b → V' b = V b) → Q tt (with_fs s' k)) →
  wpp (liftF (iunlock ip);; end_fs) Q E (with_fs s k).
Proof.
  intros (Ho & Hc & Esb & Ep & Ew) Hi HNB Hx Href Hlk HQ. apply wpp_liftF. rewrite cur_fs_back by done.
  eapply wp_wpp, wp_mono; [by apply iunlock_held|]. intros [] s1 ->.
  unfold end_fs, wpp, liftF, lift. rewrite cur_fs_back by done.
  pose proof (wp_liftS (end_op : M S unit) (λ _ s', ∃ V', fs_sb s' = fs_sb s ∧ fs_inode s' = <[ip := set_ilock (mkSleeplock 0 0) x]> (fs_inode s) ∧
    quiet g (fs_st s') V' ∧ (∀ b, ¬ g_log g b → V' b = V b)) (with_inode s (<[ip := set_ilock (mkSleeplock 0 0) x]> (fs_inode s)))) as Hw.
  unfold wp in Hw at 2. destruct (liftS _ _) as [[] s2| |]; [destruct Hw as (V' & Es & Ei & Hq & Hd)|destruct Hw..].
  2: { apply HQ with V'; [congruence|done..]. }
  all: eapply wp_mono; [by apply (end_op_ok g (fs_st s) V L)|]; intros [] st' (V' & Hq & Hd); exists V'; split_and!; try done.
  all: intros b Hb; rewrite <-Hd by done; by apply (quiet_disk g).
Qed.

(** One turn of the loop. *)
Lemma filewrite_chunk {A} g k V f ip x off src (rest : Z → K A) (Q : A → kern S → Prop) (E : string → Prop) :
  let n := Z.of_nat (length src) in
  open_at g k V f ip x off → src ≠ [] → n ≤ write_max → off + n ≤ MAXFILE * Z.of_nat BSIZE →
  (∀ msg, disk_full g (fs_sb (kn_fs k)) V x (Z.max (i_size x) (off + n)) msg → E msg) →
  (∀ k' V' x', open_at g k' V' f ip x' (off + n) → stored g (fs_sb (kn_fs k)) V x V' x' off src → touches f ip k k' →
     wpp (rest n) Q E k') →
  wpp (y ← get_file f;
       begin_fs;;
       liftF (ilock (f_ip y));;
       r ← liftF (writei devwrite (f_ip y) src (f_off y) n);
       (if 0 <? r then upd_file f (λ y, set_foff (u32 (f_off y + r)) y) else mret tt);;
       liftF (iunlock (f_ip y));;
       end_fs;;
       rest r) Q E k.
Proof.
  intros n Hop Hne Hn Hmax HE HQ. pose proof Hop as [Hq Hcap Hsb Hmeta Hslot Hfree Hgood Hoff (fl & Hfl & Hty & Hwr & Hip & Ho)].
  apply wp_wpp_bind. unfold get_file. change (wp (gets _) ?P k) with (P (kn_file k !!! f) k). cbv beta.
  rewrite (list_lookup_total_correct _ _ _ Hfl), Hip, Ho.
  apply wpp_liftF. eapply wp_wpp, wp_liftS, wp_mono; [by apply (begin_op_ok g)|]. intros [] st1 (Hi1 & Hout & Hcom).
  apply wpp_liftF. change (cur_fs (with_fs ?s k)) with (mkFsst (fs_st s) (fs_sb s) (fs_inode s) (p_pid (cur_proc k)) (p_cwd (cur_proc k))).
  cbn [with_st cur_fs fs_st fs_sb fs_inode fs_pid fs_cwd]. set (s1 := mkFsst _ _ _ _ _).
  eapply wp_wpp, wp_mono; [apply (ilock_cached s1 ip x); [done|apply Hgood|done|apply Hgood]|]. intros [] s2 ->.
  set (x1 := set_ilock _ x). apply wpp_liftF.
  change (cur_fs (with_fs (with_inode s1 ?l) _)) with (with_inode s1 l). set (s2 := with_inode s1 _).
  assert (Hx1 : fs_inode s2 !! ip = Some x1) by (apply list_lookup_insert_eq; by eapply lookup_lt_Some).
  eapply wpp_mono; [eapply (writei_locked g s2 V ip x1 off src (fs_sb (kn_fs k)) (p_pid (cur_proc k)) (p_cwd (cur_proc k)));
    [done|done|done|done|done|done|by apply good_file_lock|done|done|done]| |
    intros msg Hm; apply HE, (disk_full_spare _ _ V x V x1); [apply spare_lock|exact Hm]].
  intros r s3 (Hst & -> & V1 & L1 & x2 & Hin & Hi3 & HNB & Hm1 & Hg1 & Hsto & Hlk).
  assert (Hpos : 0 < n) by (destruct src; [done|cbn in n; lia]). fold n. rewrite (proj2 (Z.ltb_lt _ _)) by done.
  repeat change (with_fs ?a (with_fs ?b ?c)) with (with_fs a c).
  apply wpp_bind. unfold upd_file. change (wpp (modify ?h) ?P ?E ?s) with (P tt (h s)). cbv beta.
  cbn [kn_file with_fs]. rewrite alter_insert, (list_lookup_total_correct _ _ _ Hfl), Ho. rewrite u32_small.
  2: { assert (MAXFILE * Z.of_nat BSIZE < 2 ^ 32) by (vm_compute; reflexivity). lia. }
  set (l := <[f := _]> (kn_file k)). change (with_file l (with_fs s3 k)) with (with_fs s3 (with_file l k)).
  apply wpp_assoc, wpp_bind. pose proof Hst as (_ & _ & _ & Ep & _).
  assert (Hx2 : fs_inode s3 !! ip = Some x2) by (rewrite Hin; apply list_lookup_insert_eq; by eapply lookup_lt_Some).
  apply (filewrite_finish g (with_file l k) s3 V1 L1 ip x2); [done|done|done|done|apply Hg1|by rewrite Hlk, Ep|].
  intros s4 V2 Esb Hin4 Hq4 Hs4. rewrite Hin, list_insert_insert_eq in Hin4. cbn [kn_fs with_file] in Esb.
  destruct (stored_open g k s4 V V1 V2 f ip x x2 off src fl) as (Hop' & Hst' & Ht'); rewrite ?Esb; try done.
  - cbn in Hin4. by rewrite list_insert_insert_eq in Hin4.
  - by apply stored_unlock with (mkSleeplock 1 (fs_pid s1)).
  - by apply (HQ _ _ _ Hop').
Qed.

Lemma filewrite_loop_ok g k V f ip x off bs i fuel :
  let n := i + Z.of_nat (length bs) in
  open_at g k V f ip x off → off + Z.of_nat (length bs) ≤ MAXFILE * Z.of_nat BSIZE →
  Z.of_nat (length bs) + write_max ≤ write_max * Z.of_nat fuel →
  wpp (filewrite_loop devwrite f bs i n fuel) (λ r k', r = n ∧
    ∃ V' x', open_at g k' V' f ip x' (off + Z.of_nat (length bs)) ∧ stored g (fs_sb (kn_fs k)) V x V' x' off bs ∧ touches f ip k k')
    (disk_full g (fs_sb (kn_fs k)) V x (Z.max (i_size x) (off + Z.of_nat (length bs)))) k.
Proof.
  change write_max with 1536. revert k V x off bs i. induction fuel as [|fuel IH]; intros k V x off bs i n Hop Hmax Hf; [lia|].
  cbn [filewrite_loop]. change write_max with 1536. destruct (Z.ltb_spec i n) as [Hlt|Hge].
  2: { apply wp_wpp, wp_ret. assert (bs = []) as -> by (apply length_zero_iff_nil; lia). rewrite (proj2 (Z.eqb_eq _ _)) by (cbn in n; lia).
       split; [done|]. exists V, x. cbn [length Z.of_nat]. rewrite Z.add_0_r. split_and!; [done| |apply touches_refl].
       split; [apply overwrote_nil|apply file_confined_refl]. }
  set (n1 := if 1536 <? n - i then 1536 else n - i). assert (Hn1 : 0 < n1 ≤ 1536 ∧ n1 ≤ Z.of_nat (length bs)) by (unfold n1; case_match; lia).
  set (src := take (Z.to_nat n1) bs). assert (Hsrc : Z.of_nat (length src) = n1) by (unfold src; rewrite length_take; lia).
  rewrite <-Hsrc. pose proof (take_drop (Z.to_nat n1) bs) as Hbs. fold src in Hbs.
  apply (filewrite_chunk g k V f ip x off src); [done|intros E; rewrite E in Hsrc; cbn in Hsrc; lia|change write_max with 1536; lia|lia|intros msg; apply disk_full_mono; lia|].
  intros k1 V1 x1 Hop1 Hst1 Ht1. rewrite Hsrc in *. rewrite (proj2 (Z.ltb_ge _ _)), Z.eqb_refl by lia. cbn [negb].
  assert (Hld : Z.of_nat (length (drop (Z.to_nat n1) bs)) = Z.of_nat (length bs) - n1) by (rewrite length_drop; lia).
  replace n with (i + n1 + Z.of_nat (length (drop (Z.to_nat n1) bs))) by lia.
  assert (Hs1 : i_size x1 = Z.max (i_size x) (off + n1)).
  { rewrite (gr_size _ _ _ _ _ _ (proj1 Hst1)), decide_False, Hsrc; [done|]. intros E. rewrite E in Hsrc. cbn in Hsrc. lia. }
  eapply wpp_mono; [apply (IH k1 V1 x1 (off + n1)); [done|lia|]| |].
  { unfold n1 in *. revert Hld. destruct (Z.ltb_spec 1536 (n - i)); lia. }
  - intros r k2 (-> & V2 & x2 & Hop2 & Hst2 & Ht2). split; [done|]. exists V2, x2. pose proof Ht1 as (F & l & -> & Esb & _).
    cbn [kn_fs with_file with_fs] in *. rewrite Esb in *. split_and!; [|rewrite <-Hbs|by eapply touches_trans].
    + replace (off + Z.of_nat (length bs)) with (off + n1 + Z.of_nat (length (drop (Z.to_nat n1) bs))) by lia. done.
    + pose proof (oa_off _ _ _ _ _ _ _ Hop). eapply stored_app; [lia|intros E; rewrite E in Hsrc; cbn in Hsrc; lia| |exact Hst1|by rewrite Hsrc].
      pose proof Ht2 as (F2 & l2 & -> & Esb2 & _). destruct Hop2. cbn [kn_fs with_file with_fs] in *. rewrite Esb2, Esb in *. by apply oa_good0.
  - intros msg. pose proof Ht1 as (F & l & -> & Esb & _). cbn [kn_fs with_file with_fs]. rewrite Esb, Hs1.
    replace (Z.max (Z.max (i_size x) (off + n1)) (off + n1 + Z.of_nat (length (drop (Z.to_nat n1) bs)))) with (Z.max (i_size x) (off + Z.of_nat (length bs))) by lia.
    apply disk_full_spare, (cf_spare _ _ _ _ _ _ (proj2 Hst1)). lia.
Qed.

(** C4. filewrite of n bytes of user memory to an open regular file, cut into transactions that fit
    the log, returns n and leaves the bytes in the file on the disk: the inode on the disk is
    the one in memory, the range holds the bytes, the rest of the file and every block of other
    files and every other inode is as before, blocks gained were free, the size covers the
    range, the offset has advanced, the inode is unlocked again and no operation is outstanding.
    It panics only when the disk has fewer free blocks than the file, at the size it would get,
    lacks. *)
Theorem filewrite_durable g k V f ip x off addr bs :
  open_at g k V f ip x off → user_bytes k addr bs → off + Z.of_nat (length bs) ≤ MAXFILE * Z.of_nat BSIZE →
  wpp (filewrite devwrite f addr (Z.of_nat (length bs))) (λ r k', r = Z.of_nat (length bs) ∧
    ∃ V' x', (∀ b, V' b = disk_block (bc_disk (ls_bio (fs_st (kn_fs k')))) b) ∧ open_at g k' V' f ip x' (off + Z.of_nat (length bs)) ∧
      stored g (fs_sb (kn_fs k)) V x V' x' off bs ∧ touches f ip k k')
    (disk_full g (fs_sb (kn_fs k)) V x (Z.max (i_size x) (off + Z.of_nat (length bs)))) k.
Proof.
  intros Hop Hu Hmax. pose proof Hop as [_ _ _ _ _ _ _ _ (fl & Hfl & Hty & Hwr & _)].
  unfold filewrite. apply wp_wpp_bind. unfold get_file. change (wp (gets _) ?P k) with (P (kn_file k !!! f) k). cbv beta.
  rewrite (list_lookup_total_correct _ _ _ Hfl), Hwr, Hty. cbn [negb]. apply wp_wpp_bind. rewrite Nat2Z.id. unfold wp. rewrite (uload_eq _ _ _ Hu).
  eapply wpp_mono; [apply (filewrite_loop_ok g k V f ip x off bs 0); [done|done|]| |done].
  - change write_max with 1536. pose proof (Z_div_mod_eq_full (Z.of_nat (length bs)) 1536).
    pose proof (Z.mod_pos_bound (Z.of_nat (length bs)) 1536 ltac:(lia)). pose proof (Z.div_pos (Z.of_nat (length bs)) 1536 ltac:(lia) ltac:(lia)). lia.
  - intros r k' (-> & V' & x' & Hop' & Hst & Ht). split; [lia|]. exists V', x'. split_and!; [|done..].
    intros b. apply (quiet_disk g), Hop'.
Qed.
End filewrite.

(** A process appends the two bytes at 200 in its memory to the file "f". *)
Module WriteExample.
Definition ip : inode := set_ilock (mkSleeplock 0 0) fx_file.
Definition fl : file := mkFile FD_INODE 1 true true 0 0 5.
Definition k : kern (logst memdisk) :=
  mkKern (mkKst ArgsExample.m 0 0) (mkFsst fx_idle fx_sb (ip :: fx_dir :: replicate 48 zero_inode) 0 0)
    (fl :: replicate 99 zero_file) ∅ [ArgsExample.p] 3 0 0 0.

Lemma k_open : open_at fx_geom k fx_V 0 0 ip 5.
Proof.
  split; cbn [k kn_fs fs_st fs_sb].
  - exact fx_idle_quiet.
  - vm_compute. discriminate.
  - exact fx_sb_ok.
  - intros b Hb Hd. rewrite fx_data_iff in Hd. change (g_size fx_geom) with 48 in Hb. rewrite fx_used by done. apply Z.ltb_lt. lia.
  - reflexivity.
  - reflexivity.
  - apply good_file_lock. split; try (cbn; lia).
    + cbn. discriminate.
    + unfold meta_fits. cbn [i_type i_major i_minor i_nlink fx_file]. unfold T_FILE. lia.
    + rewrite MAXFILE_val, BSIZE_val. cbn [i_size fx_file]. lia.
    + apply (fx_file_wf fx_file 35); [reflexivity|lia].
    + intros bn Hbn Hlt. apply (fx_mapped fx_file 35); [reflexivity|lia|done|]. cbn in Hlt. lia.
    + unfold inode_synced. vm_compute. reflexivity.
  - cbn. lia.
  - exists fl. repeat split.
Qed.

Lemma filewrite_durable_witness :
  wpp (filewrite no_write 0 200 2) (λ r k', r = 2 ∧
    ∃ V' x', (∀ b, V' b = disk_block (bc_disk (ls_bio (fs_st (kn_fs k')))) b) ∧ open_at fx_geom k' V' 0 0 x' 7 ∧
      stored fx_geom fx_sb fx_V ip V' x' 5 (bytes_of "hi") ∧ touches 0 0 k k')
    (disk_full fx_geom fx_sb fx_V ip 7) k.
Proof.
  apply (filewrite_durable no_write fx_geom k fx_V 0 0 ip 5 200 (bytes_of "hi") k_open).
  - intros [|[|i]] b Hb; [injection Hb as <-; vm_compute; reflexivity..|]. discriminate Hb.
  - vm_compute. discriminate.
Defined.
End WriteExample.
