(* ===== verification/Uart.v ===== *)
(** * The serial port and the call stack (src/uart.c, [getcallerpcs] of src/spinlock.c)

    The ports of the 8250 chip are a trace of writes; [inb n port] is what the [n]-th
    read gives if it is of [port].  The registers behind the ports are those of the
    chip's documentation: while bit 7 of the line control register is set, the first
    two ports are the divisor of the baud rate. *)

From S2P Require Import Prelude CString Kalloc.

Definition COM1 : Z := 1016.
Definition IRQ_COM1 : Z := 4.

Record serial : Type := mkSerial {
  uart : bool;                  (* is there a uart? *)
  se_trace : list (Z * Z);      (* ports written *)
  se_reads : nat;
  se_irqs : list (Z * Z);       (* calls of ioapicenable *)
}.

Section uart.
Context (inb_at : nat → Z → Z).
Abbreviation U := (M serial).

Definition outb (port v : Z) : U unit :=
  modify (λ s, mkSerial (uart s) (se_trace s ++ [(port, v mod 256)]) (se_reads s) (se_irqs s)).
Definition inb (port : Z) : U Z := λ s,
  Ok (inb_at (se_reads s) port mod 256) (mkSerial (uart s) (se_trace s) (S (se_reads s)) (se_irqs s)).
Definition enable_irq (irq cpu : Z) : U unit :=
  modify (λ s, mkSerial (uart s) (se_trace s) (se_reads s) (se_irqs s ++ [(irq, cpu)])).

(** The wait for an empty transmit register. *)
Fixpoint uart_wait (n : nat) : U unit :=
  match n with
  | O => mret tt
  | S n => v ← inb (COM1 + 5); if Z.land v 32 =? 0 then uart_wait n else mret tt
  end.

Definition uartputc (c : Z) : U unit :=
  s ← getS;
  if negb (uart s) then mret tt else uart_wait 128;; outb (COM1 + 0) c.

Definition uartgetc : U Z :=
  s ← getS;
  if negb (uart s) then mret (-1)
  else
    v ← inb (COM1 + 5);
    if Z.land v 1 =? 0 then mret (-1) else inb (COM1 + 0).

Fixpoint uart_puts (l : list byte) : U unit :=
  match l with [] => mret tt | c :: l => uartputc (uchar c);; uart_puts l end.

Definition uart_banner : list byte := bytes_of "xv6..." ++ [Byte.x0a].

Definition uartinit : U unit :=
  outb (COM1 + 2) 0;;
  outb (COM1 + 3) 128;;
  outb (COM1 + 0) (115200 / 9600);;
  outb (COM1 + 1) 0;;
  outb (COM1 + 3) 3;;
  outb (COM1 + 4) 0;;
  outb (COM1 + 1) 1;;
  v ← inb (COM1 + 5);
  if v =? 255 then mret tt
  else
    modify (λ s, mkSerial true (se_trace s) (se_reads s) (se_irqs s));;
    inb (COM1 + 2);;
    inb (COM1 + 0);;
    enable_irq IRQ_COM1 0;;
    uart_puts uart_banner.

(** ** The chip *)

Record chip : Type := mkChip {
  ch_divisor : Z;
  ch_ier : Z;            (* interrupts enabled *)
  ch_fcr : Z;            (* FIFO control *)
  ch_lcr : Z;            (* line control *)
  ch_mcr : Z;            (* modem control *)
  ch_sent : list Z;      (* characters sent *)
}.

Definition chip_write (c : chip) (pv : Z * Z) : chip :=
  let '(port, v) := pv in
  let latch := Z.testbit (ch_lcr c) 7 in
  if port =? COM1 + 0 then
    if latch then mkChip (ch_divisor c / 256 * 256 + v) (ch_ier c) (ch_fcr c) (ch_lcr c) (ch_mcr c) (ch_sent c)
    else mkChip (ch_divisor c) (ch_ier c) (ch_fcr c) (ch_lcr c) (ch_mcr c) (ch_sent c ++ [v])
  else if port =? COM1 + 1 then
    if latch then mkChip (v * 256 + ch_divisor c mod 256) (ch_ier c) (ch_fcr c) (ch_lcr c) (ch_mcr c) (ch_sent c)
    else mkChip (ch_divisor c) v (ch_fcr c) (ch_lcr c) (ch_mcr c) (ch_sent c)
  else if port =? COM1 + 2 then mkChip (ch_divisor c) (ch_ier c) v (ch_lcr c) (ch_mcr c) (ch_sent c)
  else if port =? COM1 + 3 then mkChip (ch_divisor c) (ch_ier c) (ch_fcr c) v (ch_mcr c) (ch_sent c)
  else if port =? COM1 + 4 then mkChip (ch_divisor c) (ch_ier c) (ch_fcr c) (ch_lcr c) v (ch_sent c)
  else c.

Definition chip_after (c : chip) (s : serial) : chip := foldl chip_write c (se_trace s).

(** 9600 baud (the clock of 115200 over 12), 8 data bits, no parity, receive interrupts. *)
Definition configured (sent : list Z) : chip := mkChip 12 1 0 3 0 sent.

(** Waiting writes nothing and ends after at most 128 reads. *)
Lemma uart_wait_ok n s :
  wp (uart_wait n) (λ _ s', uart s' = uart s ∧ se_trace s' = se_trace s ∧ se_irqs s' = se_irqs s ∧ (se_reads s' ≤ se_reads s + n)%nat) s.
Proof.
  revert s. induction n as [|n IH]; intros s; [apply wp_ret; split_and!; [done..|lia]|]. cbn [uart_wait]. unfold wp, mbind, M_bind, inb.
  destruct (_ =? 0); [|split_and!; [done..|cbn; lia]].
  eapply (wp_mono _ _ _ _ (IH _)). cbn. intros [] s' (-> & -> & -> & H). split_and!; [done..|lia].
Qed.

(** [uartputc] sends its argument, once, when there is a port. *)
Theorem uartputc_ok c s :
  wp (uartputc c) (λ _ s', uart s' = uart s ∧ se_irqs s' = se_irqs s ∧
    se_trace s' = se_trace s ++ (if uart s then [(COM1 + 0, c mod 256)] else [])) s.
Proof.
  unfold uartputc. apply wp_getS. destruct (uart s) eqn:E; cbn [negb]; [|apply wp_ret; by rewrite app_nil_r].
  apply wp_bind. eapply wp_mono; [apply uart_wait_ok|]. intros [] s' (Hu & Ht & Hi & _). unfold outb. apply wp_modify_end. cbn. by rewrite Ht, Hi, Hu.
Qed.

Lemma uart_puts_ok l s :
  uart s = true →
  wp (uart_puts l) (λ _ s', uart s' = true ∧ se_irqs s' = se_irqs s ∧ se_trace s' = se_trace s ++ ((λ c, (COM1 + 0, uchar c)) <$> l)) s.
Proof.
  revert s. induction l as [|c l IH]; intros s Hu; cbn [uart_puts]; [apply wp_ret; by rewrite app_nil_r|].
  apply wp_bind. eapply wp_mono; [apply uartputc_ok|]. rewrite Hu. intros [] s1 (Hu1 & Hi1 & Ht1).
  eapply wp_mono; [by apply IH|]. intros [] s2 (Hu2 & Hi2 & Ht2). pose proof (uchar_range c).
  split_and!; [done|congruence|]. rewrite Ht2, Ht1, Z.mod_small, <-app_assoc by lia. done.
Qed.

(** Characters sent to a configured chip. *)
Lemma chip_sent l out : foldl chip_write (configured out) ((λ c, (COM1 + 0, uchar c)) <$> l) = configured (out ++ (uchar <$> l)).
Proof.
  revert out. induction l as [|c l IH]; intros out; [by rewrite app_nil_r|]. cbn [fmap list_fmap foldl].
  change (chip_write (configured out) (COM1 + 0, uchar c)) with (configured (out ++ [uchar c])). rewrite IH, <-app_assoc. done.
Qed.

(** After [uartinit] the chip is configured whatever state it was in: 9600 baud, 8 data
    bits, no parity, the FIFO off.  With a chip present the interrupt line is
    enabled and the banner sent; otherwise nothing is sent, and [uart] stays 0. *)
Theorem uartinit_ok c s :
  ch_sent c = [] → se_trace s = [] → se_irqs s = [] → uart s = false →
  wp uartinit (λ _ s', uart s' = negb (inb_at (se_reads s) (COM1 + 5) mod 256 =? 255) ∧
    se_irqs s' = (if uart s' then [(IRQ_COM1, 0)] else []) ∧
    chip_after c s' = configured (if uart s' then uchar <$> uart_banner else [])) s.
Proof.
  destruct s as [u t r i], c as [dv ier fcr lcr mcr sent]. cbn. intros -> -> -> ->. unfold uartinit, outb. do 7 apply wp_bind, wp_modify_end.
  apply wp_bind. unfold inb at 1. unfold wp at 1. cbn [se_reads se_trace se_irqs uart app]. change (115200 / 9600) with 12.
  assert (Hc : ∀ tr, foldl chip_write (mkChip dv ier fcr lcr mcr []) ([(COM1 + 2, 0); (COM1 + 3, 128); (COM1 + 0, 12); (COM1 + 1, 0); (COM1 + 3, 3); (COM1 + 4, 0); (COM1 + 1, 1)] ++ tr)
     = foldl chip_write (configured []) tr).
  { intros tr. rewrite foldl_app. f_equal. cbn [foldl].
    change (chip_write (mkChip dv ier fcr lcr mcr []) (COM1 + 2, 0)) with (mkChip dv ier 0 lcr mcr []).
    change (chip_write (mkChip dv ier 0 lcr mcr []) (COM1 + 3, 128)) with (mkChip dv ier 0 128 mcr []).
    change (chip_write (mkChip dv ier 0 128 mcr []) (COM1 + 0, 12)) with (mkChip (dv / 256 * 256 + 12) ier 0 128 mcr []).
    change (chip_write (mkChip ?d ier 0 128 mcr []) (COM1 + 1, 0)) with (mkChip (0 * 256 + d mod 256) ier 0 128 mcr []).
    rewrite Z.mul_0_l, Z.add_0_l, Z.add_comm, Z.mod_add by lia. reflexivity. }
  destruct (_ =? 255); cbn [negb].
  - apply wp_ret. cbn [uart]. split_and!; [done|done|]. unfold chip_after. exact (Hc []).
  - apply wp_modify, wp_bind. unfold inb at 1. unfold wp at 1. apply wp_bind. unfold inb at 1. unfold wp at 1. apply wp_modify.
    eapply wp_mono; [by apply uart_puts_ok|]. intros [] s' (Hu & Hi & Ht). rewrite Hu. split_and!; [done|by rewrite Hi|].
    unfold chip_after. rewrite Ht. cbn [se_trace]. etrans; [apply Hc|]. apply (chip_sent uart_banner []).
Qed.

(** [uartgetc] gives the received byte exactly when the status says there is one. *)
Theorem uartgetc_ok s :
  uartgetc s = (if uart s then
      let n := se_reads s in
      if Z.testbit (inb_at n (COM1 + 5)) 0
      then Ok (inb_at (S n) (COM1 + 0) mod 256) (mkSerial true (se_trace s) (S (S n)) (se_irqs s))
      else Ok (-1) (mkSerial true (se_trace s) (S n) (se_irqs s))
    else Ok (-1) s).
Proof.
  unfold uartgetc, mbind, M_bind, getS. destruct (uart s) eqn:E; cbn [negb]; [|done]. unfold inb at 1. cbn [se_reads uart se_trace se_irqs].
  change 1 with (Z.ones 1) at 1. rewrite Z.land_ones by lia. change 256 with (2 ^ 8).
  assert (Hm : inb_at (se_reads s) (COM1 + 5) mod 2 ^ 8 mod 2 ^ 1 = Z.b2z (Z.testbit (inb_at (se_reads s) (COM1 + 5)) 0)).
  { rewrite Z.bit0_mod. change (2 ^ 8) with 256. change (2 ^ 1) with 2. generalize (inb_at (se_reads s) (COM1 + 5)). intros v.
    Z.to_euclidean_division_equations; lia. }
  rewrite Hm. destruct (Z.testbit _ 0); cbn [Z.b2z Z.eqb]; [|by rewrite E]. unfold inb. cbn [se_reads uart se_trace se_irqs]. by rewrite E.
Qed.
End uart.

(** ** The call stack

    A frame has the saved [ebp] of its caller and the return address. *)
Fixpoint caller_pcs (m : mem) (ebp : Z) (n : nat) : list Z :=
  match n with
  | O => []
  | S n' =>
      if (ebp =? 0) || (ebp <? KERNBASE) || (ebp =? 2 ^ 32 - 1) then replicate n 0
      else ldw m (u32 (ebp + 4)) :: caller_pcs m (ldw m ebp) n'
  end.

(** Record the current call stack in [pcs]; [v] is the address of the first argument. *)
Definition getcallerpcs (m : mem) (v : Z) : list Z := caller_pcs m (u32 (v - 8)) 10.

(** The frames from [ebp] return to [pcs], and the last saved [ebp] is not in the kernel. *)
Fixpoint frames (m : mem) (ebp : Z) (pcs : list Z) : Prop :=
  match pcs with
  | [] => 0 ≤ ebp < KERNBASE
  | pc :: pcs => KERNBASE ≤ ebp < 2 ^ 32 - 5 ∧ ldw m (ebp + 4) = pc ∧ frames m (ldw m ebp) pcs
  end.

(** [getcallerpcs] gives the return addresses of the innermost ten frames, padded with
    zeros when there are fewer. *)
Theorem getcallerpcs_ok m v pcs :
  8 ≤ v < 2 ^ 32 → frames m (v - 8) pcs → getcallerpcs m v = take 10 (pcs ++ replicate 10 0).
Proof.
  intros Hv. unfold getcallerpcs. rewrite u32_small by lia. generalize (v - 8). clear v Hv. unfold KERNBASE.
  generalize 10%nat. intros n. revert pcs. induction n as [|n IH]; intros pcs ebp Hf; [done|]. cbn [caller_pcs].
  unfold KERNBASE. destruct pcs as [|pc pcs]; cbn [frames] in Hf; unfold KERNBASE in Hf.
  - rewrite (proj2 (Z.ltb_lt _ _)), orb_true_r by lia. cbn [orb app]. by rewrite take_ge by (rewrite length_replicate; lia).
  - destruct Hf as (Hr & Hpc & Hf). rewrite (proj2 (Z.ltb_ge _ _)), !(proj2 (Z.eqb_neq _ _)) by lia. cbn [orb app take].
    rewrite u32_small, Hpc by lia. f_equal. rewrite (IH pcs _ Hf), replicate_S_end, app_assoc.
    rewrite (take_app_le (pcs ++ replicate n 0)); [done|]. rewrite length_app, length_replicate. lia.
Qed.
