(* ===== verification/Init.v ===== *)
(** * The first user program (src/init.c)

    The program runs on the answers the kernel gives to its system calls, and its
    calls are a trace.  A call without an answer has not returned. *)

From S2P Require Import Prelude Fcntl.

Inductive icall : Type :=
| COpen (path : string) (mode : Z)
| CMknod (path : string) (major minor : Z)
| CDup (fd : Z)
| CPrint (fd : Z) (text : string)
| CFork
| CExec (path : string) (argv : list string)
| CWait
| CExit.

Record iworld : Type := mkIworld { iw_answers : list Z; iw_calls : list icall }.

Definition sys (c : icall) : M iworld Z := λ w,
  match iw_answers w with
  | [] => Blocked (mkIworld [] (iw_calls w ++ [c]))
  | r :: l => Ok r (mkIworld l (iw_calls w ++ [c]))
  end.

(** [printf] of a line to descriptor 1 returns nothing; [exit] does not return. *)
Definition msg (text : string) : icall := CPrint 1 (text +:+ String (Ascii.ascii_of_nat 10) EmptyString).
Definition iprint (text : string) : M iworld unit := modify (λ w, mkIworld (iw_answers w) (iw_calls w ++ [msg text])).
Definition iexit {A} : M iworld A := λ w, Blocked (mkIworld (iw_answers w) (iw_calls w ++ [CExit])).

(** [while((wpid=wait()) >= 0 && wpid != pid) printf(1, "zombie!\n");] *)
Fixpoint init_wait (pid : Z) (fuel : nat) : M iworld unit :=
  match fuel with
  | O => sleeps
  | S fuel => wpid ← sys CWait; if (0 <=? wpid) && negb (wpid =? pid) then iprint "zombie!";; init_wait pid fuel else mret tt
  end.

Fixpoint init_loop (fuel : nat) : M iworld unit :=
  match fuel with
  | O => sleeps
  | S fuel' =>
      iprint "init: starting sh";;
      pid ← sys CFork;
      if pid <? 0 then iprint "init: fork failed";; iexit
      else if pid =? 0 then sys (CExec "sh" ["sh"]);; iprint "init: exec sh failed";; iexit
      else init_wait pid fuel;; init_loop fuel'
  end.

(** Every turn of a loop takes an answer, so one more turn than answers is enough. *)
Definition init_main : M iworld unit :=
  r ← sys (COpen "console" O_RDWR);
  (if r <? 0 then sys (CMknod "console" 1 1);; sys (COpen "console" O_RDWR);; mret tt else mret tt);;
  sys (CDup 0);;
  sys (CDup 0);;
  w ← getS;
  init_loop (S (length (iw_answers w))).

(** ** Init keeps a shell running

    A life of the shell [pid]: other children of init exit before it. *)
Record life : Type := mkLife { lf_pid : Z; lf_orphans : list Z }.
Definition life_ok (l : life) : Prop := 0 < lf_pid l ∧ Forall (λ c, 0 ≤ c ∧ c ≠ lf_pid l) (lf_orphans l).

Definition life_answers (l : life) : list Z := lf_pid l :: lf_orphans l ++ [lf_pid l].
Definition life_calls (l : life) : list icall :=
  msg "init: starting sh" :: CFork :: (lf_orphans l ≫= λ _, [CWait; msg "zombie!"]) ++ [CWait].

Lemma sys_Ok c r l calls : sys c (mkIworld (r :: l) calls) = Ok r (mkIworld l (calls ++ [c])).
Proof. done. Qed.

Lemma init_wait_ok pid orphans rest calls fuel :
  Forall (λ c, 0 ≤ c ∧ c ≠ pid) orphans → (length orphans < fuel)%nat →
  init_wait pid fuel (mkIworld (orphans ++ pid :: rest) calls) =
    Ok tt (mkIworld rest (calls ++ (orphans ≫= λ _, [CWait; msg "zombie!"]) ++ [CWait])).
Proof.
  intros Ho. revert calls fuel. induction Ho as [|c orphans [H0 Hne] _ IH]; intros calls [|fuel] Hf; cbn [length] in Hf; try lia;
    cbn [init_wait app]; unfold mbind at 1, M_bind at 1, sys; cbn [iw_answers iw_calls].
  - rewrite Z.eqb_refl, andb_false_r. done.
  - rewrite (proj2 (Z.leb_le _ _)), (proj2 (Z.eqb_neq _ _)) by done. cbn [andb negb]. rewrite (bind_Ok (iprint _) _ _ tt _ eq_refl).
    cbn [iw_answers iw_calls]. rewrite IH by lia. f_equal. f_equal. cbn [mbind list_bind]. by rewrite <-!app_assoc.
Qed.

(** When the shell of a life exits init starts the next one, and reports the orphans
    that exited before it; after the last life it waits in [fork] for a new shell. *)
Theorem init_keeps_shell lives calls fuel :
  Forall life_ok lives → (length (lives ≫= life_answers) < fuel)%nat →
  init_loop fuel (mkIworld (lives ≫= life_answers) calls) =
    Blocked (mkIworld [] (calls ++ (lives ≫= life_calls) ++ [msg "init: starting sh"; CFork])).
Proof.
  intros Hl. revert calls fuel. induction Hl as [|l lives [Hp Ho] _ IH]; intros calls [|fuel] Hf; cbn [length mbind list_bind] in Hf; try lia.
  - cbn [init_loop mbind list_bind app]. rewrite (bind_Ok (iprint _) _ _ tt _ eq_refl). unfold mbind, M_bind, sys. cbn. by rewrite <-app_assoc.
  - rewrite length_app in Hf. cbn [life_answers length] in Hf. rewrite length_app in Hf. cbn [length] in Hf.
    cbn [init_loop mbind list_bind life_answers app]. rewrite (bind_Ok (iprint _) _ _ tt _ eq_refl). cbn [iw_answers iw_calls].
    rewrite (bind_Ok _ _ _ _ _ (sys_Ok _ _ _ _)). rewrite (proj2 (Z.ltb_ge _ _)), (proj2 (Z.eqb_neq _ _)) by lia.
    rewrite <-app_assoc. cbn [app iw_calls]. rewrite (bind_Ok _ _ _ _ _ (init_wait_ok (lf_pid l) (lf_orphans l) (lives ≫= life_answers) _ (S fuel) Ho ltac:(lia))).
    rewrite IH by lia. f_equal. f_equal. unfold life_calls. cbn [app]. rewrite <-!app_assoc. cbn [app]. rewrite <-?app_assoc. done.
Qed.
